(* ===== verification/_CoqProject ===== *)
-Q . S2P
Prelude.v
Sha256.v
HashChain.v
Merkle.v
IsoTime.v
UtcTime.v
Json.v
JsonParse.v
LocalAudit.v
AuditCanon.v
AuditLog.v
AuditChain.v
AuditMerkle.v
Effects.v
RateLimit.v
ReplayStore.v
Base64.v
Dpop.v
NonceSecret.v
LocalSession.v
MessageQueue.v
BundleVerify.v
AuditExport.v
ProofVerify.v
TsaVerify.v
AuditVerifyCli.v
Tier.v
Intune.v
Mdm.v
AgentRegistry.v
Enrollment.v
ClientCert.v
Credentials.v
EnrollmentLife.v
AgentKeys.v
TokenText.v
Quarantine.v
Traffic.v
Anomaly.v
Federation.v
Budget.v
Policy.v
ToolRegistry.v
LlmChat.v
ToolDetail.v
Executor.v
Forwarder.v
Aggregator.v
Middleware.v
DashboardSession.v
DashboardLogin.v
ApiTokens.v
WebAuthn.v
UserSession.v
