(* ===== verification/Prelude.v ===== *)
(** * Cullis: a verification library of the Mastio gateway

    Cullis is a gateway ("Mastio", the Python package [mcp_proxy]) that
    enrolls and authenticates agents, applies policy to what they do, spends
    their budgets and writes a tamper-evident audit trail, and an offline
    verifier ([scripts/cullis-audit-verify.py]) that checks exports of that
    trail.  This library models the parts whose behaviour the program itself
    decides and proves what makes them correct.  Everything below refers to
    the directory [src/] of the repository, paths without a directory to
    [src/mcp_proxy/].

    ** The parts and how they interact

    The base, used everywhere: this file (outcomes, texts, dictionaries,
    sorting, splitting), [Sha256], [IsoTime] and [UtcTime] (timestamps and the
    calendar), [Json] and [JsonParse], [Base64], and [Effects], the monad of
    the handlers with its triples and the interfaces of a state that carries
    an audit trail ([Trailed]) and whose transactions are undone when they
    raise ([Transactional], [preserves]).

    - The audit trail.  Every action is recorded by [db.py:log_audit] in the
      table [audit_log], directly or through [audit_chain.py:
      BatchedAuditChain].  [AuditCanon] has the text a row hashes, [AuditLog]
      the writers and [verify_audit_chain], [AuditChain] their theorems, among
      them the ones about any interleaving of the workers that share the
      table.  [LocalAudit] is the second table, one chain per organisation.
      Both rest on [HashChain].  [AuditMerkle] anchors batches of rows under a
      Merkle root ([Merkle]) and proves a row against an anchor.
    - The offline verifier.  [AuditExport] streams both tables and their
      anchors; [BundleVerify], [ProofVerify], [TsaVerify] and
      [AuditVerifyCli] read the stream, down to the exit code.
    - Admission.  A request passes the middlewares ([Middleware]), is limited
      per agent ([RateLimit]) and authenticated: by a DPoP proof ([Dpop], with
      its single-use stores [ReplayStore] and the shared secret of its nonces
      [NonceSecret]), by a client certificate ([ClientCert]), or by the API
      token of a user ([TokenText], [ApiTokens]).  A Connector binds a user to
      its device and its requests are made on the user's behalf
      ([UserSession], with the ceremonies of [WebAuthn]).  Administrators sign
      in with a password ([DashboardLogin]) and carry a signed cookie
      ([DashboardSession]).
    - Agents.  [AgentRegistry] is the table of agents with their credentials
      and what the administration changes in it; [Enrollment] admits a
      Connector from its request to its certificate; [AgentKeys] creates
      agents whose keys the Mastio holds; [Credentials] and [EnrollmentLife]
      hold the theorems about enrollment and authentication together.  [Tier]
      gives an agent a device tier; [Intune] and [Mdm] poll the device
      management and revoke the agents of non-compliant devices.  [Traffic]
      counts requests and learns baselines, [Anomaly] judges them, and
      [Quarantine] switches agents off, deletes and reactivates them.
    - Tools.  [ToolRegistry] is the registry of tools and their guards,
      [Policy] the decision on a call, also across organisations; [Executor]
      runs a call, with the row [ToolDetail] writes and the handler
      [Forwarder] that posts to an MCP server; [Aggregator] is the JSON-RPC
      endpoint in front of it.
    - Models.  [LlmChat] is the chat endpoint of the LLM gateway with its
      streams, [Budget] the counter of the tokens an agent has spent.
    - Federation.  [Federation] sends agents whose revision has moved, and the
      rows of the per-organisation chains, to the Court of the federation.
    - Messages.  Two agents of one organisation talk through a session
      ([LocalSession]) and messages kept until they are acknowledged
      ([MessageQueue]).

    The header of each file names the Python files it models; a definition
    carries the name of the function it models where it models one.

    ** Conventions of the models

    - A table is the list of its rows in commit order; a UNIQUE constraint is
      a guard of the INSERT that raises [IntegrityError]; a dict is a [gmap],
      or an association list where its order is visible.  SQL that reads a
      table is a filter, a stable sort and a prefix.
    - A Python call is a function of its arguments, the clock it reads and the
      state it changes, and gives an [outcome]: a value or an exception of
      [exn].  [HTTPException] keeps its status and its detail, [sys.exit] is
      [SystemExit].  A handler is a program of [Effects.M]: state passing with
      [raise], [catch] and [transaction]; whether a statement fails is an
      argument, a function of the number of statements so far.
    - What other connections or workers do between two statements is an input
      ([db_event], [local_event], the list of tables an export's queries meet)
      or a step of a relation or a list of steps ([worker_step], [boot_step],
      [nonce_step], [enrollment_step], [flusher_step], [happening]).  Where a
      handler awaits between what it checks and what it writes, it is cut there
      into pieces that other calls come between ([desk_step] for the decisions
      on an enrollment, [login_move] for the sign-ins, [budget_step] for the
      reservations of a budget).
    - A property that compares a handler with what it should do says that in
      definitions of its own, which do not call the handler's guards
      ([routed] and [admitted] of [LlmChat], [shows], [cert_names] and
      [registry_knows] of [Credentials], [announcement] of [Federation],
      [dispute_grade_token] of [AuditVerifyCli]).
    - Values that a tool returns live at addresses of a heap, so they can be
      shared and cyclic ([ToolDetail]).
    - Integers of Python are [Z]; instants are integers of one unit, named in
      each file; floats are rationals, without rounding; the words of SHA-256
      are kept at 32 bits.  A [str] is the string of its UTF-8 bytes.
    - Code of other packages is an argument or a class: [DpopRuntime] (JWT
      library, URL parser, float parsing), [RedisTTL], [Cryptography] and
      [CertificateBuilder] (keys and certificates), [X509] and [Rfc3161],
      [bcrypt], [Webauthn], YAML, HTTP answers.  Witnesses instantiate them.

    ** What the theorems show

    - The trail is one chain: every path of the writers, and every
      interleaving of workers, leaves tables the verifiers accept; a call that
      returns has recorded its row; batching changes nothing while nobody
      else writes and the database works; a rejection names the first row that breaks the chain.  The hash of the last row
      determines the hashed fields of a chain that starts at position 1, up to an explicit SHA-256 collision: the
      theorems give the collision instead of assuming there is none.
    - Trees: proofs of inclusion exist, verify, have the length of the tree,
      and at that length nothing but the leaves verifies (again up to a
      collision).  Anchored rows keep their proofs while the table grows.
    - The primary chain of an export passes the offline verifier; exit code 0
      under the two floors implies full chains and an anchor under a time
      stamp of dispute grade: imprint, time, and a signer whose certificate
      leads to a configured root.
    - Admission: a DPoP proof is accepted once; the rates hold on every
      window; a certificate is let in exactly when the registry pins it, and a
      re-enrollment leaves exactly two, one of them for the grace period; a
      token that was minted opens its paths until it expires or is revoked, and
      nothing else does; a request is made on behalf of a user only under a
      login of that user, and under one until it expires; at most 2k + 3
      guesses of the password per address and quarter of an hour with at most
      k sign-ins past the check at once, so five one at a time.
    - Authorisation: a handler runs only for an agent whose capability,
      binding, tier and policy allow it; an answer of the executor, of the
      JSON-RPC endpoint and of the chat endpoint has its row in the trail; an
      LLM adapter is entered exactly for the requests that are admitted, on
      the route the model and the settings name.
    - Life cycles: enrollment, sessions, messages, keys and revocations go
      only through the transitions the code allows, and a decision on an
      enrollment is final but for calls that read it while it was pending; the evaluator decides only
      on sustained triggers and never more than its ceiling in a minute.
    - Accounts: the counter of tokens is the sum of the trail up to what
      strays across a period or is never charged; requests are
      counted once; baselines summarise exactly the samples of their hour.
    - Federation: an agent whose revision is the last one pushed is as the
      Court was told, as long as the other writers move the revision with the
      row; a tick that is answered, over readable rows, posts every pending
      agent once; with one organisation no row up to the replication cursor is
      missing at the Court.
    - What the code does not do although a comment says so, or does against
      its evident purpose, is a theorem as well; these are the findings of the
      manifest.

    ** Fuel

    Retry loops run on the list of the outcomes of their at most five attempts
    ([_AUDIT_CHAIN_MAX_RETRIES], [_MAX_CHAIN_RETRIES]), so they are complete.
    The loops of [Merkle] run on the number of leaves, which halves
    ([next_level_length]); [inclusion_complete] shows the results.  The export
    loop runs on the list of the tables its queries meet; [export_completes]
    shows that a list of the length of the table suffices when it stands
    still.  The walk over a value of [ToolDetail] runs on the recursion limit
    of the interpreter, and [cyclic_results_end] shows that a result that fits
    below it ends, cycles included.  [JsonParse] runs on the length of the
    text, which every call shortens; the pages of [Intune] on the code's own
    cap of pages; decoding of percent escapes on the length of the text.  The
    trust walk has the code's own bound on its rounds.  Everything else is
    structural.

    ** What is not modelled

    The pages of the dashboard beyond signing in, the egress router, the
    certificate authorities and their rotation, the adapters that translate
    between LLM providers, key management, the reverse proxy to a broker and
    the client SDK: they are mostly calls to HTTP services, Vault and
    cryptographic packages around single database statements.  Plugins,
    migrations and the parsing of settings are declarations.  Of the modelled
    parts: log lines and metrics, the Redis Lua scripts other than the budget's
    (which is [adjust] of [redis_backend]), most read-only
    listing endpoints.  asyncio locks have no definition; they only remove
    interleavings inside one process, and the theorems hold without them or
    take the operations under the lock as one step.

    ** Order of further work

    The local tokens and the rotation of the Mastio keys; the certificate
    requests of users and workloads; the translation of the LLM adapters;
    completeness of the trust walk; RFC 6962 soundness against a tree. *)

From Stdlib Require Export ZArith Lia Ascii.
From stdpp Require Export base tactics list strings gmap sorting pretty.

#[export] Set Default Goal Selector "!".

(** ** Python outcomes

    A Python call either returns a value or raises.  The constructors of
    [exn] are the exception classes the modelled code raises or catches;
    messages are dropped except where a caller can tell two raises apart. *)

Inductive exn :=
| RuntimeError
| ValueError
| TypeError
| IndexError
| KeyError
| AttributeError
| IntegrityError           (* sqlalchemy.exc.IntegrityError *)
| OperationalError         (* any other database failure *)
| AuditChainExhausted      (* mcp_proxy.audit_chain *)
| LocalAgentSessionCapExceeded   (* mcp_proxy.local.session *)
| IntuneGraphError (status : Z) (message : string)   (* mcp_proxy.mdm.intune *)
| OverflowError
| HTTPError (name : string)      (* httpx.HTTPError, with the name of its class *)
| GatewayError (status : Z) (reason : string) (detail hint : option string)   (* egress.ai_gateway *)
| GeneratorExit            (* a generator is closed at a yield *)
| EnrollmentError (http_status : Z) (message : string)   (* mcp_proxy.enrollment.service *)
| Other (class text : string)    (* any other class, with its text *)
| HTTPException (status : Z) (detail : string)
| SystemExit (code : Z).

#[export] Instance exn_eq_dec : EqDecision exn.
Proof. solve_decision. Defined.

(** [type(exc).__name__] *)
Definition exn_class (e : exn) : string :=
  match e with
  | RuntimeError => "RuntimeError" | ValueError => "ValueError" | TypeError => "TypeError"
  | IndexError => "IndexError" | KeyError => "KeyError" | AttributeError => "AttributeError"
  | IntegrityError => "IntegrityError" | OperationalError => "OperationalError"
  | AuditChainExhausted => "AuditChainExhausted"
  | LocalAgentSessionCapExceeded => "LocalAgentSessionCapExceeded"
  | HTTPException _ _ => "HTTPException" | SystemExit _ => "SystemExit"
  | IntuneGraphError _ _ => "IntuneGraphError" | OverflowError => "OverflowError" | HTTPError _ => "HTTPError"
  | GatewayError _ _ _ _ => "GatewayError" | GeneratorExit => "GeneratorExit" | EnrollmentError _ _ => "EnrollmentError" | Other class _ => class
  end.

Inductive outcome (A : Type) :=
| Ret (a : A)
| Raise (e : exn).
Arguments Ret {A} a.
Arguments Raise {A} e.

Definition obind {A B} (m : outcome A) (f : A → outcome B) : outcome B :=
  match m with Ret a => f a | Raise e => Raise e end.

Declare Scope py_scope.
Delimit Scope py_scope with py.

Notation "'let!' x ':=' m 'in' k" := (obind m (λ x, k))
  (at level 10, x pattern, m at level 100, k at level 200,
   format "'[v' 'let!'  x  ':='  m  'in' '/' k ']'") : py_scope.
Open Scope py_scope.

Definition is_ret {A} (m : outcome A) : bool :=
  match m with Ret _ => true | Raise _ => false end.

(** [[f(x) for x in l]], stopping at the first raise. *)
Fixpoint omapM {A B} (f : A → outcome B) (l : list A) : outcome (list B) :=
  match l with
  | [] => Ret []
  | x :: rest => let! y := f x in let! ys := omapM f rest in Ret (y :: ys)
  end.

Lemma omapM_Ret {A B} (f : A → outcome B) l l' :
  omapM f l = Ret l' ↔ Forall2 (λ x y, f x = Ret y) l l'.
Proof.
  revert l'. induction l as [|x l IH]; intros l'; simpl.
  - split; [intros [= <-]; constructor|]. intros Hl. by inversion_clear Hl.
  - destruct (f x) as [y|e] eqn:Hf; simpl.
    + destruct (omapM f l) as [ys|e]; simpl.
      * split; [intros [= <-]; constructor; [done|by apply IH]|].
        intros Hl. inversion_clear Hl as [|? y' ? l'' Hy Hrest]. apply IH in Hrest. congruence.
      * split; [done|]. intros Hl. inversion_clear Hl as [|? y' ? l'' Hy Hrest].
        apply IH in Hrest. congruence.
    + split; [done|]. intros Hl. inversion_clear Hl. congruence.
Qed.

(** ** Strings

    A Python [str] is the sequence of its UTF-8 bytes, so [.encode("utf-8")]
    is the identity and [len(s.encode())] is [String.length]. *)

(** [x or ''] on an [Optional[str]]. *)
Definition or_empty (o : option string) : string := default "" o.

(** [x or d] on an [Optional[str]]: both [None] and the empty string are falsy. *)
Definition or_default (d : string) (o : option string) : string :=
  match o with
  | Some EmptyString | None => d
  | Some s => s
  end.

(** [bool(x)] for an [Optional[str]]. *)
Definition truthy (o : option string) : bool :=
  match o with Some (String _ _) => true | _ => false end.

(** [str(x)] for an [Optional[str]] column value. *)
Definition py_str (o : option string) : string := default "None" o.

(** [sep.join(parts)]. *)
Fixpoint join (sep : string) (parts : list string) : string :=
  match parts with
  | [] => ""
  | [s] => s
  | s :: rest => s +:+ sep +:+ join sep rest
  end.

(** [c in s] for a one-character [c]. *)
Fixpoint has_char (c : ascii) (s : string) : bool :=
  match s with
  | EmptyString => false
  | String d s' => bool_decide (c = d) || has_char c s'
  end.

(** The separator of every canonical audit form. *)
Definition pipe : ascii := "|"%char.
Abbreviation pipe_free s := (has_char pipe s = false).

(** [s.startswith(p)]. *)
Fixpoint startswith (s p : string) : bool :=
  match p, s with
  | EmptyString, _ => true
  | String c p', String d s' => bool_decide (c = d) && startswith s' p'
  | String _ _, EmptyString => false
  end.

(** [s.lower()] and [s.upper()] on ASCII letters. *)
Fixpoint lower (s : string) : string :=
  match s with
  | EmptyString => ""
  | String c s' =>
      let n := N_of_ascii c in
      String (if ((65 <=? n) && (n <=? 90))%N then ascii_of_N (n + 32) else c) (lower s')
  end.

Definition upper_char (c : ascii) : ascii :=
  let n := N_of_ascii c in
  if ((97 <=? n) && (n <=? 122))%N then ascii_of_N (n - 32) else c.

Fixpoint upper (s : string) : string :=
  match s with EmptyString => "" | String c s' => String (upper_char c) (upper s') end.

(** [s[len(p):]] *)
Fixpoint drop_prefix (p s : string) : string :=
  match p, s with String _ p', String _ s' => drop_prefix p' s' | _, _ => s end.

Lemma str_app_assoc (a b c : string) : (a +:+ b) +:+ c = a +:+ b +:+ c.
Proof.
  induction a as [|x a IH]; [done|].
  change (String x ((a +:+ b) +:+ c) = String x (a +:+ b +:+ c)). by rewrite IH.
Qed.

Lemma str_app_nil_r (a : string) : a +:+ "" = a.
Proof.
  induction a as [|x a IH]; [done|].
  change (String x (a +:+ "") = String x a). by rewrite IH.
Qed.

Lemma str_app_cons (x : ascii) (a b : string) :
  String x a +:+ b = String x (a +:+ b).
Proof. done. Qed.

Lemma startswith_iff s p : startswith s p = true ↔ s = p +:+ drop_prefix p s.
Proof.
  revert s. induction p as [|c p IH]; intros [|d s]; try done. simpl.
  rewrite andb_true_iff, bool_decide_eq_true, IH. rewrite str_app_cons.
  split; [intros [-> <-]; done|]. intros [= -> <-]. done.
Qed.

Lemma drop_prefix_app p s : drop_prefix p (p +:+ s) = s.
Proof. induction p as [|c p IH]; [by destruct s|]. rewrite str_app_cons. exact IH. Qed.

Lemma has_char_app c (a b : string) : has_char c (a +:+ b) = has_char c a || has_char c b.
Proof.
  induction a as [|x a IH]; [done|].
  rewrite str_app_cons. simpl. rewrite IH. by destruct (bool_decide _), (has_char c a).
Qed.

Lemma str_app_inj_l (a b c : string) : a +:+ b = a +:+ c → b = c.
Proof. induction a as [|x a IH]; [done|]. rewrite !str_app_cons. intros [=]. auto. Qed.

(** The first separator of a string is where its separator-free prefix ends. *)
Lemma split_first c (a b x y : string) :
  has_char c a = false → has_char c b = false →
  a +:+ String c x = b +:+ String c y → a = b ∧ x = y.
Proof.
  revert b. induction a as [|d a IH]; intros [|e b] Ha Hb; rewrite ?str_app_cons.
  - by intros [= ->].
  - intros [= -> _]. simpl in Hb. by rewrite bool_decide_eq_true_2 in Hb.
  - intros [= -> _]. simpl in Ha. by rewrite bool_decide_eq_true_2 in Ha.
  - intros [= -> Heq]. simpl in *.
    apply orb_false_iff in Ha as [_ Ha], Hb as [_ Hb].
    by destruct (IH b Ha Hb Heq) as [-> ->].
Qed.

Lemma str_length_app (a b : string) :
  String.length (a +:+ b) = String.length a + String.length b.
Proof. induction a as [|x a IH]; [done|]. rewrite str_app_cons. simpl. by rewrite IH. Qed.

Lemma str_app_inj_len (a b x y : string) :
  String.length a = String.length b → a +:+ x = b +:+ y → a = b ∧ x = y.
Proof.
  revert b. induction a as [|c a IH]; intros [|d b]; rewrite ?str_app_cons; simpl;
    try done.
  intros [= Hlen] [= -> Heq]. by destruct (IH b Hlen Heq) as [-> ->].
Qed.

(** The last separator: what follows it is determined when it is free of it. *)
Lemma split_last c (a b x y : string) :
  has_char c x = false → has_char c y = false →
  a +:+ String c x = b +:+ String c y → a = b ∧ x = y.
Proof.
  intros Hx Hy. revert b. induction a as [|d a IH]; intros [|e b]; rewrite ?str_app_cons.
  - by intros [= ->].
  - intros [= <- ->]. rewrite has_char_app in Hx. simpl in Hx.
    rewrite bool_decide_eq_true_2 in Hx by done. by rewrite orb_true_r in Hx.
  - intros [= -> <-]. rewrite has_char_app in Hy. simpl in Hy.
    rewrite bool_decide_eq_true_2 in Hy by done. by rewrite orb_true_r in Hy.
  - intros [= -> Heq]. by destruct (IH b Heq) as [-> ->].
Qed.

(** ** Pipe-joined forms

    [join "|" parts] determines every part when all of them but one, which may
    be any text, are free of the separator: the parts before it are read from
    the left, the parts after it from the right. *)

Lemma join_cons sep s parts :
  parts ≠ [] → join sep (s :: parts) = s +:+ sep +:+ join sep parts.
Proof. by destruct parts. Qed.

Lemma join_snoc sep parts s :
  parts ≠ [] → join sep (parts ++ [s]) = join sep parts +:+ sep +:+ s.
Proof.
  intros Hne. induction parts as [|x [|y parts] IH]; [done|done|].
  cbn [app]. rewrite join_cons by done. rewrite (join_cons sep x) by done.
  change ((y :: parts ++ [s])%list) with ((y :: parts) ++ [s])%list.
  rewrite IH by done. by rewrite !str_app_assoc.
Qed.

Definition no_pipe (s : string) : Prop := pipe_free s.

Lemma join_inj_right d d' r r' :
  length r = length r' → Forall no_pipe r → Forall no_pipe r' →
  join "|" (d :: r) = join "|" (d' :: r') → d = d' ∧ r = r'.
Proof.
  revert r'. induction r as [|x r IH] using rev_ind; intros r' Hlen Hr Hr'.
  { destruct r'; [|done]. by intros [= ->]. }
  destruct r' as [|x' r' _] using rev_ind; [rewrite length_app in Hlen; simpl in Hlen; lia|].
  rewrite !length_app in Hlen. simpl in Hlen.
  apply Forall_app in Hr as [Hr [Hx _]%Forall_cons_1], Hr' as [Hr' [Hx' _]%Forall_cons_1].
  change (d :: r ++ [x])%list with ((d :: r) ++ [x])%list.
  change (d' :: r' ++ [x'])%list with ((d' :: r') ++ [x'])%list.
  rewrite !join_snoc by done. intros Heq.
  apply (split_last pipe _ _ x x' Hx Hx') in Heq as [Heq ->].
  destruct (IH r') as [-> ->]; [lia|done..].
Qed.

Lemma join_inj l l' d d' r r' :
  length l = length l' → length r = length r' →
  Forall no_pipe l → Forall no_pipe l' → Forall no_pipe r → Forall no_pipe r' →
  join "|" (l ++ d :: r) = join "|" (l' ++ d' :: r') → l = l' ∧ d = d' ∧ r = r'.
Proof.
  intros Hlen Hlen' Hl Hl' Hr Hr'. revert l' Hlen Hl'.
  induction Hl as [|x l Hx Hl IH]; intros [|x' l'] Hlen Hl'; try done.
  - simpl. intros Heq%join_inj_right; naive_solver.
  - apply Forall_cons_1 in Hl' as [Hx' Hl']. cbn [app].
    rewrite !join_cons by (by destruct l, l'). intros Heq.
    apply (split_first pipe x x' _ _ Hx Hx') in Heq as [-> Heq].
    destruct (IH l') as (-> & -> & ->); auto.
Qed.

(** The first part alone tells two joined forms apart. *)
Lemma join_head_inj s s' parts parts' :
  pipe_free s → pipe_free s' → parts ≠ [] → parts' ≠ [] →
  join "|" (s :: parts) = join "|" (s' :: parts') → s = s'.
Proof.
  intros Hs Hs' ??. rewrite !join_cons by done. intros Heq.
  by apply (split_first pipe s s' _ _ Hs Hs') in Heq as [-> _].
Qed.

(** ** Decimal numerals: [str(n)] is [pretty n]. *)

Definition digitb (a : ascii) : bool :=
  bool_decide (a ∈ ["0";"1";"2";"3";"4";"5";"6";"7";"8";"9"]%char).

Fixpoint all_chars (p : ascii → bool) (s : string) : bool :=
  match s with EmptyString => true | String c s' => p c && all_chars p s' end.

Lemma all_chars_app p a b : all_chars p (a +:+ b) = all_chars p a && all_chars p b.
Proof.
  induction a as [|x a IH]; [done|]. rewrite str_app_cons. simpl. rewrite IH.
  by destruct (p x).
Qed.

Lemma pretty_N_char_digit x : digitb (pretty_N_char x) = true.
Proof. unfold pretty_N_char. repeat case_match; reflexivity. Qed.

Lemma pretty_N_go_digits x s : all_chars digitb s = true → all_chars digitb (pretty_N_go x s) = true.
Proof.
  revert s. induction (N.lt_wf_0 x) as [x _ IH]; intros s Hs.
  destruct (decide (0 < x)%N) as [Hx|Hx].
  - rewrite pretty_N_go_step by done. apply IH; [by apply N.div_lt|].
    simpl. by rewrite pretty_N_char_digit.
  - assert (x = 0%N) as -> by lia. done.
Qed.

Lemma pretty_N_digits (n : N) : all_chars digitb (pretty n) = true.
Proof.
  unfold pretty, pretty_N. case_decide; [done|]. by apply pretty_N_go_digits.
Qed.

Definition numeralb (c : ascii) : bool := digitb c || bool_decide (c = "-"%char).

Lemma all_chars_weaken (p q : ascii → bool) s :
  (∀ c, p c = true → q c = true) → all_chars p s = true → all_chars q s = true.
Proof.
  intros Hpq. induction s as [|c s IH]; simpl; [done|].
  rewrite !andb_true_iff. intros [??]. auto.
Qed.

Lemma pretty_Z_numeral (z : Z) : all_chars numeralb (pretty z) = true.
Proof.
  assert (∀ n : N, all_chars numeralb (pretty n) = true) as HN.
  { intros n. apply (all_chars_weaken digitb); [|apply pretty_N_digits].
    intros c Hc. unfold numeralb. by rewrite Hc. }
  destruct z as [|p|p]; [reflexivity|apply (HN (Npos p))|].
  change (pretty (Zneg p)) with ("-" +:+ pretty (Npos p)).
  rewrite all_chars_app, HN. reflexivity.
Qed.

Lemma pretty_N_go_length k x s :
  (x < 10 ^ N.of_nat k)%N → (String.length (pretty_N_go x s) <= k + String.length s)%nat.
Proof.
  revert x s. induction k as [|k IH]; intros x s Hx.
  - assert (x = 0)%N as -> by (simpl in Hx; lia). by rewrite pretty_N_go_0.
  - destruct (N.eq_dec x 0%N) as [->|Hne]; [rewrite pretty_N_go_0; lia|].
    rewrite pretty_N_go_step by lia. etransitivity; [apply IH|simpl; lia].
    rewrite Nat2N.inj_succ, N.pow_succ_r' in Hx. apply N.Div0.div_lt_upper_bound. lia.
Qed.

Lemma pretty_Z_length k z :
  (1 <= k)%nat → (0 <= z < 10 ^ Z.of_nat k)%Z → (String.length (pretty z) <= k)%nat.
Proof.
  intros Hk [Hz Hlt]. destruct z as [|p|p]; [| |lia].
  - simpl. lia.
  - change (pretty (Z.pos p)) with (pretty (N.pos p)). unfold pretty, pretty_N.
    case_decide; [simpl; lia|]. etransitivity; [apply (pretty_N_go_length k)|simpl; lia].
    assert (Z.of_N (N.pos p) < Z.of_N (10 ^ N.of_nat k))%Z by
      (rewrite N2Z.inj_pow, nat_N_Z; simpl; lia). lia.
Qed.

Lemma all_chars_has_char p c s : p c = false → all_chars p s = true → has_char c s = false.
Proof.
  intros Hc. induction s as [|d s IH]; simpl; [done|].
  rewrite andb_true_iff. intros [Hd Hs]. rewrite IH by done.
  rewrite bool_decide_eq_false_2; [done|]. intros ->. congruence.
Qed.

Lemma pretty_Z_pipe_free (z : Z) : pipe_free (pretty z).
Proof. apply (all_chars_has_char numeralb); [reflexivity|apply pretty_Z_numeral]. Qed.

Lemma pretty_Z_inj' (x y : Z) : pretty x = pretty y → x = y.
Proof. apply pretty_Z_inj. Qed.

(** ** ORDER BY an integer key *)

Definition key_le {A} (f : A → Z) (x y : A) : Prop := (f x ≤ f y)%Z.
Definition key_lt {A} (f : A → Z) (x y : A) : Prop := (f x < f y)%Z.

#[export] Instance key_le_dec {A} (f : A → Z) : RelDecision (key_le f).
Proof. intros x y. unfold key_le. apply _. Defined.

#[export] Instance key_le_total {A} (f : A → Z) : Total (key_le f).
Proof. intros x y. unfold key_le. lia. Qed.

#[export] Instance key_le_trans {A} (f : A → Z) : Transitive (key_le f).
Proof. intros x y z. unfold key_le. lia. Qed.

(** [ORDER BY f ASC] *)
Definition order_by {A} (f : A → Z) (l : list A) : list A := merge_sort (key_le f) l.

Lemma order_by_perm {A} (f : A → Z) l : order_by f l ≡ₚ l.
Proof. apply merge_sort_Permutation. Qed.

Lemma order_by_sorted {A} (f : A → Z) l : StronglySorted (key_le f) (order_by f l).
Proof. apply StronglySorted_merge_sort; apply _. Qed.

Lemma strict_sorted_inj {A} (f : A → Z) l x y :
  StronglySorted (key_lt f) l → x ∈ l → y ∈ l → f x = f y → x = y.
Proof.
  induction 1 as [|z l Hl IH Hz]; [by intros ?%not_elem_of_nil|].
  rewrite Forall_forall in Hz. unfold key_lt in Hz.
  intros [->|Hx]%elem_of_cons [->|Hy]%elem_of_cons Heq; [done|..].
  - specialize (Hz _ Hy). lia.
  - specialize (Hz _ Hx). lia.
  - auto.
Qed.

Lemma StronglySorted_filter_bool {A} (R : relation A) (f : A → bool) l :
  StronglySorted R l → StronglySorted R (List.filter f l).
Proof.
  induction 1 as [|x l Hl IH Hx]; simpl; [constructor|]. destruct (f x); [|done].
  constructor; [done|]. rewrite Forall_forall in *. intros y Hy%list_elem_of_In.
  apply List.filter_In in Hy as [Hy _]. by apply Hx, list_elem_of_In.
Qed.

(** With distinct keys the sorted order is the only one. *)
Lemma strict_sort_unique {A} (f : A → Z) l l' :
  StronglySorted (key_lt f) l → StronglySorted (key_le f) l' → l' ≡ₚ l → l' = l.
Proof.
  intros Hl Hl' Hperm. apply (StronglySorted_unique_strong (key_le f)); [|done| |done].
  - intros x y Hx Hy Hxy Hyx. unfold key_le in *.
    rewrite Hperm in Hx. eapply strict_sorted_inj; eauto. lia.
  - clear Hperm Hl'. induction Hl as [|z l Hl IH Hz]; constructor; [done|].
    eapply Forall_impl; [exact Hz|]. unfold key_lt, key_le. lia.
Qed.

(** Sorting any permutation of a strictly increasing list gives that list. *)
Lemma order_by_strict {A} (f : A → Z) l l' :
  StronglySorted (key_lt f) l → l' ≡ₚ l → order_by f l' = l.
Proof.
  intros Hl Hperm. apply (strict_sort_unique f); [done|apply order_by_sorted|].
  by rewrite order_by_perm.
Qed.

(** Consecutive keys: [l] is numbered [s], [s+1], ... by [f]. *)
Fixpoint numbered {A} (f : A → Z) (s : Z) (l : list A) : Prop :=
  match l with
  | [] => True
  | x :: rest => f x = s ∧ numbered f (s + 1)%Z rest
  end.

Lemma numbered_app {A} (f : A → Z) s l l' :
  numbered f s (l ++ l') ↔ numbered f s l ∧ numbered f (s + Z.of_nat (length l))%Z l'.
Proof.
  revert s. induction l as [|x l IH]; intros s; simpl.
  - rewrite Z.add_0_r. tauto.
  - rewrite IH. replace (s + 1 + Z.of_nat (length l))%Z with (s + Z.of_nat (S (length l)))%Z by lia.
    tauto.
Qed.

Lemma numbered_bound {A} (f : A → Z) s l x :
  numbered f s l → x ∈ l → (s ≤ f x < s + Z.of_nat (length l))%Z.
Proof.
  revert s. induction l as [|y l IH]; intros s; [by intros _ ?%not_elem_of_nil|].
  simpl. intros [Hy Hl] [->|Hx]%elem_of_cons; [lia|].
  specialize (IH _ Hl Hx). lia.
Qed.

Lemma numbered_strict {A} (f : A → Z) s l : numbered f s l → StronglySorted (key_lt f) l.
Proof.
  revert s. induction l as [|x l IH]; intros s; simpl; [constructor|].
  intros [Hx Hl]. constructor; [by eapply IH|]. apply Forall_forall. intros y Hy.
  pose proof (numbered_bound _ _ _ _ Hl Hy). unfold key_lt. lia.
Qed.

(** Every number in the range is used. *)
Lemma numbered_used {A} (f : A → Z) s l n :
  numbered f s l → (s ≤ n < s + Z.of_nat (length l))%Z → ∃ x, x ∈ l ∧ f x = n.
Proof.
  revert s. induction l as [|x l IH]; intros s; simpl; [lia|]. intros [Hx Hl] Hn.
  destruct (decide (n = s)) as [->|]; [exists x; split; [left|done]|].
  destruct (IH _ Hl) as (y & ? & ?); [lia|]. exists y. split; [by right|done].
Qed.

(** ** Lists *)

Lemma Forall2_impl_in {A B} (P Q : A → B → Prop) l l' :
  Forall2 P l l' → (∀ x y, x ∈ l → y ∈ l' → P x y → Q x y) → Forall2 Q l l'.
Proof.
  induction 1 as [|x y l l' Hxy _ IH]; intros HQ; constructor.
  - apply HQ; [left|left|done].
  - apply IH. intros x' y' ??. apply HQ; by right.
Qed.

Lemma filter_id {A} (f : A → bool) l :
  Forall (λ x, f x = true) l → List.filter f l = l.
Proof. induction 1 as [|x l Hx _ IH]; simpl; [done|]. by rewrite Hx, IH. Qed.

Lemma elem_of_filter_bool {A} (f : A → bool) l x :
  x ∈ List.filter f l ↔ x ∈ l ∧ f x = true.
Proof. rewrite !list_elem_of_In. apply List.filter_In. Qed.

Lemma filter_nil {A} (f : A → bool) l :
  Forall (λ x, f x = false) l → List.filter f l = [].
Proof. induction 1 as [|x l Hx _ IH]; simpl; [done|]. by rewrite Hx. Qed.

Lemma filter_andb {A} (g f : A → bool) l :
  List.filter (λ x, g x && f x) l = List.filter f (List.filter g l).
Proof.
  induction l as [|x l IH]; simpl; [done|]. rewrite IH. by destruct (g x); simpl; destruct (f x).
Qed.

(** The elements of a numbered list with a number in [a..b]. *)
Lemma numbered_range {A} (f : A → Z) s l a b :
  numbered f s l → (s ≤ a)%Z →
  List.filter (λ x, (a <=? f x) && (f x <=? b))%Z l
  = take (Z.to_nat (b - a + 1)) (drop (Z.to_nat (a - s)) l).
Proof.
  intros Hn Hs. rewrite <- (take_drop (Z.to_nat (a - s)) l) at 1.
  set (k := Z.to_nat (a - s)) in *. rewrite <- (take_drop (Z.to_nat (b - a + 1)) (drop k l)) at 1.
  set (w := Z.to_nat (b - a + 1)) in *. rewrite !List.filter_app.
  rewrite <- (take_drop k l) in Hn. apply numbered_app in Hn as [H1 H2].
  pose proof (length_take l k) as Hk.
  destruct (decide (k ≤ length l)) as [Hkl|Hkl].
  2: { rewrite (drop_ge l k) by lia. rewrite take_nil, drop_nil, !app_nil_r.
       apply filter_nil, Forall_forall. intros x Hx.
       pose proof (numbered_bound _ _ _ _ H1 Hx). apply andb_false_intro1, Z.leb_gt. lia. }
  rewrite <- (take_drop w (drop k l)) in H2. apply numbered_app in H2 as [H2 H3].
  pose proof (length_take (drop k l) w) as Hw.
  rewrite (filter_nil _ (take k l)), (filter_id _ (take w _)), (filter_nil _ (drop w _)).
  - by rewrite app_nil_r.
  - apply Forall_forall. intros x Hx.
    destruct (decide (w ≤ length (drop k l))); [|rewrite drop_ge in Hx by lia; set_solver].
    pose proof (numbered_bound _ _ _ _ H3 Hx). apply andb_false_intro2, Z.leb_gt. lia.
  - apply Forall_forall. intros x Hx. pose proof (numbered_bound _ _ _ _ H2 Hx).
    apply andb_true_iff. rewrite !Z.leb_le. lia.
  - apply Forall_forall. intros x Hx. pose proof (numbered_bound _ _ _ _ H1 Hx).
    apply andb_false_intro1, Z.leb_gt. lia.
Qed.

Lemma numbered_take {A} (f : A → Z) s l n : numbered f s l → numbered f s (take n l).
Proof. intros Hn. rewrite <- (take_drop n l) in Hn. by apply numbered_app in Hn as [? _]. Qed.

Lemma numbered_drop {A} (f : A → Z) s l n :
  (n ≤ length l)%nat → numbered f s l → numbered f (s + Z.of_nat n)%Z (drop n l).
Proof.
  intros Hl Hn. rewrite <- (take_drop n l) in Hn. apply numbered_app in Hn as [_ Hn].
  by rewrite length_take_le in Hn.
Qed.

Lemma numbered_lookup {A} (f : A → Z) s l i x :
  numbered f s l → l !! i = Some x → f x = (s + Z.of_nat i)%Z.
Proof.
  intros Hn Hi. pose proof (lookup_lt_Some _ _ _ Hi) as Hlt.
  apply (numbered_drop f s l i) in Hn; [|lia]. rewrite (drop_S _ _ _ Hi) in Hn. by destruct Hn.
Qed.

(** ** Dictionaries in insertion order

    A Python [dict] or a table keyed by a text column, as an association list:
    assignment to an existing key keeps its place, a new key goes last. *)

Section Dict.
Context {V : Type}.

Fixpoint dget (k : string) (d : list (string * V)) : option V :=
  match d with
  | [] => None
  | (k', v) :: rest => if bool_decide (k' = k) then Some v else dget k rest
  end.

Fixpoint dset (k : string) (v : V) (d : list (string * V)) : list (string * V) :=
  match d with
  | [] => [(k, v)]
  | (k', v') :: rest => if bool_decide (k' = k) then (k, v) :: rest else (k', v') :: dset k v rest
  end.

Definition ddel (k : string) (d : list (string * V)) : list (string * V) :=
  List.filter (λ kv, negb (bool_decide (fst kv = k))) d.

Lemma dget_dset_eq k v d : dget k (dset k v d) = Some v.
Proof.
  induction d as [|[k' v'] d IH]; simpl.
  - by rewrite bool_decide_eq_true_2.
  - case_bool_decide as Hk; simpl.
    + by rewrite bool_decide_eq_true_2.
    + by rewrite bool_decide_eq_false_2.
Qed.

Lemma dget_dset_ne k k' v d : k' ≠ k → dget k' (dset k v d) = dget k' d.
Proof.
  intros Hne. induction d as [|[k0 v0] d IH]; simpl.
  - by rewrite bool_decide_eq_false_2.
  - case_bool_decide as Hk; simpl; [subst|].
    + by rewrite !bool_decide_eq_false_2.
    + by rewrite IH.
Qed.

Lemma dget_elem k v d : dget k d = Some v → (k, v) ∈ d.
Proof.
  induction d as [|[k' v'] d IH]; simpl; [done|].
  case_bool_decide as Hk; [intros [= ->]; subst; left|intros ?; right; auto].
Qed.

Lemma dset_elem k v d kv : kv ∈ dset k v d → kv = (k, v) ∨ kv ∈ d.
Proof.
  induction d as [|[k' v'] d IH]; simpl.
  - intros Hin%list_elem_of_singleton. by left.
  - case_bool_decide as Hk; intros [->|Hin]%elem_of_cons; [by left|right; by right|right; by left|].
    destruct (IH Hin); [by left|right; by right].
Qed.

Lemma dget_filter (f : string * V → bool) k d v :
  dget k d = Some v → f (k, v) = true → dget k (List.filter f d) = Some v.
Proof.
  induction d as [|[k' v'] d IH]; simpl; [done|]. case_bool_decide as Hk.
  - intros [= ->] Hf. subst. rewrite Hf. simpl. by rewrite bool_decide_eq_true_2.
  - intros Hd Hf. destruct (f (k', v')); simpl; [rewrite bool_decide_eq_false_2 by done|]; auto.
Qed.

(** Keys are unique. *)
Definition dict_ok (d : list (string * V)) : Prop := NoDup (fst <$> d).

Lemma dget_None k d : dget k d = None ↔ k ∉ fst <$> d.
Proof.
  induction d as [|[k' v'] d IH]; simpl; [set_solver|].
  case_bool_decide as Hk; [set_solver|]. rewrite IH. set_solver.
Qed.

Lemma elem_dget k v d : dict_ok d → (k, v) ∈ d → dget k d = Some v.
Proof.
  unfold dict_ok. induction d as [|[k' v'] d IH]; simpl; [set_solver|].
  intros [Hk' Hd]%NoDup_cons [[= -> ->]|Hin]%elem_of_cons.
  - by rewrite bool_decide_eq_true_2.
  - rewrite bool_decide_eq_false_2; [by apply IH|]. intros ->. apply Hk'.
    apply list_elem_of_fmap. by exists (k, v).
Qed.

Lemma dset_keys k v d : fst <$> dset k v d = if decide (k ∈ fst <$> d) then fst <$> d else (fst <$> d) ++ [k].
Proof.
  induction d as [|[k' v'] d IH].
  - case_decide as Hin; [by apply not_elem_of_nil in Hin|done].
  - rewrite fmap_cons. cbn [dset fst]. case_bool_decide as Hk; rewrite fmap_cons; cbn [fst].
    + subst. destruct (decide (k ∈ k :: (fst <$> d))) as [|Hn]; [done|]. destruct Hn. left.
    + rewrite IH. destruct (decide (k ∈ fst <$> d)) as [Hin|Hin],
        (decide (k ∈ k' :: (fst <$> d))) as [Hin'|Hin']; try done.
      * destruct Hin'. by right.
      * apply elem_of_cons in Hin' as [?|?]; congruence.
Qed.

Lemma dset_ok k v d : dict_ok d → dict_ok (dset k v d).
Proof.
  unfold dict_ok. rewrite dset_keys. intros Hd. case_decide as Hk; [done|].
  apply NoDup_app. split_and!; [done|set_solver|apply NoDup_singleton].
Qed.

Lemma dfilter_ok (f : string * V → bool) d : dict_ok d → dict_ok (List.filter f d).
Proof.
  unfold dict_ok. induction d as [|[k v] d IH]; simpl; [done|]. intros [Hk Hd]%NoDup_cons.
  destruct (f (k, v)); simpl; [|auto]. apply NoDup_cons. split; [|auto].
  intros Hin. apply Hk. apply list_elem_of_fmap in Hin as (kv & -> & Hin).
  apply elem_of_filter_bool in Hin as [Hin _]. apply list_elem_of_fmap. eauto.
Qed.

Lemma dset_fresh k v d : k ∉ fst <$> d → dset k v d = d ++ [(k, v)].
Proof.
  induction d as [|[k' v'] d IH]; [done|]. cbn [fmap list_fmap fst app dset].
  intros [Hk Hd]%not_elem_of_cons. rewrite bool_decide_eq_false_2 by congruence. by rewrite IH.
Qed.

(** [dict(pairs)] of pairs with different keys. *)
Lemma dfold_id f : dict_ok f → foldl (λ d kv, dset (fst kv) (snd kv) d) [] f = f.
Proof.
  intros Hf. unfold dict_ok in Hf.
  cut (∀ acc, NoDup (fst <$> acc ++ f) → foldl (λ d kv, dset (fst kv) (snd kv) d) acc f = acc ++ f).
  { intros Hgen. by apply (Hgen []). }
  clear Hf. induction f as [|[k v] f IH]; intros acc Hf; cbn [foldl]; [by rewrite app_nil_r|].
  cbn [fst snd]. rewrite dset_fresh.
  - rewrite IH by (by rewrite <- app_assoc). by rewrite <- app_assoc.
  - rewrite fmap_app in Hf. apply NoDup_app in Hf as (_ & Hf & _). intros Hk. apply (Hf k Hk).
    left.
Qed.

Lemma dget_filter_None (f : string * V → bool) k d v :
  dict_ok d → dget k d = Some v → f (k, v) = false → dget k (List.filter f d) = None.
Proof.
  intros Hd Hk Hf. destruct (dget k (List.filter f d)) as [w|] eqn:Hw; [|done].
  apply dget_elem, elem_of_filter_bool in Hw as [Hin Hfw]. apply elem_dget in Hin; [|done].
  congruence.
Qed.

Lemma dget_filter_absent (f : string * V → bool) k d :
  dget k d = None → dget k (List.filter f d) = None.
Proof.
  rewrite !dget_None. intros Hk Hin. apply Hk. apply list_elem_of_fmap in Hin as (kv & -> & Hin).
  apply elem_of_filter_bool in Hin as [Hin _]. apply list_elem_of_fmap. eauto.
Qed.
End Dict.

(** ** Automation

    [pystr] holds the lemmas that discharge the separator side conditions of
    the canonical forms; [simp_str] normalises nested concatenations. *)
Create HintDb pystr.
Create Rewrite HintDb pystr.
#[export] Hint Resolve pretty_Z_pipe_free : pystr.
#[export] Hint Rewrite str_app_assoc str_app_nil_r : pystr.

Ltac simp_str := autorewrite with pystr.

(** Destruct the discriminee of the first [match] or [if] of the goal or of a
    hypothesis, keeping the equation. *)
Ltac case_step :=
  match goal with
  | |- context [match ?x with _ => _ end] => destruct x eqn:?
  | H : context [match ?x with _ => _ end] |- _ => destruct x eqn:?
  end.

Ltac cases := repeat (case_step; simplify_eq/=).

(** Boolean tests to propositions. *)
Ltac bools :=
  repeat match goal with
  | H : _ && _ = true |- _ => apply andb_true_iff in H as [? ?]
  | H : _ || _ = false |- _ => apply orb_false_iff in H as [? ?]
  | H : negb _ = true |- _ => apply negb_true_iff in H
  | H : negb _ = false |- _ => apply negb_false_iff in H
  | H : bool_decide _ = true |- _ => apply bool_decide_eq_true_1 in H
  | H : bool_decide _ = false |- _ => apply bool_decide_eq_false_1 in H
  | H : (_ =? _)%Z = true |- _ => apply Z.eqb_eq in H
  | H : (_ =? _)%Z = false |- _ => apply Z.eqb_neq in H
  | H : (_ <? _)%Z = true |- _ => apply Z.ltb_lt in H
  | H : (_ <? _)%Z = false |- _ => apply Z.ltb_ge in H
  | H : (_ <=? _)%Z = true |- _ => apply Z.leb_le in H
  | H : (_ <=? _)%Z = false |- _ => apply Z.leb_gt in H
  end.

(** ** Splitting

    [s.split(c)] and [s.partition(sep)]. *)

Fixpoint split_on (c : ascii) (s : string) : list string :=
  match s with
  | EmptyString => [""]
  | String d s' =>
      if bool_decide (d = c) then "" :: split_on c s' else
      match split_on c s' with
      | p :: rest => String d p :: rest
      | [] => [String d ""]
      end
  end.

Fixpoint partition (sep s : string) : option (string * string) :=
  if startswith s sep then Some ("", drop_prefix sep s)
  else match s with
       | EmptyString => None
       | String c s' => '(a, b) ← partition sep s'; Some (String c a, b)
       end.

Lemma split_on_free c s : has_char c s = false → split_on c s = [s].
Proof.
  induction s as [|d s IH]; simpl; [done|]. intros [Hd Hs]%orb_false_iff. bools.
  rewrite bool_decide_eq_false_2 by congruence. by rewrite IH.
Qed.

Lemma split_on_app c a b :
  has_char c a = false → split_on c (a +:+ String c b) = a :: split_on c b.
Proof.
  induction a as [|d a IH]; simpl; intros Ha.
  - by rewrite bool_decide_eq_true_2.
  - apply orb_false_iff in Ha as [Hd Ha]. bools.
    rewrite bool_decide_eq_false_2 by congruence. by rewrite IH.
Qed.

Lemma split_on_cases c s :
  has_char c s = false ∨ ∃ a b, s = a +:+ String c b ∧ has_char c a = false.
Proof.
  induction s as [|d s IH]; [by left|]. destruct (decide (d = c)) as [->|Hd].
  - right. by exists "", s.
  - destruct IH as [Hs|(a & b & -> & Ha)]; [left|right].
    + simpl. by rewrite bool_decide_eq_false_2.
    + exists (String d a), b. split; [done|]. simpl. by rewrite bool_decide_eq_false_2.
Qed.

Lemma join_split c s : join (String c "") (split_on c s) = s.
Proof.
  induction s as [s IH] using (induction_ltof1 _ String.length). unfold ltof in IH.
  destruct (split_on_cases c s) as [Hs|(a & b & -> & Ha)].
  - by rewrite split_on_free.
  - rewrite split_on_app by done. rewrite join_cons.
    + rewrite IH; [done|]. rewrite str_length_app. simpl. lia.
    + destruct (split_on_cases c b) as [Hb|(a' & b' & -> & Ha')].
      * by rewrite split_on_free.
      * by rewrite split_on_app.
Qed.

Lemma partition_cons c s' sep a b :
  startswith (String c s') sep = false → partition sep s' = Some (a, b) →
  partition sep (String c s') = Some (String c a, b).
Proof. intros Hs Hp. cbn [partition]. by rewrite Hs, Hp. Qed.

(** A separator of one repeated character is found where a text free of that
    character ends. *)
Lemma partition_double c a b :
  has_char c a = false → partition (String c (String c "")) (a +:+ String c (String c b)) = Some (a, b).
Proof.
  induction a as [|d a IH]; intros Ha.
  - change ("" +:+ String c (String c b)) with (String c (String c b)). cbn [partition startswith]. rewrite !bool_decide_eq_true_2 by done. cbn. by destruct b.
  - simpl in Ha. apply orb_false_iff in Ha as [Hd Ha]. apply bool_decide_eq_false_1 in Hd.
    rewrite str_app_cons. apply partition_cons; [|by apply IH].
    cbn [startswith]. by rewrite bool_decide_eq_false_2.
Qed.

Lemma partition_free c d s : has_char c s = false → partition (String c d) s = None.
Proof.
  induction s as [|x s IH]; intros Hs; [done|]. simpl in Hs.
  apply orb_false_iff in Hs as [Hx Hs]. cbn. rewrite Hx. cbn. by rewrite IH.
Qed.

Lemma partition_Some sep s a b : partition sep s = Some (a, b) → s = a +:+ sep +:+ b.
Proof.
  revert a. induction s as [|c s IH]; intros a; cbn [partition].
  - destruct (startswith "" sep) eqn:Hs; [|done]. intros [= <- <-]. by apply startswith_iff in Hs.
  - destruct (startswith (String c s) sep) eqn:Hs.
    + intros [= <- <-]. by apply startswith_iff in Hs.
    + destruct (partition sep s) as [[x y]|] eqn:Hp; [|done]. intros [= <- <-].
      by rewrite str_app_cons, <- (IH x eq_refl).
Qed.

(** How often a character occurs. *)
Fixpoint count_char (c : ascii) (s : string) : nat :=
  match s with EmptyString => 0 | String d s' => (if bool_decide (c = d) then 1 else 0) + count_char c s' end.

Lemma count_char_app c a b : count_char c (a +:+ b) = (count_char c a + count_char c b)%nat.
Proof. induction a as [|d a IH]; [done|]. rewrite str_app_cons. cbn. rewrite IH. lia. Qed.

Lemma count_char_free c s : has_char c s = false → count_char c s = 0%nat.
Proof. induction s as [|d s IH]; [done|]. cbn. intros [-> Hs]%orb_false_iff. by rewrite IH. Qed.

Lemma count_char_zero c s : count_char c s = 0%nat → has_char c s = false.
Proof. induction s as [|d s IH]; [done|]. cbn. destruct (bool_decide (c = d)); [lia|]. exact IH. Qed.

Lemma partition_count c sep s :
  (count_char c s < count_char c sep)%nat → partition sep s = None.
Proof.
  intros Hlt. destruct (partition sep s) as [[a b]|] eqn:Hp; [|done].
  apply partition_Some in Hp as ->. rewrite !count_char_app in Hlt. lia.
Qed.
