(* ===== verification/Sha256.v ===== *)
(** * SHA-256

    The standard library's [hashlib.sha256], which every chain of the program
    hashes with, as an executable function: FIPS 180-4 on 32-bit words kept in
    [N], with the wrap-around written out.  Bytes and strings are both
    [string] (a [str] is the sequence of its UTF-8 bytes), so [sha256] is
    [hashlib.sha256(b).digest()] and [sha256_hex] is
    [hashlib.sha256(s.encode("utf-8")).hexdigest()].

    The audit theorems are proved against the interface [Hash] (a digest of 32
    bytes and its lower-case hexadecimal form); [sha256_hash] implements it. *)

From S2P Require Import Prelude.

Open Scope N_scope.

Definition mask32 (x : N) : N := N.land x 0xffffffff.
Definition add32 (x y : N) : N := mask32 (x + y).
Definition rotr32 (n x : N) : N := N.lor (N.shiftr x n) (mask32 (N.shiftl x (32 - n))).
Definition shr32 (n x : N) : N := N.shiftr x n.
Definition not32 (x : N) : N := N.lxor x 0xffffffff.

Definition Ch (x y z : N) : N := N.lxor (N.land x y) (N.land (not32 x) z).
Definition Maj (x y z : N) : N := N.lxor (N.lxor (N.land x y) (N.land x z)) (N.land y z).
Definition Sigma0 (x : N) : N := N.lxor (N.lxor (rotr32 2 x) (rotr32 13 x)) (rotr32 22 x).
Definition Sigma1 (x : N) : N := N.lxor (N.lxor (rotr32 6 x) (rotr32 11 x)) (rotr32 25 x).
Definition sigma0 (x : N) : N := N.lxor (N.lxor (rotr32 7 x) (rotr32 18 x)) (shr32 3 x).
Definition sigma1 (x : N) : N := N.lxor (N.lxor (rotr32 17 x) (rotr32 19 x)) (shr32 10 x).

(** ** The constants

    The round constants are the first 32 bits of the fractional parts of the
    cube roots of the first 64 primes, the initial state those of the square
    roots of the first 8; both are computed from that description. *)

Definition is_prime (n : N) : bool :=
  forallb (λ d, negb (n mod N.of_nat d =? 0)) (seq 2 (N.to_nat n - 2)).

Definition primes : list N :=
  List.filter is_prime (map N.of_nat (seq 2 310)).

(** The largest [r < 2^n] with [r^k <= x], bit by bit. *)
Fixpoint root (k : N) (n : nat) (acc x : N) : N :=
  match n with
  | O => acc
  | S n' =>
      let r := acc + 2 ^ N.of_nat n' in
      root k n' (if r ^ k <=? x then r else acc) x
  end.

(** 32 fractional bits of the [k]-th root of [p]. *)
Definition root_bits (k p : N) : N := mask32 (root k 40 0 (N.shiftl p (32 * k))).

Definition round_constants : list N :=
  Eval vm_compute in map (root_bits 3) (take 64 primes).

Definition initial_state : list N :=
  Eval vm_compute in map (root_bits 2) (take 8 primes).

(** ** Padding: 0x80, zeros, the bit length on 64 bits, big-endian. *)

Fixpoint bytes_of (s : string) : list N :=
  match s with
  | EmptyString => []
  | String c s' => N_of_ascii c :: bytes_of s'
  end.

Fixpoint be_bytes (width : nat) (x : N) : list N :=
  match width with
  | O => []
  | S w => N.land (N.shiftr x (8 * N.of_nat w)) 0xff :: be_bytes w x
  end.

Definition pad (m : list N) : list N :=
  let len := length m in
  let zeros := ((119 - len mod 64) mod 64)%nat in
  (m ++ 0x80 :: replicate zeros 0 ++ be_bytes 8 (8 * N.of_nat len))%list.

Fixpoint words_of (bs : list N) : list N :=
  match bs with
  | a :: b :: c :: d :: rest =>
      N.lor (N.shiftl a 24) (N.lor (N.shiftl b 16) (N.lor (N.shiftl c 8) d)) :: words_of rest
  | _ => []
  end.

(** ** Message schedule.  [schedule n w] extends the last sixteen words, most
    recent first, by [n] more words. *)
Fixpoint schedule (n : nat) (w : list N) : list N :=
  match n with
  | O => w
  | S n' =>
      let x := add32 (add32 (sigma1 (nth 1%nat w 0)) (nth 6%nat w 0))
                     (add32 (sigma0 (nth 14%nat w 0)) (nth 15%nat w 0)) in
      schedule n' (x :: w)
  end.

Definition compress_round (st : list N) (kw : N * N) : list N :=
  match st with
  | [a; b; c; d; e; f; g; h] =>
      let t1 := add32 (add32 h (Sigma1 e)) (add32 (Ch e f g) (add32 (fst kw) (snd kw))) in
      let t2 := add32 (Sigma0 a) (Maj a b c) in
      [add32 t1 t2; a; b; c; add32 d t1; e; f; g]
  | _ => st
  end.

Definition compress (st : list N) (block : list N) : list N :=
  let w := rev (schedule 48 (rev block)) in
  zip_with add32 st (foldl compress_round st (zip round_constants w)).

Fixpoint blocks (fuel : nat) (ws : list N) : list (list N) :=
  match fuel, ws with
  | S fuel', _ :: _ => take 16 ws :: blocks fuel' (drop 16 ws)
  | _, _ => []
  end.

Definition string_of_bytes (bs : list N) : string :=
  foldr (λ b s, String (ascii_of_N b) s) EmptyString bs.

Definition state_bytes (st : list N) : list N := flat_map (be_bytes 4) st.

(** [hashlib.sha256(m).digest()] *)
Definition sha256 (m : string) : string :=
  let ws := words_of (pad (bytes_of m)) in
  string_of_bytes (state_bytes (foldl compress initial_state (blocks (length ws) ws))).

(** ** Hexadecimal: [bytes.hex()]. *)

Definition hex_digit (n : N) : ascii :=
  ascii_of_N (if n <? 10 then n + 48 else n + 87).

Fixpoint to_hex (s : string) : string :=
  match s with
  | EmptyString => EmptyString
  | String c s' =>
      let n := N_of_ascii c in
      String (hex_digit (N.shiftr n 4)) (String (hex_digit (N.land n 15)) (to_hex s'))
  end.

Definition sha256_hex (m : string) : string := to_hex (sha256 m).

Close Scope N_scope.

Example sha256_empty :
  sha256_hex "" = "e3b0c44298fc1c149afbf4c8996fb92427ae41e4649b934ca495991b7852b855".
Proof. vm_compute. reflexivity. Qed.

Example sha256_two_blocks :
  sha256_hex "abcdbcdecdefdefgefghfghighijhijkijkljklmklmnlmnomnopnopq"
  = "248d6a61d20638b8e5c026930c3e6039a33ce45964ff2167f6ecedd419db06c1".
Proof. vm_compute. reflexivity. Qed.

(** ** [bytes.fromhex]: pairs of hexadecimal digits of either case, with ASCII
    whitespace allowed between the pairs; anything else raises [ValueError]. *)

Definition hex_value (c : ascii) : option N :=
  let n := N_of_ascii c in
  if ((48 <=? n) && (n <=? 57))%N then Some (n - 48)%N
  else if ((97 <=? n) && (n <=? 102))%N then Some (n - 87)%N
  else if ((65 <=? n) && (n <=? 70))%N then Some (n - 55)%N
  else None.

Definition hex_space (c : ascii) : bool :=
  let n := N_of_ascii c in ((9 <=? n) && (n <=? 13) || (n =? 32))%N.

Fixpoint from_hex (s : string) : outcome string :=
  match s with
  | EmptyString => Ret EmptyString
  | String c rest =>
      if hex_space c then from_hex rest else
      match rest with
      | EmptyString => Raise ValueError
      | String d rest' =>
          match hex_value c, hex_value d with
          | Some h, Some l =>
              let! tl := from_hex rest' in
              Ret (String (ascii_of_N (16 * h + l)) tl)
          | _, _ => Raise ValueError
          end
      end
  end.

Lemma from_hex_cons c s :
  from_hex (to_hex (String c s)) = let! tl := from_hex (to_hex s) in Ret (String c tl).
Proof. destruct c as [[] [] [] [] [] [] [] []]; reflexivity. Qed.

Lemma from_to_hex s : from_hex (to_hex s) = Ret s.
Proof. induction s as [|c s IH]; [done|]. by rewrite from_hex_cons, IH. Qed.

#[export] Instance to_hex_inj : Inj (=) (=) to_hex.
Proof.
  intros s t Heq. apply (f_equal from_hex) in Heq. rewrite !from_to_hex in Heq.
  by injection Heq.
Qed.

Lemma to_hex_length s : String.length (to_hex s) = 2 * String.length s.
Proof. induction s as [|c s IH]; simpl; [done|]. rewrite IH. lia. Qed.

(** A hexadecimal digest never contains the canonical form's separator. *)
Lemma hex_pipe_free s : pipe_free (to_hex s).
Proof. induction s as [|c s IH]; [done|]. destruct c as [[] [] [] [] [] [] [] []]; exact IH. Qed.
#[export] Hint Resolve hex_pipe_free : pystr.

Lemma hex_not_genesis s : to_hex s ≠ "genesis".
Proof.
  intros Heq. apply (f_equal String.length) in Heq. rewrite to_hex_length in Heq.
  simpl in Heq. lia.
Qed.

(** ** The digest has 32 bytes *)

Lemma compress_round_length st kw : length st = 8 → length (compress_round st kw) = 8.
Proof. do 9 (destruct st as [|? st]; try done). Qed.

Lemma compress_length st b : length st = 8 → length (compress st b) = 8.
Proof.
  intros Hst. unfold compress. rewrite length_zip_with, Hst.
  assert (∀ l s, length s = 8 → length (foldl compress_round s l) = 8) as Hf.
  { intros l. induction l as [|kw l IH]; simpl; [done|]. intros s Hs.
    apply IH. by apply compress_round_length. }
  by rewrite Hf.
Qed.

Lemma be_bytes_length n x : length (be_bytes n x) = n.
Proof. induction n; simpl; auto. Qed.

Lemma string_of_bytes_length bs : String.length (string_of_bytes bs) = length bs.
Proof. induction bs as [|b bs IH]; simpl; auto. Qed.

Lemma sha256_length m : String.length (sha256 m) = 32.
Proof.
  unfold sha256. rewrite string_of_bytes_length.
  assert (∀ l s, length s = 8 → length (foldl compress s l) = 8) as Hf.
  { intros l. induction l as [|b l IH]; simpl; [done|]. intros s Hs.
    apply IH. by apply compress_length. }
  generalize (Hf (blocks (length (words_of (pad (bytes_of m))))
                    (words_of (pad (bytes_of m)))) initial_state eq_refl).
  generalize (foldl compress initial_state (blocks (length (words_of (pad (bytes_of m))))
                    (words_of (pad (bytes_of m))))).
  intros st Hst. unfold state_bytes. do 9 (destruct st as [|? st]; try done).
Qed.

(** ** The interface the chains are proved against *)

Class Hash := {
  digest : string → string;
  digest_length : ∀ m, String.length (digest m) = 32;
}.

Definition hexdigest `{Hash} (m : string) : string := to_hex (digest m).

#[export] Instance sha256_hash : Hash := {
  digest := sha256;
  digest_length := sha256_length;
}.

Lemma hexdigest_pipe_free `{Hash} m : pipe_free (hexdigest m).
Proof. apply hex_pipe_free. Qed.
#[export] Hint Resolve hexdigest_pipe_free : pystr.

Lemma hexdigest_digest `{Hash} x y : hexdigest x = hexdigest y → digest x = digest y.
Proof. apply (inj to_hex). Qed.

Lemma hexdigest_nonempty `{Hash} m : ∃ c s, hexdigest m = String c s.
Proof.
  unfold hexdigest. pose proof (to_hex_length (digest m)) as Hl.
  rewrite digest_length in Hl. destruct (to_hex (digest m)); simpl in *; [lia|eauto].
Qed.

(** Collision resistance is only ever used on the finitely many byte strings
    that a given pair of runs hashes. *)
Definition collision_free `{Hash} (ms : list string) : Prop :=
  ∀ x y, x ∈ ms → y ∈ ms → digest x = digest y → x = y.

Definition collision_freeb `{Hash} (ms : list string) : bool :=
  forallb (λ x, forallb (λ y, negb (bool_decide (digest x = digest y)) || bool_decide (x = y)) ms) ms.

Lemma collision_freeb_sound `{Hash} ms : collision_freeb ms = true → collision_free ms.
Proof.
  unfold collision_freeb. rewrite forallb_forall. intros Hall x y Hx Hy Heq.
  specialize (Hall x (proj1 (list_elem_of_In _ _) Hx)). rewrite forallb_forall in Hall.
  specialize (Hall y (proj1 (list_elem_of_In _ _) Hy)).
  rewrite bool_decide_eq_true_2 in Hall by done. simpl in Hall. by bools.
Qed.

Lemma collision_free_sub `{Hash} ms ms' : ms' ⊆ ms → collision_free ms → collision_free ms'.
Proof. intros Hsub Hcf x y ??. apply Hcf; auto. Qed.

(** HMAC-SHA-256 (RFC 2104) with 64-byte blocks. *)
Definition xor_pad (k : N) (key : string) : string :=
  string_of_bytes (map (N.lxor k) (bytes_of key ++ replicate (64 - String.length key) 0%N)).
Definition hmac `{Hash} (key msg : string) : string :=
  let key := if (64 <? String.length key)%nat then digest key else key in
  digest (xor_pad 92 key +:+ digest (xor_pad 54 key +:+ msg)).
