(* ===== verification/HashChain.v ===== *)
(** * Hash chains, generically

    The audit tables and the offline verifier all check the same shape: every
    row stores the hash of a text that names the previous row's hash.  This
    file proves once what that shape guarantees, for any row type, given the
    text a row hashes, the link it stores and the hash it stores. *)

From S2P Require Import Prelude Sha256.

Section HashChain.
Context `{Hash} {R : Type} (text : R → string) (link stored : R → option string).

(** [rows] hang on [p], each on the stored hash of the one before it. *)
Inductive linked : option string → list R → Prop :=
| linked_nil p : linked p []
| linked_cons p r rows :
    link r = p → stored r = Some (hexdigest (text r)) → linked (stored r) rows →
    linked p (r :: rows).

Definition last_stored (p : option string) (rows : list R) : option string :=
  foldl (λ _ r, stored r) p rows.

Lemma last_stored_snoc p rows r : last_stored p (rows ++ [r]) = stored r.
Proof. unfold last_stored. by rewrite foldl_app. Qed.

Lemma linked_app p rows rows' :
  linked p (rows ++ rows') ↔ linked p rows ∧ linked (last_stored p rows) rows'.
Proof.
  revert p. induction rows as [|r rows IH]; intros p; simpl.
  - split; [|tauto]. split; [constructor|done].
  - split.
    + inversion_clear 1 as [|??? Hl Hs Hr]. apply IH in Hr as [? ?]. split; [by constructor|done].
    + intros [Hr Hr']. inversion_clear Hr as [|??? Hl Hs Hrest].
      constructor; [done..|]. by apply IH.
Qed.

Lemma linked_snoc p rows r :
  linked p (rows ++ [r]) ↔
  linked p rows ∧ link r = last_stored p rows ∧ stored r = Some (hexdigest (text r)).
Proof.
  rewrite linked_app. split.
  - intros [? Hr]. by inversion_clear Hr.
  - intros (? & ? & ?). split; [done|]. by repeat constructor.
Qed.

(** A stored hash inside a chain is a digest; the base is one or is [p]. *)
Lemma last_stored_digest p rows :
  linked p rows → last_stored p rows = p ∨ ∃ m, last_stored p rows = Some (hexdigest m).
Proof.
  destruct rows as [|r rows _] using rev_ind; [by left|].
  rewrite linked_snoc, last_stored_snoc. intros (_ & _ & ->). eauto.
Qed.

(** Every link inside a chain is its base or a digest. *)
Lemma linked_links p rows :
  linked p rows → Forall (λ r, link r = p ∨ ∃ m, link r = Some (hexdigest m)) rows.
Proof.
  induction rows as [|r rows IH] using rev_ind; [constructor|].
  rewrite linked_snoc. intros (Hc & Hl & _). apply Forall_app. split; [auto|].
  constructor; [|done]. rewrite Hl. by apply last_stored_digest.
Qed.

(** The last hash of a chain commits to every text of it, when the text names
    the link and the texts at hand do not collide. *)
Lemma head_commits p rows rows' :
  (∀ m, Some (hexdigest m) ≠ p) →
  linked p rows → linked p rows' →
  collision_free (map text rows ++ map text rows') →
  (∀ r r', r ∈ rows → r' ∈ rows' → (link r = p ∨ ∃ m, link r = Some (hexdigest m)) →
     (link r' = p ∨ ∃ m, link r' = Some (hexdigest m)) → text r = text r' → link r = link r') →
  last_stored p rows = last_stored p rows' →
  Forall2 (λ r r', text r = text r') rows rows'.
Proof.
  intros Hbase. revert rows'.
  induction rows as [|r rows IH] using rev_ind; intros rows' Hc Hc' Hcf Hlink Heq.
  - destruct rows' as [|r' rows' _] using rev_ind; [constructor|].
    apply linked_snoc in Hc' as (_ & _ & Hs). rewrite last_stored_snoc, Hs in Heq.
    by destruct (Hbase (text r')).
  - apply linked_snoc in Hc as (Hc & Hl & Hs). rewrite last_stored_snoc in Heq.
    destruct rows' as [|r' rows' _] using rev_ind.
    { rewrite Hs in Heq. by destruct (Hbase (text r)). }
    apply linked_snoc in Hc' as (Hc' & Hl' & Hs'). rewrite last_stored_snoc, Hs, Hs' in Heq.
    rewrite !map_app in Hcf.
    assert (text r = text r') as Ht.
    { apply Hcf; [set_solver..|]. apply hexdigest_digest. congruence. }
    apply Forall2_app; [|by constructor].
    apply IH; [done|done| | |].
    + eapply collision_free_sub; [|exact Hcf]. set_solver.
    + intros x x' Hx Hx'. apply Hlink; set_solver.
    + rewrite <- Hl, <- Hl'. apply Hlink; [set_solver|set_solver| | |done].
      * rewrite Hl. by apply last_stored_digest.
      * rewrite Hl'. by apply last_stored_digest.
Qed.
End HashChain.
