(* ===== verification/Merkle.v ===== *)
(** * Merkle trees over row hashes

    [mcp_proxy/audit/merkle.py]: [compute_merkle_root], [build_merkle_tree],
    [inclusion_proof] and [verify_inclusion].  Leaves and nodes are byte
    strings; the while loops run on fuel, the number of leaves, which is enough
    because every round at least halves a level of two or more nodes
    ([next_level_length]). *)

From S2P Require Import Prelude Sha256.

Definition _DIGEST_BYTES : nat := 32.

Definition digest_sized (b : string) : bool := String.length b =? _DIGEST_BYTES.

Definition _validate_leaves (leaves : list string) : outcome unit :=
  match leaves with
  | [] => Raise ValueError
  | _ => if forallb digest_sized leaves then Ret tt else Raise ValueError
  end.

Section Merkle.
Context `{Hash}.

(** [level.append(level[-1])] when the level is odd. *)
Definition pad_level (l : list string) : list string :=
  if Nat.odd (length l) then l ++ option_list (last l) else l.

(** [[sha256(l[i] + l[i+1]) for i in range(0, len(l), 2)]] on an even level. *)
Fixpoint pair_hashes (l : list string) : list string :=
  match l with
  | a :: b :: rest => digest (a +:+ b) :: pair_hashes rest
  | _ => []
  end.

Definition next_level (l : list string) : list string := pair_hashes (pad_level l).

Fixpoint root_loop (fuel : nat) (current : list string) : list string :=
  match fuel with
  | O => current
  | S fuel' => if 1 <? length current then root_loop fuel' (next_level current) else current
  end.

(** [current[0]] *)
Definition first_node (l : list string) : outcome string :=
  match l with x :: _ => Ret x | [] => Raise IndexError end.

Definition compute_merkle_root (leaves : list string) : outcome string :=
  let! _ := _validate_leaves leaves in
  first_node (root_loop (length leaves) leaves).

Fixpoint tree_loop (fuel : nat) (level : list string) : list (list string) :=
  match fuel with
  | O => [level]
  | S fuel' =>
      if 1 <? length level then pad_level level :: tree_loop fuel' (next_level level) else [level]
  end.

Definition build_merkle_tree (leaves : list string) : outcome (list (list string)) :=
  let! _ := _validate_leaves leaves in
  Ret (tree_loop (length leaves) leaves).

(** The walk over [tree[:-1]]. *)
Fixpoint proof_steps (cursor : nat) (tree : list (list string)) : outcome (list (string * string)) :=
  match tree with
  | [] | [_] => Ret []
  | level :: rest =>
      let sibling_idx := Nat.lxor cursor 1 in
      match level !! sibling_idx with
      | None => Raise IndexError
      | Some sibling =>
          let! steps := proof_steps (cursor / 2) rest in
          Ret ((sibling, if sibling_idx <? cursor then "L" else "R") :: steps)
      end
  end.

Definition inclusion_proof (leaves : list string) (index : Z) : outcome (list (string * string)) :=
  let! _ := _validate_leaves leaves in
  if (0 <=? index)%Z && (index <? Z.of_nat (length leaves))%Z then
    let! tree := build_merkle_tree leaves in
    proof_steps (Z.to_nat index) tree
  else Raise IndexError.

(** The walk of [verify_inclusion]; [None] is an early [return False]. *)
Fixpoint replay (current : string) (proof : list (string * string)) : option string :=
  match proof with
  | [] => Some current
  | (sibling, position) :: rest =>
      if negb (digest_sized sibling) then None
      else if bool_decide (position = "L") then replay (digest (sibling +:+ current)) rest
      else if bool_decide (position = "R") then replay (digest (current +:+ sibling)) rest
      else None
  end.

Definition verify_inclusion (leaf : string) (proof : list (string * string))
    (expected_root : string) : bool :=
  if negb (digest_sized leaf) then false
  else if negb (digest_sized expected_root) then false
  else bool_decide (replay leaf proof = Some expected_root).
End Merkle.

(** ** Levels *)

Section MerkleLemmas.
Context `{Hash}.

(** Two list positions at a time. *)
Lemma list_pair_ind {A} (P : list A → Prop) :
  P [] → (∀ a, P [a]) → (∀ a b l, P l → P (a :: b :: l)) → ∀ l, P l.
Proof.
  intros Hnil Hone Htwo l. enough (P l ∧ ∀ a, P (a :: l)) as [? _] by done.
  induction l as [|x l [IH IH']]; [auto|]. split; [auto|]. intros a. by apply Htwo.
Qed.

Lemma pair_hashes_length l : length (pair_hashes l) = length l / 2.
Proof.
  induction l as [| |a b l IH] using list_pair_ind; [done|done|].
  simpl pair_hashes. simpl length. rewrite IH.
  replace (S (S (length l))) with (length l + 1 * 2) by lia.
  rewrite Nat.div_add by lia. lia.
Qed.

Lemma pair_hashes_lookup l j x :
  pair_hashes l !! j = Some x ↔
  ∃ a b, l !! (2 * j) = Some a ∧ l !! (2 * j + 1) = Some b ∧ x = digest (a +:+ b).
Proof.
  revert j. induction l as [|a|a b l IH] using list_pair_ind; intros j.
  - simpl. rewrite !lookup_nil. naive_solver.
  - simpl. rewrite lookup_nil. split; [done|]. intros (u & v & _ & Hv%lookup_lt_Some & _).
    simpl in Hv. lia.
  - simpl pair_hashes. destruct j as [|j]; simpl.
    + split; [intros [= <-]; eauto|]. by intros (? & ? & [= ->] & [= ->] & ->).
    + rewrite IH. replace (j + S (j + 0)) with (S (2 * j)) by lia.
      replace (j + S (j + 0) + 1) with (S (2 * j + 1)) by lia. done.
Qed.

Lemma pad_level_length l : length (pad_level l) = length l + Nat.b2n (Nat.odd (length l)).
Proof.
  unfold pad_level. destruct (Nat.odd (length l)) eqn:Ho; [|simpl; lia].
  rewrite length_app. destruct l as [|x l _] using rev_ind; [done|].
  rewrite last_snoc. done.
Qed.

Lemma pad_level_even l : Nat.even (length (pad_level l)) = true.
Proof.
  rewrite pad_level_length, Nat.even_add, <- Nat.negb_odd.
  by destruct (Nat.odd (length l)).
Qed.

Lemma pad_level_sub l x : x ∈ pad_level l → x ∈ l.
Proof.
  unfold pad_level. destruct (Nat.odd _); [|done].
  destruct l as [|y l _] using rev_ind; [done|]. rewrite last_snoc. set_solver.
Qed.

Lemma pad_level_lookup l i x : l !! i = Some x → pad_level l !! i = Some x.
Proof. unfold pad_level. destruct (Nat.odd _); [|done]. apply lookup_app_l_Some. Qed.

(** Every round shrinks a level of two or more nodes, and keeps it non-empty. *)
Lemma next_level_length l : 1 < length l → 0 < length (next_level l) < length l.
Proof.
  intros Hl. unfold next_level. rewrite pair_hashes_length.
  pose proof (pad_level_even l) as He. apply Nat.even_spec in He as [k Hk].
  rewrite Hk, Nat.mul_comm, Nat.div_mul by lia.
  pose proof (pad_level_length l). destruct (Nat.odd _); simpl in *; lia.
Qed.

(** ** The sibling [cursor ^ 1] *)

Lemma lxor_even k : Nat.lxor (2 * k) 1 = 2 * k + 1.
Proof.
  symmetry. apply Nat.add_nocarry_lxor. change 1 with (Nat.ones 1).
  rewrite Nat.land_ones. change (2 ^ 1) with 2. rewrite Nat.mul_comm. by apply Nat.Div0.mod_mul.
Qed.

Lemma lxor_odd k : Nat.lxor (2 * k + 1) 1 = 2 * k.
Proof. by rewrite <- lxor_even, Nat.lxor_assoc, Nat.lxor_nilpotent, Nat.lxor_0_r. Qed.

Lemma even_or_odd i : (∃ k, i = 2 * k) ∨ (∃ k, i = 2 * k + 1).
Proof. destruct (Nat.Even_or_Odd i) as [[k ->]|[k ->]]; eauto. Qed.

(** A node and its sibling, in order, hash to their parent. *)
Lemma step_up l i x :
  Nat.even (length l) = true → l !! i = Some x →
  ∃ y, l !! (Nat.lxor i 1) = Some y ∧
    pair_hashes l !! (i / 2) =
      Some (digest (if Nat.lxor i 1 <? i then y +:+ x else x +:+ y)).
Proof.
  intros [n Hn]%Nat.even_spec Hi. pose proof (lookup_lt_Some _ _ _ Hi) as Hlt.
  destruct (even_or_odd i) as [[k ->]|[k ->]].
  - rewrite lxor_even. destruct (lookup_lt_is_Some_2 l (2 * k + 1)) as [y Hy]; [lia|].
    exists y. split; [done|]. rewrite (proj2 (Nat.ltb_ge _ _)) by lia.
    replace (2 * k / 2) with k by (rewrite Nat.mul_comm, Nat.div_mul; lia).
    apply pair_hashes_lookup. eauto.
  - rewrite lxor_odd. destruct (lookup_lt_is_Some_2 l (2 * k)) as [y Hy]; [lia|].
    exists y. split; [done|]. rewrite (proj2 (Nat.ltb_lt _ _)) by lia.
    replace ((2 * k + 1) / 2) with k
      by (rewrite Nat.add_comm, Nat.mul_comm, Nat.div_add by lia; done).
    apply pair_hashes_lookup. eauto.
Qed.

(** ** Sizes *)

Definition sized (l : list string) : Prop := Forall (λ x, digest_sized x = true) l.

Lemma digest_is_sized m : digest_sized (digest m) = true.
Proof. unfold digest_sized. by rewrite digest_length. Qed.

Lemma pair_hashes_sized l : sized (pair_hashes l).
Proof.
  induction l as [| |a b l IH] using list_pair_ind; try constructor; [|done].
  apply digest_is_sized.
Qed.

Lemma pad_level_sized l : sized l → sized (pad_level l).
Proof.
  unfold sized. rewrite !Forall_forall. intros Hl x Hx. by apply Hl, pad_level_sub.
Qed.

Lemma validate_sized leaves :
  _validate_leaves leaves = Ret tt ↔ 0 < length leaves ∧ sized leaves.
Proof.
  unfold _validate_leaves, sized. destruct leaves as [|x l]; [simpl; split; [done|lia]|].
  rewrite Forall_forall. destruct (forallb _ _) eqn:Hf.
  - rewrite forallb_forall in Hf. split; [|done]. intros _. split; [simpl; lia|].
    intros y Hy. by apply Hf, list_elem_of_In.
  - split; [done|]. intros [_ Hs].
    enough (forallb digest_sized (x :: l) = true) as Ht by (by rewrite Hf in Ht).
    apply forallb_forall. intros y Hy. by apply Hs, list_elem_of_In.
Qed.

(** ** The loops end with a single node *)

Lemma root_loop_single fuel l :
  0 < length l <= fuel → ∃ r, root_loop fuel l = [r].
Proof.
  revert l. induction fuel as [|fuel IH]; intros l Hl; [lia|]. simpl.
  destruct (Nat.ltb_spec 1 (length l)) as [Hlt|Hge].
  - apply IH. pose proof (next_level_length l Hlt). lia.
  - destruct l as [|x [|y l]]; simpl in *; [lia|eauto|lia].
Qed.

Lemma root_sized fuel l r : sized l → root_loop fuel l = [r] → digest_sized r = true.
Proof.
  revert l. induction fuel as [|fuel IH]; intros l Hl; simpl.
  - intros ->. by apply Forall_cons_1 in Hl as [? _].
  - destruct (1 <? length l); [apply IH, pair_hashes_sized|].
    intros ->. by apply Forall_cons_1 in Hl as [? _].
Qed.

Lemma tree_loop_cons fuel l : ∃ level rest, tree_loop fuel l = level :: rest.
Proof. destruct fuel; simpl; [eauto|]. destruct (1 <? length l); eauto. Qed.

Lemma proof_steps_cons cursor level rest :
  rest ≠ [] →
  proof_steps cursor (level :: rest) =
    match level !! Nat.lxor cursor 1 with
    | None => Raise IndexError
    | Some sibling =>
        let! steps := proof_steps (cursor / 2) rest in
        Ret ((sibling, if Nat.lxor cursor 1 <? cursor then "L" else "R") :: steps)
    end.
Proof. by destruct rest. Qed.

Lemma replay_step current sibling (left : bool) rest :
  digest_sized sibling = true →
  replay current ((sibling, if left then "L" else "R") :: rest) =
    replay (digest (if left then sibling +:+ current else current +:+ sibling)) rest.
Proof. intros Hs. cbn [replay]. rewrite Hs. by destruct left. Qed.

(** ** Completeness: the proof of every leaf exists and replays to the root *)

Lemma proof_complete fuel l i leaf :
  length l <= fuel → sized l → l !! i = Some leaf →
  ∃ steps r, proof_steps i (tree_loop fuel l) = Ret steps ∧ root_loop fuel l = [r] ∧
    replay leaf steps = Some r ∧ S (length steps) = length (tree_loop fuel l).
Proof.
  revert l i leaf. induction fuel as [|fuel IH]; intros l i leaf Hlen Hsz Hi.
  { destruct l; [done|simpl in Hlen; lia]. }
  simpl. destruct (Nat.ltb_spec 1 (length l)) as [Hlt|Hge].
  2: { pose proof (lookup_lt_Some _ _ _ Hi).
       destruct l as [|x [|y l]]; simpl in *; [lia| |lia].
       assert (i = 0) as -> by lia. injection Hi as ->. exists [], leaf. done. }
  apply pad_level_lookup in Hi. destruct (step_up _ _ _ (pad_level_even l) Hi) as (y & Hy & Hup).
  pose proof (next_level_length l Hlt) as Hnl.
  destruct (IH (next_level l) (i / 2) _ ltac:(lia) (pair_hashes_sized _) Hup)
    as (steps & r & Hsteps & Hroot & Hrep & Hl).
  destruct (tree_loop_cons fuel (next_level l)) as (lv & rest & Htree).
  rewrite proof_steps_cons by (by rewrite Htree). rewrite Hy, Hsteps. simpl obind.
  eexists _, r. split_and!; [done|done| |simpl; by rewrite Hl].
  rewrite replay_step; [done|].
  pose proof (pad_level_sized l Hsz) as Hps. unfold sized in Hps. rewrite Forall_forall in Hps.
  apply Hps. by apply list_elem_of_lookup_2 in Hy.
Qed.

(** ** Soundness: what replays to the root is a leaf *)

(** The texts hashed while building a tree, and while replaying a proof. *)
Fixpoint pair_texts (l : list string) : list string :=
  match l with
  | a :: b :: rest => (a +:+ b) :: pair_texts rest
  | _ => []
  end.

Fixpoint tree_texts (fuel : nat) (l : list string) : list string :=
  match fuel with
  | O => []
  | S fuel' =>
      if 1 <? length l then pair_texts (pad_level l) ++ tree_texts fuel' (next_level l) else []
  end.

Fixpoint path_texts (current : string) (proof : list (string * string)) : list string :=
  match proof with
  | [] => []
  | (sibling, position) :: rest =>
      let text := if bool_decide (position = "L") then sibling +:+ current
                  else current +:+ sibling in
      text :: path_texts (digest text) rest
  end.

Lemma pair_hashes_texts l x : x ∈ pair_hashes l → ∃ a b, a ∈ l ∧ b ∈ l ∧ x = digest (a +:+ b) ∧ (a +:+ b) ∈ pair_texts l.
Proof.
  induction l as [| |a b l IH] using list_pair_ind; [set_solver..|].
  simpl. intros [->|Hx]%elem_of_cons.
  - exists a, b. set_solver.
  - destruct (IH Hx) as (u & v & ? & ? & ? & ?). exists u, v. set_solver.
Qed.

Lemma digest_sized_inj (a b x y : string) :
  digest_sized a = true → digest_sized b = true →
  a +:+ x = b +:+ y → a = b ∧ x = y.
Proof.
  unfold digest_sized. rewrite !Nat.eqb_eq. intros Ha Hb. apply str_app_inj_len. congruence.
Qed.

Lemma replay_inv current sibling position rest r :
  replay current ((sibling, position) :: rest) = Some r →
  digest_sized sibling = true ∧
  let text := if bool_decide (position = "L") then sibling +:+ current
              else current +:+ sibling in
  replay (digest text) rest = Some r.
Proof.
  cbn [replay]. destruct (digest_sized sibling); simpl; [|done].
  case_bool_decide; [done|]. case_bool_decide; done.
Qed.

Lemma proof_sound fuel l leaf steps r :
  0 < length l <= fuel → sized l → digest_sized leaf = true →
  root_loop fuel l = [r] → replay leaf steps = Some r →
  S (length steps) = length (tree_loop fuel l) →
  collision_free (tree_texts fuel l ++ path_texts leaf steps) →
  leaf ∈ l.
Proof.
  revert l leaf steps. induction fuel as [|fuel IH]; intros l leaf steps Hlen Hsz Hleaf Hroot Hrep Hst Hcf;
    [lia|]. simpl in *.
  destruct (Nat.ltb_spec 1 (length l)) as [Hlt|Hge].
  2: { destruct steps; [|done]. injection Hrep as ->. subst. left. }
  destruct steps as [|[sibling position] steps].
  { destruct (tree_loop_cons fuel (next_level l)) as (? & ? & Ht). by rewrite Ht in Hst. }
  apply replay_inv in Hrep as [Hsib Hrep]. cbv zeta in Hrep.
  pose proof (next_level_length l Hlt) as Hnl. simpl in Hcf, Hst.
  set (text := if bool_decide (position = "L") then sibling +:+ leaf else leaf +:+ sibling) in *.
  assert (digest text ∈ next_level l) as Hin.
  { eapply (IH _ _ steps); try done; [lia|apply pair_hashes_sized|apply digest_is_sized|lia|].
    eapply collision_free_sub; [|exact Hcf]. set_solver. }
  apply pair_hashes_texts in Hin as (a & b & Ha & Hb & Heq & Ht).
  apply Hcf in Heq; [|set_solver..].
  pose proof (pad_level_sized l Hsz) as Hps. unfold sized in Hps. rewrite Forall_forall in Hps.
  apply pad_level_sub. unfold text in Heq. case_bool_decide;
    apply digest_sized_inj in Heq as [-> ->]; auto.
Qed.
End MerkleLemmas.

(** ** The depth of the tree *)

Section Depth.
Context `{Hash}.

Lemma log2_up_half n m : 1 < n → 2 * m = n + Nat.b2n (Nat.odd n) → Nat.log2_up n = S (Nat.log2_up m).
Proof.
  intros Hn Hm. pose proof (Nat.b2n_le_1 (Nat.odd n)).
  destruct (decide (m = 1)) as [->|Hne].
  { assert (n = 2) as -> by lia. done. }
  destruct (Nat.log2_up_spec m ltac:(lia)) as [Hlo Hhi].
  pose proof (Nat.log2_up_pos m ltac:(lia)) as Hp.
  apply Nat.log2_up_unique; [lia|]. rewrite Nat.pow_succ_r'.
  replace (Nat.pred (S (Nat.log2_up m))) with (S (Nat.pred (Nat.log2_up m))) by lia.
  rewrite Nat.pow_succ_r'. lia.
Qed.

Lemma next_level_double l : 2 * length (next_level l) = length l + Nat.b2n (Nat.odd (length l)).
Proof.
  unfold next_level. rewrite pair_hashes_length. pose proof (pad_level_even l) as [k Hk]%Nat.even_spec.
  rewrite <- pad_level_length, Hk. f_equal. by rewrite Nat.mul_comm, Nat.div_mul by lia.
Qed.

Lemma tree_depth fuel l :
  0 < length l <= fuel → length (tree_loop fuel l) = S (Nat.log2_up (length l)).
Proof.
  revert l. induction fuel as [|fuel IH]; intros l Hl; [lia|]. simpl.
  destruct (Nat.ltb_spec 1 (length l)) as [Hlt|Hge].
  - pose proof (next_level_length l Hlt). simpl. rewrite IH by lia.
    by rewrite (log2_up_half (length l) (length (next_level l))) by (done || apply next_level_double).
  - simpl. by assert (length l = 1) as -> by lia.
Qed.
End Depth.

(** ** Properties *)

Section MerkleProperties.
Context `{Hash}.

Lemma inclusion_total leaves i :
  _validate_leaves leaves = Ret tt → (0 <= i < Z.of_nat (length leaves))%Z →
  ∃ leaf steps root, leaves !! Z.to_nat i = Some leaf ∧
    inclusion_proof leaves i = Ret steps ∧ compute_merkle_root leaves = Ret root ∧
    digest_sized root = true ∧ digest_sized leaf = true ∧ replay leaf steps = Some root ∧
    length steps = Nat.log2_up (length leaves).
Proof.
  intros Hv Hi. pose proof (proj1 (validate_sized _) Hv) as [Hlen Hsz].
  destruct (lookup_lt_is_Some_2 leaves (Z.to_nat i)) as [leaf Hleaf]; [lia|].
  destruct (proof_complete (length leaves) leaves (Z.to_nat i) leaf ltac:(lia) Hsz Hleaf)
    as (steps & root & Hs & Hr & Hrep & Hl).
  exists leaf, steps, root. unfold inclusion_proof, compute_merkle_root, build_merkle_tree.
  rewrite Hv, Hr. simpl. rewrite (proj2 (Z.leb_le _ _)), (proj2 (Z.ltb_lt _ _)) by lia. simpl.
  split_and!; try done.
  - by eapply root_sized.
  - unfold sized in Hsz. rewrite Forall_forall in Hsz. by eapply Hsz, list_elem_of_lookup_2.
  - rewrite tree_depth in Hl by lia. lia.
Qed.

Lemma root_of_single leaves root :
  compute_merkle_root leaves = Ret root →
  0 < length leaves ∧ sized leaves ∧ root_loop (length leaves) leaves = [root].
Proof.
  unfold compute_merkle_root. destruct (_validate_leaves leaves) as [[]|] eqn:Hv; [|done].
  apply validate_sized in Hv as [Hlen Hsz].
  destruct (root_loop_single (length leaves) leaves ltac:(lia)) as [r ->].
  by intros [= ->].
Qed.

(** The first step of a proof in a tree of two or more leaves: its side is the
    parity of the index. *)
Lemma proof_first_step leaves i steps :
  1 < length leaves → (0 <= i < Z.of_nat (length leaves))%Z →
  inclusion_proof leaves i = Ret steps →
  ∃ sibling rest, steps = (sibling, if Z.odd i then "L" else "R") :: rest ∧
    digest_sized sibling = true.
Proof.
  intros Hlen Hi. unfold inclusion_proof, build_merkle_tree.
  destruct (_validate_leaves leaves) as [[]|] eqn:Hv; [|done]. simpl.
  rewrite (proj2 (Z.leb_le _ _)), (proj2 (Z.ltb_lt _ _)) by lia. simpl.
  destruct leaves as [|x leaves]; [done|]. simpl tree_loop.
  assert ((1 <? S (length leaves)) = true) as -> by (apply Nat.ltb_lt; simpl in Hlen; lia).
  destruct (tree_loop_cons (length leaves) (next_level (x :: leaves))) as (lv & rest & Ht).
  rewrite Ht, proof_steps_cons by done.
  destruct (pad_level (x :: leaves) !! Nat.lxor (Z.to_nat i) 1) as [sib|] eqn:Hsib; [|done].
  destruct (proof_steps _ _) as [tl|]; [|done]. intros [= <-]. exists sib, tl. split.
  - do 2 f_equal. destruct (even_or_odd (Z.to_nat i)) as [[k Hk]|[k Hk]]; rewrite Hk.
    + rewrite lxor_even, (proj2 (Nat.ltb_ge _ _)) by lia.
      replace i with (2 * Z.of_nat k)%Z by lia. by rewrite Z.odd_mul.
    + rewrite lxor_odd, (proj2 (Nat.ltb_lt _ _)) by lia.
      replace i with (2 * Z.of_nat k + 1)%Z by lia. by rewrite Z.add_comm, Z.odd_add_mul_2.
  - apply validate_sized in Hv as [_ Hsz]. apply pad_level_sized in Hsz. unfold sized in Hsz.
    rewrite Forall_forall in Hsz. by eapply Hsz, list_elem_of_lookup_2.
Qed.

(** every leaf has an inclusion proof and it verifies: for valid leaves and
    an index in range, [inclusion_proof] returns a proof of exactly
    [log2_up(len(leaves))] steps that [verify_inclusion] accepts for that
    leaf against the computed root. *)
Theorem inclusion_complete (leaves : list string) (i : Z) :
  _validate_leaves leaves = Ret tt → (0 <= i < Z.of_nat (length leaves))%Z →
  ∃ leaf steps root,
    leaves !! Z.to_nat i = Some leaf ∧ inclusion_proof leaves i = Ret steps ∧
    compute_merkle_root leaves = Ret root ∧ verify_inclusion leaf steps root = true ∧
    length steps = Nat.log2_up (length leaves).
Proof.
  intros Hv Hi. destruct (inclusion_total leaves i Hv Hi)
    as (leaf & steps & root & Hl & Hp & Hr & Hrs & Hls & Hrep & Hlen).
  exists leaf, steps, root. split_and!; try done.
  unfold verify_inclusion. rewrite Hls, Hrs. simpl. by rewrite bool_decide_eq_true_2.
Qed.

(** nothing else verifies at the depth of the tree: a proof of
    [log2_up(len(leaves))] steps that [verify_inclusion] accepts against the
    root of [leaves] is a proof of one of the leaves, unless two of the texts
    hashed by the tree and by the replay collide. *)
Theorem inclusion_sound (leaves : list string) (root leaf : string)
    (proof : list (string * string)) :
  compute_merkle_root leaves = Ret root →
  verify_inclusion leaf proof root = true →
  length proof = Nat.log2_up (length leaves) →
  collision_free (tree_texts (length leaves) leaves ++ path_texts leaf proof) →
  leaf ∈ leaves.
Proof.
  intros (Hlen & Hsz & Hroot)%root_of_single Hver Hdepth Hcf.
  unfold verify_inclusion in Hver. destruct (digest_sized leaf) eqn:Hls; [|done].
  destruct (digest_sized root); [|done]. simpl in Hver. bools.
  apply (proof_sound (length leaves) leaves leaf proof root); try done.
  rewrite tree_depth by lia. lia.
Qed.

(** The depth is not bound by the digest: the parent of two leaves verifies
    as a leaf, with the proof shortened by one step. Only the number of steps
    tells an inner node from a row hash. *)
Theorem inner_node_verifies (leaves : list string) (i : Z) :
  _validate_leaves leaves = Ret tt → (0 <= i < Z.of_nat (length leaves))%Z → 1 < length leaves →
  ∃ a b steps root,
    compute_merkle_root leaves = Ret root ∧
    verify_inclusion (digest (a +:+ b)) steps root = true ∧
    length steps = Nat.pred (Nat.log2_up (length leaves)) ∧
    leaves !! Z.to_nat i = Some (if Z.even i then a else b).
Proof.
  intros Hv Hi Hlen. destruct (inclusion_total leaves i Hv Hi)
    as (leaf & steps & root & Hl & Hp & Hr & Hrs & Hls & Hrep & Hst).
  destruct (proof_first_step leaves i steps Hlen Hi Hp) as (sib & rest & -> & Hsib).
  pose proof (replay_step leaf sib (Z.odd i) rest Hsib) as Hstep. rewrite Hrep in Hstep.
  destruct (Z.odd i) eqn:Hodd;
    [exists sib, leaf, rest, root|exists leaf, sib, rest, root];
    rewrite <- Z.negb_odd, Hodd; simpl in Hst; (split_and!; [done| |lia|done]);
    unfold verify_inclusion; rewrite digest_is_sized, Hrs; simpl;
    by rewrite bool_decide_eq_true_2.
Qed.
End MerkleProperties.

(** ** Witnesses: a tree of five leaves *)

Module MerkleDemo.
Definition leaves : list string :=
  Eval vm_compute in sha256 <$> ["a"; "b"; "c"; "d"; "e"].
Definition root : string :=
  Eval vm_compute in match compute_merkle_root leaves with Ret r => r | Raise _ => "" end.
Definition proof : list (string * string) :=
  Eval vm_compute in match inclusion_proof leaves 4 with Ret p => p | Raise _ => [] end.
Definition leaf : string := Eval vm_compute in sha256 "e".
End MerkleDemo.

Lemma inclusion_complete_witness :
  ∃ leaf steps root,
    MerkleDemo.leaves !! 3 = Some leaf ∧ inclusion_proof MerkleDemo.leaves 3 = Ret steps ∧
    compute_merkle_root MerkleDemo.leaves = Ret root ∧ verify_inclusion leaf steps root = true ∧
    length steps = 3.
Proof.
  refine (inclusion_complete MerkleDemo.leaves 3 _ _); [vm_compute; reflexivity|].
  vm_compute. split; [intros [=]|reflexivity].
Defined.

Lemma inclusion_sound_witness : MerkleDemo.leaf ∈ MerkleDemo.leaves.
Proof.
  refine (inclusion_sound MerkleDemo.leaves MerkleDemo.root MerkleDemo.leaf MerkleDemo.proof _ _ _ _).
  - vm_compute. reflexivity.
  - vm_compute. reflexivity.
  - vm_compute. reflexivity.
  - apply collision_freeb_sound. vm_compute. reflexivity.
Defined.

Lemma inner_node_verifies_witness :
  ∃ a b steps root,
    compute_merkle_root MerkleDemo.leaves = Ret root ∧
    verify_inclusion (digest (a +:+ b)) steps root = true ∧ length steps = 2 ∧
    MerkleDemo.leaves !! 1 = Some b.
Proof.
  refine (inner_node_verifies MerkleDemo.leaves 1 _ _ _).
  - vm_compute. reflexivity.
  - vm_compute. split; [intros [=]|reflexivity].
  - simpl. lia.
Defined.
