(* ===== verification/IsoTime.v ===== *)
(** * ISO-8601 timestamps

    The program stores every instant as the text [datetime.isoformat()] prints
    and reads it back with [datetime.fromisoformat()].  This file gives the
    interface [IsoFormat] that the audit chains use (printing, parsing, their
    round trip) and implements it on the fields of a Python [datetime]:
    year to microsecond and a [tzinfo] that is absent or UTC.  The parser
    accepts the shape the printer emits; other shapes [fromisoformat] knows
    raise here, which is why client theorems go through the interface. *)

From S2P Require Import Prelude Sha256.

Class IsoFormat := {
  datetime : Type;
  aware : datetime → bool;                 (* [dt.tzinfo is not None] *)
  replace_utc : datetime → datetime;       (* [dt.replace(tzinfo=timezone.utc)] *)
  isoformat : datetime → string;
  fromisoformat : string → outcome datetime;
  utc_datetime : datetime → Prop;          (* what [datetime.now(timezone.utc)] returns *)
  utc_aware : ∀ d, utc_datetime d → aware d = true;
  from_to_iso : ∀ d, utc_datetime d → fromisoformat (isoformat d) = Ret d;
  isoformat_pipe_free : ∀ d, utc_datetime d → pipe_free (isoformat d);
}.

(** [_iso] / [_parse] of the local modules read a naive value as UTC.  On an
    aware UTC value [astimezone(timezone.utc)] is the identity. *)
Definition _iso `{IsoFormat} (d : datetime) : string :=
  isoformat (if aware d then d else replace_utc d).

(** ** Fixed-width decimal fields *)

Fixpoint digits (w : nat) (n : N) : string :=
  match w with
  | O => ""
  | S w' => String (pretty_N_char (n / 10 ^ N.of_nat w')) (digits w' (n mod 10 ^ N.of_nat w'))
  end.

Definition digit_value (c : ascii) : option N :=
  let v := N_of_ascii c in
  if ((48 <=? v) && (v <=? 57))%N then Some (v - 48)%N else None.

Fixpoint parse_digits (w : nat) (s : string) : option (N * string) :=
  match w with
  | O => Some (0%N, s)
  | S w' =>
      match s with
      | EmptyString => None
      | String c s' =>
          v ← digit_value c;
          '(n, rest) ← parse_digits w' s';
          Some (v * 10 ^ N.of_nat w' + n, rest)%N
      end
  end.

Lemma digit_value_char v : (v < 10)%N → digit_value (pretty_N_char v) = Some v.
Proof.
  intros Hv.
  assert (v = 0 ∨ v = 1 ∨ v = 2 ∨ v = 3 ∨ v = 4 ∨ v = 5 ∨ v = 6 ∨ v = 7 ∨ v = 8 ∨ v = 9)%N
    as Hc by lia.
  by destruct_or! Hc; subst.
Qed.

Lemma pow10_pos w : (0 < 10 ^ N.of_nat w)%N.
Proof. apply N.neq_0_lt_0, N.pow_nonzero. lia. Qed.

Lemma parse_digits_digits w n rest :
  (n < 10 ^ N.of_nat w)%N → parse_digits w (digits w n +:+ rest) = Some (n, rest).
Proof.
  revert n. induction w as [|w IH]; intros n Hn.
  - simpl in Hn. assert (n = 0%N) as -> by (change (10 ^ 0)%N with 1%N in Hn; lia). done.
  - pose proof (pow10_pos w). rewrite Nat2N.inj_succ, N.pow_succ_r' in Hn.
    cbn [digits]. rewrite str_app_cons. cbn [parse_digits].
    rewrite digit_value_char by (apply N.Div0.div_lt_upper_bound; lia).
    simpl. rewrite IH by (apply N.mod_lt; lia). simpl. do 2 f_equal.
    rewrite N.mul_comm. symmetry. apply N.div_mod. lia.
Qed.

Lemma digits_pipe_free w n : pipe_free (digits w n).
Proof.
  revert n. induction w as [|w IH]; intros n; simpl; [done|].
  rewrite IH, orb_false_r. apply bool_decide_eq_false_2.
  unfold pretty_N_char. by repeat case_match.
Qed.

(** ** Dates *)

Record date_fields := {
  year : N; month : N; day : N;
  hour : N; minute : N; second : N; microsecond : N;
  tz_utc : bool;
}.

(** The ranges a Python [datetime] keeps its fields in (the day is bounded by
    31, not by the length of its month: no calendar arithmetic is done here). *)
Definition date_ok (d : date_fields) : bool :=
  ((1 <=? year d) && (year d <=? 9999) &&
   (1 <=? month d) && (month d <=? 12) && (1 <=? day d) && (day d <=? 31) &&
   (hour d <=? 23) && (minute d <=? 59) && (second d <=? 59) &&
   (microsecond d <=? 999999))%N.

Definition print_iso (d : date_fields) : string :=
  digits 4 (year d) +:+ "-" +:+ digits 2 (month d) +:+ "-" +:+ digits 2 (day d) +:+ "T" +:+
  digits 2 (hour d) +:+ ":" +:+ digits 2 (minute d) +:+ ":" +:+ digits 2 (second d) +:+
  (if (microsecond d =? 0)%N then "" else "." +:+ digits 6 (microsecond d)) +:+
  (if tz_utc d then "+00:00" else "").

Definition eat (c : ascii) (s : string) : option string :=
  match s with String d s' => if bool_decide (c = d) then Some s' else None | _ => None end.

Definition parse_fraction (s : string) : option (N * string) :=
  match eat "."%char s with
  | Some s' => parse_digits 6 s'
  | None => Some (0%N, s)
  end.

Definition parse_zone (s : string) : option bool :=
  if bool_decide (s = "") then Some false
  else if bool_decide (s = "+00:00") then Some true else None.

Definition parse_iso (s : string) : option date_fields :=
  '(y, s) ← parse_digits 4 s; s ← eat "-"%char s;
  '(mo, s) ← parse_digits 2 s; s ← eat "-"%char s;
  '(d, s) ← parse_digits 2 s; s ← eat "T"%char s;
  '(h, s) ← parse_digits 2 s; s ← eat ":"%char s;
  '(mi, s) ← parse_digits 2 s; s ← eat ":"%char s;
  '(se, s) ← parse_digits 2 s;
  '(us, s) ← parse_fraction s;
  z ← parse_zone s;
  let r := {| year := y; month := mo; day := d; hour := h; minute := mi;
              second := se; microsecond := us; tz_utc := z |} in
  if date_ok r then Some r else None.

Lemma eat_sep c s : eat c (String c "" +:+ s) = Some s.
Proof. rewrite str_app_cons. simpl. by rewrite bool_decide_eq_true_2. Qed.

Lemma parse_zone_print (b : bool) : parse_zone (if b then "+00:00" else "") = Some b.
Proof. by destruct b. Qed.

Lemma parse_fraction_print us (b : bool) :
  (us <= 999999)%N →
  parse_fraction ((if (us =? 0)%N then "" else "." +:+ digits 6 us) +:+ (if b then "+00:00" else ""))
  = Some (us, if b then "+00:00" else "").
Proof.
  intros Hus. destruct (N.eqb_spec us 0) as [->|Hne]; [by destruct b|].
  rewrite str_app_assoc. unfold parse_fraction. rewrite eat_sep. apply parse_digits_digits.
  change (10 ^ N.of_nat 6)%N with 1000000%N. lia.
Qed.

Lemma parse_print_iso d : date_ok d = true → parse_iso (print_iso d) = Some d.
Proof.
  intros Hok. pose proof Hok as Hb. unfold date_ok in Hb.
  rewrite !andb_true_iff, !N.leb_le in Hb. destruct_and! Hb.
  unfold parse_iso, print_iso.
  repeat (rewrite parse_digits_digits by (simpl; lia); cbn [mbind option_bind];
          rewrite ?eat_sep; cbn [mbind option_bind]).
  rewrite parse_fraction_print by lia. cbn [mbind option_bind].
  rewrite parse_zone_print. cbn [mbind option_bind].
  destruct d. simpl in *. by rewrite Hok.
Qed.

Lemma print_iso_pipe_free d : pipe_free (print_iso d).
Proof.
  unfold print_iso. rewrite !has_char_app, !digits_pipe_free.
  case_match; case_match; rewrite ?has_char_app, ?digits_pipe_free; reflexivity.
Qed.

Definition read_iso (s : string) : outcome date_fields :=
  match parse_iso s with Some d => Ret d | None => Raise ValueError end.

Lemma read_print_iso d :
  date_ok d = true ∧ tz_utc d = true → read_iso (print_iso d) = Ret d.
Proof. intros [Hok _]. unfold read_iso. by rewrite parse_print_iso. Qed.

#[export] Instance iso_format : IsoFormat := {
  datetime := date_fields;
  aware := tz_utc;
  replace_utc d :=
    {| year := year d; month := month d; day := day d; hour := hour d; minute := minute d;
       second := second d; microsecond := microsecond d; tz_utc := true |};
  isoformat := print_iso;
  fromisoformat := read_iso;
  utc_datetime d := date_ok d = true ∧ tz_utc d = true;
  utc_aware _ H := proj2 H;
  from_to_iso := read_print_iso;
  isoformat_pipe_free d _ := print_iso_pipe_free d;
}.

Example iso_printed :
  isoformat {| year := 2026; month := 6; day := 2; hour := 7; minute := 5; second := 9;
               microsecond := 420; tz_utc := true |} = "2026-06-02T07:05:09.000420+00:00".
Proof. reflexivity. Qed.

(** ** Texts compare as instants

    The queue and the session rows are compared in SQL by their texts. *)

(** The fields of a date as one number, in the order the text prints them. *)
Definition stamp (d : date_fields) : N :=
  (((((year d * 100 + month d) * 100 + day d) * 100 + hour d) * 100 + minute d) * 100
   + second d) * 1000000 + microsecond d.

Definition then_compare (c c' : comparison) : comparison :=
  match c with Eq => c' | _ => c end.

Lemma mul_add_compare k a a' b b' :
  (b < k)%N → (b' < k)%N →
  (a * k + b ?= a' * k + b')%N = then_compare (a ?= a')%N (b ?= b')%N.
Proof.
  intros Hb Hb'. destruct (N.compare_spec a a') as [->|Ha|Ha]; simpl.
  - destruct (N.compare_spec b b') as [->|Hb2|Hb2];
      [apply N.compare_refl|apply N.compare_lt_iff; lia|apply N.compare_gt_iff; lia].
  - apply N.compare_lt_iff. nia.
  - apply N.compare_gt_iff. nia.
Qed.

Lemma digit_compare v v' :
  (v < 10)%N → (v' < 10)%N → Ascii.compare (pretty_N_char v) (pretty_N_char v') = (v ?= v')%N.
Proof.
  intros Hv Hv'.
  assert (∀ x, x < 10 → x = 0 ∨ x = 1 ∨ x = 2 ∨ x = 3 ∨ x = 4 ∨ x = 5 ∨ x = 6 ∨ x = 7 ∨ x = 8 ∨ x = 9)%N
    as Hc by lia.
  apply Hc in Hv, Hv'. by destruct_or! Hv; destruct_or! Hv'; subst.
Qed.

Lemma digits_compare w n n' s s' :
  (n < 10 ^ N.of_nat w)%N → (n' < 10 ^ N.of_nat w)%N →
  String.compare (digits w n +:+ s) (digits w n' +:+ s')
  = then_compare (n ?= n')%N (String.compare s s').
Proof.
  revert n n'. induction w as [|w IH]; intros n n' Hn Hn'.
  - assert (n = 0%N) as -> by (change (10 ^ N.of_nat 0)%N with 1%N in Hn; lia).
    assert (n' = 0%N) as -> by (change (10 ^ N.of_nat 0)%N with 1%N in Hn'; lia). done.
  - pose proof (pow10_pos w). rewrite Nat2N.inj_succ, N.pow_succ_r' in Hn, Hn'.
    cbn [digits]. rewrite !str_app_cons. cbn [String.compare].
    rewrite digit_compare by (apply N.Div0.div_lt_upper_bound; lia).
    set (k := (10 ^ N.of_nat w)%N) in *.
    rewrite (N.div_mod n k), (N.div_mod n' k) at 3 by lia.
    rewrite !(N.mul_comm k), mul_add_compare by (apply N.mod_lt; lia).
    rewrite IH by (apply N.mod_lt; lia). by destruct (_ ?= _)%N.
Qed.

Lemma char_compare_eq c s s' :
  String.compare (String c "" +:+ s) (String c "" +:+ s') = String.compare s s'.
Proof. rewrite !str_app_cons. simpl.
  unfold Ascii.compare. by rewrite N.compare_refl.
Qed.

Lemma tail_compare us us' :
  (us <= 999999)%N → (us' <= 999999)%N →
  String.compare ((if (us =? 0)%N then "" else "." +:+ digits 6 us) +:+ "+00:00")
                 ((if (us' =? 0)%N then "" else "." +:+ digits 6 us') +:+ "+00:00")
  = (us ?= us')%N.
Proof.
  intros Hu Hu'. destruct (N.eqb_spec us 0) as [->|Hn], (N.eqb_spec us' 0) as [->|Hn'].
  - reflexivity.
  - symmetry. apply N.compare_lt_iff. lia.
  - symmetry. apply N.compare_gt_iff. lia.
  - rewrite !str_app_assoc, char_compare_eq, digits_compare
      by (change (10 ^ N.of_nat 6)%N with 1000000%N; lia).
    by destruct (_ ?= _)%N.
Qed.

Lemma print_iso_order d d' :
  date_ok d = true → date_ok d' = true → tz_utc d = true → tz_utc d' = true →
  String.compare (print_iso d) (print_iso d') = (stamp d ?= stamp d')%N.
Proof.
  intros Hd Hd' Hz Hz'. unfold date_ok in Hd, Hd'.
  rewrite !andb_true_iff, !N.leb_le in Hd, Hd'. destruct_and! Hd. destruct_and! Hd'.
  unfold print_iso, stamp. rewrite Hz, Hz'.
  repeat (rewrite digits_compare by (simpl; lia); rewrite ?char_compare_eq).
  rewrite tail_compare by lia. rewrite !mul_add_compare by lia.
  by repeat (destruct (_ ?= _)%N; simpl; [|done..]).
Qed.

(** the texts [_iso] stores compare, as texts, exactly as the dates they
    denote do from the year down to the microsecond, naive dates read as UTC.
    This is what lets the queue and session queries compare stored texts with
    [<]: the fraction the printer drops on a whole second does not disturb the
    order, because the sign of the zone sorts before the point of a fraction. *)
Theorem iso_text_order (d d' : date_fields) :
  date_ok d = true → date_ok d' = true →
  String.compare (@_iso iso_format d) (@_iso iso_format d') = (stamp d ?= stamp d')%N.
Proof.
  intros Hd Hd'. unfold _iso. cbn [isoformat aware replace_utc iso_format datetime].
  destruct (tz_utc d) eqn:Hz, (tz_utc d') eqn:Hz';
    (rewrite print_iso_order; [reflexivity|done..]).
Qed.

Definition whole_second : date_fields :=
  {| year := 2026; month := 6; day := 2; hour := 7; minute := 5; second := 9;
     microsecond := 0; tz_utc := true |}.

Lemma iso_text_order_witness :
  String.compare (@_iso iso_format whole_second)
    (@_iso iso_format {| year := 2026; month := 6; day := 2; hour := 7; minute := 5; second := 9;
                         microsecond := 420; tz_utc := false |}) = Lt.
Proof. rewrite iso_text_order; reflexivity. Defined.
