(* ===== verification/UtcTime.v ===== *)
(** * The calendar of a UTC clock

    [datetime.now(timezone.utc)], [isoformat] and the arithmetic with
    [timedelta] on the instants of that clock, kept as microseconds since
    1970.  The fields of an instant follow the Gregorian calendar from year 1
    to year 9999, the range of a Python [datetime]; the theorems say that the
    fields determine the instant and that the texts the program stores
    compare, as texts, as the instants do. *)

From S2P Require Import Prelude IsoTime.

Open Scope Z_scope.

#[local] Ltac Zify.zify_post_hook ::= Z.to_euclidean_division_equations.

(** ** Days *)

Definition leap (y : Z) : bool := (y mod 4 =? 0) && (negb (y mod 100 =? 0) || (y mod 400 =? 0)).

Definition days_before_year (y : Z) : Z := (y - 1) * 365 + (y - 1) / 4 - (y - 1) / 100 + (y - 1) / 400.

(** The year of a day counted from 0001-01-01. *)
Definition year_of (n : Z) : Z :=
  let y := n * 400 / 146097 + 1 in
  if n <? days_before_year y then y - 1 else if days_before_year (y + 1) <=? n then y + 1 else y.

Definition days_before_month (l : bool) (m : Z) : Z :=
  (367 * m - 362) / 12 - (if m <=? 2 then 0 else if l then 1 else 2).

Definition month_of (l : bool) (d : Z) : Z :=
  (12 * (d + (if d <? (if l then 60 else 59) then 0 else if l then 1 else 2)) + 373) / 367.

Lemma days_before_next y : days_before_year (y + 1) = days_before_year y + (if leap y then 366 else 365).
Proof.
  unfold days_before_year, leap. replace (y + 1 - 1) with y by lia.
  destruct (Z.eqb_spec (y mod 4) 0), (Z.eqb_spec (y mod 100) 0), (Z.eqb_spec (y mod 400) 0); cbn; lia.
Qed.

Lemma year_of_bounds n : 0 <= n < 3652059 → days_before_year (year_of n) <= n < days_before_year (year_of n + 1).
Proof.
  intros Hn. unfold year_of. set (y := n * 400 / 146097 + 1).
  assert (days_before_year (y - 1) <= n < days_before_year (y + 2)) by (unfold days_before_year; lia).
  destruct (Z.ltb_spec n (days_before_year y)); [replace (y - 1 + 1) with y by lia; lia|].
  destruct (Z.leb_spec (days_before_year (y + 1)) n); [replace (y + 1 + 1) with (y + 2) by lia; lia|lia].
Qed.

Lemma days_before_year_mono y y' : y <= y' → days_before_year y <= days_before_year y'.
Proof. unfold days_before_year. lia. Qed.

Lemma year_of_range n : 0 <= n < 3652059 → 1 <= year_of n <= 9999.
Proof.
  intros Hn. pose proof (year_of_bounds n Hn). split.
  - destruct (Z.le_gt_cases 1 (year_of n)); [done|].
    assert (days_before_year (year_of n + 1) <= days_before_year 1) by (apply days_before_year_mono; lia).
    change (days_before_year 1) with 0 in *. lia.
  - destruct (Z.le_gt_cases (year_of n) 9999); [done|].
    assert (days_before_year 10000 <= days_before_year (year_of n)) by (apply days_before_year_mono; lia).
    change (days_before_year 10000) with 3652059 in *. lia.
Qed.

Lemma month_of_bounds (l : bool) d :
  0 <= d < (if l then 366 else 365) →
  1 <= month_of l d <= 12 ∧
  days_before_month l (month_of l d) <= d < days_before_month l (month_of l d + 1) ∧
  d - days_before_month l (month_of l d) < 31.
Proof.
  intros Hd.
  assert (forallb (λ k, let d := Z.of_nat k in let m := month_of l d in
    (1 <=? m) && (m <=? 12) && (days_before_month l m <=? d) && (d <? days_before_month l (m + 1))
    && (d - days_before_month l m <? 31)) (seq 0 (if l then 366 else 365)) = true) as Hall
    by (destruct l; vm_compute; reflexivity).
  rewrite forallb_forall in Hall. specialize (Hall (Z.to_nat d)). cbv zeta in Hall.
  rewrite Z2Nat.id in Hall by lia.
  assert ((1 <=? month_of l d) && (month_of l d <=? 12) && (days_before_month l (month_of l d) <=? d) &&
    (d <? days_before_month l (month_of l d + 1)) && (d - days_before_month l (month_of l d) <? 31) = true) as Hb
    by (apply Hall, in_seq; destruct l; lia).
  rewrite !andb_true_iff, !Z.leb_le, !Z.ltb_lt in Hb. lia.
Qed.

Definition day_in_year (n : Z) : Z := n - days_before_year (year_of n).
Definition month_in_year (n : Z) : Z := month_of (leap (year_of n)) (day_in_year n).
Definition day_in_month (n : Z) : Z :=
  day_in_year n - days_before_month (leap (year_of n)) (month_in_year n) + 1.

Lemma day_in_year_bounds n :
  0 <= n < 3652059 → 0 <= day_in_year n < (if leap (year_of n) then 366 else 365).
Proof. intros Hn. pose proof (year_of_bounds n Hn) as Hb. rewrite days_before_next in Hb. unfold day_in_year. lia. Qed.

Lemma calendar_bounds n :
  0 <= n < 3652059 → 1 <= month_in_year n <= 12 ∧ 1 <= day_in_month n <= 31.
Proof.
  intros Hn. pose proof (month_of_bounds _ _ (day_in_year_bounds n Hn)) as Hb.
  unfold day_in_month, month_in_year in *. lia.
Qed.

(** ** Instants *)

Definition day_microseconds : Z := 86400000000.
Definition epoch_days : Z := 719162.

Definition first_instant : Z := - epoch_days * day_microseconds.
Definition last_instant : Z := (3652059 - epoch_days) * day_microseconds.
Definition representable (t : Z) : Prop := first_instant <= t < last_instant.

Definition utc (t : Z) : date_fields :=
  let n := t / day_microseconds + epoch_days in
  let us := t mod day_microseconds in
  {| year := Z.to_N (year_of n); month := Z.to_N (month_in_year n); day := Z.to_N (day_in_month n);
     hour := Z.to_N (us / 3600000000); minute := Z.to_N (us / 60000000 mod 60);
     second := Z.to_N (us / 1000000 mod 60); microsecond := Z.to_N (us mod 1000000); tz_utc := true |}.

(** The instant of a date read as UTC. *)
Definition instant (d : date_fields) : Z :=
  let y := Z.of_N (year d) in
  let n := days_before_year y + days_before_month (leap y) (Z.of_N (month d)) + Z.of_N (day d) - 1 in
  (n - epoch_days) * day_microseconds + Z.of_N (hour d) * 3600000000 + Z.of_N (minute d) * 60000000
  + Z.of_N (second d) * 1000000 + Z.of_N (microsecond d).

Lemma representable_day t : representable t → 0 <= t / day_microseconds + epoch_days < 3652059.
Proof. unfold representable, first_instant, last_instant, day_microseconds, epoch_days. lia. Qed.

Lemma instant_utc t : representable t → instant (utc t) = t.
Proof.
  intros Ht. pose proof (representable_day t Ht) as Hn. unfold instant, utc. cbn.
  set (n := t / day_microseconds + epoch_days) in *.
  pose proof (year_of_range n Hn) as Hy. pose proof (calendar_bounds n Hn) as [Hm Hd].
  assert (0 <= t mod day_microseconds < day_microseconds) as Hus by (apply Z.mod_pos_bound; done).
  assert (t = (n - epoch_days) * day_microseconds + t mod day_microseconds) as Hsplit
    by (subst n; unfold day_microseconds; lia).
  set (us := t mod day_microseconds) in *.
  rewrite !Z2N.id by (unfold day_microseconds in *; lia).
  unfold day_in_month, month_in_year, day_in_year in *.
  unfold day_microseconds in *. lia.
Qed.

Lemma utc_ok t : representable t → date_ok (utc t) = true.
Proof.
  intros Ht. pose proof (representable_day t Ht) as Hn. unfold date_ok, utc. cbn.
  set (n := t / day_microseconds + epoch_days) in *.
  pose proof (year_of_range n Hn). pose proof (calendar_bounds n Hn).
  rewrite !andb_true_iff, !N.leb_le.
  assert (0 <= t mod day_microseconds < day_microseconds) as Hus by (apply Z.mod_pos_bound; done).
  set (us := t mod day_microseconds) in *. unfold day_microseconds in Hus.
  split_and!; lia.
Qed.

(** ** The order of dates is the order of instants *)

Definition date_number (n : Z) : Z := (year_of n * 100 + month_in_year n) * 100 + day_in_month n.

Lemma date_number_mono n n' :
  0 <= n → n < n' → n' < 3652059 → date_number n < date_number n'.
Proof.
  intros H0 Hlt H1. unfold date_number.
  pose proof (year_of_bounds n ltac:(lia)) as Hy. pose proof (year_of_bounds n' ltac:(lia)) as Hy'.
  pose proof (calendar_bounds n ltac:(lia)) as [Hm Hd]. pose proof (calendar_bounds n' ltac:(lia)) as [Hm' Hd'].
  destruct (Z.lt_trichotomy (year_of n) (year_of n')) as [Hc|[Hc|Hc]]; [lia| |].
  - pose proof (month_of_bounds _ _ (day_in_year_bounds n ltac:(lia))) as (_ & Hb & _).
    pose proof (month_of_bounds _ _ (day_in_year_bounds n' ltac:(lia))) as (_ & Hb' & _).
    fold (month_in_year n) in Hb. fold (month_in_year n') in Hb'.
    unfold day_in_month, day_in_year in *. rewrite Hc in *. set (l := leap (year_of n')) in *.
    destruct (Z.lt_trichotomy (month_in_year n) (month_in_year n')) as [Hk|[Hk|Hk]]; [lia|rewrite Hk in *; lia|].
    assert (days_before_month l (month_in_year n' + 1) <= days_before_month l (month_in_year n))
      by (unfold days_before_month; repeat case_match; lia).
    lia.
  - assert (days_before_year (year_of n' + 1) <= days_before_year (year_of n))
      by (apply days_before_year_mono; lia). lia.
Qed.

Definition clock_number (us : Z) : Z :=
  ((us / 3600000000 * 100 + us / 60000000 mod 60) * 100 + us / 1000000 mod 60) * 1000000 + us mod 1000000.

Lemma clock_number_mono us us' :
  0 <= us → us < us' → us' < day_microseconds → clock_number us < clock_number us'.
Proof.
  unfold clock_number, day_microseconds. intros.
  assert (us / 1000000 <= us' / 1000000) by lia. assert (us / 60000000 <= us' / 60000000) by lia.
  assert (us / 60000000 = us / 1000000 / 60) by (rewrite Z.div_div by lia; done).
  assert (us' / 60000000 = us' / 1000000 / 60) by (rewrite Z.div_div by lia; done).
  assert (us / 3600000000 = us / 60000000 / 60) by (rewrite Z.div_div by lia; done).
  assert (us' / 3600000000 = us' / 60000000 / 60) by (rewrite Z.div_div by lia; done).
  lia.
Qed.

Lemma stamp_utc t :
  representable t →
  Z.of_N (stamp (utc t)) =
    date_number (t / day_microseconds + epoch_days) * 1000000000000 + clock_number (t mod day_microseconds)
  ∧ 0 <= clock_number (t mod day_microseconds) < 1000000000000.
Proof.
  intros Ht. pose proof (representable_day t Ht) as Hn. unfold stamp, utc. cbn.
  set (n := t / day_microseconds + epoch_days) in *.
  pose proof (year_of_range n Hn). pose proof (calendar_bounds n Hn).
  assert (0 <= t mod day_microseconds < day_microseconds) as Hus by (apply Z.mod_pos_bound; done).
  set (us := t mod day_microseconds) in *. unfold day_microseconds in Hus.
  repeat (rewrite N2Z.inj_add || rewrite N2Z.inj_mul). rewrite !Z2N.id by lia.
  unfold date_number, clock_number. lia.
Qed.

Lemma stamp_mono t t' : representable t → representable t' → t < t' → (stamp (utc t) < stamp (utc t'))%N.
Proof.
  intros Ht Ht' Hlt. destruct (stamp_utc t Ht) as [Hs Hc]. destruct (stamp_utc t' Ht') as [Hs' Hc'].
  apply N2Z.inj_lt. rewrite Hs, Hs'.
  pose proof (representable_day t Ht). pose proof (representable_day t' Ht').
  assert (t / day_microseconds <= t' / day_microseconds) as Hd by (apply Z.div_le_mono; [done|lia]).
  destruct (Z.eq_dec (t / day_microseconds) (t' / day_microseconds)) as [He|Hne].
  - rewrite He. enough (clock_number (t mod day_microseconds) < clock_number (t' mod day_microseconds)) by lia.
    apply clock_number_mono; unfold day_microseconds in *; lia.
  - enough (date_number (t / day_microseconds + epoch_days) < date_number (t' / day_microseconds + epoch_days))
      by lia. apply date_number_mono; lia.
Qed.

Lemma stamp_compare t t' :
  representable t → representable t' → (stamp (utc t) ?= stamp (utc t'))%N = (t ?= t')%Z.
Proof.
  intros Ht Ht'. destruct (Z.compare_spec t t') as [->|Hlt|Hlt].
  - apply N.compare_refl.
  - by apply N.compare_lt_iff, stamp_mono.
  - by apply N.compare_gt_iff, stamp_mono.
Qed.

(** ** Texts *)

(** [datetime.isoformat()] and [isoformat(timespec="seconds")]. *)
Definition utc_text (t : Z) : string := print_iso (utc t).
Definition seconds_text (t : Z) : string := utc_text (t / 1000000 * 1000000).

Lemma representable_second t : representable t → representable (t / 1000000 * 1000000).
Proof. unfold representable, first_instant, last_instant, day_microseconds, epoch_days. lia. Qed.

Lemma utc_text_order t t' :
  representable t → representable t' → String.compare (utc_text t) (utc_text t') = (t ?= t')%Z.
Proof.
  intros Ht Ht'. unfold utc_text. rewrite print_iso_order by (try apply utc_ok; done).
  by apply stamp_compare.
Qed.

(** [a < b] between two stored texts. *)
Definition text_lt (a b : string) : bool := match String.compare a b with Lt => true | _ => false end.

Lemma text_lt_utc t t' : representable t → representable t' → text_lt (utc_text t) (utc_text t') = (t <? t').
Proof. intros Ht Ht'. unfold text_lt. rewrite utc_text_order by done. unfold Z.ltb. by destruct (t ?= t')%Z. Qed.

(** [datetime.fromisoformat]: whether the value is aware, and its instant, a
    naive value read as UTC; what the clock printed is read back. *)
Class FromIso := {
  from_iso : string → option (bool * Z);
  from_iso_utc t : representable t → from_iso (utc_text t) = Some (true, t);
}.

#[export] Instance printed_from_iso : FromIso.
Proof.
  refine {| from_iso s := d ← parse_iso s; Some (tz_utc d, instant d) |}.
  intros t Ht. unfold utc_text. rewrite parse_print_iso by (by apply utc_ok). simpl. by rewrite instant_utc.
Defined.

(** ** [isoformat().replace("+00:00", "Z")] *)

(** [str.replace]: [skip] characters belong to a match already replaced. *)
Fixpoint replace_go (skip : nat) (old new s : string) : string :=
  match s with
  | EmptyString => ""
  | String c s' =>
      match skip with
      | S k => replace_go k old new s'
      | O => if startswith s old then new +:+ replace_go (String.length old - 1) old new s'
             else String c (replace_go 0 old new s')
      end
  end.

Definition replace_text (old new s : string) : string := replace_go 0 old new s.

Definition z_text (t : Z) : string := replace_text "+00:00" "Z" (utc_text t).

(** [datetime.fromisoformat(s.replace("Z", "+00:00"))] *)
Definition from_z `{FromIso} (s : string) : option (bool * Z) := from_iso (replace_text "Z" "+00:00" s).

Lemma replace_tail c old new body rest :
  has_char c body = false → replace_text (String c old) new (body +:+ rest) = body +:+ replace_text (String c old) new rest.
Proof.
  unfold replace_text. induction body as [|d body IH]; intros Hb; [done|]. rewrite str_app_cons.
  cbn [has_char] in Hb. apply orb_false_iff in Hb as [Hd Hb]. apply bool_decide_eq_false_1 in Hd.
  cbn [replace_go startswith]. rewrite bool_decide_eq_false_2 by congruence. cbn [andb].
  by rewrite IH.
Qed.

Lemma digits_free c w n : digit_value c = None → has_char c (digits w n) = false.
Proof.
  intros Hc. revert n. induction w as [|w IH]; intros n; [done|]. cbn [digits has_char]. rewrite IH, orb_false_r.
  apply bool_decide_eq_false_2. intros ->. revert Hc. unfold pretty_N_char. by repeat case_match.
Qed.

(** A date up to its zone. *)
Definition clock_text (d : date_fields) : string :=
  digits 4 (year d) +:+ "-" +:+ digits 2 (month d) +:+ "-" +:+ digits 2 (day d) +:+ "T" +:+
  digits 2 (hour d) +:+ ":" +:+ digits 2 (minute d) +:+ ":" +:+ digits 2 (second d) +:+
  (if (microsecond d =? 0)%N then "" else "." +:+ digits 6 (microsecond d)).

Lemma utc_text_clock t : utc_text t = clock_text (utc t) +:+ "+00:00".
Proof. unfold utc_text, print_iso, clock_text. cbn [tz_utc utc]. by rewrite !str_app_assoc. Qed.

Lemma clock_text_free c d :
  digit_value c = None → c ∉ ["-"%char; "T"%char; ":"%char; "."%char] → has_char c (clock_text d) = false.
Proof.
  intros Hd Hc. unfold clock_text. rewrite !has_char_app, !digits_free by done.
  assert (∀ x, x ∈ ["-"%char; "T"%char; ":"%char; "."%char] → has_char c (String x "") = false) as Hx.
  { intros x Hin. cbn. rewrite orb_false_r. apply bool_decide_eq_false_2. intros ->. done. }
  rewrite !Hx by set_solver. destruct (microsecond d =? 0)%N; [done|].
  by rewrite has_char_app, digits_free, Hx by (done || set_solver).
Qed.

Lemma z_text_clock t : z_text t = clock_text (utc t) +:+ "Z".
Proof.
  unfold z_text. rewrite utc_text_clock, replace_tail; [done|].
  apply clock_text_free; [done|]. rewrite !elem_of_cons, elem_of_nil. naive_solver.
Qed.

Lemma from_z_text `{FromIso} t : representable t → from_z (z_text t) = Some (true, t).
Proof.
  intros Ht. unfold from_z. rewrite z_text_clock, replace_tail.
  - change (replace_text "Z" "+00:00" "Z") with "+00:00". rewrite <- utc_text_clock. by apply from_iso_utc.
  - apply clock_text_free; [done|]. rewrite !elem_of_cons, elem_of_nil. naive_solver.
Qed.

(** *** Their order

    [Z] sorts after the point of a fraction: a whole second comes after every
    fraction of it. *)

Definition z_key (t : Z) : Z :=
  t / 1000000 * 1000001 + (if t mod 1000000 =? 0 then 1000000 else t mod 1000000).

Definition second_stamp (d : date_fields) : N :=
  (((((year d * 100 + month d) * 100 + day d) * 100 + hour d) * 100 + minute d) * 100 + second d)%N.

Lemma stamp_seconds d : stamp d = (second_stamp d * 1000000 + microsecond d)%N.
Proof. done. Qed.

Lemma utc_floor t : utc (t / 1000000 * 1000000) =
  {| year := year (utc t); month := month (utc t); day := day (utc t); hour := hour (utc t);
     minute := minute (utc t); second := second (utc t); microsecond := 0; tz_utc := true |}.
Proof.
  unfold utc. unfold day_microseconds.
  assert (t / 1000000 * 1000000 / 86400000000 = t / 86400000000) as -> by lia.
  assert (t / 1000000 * 1000000 mod 86400000000 = t mod 86400000000 / 1000000 * 1000000) as -> by lia.
  set (u := t mod 86400000000). set (n := t / 86400000000 + epoch_days). cbn. f_equal; f_equal; lia.
Qed.

Lemma second_stamp_compare t t' :
  representable t → representable t' →
  (second_stamp (utc t) ?= second_stamp (utc t'))%N = (t / 1000000 ?= t' / 1000000).
Proof.
  intros Ht Ht'.
  assert (∀ x, stamp (utc (x / 1000000 * 1000000)) = (second_stamp (utc x) * 1000000)%N) as Hs
    by (intros x; rewrite utc_floor, stamp_seconds; unfold second_stamp; cbn [year month day hour minute second microsecond]; lia).
  pose proof (stamp_compare (t / 1000000 * 1000000) (t' / 1000000 * 1000000) (representable_second t Ht)
    (representable_second t' Ht')) as Hc.
  rewrite !Hs in Hc.
  destruct (N.compare_spec (second_stamp (utc t)) (second_stamp (utc t'))) as [Heq|Hlt|Hgt];
    destruct (Z.compare_spec (t / 1000000) (t' / 1000000)) as [Heq'|Hlt'|Hgt']; try done; exfalso;
    destruct (N.compare_spec (second_stamp (utc t) * 1000000) (second_stamp (utc t') * 1000000));
    destruct (Z.compare_spec (t / 1000000 * 1000000) (t' / 1000000 * 1000000)); try done; lia.
Qed.

Lemma z_tail_compare us us' :
  (us <= 999999)%N → (us' <= 999999)%N →
  String.compare ((if (us =? 0)%N then "" else "." +:+ digits 6 us) +:+ "Z")
                 ((if (us' =? 0)%N then "" else "." +:+ digits 6 us') +:+ "Z")
  = ((if (us =? 0)%N then 1000000 else us) ?= (if (us' =? 0)%N then 1000000 else us'))%N.
Proof.
  intros Hu Hu'. destruct (N.eqb_spec us 0) as [->|Hn], (N.eqb_spec us' 0) as [->|Hn'].
  - reflexivity.
  - symmetry. apply N.compare_gt_iff. lia.
  - symmetry. apply N.compare_lt_iff. lia.
  - rewrite !str_app_assoc, char_compare_eq, digits_compare
      by (change (10 ^ N.of_nat 6)%N with 1000000%N; lia).
    by destruct (_ ?= _)%N.
Qed.

Lemma z_text_order t t' :
  representable t → representable t' → String.compare (z_text t) (z_text t') = (z_key t ?= z_key t').
Proof.
  intros Ht Ht'. pose proof (utc_ok t Ht) as Hd. pose proof (utc_ok t' Ht') as Hd'. unfold date_ok in Hd, Hd'.
  rewrite !andb_true_iff, !N.leb_le in Hd, Hd'. destruct_and! Hd. destruct_and! Hd'.
  assert (String.compare (z_text t) (z_text t') =
    then_compare (second_stamp (utc t) ?= second_stamp (utc t'))%N
      ((if (microsecond (utc t) =? 0)%N then 1000000 else microsecond (utc t)) ?=
       (if (microsecond (utc t') =? 0)%N then 1000000 else microsecond (utc t')))%N) as ->.
  { rewrite !z_text_clock. generalize dependent (utc t). generalize dependent (utc t'). intros.
    unfold clock_text, second_stamp. rewrite !str_app_assoc.
    repeat (rewrite digits_compare by (simpl; lia); rewrite ?char_compare_eq).
    rewrite z_tail_compare by lia. rewrite !mul_add_compare by lia.
    by repeat (destruct (_ ?= _)%N; simpl; [|done..]). }
  rewrite second_stamp_compare by done.
  assert (∀ x, (if (microsecond (utc x) =? 0)%N then 1000000 else microsecond (utc x))%N
    = Z.to_N (if x mod 1000000 =? 0 then 1000000 else x mod 1000000)) as Hus.
  { intros x. cbn. assert (x mod day_microseconds mod 1000000 = x mod 1000000) as -> by (unfold day_microseconds; lia).
    destruct (Z.eqb_spec (x mod 1000000) 0) as [->|Hne]; [done|].
    destruct (N.eqb_spec (Z.to_N (x mod 1000000)) 0); [lia|done]. }
  rewrite !Hus, Z2N.inj_compare by (case_match; lia). unfold z_key.
  set (f := if t mod 1000000 =? 0 then 1000000 else t mod 1000000).
  set (f' := if t' mod 1000000 =? 0 then 1000000 else t' mod 1000000).
  assert (0 < f <= 1000000) by (subst f; case_match; lia). assert (0 < f' <= 1000000) by (subst f'; case_match; lia).
  destruct (Z.compare_spec (t / 1000000) (t' / 1000000)) as [Heq|Hlt|Hgt]; cbn [then_compare].
  - rewrite Heq. destruct (Z.compare_spec f f'); symmetry; [apply Z.compare_eq_iff|apply Z.compare_lt_iff|apply Z.compare_gt_iff]; lia.
  - symmetry. apply Z.compare_lt_iff. lia.
  - symmetry. apply Z.compare_gt_iff. lia.
Qed.

Lemma text_lt_z t t' : representable t → representable t' → text_lt (z_text t) (z_text t') = (z_key t <? z_key t').
Proof. intros Ht Ht'. unfold text_lt. rewrite z_text_order by done. unfold Z.ltb. by destruct (_ ?= _)%Z. Qed.

(** A second apart, the order is that of the instants. *)
Lemma z_key_apart t t' : t + 1000000 <= t' → z_key t < z_key t'.
Proof.
  intros Hlt. unfold z_key. assert (t / 1000000 + 1 <= t' / 1000000) by lia.
  repeat case_match; lia.
Qed.

Lemma z_key_lt t t' : z_key t < z_key t' → t < t' + 1000000.
Proof. intros Hlt. destruct (Z.lt_ge_cases t (t' + 1000000)) as [|Hge]; [done|]. apply z_key_apart in Hge. lia. Qed.

Example end_of_february : utc_text 1709251199999999 = "2024-02-29T23:59:59.999999+00:00".
Proof. vm_compute. reflexivity. Qed.
Example whole_seconds : seconds_text 1709251199999999 = "2024-02-29T23:59:59+00:00".
Proof. vm_compute. reflexivity. Qed.
Example zulu_fraction_first : text_lt (z_text 500000) (z_text 0) = true.
Proof. vm_compute. reflexivity. Qed.
