(* ===== verification/Json.v ===== *)
(** * JSON values as Python sees them

    [json.loads] / [json.dumps] values: objects keep their keys in insertion
    order, as a dict does.  A float carries the text [repr] prints for it next
    to its value, because [json.dumps] prints that text.  [dumps] is
    [json.dumps(v, separators=(",", ":"), sort_keys=True)] with the default
    [ensure_ascii=True]: keys sorted by code point (on UTF-8 bytes that is
    byte order), non-ASCII characters as [\uXXXX] escapes with surrogate pairs
    above the basic plane. *)

From S2P Require Import Prelude Sha256.
From Stdlib Require Import QArith.

Unset Elimination Schemes.
Inductive json :=
| JNull
| JBool (b : bool)
| JInt (z : Z)
| JFloat (text : string) (value : Q)
| JStr (s : string)
| JList (l : list json)
| JObj (fields : list (string * json)).
Set Elimination Schemes.

(** ** Access *)

Abbreviation fields := (list (string * json)).

(** [None] or a text. *)
Definition opt_json (o : option string) : json := match o with Some s => JStr s | None => JNull end.

(** [obj.get(key)] on the fields of a dict: a later duplicate key cannot
    occur, the first match is the value. *)
Fixpoint get (key : string) (fields : list (string * json)) : option json :=
  match fields with
  | [] => None
  | (k, v) :: rest => if bool_decide (k = key) then Some v else get key rest
  end.

(** [obj.get(key)] with Python's [None] for a missing key. *)
Definition get_none (key : string) (fields : list (string * json)) : json :=
  default JNull (get key fields).

Definition has_key (key : string) (fields : list (string * json)) : bool :=
  match get key fields with Some _ => true | None => false end.

Definition is_none (v : json) : bool := match v with JNull => true | _ => false end.
Definition as_obj (v : json) : option (list (string * json)) :=
  match v with JObj f => Some f | _ => None end.
Definition as_list (v : json) : option (list json) :=
  match v with JList l => Some l | _ => None end.
Definition as_str (v : json) : option string :=
  match v with JStr s => Some s | _ => None end.

(** [v == s] for a string [s]. *)
Definition is_str (s : string) (v : json) : bool :=
  match v with JStr t => bool_decide (t = s) | _ => false end.

(** [isinstance(v, int)]: Python's [bool] is a subclass of [int]. *)
Definition as_int (v : json) : option Z :=
  match v with
  | JInt z => Some z
  | JBool b => Some (if b then 1 else 0)%Z
  | _ => None
  end.

(** [bool(v)]. *)
Definition py_bool (v : json) : bool :=
  match v with
  | JNull => false
  | JBool b => b
  | JInt z => negb (z =? 0)%Z
  | JFloat _ q => negb (Qeq_bool q 0)
  | JStr s => negb (bool_decide (s = ""))
  | JList l => match l with [] => false | _ => true end
  | JObj f => match f with [] => false | _ => true end
  end.

(** [s in l] for a string [s] and a list of JSON values: only an equal string
    compares equal to [s]. *)
Definition str_in (s : string) (l : list json) : bool :=
  existsb (λ v, match v with JStr t => bool_decide (s = t) | _ => false end) l.

Lemma str_in_spec s l : str_in s l = true ↔ JStr s ∈ l.
Proof.
  unfold str_in. rewrite existsb_exists. split.
  - intros (v & Hv%list_elem_of_In & Heq). destruct v; try done. by bools; subst.
  - intros Hin. exists (JStr s). split; [by apply list_elem_of_In|].
    by apply bool_decide_eq_true_2.
Qed.

(** ** [json.dumps] *)

Definition hex4 (n : N) : string :=
  String (hex_digit (N.land (N.shiftr n 12) 15))
    (String (hex_digit (N.land (N.shiftr n 8) 15))
      (String (hex_digit (N.land (N.shiftr n 4) 15))
        (String (hex_digit (N.land n 15)) ""))).

Definition u_escape (n : N) : string := "\u" +:+ hex4 n.

(** The escape of one code point. *)
Definition escape_code (n : N) : string :=
  if (n =? 34)%N then "\" +:+ String (ascii_of_N 34) ""
  else if (n =? 92)%N then "\\"
  else if (n =? 10)%N then "\n"
  else if (n =? 13)%N then "\r"
  else if (n =? 9)%N then "\t"
  else if (n =? 8)%N then "\b"
  else if (n =? 12)%N then "\f"
  else if ((32 <=? n) && (n <=? 126))%N then String (ascii_of_N n) ""
  else if (n <? 65536)%N then u_escape n
  else let m := (n - 65536)%N in
       u_escape (55296 + N.shiftr m 10) +:+ u_escape (56320 + N.land m 1023).

(** Decode UTF-8 code points; [pending] continuation bytes complete [acc]. *)
Fixpoint escape_utf8 (pending : nat) (acc : N) (s : string) : string :=
  match s with
  | EmptyString => ""
  | String c s' =>
      let b := N_of_ascii c in
      match pending with
      | S O => escape_code (N.lor (N.shiftl acc 6) (N.land b 63)) +:+ escape_utf8 0 0 s'
      | S p => escape_utf8 p (N.lor (N.shiftl acc 6) (N.land b 63)) s'
      | O =>
          if (b <? 128)%N then escape_code b +:+ escape_utf8 0 0 s'
          else if (b <? 224)%N then escape_utf8 1 (N.land b 31) s'
          else if (b <? 240)%N then escape_utf8 2 (N.land b 15) s'
          else escape_utf8 3 (N.land b 7) s'
      end
  end.

Definition dump_str (s : string) : string :=
  let q := String (ascii_of_N 34) "" in q +:+ escape_utf8 0 0 s +:+ q.

Definition obj_key_le (x y : string * string) : Prop := String.leb (fst x) (fst y) = true.
#[export] Instance obj_key_le_dec : RelDecision obj_key_le.
Proof. intros x y. unfold obj_key_le. apply _. Defined.

Fixpoint dumps (v : json) : string :=
  match v with
  | JNull => "null"
  | JBool b => if b then "true" else "false"
  | JInt z => pretty z
  | JFloat t _ => t
  | JStr s => dump_str s
  | JList l => "[" +:+ join "," (map dumps l) +:+ "]"
  | JObj f =>
      let dumped := map (λ kv, (fst kv, dump_str (fst kv) +:+ ":" +:+ dumps (snd kv))) f in
      "{" +:+ join "," (map snd (merge_sort obj_key_le dumped)) +:+ "}"
  end.

(** [json.dumps(v)], with the default separators and the keys in the order of
    the dict. *)
Fixpoint dumps_plain (v : json) : string :=
  match v with
  | JList l => "[" +:+ join ", " (map dumps_plain l) +:+ "]"
  | JObj f => "{" +:+ join ", " (map (λ kv, dump_str (fst kv) +:+ ": " +:+ dumps_plain (snd kv)) f) +:+ "}"
  | _ => dumps v
  end.

Example dumps_sorted :
  dumps (JObj [("b", JInt 2); ("a", JList [JBool true; JNull; JStr "x"])])
  = String.concat (String (ascii_of_N 34) "")
      ["{"; "a"; ":[true,null,"; "x"; "],"; "b"; ":2}"].
Proof. vm_compute. reflexivity. Qed.

(** ** Python operations on these values *)

(** [d[k]] *)
Definition item (k : string) (d : list (string * json)) : outcome json :=
  match get k d with Some v => Ret v | None => Raise KeyError end.

(** [v or d] *)
Definition py_or (v d : json) : json := if py_bool v then v else d.

(** The number a value compares as: booleans are integers. *)
Definition num_of (v : json) : option Q :=
  match v with
  | JBool b => Some (if b then 1 else 0)%Q
  | JInt z => Some (inject_Z z)
  | JFloat _ q => Some q
  | _ => None
  end.

(** [a == b]: numbers by value across types, dicts regardless of order. *)
Fixpoint json_eq (a b : json) {struct a} : bool :=
  match a, b with
  | JNull, JNull => true
  | JStr s, JStr t => bool_decide (s = t)
  | JList l, JList l' =>
      (fix eqs (l l' : list json) : bool :=
         match l, l' with
         | [], [] => true
         | x :: l, y :: l' => json_eq x y && eqs l l'
         | _, _ => false
         end) l l'
  | JObj f, JObj f' =>
      (length f =? length f')%nat &&
      (fix eqs (f : list (string * json)) : bool :=
         match f with
         | [] => true
         | (k, x) :: f => match get k f' with Some y => json_eq x y | None => false end && eqs f
         end) f
  | _, _ => match num_of a, num_of b with Some x, Some y => Qeq_bool x y | _, _ => false end
  end.

(** [hash(v)] exists. *)
Definition hashable (v : json) : bool :=
  match v with JList _ | JObj _ => false | _ => true end.

(** [repr] of a text: single quotes unless only double quotes avoid escapes.
    Non-ASCII characters count as printable. *)
Definition dq : ascii := ascii_of_N 34.
Definition sq : ascii := "'"%char.

Definition repr_char (quote c : ascii) : string :=
  let n := N_of_ascii c in
  if bool_decide (c = quote) || (n =? 92)%N then String (ascii_of_N 92) (String c "")
  else if (n =? 10)%N then "\n" else if (n =? 13)%N then "\r" else if (n =? 9)%N then "\t"
  else if (n <? 32)%N || (n =? 127)%N
  then "\x" +:+ String (hex_digit (N.shiftr n 4)) (String (hex_digit (N.land n 15)) "")
  else String c "".

Fixpoint repr_chars (quote : ascii) (s : string) : string :=
  match s with EmptyString => "" | String c s' => repr_char quote c +:+ repr_chars quote s' end.

Definition repr_str (s : string) : string :=
  let quote := if has_char sq s && negb (has_char dq s) then dq else sq in
  String quote (repr_chars quote s) +:+ String quote "".

Fixpoint repr (v : json) : string :=
  match v with
  | JNull => "None"
  | JBool b => if b then "True" else "False"
  | JInt z => pretty z
  | JFloat t _ => t
  | JStr s => repr_str s
  | JList l => "[" +:+ join ", " (map repr l) +:+ "]"
  | JObj f => "{" +:+ join ", " (map (λ kv, repr_str (fst kv) +:+ ": " +:+ repr (snd kv)) f) +:+ "}"
  end.

(** [str(v)] *)
Definition str_of (v : json) : string := match v with JStr s => s | _ => repr v end.

Example repr_nested :
  str_of (JObj [("it's", JList [JNull; JBool true; JInt (-3)])])
  = "{" +:+ String dq ("it's" +:+ String dq ": [None, True, -3]}").
Proof. reflexivity. Qed.

(** [int(s)] of an ASCII text: surrounding blanks, a sign, digits with single
    underscores between them. *)
Definition blank (c : ascii) : bool :=
  let n := N_of_ascii c in
  ((9 <=? n) && (n <=? 13) || (28 <=? n) && (n <=? 32))%N.

Fixpoint lstrip (s : string) : string :=
  match s with String c s' => if blank c then lstrip s' else s | EmptyString => "" end.

Fixpoint rstrip (s : string) : string :=
  match s with
  | EmptyString => ""
  | String c s' => match rstrip s' with
                   | EmptyString => if blank c then "" else String c ""
                   | t => String c t
                   end
  end.

(** [s.rstrip("/")] *)
Fixpoint rstrip_slash (s : string) : string :=
  match s with
  | EmptyString => ""
  | String c s' =>
      match rstrip_slash s' with
      | EmptyString => if bool_decide (c = "/"%char) then "" else String c ""
      | t => String c t
      end
  end.

Fixpoint int_digits (acc : Z) (after_digit : bool) (s : string) : option Z :=
  match s with
  | EmptyString => if after_digit then Some acc else None
  | String c s' =>
      if digitb c then int_digits (acc * 10 + (Z.of_N (N_of_ascii c) - 48)) true s'
      else if bool_decide (c = "_"%char) && after_digit then int_digits acc false s' else None
  end.

Definition int_of_str (s : string) : option Z :=
  match rstrip (lstrip s) with
  | String c s' =>
      if bool_decide (c = "-"%char) then Z.opp <$> int_digits 0 false s'
      else if bool_decide (c = "+"%char) then int_digits 0 false s'
      else int_digits 0 false (String c s')
  | EmptyString => None
  end.

(** [int(v)] *)
Definition int_of (v : json) : outcome Z :=
  match v with
  | JInt z => Ret z
  | JBool b => Ret (if b then 1 else 0)%Z
  | JFloat _ q => Ret (Z.quot (Qnum q) (Zpos (Qden q)))
  | JStr s => match int_of_str s with Some z => Ret z | None => Raise ValueError end
  | _ => Raise TypeError
  end.

Example int_texts :
  map int_of_str [" 1_000 "; "-7"; "_1"; "1__0"; ""; "12a"]
  = [Some 1000%Z; Some (-7)%Z; None; None; None; None].
Proof. reflexivity. Qed.

(** The code points of a text, as one-character texts. *)
Fixpoint chars (s : string) : list string :=
  match s with
  | EmptyString => []
  | String c s' =>
      match chars s' with
      | String d x :: rest =>
          if (N.leb 128 (N_of_ascii d) && N.ltb (N_of_ascii d) 192)%bool
          then String c (String d x) :: rest else String c "" :: String d x :: rest
      | rest => String c "" :: rest
      end
  end.

(** [s[:n]], in code points; continuation bytes stay with their first byte. *)
Fixpoint take_chars (n : nat) (s : string) : string :=
  match s with
  | EmptyString => ""
  | String c s' =>
      let b := N_of_ascii c in
      if (N.leb 128 b && N.ltb b 192)%bool then String c (take_chars n s')
      else match n with O => "" | S n' => String c (take_chars n' s') end
  end.

(** [for x in v] *)
Definition py_iter (v : json) : outcome (list json) :=
  match v with
  | JList l => Ret l
  | JStr s => Ret (JStr <$> chars s)
  | JObj f => Ret (JStr ∘ fst <$> f)
  | _ => Raise TypeError
  end.

(** [hmac.compare_digest] on [str]: both must be ASCII. *)
Definition is_ascii (s : string) : bool := all_chars (λ c, (N_of_ascii c <? 128)%N) s.

Definition compare_digest (v : json) (expected : string) : outcome bool :=
  match v with
  | JStr s => if is_ascii s && is_ascii expected then Ret (bool_decide (s = expected))
              else Raise TypeError
  | _ => Raise TypeError
  end.

Lemma hex_ascii m : is_ascii (to_hex m) = true.
Proof. unfold is_ascii. induction m as [|c m IH]; [done|]. destruct c as [[] [] [] [] [] [] [] []]; exact IH. Qed.

Lemma is_str_inv s v : is_str s v = true → v = JStr s.
Proof. destruct v; try done. simpl. intros ->%bool_decide_eq_true_1. done. Qed.

