(* ===== verification/JsonParse.v ===== *)
(** * [json.loads]

    The decoder of Python's [json] package on texts (UTF-8 bytes): the strict
    string scanner with its surrogate pairs, numbers, literals, the first
    duplicate key keeping its place and the last its value, and
    [JSONDecodeError], a [ValueError].  A text that is not an integer literal
    is handed to [float]; that conversion is the argument [read_float].  The
    limit of the interpreter on nesting is not modelled.

    [loads_dumps]: what [json.dumps] prints with its default separators is
    read back as it was, for values without floats. *)

From S2P Require Import Prelude Sha256 Json.

#[local] Open Scope string_scope.

(** ** Characters *)

Definition json_ws (c : ascii) : bool :=
  let n := N_of_ascii c in ((n =? 32) || (n =? 9) || (n =? 10) || (n =? 13))%N.

Fixpoint skip_ws (s : string) : string :=
  match s with String c s' => if json_ws c then skip_ws s' else s | EmptyString => "" end.

(** The UTF-8 bytes of a code point. *)
Definition byte_of (n : N) : string := String (ascii_of_N n) "".

Definition utf8 (n : N) : string :=
  if (n <? 128)%N then byte_of n
  else if (n <? 2048)%N then byte_of (192 + n / 64) +:+ byte_of (128 + n mod 64)
  else if (n <? 65536)%N
  then byte_of (224 + n / 4096) +:+ byte_of (128 + n / 64 mod 64) +:+ byte_of (128 + n mod 64)
  else byte_of (240 + n / 262144) +:+ byte_of (128 + n / 4096 mod 64)
       +:+ byte_of (128 + n / 64 mod 64) +:+ byte_of (128 + n mod 64).

Definition hex_value (c : ascii) : option N :=
  let n := N_of_ascii c in
  if (48 <=? n)%N && (n <=? 57)%N then Some (n - 48)%N
  else if (65 <=? n)%N && (n <=? 70)%N then Some (n - 55)%N
  else if (97 <=? n)%N && (n <=? 102)%N then Some (n - 87)%N
  else None.

Definition hex4_value (a b c d : ascii) : option N :=
  match hex_value a, hex_value b, hex_value c, hex_value d with
  | Some a, Some b, Some c, Some d => Some (((a * 16 + b) * 16 + c) * 16 + d)%N
  | _, _, _, _ => None
  end.

Definition bslash : ascii := ascii_of_N 92.

Definition simple_escape (c : ascii) : option ascii :=
  let n := N_of_ascii c in
  if (n =? 34)%N || (n =? 92)%N || (n =? 47)%N then Some c
  else if (n =? 98)%N then Some (ascii_of_N 8)
  else if (n =? 102)%N then Some (ascii_of_N 12)
  else if (n =? 110)%N then Some (ascii_of_N 10)
  else if (n =? 114)%N then Some (ascii_of_N 13)
  else if (n =? 116)%N then Some (ascii_of_N 9)
  else None.

Definition is_high (n : N) : bool := ((55296 <=? n) && (n <=? 56319))%N.
Definition is_low (n : N) : bool := ((56320 <=? n) && (n <=? 57343))%N.
Definition joined (hi lo : N) : N := (65536 + ((hi - 55296) * 1024 + (lo - 56320)))%N.

(** The four digits after [\u] at the head of the text. *)
Definition head_hex4 (s : string) : option N :=
  match s with
  | String a (String b (String c (String d _))) => hex4_value a b c d
  | _ => None
  end.

(** What an escaped low surrogate at the head of the text is. *)
Definition head_low (s : string) : option N :=
  match s with
  | String x (String y s') =>
      if bool_decide (x = bslash) && bool_decide (y = "u"%char)
      then match head_hex4 s' with Some n => if is_low n then Some n else None | None => None end
      else None
  | _ => None
  end.

Definition prepend (p : string) (r : option (string * string)) : option (string * string) :=
  match r with Some (body, rest) => Some (p +:+ body, rest) | None => None end.

(** The body of a string and what follows its closing quote. *)
Fixpoint scan_string (s : string) : option (string * string) :=
  match s with
  | EmptyString => None
  | String c s' =>
      if bool_decide (c = dq) then Some ("", s')
      else if bool_decide (c = bslash) then
        match s' with
        | EmptyString => None
        | String e s2 =>
            if bool_decide (e = "u"%char) then
              match s2 with
              | String h1 (String h2 (String h3 (String h4 s3))) =>
                  match hex4_value h1 h2 h3 h4 with
                  | None => None
                  | Some n =>
                      match (if is_high n then head_low s3 else None), s3 with
                      | Some lo, String _ (String _ (String _ (String _ (String _ (String _ s4))))) =>
                          prepend (utf8 (joined n lo)) (scan_string s4)
                      | _, _ => prepend (utf8 n) (scan_string s3)
                      end
                  end
              | _ => None
              end
            else match simple_escape e with
                 | Some x => prepend (String x "") (scan_string s2)
                 | None => None
                 end
        end
      else if (N_of_ascii c <? 32)%N then None
      else prepend (String c "") (scan_string s')
  end.

(** ** Numbers *)

Fixpoint take_digits (s : string) : string * string :=
  match s with
  | String c s' =>
      if digitb c then let '(d, rest) := take_digits s' in (String c d, rest) else ("", s)
  | EmptyString => ("", "")
  end.

(** An optional sign, then a zero or digits without a leading zero. *)
Definition int_part (s : string) : option (string * string) :=
  let '(sign, s1) := match s with
                     | String c s' => if bool_decide (c = "-"%char) then ("-", s') else ("", s)
                     | EmptyString => ("", s)
                     end in
  match s1 with
  | String c s2 =>
      if bool_decide (c = "0"%char) then Some (sign +:+ "0", s2)
      else if digitb c then let '(d, rest) := take_digits s1 in Some (sign +:+ d, rest)
      else None
  | EmptyString => None
  end.

(** A dot and digits, if there are any. *)
Definition frac_part (s : string) : string * string :=
  match s with
  | String c s' =>
      if bool_decide (c = "."%char) then
        match take_digits s' with ("", _) => ("", s) | (d, rest) => ("." +:+ d, rest) end
      else ("", s)
  | EmptyString => ("", s)
  end.

(** An exponent, if there is one. *)
Definition exp_part (s : string) : string * string :=
  match s with
  | String c s' =>
      if bool_decide (c = "e"%char) || bool_decide (c = "E"%char) then
        let '(sign, s2) := match s' with
                           | String d s'' => if bool_decide (d = "-"%char) || bool_decide (d = "+"%char)
                                             then (String d "", s'') else ("", s')
                           | EmptyString => ("", s')
                           end in
        match take_digits s2 with
        | ("", _) => ("", s)
        | (d, rest) => (String c sign +:+ d, rest)
        end
      else ("", s)
  | EmptyString => ("", s)
  end.

(** [sys.int_info.default_max_str_digits] *)
Definition max_str_digits : nat := 4300.

Definition int_literal (text : string) : option json :=
  let digits := match text with
                | String c d => if bool_decide (c = "-"%char) then d else text
                | EmptyString => text
                end in
  if (max_str_digits <? String.length digits)%nat then None
  else JInt <$> int_of_str text.

Section Loads.
(** [float(text)], as the value it gives; [NaN] and the infinities included. *)
Context (read_float : string → json).

Definition parse_number (s : string) : option (json * string) :=
  match int_part s with
  | None => None
  | Some (i, s1) =>
      let '(f, s2) := frac_part s1 in
      let '(e, s3) := exp_part s2 in
      match f, e with
      | "", "" => match int_literal i with Some v => Some (v, s3) | None => None end
      | _, _ => Some (read_float (i +:+ f +:+ e), s3)
      end
  end.

(** The literals, with what they leave. *)
Definition literals : list (string * json) :=
  [("null", JNull); ("true", JBool true); ("false", JBool false); ("NaN", read_float "NaN");
   ("Infinity", read_float "Infinity"); ("-Infinity", read_float "-Infinity")].

Fixpoint parse_literal (l : list (string * json)) (s : string) : option (json * string) :=
  match l with
  | [] => None
  | (t, v) :: rest => if startswith s t then Some (v, drop_prefix t s) else parse_literal rest s
  end.

(** The elements of an array after its first value is due, and the members of
    an object after its first key is due; [value] reads a nested value. *)
Fixpoint parse_elements (value : string → option (json * string)) (n : nat) (s : string)
    : option (list json * string) :=
  match n with
  | O => None
  | S n =>
      match value s with
      | None => None
      | Some (v, s1) =>
          match skip_ws s1 with
          | String c s2 =>
              if bool_decide (c = "]"%char) then Some ([v], s2)
              else if bool_decide (c = ","%char) then
                match parse_elements value n (skip_ws s2) with
                | Some (l, rest) => Some (v :: l, rest)
                | None => None
                end
              else None
          | EmptyString => None
          end
      end
  end.

(** One member: a key after its opening quote, a colon, a value. *)
Definition parse_member (value : string → option (json * string)) (s : string)
    : option (string * json * string) :=
  match s with
  | String c s1 =>
      if bool_decide (c = dq) then
        match scan_string s1 with
        | None => None
        | Some (k, s2) =>
            match skip_ws s2 with
            | String c s3 =>
                if bool_decide (c = ":"%char) then
                  match value (skip_ws s3) with
                  | Some (v, rest) => Some (k, v, rest)
                  | None => None
                  end
                else None
            | EmptyString => None
            end
        end
      else None
  | EmptyString => None
  end.

Fixpoint parse_members (value : string → option (json * string)) (n : nat) (s : string)
    : option (list (string * json) * string) :=
  match n with
  | O => None
  | S n =>
      match parse_member value s with
      | None => None
      | Some (k, v, s1) =>
          match skip_ws s1 with
          | String c s2 =>
              if bool_decide (c = "}"%char) then Some ([(k, v)], s2)
              else if bool_decide (c = ","%char) then
                match parse_members value n (skip_ws s2) with
                | Some (l, rest) => Some ((k, v) :: l, rest)
                | None => None
                end
              else None
          | EmptyString => None
          end
      end
  end.

(** [dict(pairs)] *)
Definition dict_of_pairs (l : list (string * json)) : list (string * json) :=
  foldl (λ d kv, dset (fst kv) (snd kv) d) [] l.

Fixpoint parse_value (depth : nat) (s : string) : option (json * string) :=
  match depth with
  | O => None
  | S depth =>
      match s with
      | EmptyString => None
      | String c s1 =>
          if bool_decide (c = dq) then
            match scan_string s1 with Some (t, rest) => Some (JStr t, rest) | None => None end
          else if bool_decide (c = "["%char) then
            match skip_ws s1 with
            | String d s2 =>
                if bool_decide (d = "]"%char) then Some (JList [], s2)
                else match parse_elements (parse_value depth) (String.length s) (skip_ws s1) with
                     | Some (l, rest) => Some (JList l, rest)
                     | None => None
                     end
            | EmptyString => None
            end
          else if bool_decide (c = "{"%char) then
            match skip_ws s1 with
            | String d s2 =>
                if bool_decide (d = "}"%char) then Some (JObj [], s2)
                else match parse_members (parse_value depth) (String.length s) (skip_ws s1) with
                     | Some (l, rest) => Some (JObj (dict_of_pairs l), rest)
                     | None => None
                     end
            | EmptyString => None
            end
          else match parse_literal literals s with
               | Some r => Some r
               | None => parse_number s
               end
      end
  end.

(** A UTF-8 byte order mark is refused. *)
Definition bom : string := utf8 65279.

Definition loads (s : string) : outcome json :=
  if startswith s bom then Raise ValueError
  else match parse_value (S (String.length s)) (skip_ws s) with
       | Some (v, rest) => if bool_decide (skip_ws rest = "") then Ret v else Raise ValueError
       | None => Raise ValueError
       end.

End Loads.

(** ** Texts

    A text of Python without lone surrogates, as its code points. *)

Definition scalar (n : N) : Prop := (n < 55296 ∨ 57344 <= n < 1114112)%N.

Definition text_of (cps : list N) : string := foldr (λ n s, utf8 n +:+ s) "" cps.

Definition valid_text (s : string) : Prop := ∃ cps, Forall scalar cps ∧ s = text_of cps.

Lemma N_lor_shift a b : (b < 64)%N → N.lor (N.shiftl a 6) b = (a * 64 + b)%N.
Proof.
  intros Hb. assert (N.land (N.shiftl a 6) b = 0%N) as Hdisj.
  { apply N.bits_inj. intros i. rewrite N.land_spec, N.bits_0.
    destruct (N.lt_ge_cases i 6) as [Hi|Hi]; [by rewrite N.shiftl_spec_low|].
    rewrite andb_comm, N.bits_above_log2; [done|].
    destruct (N.eq_dec b 0%N) as [->|]; [cbn; lia|].
    apply N.lt_le_trans with 6%N; [|done]. apply N.log2_lt_pow2; lia. }
  rewrite <- N.lxor_lor, <- N.add_nocarry_lxor by done. by rewrite N.shiftl_mul_pow2.
Qed.

Lemma ascii_N n : (n < 256)%N → N_of_ascii (ascii_of_N n) = n.
Proof. intros. by apply N_ascii_embedding. Qed.

(** Division and remainder by a constant, for [lia]. *)
Ltac mod_lia := zify; Z.to_euclidean_division_equations; lia.

Lemma low_bits b : (b < 64)%N → N.land (128 + b) 63 = b.
Proof. intros. change 63%N with (N.ones 6). rewrite N.land_ones. change (2 ^ 6)%N with 64%N. mod_lia. Qed.

Lemma decode_step p a b s :
  (b < 64)%N →
  escape_utf8 (S (S p)) a (byte_of (128 + b) +:+ s) = escape_utf8 (S p) (a * 64 + b) s.
Proof.
  intros Hb. unfold byte_of. rewrite str_app_cons. cbn [escape_utf8].
  by rewrite ascii_N, low_bits, N_lor_shift by lia.
Qed.

Lemma decode_last a b s :
  (b < 64)%N →
  escape_utf8 1 a (byte_of (128 + b) +:+ s) = escape_code (a * 64 + b) +:+ escape_utf8 0 0 s.
Proof.
  intros Hb. unfold byte_of. rewrite str_app_cons. cbn [escape_utf8].
  by rewrite ascii_N, low_bits, N_lor_shift by lia.
Qed.

(** The first byte of a sequence announces its length and leading bits. *)
Lemma lead_bits k b hi : (b < 2 ^ k)%N → N.land (hi * 2 ^ k + b) (N.ones k) = b.
Proof. intros Hb. rewrite N.land_ones, N.add_comm, N.Div0.mod_add. by apply N.mod_small. Qed.

Lemma escape_point n s :
  (n < 1114112)%N → escape_utf8 0 0 (utf8 n +:+ s) = escape_code n +:+ escape_utf8 0 0 s.
Proof.
  intros Hn. unfold utf8. destruct (N.ltb_spec n 128) as [H1|H1].
  { unfold byte_of. rewrite str_app_cons. cbn [escape_utf8]. rewrite ascii_N by lia.
    by rewrite (proj2 (N.ltb_lt _ _)). }
  destruct (N.ltb_spec n 2048) as [H2|H2]; [|destruct (N.ltb_spec n 65536) as [H3|H3]];
    rewrite !str_app_assoc; unfold byte_of at 1; rewrite str_app_cons; cbn [escape_utf8];
    rewrite ascii_N by mod_lia.
  - rewrite (proj2 (N.ltb_ge _ 128)), (proj2 (N.ltb_lt _ 224)) by mod_lia.
    replace (192 + n / 64)%N with (6 * 2 ^ 5 + n / 64)%N by (change (2 ^ 5)%N with 32%N; lia).
    change 31%N with (N.ones 5). rewrite lead_bits by (change (2 ^ 5)%N with 32%N; mod_lia).
    change ("" +:+ ?x) with x. rewrite decode_last by mod_lia. do 2 f_equal. mod_lia.
  - rewrite (proj2 (N.ltb_ge _ 128)), (proj2 (N.ltb_ge _ 224)), (proj2 (N.ltb_lt _ 240)) by mod_lia.
    replace (224 + n / 4096)%N with (14 * 2 ^ 4 + n / 4096)%N by (change (2 ^ 4)%N with 16%N; lia).
    change 15%N with (N.ones 4). rewrite lead_bits by (change (2 ^ 4)%N with 16%N; mod_lia).
    change ("" +:+ ?x) with x. rewrite decode_step, decode_last by mod_lia. do 2 f_equal. mod_lia.
  - rewrite (proj2 (N.ltb_ge _ 128)), (proj2 (N.ltb_ge _ 224)), (proj2 (N.ltb_ge _ 240)) by mod_lia.
    replace (240 + n / 262144)%N with (30 * 2 ^ 3 + n / 262144)%N by (change (2 ^ 3)%N with 8%N; lia).
    change 7%N with (N.ones 3). rewrite lead_bits by (change (2 ^ 3)%N with 8%N; mod_lia).
    change ("" +:+ ?x) with x. rewrite !decode_step, decode_last by mod_lia. do 2 f_equal. mod_lia.
Qed.

Lemma escape_text cps :
  Forall scalar cps → escape_utf8 0 0 (text_of cps) = foldr (λ n s, escape_code n +:+ s) "" cps.
Proof.
  induction 1 as [|n cps Hn _ IH]; [done|]. cbn [text_of foldr]. fold (text_of cps).
  rewrite escape_point, IH; [done|]. unfold scalar in Hn. lia.
Qed.

(** ** Reading escapes back *)

Lemma hex_value_digit d : (d < 16)%N → hex_value (hex_digit d) = Some d.
Proof.
  intros Hd. assert (forallb (λ d, bool_decide (hex_value (hex_digit d) = Some d)) (N.of_nat <$> seq 0 16)
    = true) as Hall by (vm_compute; reflexivity).
  rewrite forallb_forall in Hall. specialize (Hall d). rewrite bool_decide_eq_true in Hall.
  apply Hall, list_elem_of_In, list_elem_of_fmap. exists (N.to_nat d). rewrite elem_of_seq. lia.
Qed.

Lemma nibble n k : N.land (N.shiftr n k) 15 = (n / 2 ^ k mod 16)%N.
Proof. change 15%N with (N.ones 4). by rewrite N.land_ones, N.shiftr_div_pow2. Qed.

Lemma hex4_digits n :
  (n < 65536)%N → ∃ a b c d,
    hex4 n = String a (String b (String c (String d ""))) ∧ hex4_value a b c d = Some n.
Proof.
  intros Hn. unfold hex4. do 4 eexists. split; [done|]. unfold hex4_value.
  rewrite !nibble. replace (N.land n 15) with (n / 2 ^ 0 mod 16)%N.
  2: { change 15%N with (N.ones 4). by rewrite N.land_ones, N.div_1_r. }
  rewrite !hex_value_digit by (apply N.mod_lt; done). f_equal.
  change (2 ^ 12)%N with 4096%N. change (2 ^ 8)%N with 256%N. change (2 ^ 4)%N with 16%N.
  change (2 ^ 0)%N with 1%N. mod_lia.
Qed.

Lemma scan_u n rest :
  (n < 65536)%N → is_high n = false →
  scan_string (u_escape n +:+ rest) = prepend (utf8 n) (scan_string rest).
Proof.
  intros Hn Hhigh. destruct (hex4_digits n Hn) as (a & b & c & d & Hhex & Hval).
  unfold u_escape. rewrite Hhex.
  change (scan_string (String bslash (String "u" (String a (String b (String c (String d rest))))))
    = prepend (utf8 n) (scan_string rest)).
  cbn -[hex4_value utf8]. by rewrite Hval, Hhigh.
Qed.

Lemma scan_pair hi lo rest :
  (hi < 65536)%N → (lo < 65536)%N → is_high hi = true → is_low lo = true →
  scan_string (u_escape hi +:+ u_escape lo +:+ rest)
  = prepend (utf8 (joined hi lo)) (scan_string rest).
Proof.
  intros Hhi Hlo Hh Hl. destruct (hex4_digits hi Hhi) as (a & b & c & d & Hhex & Hval).
  destruct (hex4_digits lo Hlo) as (a' & b' & c' & d' & Hhex' & Hval').
  unfold u_escape. rewrite Hhex, Hhex'.
  change (scan_string (String bslash (String "u" (String a (String b (String c (String d
    (String bslash (String "u" (String a' (String b' (String c' (String d' rest))))))))))))
    = prepend (utf8 (joined hi lo)) (scan_string rest)).
  cbn -[hex4_value utf8 joined is_high is_low]. by rewrite Hval, Hh, Hval', Hl.
Qed.

Lemma byte_plain n rest :
  (32 <= n <= 126)%N → n ≠ 34%N → n ≠ 92%N →
  scan_string (String (ascii_of_N n) "" +:+ rest) = prepend (String (ascii_of_N n) "") (scan_string rest).
Proof.
  intros Hn Hq Hb. change (String (ascii_of_N n) "" +:+ rest) with (String (ascii_of_N n) rest).
  cbn [scan_string]. rewrite !bool_decide_eq_false_2.
  - by rewrite ascii_N, (proj2 (N.ltb_ge _ _)) by lia.
  - intros Heq%(f_equal N_of_ascii). by rewrite ascii_N in Heq by lia.
  - intros Heq%(f_equal N_of_ascii). by rewrite ascii_N in Heq by lia.
Qed.

Lemma scan_point n rest :
  scalar n → scan_string (escape_code n +:+ rest) = prepend (utf8 n) (scan_string rest).
Proof.
  unfold scalar. intros Hn. unfold escape_code.
  repeat match goal with |- context [(n =? ?k)%N] =>
    destruct (N.eqb_spec n k) as [->|?]; [reflexivity|] end.
  destruct (N.leb_spec 32 n) as [Hlo|Hlo]; cbn [andb];
    [destruct (N.leb_spec n 126) as [Hhi|Hhi]|].
  - rewrite byte_plain by lia. unfold utf8. by rewrite (proj2 (N.ltb_lt _ _)) by lia.
  - destruct (N.ltb_spec n 65536) as [H3|H3].
    + apply scan_u; [done|]. unfold is_high.
      destruct (N.leb_spec 55296 n), (N.leb_spec n 56319); try done. lia.
    + cbv zeta. set (m := (n - 65536)%N). replace (N.land m 1023) with (m mod 1024)%N
        by (change 1023%N with (N.ones 10); by rewrite N.land_ones).
      rewrite N.shiftr_div_pow2. change (2 ^ 10)%N with 1024%N. rewrite str_app_assoc.
      assert (m < 1048576)%N by lia. rewrite scan_pair.
      * do 2 f_equal. unfold joined. mod_lia.
      * mod_lia.
      * mod_lia.
      * unfold is_high. by rewrite (proj2 (N.leb_le _ _)), (proj2 (N.leb_le _ _)) by mod_lia.
      * unfold is_low. by rewrite (proj2 (N.leb_le _ _)), (proj2 (N.leb_le _ _)) by mod_lia.
  - rewrite (proj2 (N.ltb_lt _ _)) by lia. apply scan_u; [lia|]. unfold is_high.
    by rewrite (proj2 (N.leb_gt _ _)) by lia.
Qed.

(** The body of a printed string and its closing quote. *)
Lemma scan_printed s rest :
  valid_text s → scan_string (escape_utf8 0 0 s +:+ String dq rest) = Some (s, rest).
Proof.
  intros (cps & Hcps & ->). rewrite escape_text by done.
  induction Hcps as [|n cps Hn _ IH]; [by cbn|]. cbn [foldr text_of]. fold (text_of cps).
  rewrite str_app_assoc, scan_point, IH by done. done.
Qed.

(** ** Reading numbers back *)

(** What may follow a value: nothing, or a character no number goes on with. *)
Definition delimited (rest : string) : Prop :=
  match rest with
  | EmptyString => True
  | String c _ => c = ","%char ∨ c = "]"%char ∨ c = "}"%char
  end.

Lemma take_digits_app d rest :
  all_chars digitb d = true → delimited rest → take_digits (d +:+ rest) = (d, rest).
Proof.
  intros Hd Hrest. induction d as [|c d IH].
  - destruct rest as [|c rest]; [done|]. cbn in Hrest |- *. by destruct Hrest as [-> |[-> | ->]].
  - cbn [all_chars] in Hd. apply andb_true_iff in Hd as [Hc Hd]. rewrite str_app_cons.
    cbn [take_digits]. by rewrite Hc, IH.
Qed.

Lemma pretty_go_app x s : pretty_N_go x s = pretty_N_go x "" +:+ s.
Proof.
  revert s. induction (N.lt_wf_0 x) as [x _ IH]. intros s.
  destruct (N.eq_dec x 0%N) as [->|Hx]; [by rewrite !pretty_N_go_0|].
  rewrite !(pretty_N_go_step x) by lia. assert (x `div` 10 < x)%N by (apply N.div_lt; lia).
  rewrite IH by done. rewrite (IH _ H (String _ "")). rewrite str_app_assoc. done.
Qed.

Lemma std_digit_char x : (x < 10)%N → (Z.of_N (N_of_ascii (pretty_N_char x)) - 48)%Z = Z.of_N x.
Proof.
  intros Hx. assert (forallb (λ d, (Z.of_N (N_of_ascii (pretty_N_char d)) - 48 =? Z.of_N d)%Z)
    (N.of_nat <$> seq 0 10) = true) as Hall by (vm_compute; reflexivity).
  rewrite forallb_forall in Hall. apply Z.eqb_eq, Hall, list_elem_of_In, list_elem_of_fmap.
  exists (N.to_nat x). rewrite elem_of_seq. lia.
Qed.

Lemma int_digits_go x b s :
  int_digits 0 b (pretty_N_go x s) = int_digits (Z.of_N x) (b || (0 <? x)%N) s.
Proof.
  revert b s. induction (N.lt_wf_0 x) as [x _ IH]. intros b s.
  destruct (N.eq_dec x 0%N) as [->|Hx]; [by rewrite pretty_N_go_0, orb_false_r|].
  rewrite pretty_N_go_step by lia. rewrite IH by (apply N.div_lt; lia). cbn [int_digits].
  rewrite pretty_N_char_digit, std_digit_char by (by apply N.mod_lt).
  rewrite (proj2 (N.ltb_lt 0 x)), orb_true_r by lia. f_equal. mod_lia.
Qed.

(** A printed positive number starts with a digit other than zero. *)
Lemma pretty_go_head x :
  (0 < x)%N → ∃ c d, pretty_N_go x "" = String c d ∧ digitb c = true ∧ c ≠ "0"%char ∧
    all_chars digitb d = true.
Proof.
  induction (N.lt_wf_0 x) as [x _ IH]. intros Hx. rewrite pretty_N_go_step by done.
  destruct (N.eq_dec (x `div` 10)%N 0%N) as [Hz|Hz].
  - rewrite Hz, pretty_N_go_0. exists (pretty_N_char (x `mod` 10)%N), "". split; [done|].
    split; [apply pretty_N_char_digit|]. split; [|done].
    intros Heq. assert ((x `mod` 10) < 10)%N as Hm by (by apply N.mod_lt).
    pose proof (std_digit_char _ Hm) as Hv. rewrite Heq in Hv. cbn in Hv. mod_lia.
  - destruct (IH (x `div` 10)%N) as (c & d & Heq & Hc & Hne & Hd);
      [apply N.div_lt; lia|by apply N.neq_0_lt_0|].
    rewrite pretty_go_app, Heq. exists c, (d +:+ String (pretty_N_char (x `mod` 10)%N) "").
    rewrite str_app_cons, all_chars_app, Hd. cbn [all_chars andb]. by rewrite pretty_N_char_digit.
Qed.

Lemma int_part_digits c d rest :
  digitb c = true → c ≠ "0"%char → all_chars digitb d = true → delimited rest →
  int_part (String c d +:+ rest) = Some (String c d, rest) ∧
  int_part ("-" +:+ String c d +:+ rest) = Some ("-" +:+ String c d, rest).
Proof.
  intros Hc Hne Hd Hrest.
  assert (take_digits (String c d +:+ rest) = (String c d, rest)) as Htake.
  { apply take_digits_app; [|done]. cbn. by rewrite Hc. }
  assert (c ≠ "-"%char) as Hminus by (intros ->; done).
  rewrite str_app_cons in *. change ("-" +:+ String c (d +:+ rest)) with (String "-" (String c (d +:+ rest))).
  split; unfold int_part; cbn -[take_digits digitb bool_decide].
  - rewrite (bool_decide_eq_false_2 (c = "-"%char)) by done.
    by rewrite (bool_decide_eq_false_2 (c = "0"%char)), Hc, Htake by done.
  - rewrite (bool_decide_eq_true_2 ("-"%char = "-"%char)) by done.
    by rewrite (bool_decide_eq_false_2 (c = "0"%char)), Hc, Htake by done.
Qed.

Lemma no_fraction rest : delimited rest → frac_part rest = ("", rest) ∧ exp_part rest = ("", rest).
Proof. destruct rest as [|c rest]; [done|]. by intros [-> |[-> | ->]]. Qed.

Lemma digit_not_blank c : digitb c = true → blank c = false.
Proof.
  by destruct c as [[] [] [] [] [] [] [] []].
Qed.

Lemma digits_strip c d :
  digitb c = true → all_chars digitb d = true → rstrip (String c d) = String c d.
Proof.
  revert c. induction d as [|c' d IH]; intros c Hc Hd.
  - cbn [rstrip]. by rewrite digit_not_blank.
  - cbn [all_chars] in Hd. apply andb_true_iff in Hd as [Hc' Hd].
    change (rstrip (String c (String c' d))) with
      (match rstrip (String c' d) with
       | EmptyString => if blank c then "" else String c "" | t => String c t end).
    by rewrite IH.
Qed.

(** The digits of a number, and the number read from them. *)
Lemma digits_of x :
  (0 < x)%N → ∃ c d, pretty x = String c d ∧ digitb c = true ∧ c ≠ "0"%char ∧
    all_chars digitb d = true ∧ int_digits 0 false (String c d) = Some (Z.of_N x).
Proof.
  intros Hx. destruct (pretty_go_head x Hx) as (c & d & Heq & Hc & Hne & Hd). exists c, d.
  unfold pretty, pretty_N. rewrite decide_False by lia. split_and!; try done.
  rewrite <- Heq, int_digits_go. by rewrite (proj2 (N.ltb_lt _ _)).
Qed.

(** Integers within the limit of digits. *)
Definition short_int (z : Z) : Prop := (String.length (pretty z) <= max_str_digits)%nat.

Lemma int_literal_pos x c d :
  digitb c = true → all_chars digitb d = true → int_digits 0 false (String c d) = Some (Z.of_N x) →
  (String.length (String c d) <= max_str_digits)%nat →
  int_literal (String c d) = Some (JInt (Z.of_N x)) ∧
  int_literal (String "-" (String c d)) = Some (JInt (- Z.of_N x)).
Proof.
  intros Hc Hd Hval Hlen. assert (c ≠ "-"%char) as Hminus by (intros ->; done).
  assert (c ≠ "+"%char) as Hplus by (intros ->; done).
  assert (lstrip (String c d) = String c d) as Hl by (cbn [lstrip]; by rewrite digit_not_blank).
  pose proof (digits_strip c d Hc Hd) as Hr.
  assert ((max_str_digits <? String.length (String c d))%nat = false) as Hshort by by apply Nat.ltb_ge.
  unfold int_literal, int_of_str. split.
  - rewrite (bool_decide_eq_false_2 (c = "-"%char)) by done. rewrite Hshort, Hl, Hr.
    rewrite (bool_decide_eq_false_2 (c = "-"%char)), (bool_decide_eq_false_2 (c = "+"%char)) by done.
    by rewrite Hval.
  - change (bool_decide ("-"%char = "-"%char)) with true. cbv iota. rewrite Hshort.
    change (lstrip (String "-" (String c d))) with (String "-" (String c d)).
    change (rstrip (String "-" (String c d))) with
      (match rstrip (String c d) with EmptyString => "-" | t => String "-" t end).
    rewrite Hr. change (bool_decide ("-"%char = "-"%char)) with true. cbv iota. by rewrite Hval.
Qed.

Lemma number_back rf z rest :
  short_int z → delimited rest → parse_number rf (pretty z +:+ rest) = Some (JInt z, rest).
Proof.
  intros Hlen Hrest. destruct (no_fraction rest Hrest) as [Hf He]. unfold parse_number.
  destruct z as [|p|p].
  - change (int_part (pretty 0%Z +:+ rest)) with (Some ("0", rest)). cbv iota beta. by rewrite Hf, He.
  - destruct (digits_of (Npos p) ltac:(done)) as (c & d & Heq & Hc & Hne & Hd & Hval).
    unfold short_int in Hlen. change (pretty (Zpos p)) with (pretty (Npos p)) in *. rewrite Heq in *.
    destruct (int_part_digits c d rest) as [-> _]; try done. rewrite Hf, He. cbv iota beta.
    by destruct (int_literal_pos (Npos p) c d) as [-> _].
  - destruct (digits_of (Npos p) ltac:(done)) as (c & d & Heq & Hc & Hne & Hd & Hval).
    unfold short_int in Hlen. change (pretty (Zneg p)) with ("-" +:+ pretty (Npos p)) in *.
    rewrite Heq, str_app_assoc in *.
    destruct (int_part_digits c d rest) as [_ ->]; try done. rewrite Hf, He. cbv iota beta.
    change ("-" +:+ String c d) with (String "-" (String c d)) in *.
    destruct (int_literal_pos (Npos p) c d) as [_ ->]; try done. cbn in Hlen |- *. lia.
Qed.

(** ** Reading values back *)

Lemma json_ind' (P : json → Prop) :
  P JNull → (∀ b, P (JBool b)) → (∀ z, P (JInt z)) → (∀ t q, P (JFloat t q)) → (∀ s, P (JStr s)) →
  (∀ l, Forall P l → P (JList l)) → (∀ f, Forall (λ kv, P (snd kv)) f → P (JObj f)) → ∀ v, P v.
Proof.
  intros Hnull Hbool Hint Hfloat Hstr Hlist Hobj. fix IH 1.
  intros [| b | z | t q | t | l | f];
    [exact Hnull|apply Hbool|apply Hint|apply Hfloat|apply Hstr|apply Hlist|apply Hobj].
  - induction l as [|v l]; constructor; [exact (IH v)|assumption].
  - induction f as [|[k v] f]; constructor; [exact (IH v)|assumption].
Qed.

Fixpoint depth_of (v : json) : nat :=
  match v with
  | JList l => S (foldr (λ v n, Nat.max (depth_of v) n) 0 l)
  | JObj f => S (foldr (λ kv n, Nat.max (depth_of (snd kv)) n) 0 f)
  | _ => 1
  end.

Lemma dump_scan s rest :
  valid_text s →
  ∃ body, dump_str s +:+ rest = String dq body ∧ scan_string body = Some (s, rest).
Proof.
  intros Hs. exists (escape_utf8 0 0 s +:+ String dq rest). split; [|by apply scan_printed].
  unfold dump_str. by rewrite !str_app_assoc.
Qed.

Section Spaced.
Context (rf : string → json) (sp : string).
Context (Hsp : ∀ y, skip_ws (sp +:+ y) = skip_ws y).

(** The text of a number, whatever follows it. *)
Definition number_text (t : string) (v : json) : Prop :=
  (∃ c t', t = String c t' ∧
     (digitb c = true ∨ ∃ d t'', c = "-"%char ∧ t' = String d t'' ∧ digitb d = true)) ∧
  ∀ rest, delimited rest → parse_number rf (t +:+ rest) = Some (v, rest).

Lemma int_text z : short_int z → number_text (pretty z) (JInt z).
Proof.
  intros Hz. split; [|intros rest; by apply number_back].
  destruct z as [|p|p]; [eexists _, _; by split; [|left]|..];
    destruct (digits_of (Npos p) ltac:(done)) as (c & d & Hp & Hc & _).
  - change (pretty (Zpos p)) with (pretty (Npos p)). rewrite Hp. eexists _, _. by split; [|left].
  - change (pretty (Zneg p)) with ("-" +:+ pretty (Npos p)). rewrite Hp.
    eexists _, _. split; [reflexivity|]. right. by eexists _, _.
Qed.

(** Values the printers and the reader agree on: floats that are read from
    their text, proper texts, dicts, integers short enough for [int]. *)
Fixpoint readable (v : json) : Prop :=
  match v with
  | JNull | JBool _ => True
  | JInt z => short_int z
  | JFloat t q => number_text t (JFloat t q)
  | JStr s => valid_text s
  | JList l => foldr (λ v P, readable v ∧ P) True l
  | JObj f => dict_ok f ∧ foldr (λ kv P, (valid_text (fst kv) ∧ readable (snd kv)) ∧ P) True f
  end.

(** The printer, with [sp] after commas and colons. *)
Notation comma := (String ","%char sp).
Notation colon := (String ":"%char sp).

Fixpoint printed (v : json) : string :=
  match v with
  | JList l => "[" +:+ join comma (map printed l) +:+ "]"
  | JObj f => "{" +:+ join comma (map (λ kv, dump_str (fst kv) +:+ colon +:+ printed (snd kv)) f) +:+ "}"
  | _ => dumps v
  end.

(** A printed value starts with a character that is no blank. *)
Lemma number_head t v :
  number_text t v → ∃ c t', t = String c t' ∧ json_ws c = false ∧ c ≠ "]"%char ∧ c ≠ ascii_of_N 239.
Proof.
  intros [(c & t' & -> & Hc) _]. exists c, t'. split; [done|].
  destruct Hc as [Hc|(d & t'' & -> & _)]; [|done]. by destruct c as [[] [] [] [] [] [] [] []].
Qed.

Lemma printed_head v :
  readable v →
  ∃ c t, printed v = String c t ∧ json_ws c = false ∧ c ≠ "]"%char ∧ c ≠ ascii_of_N 239.
Proof.
  destruct v as [|b|z|t q|s|l|f]; intros Hv.
  - by eexists _, _.
  - destruct b; by eexists _, _.
  - by apply int_text, number_head in Hv.
  - by apply number_head in Hv.
  - by eexists _, _.
  - by eexists _, _.
  - by eexists _, _.
Qed.

Lemma skip_printed v rest : readable v → skip_ws (printed v +:+ rest) = printed v +:+ rest.
Proof.
  intros Hv. destruct (printed_head v Hv) as (c & t & -> & Hc & _). rewrite str_app_cons.
  cbn [skip_ws]. by rewrite Hc.
Qed.

(** Past the separator of two elements or members. *)
Ltac past_comma :=
  match goal with |- context [skip_ws (String ","%char ?y)] =>
    change (skip_ws (String ","%char y)) with (String ","%char y) end;
  cbv beta iota;
  change (bool_decide (","%char = "]"%char)) with false;
  change (bool_decide (","%char = "}"%char)) with false;
  change (bool_decide (","%char = ","%char)) with true; cbv iota;
  rewrite Hsp.

(** What the reader makes of a printed value. *)
Definition back (v : json) : Prop :=
  readable v → ∀ depth rest, (depth_of v <= depth)%nat → delimited rest →
  parse_value rf depth (printed v +:+ rest) = Some (v, rest).

Lemma elements_back depth l n rest :
  Forall back l → Forall readable l → Forall (λ v, (depth_of v <= depth)%nat) l → l ≠ [] →
  (length l <= n)%nat →
  parse_elements (parse_value rf depth) n (join comma (map printed l) +:+ String "]" rest)
  = Some (l, rest).
Proof.
  intros Hback Hplain Hdepth. revert n. induction l as [|v l IH]; intros n Hne Hn; [done|].
  apply Forall_cons_1 in Hback as [Hv Hback], Hplain as [Hp Hplain], Hdepth as [Hd Hdepth].
  destruct n as [|n]; [cbn in Hn; lia|]. cbn [parse_elements]. destruct l as [|v' l].
  - change (join comma (map printed [v])) with (printed v). rewrite Hv; [done|done|done|].
    cbn. auto.
  - change (join comma (map printed (v :: v' :: l)))
      with (printed v +:+ comma +:+ join comma (map printed (v' :: l))).
    rewrite !str_app_assoc.
    rewrite (str_app_cons ","%char sp).
    rewrite Hv; [|done|done|cbn; auto]. past_comma.
    assert (∀ x, skip_ws (join comma (map printed (v' :: l)) +:+ x)
              = join comma (map printed (v' :: l)) +:+ x) as Hskip.
    { intros x. apply Forall_cons_1 in Hplain as [Hp' _].
      destruct (printed_head v' Hp') as (c & t & Heq & Hc & _).
      assert (∃ t', join comma (map printed (v' :: l)) = String c t') as [t' ->].
      { cbn [map join]. destruct (map printed l); rewrite Heq, ?str_app_cons; by eexists. }
      rewrite str_app_cons. cbn [skip_ws]. by rewrite Hc. }
    rewrite Hskip, IH; [done|done|done|done|done|]. cbn in Hn |- *. lia.
Qed.

Lemma member_back depth k v rest :
  back v → valid_text k → readable v → (depth_of v <= depth)%nat → delimited rest →
  parse_member (parse_value rf depth) (dump_str k +:+ colon +:+ printed v +:+ rest)
  = Some (k, v, rest).
Proof.
  intros Hv Hk Hp Hd Hrest.
  destruct (dump_scan k (colon +:+ printed v +:+ rest) Hk) as (body & -> & Hscan).
  unfold parse_member. rewrite bool_decide_eq_true_2 by done. rewrite Hscan.
  change (skip_ws (colon +:+ ?x)) with (String ":"%char (sp +:+ x)). cbv beta iota.
  rewrite bool_decide_eq_true_2 by done. rewrite Hsp.
  by rewrite skip_printed, Hv.
Qed.

Definition member_text (kv : string * json) : string := dump_str (fst kv) +:+ colon +:+ printed (snd kv).

Lemma member_head kv : ∃ t, member_text kv = String dq t.
Proof. by eexists. Qed.

Lemma members_back depth f n rest :
  Forall (λ kv, back (snd kv)) f → Forall (λ kv, valid_text (fst kv) ∧ readable (snd kv)) f →
  Forall (λ kv, (depth_of (snd kv) <= depth)%nat) f → f ≠ [] → (length f <= n)%nat →
  parse_members (parse_value rf depth) n (join comma (map member_text f) +:+ String "}" rest)
  = Some (f, rest).
Proof.
  intros Hback Hplain Hdepth. revert n. induction f as [|[k v] f IH]; intros n Hne Hn; [done|].
  apply Forall_cons_1 in Hback as [Hv Hback], Hplain as [[Hk Hp] Hplain], Hdepth as [Hd Hdepth].
  destruct n as [|n]; [cbn in Hn; lia|]. cbn [parse_members]. destruct f as [|kv' f].
  - change (join comma (map member_text [(k, v)])) with (dump_str k +:+ colon +:+ printed v).
    rewrite !str_app_assoc, member_back; [done|done|done|done|done|]. cbn. auto.
  - change (join comma (map member_text ((k, v) :: kv' :: f)))
      with ((dump_str k +:+ colon +:+ printed v) +:+ comma +:+ join comma (map member_text (kv' :: f))).
    rewrite !str_app_assoc.
    rewrite (str_app_cons ","%char sp).
    rewrite member_back; [|done|done|done|done|cbn; auto]. past_comma.
    assert (∃ t, join comma (map member_text (kv' :: f)) = String dq t) as [t Ht].
    { cbn [map join]. destruct (member_head kv') as [t ->].
      destruct (map member_text f); rewrite ?str_app_cons; by eexists. }
    assert (∀ x, skip_ws (join comma (map member_text (kv' :: f)) +:+ x)
              = join comma (map member_text (kv' :: f)) +:+ x) as ->.
    { intros x. by rewrite Ht, str_app_cons. }
    rewrite IH; [done|done|done|done|done|]. cbn in Hn |- *. lia.
Qed.

(** ** The round trip *)

Lemma startswith_app p s : startswith (p +:+ s) p = true.
Proof. apply startswith_iff. by rewrite drop_prefix_app. Qed.

Lemma literal_back depth t v rest :
  (t, v) ∈ [("null", JNull); ("true", JBool true); ("false", JBool false)] →
  parse_value rf (S depth) (t +:+ rest) = Some (v, rest).
Proof.
  rewrite !elem_of_cons. intros Hin.
  assert (parse_literal (literals rf) (t +:+ rest) = Some (v, rest)) as Hlit.
  { destruct Hin as [[= -> ->]|[[= -> ->]|[[= -> ->]|Hin]]]; [..|by apply not_elem_of_nil in Hin].
    all: unfold literals; cbn [parse_literal].
    - by rewrite startswith_app, drop_prefix_app.
    - change (startswith ("true" +:+ rest) "null") with false. by rewrite startswith_app, drop_prefix_app.
    - change (startswith ("false" +:+ rest) "null") with false.
      change (startswith ("false" +:+ rest) "true") with false. by rewrite startswith_app, drop_prefix_app. }
  cbn [parse_value]. rewrite Hlit.
  by destruct Hin as [[= -> ->]|[[= -> ->]|[[= -> ->]|Hin]]]; [..|by apply not_elem_of_nil in Hin].
Qed.

Lemma number_value depth t v rest :
  number_text t v → delimited rest → parse_value rf (S depth) (t +:+ rest) = Some (v, rest).
Proof.
  intros [(c & t' & -> & Hc) Hnum] Hrest. specialize (Hnum rest Hrest).
  rewrite str_app_cons in *. cbn [parse_value].
  assert (parse_literal (literals rf) (String c (t' +:+ rest)) = None ∧ c ≠ dq ∧ c ≠ "["%char ∧ c ≠ "{"%char)
    as (Hlit & H1 & H2 & H3).
  { destruct Hc as [Hc|(d & t'' & -> & -> & Hd)].
    - by destruct c as [[] [] [] [] [] [] [] []].
    - by destruct d as [[] [] [] [] [] [] [] []]. }
  by rewrite !bool_decide_eq_false_2, Hlit.
Qed.

Lemma depth_list n l :
  (S (foldr (λ v n, Nat.max (depth_of v) n) 0 l) <= S n)%nat → Forall (λ v, (depth_of v <= n)%nat) l.
Proof.
  intros H%le_S_n. induction l as [|v l IH]; [constructor|]. cbn in H. constructor; [lia|]. apply IH. lia.
Qed.

Lemma depth_fields n f :
  (S (foldr (λ kv n, Nat.max (depth_of (snd kv)) n) 0 f) <= S n)%nat →
  Forall (λ kv : string * json, (depth_of (snd kv) <= n)%nat) f.
Proof.
  intros H%le_S_n. induction f as [|v f IH]; [constructor|]. cbn in H. constructor; [lia|]. apply IH. lia.
Qed.

Lemma foldr_and {A} (Q : A → Prop) l : foldr (λ v P, Q v ∧ P) True l → Forall Q l.
Proof. induction l as [|v l IH]; [constructor|]. intros [Hv Hl]. constructor; [done|by apply IH]. Qed.

Lemma readable_list l : readable (JList l) → Forall readable l.
Proof. apply foldr_and. Qed.

Lemma readable_fields f :
  readable (JObj f) → dict_ok f ∧ Forall (λ kv, valid_text (fst kv) ∧ readable (snd kv)) f.
Proof. intros [Hok Hf]. split; [done|]. by apply foldr_and in Hf. Qed.

Lemma join_size {A} (f : A → string) l s :
  (∀ x, x ∈ l → f x ≠ "") → (length l <= String.length (join comma (map f l) +:+ s))%nat.
Proof.
  rewrite str_length_app. induction l as [|x l IH]; intros Hf; [cbn; lia|].
  assert (String.length (f x) ≠ 0)%nat as Hx.
  { intros H. apply (Hf x); [left|]. by destruct (f x). }
  specialize (IH ltac:(intros; apply Hf; by right)). destruct l as [|y l]; [cbn in *; lia|].
  change (join comma (map f (x :: y :: l))) with (f x +:+ comma +:+ join comma (map f (y :: l))).
  rewrite !str_length_app. cbn [length] in *. cbn [String.length]. lia.
Qed.

Lemma value_back v : back v.
Proof.
  induction v as [|b|z|t q|s|l IH|f IH] using json_ind'; intros Hp depth rest Hd Hrest;
    (destruct depth as [|depth]; [cbn in Hd; lia|]); try done.
  - apply literal_back. set_solver.
  - destruct b; apply (literal_back _ _ (JBool _)); set_solver.
  - apply number_value; [by apply int_text|done].
  - change (printed (JFloat t q)) with t. by apply number_value.
  - destruct (dump_scan s rest Hp) as (body & Heq & Hscan).
    change (printed (JStr s)) with (dump_str s). rewrite Heq. cbn [parse_value].
    by rewrite bool_decide_eq_true_2, Hscan.
  - change (printed (JList l)) with ("[" +:+ join comma (map printed l) +:+ "]").
    rewrite !str_app_assoc. change ("]" +:+ rest) with (String "]" rest).
    destruct l as [|v l]; [by cbn|].
    apply readable_list in Hp. pose proof (depth_list _ _ Hd) as Hdl.
    set (body := join comma (map printed (v :: l)) +:+ String "]" rest).
    assert (∃ c t, body = String c t ∧ json_ws c = false ∧ c ≠ "]"%char) as (c & t & Hbody & Hc & Hne).
    { apply Forall_cons_1 in Hp as [Hv _].
      destruct (printed_head v Hv) as (c & t & Heq & Hc & Hne & _).
      unfold body. cbn [map join]. destruct (map printed l);
        rewrite Heq, !str_app_cons; by eexists _, _. }
    change ("[" +:+ body) with (String "["%char body). cbn [parse_value]. unfold dq.
    assert (skip_ws body = body) as -> by (rewrite Hbody; cbn [skip_ws]; by rewrite Hc).
    change (bool_decide ("["%char = ascii_of_N 34)) with false.
    change (bool_decide ("["%char = "["%char)) with true. cbv iota.
    rewrite Hbody at 1. cbv iota beta. rewrite (bool_decide_eq_false_2 (c = "]"%char)) by done.
    unfold body. rewrite elements_back; [done|done|done|done|done|].
    cbn [String.length]. apply le_S, join_size. intros x Hx Hempty.
    rewrite Forall_forall in Hp. destruct (printed_head x (Hp x Hx)) as (? & ? & Heq & _). congruence.
  - change (printed (JObj f)) with ("{" +:+ join comma (map member_text f) +:+ "}").
    rewrite !str_app_assoc. change ("}" +:+ rest) with (String "}" rest).
    destruct f as [|kv f]; [by cbn|].
    apply readable_fields in Hp as [Hok Hp]. pose proof (depth_fields _ _ Hd) as Hdl.
    set (body := join comma (map member_text (kv :: f)) +:+ String "}" rest).
    assert (∃ t, body = String dq t) as (t & Hbody).
    { destruct (member_head kv) as [t Heq]. unfold body. cbn [map join].
      destruct (map member_text f); rewrite Heq, !str_app_cons; by eexists. }
    change ("{" +:+ body) with (String "{"%char body). cbn [parse_value]. unfold dq.
    assert (skip_ws body = body) as -> by by rewrite Hbody.
    change (bool_decide ("{"%char = ascii_of_N 34)) with false.
    change (bool_decide ("{"%char = "["%char)) with false.
    change (bool_decide ("{"%char = "{"%char)) with true. cbv iota.
    rewrite Hbody at 1. cbv iota beta. change (bool_decide (dq = "}"%char)) with false. cbv iota.
    unfold body. rewrite members_back; [by unfold dict_of_pairs; rewrite dfold_id|done|done|done|done|].
    cbn [String.length]. apply le_S, join_size. intros x Hx Hempty.
    destruct (member_head x) as [? Heq]. congruence.
Qed.

Lemma join_depth {A} (f : A → string) (d : A → nat) l :
  (∀ x, x ∈ l → (d x <= String.length (f x))%nat) →
  (foldr (λ x n, Nat.max (d x) n) 0 l <= String.length (join comma (map f l)))%nat.
Proof.
  induction l as [|x l IH]; intros Hl; [cbn; lia|].
  specialize (IH ltac:(intros; apply Hl; by right)). pose proof (Hl x ltac:(left)) as Hx.
  destruct l as [|y l]; [cbn in *; lia|].
  change (join comma (map f (x :: y :: l))) with (f x +:+ comma +:+ join comma (map f (y :: l))).
  rewrite !str_length_app. cbn [foldr] in *. lia.
Qed.

Lemma depth_printed v : readable v → (depth_of v <= String.length (printed v))%nat.
Proof.
  induction v as [|b|z|t q|s|l IH|f IH] using json_ind'; intros Hp.
  1-5: destruct (printed_head _ Hp) as (c & t' & -> & _); cbn; lia.
  - apply readable_list in Hp. change (printed (JList l)) with ("[" +:+ join comma (map printed l) +:+ "]").
    rewrite !str_length_app. cbn [depth_of].
    pose proof (join_depth printed depth_of l) as Hd. rewrite Forall_forall in IH, Hp.
    specialize (Hd (λ x Hx, IH x Hx (Hp x Hx))). cbn [String.length]. lia.
  - apply readable_fields in Hp as [_ Hp].
    change (printed (JObj f)) with ("{" +:+ join comma (map member_text f) +:+ "}").
    rewrite !str_length_app. cbn [depth_of].
    pose proof (join_depth member_text (λ kv, depth_of (snd kv)) f) as Hd. rewrite Forall_forall in IH, Hp.
    assert (∀ x, x ∈ f → (depth_of (snd x) <= String.length (member_text x))%nat) as Hm.
    { intros x Hx. unfold member_text. rewrite !str_length_app.
      specialize (IH x Hx (proj2 (Hp x Hx))). lia. }
    specialize (Hd Hm). cbn [String.length]. lia.
Qed.

Theorem loads_printed v : readable v → loads rf (printed v) = Ret v.
Proof.
  intros Hp. unfold loads. destruct (printed_head v Hp) as (c & t & Heq & _ & _ & Hc).
  assert (startswith (printed v) bom = false) as ->.
  { rewrite Heq. cbn [startswith bom]. change bom with (String (ascii_of_N 239) (byte_of 187 +:+ byte_of 191)).
    cbn [startswith]. by rewrite bool_decide_eq_false_2. }
  pose proof (skip_printed v "" Hp) as Hskip. rewrite str_app_nil_r in Hskip. rewrite Hskip.
  pose proof (value_back v Hp (S (String.length (printed v))) "") as Hback.
  rewrite str_app_nil_r in Hback. rewrite Hback; [done| |done].
  pose proof (depth_printed v Hp). lia.
Qed.

End Spaced.

Lemma space_skipped y : skip_ws (" " +:+ y) = skip_ws y.
Proof. done. Qed.

Lemma nothing_skipped y : skip_ws ("" +:+ y) = skip_ws y.
Proof. done. Qed.

(** Values without floats. *)
Fixpoint plain_json (v : json) : Prop :=
  match v with
  | JNull | JBool _ => True
  | JInt z => short_int z
  | JFloat _ _ => False
  | JStr s => valid_text s
  | JList l => foldr (λ v P, plain_json v ∧ P) True l
  | JObj f => dict_ok f ∧ foldr (λ kv P, (valid_text (fst kv) ∧ plain_json (snd kv)) ∧ P) True f
  end.

Lemma plain_readable rf v : plain_json v → readable rf v.
Proof.
  induction v as [|b|z|t q|s|l IH|f IH] using json_ind'; try done; cbn.
  - induction l as [|v l IHl]; [done|]. apply Forall_cons_1 in IH as [Hv IH].
    intros [Hp Hl]. split; [by apply Hv|by apply IHl].
  - intros [Hok Hf]. split; [done|]. clear Hok. induction f as [|kv f IHf]; [done|].
    apply Forall_cons_1 in IH as [Hv IH]. destruct Hf as [[Hk Hp] Hf].
    split; [split; [done|by apply Hv]|by apply IHf].
Qed.

Lemma plain_printed v : dumps_plain v = printed " " v.
Proof. reflexivity. Qed.

(** What [json.dumps] prints, [json.loads] reads back as it was. *)
Theorem loads_dumps rf v : readable rf v → loads rf (dumps_plain v) = Ret v.
Proof. rewrite plain_printed. apply loads_printed, space_skipped. Qed.

(** ** The compact printer sorts the keys *)

Definition key_text_le (x y : string * json) : Prop := String.leb (fst x) (fst y) = true.
#[export] Instance key_text_le_dec : RelDecision key_text_le.
Proof. intros x y. unfold key_text_le. apply _. Defined.

Fixpoint sorted_json (v : json) : json :=
  match v with
  | JList l => JList (map sorted_json l)
  | JObj f => JObj (merge_sort key_text_le (map (λ kv, (fst kv, sorted_json (snd kv))) f))
  | _ => v
  end.

Section MergeMap.
Context {A B} (R : relation A) (R' : relation B) `{!RelDecision R, !RelDecision R'}.
Context (g : A → B) (Hg : ∀ x y, R x y ↔ R' (g x) (g y)).

Lemma list_merge_map l1 l2 : list_merge R' (map g l1) (map g l2) = map g (list_merge R l1 l2).
Proof.
  revert l2. induction l1 as [|x1 l1 IH1]; intros l2; [by destruct l2|].
  induction l2 as [|x2 l2 IH2]; [done|]. cbn [map]. rewrite !list_merge_cons.
  destruct (decide (R x1 x2)) as [Hr|Hr].
  - rewrite decide_True by by apply Hg. cbn [map]. f_equal. apply (IH1 (x2 :: l2)).
  - rewrite decide_False by by rewrite <- Hg. cbn [map]. f_equal. exact IH2.
Qed.

Notation mapped := (map (option_map (map g))).

Lemma merge_list_to_stack_map st l :
  merge_list_to_stack R' (mapped st) (map g l) = mapped (merge_list_to_stack R st l).
Proof.
  revert l. induction st as [|[l'|] st IH]; intros l; [done| |done].
  cbn [map option_map merge_list_to_stack]. f_equal. by rewrite list_merge_map, IH.
Qed.

Lemma merge_stack_map st : merge_stack R' (mapped st) = map g (merge_stack R st).
Proof.
  induction st as [|[l'|] st IH]; [done| |exact IH].
  cbn [map option_map merge_stack]. by rewrite IH, list_merge_map.
Qed.

Lemma merge_sort_map l : merge_sort R' (map g l) = map g (merge_sort R l).
Proof.
  unfold merge_sort. change [] with (mapped []) at 1. generalize (@nil (option (list A))).
  induction l as [|x l IH]; intros st; [apply merge_stack_map|].
  cbn [map merge_sort_aux]. change [g x] with (map g [x]). by rewrite merge_list_to_stack_map, IH.
Qed.
End MergeMap.

Lemma dumps_printed v : dumps v = printed "" (sorted_json v).
Proof.
  induction v as [|b|z|t q|s|l IH|f IH] using json_ind'; try done.
  - change (dumps (JList l)) with ("[" +:+ join "," (map dumps l) +:+ "]").
    change (printed "" (sorted_json (JList l)))
      with ("[" +:+ join "," (map (printed "") (map sorted_json l)) +:+ "]").
    rewrite map_map. by rewrite (List.map_ext_Forall _ _ IH).
  - change (dumps (JObj f)) with ("{" +:+ join "," (map snd (merge_sort obj_key_le
      (map (λ kv, (fst kv, dump_str (fst kv) +:+ ":" +:+ dumps (snd kv))) f))) +:+ "}").
    change (printed "" (sorted_json (JObj f))) with ("{" +:+ join "," (map (member_text "")
      (merge_sort key_text_le (map (λ kv, (fst kv, sorted_json (snd kv))) f))) +:+ "}").
    assert (map (λ kv, (fst kv, dump_str (fst kv) +:+ ":" +:+ dumps (snd kv))) f
      = map (λ kv, (fst kv, member_text "" kv)) (map (λ kv, (fst kv, sorted_json (snd kv))) f)) as ->.
    { rewrite map_map. apply List.map_ext_Forall. eapply Forall_impl; [exact IH|].
      intros kv Hkv. cbn. unfold member_text. cbn. by rewrite Hkv. }
    rewrite (merge_sort_map key_text_le obj_key_le (λ kv, (fst kv, member_text "" kv)) (λ x y, iff_refl _)), map_map.
    done.
Qed.

Lemma sorted_readable rf v : readable rf v → readable rf (sorted_json v).
Proof.
  induction v as [|b|z|t q|s|l IH|f IH] using json_ind'; try done; intros Hp.
  - apply readable_list in Hp. cbn. induction l as [|v l IHl]; [done|].
    apply Forall_cons_1 in IH as [Hv IH], Hp as [Hpv Hp]. cbn. split; [by apply Hv|by apply IHl].
  - apply readable_fields in Hp as [Hok Hp]. cbn.
    pose proof (merge_sort_Permutation key_text_le (map (λ kv, (fst kv, sorted_json (snd kv))) f)) as Hperm.
    assert (Forall (λ kv, valid_text (fst kv) ∧ readable rf (snd kv))
              (map (λ kv, (fst kv, sorted_json (snd kv))) f)) as Hall.
    { apply Forall_map. rewrite Forall_forall in *. intros kv Hkv. cbn.
      destruct (Hp kv Hkv) as [Hk Hv]. split; [done|]. by apply IH. }
    split.
    + unfold dict_ok in *. rewrite Hperm. by rewrite <- list_fmap_compose.
    + rewrite <- Hperm in Hall. clear Hperm. by induction Hall.
Qed.

(** [json.loads] of the compact text gives the value with its keys sorted. *)
Theorem loads_compact rf v : readable rf v → loads rf (dumps v) = Ret (sorted_json v).
Proof. rewrite dumps_printed. intros Hv. apply loads_printed; [apply nothing_skipped|by apply sorted_readable]. Qed.

Lemma get_perm k f f' : dict_ok f → f ≡ₚ f' → get k f = get k f'.
Proof.
  unfold dict_ok. intros Hok Hperm. revert Hok. induction Hperm as [|x f f' _ IH|x y f|f1 f2 f3 H12 IH1 H23 IH2].
  - done.
  - intros [_ Hok]%NoDup_cons. cbn. destruct x as [k' v]. by rewrite IH.
  - intros [Hy _]%NoDup_cons. cbn. destruct x as [kx vx], y as [ky vy]. cbn in *.
    repeat case_bool_decide; try done. subst. set_solver.
  - intros Hok. rewrite IH1 by done. apply IH2. by rewrite <- H12.
Qed.

(** Sorting keeps what a key holds. *)
Lemma get_sorted k f : dict_ok f →
  ∃ f', sorted_json (JObj f) = JObj f' ∧ get k f' = sorted_json <$> get k f.
Proof.
  intros Hok. eexists. split; [reflexivity|].
  rewrite <- (get_perm k (map (λ kv, (fst kv, sorted_json (snd kv))) f)); [..|by rewrite merge_sort_Permutation].
  - clear Hok. induction f as [|[k' v] f IH]; [done|]. cbn. rewrite IH. by case_bool_decide.
  - unfold dict_ok in *. by rewrite <- list_fmap_compose.
Qed.

Lemma ascii_valid s : is_ascii s = true → valid_text s.
Proof.
  unfold is_ascii. induction s as [|c s IH]; intros Hs; [by exists []|].
  cbn [all_chars] in Hs. apply andb_true_iff in Hs as [Hc Hs]. apply N.ltb_lt in Hc.
  destruct (IH Hs) as (cps & Hcps & ->). exists (N_of_ascii c :: cps). split.
  - constructor; [left; lia|done].
  - cbn [text_of foldr]. unfold utf8. rewrite (proj2 (N.ltb_lt _ _)) by done. unfold byte_of.
    by rewrite ascii_N_embedding.
Qed.

(** A test for [plain_json], on ASCII texts. *)
Fixpoint plainb (v : json) : bool :=
  match v with
  | JNull | JBool _ => true
  | JInt z => (String.length (pretty z) <=? max_str_digits)%nat
  | JFloat _ _ => false
  | JStr s => is_ascii s
  | JList l => forallb plainb l
  | JObj f => bool_decide (NoDup (fst <$> f)) && forallb (λ kv, is_ascii (fst kv) && plainb (snd kv)) f
  end.

Lemma plainb_plain v : plainb v = true → plain_json v.
Proof.
  induction v as [|b|z|t q|s|l IH|f IH] using json_ind'; try done; cbn.
  - intros Hz. by apply Nat.leb_le.
  - apply ascii_valid.
  - induction l as [|v l IHl]; [done|]. apply Forall_cons_1 in IH as [Hv IH]. cbn.
    intros [Hp Hl]%andb_true_iff. split; [by apply Hv|by apply IHl].
  - intros [Hok%bool_decide_eq_true Hf]%andb_true_iff. split; [done|]. clear Hok.
    induction f as [|kv f IHf]; [done|]. apply Forall_cons_1 in IH as [Hv IH]. cbn in Hf.
    apply andb_true_iff in Hf as [[Hk Hp]%andb_true_iff Hf].
    split; [split; [by apply ascii_valid|by apply Hv]|by apply IHf].
Qed.

Definition loads_demo : json :=
  JObj [("b", JList [JInt (-120); JInt 0; JNull; JObj []]); ("é😀", JStr "a\ \n✓"); ("", JBool true)].

Example loads_demo_back : loads (λ t, JStr t) (dumps_plain loads_demo) = Ret loads_demo.
Proof. vm_compute. reflexivity. Qed.

Example refused_texts :
  loads (λ t, JStr t) <$> ["[1,]"; "01"; "[-]"; "1 2"; "nul"; "[1.]"; ""] = replicate 7 (Raise ValueError).
Proof. vm_compute. reflexivity. Qed.

Example spaced_text : loads (λ t, JStr t) " [ 1.5e3 , -0 ] " = Ret (JList [JStr "1.5e3"; JInt 0]).
Proof. vm_compute. reflexivity. Qed.

(** ** [bytes.decode("utf-8")]

    Whether a byte string is well-formed UTF-8: no overlong form, no
    surrogate, nothing above U+10FFFF.  [lo] and [hi] bound the next
    continuation byte. *)
Fixpoint utf8_ok (pending : nat) (lo hi : N) (s : string) : bool :=
  match s with
  | EmptyString => (pending =? 0)%nat
  | String c s' =>
      let b := N_of_ascii c in
      match pending with
      | S p => (lo <=? b)%N && (b <=? hi)%N && utf8_ok p 128 191 s'
      | O =>
          if (b <? 128)%N then utf8_ok 0 128 191 s'
          else if (b <? 194)%N then false
          else if (b <? 224)%N then utf8_ok 1 128 191 s'
          else if (b =? 224)%N then utf8_ok 2 160 191 s'
          else if (b =? 237)%N then utf8_ok 2 128 159 s'
          else if (b <? 240)%N then utf8_ok 2 128 191 s'
          else if (b =? 240)%N then utf8_ok 3 144 191 s'
          else if (b <? 244)%N then utf8_ok 3 128 191 s'
          else if (b =? 244)%N then utf8_ok 3 128 143 s'
          else false
      end
  end.

Lemma ascii_utf8_ok s : is_ascii s = true → utf8_ok 0 128 191 s = true.
Proof.
  unfold is_ascii. induction s as [|c s IH]; [done|]. cbn [all_chars utf8_ok].
  intros [-> Hs]%andb_true_iff. by apply IH.
Qed.

(** [json.dumps] prints ASCII only. *)
Lemma all_chars_join p sep l :
  all_chars p sep = true → Forall (λ s, all_chars p s = true) l → all_chars p (join sep l) = true.
Proof.
  intros Hsep. induction 1 as [|x l Hx Hl IH]; [done|]. destruct l as [|y l]; [done|].
  change (join sep (x :: y :: l)) with (x +:+ sep +:+ join sep (y :: l)).
  by rewrite !all_chars_app, Hx, Hsep, IH.
Qed.

Lemma hex_digit_ascii d : (d < 16)%N → (N_of_ascii (hex_digit d) <? 128)%N = true.
Proof. intros Hd. unfold hex_digit. apply N.ltb_lt. destruct (N.ltb_spec d 10); rewrite ascii_N; lia. Qed.

Lemma escape_code_ascii n : is_ascii (escape_code n) = true.
Proof.
  assert (∀ m, is_ascii (u_escape m) = true) as Hu.
  { intros m. unfold u_escape, hex4, is_ascii. rewrite all_chars_app. cbn [all_chars].
    rewrite !nibble. replace (N.land m 15) with (m mod 16)%N
      by (change 15%N with (N.ones 4); by rewrite N.land_ones).
    by rewrite !hex_digit_ascii by (by apply N.mod_lt). }
  unfold escape_code. repeat case_match; try done.
  - unfold is_ascii. cbn [all_chars]. match goal with H : _ && _ = true |- _ =>
      apply andb_true_iff in H as [?%N.leb_le ?%N.leb_le] end.
    rewrite ascii_N, (proj2 (N.ltb_lt _ _)) by lia. done.
  - unfold is_ascii in *. by rewrite all_chars_app, !Hu.
Qed.

Lemma escape_ascii p a s : is_ascii (escape_utf8 p a s) = true.
Proof.
  unfold is_ascii. revert p a. induction s as [|c s IH]; intros p a; [done|]. cbn [escape_utf8].
  repeat case_match; rewrite ?all_chars_app, ?IH, ?andb_true_r; try done; apply escape_code_ascii.
Qed.

Lemma dump_str_ascii s : is_ascii (dump_str s) = true.
Proof.
  pose proof (escape_ascii 0 0 s) as Hs. unfold dump_str, is_ascii in *. by rewrite !all_chars_app, Hs.
Qed.

Lemma dumps_plain_ascii v : plain_json v → is_ascii (dumps_plain v) = true.
Proof.
  induction v as [|b|z|t q|s|l IH|f IH] using json_ind'; intros Hp; try done.
  - by destruct b.
  - unfold is_ascii. eapply all_chars_weaken; [|apply (pretty_Z_numeral z)].
    intros c. unfold numeralb. rewrite orb_true_iff, bool_decide_eq_true.
    intros [Hc| ->]; [|done]. by destruct c as [[] [] [] [] [] [] [] []].
  - apply dump_str_ascii.
  - apply foldr_and in Hp. change (dumps_plain (JList l)) with ("[" +:+ join ", " (map dumps_plain l) +:+ "]").
    unfold is_ascii. rewrite !all_chars_app, all_chars_join; [done|done|].
    apply Forall_map. rewrite Forall_forall in *. intros x Hx. by apply IH, Hp.
  - destruct Hp as [_ Hp%foldr_and].
    change (dumps_plain (JObj f)) with ("{" +:+ join ", " (map (member_text " ") f) +:+ "}").
    unfold is_ascii. rewrite !all_chars_app, all_chars_join; [done|done|].
    apply Forall_map. rewrite Forall_forall in *. intros x Hx. cbn. unfold member_text.
    pose proof (dump_str_ascii (fst x)) as Hk. unfold is_ascii in Hk. rewrite !all_chars_app, Hk.
    cbn. apply IH; [done|]. by apply Hp.
Qed.
