(* ===== verification/LocalAudit.v ===== *)
(** * The per-organisation audit chain

    [mcp_proxy/local/audit_chain.py] (the canonical forms) and
    [mcp_proxy/local/audit.py] ([append_local_audit], [verify_local_chain]).
    The [local_audit] table is the list of its rows in commit order under
    [UNIQUE(org_id, chain_seq)]; every organisation has a chain of its own,
    whose first row links to nothing ([NULL]).  The instants are the values of
    an [IsoFormat]; the per-organisation lock only removes interleavings
    inside one process and is not modelled. *)

From S2P Require Import Prelude Sha256 HashChain IsoTime Json.

Open Scope Z_scope.

Definition SYSTEM_ORG : string := "__system__".
Definition HASH_FORMAT_V1 : string := "v1".
Definition HASH_FORMAT_V2 : string := "v2".
Definition _MAX_CHAIN_RETRIES : nat := 5.
Definition AUDIT_DETAILS_MAX_BYTES : Z := 16 * 1024.

Record local_row := {
  id : Z;
  timestamp : string;
  event_type : string;
  agent_id : option string;
  session_id : option string;
  org_id : option string;
  details : option string;
  result : string;
  previous_hash : option string;
  chain_seq : option Z;
  peer_org_id : option string;
  entry_hash : option string;
  hash_format : option string;
}.

Definition seq_of (r : local_row) : Z := default 0 (chain_seq r).
Definition chained (r : local_row) : bool :=
  match chain_seq r with Some _ => true | None => false end.

(** [WHERE org_id = :org_id AND chain_seq IS NOT NULL] *)
Definition in_org (org : string) (r : local_row) : bool :=
  bool_decide (org_id r = Some org) && chained r.
Definition org_filter (org : string) (t : list local_row) : list local_row :=
  List.filter (in_org org) t.
(** [... ORDER BY chain_seq ASC] *)
Definition org_rows (org : string) (t : list local_row) : list local_row :=
  order_by seq_of (org_filter org t).
(** [... ORDER BY chain_seq DESC LIMIT 1] *)
Definition head_entry (org : string) (t : list local_row) : option local_row :=
  last (org_rows org t).

Definition _enforce_details_size (d : option string) : outcome unit :=
  match d with
  | None => Ret tt
  | Some s =>
      if AUDIT_DETAILS_MAX_BYTES <? Z.of_nat (String.length s) then Raise RuntimeError else Ret tt
  end.

Section Local.
Context `{Hash} `{IsoFormat}.

(** ** The canonical forms *)

Definition canonical_entry (entry_id : Z) (ts : datetime) (ev : string)
    (agent session org : option string) (res : string) (det prev : option string)
    (seq : option Z) (peer : option string) : string :=
  let base :=
    join "|" [pretty entry_id; isoformat ts; ev; or_empty agent; or_empty session; or_empty org;
              res; or_empty det; or_default "genesis" prev] in
  match seq with
  | None => base
  | Some s => join "|" [base; "seq=" +:+ pretty s; "peer=" +:+ or_empty peer]
  end.

Definition canonical_entry_v2 (ts : datetime) (ev : string) (agent session org : option string)
    (res : string) (det prev : option string) (seq : Z) (peer : option string) : string :=
  join "|" ["v2"; isoformat ts; ev; or_empty agent; or_empty session; or_empty org;
            res; or_empty det; or_default "genesis" prev;
            "seq=" +:+ pretty seq; "peer=" +:+ or_empty peer].

Definition compute_entry_hash (entry_id : Z) (ts : datetime) (ev : string)
    (agent session org : option string) (res : string) (det prev : option string)
    (seq : option Z) (peer : option string) : string :=
  hexdigest (canonical_entry entry_id ts ev agent session org res det prev seq peer).

Definition compute_entry_hash_v2 (ts : datetime) (ev : string) (agent session org : option string)
    (res : string) (det prev : option string) (seq : Z) (peer : option string) : string :=
  hexdigest (canonical_entry_v2 ts ev agent session org res det prev seq peer).

(** ** [append_local_audit] *)

(** One attempt of the retry loop: what other connections commit between the
    head read and the INSERT, the instant [datetime.now] returns, and the
    primary key the database assigns; or the database fails. *)
Inductive local_event :=
| LUp (others : list local_row) (now : datetime) (row_id : Z)
| LDown.

(** The INSERT under [UNIQUE(org_id, chain_seq)]. *)
Definition taken (org : string) (seq : Z) (t : list local_row) : bool :=
  existsb (λ r, bool_decide (org_id r = Some org) && bool_decide (chain_seq r = Some seq)) t.

Definition insert_local (r : local_row) (t : list local_row) : outcome (list local_row) :=
  match org_id r, chain_seq r with
  | Some org, Some seq => if taken org seq t then Raise IntegrityError else Ret (t ++ [r])
  | _, _ => Ret (t ++ [r])
  end.

Record local_call := {
  c_event_type : string; c_result : string;
  c_agent_id : option string; c_session_id : option string; c_org_id : option string;
  c_details : option (list (string * json));
}.

Record summary := {
  s_id : Z; s_chain_seq : Z; s_entry_hash : string; s_previous_hash : option string;
}.

Definition chain_org (c : local_call) : string := or_default SYSTEM_ORG (c_org_id c).

(** [json.dumps(details, ...) if details else None] *)
Definition details_json (c : local_call) : option string :=
  match c_details c with
  | Some ((_ :: _) as d) => Some (dumps (JObj d))
  | _ => None
  end.

Definition local_entry (c : local_call) (prev : option string) (seq : Z) (now : datetime)
    (row_id : Z) : local_row :=
  {| id := row_id; timestamp := _iso now; event_type := c_event_type c;
     agent_id := c_agent_id c; session_id := c_session_id c; org_id := Some (chain_org c);
     details := details_json c; result := c_result c; previous_hash := prev;
     chain_seq := Some seq; peer_org_id := None;
     entry_hash := Some (compute_entry_hash_v2 now (c_event_type c) (c_agent_id c)
                           (c_session_id c) (Some (chain_org c)) (c_result c)
                           (details_json c) prev seq None);
     hash_format := Some HASH_FORMAT_V2 |}.

Definition next_link (org : string) (t : list local_row) : option string * Z :=
  match head_entry org t with
  | Some h => (entry_hash h, seq_of h + 1)
  | None => (None, 0 + 1)
  end.

Definition summarise (r : local_row) : summary :=
  {| s_id := id r; s_chain_seq := seq_of r; s_entry_hash := or_empty (entry_hash r);
     s_previous_hash := previous_hash r |}.

Fixpoint local_attempts (c : local_call) (evs : list local_event) (t : list local_row)
    : outcome summary * list local_row :=
  match evs with
  | [] => (Raise RuntimeError, t)
  | LDown :: _ => (Raise OperationalError, t)
  | LUp others now row_id :: evs' =>
      let '(prev, new_seq) := next_link (chain_org c) t in
      let r := local_entry c prev new_seq now row_id in
      let t' := t ++ others in
      match insert_local r t' with
      | Ret t'' => (Ret (summarise r), t'')
      | Raise IntegrityError => local_attempts c evs' t'
      | Raise e => (Raise e, t')
      end
  end.

Definition append_local_audit (c : local_call) (env : nat → local_event) (t : list local_row)
    : outcome summary * list local_row :=
  match _enforce_details_size (details_json c) with
  | Raise e => (Raise e, t)
  | Ret _ => local_attempts c (env <$> seq 0 _MAX_CHAIN_RETRIES) t
  end.

(** ** [verify_local_chain] *)

Inductive local_break :=
| LinkMismatch (seq : option Z)
| EntryHashMismatch (row_id : Z) (seq : option Z).

Definition read_timestamp (r : local_row) : outcome datetime :=
  let! ts := fromisoformat (timestamp r) in
  Ret (if aware ts then ts else replace_utc ts).

Definition row_v2 (r : local_row) : bool :=
  bool_decide (or_default HASH_FORMAT_V1 (hash_format r) = HASH_FORMAT_V2).

(** The text the verifier recomputes for a row it has read the instant of. *)
Definition entry_text (ts : datetime) (r : local_row) : string :=
  if row_v2 r then
    canonical_entry_v2 ts (event_type r) (agent_id r) (session_id r) (org_id r) (result r)
      (details r) (previous_hash r) (seq_of r) (peer_org_id r)
  else
    canonical_entry (id r) ts (event_type r) (agent_id r) (session_id r) (org_id r) (result r)
      (details r) (previous_hash r) (chain_seq r) (peer_org_id r).

Fixpoint verify_entries (expected_prev : option string) (rows : list local_row)
    : outcome (bool * option local_break) :=
  match rows with
  | [] => Ret (true, None)
  | r :: rest =>
      let! ts := read_timestamp r in
      if negb (bool_decide (previous_hash r = expected_prev))
      then Ret (false, Some (LinkMismatch (chain_seq r)))
      else if negb (bool_decide (Some (hexdigest (entry_text ts r)) = entry_hash r))
      then Ret (false, Some (EntryHashMismatch (id r) (chain_seq r)))
      else verify_entries (entry_hash r) rest
  end.

Definition verify_local_chain (org : string) (t : list local_row)
    : outcome (bool * option local_break) := verify_entries None (org_rows org t).
End Local.

(** ** What a table of chains is *)

Section LocalLemmas.
Context `{Hash} `{IsoFormat}.

Definition row_text (r : local_row) : string :=
  match read_timestamp r with Ret ts => entry_text ts r | Raise _ => "" end.

Definition readable (r : local_row) : Prop := is_ret (read_timestamp r) = true.

Abbreviation entries_from := (linked row_text previous_hash entry_hash).

Lemma verify_entries_linked prev rows :
  verify_entries prev rows = Ret (true, None) ↔ Forall readable rows ∧ entries_from prev rows.
Proof.
  revert prev. induction rows as [|r rows IH]; intros prev; simpl.
  { split; [|done]. split; constructor. }
  unfold readable, row_text at 1. destruct (read_timestamp r) as [ts|e] eqn:Hts; simpl.
  2: { split; [done|]. intros [[Hr _]%Forall_cons_1 _]. unfold readable in Hr. by rewrite Hts in Hr. }
  split.
  - case_bool_decide as Hp; [|done]. case_bool_decide as Hh; [|done]. simpl.
    intros [Hr Hl]%IH. split; constructor; try done.
    + unfold readable. by rewrite Hts.
    + unfold row_text. by rewrite Hts.
  - intros [[_ Hr]%Forall_cons_1 Hl]. inversion_clear Hl as [|??? Hp Hh Hrest].
    unfold row_text in Hh. rewrite Hts in Hh.
    rewrite !bool_decide_eq_true_2 by done. by apply IH.
Qed.

(** One organisation's rows, in commit order: consecutive positions from 1,
    linked from [NULL], instants that parse. *)
Definition org_ok (org : string) (t : list local_row) : Prop :=
  numbered seq_of 1 (org_filter org t) ∧ entries_from None (org_filter org t) ∧
  Forall readable (org_filter org t).

Definition local_ok (t : list local_row) : Prop := ∀ org, org_ok org t.

Lemma org_filter_app org t t' : org_filter org (t ++ t') = org_filter org t ++ org_filter org t'.
Proof. apply List.filter_app. Qed.

Lemma org_rows_filter org t : org_ok org t → org_rows org t = org_filter org t.
Proof. intros [Hn _]. apply order_by_strict; [by eapply numbered_strict|done]. Qed.

Lemma org_ok_verifies org t : org_ok org t → verify_local_chain org t = Ret (true, None).
Proof.
  intros Hok. unfold verify_local_chain. rewrite org_rows_filter by done.
  apply verify_entries_linked. by destruct Hok as (_ & ? & ?).
Qed.

(** ** The next link and the unique index *)

Lemma next_link_spec org t :
  org_ok org t →
  next_link org t =
    (last_stored entry_hash None (org_filter org t), Z.of_nat (length (org_filter org t)) + 1).
Proof.
  intros Hok. unfold next_link, head_entry. rewrite org_rows_filter by done.
  destruct Hok as [Hn _]. destruct (org_filter org t) as [|r l _] using rev_ind; [done|].
  rewrite last_snoc, last_stored_snoc, length_app.
  apply numbered_app in Hn as [_ [-> _]]. simpl. f_equal. lia.
Qed.

Lemma taken_spec org seq t : taken org seq t = true ↔ ∃ r, r ∈ org_filter org t ∧ seq_of r = seq.
Proof.
  unfold taken, org_filter. rewrite existsb_exists. split.
  - intros (r & Hr & Hb). bools. exists r. rewrite elem_of_filter_bool, list_elem_of_In.
    unfold in_org, chained, seq_of. rewrite H1, H2. split_and!; try done.
    by rewrite bool_decide_eq_true_2.
  - intros (r & Hr & Hs). rewrite elem_of_filter_bool, list_elem_of_In in Hr.
    destruct Hr as [Hr Hin]. exists r. split; [done|]. unfold in_org, chained, seq_of in *. bools.
    destruct (chain_seq r); [|done]. simpl in Hs. subst. by rewrite !bool_decide_eq_true_2.
Qed.

Lemma read_own_timestamp now : utc_datetime now → fromisoformat (_iso now) = Ret now ∧ aware now = true.
Proof.
  intros Hu. split; [|by apply utc_aware]. unfold _iso. rewrite utc_aware by done. by apply from_to_iso.
Qed.

Lemma local_entry_text c prev seq now row_id :
  utc_datetime now →
  read_timestamp (local_entry c prev seq now row_id) = Ret now ∧
  row_text (local_entry c prev seq now row_id) =
    canonical_entry_v2 now (c_event_type c) (c_agent_id c) (c_session_id c) (Some (chain_org c))
      (c_result c) (details_json c) prev seq None.
Proof.
  intros Hu. destruct (read_own_timestamp now Hu) as [Hr Ha].
  assert (read_timestamp (local_entry c prev seq now row_id) = Ret now) as Hread.
  { unfold read_timestamp. simpl. rewrite Hr. simpl. by rewrite Ha. }
  split; [done|]. unfold row_text. by rewrite Hread.
Qed.

Lemma local_entry_in_org org c prev seq now row_id :
  in_org org (local_entry c prev seq now row_id) = bool_decide (chain_org c = org).
Proof. unfold in_org. simpl. rewrite andb_true_r. apply bool_decide_ext. naive_solver. Qed.

(** An INSERT at the head extends the chain of its organisation and leaves the
    others alone. *)
Lemma insert_at_org_head c now row_id t :
  local_ok t → utc_datetime now →
  let '(prev, seq) := next_link (chain_org c) t in
  let r := local_entry c prev seq now row_id in
  insert_local r t = Ret (t ++ [r]) ∧ local_ok (t ++ [r]).
Proof.
  intros Hok Hu. rewrite next_link_spec by done. cbv zeta. split.
  - unfold insert_local. simpl.
    match goal with |- context [taken ?o ?s ?t] => destruct (taken o s t) eqn:Ht end; [|done].
    apply taken_spec in Ht as (r & Hr & Hs). destruct (Hok (chain_org c)) as [Hn _].
    pose proof (numbered_bound _ _ _ _ Hn Hr). lia.
  - intros org. specialize (Hok org) as (Hn & Hl & Hr).
    set (r := local_entry c _ _ now row_id).
    unfold org_ok. rewrite org_filter_app. unfold org_filter at 2 4 6. simpl List.filter.
    unfold r at 1 3 5. rewrite local_entry_in_org.
    case_bool_decide as Ho; [|by rewrite app_nil_r]. subst org.
    destruct (local_entry_text c (last_stored entry_hash None (org_filter (chain_org c) t))
                (Z.of_nat (length (org_filter (chain_org c) t)) + 1) now row_id Hu) as [Hread Htext].
    split_and!.
    + apply numbered_app. split; [done|]. simpl. split; [unfold seq_of; simpl; lia|done].
    + apply linked_snoc. split; [done|]. split; [done|]. unfold r. by rewrite Htext.
    + apply Forall_app. split; [done|]. constructor; [|done]. unfold readable, r. by rewrite Hread.
Qed.

Lemma insert_behind_head c now row_id t others :
  local_ok t → local_ok (t ++ others) → org_filter (chain_org c) others ≠ [] →
  let '(prev, seq) := next_link (chain_org c) t in
  insert_local (local_entry c prev seq now row_id) (t ++ others) = Raise IntegrityError.
Proof.
  intros Hok Hok' Hne. rewrite next_link_spec by done. unfold insert_local. simpl.
  match goal with |- context [taken ?o ?s ?t] => assert (taken o s t = true) as -> end; [|done].
  apply taken_spec. destruct (Hok' (chain_org c)) as [Hn _]. rewrite org_filter_app in *.
  eapply numbered_used; [done|]. rewrite length_app.
  destruct (org_filter (chain_org c) others); [done|]. simpl. lia.
Qed.

Lemma insert_past_others c now row_id t others :
  local_ok t → local_ok (t ++ others) → org_filter (chain_org c) others = [] → utc_datetime now →
  let '(prev, seq) := next_link (chain_org c) t in
  let r := local_entry c prev seq now row_id in
  insert_local r (t ++ others) = Ret ((t ++ others) ++ [r]) ∧ local_ok ((t ++ others) ++ [r]).
Proof.
  intros Hok Hok' Hnil Hu. pose proof (insert_at_org_head c now row_id _ Hok' Hu) as Hi.
  rewrite next_link_spec in Hi by done. rewrite next_link_spec by done.
  by rewrite org_filter_app, Hnil, app_nil_r in Hi.
Qed.
End LocalLemmas.

(** ** What an append does *)

Section Append.
Context `{Hash} `{IsoFormat}.

(** The other connections are writers of the same program, and the clock
    returns aware UTC instants. *)
Fixpoint local_benign (evs : list local_event) (t : list local_row) : Prop :=
  match evs with
  | [] | LDown :: _ => True
  | LUp others now _ :: evs' =>
      local_ok (t ++ others) ∧ utc_datetime now ∧ local_benign evs' (t ++ others)
  end.

Definition lost_race (org : string) (ev : local_event) : Prop :=
  match ev with LUp others _ _ => org_filter org others ≠ [] | LDown => False end.

(** The row of [c] that an attempt of [evs] inserted, as the summary says. *)
Definition entry_of (c : local_call) (r : local_row) : Prop :=
  event_type r = c_event_type c ∧ result r = c_result c ∧ agent_id r = c_agent_id c ∧
  session_id r = c_session_id c ∧ org_id r = Some (chain_org c) ∧ details r = details_json c ∧
  hash_format r = Some HASH_FORMAT_V2.

Definition append_post (c : local_call) (evs : list local_event) (t : list local_row)
    (res : outcome summary * list local_row) : Prop :=
  local_ok res.2 ∧
  ∃ others,
    match res.1 with
    | Ret s => ∃ r, res.2 = t ++ others ++ [r] ∧ entry_of c r ∧ s = summarise r
    | Raise OperationalError => LDown ∈ evs ∧ res.2 = t ++ others
    | Raise e => e = RuntimeError ∧ Forall (lost_race (chain_org c)) evs ∧ res.2 = t ++ others
    end.

Lemma local_attempts_spec c evs t :
  local_ok t → local_benign evs t → append_post c evs t (local_attempts c evs t).
Proof.
  revert t. induction evs as [|[others now row_id|] evs IH]; intros t Hok Hben.
  - split; [done|]. exists []. rewrite app_nil_r. by repeat constructor.
  - cbn [local_benign local_attempts] in *. destruct Hben as (Hok' & Hu & Hben).
    destruct (decide (org_filter (chain_org c) others = [])) as [Hnil|Hne].
    + pose proof (insert_past_others c now row_id t others Hok Hok' Hnil Hu) as Hi.
      destruct (next_link (chain_org c) t) as [prev new_seq]. destruct Hi as [-> Hi].
      split; [done|]. exists others. eexists. by rewrite <- app_assoc.
    + pose proof (insert_behind_head c now row_id t others Hok Hok' Hne) as Hi.
      destruct (next_link (chain_org c) t) as [prev new_seq]. rewrite Hi.
      specialize (IH _ Hok' Hben). destruct (local_attempts c evs _) as [res t'].
      destruct IH as [Hc [o Ho]]. split; [done|]. exists (others ++ o). simpl in *.
      destruct res as [s|e]; [destruct Ho as (r & -> & ?); exists r; by rewrite !app_assoc|].
      destruct e; rewrite app_assoc; destruct_and? Ho; try done; split_and!; try done; set_solver.
  - split; [done|]. exists []. simpl. rewrite app_nil_r. split; [left|done].
Qed.

Lemma failed_attempts c env (t others t' : list local_row) (e : exn) :
  match e with
  | OperationalError => LDown ∈ (env <$> seq 0 _MAX_CHAIN_RETRIES) ∧ t' = t ++ others
  | e => e = RuntimeError ∧
         Forall (lost_race (chain_org c)) (env <$> seq 0 _MAX_CHAIN_RETRIES) ∧ t' = t ++ others
  end →
  (∃ others, (Raise e : outcome summary) = Raise RuntimeError ∧ t' = t ++ others ∧
     ∀ n, (n < 5)%nat → lost_race (chain_org c) (env n)) ∨
  (∃ others n, (Raise e : outcome summary) = Raise OperationalError ∧ t' = t ++ others ∧
     (n < 5)%nat ∧ env n = LDown).
Proof.
  intros Hpost. destruct (decide (e = OperationalError)) as [->|Hne].
  - right. destruct Hpost as [(n & Hn & Hin)%list_elem_of_fmap ->].
    apply elem_of_seq in Hin. unfold _MAX_CHAIN_RETRIES in Hin.
    exists others, n. split_and!; [done|done|lia|done].
  - left. exists others. assert (e = RuntimeError ∧
      Forall (lost_race (chain_org c)) (env <$> seq 0 _MAX_CHAIN_RETRIES) ∧ t' = t ++ others)
      as (-> & Hall & ->) by (by destruct e).
    split_and!; [done|done|]. intros n Hn. rewrite Forall_fmap, Forall_forall in Hall.
    apply (Hall n). apply elem_of_seq. unfold _MAX_CHAIN_RETRIES. lia.
Qed.

Lemma append_local_audit_spec c env t :
  local_ok t → local_benign (env <$> seq 0 _MAX_CHAIN_RETRIES) t →
  local_ok (append_local_audit c env t).2.
Proof.
  intros Hok Hben. unfold append_local_audit. destruct (_enforce_details_size _); [|done].
  by apply local_attempts_spec.
Qed.
End Append.

(** ** What the canonical text determines *)

Section LocalTamper.
Context `{Hash} `{IsoFormat}.

(** Every hashed field but the free-form [details] is free of the separator. *)
Definition clean_entry (r : local_row) : Prop :=
  match read_timestamp r with
  | Ret ts =>
      Forall no_pipe [isoformat ts; event_type r; or_empty (agent_id r); or_empty (session_id r);
                      or_empty (org_id r); result r; or_empty (peer_org_id r)]
  | Raise _ => False
  end.

Definition same_entry (r r' : local_row) : Prop :=
  row_v2 r = row_v2 r' ∧ (row_v2 r = false → id r = id r') ∧
  (let! ts := read_timestamp r in Ret (isoformat ts))
    = (let! ts := read_timestamp r' in Ret (isoformat ts)) ∧
  event_type r = event_type r' ∧ or_empty (agent_id r) = or_empty (agent_id r') ∧
  or_empty (session_id r) = or_empty (session_id r') ∧
  or_empty (org_id r) = or_empty (org_id r') ∧ result r = result r' ∧
  or_empty (details r) = or_empty (details r') ∧ seq_of r = seq_of r' ∧
  or_empty (peer_org_id r) = or_empty (peer_org_id r').

Definition hash_link (o : option string) : Prop := o = None ∨ ∃ m, o = Some (hexdigest m).

Lemma link_pipe_free o : hash_link o → no_pipe (or_default "genesis" o).
Proof.
  intros [->|[m ->]]; [done|]. destruct (hexdigest_nonempty m) as (c & s & Hm).
  unfold no_pipe, or_default. rewrite Hm, <- Hm. apply hexdigest_pipe_free.
Qed.

Lemma link_inj o o' :
  hash_link o → hash_link o' → or_default "genesis" o = or_default "genesis" o' → o = o'.
Proof.
  assert (∀ m, or_default "genesis" (Some (hexdigest m)) = hexdigest m) as Hd.
  { intros m. destruct (hexdigest_nonempty m) as (c & s & Hm). unfold or_default. by rewrite Hm. }
  intros [->|[m ->]] [->|[m' ->]]; rewrite ?Hd; intros Heq; try done.
  - symmetry in Heq. by apply hex_not_genesis in Heq.
  - by apply hex_not_genesis in Heq.
  - by rewrite Heq.
Qed.

(** Both formats on one row: a head, the free [details], and a tail. *)
Definition text_head (ts : datetime) (r : local_row) : list string :=
  [if row_v2 r then "v2" else pretty (id r); isoformat ts; event_type r; or_empty (agent_id r);
   or_empty (session_id r); or_empty (org_id r); result r].
Definition text_tail (r : local_row) : list string :=
  [or_default "genesis" (previous_hash r); "seq=" +:+ pretty (seq_of r);
   "peer=" +:+ or_empty (peer_org_id r)].

Lemma entry_text_join ts r :
  chained r = true →
  entry_text ts r = join "|" (text_head ts r ++ or_empty (details r) :: text_tail r).
Proof.
  intros Hc. unfold entry_text, text_head, text_tail. destruct (row_v2 r); [done|].
  unfold canonical_entry, seq_of. unfold chained in Hc. destruct (chain_seq r) as [s|]; [|done].
  symmetry. cbn [app].
  change [pretty (id r); isoformat ts; event_type r; or_empty (agent_id r);
    or_empty (session_id r); or_empty (org_id r); result r; or_empty (details r);
    or_default "genesis" (previous_hash r); "seq=" +:+ pretty (default 0 (Some s));
    "peer=" +:+ or_empty (peer_org_id r)]
    with (([pretty (id r); isoformat ts; event_type r; or_empty (agent_id r);
    or_empty (session_id r); or_empty (org_id r); result r; or_empty (details r);
    or_default "genesis" (previous_hash r)] ++ ["seq=" +:+ pretty s]) ++
    ["peer=" +:+ or_empty (peer_org_id r)])%list.
  rewrite join_snoc by done. rewrite join_snoc by done.
  rewrite (join_cons "|" (join _ _)) by done. rewrite (join_cons "|" ("seq=" +:+ _)) by done.
  by rewrite !str_app_assoc.
Qed.

Lemma text_parts_clean ts r :
  read_timestamp r = Ret ts → clean_entry r → hash_link (previous_hash r) →
  Forall no_pipe (text_head ts r) ∧ Forall no_pipe (text_tail r).
Proof.
  unfold clean_entry. intros ->. intros Hc Hl. unfold text_head, text_tail.
  rewrite !Forall_cons in *. destruct_and! Hc. split_and!; try done.
  - destruct (row_v2 r); [done|apply pretty_Z_pipe_free].
  - by apply link_pipe_free.
  - unfold no_pipe. by rewrite has_char_app, pretty_Z_pipe_free.
Qed.

Lemma entry_text_inj ts ts' r r' :
  read_timestamp r = Ret ts → read_timestamp r' = Ret ts' →
  chained r = true → chained r' = true → clean_entry r → clean_entry r' →
  hash_link (previous_hash r) → hash_link (previous_hash r') →
  entry_text ts r = entry_text ts' r' →
  same_entry r r' ∧ previous_hash r = previous_hash r'.
Proof.
  intros Hr Hr' Hc Hc' Hcl Hcl' Hl Hl'. rewrite !entry_text_join by done.
  destruct (text_parts_clean ts r Hr Hcl Hl) as [Hh Ht].
  destruct (text_parts_clean ts' r' Hr' Hcl' Hl') as [Hh' Ht'].
  intros Heq. apply join_inj in Heq as (Hhead & Hdet & Htail); [|done..].
  unfold text_head, text_tail in *.
  injection Hhead as Hfmt Hts Hev Hag Hse Hor Hre. injection Htail as Hpr Hsq Hpe.
  apply (str_app_inj_l "") in Hpe. apply (str_app_inj_l ""), pretty_Z_inj' in Hsq.
  apply link_inj in Hpr; [|done..]. split; [|done].
  assert (row_v2 r = row_v2 r' ∧ (row_v2 r = false → id r = id r')) as [? ?].
  { destruct (row_v2 r), (row_v2 r'); try done.
    - pose proof (pretty_Z_numeral (id r')) as Hn. rewrite <- Hfmt in Hn. discriminate Hn.
    - pose proof (pretty_Z_numeral (id r)) as Hn. rewrite Hfmt in Hn. discriminate Hn.
    - split; [done|]. intros _. by apply pretty_Z_inj'. }
  unfold same_entry. rewrite Hr, Hr'. simpl. rewrite Hts. by split_and!.
Qed.

Lemma v1_not_v2 entry_id ts ts' ev ev' agent session org agent' session' org' res res'
    det prev det' prev' seq seq' peer peer' :
  canonical_entry entry_id ts ev agent session org res det prev seq peer
  ≠ canonical_entry_v2 ts' ev' agent' session' org' res' det' prev' seq' peer'.
Proof.
  unfold canonical_entry, canonical_entry_v2. rewrite (join_cons "|" "v2") by done.
  assert (∀ x rest rest', pretty entry_id +:+ "|" +:+ rest ≠ "v2" +:+ "|" +:+ rest' +:+ x) as Hne.
  { intros x rest rest' Heq.
    apply (split_first pipe) in Heq as [Hid _]; [|apply pretty_Z_pipe_free|done].
    pose proof (pretty_Z_numeral entry_id) as Hn. rewrite Hid in Hn. discriminate Hn. }
  intros Heq. apply (Hne "" (join "|" [isoformat ts; ev; or_empty agent; or_empty session;
    or_empty org; res; or_empty det; or_default "genesis" prev] +:+
    match seq with None => "" | Some s => "|" +:+ join "|" ["seq=" +:+ pretty s; "peer=" +:+ or_empty peer] end)
    (join "|" [isoformat ts'; ev'; or_empty agent'; or_empty session'; or_empty org'; res';
      or_empty det'; or_default "genesis" prev'; "seq=" +:+ pretty seq'; "peer=" +:+ or_empty peer'])).
  rewrite str_app_nil_r, <- Heq. destruct seq as [s|].
  - rewrite (join_cons "|" (join _ _)) by done. rewrite (join_cons "|" (pretty _)) by done.
    by rewrite !str_app_assoc.
  - rewrite (join_cons "|" (pretty _)) by done. by rewrite str_app_nil_r.
Qed.

Lemma org_rows_chained org t : Forall (λ r, chained r = true) (org_rows org t).
Proof.
  apply Forall_forall. intros r Hr. unfold org_rows in Hr. rewrite order_by_perm in Hr.
  apply elem_of_filter_bool in Hr as [_ Hr]. unfold in_org in Hr. by bools.
Qed.

Lemma verified_same_head org t t' :
  verify_local_chain org t = Ret (true, None) → verify_local_chain org t' = Ret (true, None) →
  Forall clean_entry (org_rows org t) → Forall clean_entry (org_rows org t') →
  collision_free (map row_text (org_rows org t) ++ map row_text (org_rows org t')) →
  last_stored entry_hash None (org_rows org t) = last_stored entry_hash None (org_rows org t') →
  Forall2 same_entry (org_rows org t) (org_rows org t').
Proof.
  unfold verify_local_chain. rewrite !verify_entries_linked. intros [Hr Hl] [Hr' Hl'] Hc Hc' Hcf Heq.
  pose proof (org_rows_chained org t) as Hch. pose proof (org_rows_chained org t') as Hch'.
  rewrite !Forall_forall in *.
  assert (∀ r r', r ∈ org_rows org t → r' ∈ org_rows org t' →
    hash_link (previous_hash r) → hash_link (previous_hash r') → row_text r = row_text r' →
    same_entry r r' ∧ previous_hash r = previous_hash r') as Hinj.
  { intros r r' Hin Hin' Hlk Hlk'. unfold row_text.
    pose proof (Hr _ Hin) as Hread. pose proof (Hr' _ Hin') as Hread'. unfold readable in *.
    destruct (read_timestamp r) as [ts|] eqn:Hts; [|done].
    destruct (read_timestamp r') as [ts'|] eqn:Hts'; [|done].
    apply entry_text_inj; auto. }
  assert (Forall2 (λ r r', row_text r = row_text r') (org_rows org t) (org_rows org t')) as Hall.
  { eapply (head_commits row_text previous_hash entry_hash None); try done.
    intros r r' Hin Hin' Hlk Hlk' Ht. by apply Hinj. }
  pose proof (linked_links _ _ _ _ _ Hl) as Hlk. pose proof (linked_links _ _ _ _ _ Hl') as Hlk'.
  rewrite Forall_forall in Hlk, Hlk'.
  eapply Forall2_impl_in; [exact Hall|]. intros r r' Hin Hin' Ht.
  apply Hinj; [done|done|by apply Hlk|by apply Hlk'|done].
Qed.
End LocalTamper.

(** ** Properties *)

Section LocalProperties.
Context `{Hash} `{IsoFormat}.

(** C34: an append, whatever its outcome, leaves every organisation's chain
    verifiable, not only the chain it wrote to, while other writers commit
    chained rows between its attempts. *)
Theorem append_keeps_local_chains (c : local_call) (env : nat → local_event)
    (t : list local_row) (org : string) :
  local_ok t → local_benign (env <$> seq 0 _MAX_CHAIN_RETRIES) t →
  verify_local_chain org (append_local_audit c env t).2 = Ret (true, None).
Proof. intros Hok Hben. apply org_ok_verifies. by apply append_local_audit_spec. Qed.

(** every way [append_local_audit] ends. It returns the summary of the one
    row it inserted; it raises [RuntimeError] before touching the table
    because the details are too large, or after losing the race for its
    organisation's next position on all five attempts; or the database
    failed. In no failing case is a row of its own left behind. *)
Theorem append_local_outcome (c : local_call) (env : nat → local_event) (t : list local_row) :
  local_ok t → local_benign (env <$> seq 0 _MAX_CHAIN_RETRIES) t →
  let '(res, t') := append_local_audit c env t in
  (res = Raise RuntimeError ∧ t' = t ∧
   ∃ d, details_json c = Some d ∧ AUDIT_DETAILS_MAX_BYTES < Z.of_nat (String.length d)) ∨
  (∃ others r, res = Ret (summarise r) ∧ t' = t ++ others ++ [r] ∧ entry_of c r) ∨
  (∃ others, res = Raise RuntimeError ∧ t' = t ++ others ∧
     ∀ n, (n < 5)%nat → lost_race (chain_org c) (env n)) ∨
  (∃ others n, res = Raise OperationalError ∧ t' = t ++ others ∧ (n < 5)%nat ∧ env n = LDown).
Proof.
  intros Hok Hben. pose proof (local_attempts_spec c _ t Hok Hben) as [_ [others Hpost]].
  unfold append_local_audit, _enforce_details_size. destruct (details_json c) as [d|] eqn:Hd.
  1: destruct (Z.ltb_spec AUDIT_DETAILS_MAX_BYTES (Z.of_nat (String.length d))) as [Hlt|_];
       [by left; eauto|].
  all: destruct (local_attempts c _ t) as [[s|e] t']; simpl in Hpost; right;
       [left; destruct Hpost as (r & -> & ? & ->); eauto|right].
  all: by eapply failed_attempts, Hpost.
Qed.

(** an organisation's verified chain is determined by its last entry hash:
    two tables that verify for the organisation and agree on that hash hold
    the same entries, field by hashed field, in the same order — so nothing
    was altered, dropped (from either end but the tail), inserted or moved. *)
Theorem local_head_determines_chain (org : string) (t t' : list local_row) :
  verify_local_chain org t = Ret (true, None) → verify_local_chain org t' = Ret (true, None) →
  Forall clean_entry (org_rows org t) → Forall clean_entry (org_rows org t') →
  collision_free (map row_text (org_rows org t) ++ map row_text (org_rows org t')) →
  last_stored entry_hash None (org_rows org t) = last_stored entry_hash None (org_rows org t') →
  Forall2 same_entry (org_rows org t) (org_rows org t').
Proof. apply verified_same_head. Qed.

(** The two formats of [local_audit] never hash the same text, whatever
    the fields hold: a legacy text starts with a decimal integer, a v2 text
    with the tag. *)
Theorem entry_formats_disjoint (entry_id : Z) (ts ts' : datetime) (ev ev' : string)
    (agent session org agent' session' org' : option string) (res res' : string)
    (det prev det' prev' : option string) (seq : option Z) (seq' : Z) (peer peer' : option string) :
  canonical_entry entry_id ts ev agent session org res det prev seq peer
  ≠ canonical_entry_v2 ts' ev' agent' session' org' res' det' prev' seq' peer'.
Proof. apply v1_not_v2. Qed.
End LocalProperties.

(** ** Witnesses *)

Module LocalDemo.
Definition noon (s : N) : @datetime iso_format :=
  {| year := 2026; month := 6; day := 2; hour := 12; minute := 0; second := s;
     microsecond := 0; tz_utc := true |}.
Definition call (org : option string) (ev : string) : local_call :=
  {| c_event_type := ev; c_result := "ok"; c_agent_id := Some "acme::alice";
     c_session_id := None; c_org_id := org; c_details := Some [("n", JInt 1)] |}.
Definition calm (s : N) : nat → local_event := λ n, LUp [] (noon s) (Z.of_N s).
Definition t1 : list local_row :=
  Eval vm_compute in (append_local_audit (call (Some "acme") "session.open") (calm 1) []).2.
Definition t2 : list local_row :=
  Eval vm_compute in (append_local_audit (call None "boot") (calm 2) t1).2.

Lemma calm_benign s t : (s <= 59)%N → local_ok t → local_benign (calm s <$> seq 0 _MAX_CHAIN_RETRIES) t.
Proof.
  intros Hs Hok.
  assert (@utc_datetime iso_format (noon s)) as Hu.
  { split; [|done]. unfold date_ok. simpl. by rewrite (proj2 (N.leb_le s 59)). }
  cbn [_MAX_CHAIN_RETRIES seq fmap list_fmap local_benign calm].
  unfold calm. cbn [local_benign]. rewrite !app_nil_r.
  do 5 (split; [exact Hok|]; split; [exact Hu|]). exact I.
Qed.

Lemma empty_ok : local_ok [].
Proof. intros org. by split_and!; constructor. Qed.

Lemma t1_ok : local_ok t1.
Proof.
  change t1 with (append_local_audit (call (Some "acme") "session.open") (calm 1) []).2 at 1.
  apply append_local_audit_spec; [apply empty_ok|]. by apply calm_benign, empty_ok.
Qed.

(** A worker of the same organisation commits just before the first INSERT. *)
Definition rival : list local_row :=
  Eval vm_compute in drop 1 (append_local_audit (call (Some "acme") "session.close") (calm 3) t1).2.

Lemma rival_ok : local_ok (t1 ++ rival).
Proof.
  change (t1 ++ rival) with
    (append_local_audit (call (Some "acme") "session.close") (calm 3) t1).2.
  apply append_local_audit_spec; [apply t1_ok|]. by apply calm_benign, t1_ok.
Qed.

Definition race (n : nat) : local_event :=
  match n with O => LUp rival (noon 4) 4 | _ => LUp [] (noon 5) 5 end.

Lemma race_benign : local_benign (race <$> seq 0 _MAX_CHAIN_RETRIES) t1.
Proof.
  cbn [_MAX_CHAIN_RETRIES seq fmap list_fmap local_benign race].
  rewrite !app_nil_r. pose proof rival_ok. by split_and!.
Qed.
End LocalDemo.

Lemma append_keeps_local_chains_witness :
  let t' := (append_local_audit (LocalDemo.call (Some "acme") "tool.call") LocalDemo.race LocalDemo.t1).2 in
  verify_local_chain "acme" t' = Ret (true, None) ∧ length (org_rows "acme" t') = 3%nat.
Proof.
  split.
  - exact (append_keeps_local_chains (LocalDemo.call (Some "acme") "tool.call") LocalDemo.race
             LocalDemo.t1 "acme" LocalDemo.t1_ok LocalDemo.race_benign).
  - vm_compute. reflexivity.
Defined.

Lemma append_local_outcome_witness :
  ∃ others r,
    (append_local_audit (LocalDemo.call (Some "acme") "tool.call") LocalDemo.race LocalDemo.t1).2
      = LocalDemo.t1 ++ others ++ [r] ∧ event_type r = "tool.call".
Proof.
  pose proof (append_local_outcome (LocalDemo.call (Some "acme") "tool.call") LocalDemo.race
                LocalDemo.t1 LocalDemo.t1_ok LocalDemo.race_benign) as Ho.
  assert (is_ret (append_local_audit (LocalDemo.call (Some "acme") "tool.call") LocalDemo.race
            LocalDemo.t1).1 = true) as Hret by (vm_compute; reflexivity).
  destruct (append_local_audit _ _ _) as [res t'].
  destruct Ho as [(-> & _)|[(others & r & -> & -> & He & _)|[(? & -> & _)|(? & ? & -> & _)]]];
    try discriminate Hret.
  exists others, r. split; [reflexivity|exact He].
Defined.

Lemma local_head_determines_chain_witness :
  Forall2 same_entry (org_rows "acme" LocalDemo.t1) (org_rows "acme" LocalDemo.t2).
Proof.
  assert (org_rows "acme" LocalDemo.t2 = org_rows "acme" LocalDemo.t1) as Heq
    by (vm_compute; reflexivity).
  assert (org_rows "acme" LocalDemo.t1 = LocalDemo.t1) as Heq1 by (vm_compute; reflexivity).
  assert (Forall clean_entry LocalDemo.t1) as Hc.
  { repeat constructor. }
  refine (local_head_determines_chain "acme" LocalDemo.t1 LocalDemo.t2 _ _ _ _ _ _).
  - vm_compute. reflexivity.
  - vm_compute. reflexivity.
  - rewrite Heq1. exact Hc.
  - rewrite Heq, Heq1. exact Hc.
  - rewrite Heq, Heq1. apply collision_freeb_sound. vm_compute. reflexivity.
  - by rewrite Heq.
Defined.
