(* ===== verification/AuditCanon.v ===== *)
(** * The canonical encodings of the primary audit chain

    Every row of [audit_log] is hashed over a pipe-delimited text.  This file
    has that text word for word ([mcp_proxy/db.py:compute_audit_row_hash]), in
    its legacy (v1) and current (v2) form, and what it determines: which
    fields can be read back from the text, and which cannot. *)

From S2P Require Import Prelude Sha256 IsoTime.
From Stdlib Require Import QArith.

(** ** [audit_log] *)

(** The dict [log_audit] queues: the authoritative fields of a row. *)
Record audit_payload := {
  timestamp : string;
  agent_id : string;
  action : string;
  tool_name : option string;
  status : string;
  detail : option string;
  request_id : option string;
  duration_ms : option Q;
  dpop_jkt : option string;
  on_behalf_of_user_id : option string;
}.

(** A row of [audit_log]; the chain columns are nullable (rows that predate
    the chain have no [chain_seq]). *)
Record audit_row := {
  payload : audit_payload;
  chain_seq : option Z;
  prev_hash : option string;
  row_hash : option string;
  hash_format : option string;
}.

Definition is_v2 (fmt : option string) : bool := bool_decide (fmt = Some "v2").

Definition canonical_audit_row (seq : Z) (p : audit_payload) (prev : string)
    (fmt : option string) : string :=
  if is_v2 fmt then
    join "|" ["v2"; pretty seq; timestamp p; agent_id p; action p;
              or_empty (tool_name p); status p; or_empty (detail p);
              or_empty (request_id p); or_empty (dpop_jkt p);
              or_empty (on_behalf_of_user_id p); prev]
  else
    join "|" [pretty seq; timestamp p; agent_id p; action p;
              or_empty (tool_name p); status p; or_empty (detail p);
              or_empty (request_id p); prev].

Definition compute_audit_row_hash `{Hash} (seq : Z) (p : audit_payload) (prev : string)
    (fmt : option string) : string :=
  hexdigest (canonical_audit_row seq p prev fmt).

(** ** What the v2 form determines *)

(** Two payloads the v2 form cannot tell apart: equal up to [None] and the
    empty string in the nullable fields, and up to [duration_ms]. *)
Definition same_v2 (p q : audit_payload) : Prop :=
  timestamp p = timestamp q ∧ agent_id p = agent_id q ∧ action p = action q ∧
  or_empty (tool_name p) = or_empty (tool_name q) ∧ status p = status q ∧
  or_empty (detail p) = or_empty (detail q) ∧
  or_empty (request_id p) = or_empty (request_id q) ∧
  or_empty (dpop_jkt p) = or_empty (dpop_jkt q) ∧
  or_empty (on_behalf_of_user_id p) = or_empty (on_behalf_of_user_id q).

#[export] Instance same_v2_equiv : Equivalence same_v2.
Proof.
  split.
  - intros p. by repeat split.
  - intros p q Hpq. unfold same_v2 in *. destruct_and? Hpq. split_and!; congruence.
  - intros p q r Hpq Hqr. unfold same_v2 in *. destruct_and? Hpq. destruct_and? Hqr.
    split_and!; congruence.
Qed.

#[export] Instance canonical_v2_proper seq :
  Proper (same_v2 ==> (=) ==> (=) ==> (=)) (canonical_audit_row seq).
Proof.
  intros p q Hs prev ? <- fmt ? <-. unfold canonical_audit_row.
  by destruct Hs as (-> & -> & -> & -> & -> & -> & -> & -> & ->).
Qed.

(** Every hashed field but the free-form [detail] is free of the separator. *)
Definition clean_payload (p : audit_payload) : Prop :=
  Forall no_pipe [timestamp p; agent_id p; action p; or_empty (tool_name p); status p] ∧
  Forall no_pipe [or_empty (request_id p); or_empty (dpop_jkt p);
                  or_empty (on_behalf_of_user_id p)].

Definition clean_payloadb (p : audit_payload) : bool :=
  forallb (λ s, negb (has_char pipe s))
    [timestamp p; agent_id p; action p; or_empty (tool_name p); status p;
     or_empty (request_id p); or_empty (dpop_jkt p); or_empty (on_behalf_of_user_id p)].

Lemma clean_payloadb_sound p : clean_payloadb p = true → clean_payload p.
Proof.
  unfold clean_payloadb, clean_payload, no_pipe. simpl. intros Hb.
  rewrite !andb_true_iff in Hb. destruct_and! Hb. bools. by repeat constructor.
Qed.

Lemma v2_inj seq seq' p p' prev prev' :
  clean_payload p → clean_payload p' → no_pipe prev → no_pipe prev' →
  canonical_audit_row seq p prev (Some "v2") = canonical_audit_row seq' p' prev' (Some "v2") →
  seq = seq' ∧ same_v2 p p' ∧ prev = prev'.
Proof.
  intros [Hl Hr] [Hl' Hr'] Hp Hp' Heq. unfold canonical_audit_row in Heq. simpl is_v2 in Heq.
  cbv match in Heq.
  apply (join_inj
    ["v2"; pretty seq; timestamp p; agent_id p; action p; or_empty (tool_name p); status p]
    ["v2"; pretty seq'; timestamp p'; agent_id p'; action p'; or_empty (tool_name p'); status p']
    _ _
    [or_empty (request_id p); or_empty (dpop_jkt p); or_empty (on_behalf_of_user_id p); prev]
    [or_empty (request_id p'); or_empty (dpop_jkt p'); or_empty (on_behalf_of_user_id p'); prev'])
    in Heq as (Hleft & Hdet & Hright).
  - simplify_eq. split; [by apply pretty_Z_inj'|]. by unfold same_v2.
  - done.
  - done.
  - constructor; [done|]. constructor; [apply pretty_Z_pipe_free|done].
  - constructor; [done|]. constructor; [apply pretty_Z_pipe_free|done].
  - by apply (Forall_app_2 no_pipe [_; _; _] [prev]); [|constructor].
  - by apply (Forall_app_2 no_pipe [_; _; _] [prev']); [|constructor].
Qed.

(** A numeral is never the format tag. *)
Lemma numeral_not_v2 (z : Z) : pretty z ≠ "v2".
Proof.
  intros Heq. pose proof (pretty_Z_numeral z) as Hn. rewrite Heq in Hn. discriminate Hn.
Qed.

(** The two formats never share a text, whatever the fields hold. *)
Lemma v1_v2_disjoint seq seq' p p' prev prev' fmt :
  is_v2 fmt = false →
  canonical_audit_row seq p prev fmt ≠ canonical_audit_row seq' p' prev' (Some "v2").
Proof.
  intros Hf Heq. unfold canonical_audit_row in Heq. rewrite Hf in Heq. simpl is_v2 in Heq.
  cbv match in Heq. apply join_head_inj in Heq; [|auto with pystr..].
  by apply numeral_not_v2 in Heq.
Qed.

(** ** What the v1 form determines *)

Definition same_v1 (p q : audit_payload) : Prop :=
  timestamp p = timestamp q ∧ agent_id p = agent_id q ∧ action p = action q ∧
  or_empty (tool_name p) = or_empty (tool_name q) ∧ status p = status q ∧
  or_empty (detail p) = or_empty (detail q) ∧
  or_empty (request_id p) = or_empty (request_id q).

(** What the canonical text of a row in format [fmt] says of its payload. *)
Definition same_hashed (fmt : option string) (p q : audit_payload) : Prop :=
  if is_v2 fmt then same_v2 p q else same_v1 p q.

Lemma v1_inj seq seq' p p' prev prev' fmt fmt' :
  is_v2 fmt = false → is_v2 fmt' = false →
  clean_payload p → clean_payload p' → no_pipe prev → no_pipe prev' →
  canonical_audit_row seq p prev fmt = canonical_audit_row seq' p' prev' fmt' →
  seq = seq' ∧ same_v1 p p' ∧ prev = prev'.
Proof.
  intros Hf Hf' [Hl Hr] [Hl' Hr'] Hp Hp' Heq. unfold canonical_audit_row in Heq.
  rewrite Hf, Hf' in Heq.
  apply (join_inj
    [pretty seq; timestamp p; agent_id p; action p; or_empty (tool_name p); status p]
    [pretty seq'; timestamp p'; agent_id p'; action p'; or_empty (tool_name p'); status p']
    _ _ [or_empty (request_id p); prev] [or_empty (request_id p'); prev'])
    in Heq as (Hleft & Hdet & Hright).
  - simplify_eq. split; [by apply pretty_Z_inj'|]. by unfold same_v1.
  - done.
  - done.
  - constructor; [apply pretty_Z_pipe_free|done].
  - constructor; [apply pretty_Z_pipe_free|done].
  - apply Forall_cons_1 in Hr as [Hr _]. by repeat constructor.
  - apply Forall_cons_1 in Hr' as [Hr' _]. by repeat constructor.
Qed.

(** Read back from the canonical text: the format, the position, the link and
    every hashed field. *)
Lemma canonical_inj seq seq' p p' prev prev' fmt fmt' :
  clean_payload p → clean_payload p' → no_pipe prev → no_pipe prev' →
  canonical_audit_row seq p prev fmt = canonical_audit_row seq' p' prev' fmt' →
  is_v2 fmt = is_v2 fmt' ∧ seq = seq' ∧ same_hashed fmt p p' ∧ prev = prev'.
Proof.
  intros Hc Hc' Hp Hp' Heq. unfold same_hashed.
  destruct (is_v2 fmt) eqn:Hf, (is_v2 fmt') eqn:Hf'.
  - unfold is_v2 in *. bools. subst. apply v2_inj in Heq; naive_solver.
  - unfold is_v2 in Hf. bools. subst. symmetry in Heq. by apply v1_v2_disjoint in Heq.
  - unfold is_v2 in Hf'. bools. subst. by apply v1_v2_disjoint in Heq.
  - apply v1_inj in Heq; naive_solver.
Qed.
