(* ===== verification/AuditLog.v ===== *)
(** * The primary audit chain

    [mcp_proxy/db.py] ([_audit_chain_head], [log_audit], [verify_audit_chain])
    and [mcp_proxy/audit_chain.py] ([BatchedAuditChain]).  The [audit_log]
    table is the list of its rows in commit order; [UNIQUE(chain_seq)] rejects
    an INSERT whose [chain_seq] is taken.  What other connections do to the
    database during one attempt is an explicit [db_event], so the retry loops
    are modelled with their interference. *)

From S2P Require Import Prelude Sha256 Json AuditCanon.
From Stdlib Require Import QArith.

Open Scope Z_scope.

(** ** The table *)

Definition _AUDIT_CHAIN_GENESIS : string := "genesis".
Definition _AUDIT_CHAIN_MAX_RETRIES : nat := 5.
Definition AUDIT_DETAILS_MAX_BYTES : Z := 16 * 1024.

Definition has_seq (seq : Z) (t : list audit_row) : bool :=
  existsb (λ r, bool_decide (chain_seq r = Some seq)) t.

(** One INSERT under [UNIQUE(chain_seq)]; NULLs never conflict. *)
Definition insert_row (r : audit_row) (t : list audit_row) : outcome (list audit_row) :=
  match chain_seq r with
  | Some seq => if has_seq seq t then Raise IntegrityError else Ret (t ++ [r])
  | None => Ret (t ++ [r])
  end.

(** [executemany]: one transaction, so a conflict of any row undoes them all. *)
Fixpoint insert_rows (rows t : list audit_row) : outcome (list audit_row) :=
  match rows with
  | [] => Ret t
  | r :: rest => let! t' := insert_row r t in insert_rows rest t'
  end.

(** [SELECT ... WHERE chain_seq IS NOT NULL ORDER BY chain_seq DESC LIMIT 1] *)
Definition later_row (acc : option audit_row) (r : audit_row) : option audit_row :=
  match chain_seq r with
  | None => acc
  | Some s =>
      match acc with
      | Some a => if default 0 (chain_seq a) <? s then Some r else acc
      | None => Some r
      end
  end.

Definition head_row (t : list audit_row) : option audit_row := foldl later_row None t.

Definition _audit_chain_head (t : list audit_row) : Z * string :=
  match head_row t with
  | None => (0, _AUDIT_CHAIN_GENESIS)
  | Some r => (default 0 (chain_seq r), py_str (row_hash r))
  end.

Definition _enforce_audit_detail_size (detail : option string) : outcome unit :=
  match detail with
  | None => Ret tt
  | Some d =>
      if AUDIT_DETAILS_MAX_BYTES <? Z.of_nat (String.length d) then Raise RuntimeError
      else Ret tt
  end.

(** What happens to the database around one attempt: other connections commit
    [others] between the head read and the INSERT, or the database fails. *)
Inductive db_event :=
| DbUp (others : list audit_row)
| DbDown.

Section Chain.
Context `{Hash}.

(** The row both writers build on top of [prev]. *)
Definition chain_row (seq : Z) (prev : string) (p : audit_payload) : audit_row :=
  {| payload := p;
     chain_seq := Some seq;
     prev_hash := Some prev;
     row_hash := Some (compute_audit_row_hash seq p prev (Some "v2"));
     hash_format := Some "v2" |}.

(** The batch of a flush: [last_seq + i + 1], each row on the previous hash. *)
Fixpoint chain_batch (last_seq : Z) (prev : string) (batch : list audit_payload)
    : list audit_row :=
  match batch with
  | [] => []
  | p :: rest =>
      chain_row (last_seq + 1) prev p
        :: chain_batch (last_seq + 1)
             (compute_audit_row_hash (last_seq + 1) p prev (Some "v2")) rest
  end.

(** ** [BatchedAuditChain] *)

Record batch_config := {
  batch_size : Z;
  flush_interval_s : Q;
  background_fail_deny : bool;
}.

Definition BatchedAuditChain_init (size : Z) (interval : Q) (bfd : bool)
    : outcome batch_config :=
  if size <? 1 then Raise ValueError
  else if Qle_bool interval 0 then Raise ValueError
  else Ret {| batch_size := size; flush_interval_s := interval; background_fail_deny := bfd |}.

(** The table, the instance's queue, and the process-wide [_UNHEALTHY] flag. *)
Record world := {
  w_table : list audit_row;
  w_pending : list audit_payload;
  w_unhealthy : bool;
}.

Inductive flush_result :=
| Flushed (n : Z)
| FlushExhausted
| FlushFailed (e : exn).

(** The retry loop of [_flush_locked] over the remaining attempts. *)
Fixpoint flush_attempts (batch : list audit_payload) (evs : list db_event)
    (t : list audit_row) : flush_result * list audit_row :=
  match evs with
  | [] => (FlushExhausted, t)
  | DbDown :: _ => (FlushFailed OperationalError, t)
  | DbUp others :: evs' =>
      let '(last_seq, prev) := _audit_chain_head t in
      let t' := t ++ others in
      match insert_rows (chain_batch last_seq prev batch) t' with
      | Ret t'' => (Flushed (Z.of_nat (length batch)), t'')
      | Raise IntegrityError => flush_attempts batch evs' t'
      | Raise e => (FlushFailed e, t')
      end
  end.

Definition attempts (env : nat → db_event) : list db_event :=
  env <$> seq 0 _AUDIT_CHAIN_MAX_RETRIES.

Definition _flush_locked (cfg : batch_config) (propagate : bool) (env : nat → db_event)
    (w : world) : outcome Z * world :=
  match w_pending w with
  | [] => (Ret 0, w)
  | batch =>
      let '(res, t) := flush_attempts batch (attempts env) (w_table w) in
      let w1 := {| w_table := t; w_pending := []; w_unhealthy := w_unhealthy w |} in
      match res with
      | Flushed n => (Ret n, w1)
      | FlushFailed e => (Raise e, w1)
      | FlushExhausted =>
          if propagate then (Raise AuditChainExhausted, w1)
          else if background_fail_deny cfg then
            (Ret 0, {| w_table := t; w_pending := []; w_unhealthy := true |})
          else (Ret 0, w1)
      end
  end.

Definition flush_now (cfg : batch_config) (propagate : bool) (env : nat → db_event)
    (w : world) : outcome Z * world := _flush_locked cfg propagate env w.

Definition append (cfg : batch_config) (row : audit_payload) (env : nat → db_event)
    (w : world) : outcome unit * world :=
  let w1 := {| w_table := w_table w; w_pending := w_pending w ++ [row];
               w_unhealthy := w_unhealthy w |} in
  if batch_size cfg <=? Z.of_nat (length (w_pending w1)) then
    match _flush_locked cfg true env w1 with
    | (Ret _, w2) => (Ret tt, w2)
    | (Raise e, w2) => (Raise e, w2)
    end
  else (Ret tt, w1).

(** One tick of [_periodic_flush_loop]: an exception is logged and swallowed. *)
Definition periodic_tick (cfg : batch_config) (env : nat → db_event) (w : world) : world :=
  snd (flush_now cfg false env w).

Definition is_audit_chain_unhealthy (w : world) : bool := w_unhealthy w.

(** ** [log_audit] *)

(** The retry loop of the per-row path. *)
Fixpoint row_attempts (p : audit_payload) (evs : list db_event) (t : list audit_row)
    : flush_result * list audit_row :=
  match evs with
  | [] => (FlushExhausted, t)
  | DbDown :: _ => (FlushFailed OperationalError, t)
  | DbUp others :: evs' =>
      let '(last_seq, prev) := _audit_chain_head t in
      let t' := t ++ others in
      match insert_row (chain_row (last_seq + 1) prev p) t' with
      | Ret t'' => (Flushed 1, t'')
      | Raise IntegrityError => row_attempts p evs' t'
      | Raise e => (FlushFailed e, t')
      end
  end.

(** The process state [log_audit] reads: the clock, the per-request context
    variables, the registered singleton and the settings. *)
Record audit_env := {
  now_iso : string;
  current_dpop_jkt : option string;
  current_on_behalf_of_user : option string;
  batched_chain : option batch_config;
  audit_chain_disabled : bool;
  audit_chain_durable : bool;
  audit_fail_deny : bool;
}.

Record audit_call := {
  c_agent_id : string; c_action : string; c_status : string;
  c_tool_name : option string; c_detail : option string; c_details : option json;
  c_request_id : option string; c_duration_ms : option Q;
  c_dpop_jkt : option string; c_on_behalf_of_user_id : option string;
}.

Definition or_else {A} (o d : option A) : option A := match o with Some _ => o | None => d end.

Definition call_detail (c : audit_call) : option string :=
  match c_details c with Some d => Some (dumps d) | None => c_detail c end.

Definition call_payload (e : audit_env) (c : audit_call) : audit_payload :=
  {| timestamp := now_iso e; agent_id := c_agent_id c; action := c_action c;
     tool_name := c_tool_name c; status := c_status c; detail := call_detail c;
     request_id := c_request_id c; duration_ms := c_duration_ms c;
     dpop_jkt := or_else (c_dpop_jkt c) (current_dpop_jkt e);
     on_behalf_of_user_id :=
       or_else (c_on_behalf_of_user_id c) (current_on_behalf_of_user e) |}.

Definition log_audit (e : audit_env) (c : audit_call) (env : nat → db_event) (w : world)
    : outcome unit * world :=
  match _enforce_audit_detail_size (call_detail c) with
  | Raise ex => (Raise ex, w)
  | Ret _ =>
      let p := call_payload e c in
      let exhausted w' := if audit_fail_deny e then (Raise RuntimeError, w') else (Ret tt, w') in
      let per_row :=
        let '(res, t) := row_attempts p (attempts env) (w_table w) in
        let w1 := {| w_table := t; w_pending := w_pending w; w_unhealthy := w_unhealthy w |} in
        match res with
        | Flushed _ => (Ret tt, w1)
        | FlushFailed ex => (Raise ex, w1)
        | FlushExhausted => exhausted w1
        end in
      match batched_chain e with
      | None => per_row
      | Some cfg =>
          if audit_chain_disabled e || audit_chain_durable e then per_row else
          match append cfg p env w with
          | (Ret _, w') => (Ret tt, w')
          | (Raise AuditChainExhausted, w') => exhausted w'
          | (Raise ex, w') => (Raise ex, w')
          end
      end
  end.

(** ** [verify_audit_chain] *)

Inductive break_reason :=
| FirstPrevNotGenesis
| SeqGap (expected : Z)
| PrevMismatch
| HashMismatch.

Definition verdict : Type := bool * option Z * option break_reason.

Definition seq_of (r : audit_row) : Z := default 0 (chain_seq r).

Definition chained (r : audit_row) : bool :=
  match chain_seq r with Some _ => true | None => false end.

(** [WHERE chain_seq IS NOT NULL AND chain_seq >= :start ORDER BY chain_seq ASC] *)
Definition select_rows (start_seq : Z) (t : list audit_row) : list audit_row :=
  order_by seq_of (List.filter (λ r, chained r && (start_seq <=? seq_of r)) t).

Fixpoint verify_walk (start_seq : Z) (expected_prev : option string)
    (expected_seq : option Z) (rows : list audit_row) : verdict :=
  match rows with
  | [] => (true, None, None)
  | r :: rest =>
      let seq := seq_of r in
      let prev := py_str (prev_hash r) in
      let stored := py_str (row_hash r) in
      let bad why := (false, Some seq, Some why) in
      let check_hash :=
        if bool_decide (compute_audit_row_hash seq (payload r) prev (hash_format r) = stored)
        then verify_walk start_seq (Some stored) (Some (seq + 1)) rest
        else bad HashMismatch in
      match expected_seq with
      | None =>
          if (start_seq =? 1) && (seq =? 1) && negb (bool_decide (prev = _AUDIT_CHAIN_GENESIS))
          then bad FirstPrevNotGenesis else check_hash
      | Some es =>
          if negb (seq =? es) then bad (SeqGap es) else
          match expected_prev with
          | Some ep => if bool_decide (prev = ep) then check_hash else bad PrevMismatch
          | None => check_hash
          end
      end
  end.

Definition verify_audit_chain (start_seq : Z) (limit : option nat) (t : list audit_row)
    : verdict :=
  let rows := select_rows start_seq t in
  verify_walk start_seq None None (match limit with Some n => take n rows | None => rows end).

End Chain.

(** ** The chain a table holds *)

Section ChainLemmas.
Context `{Hash}.

(** [rows] continue a chain whose next position is [seq] and whose last hash
    is [prev]. *)
Inductive chain_from : Z → string → list audit_row → Prop :=
| chain_nil seq prev : chain_from seq prev []
| chain_cons seq prev r rest :
    chain_seq r = Some seq →
    py_str (prev_hash r) = prev →
    compute_audit_row_hash seq (payload r) prev (hash_format r) = py_str (row_hash r) →
    chain_from (seq + 1) (py_str (row_hash r)) rest →
    chain_from seq prev (r :: rest).

Definition last_hash (prev : string) (rows : list audit_row) : string :=
  foldl (λ _ r, py_str (row_hash r)) prev rows.

Definition chained_rows (t : list audit_row) : list audit_row := List.filter chained t.

(** The invariant of [audit_log]: its chained rows, in commit order, are one
    chain from the genesis. *)
Definition chain_ok (t : list audit_row) : Prop :=
  chain_from 1 _AUDIT_CHAIN_GENESIS (chained_rows t).

Lemma chain_from_app s p l1 l2 :
  chain_from s p (l1 ++ l2) ↔
  chain_from s p l1 ∧ chain_from (s + Z.of_nat (length l1)) (last_hash p l1) l2.
Proof.
  revert s p. induction l1 as [|r l1 IH]; intros s p; simpl.
  - rewrite Z.add_0_r. split; [|tauto]. split; [constructor|done].
  - replace (s + Z.of_nat (S (length l1))) with (s + 1 + Z.of_nat (length l1)) by lia.
    split.
    + inversion_clear 1 as [|???? Hs Hp Hh Hrest].
      apply IH in Hrest as [? ?]. split; [by constructor|done].
    + intros [Hl1 Hl2]. inversion_clear Hl1 as [|???? Hs Hp Hh Hrest].
      constructor; [done..|]. by apply IH.
Qed.

Lemma chain_batch_from last prev batch :
  chain_from (last + 1) prev (chain_batch last prev batch).
Proof.
  revert last prev. induction batch as [|p rest IH]; intros last prev; simpl.
  - constructor.
  - by constructor.
Qed.

Lemma chain_batch_length last prev batch : length (chain_batch last prev batch) = length batch.
Proof. revert last prev. induction batch as [|p rest IH]; intros; simpl; auto. Qed.

Lemma chain_batch_chained last prev batch :
  chained_rows (chain_batch last prev batch) = chain_batch last prev batch.
Proof. revert last prev. induction batch as [|p rest IH]; intros; simpl; [done|]. by rewrite IH. Qed.

(** The sequence numbers of a chain are consecutive. *)
Lemma chain_from_seq s p l r :
  chain_from s p l → r ∈ l → s <= seq_of r < s + Z.of_nat (length l).
Proof.
  induction 1 as [|s p r' rest Hs Hp Hh Hrest IH]; [by intros ?%not_elem_of_nil|].
  simpl. intros [->|Hin]%elem_of_cons.
  - unfold seq_of. rewrite Hs. simpl. lia.
  - specialize (IH Hin). lia.
Qed.

Lemma chain_from_strict s p l : chain_from s p l → StronglySorted (key_lt seq_of) l.
Proof.
  induction 1 as [|s p r rest Hs Hp Hh Hrest IH]; constructor; [done|].
  apply Forall_forall. intros r' Hr'. eapply chain_from_seq in Hr'; [|done].
  unfold key_lt. unfold seq_of at 1. rewrite Hs. simpl. lia.
Qed.

Lemma chain_from_has_seq s p l q :
  chain_from s p l → has_seq q l = bool_decide (s <= q < s + Z.of_nat (length l)).
Proof.
  induction 1 as [|s p r rest Hs Hp Hh Hrest IH]; simpl.
  - symmetry. apply bool_decide_eq_false_2. lia.
  - rewrite IH, Hs. destruct (decide (s = q)) as [->|Hne].
    + rewrite bool_decide_eq_true_2 by done. symmetry. apply bool_decide_eq_true_2. lia.
    + rewrite bool_decide_eq_false_2 by congruence. simpl. apply bool_decide_ext. lia.
Qed.

Lemma has_seq_chained q t : has_seq q t = has_seq q (chained_rows t).
Proof.
  induction t as [|r t IH]; simpl; [done|]. unfold chained.
  destruct (chain_seq r) as [s|] eqn:Hs; simpl; rewrite IH, ?Hs; done.
Qed.

Lemma has_seq_app q t t' : has_seq q (t ++ t') = has_seq q t || has_seq q t'.
Proof. apply existsb_app. Qed.

(** ** The head *)

Lemma head_row_chained t : head_row t = head_row (chained_rows t).
Proof.
  unfold head_row. generalize (@None audit_row). induction t as [|r t IH]; intros acc; simpl; [done|].
  unfold chained, later_row at 2. destruct (chain_seq r) as [s|] eqn:Hs; simpl; [|apply IH].
  unfold later_row at 3. by rewrite Hs.
Qed.

Lemma head_row_elem acc l a :
  foldl later_row acc l = Some a → a ∈ l ∨ acc = Some a.
Proof.
  revert acc. induction l as [|x l IH]; simpl; [by right|]. intros acc Hf.
  apply IH in Hf as [?|Hacc]; [by left; right|].
  unfold later_row in Hacc. repeat case_match; simplify_eq; auto; left; left.
Qed.

Lemma chain_head_row s p l r :
  0 < s → chain_from s p (l ++ [r]) → head_row (l ++ [r]) = Some r.
Proof.
  intros Hpos Hc. unfold head_row. rewrite foldl_app. simpl.
  apply chain_from_app in Hc as [Hl Hr]. inversion_clear Hr as [|???? Hs Hp Hh _].
  unfold later_row at 1. rewrite Hs.
  destruct (foldl later_row None l) as [a|] eqn:Ha; [|done].
  apply head_row_elem in Ha as [Hin|Hin]; [|done].
  eapply chain_from_seq in Hin; [|done]. unfold seq_of in Hin.
  destruct (Z.ltb_spec (default 0 (chain_seq a)) (s + Z.of_nat (length l))); [done|lia].
Qed.

Lemma chain_head t :
  chain_ok t →
  _audit_chain_head t =
    (Z.of_nat (length (chained_rows t)), last_hash _AUDIT_CHAIN_GENESIS (chained_rows t)).
Proof.
  unfold chain_ok, _audit_chain_head. rewrite head_row_chained.
  destruct (chained_rows t) as [|r l _] using rev_ind; [done|]. intros Hc.
  rewrite (chain_head_row 1 _ _ _ ltac:(lia) Hc).
  apply chain_from_app in Hc as [_ Hr]. inversion_clear Hr as [|???? Hs _ _ _].
  unfold last_hash. rewrite foldl_app, length_app, Hs. simpl. f_equal. lia.
Qed.

(** ** INSERT *)

Lemma insert_batch_fresh last prev batch t :
  (∀ q, last < q → has_seq q t = false) →
  insert_rows (chain_batch last prev batch) t = Ret (t ++ chain_batch last prev batch).
Proof.
  revert last prev t. induction batch as [|p rest IH]; intros last prev t Hfree; simpl.
  { by rewrite app_nil_r. }
  unfold insert_row. simpl. rewrite Hfree by lia. simpl. rewrite IH.
  - by rewrite <- app_assoc.
  - intros q Hq. rewrite has_seq_app, Hfree by lia. simpl.
    rewrite bool_decide_eq_false_2; [done|]. intros [=]. lia.
Qed.

Lemma insert_batch_taken last prev p rest t :
  has_seq (last + 1) t = true →
  insert_rows (chain_batch last prev (p :: rest)) t = Raise IntegrityError.
Proof. intros Ht. simpl. unfold insert_row. simpl. by rewrite Ht. Qed.

Lemma chained_rows_app t t' : chained_rows (t ++ t') = chained_rows t ++ chained_rows t'.
Proof. apply List.filter_app. Qed.

(** A batch built on the current head extends the chain; one built on an older
    head is refused by the unique index. *)
Lemma insert_at_head t batch :
  chain_ok t →
  let '(last, prev) := _audit_chain_head t in
  insert_rows (chain_batch last prev batch) t = Ret (t ++ chain_batch last prev batch) ∧
  chain_ok (t ++ chain_batch last prev batch).
Proof.
  intros Hok. rewrite chain_head by done. split.
  - apply insert_batch_fresh. intros q Hq. rewrite has_seq_chained.
    rewrite (chain_from_has_seq _ _ _ _ Hok). apply bool_decide_eq_false_2. lia.
  - unfold chain_ok. rewrite chained_rows_app, chain_batch_chained.
    apply chain_from_app. split; [done|]. rewrite Z.add_comm. apply chain_batch_from.
Qed.

Lemma insert_stale t others p rest :
  chain_ok t → chain_ok (t ++ others) → chained_rows others ≠ [] →
  let '(last, prev) := _audit_chain_head t in
  insert_rows (chain_batch last prev (p :: rest)) (t ++ others) = Raise IntegrityError.
Proof.
  intros Hok Hok' Hne. rewrite chain_head by done. apply insert_batch_taken.
  rewrite has_seq_chained. rewrite (chain_from_has_seq _ _ _ _ Hok').
  apply bool_decide_eq_true_2. rewrite chained_rows_app, length_app.
  destruct (chained_rows others); [done|]. simpl. lia.
Qed.

(** ** The verifier on a chain *)

Lemma verify_walk_chain start s p rows :
  chain_from s p rows → verify_walk start (Some p) (Some s) rows = (true, None, None).
Proof.
  induction 1 as [|s p r rest Hs Hp Hh Hrest IH]; simpl; [done|].
  unfold seq_of. rewrite Hs. simpl. rewrite Z.eqb_refl, Hp. simpl.
  rewrite !bool_decide_eq_true_2 by done. done.
Qed.

Lemma verify_walk_chain_inv start s p rows :
  Forall (λ r, chained r = true) rows →
  verify_walk start (Some p) (Some s) rows = (true, None, None) → chain_from s p rows.
Proof.
  intros Hall. revert s p. induction Hall as [|r rows Hr Hall IH]; intros s p; simpl.
  { constructor. }
  unfold chained in Hr. destruct (chain_seq r) as [q|] eqn:Hq; [|done].
  unfold seq_of. rewrite Hq. simpl.
  destruct (Z.eqb_spec q s) as [->|]; simpl; [|done].
  case_bool_decide as Hp; [|done]. case_bool_decide as Hh; [|done].
  intros Hv. constructor; [done..|congruence|]. by apply IH.
Qed.

(** The first row is only required to hang on the genesis when it claims
    position 1 and the walk starts there. *)
Lemma verify_walk_start start r rows :
  Forall (λ r, chained r = true) (r :: rows) →
  verify_walk start None None (r :: rows) = (true, None, None) ↔
  chain_from (seq_of r) (py_str (prev_hash r)) (r :: rows) ∧
  (start = 1 → seq_of r = 1 → py_str (prev_hash r) = _AUDIT_CHAIN_GENESIS).
Proof.
  intros [Hr Hall]%Forall_cons_1. unfold chained in Hr.
  destruct (chain_seq r) as [q|] eqn:Hq; [|discriminate Hr].
  simpl. unfold seq_of. rewrite Hq. simpl. split.
  - destruct ((start =? 1) && (q =? 1) && _) eqn:Hg; [done|].
    destruct (bool_decide (compute_audit_row_hash _ _ _ _ = _)) eqn:Hh; [|done].
    intros Hv. bools. split.
    + constructor; [congruence..|]. by apply verify_walk_chain_inv in Hv.
    + intros -> ->. simpl in Hg. bools. done.
  - intros [Hc Hg]. inversion_clear Hc as [|???? _ _ Hh Hrest].
    rewrite (bool_decide_eq_true_2 (compute_audit_row_hash _ _ _ _ = _)) by done.
    rewrite (verify_walk_chain _ _ _ _ Hrest).
    destruct ((start =? 1) && (q =? 1) && _) eqn:Hb; [|done].
    rewrite !andb_true_iff in Hb. destruct Hb as [[? ?] ?]. bools. naive_solver.
Qed.

(** Where and why the walk stops: [r] does not continue a chain at position
    [s] with last hash [p]. *)
Definition breaks (s : Z) (p : string) (r : audit_row) (why : break_reason) : Prop :=
  match why with
  | FirstPrevNotGenesis => False
  | SeqGap e => e = s ∧ seq_of r ≠ s
  | PrevMismatch => seq_of r = s ∧ py_str (prev_hash r) ≠ p
  | HashMismatch =>
      seq_of r = s ∧ py_str (prev_hash r) = p ∧
      compute_audit_row_hash s (payload r) p (hash_format r) ≠ py_str (row_hash r)
  end.

(** The first row of a walk: its position is taken as it is. *)
Definition breaks_first (start : Z) (r : audit_row) (why : break_reason) : Prop :=
  match why with
  | FirstPrevNotGenesis =>
      start = 1 ∧ seq_of r = 1 ∧ py_str (prev_hash r) ≠ _AUDIT_CHAIN_GENESIS
  | _ => breaks (seq_of r) (py_str (prev_hash r)) r why ∧ why = HashMismatch
  end.

Lemma verify_walk_break start s p rows q why :
  Forall (λ r, chained r = true) rows →
  verify_walk start (Some p) (Some s) rows = (false, q, why) →
  ∃ before r after w, rows = before ++ r :: after ∧ q = Some (seq_of r) ∧ why = Some w ∧
    chain_from s p before ∧ breaks (s + Z.of_nat (length before)) (last_hash p before) r w.
Proof.
  intros Hall. revert s p. induction Hall as [|r rows Hr Hall IH]; intros s p; simpl; [done|].
  assert (∀ w, breaks s p r w → ∃ before r0 after w0, r :: rows = before ++ r0 :: after ∧
    Some (seq_of r) = Some (seq_of r0) ∧ Some w = Some w0 ∧ chain_from s p before ∧
    breaks (s + Z.of_nat (length before)) (last_hash p before) r0 w0) as Hhere.
  { intros w Hw. exists [], r, rows, w. simpl. rewrite Z.add_0_r.
    split_and!; try done. constructor. }
  destruct (Z.eqb_spec (seq_of r) s) as [Hs|]; simpl; [|intros [= <- <-]; by apply Hhere].
  case_bool_decide as Hp; [|intros [= <- <-]; by apply Hhere].
  case_bool_decide as Hh; [|intros [= <- <-]; apply Hhere; simpl; by subst].
  intros Hv. apply IH in Hv as (before & r0 & after & w & -> & -> & -> & Hc & Hb).
  exists (r :: before), r0, after, w. simpl. rewrite Hs in Hc, Hb.
  split_and!; try done.
  - constructor; [|done|by subst|done].
    unfold chained in Hr. unfold seq_of in Hs. destruct (chain_seq r); [|done].
    simpl in Hs. by subst.
  - by replace (s + Z.of_nat (S (length before))) with (s + 1 + Z.of_nat (length before)) by lia.
Qed.

Lemma verify_walk_first_break start rows q why :
  Forall (λ r, chained r = true) rows →
  verify_walk start None None rows = (false, q, why) →
  ∃ before r after w, rows = before ++ r :: after ∧ q = Some (seq_of r) ∧ why = Some w ∧
    match before with
    | [] => breaks_first start r w
    | r0 :: _ =>
        chain_from (seq_of r0) (py_str (prev_hash r0)) before ∧
        breaks (seq_of r0 + Z.of_nat (length before))
               (last_hash (py_str (prev_hash r0)) before) r w
    end.
Proof.
  destruct 1 as [|r rows Hr Hall]; simpl; [done|].
  destruct ((start =? 1) && (seq_of r =? 1) && _) eqn:Hg.
  { intros [= <- <-]. bools. exists [], r, rows, FirstPrevNotGenesis. simpl. naive_solver. }
  clear Hg. case_bool_decide as Hh.
  - intros Hv. apply verify_walk_break in Hv as (before & r0 & after & w & -> & -> & -> & Hc & Hb);
      [|done].
    exists (r :: before), r0, after, w. split_and!; try done.
    + constructor; [|done..]. unfold chained in Hr. unfold seq_of. by destruct (chain_seq r).
    + simpl.
      by replace (seq_of r + Z.of_nat (S (length before)))
        with (seq_of r + 1 + Z.of_nat (length before)) by lia.
  - intros [= <- <-]. exists [], r, rows, HashMismatch. simpl. naive_solver.
Qed.

(** ** Row selection *)

Lemma select_all t : chain_ok t → select_rows 1 t = chained_rows t.
Proof.
  intros Hok. unfold select_rows. apply order_by_strict; [by eapply chain_from_strict|].
  apply Permutation_refl'. apply List.filter_ext_in. intros r Hr.
  destruct (chained r) eqn:Hch; [|done]. simpl. apply Z.leb_le.
  assert (r ∈ chained_rows t) as Hin.
  { apply list_elem_of_In, List.filter_In. done. }
  eapply chain_from_seq in Hin; [|done]. lia.
Qed.

Lemma select_chained start t : Forall (λ r, chained r = true) (select_rows start t).
Proof.
  apply Forall_forall. intros r Hr. unfold select_rows in Hr.
  rewrite order_by_perm in Hr. apply list_elem_of_In, List.filter_In in Hr as [_ Hr].
  by bools.
Qed.

Lemma chain_from_take s p l n : chain_from s p l → chain_from s p (take n l).
Proof.
  intros Hc. rewrite <- (take_drop n l) in Hc. by apply chain_from_app in Hc as [? _].
Qed.

Lemma verify_chain_ok t limit :
  chain_ok t → verify_audit_chain 1 limit t = (true, None, None).
Proof.
  intros Hok. unfold verify_audit_chain. rewrite select_all by done.
  assert (∀ l, chain_from 1 _AUDIT_CHAIN_GENESIS l →
    verify_walk 1 None None l = (true, None, None)) as Hw.
  { intros [|r l] Hc; [done|]. pose proof Hc as Hc'.
    inversion Hc' as [|???? Hs Hp Hh Hrest]; subst.
    apply verify_walk_start.
    - apply Forall_forall. intros x Hx. eapply chain_from_seq in Hx; [|done].
      unfold chained. destruct (chain_seq x) eqn:Hxs; [done|].
      unfold seq_of in Hx. rewrite Hxs in Hx. simpl in Hx. lia.
    - unfold seq_of. rewrite Hs. simpl. rewrite Hp. done. }
  destruct limit as [n|]; apply Hw; [by apply chain_from_take|done].
Qed.
End ChainLemmas.
