(* ===== verification/AuditChain.v ===== *)
(** * Correctness of the primary audit chain

    The theorems about the definitions of [AuditLog]: the writers keep the
    table one verifiable chain whatever other writers commit in between, a
    call that returns has recorded its row, a verified chain is determined by
    its last hash, and what the verifier does not see. *)

From S2P Require Import Prelude Sha256 Json AuditCanon AuditLog.
From Stdlib Require Import QArith.

Open Scope Z_scope.

(** ** Writers under interference *)

Section Writers.
Context `{Hash}.

(** The other connections are writers of the same program: what they commit
    leaves the table a chain. *)
Fixpoint benign (evs : list db_event) (t : list audit_row) : Prop :=
  match evs with
  | [] | DbDown :: _ => True
  | DbUp others :: evs' => chain_ok (t ++ others) ∧ benign evs' (t ++ others)
  end.

(** Each attempt of [evs] loses the race: others commit a chained row. *)
Definition contended (ev : db_event) : bool :=
  match ev with
  | DbUp others => negb (bool_decide (chained_rows others = []))
  | DbDown => false
  end.

Lemma chain_batch_single last prev p :
  chain_batch last prev [p] = [chain_row (last + 1) prev p].
Proof. done. Qed.

Lemma insert_rows_single r t : insert_rows [r] t = insert_row r t.
Proof. simpl. by destruct (insert_row r t). Qed.

(** The per-row loop is the batch loop on a singleton. *)
Lemma row_attempts_flush p evs t :
  row_attempts p evs t = flush_attempts [p] evs t.
Proof.
  revert t. induction evs as [|[others|] evs IH]; intros t; [done| |done].
  cbn [row_attempts flush_attempts]. destruct (_audit_chain_head t) as [last prev].
  rewrite chain_batch_single, insert_rows_single, IH.
  by destruct (insert_row _ _) as [|[]].
Qed.

(** An attempt that meets no concurrent chained commit succeeds; one that does
    is refused. *)
Lemma attempt_uncontended t others batch :
  chain_ok t → chained_rows others = [] →
  let '(last, prev) := _audit_chain_head t in
  insert_rows (chain_batch last prev batch) (t ++ others)
    = Ret ((t ++ others) ++ chain_batch last prev batch) ∧
  chain_ok ((t ++ others) ++ chain_batch last prev batch).
Proof.
  intros Hok Hnone.
  assert (chained_rows (t ++ others) = chained_rows t) as Heq.
  { by rewrite chained_rows_app, Hnone, app_nil_r. }
  assert (chain_ok (t ++ others)) as Hok' by (unfold chain_ok; by rewrite Heq).
  pose proof (insert_at_head (t ++ others) batch Hok') as Hins.
  rewrite chain_head in Hins by done. rewrite chain_head by done. by rewrite Heq in Hins.
Qed.

(** What the retry loop can do, in one statement: it ends with a chain; it
    reports success exactly when it appended the whole batch on top of the
    head; it reports exhaustion only when every attempt lost a race. *)
Lemma flush_attempts_spec p rest evs t :
  chain_ok t → benign evs t →
  let '(res, t') := flush_attempts (p :: rest) evs t in
  chain_ok t' ∧
  match res with
  | Flushed n =>
      n = Z.of_nat (length (p :: rest)) ∧
      ∃ others last prev, t' = t ++ others ++ chain_batch last prev (p :: rest)
  | FlushExhausted => Forall (λ ev, contended ev = true) evs ∧ ∃ others, t' = t ++ others
  | FlushFailed e => e = OperationalError ∧ ∃ others, t' = t ++ others
  end.
Proof.
  revert t. induction evs as [|ev evs IH]; intros t Hok Hben.
  { simpl. split; [done|]. split; [constructor|]. exists []. by rewrite app_nil_r. }
  destruct ev as [others|].
  2: { simpl. split; [done|]. split; [done|]. exists []. by rewrite app_nil_r. }
  cbn [benign flush_attempts] in *. destruct Hben as [Hok' Hben].
  destruct (decide (chained_rows others = [])) as [Hnone|Hsome].
  - pose proof (attempt_uncontended t others (p :: rest) Hok Hnone) as Ha.
    destruct (_audit_chain_head t) as [last prev]. destruct Ha as [-> Hc].
    split; [done|]. split; [done|]. exists others, last, prev. by rewrite app_assoc.
  - pose proof (insert_stale t others p rest Hok Hok' Hsome) as Hi.
    destruct (_audit_chain_head t) as [last prev]. rewrite Hi.
    specialize (IH _ Hok' Hben). destruct (flush_attempts _ _ _) as [res t'].
    destruct IH as [Hc Hres]. split; [done|]. destruct res as [n| |e].
    + destruct Hres as [Hn (o & l & q & ->)]. split; [done|].
      exists (others ++ o), l, q. by rewrite <- !app_assoc.
    + destruct Hres as [Hall [o ->]]. split.
      * constructor; [|done]. simpl. by rewrite bool_decide_eq_false_2.
      * exists (others ++ o). by rewrite app_assoc.
    + destruct Hres as [-> [o ->]]. split; [done|]. exists (others ++ o). by rewrite app_assoc.
Qed.

(** The environment of a call: other writers of the program around each of
    its attempts. *)
Definition benign_env (env : nat → db_event) (t : list audit_row) : Prop :=
  benign (attempts env) t.

(** No other writer. *)
Definition calm : nat → db_event := λ _, DbUp [].

Lemma calm_table_benign t : chain_ok t → benign_env calm t.
Proof.
  intros Hok. unfold benign_env, attempts, calm. generalize (seq 0 _AUDIT_CHAIN_MAX_RETRIES).
  intros l. induction l as [|n l IH]; simpl; [done|]. by rewrite app_nil_r.
Qed.

Definition payloads (t : list audit_row) : list audit_payload := payload <$> chained_rows t.

Lemma chain_batch_payloads last prev batch :
  payload <$> chain_batch last prev batch = batch.
Proof.
  revert last prev. induction batch as [|p rest IH]; intros; simpl; [done|]. by rewrite IH.
Qed.

Lemma payloads_app t t' : payloads (t ++ t') = payloads t ++ payloads t'.
Proof. unfold payloads. by rewrite chained_rows_app, fmap_app. Qed.

Lemma payloads_batch last prev batch : payloads (chain_batch last prev batch) = batch.
Proof. unfold payloads. by rewrite chain_batch_chained, chain_batch_payloads. Qed.

(** The flush of a non-empty queue, seen through what it records. *)
Lemma flush_spec cfg propagate env w :
  chain_ok (w_table w) → benign_env env (w_table w) →
  let '(res, w') := _flush_locked cfg propagate env w in
  chain_ok (w_table w') ∧ w_pending w' = [] ∧
  ∃ others,
    match res with
    | Ret n =>
        (n = Z.of_nat (length (w_pending w)) ∧
         payloads (w_table w') = payloads (w_table w) ++ others ++ w_pending w) ∨
        (n = 0 ∧ propagate = false ∧
         w_unhealthy w' = (w_unhealthy w || background_fail_deny cfg) ∧
         payloads (w_table w') = payloads (w_table w) ++ others)
    | Raise e =>
        (e = OperationalError ∨ e = AuditChainExhausted ∧ propagate = true) ∧
        w_unhealthy w' = w_unhealthy w ∧
        payloads (w_table w') = payloads (w_table w) ++ others
    end.
Proof.
  intros Hok Hben. unfold _flush_locked.
  destruct (w_pending w) as [|p rest] eqn:Hp.
  { split; [done|]. split; [done|]. exists []. left. by rewrite !app_nil_r. }
  pose proof (flush_attempts_spec p rest _ _ Hok Hben) as Hf.
  destruct (flush_attempts _ _ _) as [res t']. destruct Hf as [Hc Hres].
  destruct res as [n| |e]; simpl.
  - destruct Hres as [-> (o & l & q & ->)]. split; [done|]. split; [done|].
    exists (payloads o). left. split; [done|]. by rewrite !payloads_app, payloads_batch.
  - destruct Hres as [_ [o ->]]. destruct propagate; [|destruct (background_fail_deny cfg) eqn:Hb];
      simpl; (split; [done|]); (split; [done|]); exists (payloads o); rewrite payloads_app.
    + naive_solver.
    + right. by rewrite orb_true_r.
    + right. by rewrite orb_false_r.
  - destruct Hres as [-> [o ->]]. split; [done|]. split; [done|].
    exists (payloads o). rewrite payloads_app. naive_solver.
Qed.
End Writers.

(** ** What a call to [log_audit] does *)

Section LogAudit.
Context `{Hash}.

Lemma append_spec cfg p env w :
  chain_ok (w_table w) → benign_env env (w_table w) →
  let '(res, w') := append cfg p env w in
  chain_ok (w_table w') ∧
  ∃ others,
    match res with
    | Ret _ =>
        payloads (w_table w') ++ w_pending w'
          = payloads (w_table w) ++ others ++ w_pending w ++ [p]
    | Raise e =>
        (e = OperationalError ∨ e = AuditChainExhausted) ∧ w_pending w' = [] ∧
        w_unhealthy w' = w_unhealthy w ∧
        payloads (w_table w') = payloads (w_table w) ++ others
    end.
Proof.
  intros Hok Hben. unfold append.
  set (w1 := {| w_table := w_table w; w_pending := w_pending w ++ [p];
                w_unhealthy := w_unhealthy w |}).
  destruct (_ <=? _).
  2: { split; [done|]. by exists []. }
  pose proof (flush_spec cfg true env w1 Hok Hben) as Hf.
  destruct (_flush_locked cfg true env w1) as [[n|e] w2];
    destruct Hf as (Hc & Hpend & others & Hf); split; try done; exists others.
  - destruct Hf as [[_ ->]|(_ & [=] & _)]. by rewrite Hpend, app_nil_r.
  - naive_solver.
Qed.

Lemma per_row_spec p env t :
  chain_ok t → benign_env env t →
  let '(res, t') := row_attempts p (attempts env) t in
  chain_ok t' ∧
  ∃ others,
    match res with
    | Flushed _ => payloads t' = payloads t ++ others ++ [p]
    | FlushExhausted => payloads t' = payloads t ++ others
    | FlushFailed e => e = OperationalError ∧ payloads t' = payloads t ++ others
    end.
Proof.
  intros Hok Hben. rewrite row_attempts_flush.
  pose proof (flush_attempts_spec p [] _ _ Hok Hben) as Hf.
  destruct (flush_attempts _ _ _) as [[n| |e] t']; destruct Hf as [Hc Hf]; (split; [done|]).
  - destruct Hf as (_ & o & l & q & ->). exists (payloads o).
    by rewrite !payloads_app, payloads_batch.
  - destruct Hf as [_ [o ->]]. exists (payloads o). apply payloads_app.
  - destruct Hf as [-> [o ->]]. exists (payloads o). split; [done|]. apply payloads_app.
Qed.

(** The row of the call is in the table or in the queue, with everything that
    was there before. *)
Definition recorded (e : audit_env) (c : audit_call) (w w' : world) : Prop :=
  ∃ others,
    payloads (w_table w') ++ w_pending w'
      ≡ₚ payloads (w_table w) ++ others ++ w_pending w ++ [call_payload e c].

(** Nothing was added to the table but what other connections committed. *)
Definition unrecorded (w w' : world) : Prop :=
  ∃ others, payloads (w_table w') = payloads (w_table w) ++ others.

(** The three ways a call ends: it returns with the row recorded, it returns
    without it because the operator turned fail-deny off, or it raises. *)
Definition call_post (e : audit_env) (c : audit_call) (w : world) (r : outcome unit * world)
    : Prop :=
  chain_ok (w_table (snd r)) ∧
  match fst r with
  | Ret _ => recorded e c w (snd r) ∨ audit_fail_deny e = false ∧ unrecorded w (snd r)
  | Raise _ => unrecorded w (snd r)
  end.

Lemma exhausted_post e c w w' :
  chain_ok (w_table w') → unrecorded w w' →
  call_post e c w (if audit_fail_deny e then (Raise RuntimeError, w') else (Ret tt, w')).
Proof. intros Hc Hu. unfold call_post. destruct (audit_fail_deny e); simpl; auto. Qed.

Lemma log_audit_spec e c env w :
  chain_ok (w_table w) → benign_env env (w_table w) → call_post e c w (log_audit e c env w).
Proof.
  intros Hok Hben. unfold log_audit.
  destruct (_enforce_audit_detail_size _) as [_|ex].
  2: { split; [done|]. exists []. by rewrite app_nil_r. }
  pose proof (per_row_spec (call_payload e c) env _ Hok Hben) as Hrow.
  pose proof (append_spec) as Happ.
  match goal with |- call_post _ _ _ (match _ with None => ?p | _ => _ end) =>
    assert (call_post e c w p) as Hper end.
  { destruct (row_attempts _ _ _) as [res t']. destruct Hrow as [Hc [o Ho]].
    destruct res as [n| |ex].
    - split; [done|]. left. exists o. simpl. rewrite Ho, <- !app_assoc.
      do 2 f_equiv. by rewrite (Permutation_app_comm [_]).
    - apply exhausted_post; [done|]. by exists o.
    - split; [done|]. exists o. by destruct Ho. }
  destruct (batched_chain e) as [cfg|]; [|exact Hper].
  destruct (_ || _); [exact Hper|]. clear Hper Hrow.
  specialize (Happ cfg (call_payload e c) env w Hok Hben).
  destruct (append cfg _ env w) as [[u|ex] w1]; destruct Happ as [Hc [o Ho]].
  - split; [done|]. left. exists o. simpl. by rewrite Ho.
  - destruct Ho as ([->| ->] & _ & _ & Ho).
    + split; [done|]. by exists o.
    + apply exhausted_post; [done|]. by exists o.
Qed.
End LogAudit.

(** ** The chain across workers

    Several workers write the table at once: each reads the head, builds its
    rows and INSERTs them, and other workers may commit in between.  A refused
    worker reads the head again while it has attempts left. *)

Section Workers.
Context `{Hash}.

Record building := {
  b_batch : list audit_payload;
  b_last : Z;
  b_prev : string;
  b_attempt : nat;
}.

Record system := {
  s_table : list audit_row;
  s_workers : gmap nat building;
}.

Definition read_head (t : list audit_row) (batch : list audit_payload) (n : nat) : building :=
  let '(last, prev) := _audit_chain_head t in
  {| b_batch := batch; b_last := last; b_prev := prev; b_attempt := n |}.

Inductive worker_step : system → system → Prop :=
| step_begin s w batch :
    s_workers s !! w = None → batch ≠ [] →
    worker_step s {| s_table := s_table s;
                     s_workers := <[w := read_head (s_table s) batch 1]> (s_workers s) |}
| step_commit s w b t :
    s_workers s !! w = Some b →
    insert_rows (chain_batch (b_last b) (b_prev b) (b_batch b)) (s_table s) = Ret t →
    worker_step s {| s_table := t; s_workers := delete w (s_workers s) |}
| step_retry s w b :
    s_workers s !! w = Some b →
    insert_rows (chain_batch (b_last b) (b_prev b) (b_batch b)) (s_table s)
      = Raise IntegrityError →
    (b_attempt b < _AUDIT_CHAIN_MAX_RETRIES)%nat →
    worker_step s {| s_table := s_table s;
                     s_workers :=
                       <[w := read_head (s_table s) (b_batch b) (S (b_attempt b))]> (s_workers s) |}
| step_give_up s w b :
    s_workers s !! w = Some b →
    worker_step s {| s_table := s_table s; s_workers := delete w (s_workers s) |}.

Definition boot : system := {| s_table := []; s_workers := ∅ |}.

(** A building worker holds the head of some earlier state of the table. *)
Definition fresh_head (t : list audit_row) (b : building) : Prop :=
  b_batch b ≠ [] ∧
  ∃ t0 later, t = t0 ++ later ∧ chain_ok t0 ∧ _audit_chain_head t0 = (b_last b, b_prev b).

Definition system_inv (s : system) : Prop :=
  chain_ok (s_table s) ∧ map_Forall (λ _ b, fresh_head (s_table s) b) (s_workers s).

Lemma read_head_fresh t batch n :
  chain_ok t → batch ≠ [] → fresh_head t (read_head t batch n).
Proof.
  intros Hok Hne. unfold fresh_head, read_head.
  destruct (_audit_chain_head t) as [last prev] eqn:Hh. split; [done|].
  exists t, []. by rewrite app_nil_r.
Qed.

(** An INSERT that goes through was built on the current head. *)
Lemma commit_chain_ok t b t' :
  chain_ok t → fresh_head t b →
  insert_rows (chain_batch (b_last b) (b_prev b) (b_batch b)) t = Ret t' →
  chain_ok t' ∧ ∃ rows, t' = t ++ rows.
Proof.
  intros Hok (Hne & t0 & later & -> & Hok0 & Hh) Hins.
  destruct (b_batch b) as [|p rest]; [done|].
  destruct (decide (chained_rows later = [])) as [Hnone|Hsome].
  - pose proof (attempt_uncontended t0 later (p :: rest) Hok0 Hnone) as Ha.
    rewrite Hh in Ha. destruct Ha as [Ha Hc]. rewrite Ha in Hins. injection Hins as <-.
    split; [done|]. eauto.
  - pose proof (insert_stale t0 later p rest Hok0 Hok Hsome) as Hi.
    rewrite Hh in Hi. congruence.
Qed.

Lemma fresh_head_extend t rows b : fresh_head t b → fresh_head (t ++ rows) b.
Proof.
  intros (Hne & t0 & later & -> & ? & ?). split; [done|].
  exists t0, (later ++ rows). by rewrite app_assoc.
Qed.

Lemma worker_step_inv s s' : worker_step s s' → system_inv s → system_inv s'.
Proof.
  intros Hstep [Hok Hw]. destruct Hstep as [s w batch Hn Hne|s w b t Hb Hins|s w b Hb Hins Hn|s w b Hb];
    split; simpl; try done.
  - apply map_Forall_insert_2; [by apply read_head_fresh|done].
  - eapply commit_chain_ok; eauto.
  - destruct (commit_chain_ok _ _ _ Hok (Hw _ _ Hb) Hins) as [_ [rows ->]].
    apply map_Forall_delete. intros i b' Hi. apply fresh_head_extend. by eapply Hw.
  - apply map_Forall_insert_2; [|done]. apply read_head_fresh; [done|].
    by destruct (Hw _ _ Hb).
  - by apply map_Forall_delete.
Qed.

Lemma boot_inv : system_inv boot.
Proof. split; [constructor|apply map_Forall_empty]. Qed.

Lemma reachable_inv s : rtc worker_step boot s → system_inv s.
Proof.
  intros Hr. remember boot as s0 eqn:Hs0.
  assert (system_inv s0) as Hinv by (subst; apply boot_inv). clear Hs0.
  induction Hr as [|s0 s1 s2 Hstep _ IH]; eauto using worker_step_inv.
Qed.
End Workers.

(** ** Tamper evidence *)

Section Tamper.
Context `{Hash}.

(** The text a row's hash is computed from. *)
Definition row_text (r : audit_row) : string :=
  canonical_audit_row (seq_of r) (payload r) (py_str (prev_hash r)) (hash_format r).

Definition same_row (r r' : audit_row) : Prop :=
  seq_of r = seq_of r' ∧ py_str (prev_hash r) = py_str (prev_hash r') ∧
  py_str (row_hash r) = py_str (row_hash r') ∧
  is_v2 (hash_format r) = is_v2 (hash_format r') ∧
  same_hashed (hash_format r) (payload r) (payload r').

Lemma last_hash_pipe_free s p l :
  chain_from s p l → no_pipe p → no_pipe (last_hash p l).
Proof.
  induction 1 as [|s p r rest Hs Hp Hh Hrest IH]; [done|]. intros _. simpl.
  apply IH. rewrite <- Hh. apply hexdigest_pipe_free.
Qed.

Lemma chain_snoc_inv s p l r :
  chain_from s p (l ++ [r]) →
  chain_from s p l ∧ seq_of r = s + Z.of_nat (length l) ∧
  py_str (prev_hash r) = last_hash p l ∧ hexdigest (row_text r) = py_str (row_hash r).
Proof.
  intros Hc. apply chain_from_app in Hc as [Hl Hr].
  inversion_clear Hr as [|???? Hs Hp Hh _]. split; [done|].
  unfold row_text, seq_of. rewrite Hs, Hp. done.
Qed.

Lemma last_hash_snoc p l r : last_hash p (l ++ [r]) = py_str (row_hash r).
Proof. unfold last_hash. by rewrite foldl_app. Qed.

Lemma same_head_same_chain l l' :
  chain_from 1 _AUDIT_CHAIN_GENESIS l → chain_from 1 _AUDIT_CHAIN_GENESIS l' →
  Forall (λ r, clean_payload (payload r)) l → Forall (λ r, clean_payload (payload r)) l' →
  collision_free ((row_text <$> l) ++ (row_text <$> l')) →
  last_hash _AUDIT_CHAIN_GENESIS l = last_hash _AUDIT_CHAIN_GENESIS l' →
  Forall2 same_row l l'.
Proof.
  revert l'. induction l as [|r l IH] using rev_ind; intros l' Hc Hc' Hcl Hcl' Hcf Heq.
  - destruct l' as [|r' l' _] using rev_ind; [constructor|].
    apply chain_snoc_inv in Hc' as (_ & _ & _ & Hh). rewrite last_hash_snoc, <- Hh in Heq.
    symmetry in Heq. by apply hex_not_genesis in Heq.
  - apply chain_snoc_inv in Hc as (Hc & Hs & Hp & Hh). rewrite last_hash_snoc in Heq.
    destruct l' as [|r' l' _] using rev_ind.
    { rewrite <- Hh in Heq. by apply hex_not_genesis in Heq. }
    apply chain_snoc_inv in Hc' as (Hc' & Hs' & Hp' & Hh'). rewrite last_hash_snoc in Heq.
    apply Forall_app in Hcl as [Hcl [Hr _]%Forall_cons_1].
    apply Forall_app in Hcl' as [Hcl' [Hr' _]%Forall_cons_1].
    assert (row_text r = row_text r') as Htext.
    { apply Hcf.
      - rewrite fmap_app. set_solver.
      - rewrite (fmap_app _ l'). set_solver.
      - apply hexdigest_digest. congruence. }
    assert (no_pipe _AUDIT_CHAIN_GENESIS) as Hgen by done.
    unfold row_text in Htext. apply canonical_inj in Htext as (Hf & Hseq & Hsame & Hprev);
      [|done|done|rewrite Hp; by eapply last_hash_pipe_free
       |rewrite Hp'; by eapply last_hash_pipe_free].
    apply Forall2_app; [|by repeat constructor].
    apply IH; try done; [|congruence].
    eapply collision_free_sub; [|exact Hcf]. rewrite !fmap_app. set_solver.
Qed.

(** What [verify_audit_chain] certifies about a table that starts at 1. *)
Lemma verified_chain t :
  verify_audit_chain 1 None t = (true, None, None) →
  (seq_of <$> head (select_rows 1 t)) = Some 1 ∨ select_rows 1 t = [] →
  chain_from 1 _AUDIT_CHAIN_GENESIS (select_rows 1 t).
Proof.
  unfold verify_audit_chain. intros Hv Hstart.
  pose proof (select_chained 1 t) as Hch.
  destruct (select_rows 1 t) as [|r rows]; [constructor|].
  destruct Hstart as [Hstart|]; [|done]. simpl in Hstart. injection Hstart as Hs.
  apply verify_walk_start in Hv as [Hc Hg]; [|done].
  rewrite Hg in Hc by done. by rewrite Hs in Hc.
Qed.
End Tamper.

(** ** Batched and per-row writing build the same table *)

Section Equivalence.
Context `{Hash}.

(** No other connection commits anything. *)
Definition quiet : nat → db_event := λ _, DbUp [].

Lemma last_hash_app p l l' : last_hash p (l ++ l') = last_hash (last_hash p l) l'.
Proof. apply foldl_app. Qed.

Lemma chain_batch_app last prev b b' :
  chain_batch last prev (b ++ b') =
  chain_batch last prev b ++
    chain_batch (last + Z.of_nat (length b)) (last_hash prev (chain_batch last prev b)) b'.
Proof.
  revert last prev. induction b as [|p b IH]; intros last prev; simpl.
  - by rewrite Z.add_0_r.
  - rewrite IH. do 3 f_equal. lia.
Qed.

Definition extend (t : list audit_row) (batch : list audit_payload) : list audit_row :=
  t ++ chain_batch (_audit_chain_head t).1 (_audit_chain_head t).2 batch.

Lemma extend_ok t batch : chain_ok t → chain_ok (extend t batch).
Proof.
  intros Hok. pose proof (insert_at_head t batch Hok) as Hi. unfold extend.
  destruct (_audit_chain_head t). by destruct Hi.
Qed.

Lemma extend_app t b b' : chain_ok t → extend (extend t b) b' = extend t (b ++ b').
Proof.
  intros Hok. unfold extend at 1. rewrite (chain_head (extend t b)) by by apply extend_ok.
  unfold extend. rewrite chain_head by done. simpl.
  rewrite chained_rows_app, chain_batch_chained, length_app, last_hash_app,
    chain_batch_length, chain_batch_app, <- app_assoc. do 3 f_equal. lia.
Qed.

Lemma flush_quiet batch t :
  chain_ok t → batch ≠ [] →
  flush_attempts batch (attempts quiet) t = (Flushed (Z.of_nat (length batch)), extend t batch).
Proof.
  intros Hok Hne. unfold attempts, quiet. simpl. rewrite app_nil_r.
  pose proof (insert_at_head t batch Hok) as Hi. unfold extend.
  destruct (_audit_chain_head t). destruct Hi as [-> _]. done.
Qed.

Definition write_rows (t : list audit_row) (ps : list audit_payload) : list audit_row :=
  foldl (λ t p, (row_attempts p (attempts quiet) t).2) t ps.

Definition write_batched (cfg : batch_config) (w : world) (ps : list audit_payload) : world :=
  (flush_now cfg false quiet (foldl (λ w p, (append cfg p quiet w).2) w ps)).2.

Lemma write_rows_extend t ps : chain_ok t → write_rows t ps = extend t ps.
Proof.
  unfold write_rows. revert t. induction ps as [|p ps IH]; intros t Hok; cbn [foldl].
  - unfold extend. simpl. by rewrite app_nil_r.
  - rewrite row_attempts_flush, flush_quiet by done. simpl.
    rewrite IH by by apply extend_ok. by rewrite extend_app.
Qed.

Lemma flush_locked_quiet cfg propagate w :
  chain_ok (w_table w) →
  w_table (_flush_locked cfg propagate quiet w).2 = extend (w_table w) (w_pending w) ∧
  w_pending (_flush_locked cfg propagate quiet w).2 = [].
Proof.
  intros Hok. unfold _flush_locked. destruct (w_pending w) as [|p rest] eqn:Hp.
  - split; [|done]. unfold extend. simpl. by rewrite app_nil_r.
  - by rewrite flush_quiet.
Qed.

Lemma append_quiet cfg w p :
  chain_ok (w_table w) →
  let w' := (append cfg p quiet w).2 in
  chain_ok (w_table w') ∧
  extend (w_table w') (w_pending w') = extend (w_table w) (w_pending w ++ [p]).
Proof.
  intros Hok. unfold append. destruct (_ <=? _); [|by simpl].
  set (w1 := {| w_table := w_table w; w_pending := w_pending w ++ [p];
                w_unhealthy := w_unhealthy w |}).
  destruct (flush_locked_quiet cfg true w1 Hok) as [Ht Hp].
  destruct (_flush_locked cfg true quiet w1) as [[n|ex] w2]; simpl in *;
    rewrite Ht, Hp; (split; [by apply extend_ok|]);
    rewrite extend_app by done; by rewrite app_nil_r.
Qed.

Lemma write_batched_extend cfg w ps :
  chain_ok (w_table w) →
  w_table (write_batched cfg w ps) = extend (w_table w) (w_pending w ++ ps).
Proof.
  unfold write_batched. revert w. induction ps as [|p ps IH]; intros w Hok; simpl.
  - rewrite app_nil_r. by apply flush_locked_quiet.
  - destruct (append_quiet cfg w p Hok) as [Hok' Heq]. rewrite IH by done.
    rewrite <- extend_app by done. rewrite Heq, extend_app by done. by rewrite <- app_assoc.
Qed.
End Equivalence.

(** ** What the verifier does not see *)

Section Blind.
Context `{Hash}.

Definition with_tool_name (o : option string) (p : audit_payload) : audit_payload :=
  {| timestamp := timestamp p; agent_id := agent_id p; action := action p; tool_name := o;
     status := status p; detail := detail p; request_id := request_id p;
     duration_ms := duration_ms p; dpop_jkt := dpop_jkt p;
     on_behalf_of_user_id := on_behalf_of_user_id p |}.

Lemma chain_from_drop s p l k :
  chain_from s p l → ∃ p', chain_from (s + Z.of_nat (k `min` length l)) p' (drop k l).
Proof.
  intros Hc. rewrite <- (take_drop k l) in Hc. apply chain_from_app in Hc as [_ Hd].
  rewrite length_take in Hd. eauto.
Qed.

(** The selected rows of a list that is itself a chain from [s]. *)
Lemma select_chain s p l : 1 <= s → chain_from s p l → select_rows 1 l = l.
Proof.
  intros Hs Hc. apply order_by_strict; [by eapply chain_from_strict|].
  apply Permutation_refl'. apply filter_id, Forall_forall.
  intros r Hr. pose proof (chain_from_seq _ _ _ _ Hc Hr).
  unfold seq_of, chained in *. destruct (chain_seq r); simpl in *; [|lia].
  apply Z.leb_le. lia.
Qed.

Lemma verify_walk_shifted s p l : 1 < s → chain_from s p l → verify_walk 1 None None l = (true, None, None).
Proof.
  intros Hs Hc. destruct l as [|r l]; [done|].
  assert (Forall (λ r, chained r = true) (r :: l)) as Hall.
  { rewrite <- (select_chain s p (r :: l)) by (done || lia). apply select_chained. }
  apply verify_walk_start; [done|]. inversion Hc as [|???? Hseq Hp]; subst.
  unfold seq_of. rewrite Hseq. simpl. split; [done|lia].
Qed.

Lemma verify_dropped_prefix t k limit :
  chain_ok t → (0 < k)%nat →
  verify_audit_chain 1 limit (drop k (chained_rows t)) = (true, None, None).
Proof.
  intros Hok Hk. unfold verify_audit_chain.
  destruct (chain_from_drop _ _ _ k Hok) as [p Hd].
  assert (select_rows 1 (drop k (chained_rows t)) = drop k (chained_rows t)) as ->.
  { eapply select_chain; [|exact Hd]. lia. }
  destruct (decide (drop k (chained_rows t) = [])) as [->|Hne]; [by destruct limit; rewrite ?take_nil|].
  assert (1 < 1 + Z.of_nat (k `min` length (chained_rows t))).
  { destruct (chained_rows t); [by rewrite drop_nil in Hne|]. simpl. destruct k; simpl; lia. }
  destruct limit as [n|]; [|by eapply verify_walk_shifted].
  eapply verify_walk_shifted; [done|]. by apply chain_from_take.
Qed.
End Blind.

(** ** Properties *)

Section Properties.
Context `{Hash}.

(** C1: however many workers build and INSERT rows concurrently, retrying on
    the unique index, the [audit_log] table they leave verifies from the
    genesis, whatever window is read. *)
Theorem workers_keep_chain (s : system) (limit : option nat) :
  rtc worker_step boot s →
  verify_audit_chain 1 limit (s_table s) = (true, None, None).
Proof. intros Hr. apply verify_chain_ok. by apply reachable_inv in Hr as [? _]. Qed.

(** C2: when [verify_audit_chain] accepts two tables that both start with the
    row at position 1 and the last row hashes agree, the tables have as many
    rows and their rows agree one by one in every hashed field ([same_row]: a
    field that is absent and one that is empty hash alike, and [duration_ms] is
    not hashed).  This asks that the texts the two tables hash show no SHA-256
    collision and that no text field other than [detail] holds the separator
    [|] ([clean_payload]).  The verifier itself does not require the row at
    position 1 ([verify_accepts_dropped_prefix]). *)
Theorem head_hash_determines_chain (t t' : list audit_row) :
  verify_audit_chain 1 None t = (true, None, None) →
  verify_audit_chain 1 None t' = (true, None, None) →
  seq_of <$> head (select_rows 1 t) = Some 1 →
  seq_of <$> head (select_rows 1 t') = Some 1 →
  Forall (λ r, clean_payload (payload r)) (select_rows 1 t) →
  Forall (λ r, clean_payload (payload r)) (select_rows 1 t') →
  collision_free ((row_text <$> select_rows 1 t) ++ (row_text <$> select_rows 1 t')) →
  last_hash _AUDIT_CHAIN_GENESIS (select_rows 1 t)
    = last_hash _AUDIT_CHAIN_GENESIS (select_rows 1 t') →
  Forall2 same_row (select_rows 1 t) (select_rows 1 t').
Proof. intros Hv Hv' Hs Hs'. apply same_head_same_chain; apply verified_chain; auto. Qed.

(** [log_audit] keeps the table a verifiable chain on every path — batched
    or per-row, success, conflict, exhaustion or database failure — while
    other writers commit chained rows between its attempts. *)
Theorem log_audit_keeps_chain (e : audit_env) (c : audit_call) (env : nat → db_event)
    (w : world) (limit : option nat) :
  chain_ok (w_table w) → benign_env env (w_table w) →
  verify_audit_chain 1 limit (w_table (log_audit e c env w).2) = (true, None, None).
Proof. intros Hok Hben. apply verify_chain_ok. by apply (log_audit_spec e c env w). Qed.

(** C3: under [audit_fail_deny] a call that returns has recorded its row, with
    nothing lost: table and queue together hold what they held, what others
    committed, and the call's row. *)
Theorem log_audit_return_recorded (e : audit_env) (c : audit_call) (env : nat → db_event)
    (w w' : world) :
  chain_ok (w_table w) → benign_env env (w_table w) → audit_fail_deny e = true →
  log_audit e c env w = (Ret tt, w') →
  ∃ others,
    payloads (w_table w') ++ w_pending w'
      ≡ₚ payloads (w_table w) ++ others ++ w_pending w ++ [call_payload e c].
Proof.
  intros Hok Hben Hfd Hcall. pose proof (log_audit_spec e c env w Hok Hben) as [_ Hpost].
  rewrite Hcall in Hpost. simpl in Hpost. destruct Hpost as [?|[? _]]; [done|congruence].
Qed.

(** C32: while no other connection writes and the database does not fail,
    batching does not change what is written: for any batch size, and from an
    empty queue, the appends followed by a flush leave the very table the
    per-row path leaves, hashes included.  With other writers the two paths
    number their rows differently ([workers_keep_chain] is what is left of the
    chain then), and when the database fails they differ: the tick loses its
    queue ([failed_tick_loses_queue]). *)
Theorem batched_equals_per_row (cfg : batch_config) (w : world) (ps : list audit_payload) :
  chain_ok (w_table w) → w_pending w = [] →
  w_table (write_batched cfg w ps) = write_rows (w_table w) ps.
Proof.
  intros Hok Hp. rewrite write_batched_extend, Hp by done. by rewrite write_rows_extend.
Qed.

(** a rejection of [verify_audit_chain] is located and explained: the rows
    before the reported one are a chain, and the reported row fails to continue
    it for the reported reason — a gap in the positions, a wrong link, a wrong
    hash, or a first row that does not hang on the genesis. *)
Theorem verify_reports_first_break (start : Z) (t : list audit_row) (q : option Z)
    (why : option break_reason) :
  verify_audit_chain start None t = (false, q, why) →
  ∃ before r after w,
    select_rows start t = before ++ r :: after ∧ q = Some (seq_of r) ∧ why = Some w ∧
    match before with
    | [] => breaks_first start r w
    | r0 :: _ =>
        chain_from (seq_of r0) (py_str (prev_hash r0)) before ∧
        breaks (seq_of r0 + Z.of_nat (length before))
               (last_hash (py_str (prev_hash r0)) before) r w
    end.
Proof. apply verify_walk_first_break, select_chained. Qed.

(** what [verify_audit_chain] does not see. Deleting any number of the
    oldest rows leaves a table that still verifies from position 1: the walk
    takes the first remaining row's position as it is. *)
Theorem verify_accepts_dropped_prefix (t : list audit_row) (k : nat) (limit : option nat) :
  chain_ok t → (0 < k)%nat →
  verify_audit_chain 1 limit (drop k (chained_rows t)) = (true, None, None).
Proof. apply verify_dropped_prefix. Qed.

(** a database failure during a periodic tick loses every queued row: the
    queue is cleared before the first attempt, nothing is written, no flag is
    raised, so no later tick retries them. *)
Theorem failed_tick_loses_queue (cfg : batch_config) (env : nat → db_event) (w : world) :
  env 0%nat = DbDown →
  periodic_tick cfg env w =
    {| w_table := w_table w; w_pending := []; w_unhealthy := w_unhealthy w |}.
Proof.
  intros Hdown. unfold periodic_tick, flush_now, _flush_locked.
  destruct w as [t pending u]. simpl. destruct pending as [|p rest]; [done|].
  unfold attempts. simpl. by rewrite Hdown.
Qed.

(** The row hash does not separate a missing field from an empty one:
    [tool_name] [None] and [""] give the same canonical text, so the same
    hash, in both formats. *)
Theorem missing_tool_name_hashes_as_empty (seq : Z) (p : audit_payload) (prev : string)
    (fmt : option string) :
  compute_audit_row_hash seq (with_tool_name None p) prev fmt =
  compute_audit_row_hash seq (with_tool_name (Some "") p) prev fmt.
Proof. unfold compute_audit_row_hash, canonical_audit_row. by destruct (is_v2 fmt). Qed.
End Properties.

(** ** Witnesses: a three-row chain hashed with SHA-256 *)

Module Demo.
Definition payload1 (who what : string) (det : option string) : audit_payload :=
  {| timestamp := "2026-06-02T07:05:09.000420+00:00"; agent_id := who; action := what;
     tool_name := Some "search"; status := "success"; detail := det; request_id := None;
     duration_ms := None; dpop_jkt := Some "jkt"; on_behalf_of_user_id := None |}.
Definition p1 := payload1 "acme::alice" "tool.call" (Some "a|b").
Definition p2 := payload1 "acme::bob" "auth.login" None.
Definition p3 := payload1 "acme::carol" "tool.call" (Some "{}").
Definition table : list audit_row :=
  Eval vm_compute in chain_batch 0 _AUDIT_CHAIN_GENESIS [p1; p2; p3].

Lemma table_ok : chain_ok table.
Proof.
  change table with (chain_batch 0 _AUDIT_CHAIN_GENESIS [p1; p2; p3]) at 1.
  unfold chain_ok. rewrite chain_batch_chained. apply (chain_batch_from 0).
Qed.

Definition cfg : batch_config :=
  {| batch_size := 2; flush_interval_s := 1; background_fail_deny := true |}.
Definition env : audit_env :=
  {| now_iso := "2026-06-02T07:05:10+00:00"; current_dpop_jkt := Some "jkt";
     current_on_behalf_of_user := None; batched_chain := Some cfg;
     audit_chain_disabled := false; audit_chain_durable := false; audit_fail_deny := true |}.
Definition call : audit_call :=
  {| c_agent_id := "acme::dave"; c_action := "tool.call"; c_status := "success";
     c_tool_name := Some "search"; c_detail := None; c_details := Some (JObj [("n", JInt 1)]);
     c_request_id := Some "r-1"; c_duration_ms := None; c_dpop_jkt := None;
     c_on_behalf_of_user_id := None |}.
Definition world0 : world := {| w_table := table; w_pending := [p2]; w_unhealthy := false |}.
(** Another worker commits one row before the first INSERT. *)
Definition interference (n : nat) : db_event :=
  match n with
  | O => DbUp [chain_row 4 (last_hash _AUDIT_CHAIN_GENESIS table) p1]
  | _ => DbUp []
  end.

Lemma interference_benign : benign_env interference table.
Proof.
  unfold benign_env, attempts. cbn [_AUDIT_CHAIN_MAX_RETRIES seq fmap list_fmap benign interference].
  rewrite !app_nil_r.
  assert (chain_ok (table ++ [chain_row 4 (last_hash _AUDIT_CHAIN_GENESIS table) p1])) as Hok.
  { unfold chain_ok. rewrite chained_rows_app. apply chain_from_app.
    split; [apply table_ok|]. by repeat constructor. }
  by split_and!.
Qed.

Definition tampered : list audit_row :=
  match table with
  | r1 :: rest =>
      {| payload := with_tool_name (Some "delete") (payload r1); chain_seq := chain_seq r1;
         prev_hash := prev_hash r1; row_hash := row_hash r1; hash_format := hash_format r1 |}
        :: rest
  | [] => []
  end.

(** Two workers, the second of which loses the race and retries. *)
Lemma two_workers_reachable :
  rtc worker_step boot
    {| s_table := chain_batch 0 _AUDIT_CHAIN_GENESIS [p1]; s_workers := ∅ |}.
Proof.
  eapply rtc_l; [by apply (step_begin boot 7 [p1])|].
  eapply rtc_l.
  { eapply (step_commit _ 7); [apply lookup_insert_eq|]. reflexivity. }
  simpl. rewrite delete_insert_eq, delete_empty. apply rtc_refl.
Qed.
End Demo.

Lemma workers_keep_chain_witness :
  verify_audit_chain 1 None (chain_batch 0 _AUDIT_CHAIN_GENESIS [Demo.p1]) = (true, None, None).
Proof. exact (workers_keep_chain _ None Demo.two_workers_reachable). Defined.

Lemma head_hash_determines_chain_witness : Forall2 same_row Demo.table Demo.table.
Proof.
  assert (verify_audit_chain 1 None Demo.table = (true, None, None)) as Hv
    by (vm_compute; reflexivity).
  assert (select_rows 1 Demo.table = Demo.table) as Hs by (vm_compute; reflexivity).
  assert (Forall (λ r, clean_payload (payload r)) Demo.table) as Hc.
  { repeat constructor; apply clean_payloadb_sound; vm_compute; reflexivity. }
  rewrite <- Hs at 1 2.
  refine (head_hash_determines_chain Demo.table Demo.table Hv Hv _ _ _ _ _ eq_refl);
    rewrite Hs; [vm_compute; reflexivity..|exact Hc|exact Hc|].
  apply collision_freeb_sound. vm_compute. reflexivity.
Defined.

Lemma log_audit_keeps_chain_witness :
  verify_audit_chain 1 None (w_table (log_audit Demo.env Demo.call Demo.interference Demo.world0).2)
  = (true, None, None).
Proof.
  exact (log_audit_keeps_chain Demo.env Demo.call Demo.interference Demo.world0 None
           Demo.table_ok Demo.interference_benign).
Defined.

Lemma log_audit_return_recorded_witness :
  let '(r, w) := log_audit Demo.env Demo.call Demo.interference Demo.world0 in
  r = Ret tt ∧ length (w_table w) = 6%nat ∧
  ∃ others, payloads (w_table w) ++ w_pending w
    ≡ₚ payloads Demo.table ++ others ++ [Demo.p2; call_payload Demo.env Demo.call].
Proof.
  destruct (log_audit Demo.env Demo.call Demo.interference Demo.world0) as [r w] eqn:Hl.
  assert (r = Ret tt ∧ length (w_table w) = 6%nat) as [-> Hlen].
  { assert (match log_audit Demo.env Demo.call Demo.interference Demo.world0 with
            | (Ret _, w) => (length (w_table w) =? 6)%nat | _ => false end = true) as Hv
      by (vm_compute; reflexivity).
    rewrite Hl in Hv. destruct r as [[]|]; [|discriminate Hv].
    apply Nat.eqb_eq in Hv. done. }
  split; [done|]. split; [done|].
  exact (log_audit_return_recorded Demo.env Demo.call Demo.interference Demo.world0 w
           Demo.table_ok Demo.interference_benign eq_refl Hl).
Defined.

Lemma batched_equals_per_row_witness :
  w_table (write_batched Demo.cfg {| w_table := Demo.table; w_pending := []; w_unhealthy := false |}
             [Demo.p1; Demo.p2; Demo.p3])
  = write_rows Demo.table [Demo.p1; Demo.p2; Demo.p3].
Proof.
  exact (batched_equals_per_row Demo.cfg
           {| w_table := Demo.table; w_pending := []; w_unhealthy := false |}
           [Demo.p1; Demo.p2; Demo.p3] Demo.table_ok eq_refl).
Defined.

Lemma verify_reports_first_break_witness :
  ∃ before r after w,
    select_rows 1 Demo.tampered = before ++ r :: after ∧ Some 1 = Some (seq_of r) ∧
    Some HashMismatch = Some w ∧
    match before with
    | [] => breaks_first 1 r w
    | r0 :: _ =>
        chain_from (seq_of r0) (py_str (prev_hash r0)) before ∧
        breaks (seq_of r0 + Z.of_nat (length before))
               (last_hash (py_str (prev_hash r0)) before) r w
    end.
Proof.
  apply (verify_reports_first_break 1 Demo.tampered). vm_compute. reflexivity.
Defined.

Lemma verify_accepts_dropped_prefix_witness :
  verify_audit_chain 1 None (drop 2 (chained_rows Demo.table)) = (true, None, None) ∧
  seq_of <$> drop 2 (chained_rows Demo.table) = [3].
Proof.
  split; [|vm_compute; reflexivity].
  apply (verify_accepts_dropped_prefix Demo.table 2 None Demo.table_ok). lia.
Defined.

Lemma failed_tick_loses_queue_witness :
  w_pending (periodic_tick Demo.cfg (λ _, DbDown) Demo.world0) = [] ∧
  length (w_pending Demo.world0) = 1%nat.
Proof. by rewrite (failed_tick_loses_queue Demo.cfg (λ _, DbDown) Demo.world0 eq_refl). Defined.
