(* ===== verification/AuditMerkle.v ===== *)
(** * Merkle anchors over the primary audit chain

    [mcp_proxy/lifespan/merkle_anchor_watcher.py] (the background writer of
    [audit_merkle_anchors]) and [mcp_proxy/admin/audit_merkle.py]
    ([get_inclusion_proof]).  The reply of the time-stamping authority is an
    input of a tick: [None] is a [TSAAnchorError].  The end-to-end theorem
    composes the chain of [AuditLog] with the trees of [Merkle]: every row an
    anchor covers has a proof that the offline check accepts. *)

From S2P Require Import Prelude Sha256 Merkle Json AuditCanon AuditLog.

Open Scope Z_scope.

Record anchor := {
  a_id : Z;
  a_org : string;
  chain_seq_start : Z;
  chain_seq_end : Z;
  leaf_count : Z;
  merkle_root : string;
  tsa : option (string * string);       (* tsa_url, tsa_token *)
}.

Section Watcher.
Context `{Hash}.

(** [ORDER BY chain_seq_end DESC LIMIT 1], or 0. *)
Definition _last_anchored_seq (anchors : list anchor) : Z :=
  match last (order_by chain_seq_end anchors) with
  | Some a => chain_seq_end a
  | None => 0
  end.

(** [chain_seq IS NOT NULL AND row_hash IS NOT NULL] *)
Definition hashed (r : audit_row) : bool :=
  chained r && match row_hash r with Some _ => true | None => false end.

Definition _fetch_next_batch (start_seq : Z) (batch_size : nat) (t : list audit_row)
    : list (Z * string) :=
  (λ r, (seq_of r, py_str (row_hash r))) <$>
    take batch_size (order_by seq_of (List.filter (λ r, hashed r && (start_seq <=? seq_of r)) t)).

Definition _row_hashes_to_leaves (row_hashes : list string) : outcome (list string) :=
  omapM from_hex row_hashes.

Record watcher_config := { w_org : string; w_batch_size : nat; w_min_batch : Z; w_tsa_enabled : bool }.

(** What one tick meets: the TSA's reply, whether the INSERT succeeds, and the
    primary key it gets. *)
Record tick_env := { tsa_reply : option (string * string); insert_ok : bool; new_id : Z }.

Definition _tick (cfg : watcher_config) (env : tick_env) (t : list audit_row)
    (anchors : list anchor) : outcome (list anchor) :=
  let start_seq := _last_anchored_seq anchors + 1 in
  let batch := _fetch_next_batch start_seq (w_batch_size cfg) t in
  if Z.of_nat (length batch) <? w_min_batch cfg then Ret anchors else
  match head batch, last batch with
  | Some (first_seq, _), Some (last_seq, _) =>
      let! leaves := _row_hashes_to_leaves (snd <$> batch) in
      let! root := compute_merkle_root leaves in
      let a := {| a_id := new_id env; a_org := w_org cfg; chain_seq_start := first_seq;
                  chain_seq_end := last_seq; leaf_count := Z.of_nat (length batch);
                  merkle_root := to_hex root;
                  tsa := if w_tsa_enabled cfg then tsa_reply env else None |} in
      Ret (if insert_ok env then anchors ++ [a] else anchors)
  | _, _ => Raise IndexError
  end.

(** The loop swallows whatever a tick raises. *)
Definition loop_tick (cfg : watcher_config) (env : tick_env) (t : list audit_row)
    (anchors : list anchor) : list anchor :=
  match _tick cfg env t anchors with Ret anchors' => anchors' | Raise _ => anchors end.

(** ** The proof endpoint *)

Record proof_response := {
  r_anchor_id : Z; r_chain_seq : Z; r_start : Z; r_end : Z; r_leaf_count : Z;
  r_merkle_root : string; r_leaf_hex : string; r_proof : list (string * string);
}.

Definition covering_anchor (q : Z) (anchors : list anchor) : option anchor :=
  last (order_by a_id
    (List.filter (λ a, (chain_seq_start a <=? q) && (q <=? chain_seq_end a)) anchors)).

Definition anchored_rows (a : anchor) (t : list audit_row) : list audit_row :=
  order_by seq_of
    (List.filter (λ r, hashed r && ((chain_seq_start a <=? seq_of r) && (seq_of r <=? chain_seq_end a))) t).

Definition get_inclusion_proof (q : Z) (t : list audit_row) (anchors : list anchor)
    : outcome proof_response :=
  match covering_anchor q anchors with
  | None => Raise (HTTPException 404 "no Merkle anchor covers chain_seq")
  | Some a =>
      let rows := anchored_rows a t in
      if negb (Z.of_nat (length rows) =? leaf_count a)
      then Raise (HTTPException 409 "audit_log row count disagrees with anchored leaf_count")
      else
        let! leaves := omapM (λ r, from_hex (py_str (row_hash r))) rows in
        let target_index := q - chain_seq_start a in
        match leaves !! Z.to_nat target_index with
        | None => Raise IndexError
        | Some leaf =>
            let! steps := inclusion_proof leaves target_index in
            Ret {| r_anchor_id := a_id a; r_chain_seq := q; r_start := chain_seq_start a;
                   r_end := chain_seq_end a; r_leaf_count := leaf_count a;
                   r_merkle_root := merkle_root a; r_leaf_hex := to_hex leaf;
                   r_proof := (λ s, (to_hex (fst s), snd s)) <$> steps |}
        end
  end.

(** What the caller of the endpoint does with the response. *)
Definition response_verifies (r : proof_response) : bool :=
  match from_hex (r_leaf_hex r), from_hex (r_merkle_root r),
        omapM (λ s, let! b := from_hex (fst s) in Ret (b, snd s)) (r_proof r) with
  | Ret leaf, Ret root, Ret proof => verify_inclusion leaf proof root
  | _, _, _ => false
  end.

(** ** The table and the anchors as one system *)

Inductive anchor_step : list audit_row * list anchor → list audit_row * list anchor → Prop :=
| step_grow t more anchors :
    chain_ok (t ++ more) → anchor_step (t, anchors) (t ++ more, anchors)
| step_tick cfg env t anchors :
    anchor_step (t, anchors) (t, loop_tick cfg env t anchors).
End Watcher.

Section WatcherLemmas.
Context `{Hash}.

(** ** The rows of a chain *)

Lemma chain_numbered s p l : chain_from s p l → numbered seq_of s l.
Proof.
  induction 1 as [|s p r rest Hs Hp Hh Hrest IH]; simpl; [done|].
  split; [|done]. unfold seq_of. by rewrite Hs.
Qed.

Lemma chain_hashes s p l :
  chain_from s p l → Forall (λ r, ∃ m, row_hash r = Some (hexdigest m)) l.
Proof.
  induction 1 as [|s p r rest Hs Hp Hh Hrest IH]; constructor; [|done].
  unfold compute_audit_row_hash in Hh. destruct (row_hash r) as [h|] eqn:Hr; simpl in Hh.
  { eexists. by rewrite <- Hh. }
  apply (f_equal String.length) in Hh. unfold hexdigest in Hh.
  rewrite to_hex_length, digest_length in Hh. done.
Qed.

(** The rows [lo..hi] of the chain. *)
Definition slice (lo hi : Z) (rows : list audit_row) : list audit_row :=
  take (Z.to_nat (hi - lo + 1)) (drop (Z.to_nat (lo - 1)) rows).

Lemma filter_chain (f : audit_row → bool) t :
  chain_ok t → List.filter (λ r, hashed r && f r) t = List.filter f (chained_rows t).
Proof.
  intros Hok. rewrite filter_andb.
  enough (List.filter hashed t = chained_rows t) as -> by done.
  unfold hashed. rewrite filter_andb. apply filter_id. eapply Forall_impl; [by eapply chain_hashes|]. by intros r [m ->].
Qed.

Lemma order_by_chain t f :
  chain_ok t → order_by seq_of (List.filter f (chained_rows t)) = List.filter f (chained_rows t).
Proof.
  intros Hok. apply order_by_strict; [|done].
  apply StronglySorted_filter_bool. by eapply chain_from_strict.
Qed.

Lemma anchored_slice a t :
  chain_ok t → 1 <= chain_seq_start a →
  anchored_rows a t = slice (chain_seq_start a) (chain_seq_end a) (chained_rows t).
Proof.
  intros Hok Ha. unfold anchored_rows. rewrite filter_chain, order_by_chain by done.
  unfold slice. apply (numbered_range seq_of 1); [|done]. by eapply chain_numbered.
Qed.

(** What the watcher fetches are the rows right after the last anchored one. *)
Lemma fetch_slice start size t :
  chain_ok t → 1 <= start →
  ∃ hi, _fetch_next_batch start size t =
      (λ r, (seq_of r, py_str (row_hash r))) <$> slice start hi (chained_rows t) ∧
    hi = start + Z.of_nat (length (slice start hi (chained_rows t))) - 1.
Proof.
  intros Hok Hs. unfold _fetch_next_batch. rewrite filter_chain, order_by_chain by done.
  assert (List.filter (λ r, start <=? seq_of r) (chained_rows t)
          = drop (Z.to_nat (start - 1)) (chained_rows t)) as ->.
  { pose proof (numbered_range seq_of 1 (chained_rows t) start
      (1 + Z.of_nat (length (chained_rows t))) (chain_numbered _ _ _ Hok) Hs) as Hr.
    rewrite take_ge in Hr by (rewrite length_drop; lia). rewrite <- Hr.
    apply List.filter_ext_in. intros r Hin%list_elem_of_In.
    pose proof (chain_from_seq _ _ _ _ Hok Hin).
    rewrite (proj2 (Z.leb_le (seq_of r) _)) by lia. by rewrite andb_true_r. }
  set (rows := drop (Z.to_nat (start - 1)) (chained_rows t)).
  exists (start + Z.of_nat (length (take size rows)) - 1). unfold slice.
  assert (take (Z.to_nat (start + Z.of_nat (length (take size rows)) - 1 - start + 1)) rows
          = take size rows) as Heq.
  { replace (Z.to_nat _) with (length (take size rows)) by lia.
    rewrite length_take. destruct (decide (size <= length rows)%nat).
    - by rewrite Nat.min_l.
    - rewrite Nat.min_r by lia. rewrite !take_ge by lia. done. }
  fold rows. rewrite Heq. split; [done|lia].
Qed.

(** Their hashes decode to digests, one leaf per row. *)
Lemma leaves_of_rows s p l :
  chain_from s p l →
  ∃ leaves, omapM from_hex ((λ r, py_str (row_hash r)) <$> l) = Ret leaves ∧
    Forall2 (λ r leaf, row_hash r = Some (to_hex leaf)) l leaves ∧ sized leaves.
Proof.
  intros Hc. apply chain_hashes in Hc. induction Hc as [|r l [m Hm] _ IH].
  { exists []. split_and!; try done; constructor. }
  destruct IH as (leaves & Hl & Hf & Hs). exists (digest m :: leaves).
  rewrite fmap_cons. cbn [omapM]. rewrite Hm.
  change (py_str (Some (hexdigest m))) with (to_hex (digest m)).
  rewrite from_to_hex. cbn [obind]. rewrite Hl. split_and!; [done| |].
  - constructor; [|done]. by rewrite Hm.
  - constructor; [apply digest_is_sized|done].
Qed.

(** ** The invariant of the anchors *)

Definition anchor_ok (t : list audit_row) (a : anchor) : Prop :=
  1 <= chain_seq_start a <= chain_seq_end a ∧
  chain_seq_end a <= Z.of_nat (length (chained_rows t)) ∧
  leaf_count a = chain_seq_end a - chain_seq_start a + 1 ∧
  ∃ leaves root,
    Forall2 (λ r leaf, row_hash r = Some (to_hex leaf))
      (slice (chain_seq_start a) (chain_seq_end a) (chained_rows t)) leaves ∧
    compute_merkle_root leaves = Ret root ∧ merkle_root a = to_hex root.

(** No row up to the last anchored one is left out. *)
Definition tiled (anchors : list anchor) : Prop :=
  ∀ q, 1 <= q <= _last_anchored_seq anchors →
    ∃ a, a ∈ anchors ∧ chain_seq_start a <= q <= chain_seq_end a.

Definition watch_inv (s : list audit_row * list anchor) : Prop :=
  chain_ok s.1 ∧ Forall (anchor_ok s.1) s.2 ∧ tiled s.2.

Lemma slice_app lo hi rows more :
  1 <= lo → hi <= Z.of_nat (length rows) → slice lo hi (rows ++ more) = slice lo hi rows.
Proof.
  intros Hlo Hhi. unfold slice.
  destruct (decide (lo <= hi)) as [Hle|Hgt].
  - rewrite drop_app_le by lia. rewrite take_app_le; [done|]. rewrite length_drop. lia.
  - by replace (Z.to_nat (hi - lo + 1)) with O by lia.
Qed.

Lemma slice_length lo hi rows :
  1 <= lo <= hi → hi <= Z.of_nat (length rows) →
  length (slice lo hi rows) = Z.to_nat (hi - lo + 1).
Proof. intros ??. unfold slice. rewrite length_take, length_drop. lia. Qed.

Lemma anchor_ok_grow t more a : anchor_ok t a → anchor_ok (t ++ more) a.
Proof.
  intros (Hr & He & Hn & leaves & root & Hl & Hroot). unfold anchor_ok.
  rewrite chained_rows_app, length_app, slice_app by lia. split_and!; try lia. eauto.
Qed.

Lemma last_anchored_bound t anchors :
  Forall (anchor_ok t) anchors →
  0 <= _last_anchored_seq anchors <= Z.of_nat (length (chained_rows t)).
Proof.
  intros Hall. unfold _last_anchored_seq. destruct (last _) as [a|] eqn:Hl; [|lia].
  apply last_Some_elem_of in Hl. rewrite order_by_perm in Hl.
  rewrite Forall_forall in Hall. destruct (Hall _ Hl) as (? & ? & _). lia.
Qed.

(** The maximum of [chain_seq_end] after one more anchor. *)
Lemma last_anchored_max anchors a :
  a ∈ anchors → chain_seq_end a <= _last_anchored_seq anchors.
Proof.
  intros Ha. unfold _last_anchored_seq. rewrite <- (order_by_perm chain_seq_end anchors) in Ha.
  pose proof (order_by_sorted chain_seq_end anchors) as Hs.
  destruct (order_by chain_seq_end anchors) as [|z l _] using rev_ind; [set_solver|].
  rewrite last_snoc. apply elem_of_app in Ha as [Ha|Ha%list_elem_of_singleton]; [|by subst].
  eapply (StronglySorted_app_1_elem_of (key_le chain_seq_end) _ _ a z) in Hs;
    [exact Hs|done|set_solver].
Qed.
End WatcherLemmas.

Section WatcherProofs.
Context `{Hash}.

Lemma last_anchored_elem anchors :
  anchors ≠ [] → ∃ a, a ∈ anchors ∧ _last_anchored_seq anchors = chain_seq_end a.
Proof.
  intros Hne. unfold _last_anchored_seq. destruct (last (order_by _ _)) as [a|] eqn:Hl.
  - exists a. split; [|done]. apply last_Some_elem_of in Hl. by rewrite order_by_perm in Hl.
  - apply last_None in Hl. pose proof (order_by_perm chain_seq_end anchors) as Hp.
    rewrite Hl in Hp. by apply Permutation_nil_l in Hp.
Qed.

Lemma last_anchored_snoc anchors a :
  _last_anchored_seq anchors <= chain_seq_end a → anchors ++ [a] ≠ [] →
  _last_anchored_seq (anchors ++ [a]) = chain_seq_end a.
Proof.
  intros Hle Hne. pose proof (last_anchored_max (anchors ++ [a]) a ltac:(set_solver)).
  destruct (last_anchored_elem _ Hne) as (a' & Ha' & Heq). rewrite Heq in *.
  apply elem_of_app in Ha' as [Ha'|Ha'%list_elem_of_singleton]; [|by subst].
  apply last_anchored_max in Ha'. lia.
Qed.

Lemma slice_chain lo hi t :
  chain_ok t → ∃ p, chain_from (1 + Z.of_nat (Z.to_nat (lo - 1) `min` length (chained_rows t))) p
                      (slice lo hi (chained_rows t)).
Proof.
  intros Hc. unfold chain_ok in Hc. unfold slice.
  rewrite <- (take_drop (Z.to_nat (lo - 1)) (chained_rows t)) in Hc.
  apply chain_from_app in Hc as [_ Hc]. rewrite length_take in Hc.
  eexists. by apply chain_from_take.
Qed.

Lemma slice_lookup_seq lo hi t i r :
  chain_ok t → 1 <= lo → slice lo hi (chained_rows t) !! i = Some r → seq_of r = lo + Z.of_nat i.
Proof.
  intros Hok Hlo Hi. unfold slice in Hi. apply lookup_take_Some in Hi as [Hi _].
  rewrite lookup_drop in Hi.
  rewrite (numbered_lookup seq_of 1 _ _ _ (chain_numbered _ _ _ Hok) Hi). lia.
Qed.

Lemma slice_elem lo hi rows i r : slice lo hi rows !! i = Some r → r ∈ rows.
Proof.
  unfold slice. intros [Hi _]%lookup_take_Some. rewrite lookup_drop in Hi.
  by eapply list_elem_of_lookup_2.
Qed.

Lemma batch_ends lo hi t n :
  chain_ok t → 1 <= lo → length (slice lo hi (chained_rows t)) = S n →
  let batch := (λ r, (seq_of r, py_str (row_hash r))) <$> slice lo hi (chained_rows t) in
  ∃ h h', head batch = Some (lo, h) ∧ last batch = Some (lo + Z.of_nat n, h').
Proof.
  intros Hok Hlo Hlen. cbv zeta.
  pose proof (λ i r, slice_lookup_seq lo hi t i r Hok Hlo) as Hseq.
  destruct (slice lo hi (chained_rows t)) as [|r rows _] using rev_ind; [done|].
  rewrite length_app in Hlen. simpl in Hlen.
  assert (n = length rows) as -> by lia. rewrite fmap_app. simpl. rewrite last_snoc.
  rewrite (Hseq (length rows) r) by (by rewrite lookup_app_r, Nat.sub_diag).
  destruct rows as [|r0 rows]; simpl.
  - rewrite Z.add_0_r. eauto.
  - rewrite (Hseq O r0) by done. rewrite Z.add_0_r. eauto.
Qed.

Lemma tick_inv cfg env t anchors :
  watch_inv (t, anchors) → watch_inv (t, loop_tick cfg env t anchors).
Proof.
  intros (Hok & Hall & Htile). simpl in *. unfold loop_tick.
  destruct (_tick cfg env t anchors) as [anchors'|] eqn:Htick; [|done].
  unfold _tick in Htick. pose proof (last_anchored_bound _ _ Hall) as Hb.
  set (L := _last_anchored_seq anchors) in *.
  destruct (fetch_slice (L + 1) (w_batch_size cfg) t Hok ltac:(lia)) as (hi & Hbatch & Hhi).
  rewrite Hbatch in Htick.
  destruct (length (slice (L + 1) hi (chained_rows t))) as [|n] eqn:Hlen.
  { apply nil_length_inv in Hlen. rewrite Hlen in Htick. simpl in Htick.
    by destruct (_ <? _); simplify_eq. }
  destruct (batch_ends (L + 1) hi t n Hok ltac:(lia) Hlen) as (h & h' & Hhead & Hlast).
  cbv zeta in Hhead, Hlast. rewrite Hhead, Hlast in Htick.
  destruct (_ <? _); [by simplify_eq|].
  destruct (slice_chain (L + 1) hi t Hok) as [p Hc].
  destruct (leaves_of_rows _ _ _ Hc) as (leaves & Hl & Hf & Hs).
  unfold _row_hashes_to_leaves in Htick. rewrite <- list_fmap_compose in Htick.
  unfold compose in Htick. simpl in Htick. rewrite Hl in Htick. simpl in Htick.
  destruct (compute_merkle_root leaves) as [root|] eqn:Hroot; [|done]. simpl in Htick.
  destruct (insert_ok env); [|by simplify_eq]. injection Htick as <-.
  rewrite length_fmap, Hlen.
  set (a := {| a_id := new_id env |}).
  assert (chain_seq_start a = L + 1 ∧ chain_seq_end a = hi ∧ leaf_count a = Z.of_nat (S n)) as (Hst & He & Hn).
  { simpl. lia. }
  split; [done|]. simpl. split.
  - apply Forall_app. split; [done|]. constructor; [|done].
    unfold anchor_ok. rewrite Hst, He, Hn.
    assert (hi <= Z.of_nat (length (chained_rows t))).
    { unfold slice in Hlen. rewrite length_take, length_drop in Hlen. lia. }
    split_and!; try lia. exists leaves, root. done.
  - intros q Hq. rewrite last_anchored_snoc in Hq; [|fold L; simpl; lia|by destruct anchors].
    rewrite He in Hq. destruct (decide (q <= L)) as [Hle|Hgt].
    + destruct (Htile q ltac:(fold L; lia)) as (a' & ? & ?). exists a'. split; [set_solver|done].
    + exists a. split; [set_solver|]. rewrite Hst, He. lia.
Qed.

Lemma anchor_step_inv s s' : anchor_step s s' → watch_inv s → watch_inv s'.
Proof.
  destruct 1 as [t more anchors Hmore|cfg env t anchors]; [|apply tick_inv].
  intros (Hok & Hall & Htile). split_and!; [done| |done]. simpl in *.
  eapply Forall_impl; [exact Hall|]. intros a. apply anchor_ok_grow.
Qed.

Lemma anchors_reachable t anchors :
  rtc anchor_step ([], []) (t, anchors) → watch_inv (t, anchors).
Proof.
  intros Hr. remember (([], []) : list audit_row * list anchor) as s0 eqn:Hs0.
  assert (watch_inv s0) as Hinv.
  { subst. split_and!; [constructor|constructor|]. intros q. unfold _last_anchored_seq. simpl. lia. }
  clear Hs0. remember (t, anchors) as s1 eqn:Hs1. clear Hs1.
  induction Hr as [|x y z Hstep _ IH]; eauto using anchor_step_inv.
Qed.

Lemma covering_spec q anchors :
  (∃ a, a ∈ anchors ∧ chain_seq_start a <= q <= chain_seq_end a) →
  ∃ a, covering_anchor q anchors = Some a ∧ a ∈ anchors ∧ chain_seq_start a <= q <= chain_seq_end a.
Proof.
  intros (a & Ha & Hq). unfold covering_anchor.
  set (cover := λ a, (chain_seq_start a <=? q) && (q <=? chain_seq_end a)).
  destruct (last (order_by a_id (List.filter cover anchors))) as [b|] eqn:Hl.
  - exists b. apply last_Some_elem_of in Hl. rewrite order_by_perm in Hl.
    apply elem_of_filter_bool in Hl as [Hb Hc]. unfold cover in Hc. bools. done.
  - apply last_None in Hl. pose proof (order_by_perm a_id (List.filter cover anchors)) as Hp.
    rewrite Hl in Hp. apply Permutation_nil_l in Hp.
    assert (a ∈ List.filter cover anchors) as Hin.
    { apply elem_of_filter_bool. split; [done|]. unfold cover. apply andb_true_iff. lia. }
    rewrite <- Hp in Hin. set_solver.
Qed.

Lemma decode_steps steps :
  omapM (λ s : string * string, let! b := from_hex (fst s) in Ret (b, snd s))
    ((λ s, (to_hex (fst s), snd s)) <$> steps) = Ret steps.
Proof.
  induction steps as [|[sib pos] steps IH]; [done|]. rewrite fmap_cons. cbn [omapM fst snd].
  rewrite from_to_hex. cbn [obind]. by rewrite IH.
Qed.

(** The endpoint on a covered row. *)
Lemma proof_of_covered q t anchors :
  watch_inv (t, anchors) → 1 <= q <= _last_anchored_seq anchors →
  ∃ resp r, get_inclusion_proof q t anchors = Ret resp ∧ response_verifies resp = true ∧
    r ∈ t ∧ chain_seq r = Some q ∧ row_hash r = Some (r_leaf_hex resp).
Proof.
  intros (Hok & Hall & Htile) Hq. simpl in *.
  destruct (covering_spec q anchors (Htile q Hq)) as (a & Hcov & Ha & Hrange).
  rewrite Forall_forall in Hall.
  destruct (Hall _ Ha) as (Hr & He & Hn & leaves & root & Hf & Hroot & Hmr).
  unfold get_inclusion_proof. rewrite Hcov, anchored_slice by (done || lia).
  set (rows := slice _ _ _) in *.
  assert (length rows = Z.to_nat (chain_seq_end a - chain_seq_start a + 1)) as Hlen
    by (apply slice_length; lia).
  assert ((Z.of_nat (length rows) =? leaf_count a) = true) as -> by (apply Z.eqb_eq; lia). simpl.
  assert (omapM (λ r, from_hex (py_str (row_hash r))) rows = Ret leaves) as ->.
  { apply omapM_Ret. eapply Forall2_impl; [exact Hf|]. intros r leaf ->. apply from_to_hex. }
  simpl. apply Forall2_length in Hf as Hl.
  assert (_validate_leaves leaves = Ret tt) as Hv.
  { unfold compute_merkle_root in Hroot. by destruct (_validate_leaves leaves) as [[]|]. }
  destruct (inclusion_total leaves (q - chain_seq_start a) Hv ltac:(lia))
    as (leaf & steps & root' & Hleaf & Hsteps & Hroot' & Hrs & Hls & Hrep & _).
  rewrite Hleaf, Hsteps. simpl. rewrite Hroot in Hroot'. injection Hroot' as <-.
  destruct (Forall2_lookup_r _ _ _ _ _ Hf Hleaf) as (r & Hrow & Hhash).
  eexists _, r. split_and!; [done| | | |done].
  - unfold response_verifies. simpl. rewrite Hmr, !from_to_hex, decode_steps.
    unfold verify_inclusion. rewrite Hls, Hrs. simpl. by rewrite bool_decide_eq_true_2.
  - apply slice_elem in Hrow. by apply elem_of_filter_bool in Hrow as [? _].
  - pose proof (slice_lookup_seq (chain_seq_start a) _ _ _ _ Hok ltac:(lia) Hrow) as Hseq.
    apply slice_elem, elem_of_filter_bool in Hrow as [_ Hch].
    unfold chained, seq_of in *. destruct (chain_seq r); [|done]. simpl in Hseq. f_equal. lia.
Qed.

(** ** Property *)

(** C35: end to end. However the chain grows between the watcher's ticks,
    whatever the batch sizes, time-stamping replies and failed INSERTs, every
    row up to the last anchored position has an inclusion proof from the
    endpoint, and the offline check accepts it for that row's own stored
    hash. *)
Theorem anchored_row_has_proof (t : list audit_row) (anchors : list anchor) (q : Z) :
  rtc anchor_step ([], []) (t, anchors) →
  1 <= q <= _last_anchored_seq anchors →
  ∃ resp r, get_inclusion_proof q t anchors = Ret resp ∧ response_verifies resp = true ∧
    r ∈ t ∧ chain_seq r = Some q ∧ row_hash r = Some (r_leaf_hex resp).
Proof. intros Hr. by apply proof_of_covered, anchors_reachable. Qed.
End WatcherProofs.

(** ** Witness: the three-row chain, anchored in two ticks *)

Module AnchorDemo.
Definition payload1 (who : string) : audit_payload :=
  {| timestamp := "2026-06-02T07:05:09+00:00"; agent_id := who; action := "tool.call";
     tool_name := None; status := "success"; detail := None; request_id := None;
     duration_ms := None; dpop_jkt := None; on_behalf_of_user_id := None |}.
Definition batch1 : list audit_payload := payload1 <$> ["a"; "b"; "c"].
Definition table : list audit_row := Eval vm_compute in chain_batch 0 _AUDIT_CHAIN_GENESIS batch1.
Definition cfg : watcher_config :=
  {| w_org := "acme"; w_batch_size := 2; w_min_batch := 1; w_tsa_enabled := false |}.
Definition env1 (n : Z) : tick_env := {| tsa_reply := None; insert_ok := true; new_id := n |}.
Definition anchors : list anchor :=
  Eval vm_compute in loop_tick cfg (env1 2) table (loop_tick cfg (env1 1) table []).

Lemma anchored_table_ok : chain_ok table.
Proof.
  change table with (chain_batch 0 _AUDIT_CHAIN_GENESIS batch1) at 1.
  unfold chain_ok. rewrite chain_batch_chained. apply (chain_batch_from 0).
Qed.

Lemma reachable : rtc anchor_step ([], []) (table, anchors).
Proof.
  eapply rtc_l; [apply (step_grow [] table []), anchored_table_ok|].
  eapply rtc_l; [apply (step_tick cfg (env1 1))|].
  eapply rtc_l; [apply (step_tick cfg (env1 2))|].
  change anchors with (loop_tick cfg (env1 2) table (loop_tick cfg (env1 1) table [])).
  apply rtc_refl.
Qed.
End AnchorDemo.

Lemma anchored_row_has_proof_witness :
  _last_anchored_seq AnchorDemo.anchors = 3 ∧
  ∃ resp r, get_inclusion_proof 3 AnchorDemo.table AnchorDemo.anchors = Ret resp ∧
    response_verifies resp = true ∧ r ∈ AnchorDemo.table ∧ chain_seq r = Some 3 ∧
    row_hash r = Some (r_leaf_hex resp).
Proof.
  assert (_last_anchored_seq AnchorDemo.anchors = 3) as Hl by (vm_compute; reflexivity).
  split; [exact Hl|].
  refine (anchored_row_has_proof AnchorDemo.table AnchorDemo.anchors 3 AnchorDemo.reachable _).
  rewrite Hl. lia.
Defined.
