(* ===== verification/Effects.v ===== *)
(** * Handlers as state-passing programs

    A request handler reads and changes the state of its process and may
    raise: [M S A].  The triples give what holds after a return and after a
    raise.  [Trailed] is the interface of a state that carries the audit
    trail; [audit] is [await log_audit(...)] on such a state, and its theorems
    are those of [AuditChain] about one call. *)

From S2P Require Import Prelude Sha256 AuditCanon AuditLog AuditChain.

Section Monad.
Context {S : Type}.

Definition M (A : Type) : Type := S → outcome A * S.

Definition ret {A} (a : A) : M A := λ s, (Ret a, s).
Definition raise {A} (e : exn) : M A := λ s, (Raise e, s).
Definition bind {A B} (m : M A) (f : A → M B) : M B :=
  λ s, match m s with (Ret a, s') => f a s' | (Raise e, s') => (Raise e, s') end.
Definition lift {A} (o : outcome A) : M A := λ s, (o, s).
Definition gets {A} (f : S → A) : M A := λ s, (Ret (f s), s).
Definition modify (f : S → S) : M unit := λ s, (Ret tt, f s).

(** [try: m except Exception as exc: h] *)
Definition catch {A} (m : M A) (h : exn → M A) : M A :=
  λ s, match m s with (Raise e, s') => h e s' | r => r end.

(** Both parts of a sequence that returned did. *)
Lemma bind_Ret {A B} (m : M A) (f : A → M B) s b s' :
  bind m f s = (Ret b, s') → ∃ a s1, m s = (Ret a, s1) ∧ f a s1 = (Ret b, s').
Proof. unfold bind. destruct (m s) as [[a|e] s1]; [|done]. intros H. by exists a, s1. Qed.

(** [for x in l: acc = f(acc, x)] *)
Fixpoint for_each {A B} (f : A → B → M A) (acc : A) (l : list B) : M A :=
  match l with
  | [] => ret acc
  | x :: rest => bind (f acc x) (λ acc, for_each f acc rest)
  end.

(** A loop that returned did so in each step. *)
Lemma for_each_inv {A B} (P : S → Prop) (f : A → B → M A) acc l s acc' s' :
  (∀ acc x s acc' s', f acc x s = (Ret acc', s') → P s → P s') →
  for_each f acc l s = (Ret acc', s') → P s → P s'.
Proof.
  intros Hf. revert acc s. induction l as [|x l IH]; intros acc s Hrun HP; cbn in Hrun.
  - by injection Hrun as _ <-.
  - apply bind_Ret in Hrun as (acc1 & s1 & Hone & Hrest). eapply IH; [exact Hrest|]. by eapply Hf.
Qed.

Lemma bind_step {A B} (m : M A) (f : A → M B) s a s1 : m s = (Ret a, s1) → bind m f s = f a s1.
Proof. unfold bind. by intros ->. Qed.

Lemma bind_stop {A B} (m : M A) (f : A → M B) s e s1 : m s = (Raise e, s1) → bind m f s = (Raise e, s1).
Proof. unfold bind. by intros ->. Qed.

Lemma bind_assoc {A B C} (m : M A) (f : A → M B) (g : B → M C) s :
  bind (bind m f) g s = bind m (λ a, bind (f a) g) s.
Proof. unfold bind. by destruct (m s) as [[a|e] s1]. Qed.

Lemma bind_lift {A B} (o : outcome A) (f : A → M B) s :
  bind (lift o) f s = match o with Ret a => f a s | Raise e => (Raise e, s) end.
Proof. done. Qed.

(** Whether a program returns is cheap to compute, its state is not. *)
Lemma returned {A} (m : M A) s : is_ret (fst (m s)) = true → ∃ a, m s = (Ret a, snd (m s)).
Proof. destruct (m s) as [[a|e] s']; [by eexists|done]. Qed.

(** ** Triples *)

Definition triple {A} (P : S → Prop) (m : M A) (Q : A → S → Prop) (R : S → Prop) : Prop :=
  ∀ s, P s → match m s with (Ret a, s') => Q a s' | (Raise _, s') => R s' end.

Lemma hoare_ret {A} (P R : S → Prop) (a : A) (Q : A → S → Prop) :
  (∀ s, P s → Q a s) → triple P (ret a) Q R.
Proof. intros HQ s. apply HQ. Qed.

Lemma hoare_raise {A} (P : S → Prop) e (Q : A → S → Prop) : triple P (raise e) Q P.
Proof. intros s HP. exact HP. Qed.

Lemma hoare_bind {A B} P Q T R (m : M A) (f : A → M B) :
  triple P m T R → (∀ a, triple (T a) (f a) Q R) → triple P (bind m f) Q R.
Proof.
  intros Hm Hf s HP. specialize (Hm s HP). unfold bind.
  destruct (m s) as [[a|e] s']; [by apply Hf|done].
Qed.

Lemma hoare_lift {A} (P R : S → Prop) (o : outcome A) (Q : A → S → Prop) :
  (∀ s a, P s → o = Ret a → Q a s) → (∀ s, P s → R s) → triple P (lift o) Q R.
Proof. intros HQ HR s HP. unfold lift. destruct o; [by apply HQ|by apply HR]. Qed.

Lemma hoare_gets {A} (P R : S → Prop) (f : S → A) (Q : A → S → Prop) :
  (∀ s, P s → Q (f s) s) → triple P (gets f) Q R.
Proof. intros HQ s. apply HQ. Qed.

Lemma hoare_modify (P R : S → Prop) f (Q : unit → S → Prop) :
  (∀ s, P s → Q tt (f s)) → triple P (modify f) Q R.
Proof. intros HQ s. apply HQ. Qed.

Lemma hoare_weaken {A} (P P' : S → Prop) (m : M A) (Q Q' : A → S → Prop) (R R' : S → Prop) :
  (∀ s, P' s → P s) → (∀ a s, Q a s → Q' a s) → (∀ s, R s → R' s) →
  triple P m Q R → triple P' m Q' R'.
Proof.
  intros HP HQ HR Hm s H'. specialize (Hm s (HP _ H')). destruct (m s) as [[a|e] s']; auto.
Qed.

Lemma hoare_catch {A} P Q T R (m : M A) h :
  triple P m Q T → (∀ e, triple T (h e) Q R) → triple P (catch m h) Q R.
Proof.
  intros Hm Hh s HP. specialize (Hm s HP). unfold catch.
  destruct (m s) as [[a|e] s']; [done|by apply Hh].
Qed.

(** The same with the exception named. *)
Definition ends {A} (P : S → Prop) (m : M A) (Q : outcome A → S → Prop) : Prop :=
  ∀ s, P s → Q (fst (m s)) (snd (m s)).

Lemma ends_ret {A} (P : S → Prop) (a : A) (Q : outcome A → S → Prop) :
  (∀ s, P s → Q (Ret a) s) → ends P (ret a) Q.
Proof. intros HQ s. apply HQ. Qed.

Lemma ends_raise {A} (P : S → Prop) e (Q : outcome A → S → Prop) :
  (∀ s, P s → Q (Raise e) s) → ends P (raise e) Q.
Proof. intros HQ s. apply HQ. Qed.

Lemma ends_lift {A} (P : S → Prop) (o : outcome A) (Q : outcome A → S → Prop) :
  (∀ s, P s → Q o s) → ends P (lift o) Q.
Proof. intros HQ s. apply HQ. Qed.

Lemma ends_gets {A} (P : S → Prop) (f : S → A) (Q : outcome A → S → Prop) :
  (∀ s, P s → Q (Ret (f s)) s) → ends P (gets f) Q.
Proof. intros HQ s. apply HQ. Qed.

Lemma ends_modify (P : S → Prop) f (Q : outcome unit → S → Prop) :
  (∀ s, P s → Q (Ret tt) (f s)) → ends P (modify f) Q.
Proof. intros HQ s. apply HQ. Qed.

Lemma ends_bind {A B} (P : S → Prop) (T : A → S → Prop) (Q : outcome B → S → Prop) (m : M A) (f : A → M B) :
  ends P m (λ r s, match r with Ret a => T a s | Raise e => Q (Raise e) s end) →
  (∀ a, ends (T a) (f a) Q) → ends P (bind m f) Q.
Proof.
  intros Hm Hf s HP. specialize (Hm s HP). unfold bind.
  destruct (m s) as [[a|e] s']; [by apply Hf|done].
Qed.

Lemma ends_catch {A} (P : S → Prop) (T : exn → S → Prop) (Q : outcome A → S → Prop) (m : M A) h :
  ends P m (λ r s, match r with Ret a => Q (Ret a) s | Raise e => T e s end) →
  (∀ e, ends (T e) (h e) Q) → ends P (catch m h) Q.
Proof.
  intros Hm Hh s HP. specialize (Hm s HP). unfold catch.
  destruct (m s) as [[a|e] s']; [done|by apply Hh].
Qed.

Lemma ends_weaken {A} (P P' : S → Prop) (m : M A) (Q Q' : outcome A → S → Prop) :
  (∀ s, P' s → P s) → (∀ r s, Q r s → Q' r s) → ends P m Q → ends P' m Q'.
Proof. intros HP HQ Hm s Hs. by apply HQ, Hm, HP. Qed.

End Monad.
Arguments M : clear implicits.

Declare Scope effect_scope.
Delimit Scope effect_scope with eff.
Notation "'do' x <- m ; k" := (bind m (λ x, k))
  (at level 200, x pattern, m at level 100, k at level 200) : effect_scope.
Open Scope effect_scope.

(** ** The audit trail of a process *)

Class Trailed (S : Type) := {
  trail : S → world;
  audit_calls : S → nat;
  audited : world → S → S;
  trail_audited : ∀ w s, trail (audited w s) = w;
}.

(** What the process and the other connections bring to the n-th call. *)
Record auditing := {
  audit_at : nat → audit_env;
  db_at : nat → list audit_row → nat → db_event;
}.

Section Audit.
Context `{Hash} {S : Type} `{Trailed S} (E : auditing).

Definition audit (c : audit_call) : M S unit := λ s,
  let n := audit_calls s in
  let '(r, w) := log_audit (audit_at E n) c (db_at E n (w_table (trail s))) (trail s) in
  (r, audited w s).

(** Other connections leave the table one chain. *)
Definition polite : Prop := ∀ n t, chain_ok t → benign_env (db_at E n t) t.
Definition fail_deny : Prop := ∀ n, audit_fail_deny (audit_at E n) = true.

Definition sound (s : S) : Prop := chain_ok (w_table (trail s)).

(** The payloads in the table and in the queue. *)
Definition trail_rows (s : S) : list audit_payload :=
  payloads (w_table (trail s)) ++ w_pending (trail s).

(** No row of [s] is missing from [s']. *)
Definition keeps (s s' : S) : Prop := ∀ p, p ∈ trail_rows s → p ∈ trail_rows s'.

#[export] Instance keeps_preorder : PreOrder keeps.
Proof. split; [by intros s p|]. intros s1 s2 s3 H12 H23 p Hp. by apply H23, H12. Qed.

(** The row of some call of this shape is in the trail. *)
Definition in_trail (c : audit_call) (s : S) : Prop :=
  ∃ n, call_payload (audit_at E n) c ∈ trail_rows s.

Lemma in_trail_keeps c s s' : keeps s s' → in_trail c s → in_trail c s'.
Proof. intros Hk [n Hn]. exists n. by apply Hk. Qed.

(** After a return under fail-deny the row is in the trail and none is lost. *)
Lemma audit_post c s :
  polite → sound s →
  let '(r, s') := audit c s in
  sound s' ∧ (r = Ret tt → fail_deny → keeps s s' ∧ in_trail c s') ∧ ∃ w, s' = audited w s.
Proof.
  intros Hp Hs. unfold audit.
  pose proof (log_audit_spec (audit_at E (audit_calls s)) c
    (db_at E (audit_calls s) (w_table (trail s))) (trail s) Hs (Hp _ _ Hs)) as Hpost.
  destruct (log_audit _ c _ (trail s)) as [r w]. destruct Hpost as [Hc Hr]. cbn [fst snd] in *.
  unfold sound, keeps, in_trail, trail_rows. rewrite trail_audited.
  split; [done|]. split; [|by exists w]. intros -> Hfd.
  destruct Hr as [[o Ho]|[Hf _]]; [|by rewrite (Hfd _) in Hf]. split.
  - intros p. rewrite Ho, !elem_of_app. tauto.
  - exists (audit_calls s). rewrite Ho, !elem_of_app. right. right. right.
    by apply list_elem_of_singleton.
Qed.

(** What [log_audit] raises when it raises. *)
Definition trail_failure (e : exn) : Prop := e = RuntimeError ∨ e = OperationalError.

Lemma row_attempts_failure p evs t e t' :
  row_attempts p evs t = (FlushFailed e, t') → e = OperationalError.
Proof.
  revert t. induction evs as [|[others|] evs IH]; intros t; cbn [row_attempts]; [done| |by intros [= <- _]].
  destruct (_audit_chain_head t) as [seq prev]. unfold insert_row. destruct (chain_seq _); [|done].
  destruct (has_seq _ _); [apply IH|done].
Qed.

Lemma insert_rows_failure l t e : insert_rows l t = Raise e → e = IntegrityError.
Proof.
  revert t. induction l as [|r l IH]; intros t; [done|]. cbn. unfold insert_row.
  destruct (chain_seq r); [destruct (has_seq _ _); [by intros [= <-]|]|]; apply IH.
Qed.

Lemma flush_attempts_failure b evs t e t' :
  flush_attempts b evs t = (FlushFailed e, t') → e = OperationalError.
Proof.
  revert t. induction evs as [|[others|] evs IH]; intros t; cbn [flush_attempts]; [done| |by intros [= <- _]].
  destruct (_audit_chain_head t) as [seq prev].
  destruct (insert_rows _ _) as [t2|x] eqn:Hins; [done|]. apply insert_rows_failure in Hins as ->. apply IH.
Qed.

Lemma log_audit_failure e c env w x : fst (log_audit e c env w) = Raise x → trail_failure x.
Proof.
  unfold log_audit, trail_failure, _enforce_audit_detail_size.
  assert (∀ (b : bool) (w1 : world), fst (if b then (Raise RuntimeError, w1) else (@Ret unit tt, w1)) = Raise x →
    x = RuntimeError ∨ x = OperationalError) as Hex by (intros [] w1; cbn; [intros [= <-]; by left|done]).
  set (per := let '(res, t) := row_attempts _ _ _ in _).
  assert (fst per = Raise x → x = RuntimeError ∨ x = OperationalError) as Hper.
  { subst per. destruct (row_attempts _ _ _) as [res t] eqn:Hrow. destruct res as [n| |y]; [done|apply Hex|].
    cbn. intros [= <-]. right. by eapply row_attempts_failure. }
  assert (∀ cfg, fst (match append cfg (call_payload e c) env w with
      | (Ret _, w') => (Ret tt, w')
      | (Raise AuditChainExhausted, w') =>
          if audit_fail_deny e then (Raise RuntimeError, w') else (@Ret unit tt, w')
      | (Raise ex, w') => (Raise ex, w') end) = Raise x → x = RuntimeError ∨ x = OperationalError) as Happ.
  { intros cfg. unfold append, _flush_locked. destruct (_ <=? _)%Z; [|done]. cbn [w_pending].
    destruct (w_pending w ++ [call_payload e c]) as [|p l]; [done|].
    destruct (flush_attempts _ _ _) as [[n| |y] t] eqn:Hfl; [done|apply Hex|].
    apply flush_attempts_failure in Hfl as ->. cbn. intros [= <-]. by right. }
  destruct (call_detail c) as [d|]; [destruct (_ <? _)%Z; [cbn; intros [= <-]; by left|]|];
    (destruct (batched_chain e) as [cfg|]; [destruct (_ || _); [exact Hper|exact (Happ cfg)]|exact Hper]).
Qed.

(** [audit] with its exceptions: [P] is about what the trail does not touch. *)
Lemma ends_audit (P : S → Prop) c :
  polite → (∀ w s, P s → P (audited w s)) →
  ends (λ s, sound s ∧ P s) (audit c)
    (λ r s, sound s ∧ P s ∧ match r with Ret _ => fail_deny → in_trail c s | Raise e => trail_failure e end).
Proof.
  intros Hp HP s (Hs & Hps). pose proof (audit_post c s Hp Hs) as Hpost.
  assert (∀ x, fst (audit c s) = Raise x → trail_failure x) as Hfail.
  { intros x. unfold audit. pose proof (log_audit_failure (audit_at E (audit_calls s)) c
      (db_at E (audit_calls s) (w_table (trail s))) (trail s) x) as Hx.
    destruct (log_audit _ _ _ _). exact Hx. }
  destruct (audit c s) as [r s']. destruct Hpost as (Hs' & Hin & w & ->). cbn [fst snd] in *.
  split; [done|]. split; [by apply HP|]. destruct r as [[]|e]; [|by apply Hfail].
  intros Hfd. by apply Hin.
Qed.

(** [audit] as a triple: [P] is about what the trail does not touch. *)
Lemma hoare_audit (P : S → Prop) s0 c :
  polite → fail_deny → (∀ w s, P s → P (audited w s)) →
  triple (λ s, sound s ∧ keeps s0 s ∧ P s) (audit c)
    (λ _ s, (sound s ∧ keeps s0 s ∧ P s) ∧ in_trail c s) (λ s, sound s ∧ P s).
Proof.
  intros Hp Hfd HP s (Hs & Hk & Hps). pose proof (audit_post c s Hp Hs) as Hpost.
  destruct (audit c s) as [r s']. destruct Hpost as (Hs' & Hin & w & ->).
  destruct r as [[]|e]; [|by auto]. destruct (Hin eq_refl Hfd) as [Hk' Hw].
  split_and!; auto. by etrans.
Qed.

End Audit.

(** A process alone with its database, which writes row by row and refuses to
    answer without a row. *)
Definition quiet_trail : auditing :=
  {| audit_at _ := {| now_iso := "2026-01-01T00:00:00+00:00"; current_dpop_jkt := None;
                      current_on_behalf_of_user := None; batched_chain := None;
                      audit_chain_disabled := false; audit_chain_durable := true;
                      audit_fail_deny := true |};
     db_at _ _ := calm |}.

Lemma quiet_polite `{Hash} : polite quiet_trail.
Proof. intros n t Hok. by apply calm_table_benign. Qed.

Lemma quiet_deny : fail_deny quiet_trail.
Proof. done. Qed.

(** ** Statements and transactions

    A statement reaches the database or raises what the driver raises there;
    [fails] says which by the number of statements so far.  A transaction that
    raises, or whose COMMIT does, puts the tables back. *)

Class Transactional (S : Type) := {
  statements : S → nat;
  issued : S → S;
  restore : S → S → S;      (* the tables of the first, the rest of the second *)
}.

Section Database.
Context {S : Type} `{Transactional S} (fails : nat → option exn).

Definition statement {A} (m : M S A) : M S A := λ s,
  match fails (statements s) with
  | Some e => (Raise e, issued s)
  | None => m (issued s)
  end.

Definition transaction {A} (m : M S A) : M S A := λ s,
  match m s with
  | (Ret a, s1) =>
      match statement (ret a) s1 with
      | (Raise e, s2) => (Raise e, restore s s2)
      | r => r
      end
  | (Raise e, s1) => (Raise e, restore s s1)
  end.

Lemma statement_Ret {A} (m : M S A) s a s' :
  statement m s = (Ret a, s') → m (issued s) = (Ret a, s').
Proof. unfold statement. by destruct (fails _). Qed.

Lemma transaction_Ret {A} (m : M S A) s a s' :
  transaction m s = (Ret a, s') → ∃ s1, m s = (Ret a, s1) ∧ s' = issued s1.
Proof.
  unfold transaction. destruct (m s) as [[a'|e] s1]; [|done].
  unfold statement. destruct (fails _); [done|]. intros [= -> <-]. by exists s1.
Qed.

Lemma hoare_statement {A} (P P' : S → Prop) (m : M S A) (Q : A → S → Prop) (R : S → Prop) :
  (∀ s, P s → P' (issued s)) → (∀ s, P' s → R s) → triple P' m Q R → triple P (statement m) Q R.
Proof.
  intros HP HR Hm s Hs. unfold statement. destruct (fails _); [by apply HR, HP|by apply Hm, HP].
Qed.

Lemma hoare_transaction {A} (P : S → Prop) (m : M S A) (Q : A → S → Prop) (R : S → Prop) :
  triple P m (λ a s, Q a (issued s)) (λ _, True) → (∀ s s', P s → R (restore s s')) →
  triple P (transaction m) Q R.
Proof.
  intros Hm HR s Hs. specialize (Hm s Hs). unfold transaction.
  destruct (m s) as [[a|e] s1]; [|by apply HR].
  unfold statement. destruct (fails _); [by apply HR|done].
Qed.

End Database.

(** ** What a program preserves *)

Create HintDb preserved.

Definition preserves {S A} (P : S → Prop) (m : M S A) : Prop := triple P m (λ _, P) P.

(** Sending a statement and undoing a transaction leave the predicate alone. *)
Class Stable {S} `{Transactional S} (P : S → Prop) := {
  stable_issued s : P s → P (issued s);
  stable_restore s s' : P s → P s' → P (restore s s');
}.

Section Preserves.
Context {S : Type} `{Transactional S} (P : S → Prop) `{!Stable P}.

Lemma preserves_ret {A} (a : A) : preserves P (ret a).
Proof. by apply hoare_ret. Qed.
Lemma preserves_raise {A} e : preserves (A := A) P (raise e).
Proof. apply hoare_raise. Qed.
Lemma preserves_lift {A} (o : outcome A) : preserves P (lift o).
Proof. by apply hoare_lift. Qed.
Lemma preserves_gets {A} (f : S → A) : preserves P (gets f).
Proof. by apply hoare_gets. Qed.
Lemma preserves_modify f : (∀ s, P s → P (f s)) → preserves P (modify f).
Proof. intros Hf s. apply Hf. Qed.
Lemma preserves_bind {A B} (m : M S A) (f : A → M S B) :
  preserves P m → (∀ a, preserves P (f a)) → preserves P (bind m f).
Proof. by apply hoare_bind. Qed.
Lemma preserves_bind_lift {A B} (o : outcome A) (f : A → M S B) :
  (∀ a, o = Ret a → preserves P (f a)) → preserves P (bind (lift o) f).
Proof. intros Hf s Hs. unfold bind, lift. destruct o as [a|e]; [by apply Hf|done]. Qed.
Lemma preserves_catch {A} (m : M S A) h :
  preserves P m → (∀ e, preserves P (h e)) → preserves P (catch m h).
Proof. by apply hoare_catch. Qed.
Lemma preserves_if {A} (b : bool) (m n : M S A) :
  preserves P m → preserves P n → preserves P (if b then m else n).
Proof. by destruct b. Qed.
Lemma preserves_option {A B} (o : option B) (f : B → M S A) (m : M S A) :
  (∀ b, preserves P (f b)) → preserves P m →
  preserves P (match o with Some b => f b | None => m end).
Proof. intros Hf Hm. by destruct o. Qed.

Lemma preserves_for_each {A B} (f : A → B → M S A) acc l :
  (∀ acc x, preserves P (f acc x)) → preserves P (for_each f acc l).
Proof.
  intros Hf. revert acc. induction l as [|x l IH]; intros acc; [apply preserves_ret|].
  by apply preserves_bind.
Qed.

Context (fails : nat → option exn).

Lemma preserves_statement {A} (m : M S A) : preserves P m → preserves P (statement fails m).
Proof. apply hoare_statement; [apply stable_issued|done]. Qed.
Lemma preserves_transaction {A} (m : M S A) : preserves P m → preserves P (transaction fails m).
Proof.
  intros Hm s Hs. specialize (Hm s Hs). unfold transaction.
  destruct (m s) as [[a|e] s1]; [|by apply stable_restore].
  unfold statement. destruct (fails _); [by apply stable_restore, stable_issued|by apply stable_issued].
Qed.

(** A predicate the process keeps holds at the end. *)
Lemma preserves_end {A} (m : M S A) s : preserves P m → P s → P (snd (m s)).
Proof. intros Hm Hs. specialize (Hm s Hs). by destruct (m s) as [[a|e] s']. Qed.

End Preserves.

#[export] Hint Resolve preserves_ret preserves_raise preserves_lift preserves_gets preserves_bind
  preserves_catch preserves_if preserves_option preserves_for_each preserves_statement preserves_transaction : preserved.
#[export] Hint Extern 0 (Stable _) => apply _ : preserved.
