(* ===== verification/RateLimit.v ===== *)
(** * The sliding-window rate limiters

    [mcp_proxy/auth/rate_limit.py]: the in-memory request limiter and the
    in-memory token-sum limiter.  [time.monotonic()] is an integer number of
    nanoseconds passed to every operation; the theorems are about runs whose
    clock never goes back. *)

From S2P Require Import Prelude.

Open Scope Z_scope.

Definition _WINDOW_SECONDS : Z := 60 * 1000000000.

(** [[t for t in l if t > cutoff]] *)
Definition newer (cutoff : Z) (l : list Z) : list Z := List.filter (λ t, cutoff <? t) l.

(** ** [InMemoryAgentRateLimiter] *)

Abbreviation windows := (gmap string (list Z)).

Definition check (now : Z) (agent_id : string) (max_per_minute : Z) (w : windows)
    : bool * windows :=
  let cutoff := now - _WINDOW_SECONDS in
  let timestamps := newer cutoff (default [] (w !! agent_id)) in
  if max_per_minute <=? Z.of_nat (length timestamps) then (false, <[agent_id := timestamps]> w)
  else (true, <[agent_id := timestamps ++ [now]]> w).

(** ** [InMemoryTokenSumLimiter] *)

Abbreviation token_windows := (gmap string (list (Z * Z))).

Definition newer_entries (cutoff : Z) (l : list (Z * Z)) : list (Z * Z) :=
  List.filter (λ e, cutoff <? fst e) l.

Definition weight (l : list (Z * Z)) : Z := foldr (λ e acc, snd e + acc) 0 l.

Definition peek (now : Z) (key : string) (w : token_windows) : Z * token_windows :=
  let entries := newer_entries (now - _WINDOW_SECONDS) (default [] (w !! key)) in
  (weight entries, <[key := entries]> w).

Definition consume (now : Z) (key : string) (amount : Z) (w : token_windows) : token_windows :=
  if amount <=? 0 then w
  else
    let entries := newer_entries (now - _WINDOW_SECONDS) (default [] (w !! key)) in
    <[key := entries ++ [(now, amount)]]> w.

(** ** Runs of the request limiter *)

Record request := { at_time : Z; by_agent : string; budget : Z }.

(** Serve the requests in order; the history keeps the granted ones. *)
Fixpoint serve (rs : list request) (w : windows) : list request * windows :=
  match rs with
  | [] => ([], w)
  | r :: rest =>
      let '(ok, w1) := check (at_time r) (by_agent r) (budget r) w in
      let '(granted, w2) := serve rest w1 in
      (if ok then r :: granted else granted, w2)
  end.

(** The grant times of one agent. *)
Definition grants (a : string) (rs : list request) : list Z :=
  at_time <$> List.filter (λ r, bool_decide (by_agent r = a)) rs.

(** The clock of a run does not go back. *)
Fixpoint clocked (now : Z) (rs : list request) : Prop :=
  match rs with
  | [] => True
  | r :: rest => now <= at_time r ∧ clocked (at_time r) rest
  end.

(** How many of [l] fall in the window [(from, from + 60s]]. *)
Definition in_window (from : Z) (l : list Z) : nat :=
  length (List.filter (λ t, (from <? t) && (t <=? from + _WINDOW_SECONDS)) l).

(** ** The invariant

    [w] remembers the history [h] of grants up to [now]: for every agent it
    holds exactly the grants newer than some cutoff no later than the current
    window's. *)
Definition remembers (h : string → list Z) (now : Z) (w : windows) : Prop :=
  ∀ a, ∃ c, c <= now - _WINDOW_SECONDS ∧ default [] (w !! a) = newer c (h a) ∧
    Forall (λ t, t <= now) (h a).

Lemma newer_newer c c' l : c <= c' → newer c' (newer c l) = newer c' l.
Proof.
  intros Hc. unfold newer. rewrite <- filter_andb. apply List.filter_ext. intros t.
  destruct (Z.ltb_spec c t), (Z.ltb_spec c' t); try done. lia.
Qed.

Lemma newer_app c l l' : newer c (l ++ l') = newer c l ++ newer c l'.
Proof. apply List.filter_app. Qed.

Definition extend (h : string → list Z) (a : string) (t : Z) : string → list Z :=
  λ b, if decide (b = a) then h b ++ [t] else h b.

Lemma remembers_later h now now' w : now <= now' → remembers h now w → remembers h now' w.
Proof.
  intros Hle Hr a. destruct (Hr a) as (c & Hc & Hw & Hall). exists c. split; [lia|].
  split; [done|]. eapply Forall_impl; [exact Hall|]. simpl. lia.
Qed.

Lemma check_spec h now a m w :
  remembers h now w →
  let '(ok, w') := check now a m w in
  (ok = true ↔ Z.of_nat (length (newer (now - _WINDOW_SECONDS) (h a))) < m) ∧
  remembers (if ok then extend h a now else h) now w'.
Proof.
  intros Hr. unfold check. destruct (Hr a) as (c & Hc & Hw & Hall).
  assert (newer (now - _WINDOW_SECONDS) [now] = [now]) as Hnew.
  { simpl. by rewrite (proj2 (Z.ltb_lt _ _)) by (unfold _WINDOW_SECONDS; lia). }
  rewrite Hw, newer_newer by done.
  destruct (Z.leb_spec m (Z.of_nat (length (newer (now - _WINDOW_SECONDS) (h a))))) as [Hm|Hm].
  - split; [split; [done|lia]|]. intros b. destruct (decide (b = a)) as [->|Hne].
    + rewrite lookup_insert_eq. exists (now - _WINDOW_SECONDS). by split; [lia|].
    + rewrite lookup_insert_ne by done. apply Hr.
  - split; [split; [lia|done]|]. intros b. unfold extend. destruct (decide (b = a)) as [->|Hne].
    + rewrite lookup_insert_eq. exists (now - _WINDOW_SECONDS). split; [lia|]. split.
      * rewrite newer_app.
        by rewrite Hnew.
      * apply Forall_app. split; [done|by repeat constructor].
    + rewrite lookup_insert_ne by done. apply Hr.
Qed.

(** What the history of an agent looks like after a run. *)
Definition history (h : string → list Z) (granted : list request) : string → list Z :=
  λ a, h a ++ grants a granted.

Lemma history_extend h r granted a :
  history (extend h (by_agent r) (at_time r)) granted a = history h (r :: granted) a.
Proof.
  unfold history, extend, grants. simpl.
  destruct (decide (a = by_agent r)) as [->|Hne].
  - rewrite bool_decide_eq_true_2 by done. simpl. by rewrite <- app_assoc.
  - by rewrite bool_decide_eq_false_2 by done.
Qed.

(** ** No window holds more grants than the budget *)

Definition bounded (m : nat) (h : string → list Z) : Prop :=
  ∀ a from, (in_window from (h a) <= m)%nat.

Lemma filter_length_mono {A} (f g : A → bool) l :
  (∀ x, x ∈ l → f x = true → g x = true) →
  (length (List.filter f l) <= length (List.filter g l))%nat.
Proof.
  induction l as [|x l IH]; simpl; [lia|]. intros Hfg.
  assert (∀ y, y ∈ l → f y = true → g y = true) as Hl by (intros; apply Hfg; set_solver).
  specialize (IH Hl). destruct (f x) eqn:Hf; simpl.
  - rewrite (Hfg x) by (done || left). simpl. lia.
  - destruct (g x); simpl; lia.
Qed.

Lemma extend_bounded m h now a w :
  remembers h now w → bounded m h →
  (length (newer (now - _WINDOW_SECONDS) (h a)) < m)%nat →
  bounded m (extend h a now).
Proof.
  intros Hr Hb Hlt b from. unfold extend. destruct (decide (b = a)) as [->|]; [|apply Hb].
  unfold in_window. rewrite List.filter_app. simpl.
  destruct ((from <? now) && (now <=? from + _WINDOW_SECONDS)) eqn:Hin.
  2: { rewrite app_nil_r. apply Hb. }
  rewrite length_app. simpl.
  assert (length (List.filter (λ t, (from <? t) && (t <=? from + _WINDOW_SECONDS))%Z (h a))
          <= length (newer (now - _WINDOW_SECONDS) (h a)))%nat.
  { apply filter_length_mono. intros t _ Ht. bools. apply Z.ltb_lt. lia. }
  lia.
Qed.

Lemma serve_bounded m rs now h w :
  Forall (λ r, budget r <= Z.of_nat m) rs → clocked now rs →
  remembers h now w → bounded m h → bounded m (history h (serve rs w).1).
Proof.
  revert now h w. induction rs as [|r rs IH]; intros now h w Hbud Hclk Hrem Hb.
  { intros a from. unfold history. simpl. rewrite app_nil_r. apply Hb. }
  apply Forall_cons_1 in Hbud as [Hr Hbud]. destruct Hclk as [Hnow Hclk].
  apply (remembers_later h now (at_time r)) in Hrem; [|done].
  pose proof (check_spec h (at_time r) (by_agent r) (budget r) w Hrem) as Hc. simpl.
  destruct (check _ _ _ w) as [ok w1]. destruct Hc as [Hok Hrem'].
  destruct (serve rs w1) as [granted w2] eqn:Hs.
  assert (granted = (serve rs w1).1) as Hg by (by rewrite Hs).
  destruct ok; simpl.
  - intros a from. rewrite <- history_extend, Hg. eapply IH; try done.
    eapply extend_bounded; [exact Hrem|done|]. destruct Hok as [Hok _]. specialize (Hok eq_refl). lia.
  - rewrite Hg. by eapply IH.
Qed.

Lemma serve_remembers rs now h w r :
  clocked now (rs ++ [r]) → remembers h now w →
  remembers (history h (serve rs w).1) (at_time r) (serve rs w).2.
Proof.
  revert now h w. induction rs as [|x rs IH]; intros now h w Hclk Hrem; simpl.
  - destruct Hclk as [Hle _]. apply (remembers_later h now (at_time r)) in Hrem; [|done].
    intros a. destruct (Hrem a) as (c & ?). exists c. unfold history. simpl. by rewrite app_nil_r.
  - destruct Hclk as [Hle Hclk]. apply (remembers_later h now (at_time x)) in Hrem; [|done].
    pose proof (check_spec h (at_time x) (by_agent x) (budget x) w Hrem) as Hc.
    destruct (check _ _ _ w) as [ok w1]. destruct Hc as [_ Hrem'].
    specialize (IH _ _ _ Hclk Hrem'). destruct (serve rs w1) as [granted w2]. simpl in *.
    destruct ok; [|done]. intros a. destruct (IH a) as (c & ? & ? & ?). exists c.
    by rewrite <- history_extend.
Qed.

Lemma empty_remembers now : remembers (λ _, []) now ∅.
Proof. intros a. exists (now - _WINDOW_SECONDS). split; [lia|]. by rewrite lookup_empty. Qed.

(** ** The token-sum limiter *)

Inductive token_op := Peek | Consume (amount : Z).

(** Run the operations on one key with their instants; the last component is
    the list of consumed entries. *)
Fixpoint run_tokens (ops : list (Z * token_op)) (key : string) (w : token_windows)
    : token_windows :=
  match ops with
  | [] => w
  | (now, Peek) :: rest => run_tokens rest key (snd (peek now key w))
  | (now, Consume n) :: rest => run_tokens rest key (consume now key n w)
  end.

Definition consumed (ops : list (Z * token_op)) : list (Z * Z) :=
  flat_map (λ op, match snd op with
                  | Consume n => if n <=? 0 then [] else [(fst op, n)]
                  | Peek => []
                  end) ops.

Fixpoint tokens_clocked (now : Z) (ops : list (Z * token_op)) (last : Z) : Prop :=
  match ops with
  | [] => now <= last
  | (t, _) :: rest => now <= t ∧ tokens_clocked t rest last
  end.

Definition token_remembers (l : list (Z * Z)) (now : Z) (key : string) (w : token_windows) : Prop :=
  ∃ c, c <= now - _WINDOW_SECONDS ∧ default [] (w !! key) = newer_entries c l.

Lemma newer_entries_twice c c' l :
  c <= c' → newer_entries c' (newer_entries c l) = newer_entries c' l.
Proof.
  intros Hc. unfold newer_entries. rewrite <- filter_andb. apply List.filter_ext.
  intros [t n]. simpl. destruct (Z.ltb_spec c t), (Z.ltb_spec c' t); try done. lia.
Qed.

Lemma run_tokens_spec ops key now last l w :
  tokens_clocked now ops last → token_remembers l now key w →
  token_remembers (l ++ consumed ops) last key (run_tokens ops key w).
Proof.
  revert now l w. induction ops as [|[t op] ops IH]; intros now l w Hclk (c & Hc & Hw); simpl in *.
  { rewrite app_nil_r. exists c. split; [lia|done]. }
  destruct Hclk as [Hnow Hclk].
  assert (newer_entries (t - _WINDOW_SECONDS) (default [] (w !! key))
          = newer_entries (t - _WINDOW_SECONDS) l) as Heq.
  { rewrite Hw. apply newer_entries_twice. lia. }
  destruct op as [|n]; simpl.
  - eapply IH; [done|]. exists (t - _WINDOW_SECONDS). split; [lia|].
    by rewrite Heq, lookup_insert_eq.
  - unfold consume. destruct (Z.leb_spec n 0) as [Hn|Hn]; simpl.
    + eapply IH; [done|]. exists c. split; [lia|done].
    + rewrite cons_middle, app_assoc. eapply IH; [done|].
      exists (t - _WINDOW_SECONDS). split; [lia|].
      rewrite Heq, lookup_insert_eq. simpl. unfold newer_entries. rewrite List.filter_app. simpl.
      by rewrite (proj2 (Z.ltb_lt _ _)) by (unfold _WINDOW_SECONDS; lia).
Qed.

(** ** Properties *)

(** whatever the requests, agents and budgets of a run, no sixty-second
    window holds more granted requests of one agent than the largest budget
    asked for, however the window is placed. *)
Theorem rate_limit_respected (rs : list request) (m : nat) (a : string) (from : Z) :
  clocked 0 rs → Forall (λ r, budget r <= Z.of_nat m) rs →
  (in_window from (grants a (serve rs ∅).1) <= m)%nat.
Proof.
  intros Hclk Hbud.
  exact (serve_bounded m rs 0 (λ _, []) ∅ Hbud Hclk (empty_remembers 0)
           ltac:(intros ??; apply Nat.le_0_l) a from).
Qed.

(** the limiter never refuses below the budget, and one agent's traffic
    never spends another's: a request is granted exactly when fewer than its
    budget of that same agent's grants lie in the last sixty seconds. *)
Theorem rate_limit_exact (rs : list request) (r : request) :
  clocked 0 (rs ++ [r]) →
  let '(granted, w) := serve rs ∅ in
  (check (at_time r) (by_agent r) (budget r) w).1 =
    (Z.of_nat (length (newer (at_time r - _WINDOW_SECONDS) (grants (by_agent r) granted)))
       <? budget r).
Proof.
  intros Hclk. destruct (serve rs ∅) as [granted w] eqn:Hs.
  assert (remembers (history (λ _, []) granted) (at_time r) w) as Hrem.
  { apply (serve_remembers rs 0 (λ _, []) ∅ r) in Hclk; [|apply empty_remembers].
    by rewrite Hs in Hclk. }
  pose proof (check_spec _ (at_time r) (by_agent r) (budget r) w Hrem) as Hc.
  destruct (check _ _ _ w) as [ok w']. destruct Hc as [Hok _]. simpl. unfold history in Hok.
  simpl in Hok. destruct (Z.ltb_spec (Z.of_nat (length (newer (at_time r - _WINDOW_SECONDS)
    (grants (by_agent r) granted)))) (budget r)); destruct ok; naive_solver lia.
Qed.

(** [peek] reports exactly the positive amounts consumed on its key in the
    last sixty seconds, whatever peeks and consumes came before. *)
Theorem peek_sums_window (ops : list (Z * token_op)) (key : string) (now : Z) :
  tokens_clocked 0 ops now →
  (peek now key (run_tokens ops key ∅)).1
    = weight (newer_entries (now - _WINDOW_SECONDS) (consumed ops)).
Proof.
  intros Hclk. destruct (run_tokens_spec ops key 0 now [] ∅ Hclk) as (c & Hc & Hw).
  { exists (0 - _WINDOW_SECONDS). split; [lia|]. by rewrite lookup_empty. }
  unfold peek. simpl. rewrite Hw. by rewrite newer_entries_twice.
Qed.

(** ** Witnesses *)

Module RateDemo.
Definition req (s : Z) (a : string) : request :=
  {| at_time := s * 1000000000; by_agent := a; budget := 2 |}.
Definition run : list request := [req 1 "a"; req 2 "a"; req 3 "b"; req 4 "a"; req 62 "a"].
Lemma run_clocked : clocked 0 run.
Proof. by repeat split. Qed.
End RateDemo.

Lemma rate_limit_respected_witness :
  grants "a" (serve RateDemo.run ∅).1 = [1000000000; 2000000000; 62000000000] ∧
  (in_window 1000000000 (grants "a" (serve RateDemo.run ∅).1) <= 2)%nat.
Proof.
  split; [vm_compute; reflexivity|].
  apply (rate_limit_respected RateDemo.run 2 "a" _ RateDemo.run_clocked).
  repeat constructor; simpl; lia.
Defined.

Lemma rate_limit_exact_witness :
  let '(granted, w) := serve RateDemo.run ∅ in
  (check 62500000000 "a" 2 w).1 =
    (Z.of_nat (length (newer (62500000000 - _WINDOW_SECONDS) (grants "a" granted))) <? 2).
Proof.
  apply (rate_limit_exact RateDemo.run {| at_time := 62500000000; by_agent := "a"; budget := 2 |}).
  by repeat split.
Defined.

Lemma peek_sums_window_witness :
  (peek 70000000000 "k"
     (run_tokens [(1, Consume 5); (20000000000, Consume 7); (30000000000, Peek)] "k" ∅)).1 = 7.
Proof.
  rewrite (peek_sums_window [(1, Consume 5); (20000000000, Consume 7); (30000000000, Peek)] "k").
  - vm_compute. reflexivity.
  - by repeat split.
Defined.
