(* ===== verification/ReplayStore.v ===== *)
(** * Single-use stores

    [mcp_proxy/auth/dpop_jti_store.py] (the DPoP [jti] stores),
    [mcp_proxy/auth/challenge_store.py] (login challenges) and
    [mcp_proxy/attestation/nonce_store.py] (attestation nonces).  Instants are
    integers in one unit for all of them.  What the DPoP verifier needs of a
    [jti] store is the class [ReplayGuard]; the in-memory store implements it,
    and so does the Redis one over any server with the documented behaviour of
    [SET NX EX], the class [RedisTTL]. *)

From S2P Require Import Prelude Json.
From Stdlib Require Import QArith.

Open Scope Z_scope.

(** ** What a replay store promises *)

Class ReplayGuard := {
  guard : Type;
  guard0 : guard;
  (** the key a [jti] claim is stored under, if it can be one *)
  jti_text : json → outcome string;
  (** [consume_jti(jti, ttl)] at an instant: newly consumed, or seen. *)
  consume_jti : Z → string → Z → guard → bool * guard;
  (** the store still holds [jti] at an instant *)
  remembered : Z → string → guard → bool;
  remembered_empty now j : remembered now j guard0 = false;
  remembered_earlier now now' j g :
    now <= now' → remembered now' j g = true → remembered now j g = true;
  consume_new now j ttl g : (consume_jti now j ttl g).1 = negb (remembered now j g);
  consume_remembers now now' j ttl g :
    (consume_jti now j ttl g).1 = true → now <= now' < now + ttl →
    remembered now' j (consume_jti now j ttl g).2 = true;
  consume_keeps now now' j k ttl g :
    now <= now' → remembered now' k g = true →
    remembered now' k (consume_jti now j ttl g).2 = true;
  consume_adds_only now now' j k ttl g :
    now <= now' → remembered now' k (consume_jti now j ttl g).2 = true →
    remembered now' k g = true ∨ k = j;
}.

(** ** [InMemoryDpopJtiStore] *)

Section InMemory.

(** [{k: v for k, v in store.items() if not v < now}] *)
Definition purge (now : Z) (store : gmap string Z) : gmap string Z :=
  filter (λ kv, now <= kv.2) store.

Definition memory_consume (now : Z) (jti : string) (ttl_seconds : Z) (store : gmap string Z)
    : bool * gmap string Z :=
  let store1 := purge now store in
  match store1 !! jti with
  | Some _ => (false, store1)
  | None => (true, <[jti := now + ttl_seconds]> store1)
  end.

Definition holds_until (now : Z) (k : string) (store : gmap string Z) : bool :=
  match store !! k with Some v => now <=? v | None => false end.

Lemma holds_until_spec now k store :
  holds_until now k store = true ↔ ∃ v, store !! k = Some v ∧ now <= v.
Proof.
  unfold holds_until. destruct (store !! k) as [v|].
  - rewrite Z.leb_le. naive_solver.
  - naive_solver.
Qed.

Lemma purge_lookup now k v store : purge now store !! k = Some v ↔ store !! k = Some v ∧ now <= v.
Proof. apply map_lookup_filter_Some. Qed.

Lemma purge_lookup_None now k store :
  purge now store !! k = None ↔ holds_until now k store = false.
Proof.
  rewrite <- not_true_iff_false, holds_until_spec, eq_None_not_Some. f_equiv.
  split; intros [v Hv]; exists v; by apply purge_lookup.
Qed.

Lemma memory_new now j ttl store :
  (memory_consume now j ttl store).1 = negb (holds_until now j store).
Proof.
  unfold memory_consume. destruct (purge now store !! j) as [v|] eqn:Hp; simpl.
  - apply purge_lookup in Hp. by rewrite (proj2 (holds_until_spec _ _ _)) by eauto.
  - by apply purge_lookup_None in Hp as ->.
Qed.

Lemma memory_keeps now now' j k ttl store :
  now <= now' → holds_until now' k store = true →
  holds_until now' k (memory_consume now j ttl store).2 = true.
Proof.
  rewrite !holds_until_spec. intros Hle (v & Hv & Hvn).
  assert (purge now store !! k = Some v) as Hp by (apply purge_lookup; split; [done|lia]).
  exists v. split; [|done]. unfold memory_consume.
  destruct (purge now store !! j) eqn:Hj; simpl; [done|].
  rewrite lookup_insert_ne; [done|]. intros ->. congruence.
Qed.

Lemma memory_adds_only now now' j k ttl store :
  holds_until now' k (memory_consume now j ttl store).2 = true →
  holds_until now' k store = true ∨ k = j.
Proof.
  destruct (decide (k = j)) as [->|Hne]; [by right|]. left. rewrite !holds_until_spec in *.
  destruct H as (v & Hv & Hvn). exists v. split; [|done]. unfold memory_consume in Hv.
  destruct (purge now store !! j); simpl in Hv; [|rewrite lookup_insert_ne in Hv by done];
    by apply purge_lookup in Hv as [? _].
Qed.

(** The dict keys on the [jti] itself: a list or an object is unhashable; numbers
    are keys by their value, disjoint from every string. *)
Definition memory_key (jti : json) : outcome string :=
  match jti with
  | JStr s => Ret ("s" +:+ s)
  | JList _ | JObj _ => Raise TypeError
  | JBool b => Ret (if b then "n1" else "n0")
  | JInt z => Ret ("n" +:+ pretty z)
  | JFloat text q =>
      Ret ("n" +:+ if (Qden (Qred q) =? 1)%positive then pretty (Qnum (Qred q)) else text)
  | JNull => Ret "none"
  end.

#[export] Instance InMemoryDpopJtiStore : ReplayGuard.
Proof.
  refine {| guard := gmap string Z; guard0 := ∅; jti_text := memory_key; consume_jti := memory_consume;
            remembered := holds_until |}.
  - done.
  - intros now now' j g Hle. rewrite !holds_until_spec. intros (v & ? & ?). exists v. split; [done|lia].
  - apply memory_new.
  - intros now now' j ttl g Hnew Hnow. rewrite memory_new in Hnew. bools.
    apply holds_until_spec. unfold memory_consume. apply purge_lookup_None in Hnew as ->. simpl.
    rewrite lookup_insert_eq. exists (now + ttl). split; [done|lia].
  - apply memory_keeps.
  - intros now now' j k ttl g _. apply memory_adds_only.
Defined.
End InMemory.

(** ** [RedisDpopJtiStore] over any server *)

(** [SET key "1" NX EX ttl] as documented: set when the key is absent, the key
    expires after [ttl]. *)
Class RedisTTL := {
  redis : Type;
  redis0 : redis;
  set_nx_ex : Z → string → Z → redis → bool * redis;
  exists_key : Z → string → redis → bool;
  empty_server now k : exists_key now k redis0 = false;
  expires_once now now' k r : now <= now' → exists_key now' k r = true → exists_key now k r = true;
  set_if_absent now k ttl r : (set_nx_ex now k ttl r).1 = negb (exists_key now k r);
  set_lives now now' k ttl r :
    (set_nx_ex now k ttl r).1 = true → now <= now' < now + ttl →
    exists_key now' k (set_nx_ex now k ttl r).2 = true;
  set_keeps now now' k k' ttl r :
    now <= now' → exists_key now' k' r = true → exists_key now' k' (set_nx_ex now k ttl r).2 = true;
  set_other now now' k k' ttl r :
    now <= now' → k' ≠ k → exists_key now' k' (set_nx_ex now k ttl r).2 = true →
    exists_key now' k' r = true;
}.

Section Redis.
Context `{RedisTTL}.

Definition jti_key (jti : string) : string := "mcp_proxy:dpop:jti:" +:+ jti.

Lemma jti_key_inj j k : jti_key j = jti_key k → j = k.
Proof. apply str_app_inj_l. Qed.

Definition redis_consume (now : Z) (jti : string) (ttl_seconds : Z) (r : redis) : bool * redis :=
  set_nx_ex now (jti_key jti) ttl_seconds r.

(** The key is [f"...{jti}"]: any value has a text. *)
Definition RedisDpopJtiStore : ReplayGuard.
Proof.
  refine {| guard := redis; guard0 := redis0; jti_text v := Ret (str_of v); consume_jti := redis_consume;
            remembered now j r := exists_key now (jti_key j) r |}; unfold redis_consume.
  - intros. apply empty_server.
  - intros now now' j g. apply expires_once.
  - intros. apply set_if_absent.
  - intros. by apply set_lives.
  - intros. by apply set_keeps.
  - intros now now' j k ttl g Hle Hk. destruct (decide (k = j)) as [->|Hne]; [by right|].
    left. eapply set_other; [done| |done]. intros Heq. by apply jti_key_inj in Heq.
Defined.
End Redis.

(** ** Runs of a replay store *)

Section Runs.
Context `{ReplayGuard}.

(** [consume_jti] calls in the order of a clock that does not go back. *)
Fixpoint consumes (calls : list (Z * string * Z)) (g : guard) : guard :=
  match calls with
  | [] => g
  | (now, j, ttl) :: rest => consumes rest (consume_jti now j ttl g).2
  end.

Fixpoint calls_clocked (from : Z) (calls : list (Z * string * Z)) (last : Z) : Prop :=
  match calls with
  | [] => from <= last
  | (now, _, _) :: rest => from <= now ∧ calls_clocked now rest last
  end.

Lemma calls_clocked_le from calls last : calls_clocked from calls last → from <= last.
Proof.
  revert from. induction calls as [|[[now j] ttl] calls IH]; intros from; simpl; [done|].
  intros [? ?%IH]. lia.
Qed.

Lemma consumes_keep calls from last k g :
  calls_clocked from calls last → remembered last k g = true →
  remembered last k (consumes calls g) = true.
Proof.
  revert from g. induction calls as [|[[now j] ttl] calls IH]; intros from g Hclk Hr; simpl in *; [done|].
  destruct Hclk as [_ Hclk]. eapply IH; [done|].
  apply consume_keeps; [|done]. by eapply calls_clocked_le.
Qed.
End Runs.

(** ** [InMemoryChallengeStore] *)

Section Challenges.

Definition challenge_key (agent_id nonce : string) : string := agent_id +:+ ":" +:+ nonce.

Definition issue (now : Z) (agent_id nonce : string) (ttl_seconds : Z) (store : gmap string Z)
    : bool * gmap string Z :=
  let key := challenge_key agent_id nonce in
  let store1 := purge now store in
  match store1 !! key with
  | Some _ => (false, store1)
  | None => (true, <[key := now + ttl_seconds]> store1)
  end.

Definition consume (now : Z) (agent_id nonce : string) (store : gmap string Z)
    : bool * gmap string Z :=
  let key := challenge_key agent_id nonce in
  let store1 := delete key store in
  match store !! key with
  | None => (false, store1)
  | Some expires_at => (now <=? expires_at, store1)
  end.

Inductive challenge_op :=
| Issue (agent nonce : string) (ttl : Z)
| Consume (agent nonce : string).

Definition challenge_step (now : Z) (op : challenge_op) (store : gmap string Z)
    : bool * gmap string Z :=
  match op with
  | Issue a n ttl => issue now a n ttl store
  | Consume a n => consume now a n store
  end.

(** The successes of a run, in order. *)
Fixpoint challenge_run (ops : list (Z * challenge_op)) (store : gmap string Z)
    : list challenge_op * gmap string Z :=
  match ops with
  | [] => ([], store)
  | (now, op) :: rest =>
      let '(ok, store1) := challenge_step now op store in
      let '(done, store2) := challenge_run rest store1 in
      (if ok then op :: done else done, store2)
  end.

Definition is_issue (key : string) (op : challenge_op) : bool :=
  match op with Issue a n _ => bool_decide (challenge_key a n = key) | Consume _ _ => false end.
Definition is_consume (key : string) (op : challenge_op) : bool :=
  match op with Consume a n => bool_decide (challenge_key a n = key) | Issue _ _ _ => false end.
Definition count (f : challenge_op → bool) (l : list challenge_op) : Z :=
  Z.of_nat (length (List.filter f l)).

(** A key is outstanding when it is in the dictionary. *)
Definition outstanding (key : string) (store : gmap string Z) : Z :=
  match store !! key with Some _ => 1 | None => 0 end.

Lemma outstanding_purge key now store : 0 <= outstanding key (purge now store) <= outstanding key store.
Proof.
  unfold outstanding. destruct (purge now store !! key) as [v|] eqn:Hp.
  - apply purge_lookup in Hp as [-> _]. lia.
  - destruct (store !! key); lia.
Qed.

Lemma challenge_step_balance key now op store :
  let '(ok, store1) := challenge_step now op store in
  outstanding key store1 + (if ok && is_consume key op then 1 else 0)
    <= outstanding key store + (if ok && is_issue key op then 1 else 0).
Proof.
  destruct op as [a n ttl|a n]; simpl.
  - unfold issue. pose proof (outstanding_purge key now store) as Hp.
    destruct (purge now store !! challenge_key a n) as [v|] eqn:Hl; simpl; [lia|].
    case_bool_decide as Hk.
    + subst key. unfold outstanding in *. rewrite Hl in Hp. rewrite lookup_insert_eq. lia.
    + unfold outstanding in *. rewrite lookup_insert_ne by done. lia.
  - unfold consume, outstanding. destruct (decide (challenge_key a n = key)) as [->|Hne].
    + rewrite bool_decide_eq_true_2 by done.
      destruct (store !! key) as [v|] eqn:Hl; simpl; rewrite lookup_delete_eq;
        [destruct (now <=? v); simpl; lia|lia].
    + rewrite bool_decide_eq_false_2 by done.
      destruct (store !! challenge_key a n) as [v|]; simpl; rewrite lookup_delete_ne by done;
        [destruct (now <=? v); simpl|]; lia.
Qed.

Lemma challenge_run_balance key ops store :
  let '(ok, store') := challenge_run ops store in
  outstanding key store' + count (is_consume key) ok
    <= outstanding key store + count (is_issue key) ok.
Proof.
  revert store. induction ops as [|[now op] ops IH]; intros store; simpl; [unfold count; simpl; lia|].
  pose proof (challenge_step_balance key now op store) as Hs.
  destruct (challenge_step now op store) as [ok store1]. specialize (IH store1).
  destruct (challenge_run ops store1) as [done store2].
  destruct ok; simpl in *; [|lia]. unfold count in *. simpl.
  destruct (is_consume key op), (is_issue key op); simpl length; lia.
Qed.
End Challenges.

(** ** [nonce_store.py]: the get-then-delete of attestation nonces *)

(** [GET] and [DEL] of a server. *)
Class KeyValue := {
  server : Type;
  kv_get : string → server → option string;
  kv_del : string → server → server;
  get_after_del k s : kv_get k (kv_del k s) = None;
}.

Section Attestation.
Context `{KeyValue}.

Definition nonce_key (nonce_id : string) : string := "cullis:attest:nonce:" +:+ nonce_id.

(** One call of [consume_nonce], at each point where it awaits the server or
    the memory lock. *)
Inductive consumer :=
| Called (nonce_id : string)
| Fetched (nonce_id nonce_b64 : string)
| FellThrough (nonce_id : string)
| Returned (nonce : option string).

Record nonce_world := {
  n_server : server;
  n_memory : gmap string (string * Z);
  n_calls : gmap nat consumer;
}.

Definition with_call (w : nonce_world) (i : nat) (c : consumer) : gmap nat consumer :=
  <[i := c]> (n_calls w).

Definition _prune (now : Z) (memory : gmap string (string * Z)) : gmap string (string * Z) :=
  filter (λ kv, now <= kv.2.2) memory.

Inductive nonce_step (now : Z) : nonce_world → nonce_world → Prop :=
| nonce_empty w i :
    n_calls w !! i = Some (Called "") →
    nonce_step now w {| n_server := n_server w; n_memory := n_memory w;
                        n_calls := with_call w i (Returned None) |}
| nonce_get w i id v :
    n_calls w !! i = Some (Called id) → id ≠ "" → kv_get (nonce_key id) (n_server w) = Some v →
    nonce_step now w {| n_server := n_server w; n_memory := n_memory w;
                        n_calls := with_call w i (Fetched id v) |}
| nonce_miss w i id :
    n_calls w !! i = Some (Called id) → id ≠ "" → kv_get (nonce_key id) (n_server w) = None →
    nonce_step now w {| n_server := n_server w; n_memory := n_memory w;
                        n_calls := with_call w i (FellThrough id) |}
| nonce_del w i id v :
    n_calls w !! i = Some (Fetched id v) →
    nonce_step now w {| n_server := kv_del (nonce_key id) (n_server w); n_memory := n_memory w;
                        n_calls := with_call w i (Returned (Some v)) |}
| nonce_memory w i id :
    n_calls w !! i = Some (FellThrough id) →
    nonce_step now w {| n_server := n_server w; n_memory := delete id (_prune now (n_memory w));
                        n_calls := with_call w i (Returned (fst <$> _prune now (n_memory w) !! id)) |}.
End Attestation.

(** ** Properties *)

(** a login challenge is single-use: over any run of [issue] and [consume]
    calls, at any instants and for any agents, a key is consumed successfully
    at most as often as it was issued. *)
Theorem challenge_single_use (ops : list (Z * challenge_op)) (agent nonce : string) :
  let '(ok, _) := challenge_run ops ∅ in
  count (is_consume (challenge_key agent nonce)) ok <= count (is_issue (challenge_key agent nonce)) ok.
Proof.
  pose proof (challenge_run_balance (challenge_key agent nonce) ops ∅) as Hb.
  destruct (challenge_run ops ∅) as [ok store']. unfold outstanding in Hb.
  rewrite lookup_empty in Hb. destruct (store' !! _); lia.
Qed.

(** with Redis, an attestation nonce is not single-use: two calls that both
    read the key before either deletes it both return the nonce. *)
Theorem attestation_nonce_used_twice `{KeyValue} (s : server) (id v : string) (now : Z) :
  id ≠ "" → kv_get (nonce_key id) s = Some v →
  ∃ w, rtc (nonce_step now)
      {| n_server := s; n_memory := ∅; n_calls := <[0%nat := Called id]> (<[1%nat := Called id]> ∅) |} w ∧
    n_calls w !! 0%nat = Some (Returned (Some v)) ∧ n_calls w !! 1%nat = Some (Returned (Some v)) ∧
    kv_get (nonce_key id) (n_server w) = None.
Proof.
  intros Hid Hget. eexists. split.
  - eapply rtc_l; [eapply (nonce_get now _ 0 id v); [reflexivity|done|exact Hget]|].
    eapply rtc_l; [eapply (nonce_get now _ 1 id v); [reflexivity|done|exact Hget]|].
    eapply rtc_l; [eapply (nonce_del now _ 0 id v); reflexivity|].
    eapply rtc_l; [eapply (nonce_del now _ 1 id v); reflexivity|].
    apply rtc_refl.
  - split_and!; [reflexivity..|]. apply get_after_del.
Qed.

#[local] Instance gmap_server : KeyValue := {|
  server := gmap string string; kv_get k s := s !! k; kv_del k s := delete k s;
  get_after_del k s := lookup_delete_eq s k |}.

Definition demo_server : @server gmap_server :=
  ({[nonce_key "id1" := "AAEC"]} : gmap string string).

Lemma attestation_nonce_used_twice_witness :
  ∃ w, rtc (nonce_step 0)
      {| n_server := demo_server; n_memory := ∅;
         n_calls := <[0%nat := Called "id1"]> (<[1%nat := Called "id1"]> ∅) |} w ∧
    n_calls w !! 0%nat = Some (Returned (Some "AAEC")) ∧
    n_calls w !! 1%nat = Some (Returned (Some "AAEC")) ∧
    kv_get (nonce_key "id1") (n_server w) = None.
Proof.
  apply (attestation_nonce_used_twice demo_server).
  - discriminate.
  - apply lookup_singleton_eq.
Defined.
