(* ===== verification/Base64.v ===== *)
(** * Strict base64url

    [mcp_proxy/utils/validation.py]: [strict_b64url_decode] and
    [canonicalize_b64url], with the standard library's url-safe base64 on byte
    strings.  [encode] is [urlsafe_b64encode(b).rstrip(b"=")]; [lenient] is
    [urlsafe_b64decode] on alphabet characters re-padded to a multiple of
    four, which drops the unused low bits of a last partial group. *)

From S2P Require Import Prelude.

Open Scope N_scope.

Definition b64_char (n : N) : ascii :=
  ascii_of_N (if n <? 26 then n + 65 else if n <? 52 then n + 71
              else if n <? 62 then n - 4 else if n =? 62 then 45 else 95).

Definition b64_value (c : ascii) : option N :=
  let n := N_of_ascii c in
  if (65 <=? n) && (n <=? 90) then Some (n - 65)
  else if (97 <=? n) && (n <=? 122) then Some (n - 71)
  else if (48 <=? n) && (n <=? 57) then Some (n + 4)
  else if n =? 45 then Some 62
  else if n =? 95 then Some 63
  else None.

(** The six-bit groups of up to three bytes. *)
Definition group3 (a b c : N) : list N :=
  let n := a * 65536 + b * 256 + c in
  [n / 262144; n / 4096 mod 64; n / 64 mod 64; n mod 64].
Definition group2 (a b : N) : list N := take 3 (group3 a b 0).
Definition group1 (a : N) : list N := take 2 (group3 a 0 0).

Fixpoint encode_sextets (bs : list N) : list N :=
  match bs with
  | a :: b :: c :: rest => group3 a b c ++ encode_sextets rest
  | [a; b] => group2 a b
  | [a] => group1 a
  | [] => []
  end.

Fixpoint decode_sextets (ss : list N) : option (list N) :=
  match ss with
  | p :: q :: r :: s :: rest =>
      let n := p * 262144 + q * 4096 + r * 64 + s in
      l ← decode_sextets rest;
      Some (n / 65536 :: n / 256 mod 256 :: n mod 256 :: l)
  | [p; q; r] => let n := p * 262144 + q * 4096 + r * 64 in
                 Some [n / 65536; n / 256 mod 256]
  | [p; q] => let n := p * 262144 + q * 4096 in Some [n / 65536]
  | [_] => None
  | [] => Some []
  end.

Fixpoint bytes (s : string) : list N :=
  match s with EmptyString => [] | String c s' => N_of_ascii c :: bytes s' end.
Definition of_bytes (l : list N) : string := foldr (λ b s, String (ascii_of_N b) s) "" l.
Definition of_sextets (l : list N) : string := foldr (λ n s, String (b64_char n) s) "" l.

(** [urlsafe_b64encode(b).rstrip(b"=")] *)
Definition encode (b : string) : string := of_sextets (encode_sextets (bytes b)).

Fixpoint sextets (s : string) : option (list N) :=
  match s with
  | EmptyString => Some []
  | String c s' => v ← b64_value c; l ← sextets s'; Some (v :: l)
  end.

Definition lenient (ss : list N) : option string := of_bytes <$> decode_sextets ss.

(** [s.rstrip("=")] *)
Fixpoint rstrip_pad (s : string) : string :=
  match s with
  | EmptyString => EmptyString
  | String c s' =>
      match rstrip_pad s' with
      | EmptyString => if bool_decide (c = "="%char) then EmptyString else String c EmptyString
      | t => String c t
      end
  end.

Definition strict_b64url_decode (s : string) : outcome string :=
  let stripped := rstrip_pad s in
  match sextets stripped with
  | None => Raise ValueError                          (* not the url-safe alphabet *)
  | Some ss =>
      if (N.of_nat (length ss) mod 4 =? 1) then Raise ValueError
      else match lenient ss with
           | None => Raise ValueError
           | Some decoded =>
               if bool_decide (encode decoded = stripped) then Ret decoded
               else Raise ValueError                  (* non-canonical trailing bits *)
           end
  end.

Definition canonicalize_b64url (s : string) : outcome string :=
  let! decoded := strict_b64url_decode s in Ret (encode decoded).

(** ** The standard decoder

    [base64.b64decode] without validation. *)

Definition std_value (c : ascii) : option N :=
  if bool_decide (c = "+"%char) then Some 62%N
  else if bool_decide (c = "/"%char) then Some 63%N
  else if bool_decide (c = "-"%char) || bool_decide (c = "_"%char) then None
  else b64_value c.

(** Characters outside the alphabet are skipped; padding that completes a group
    ends the text.  [ss] is reversed; [quad] counts modulo 4. *)
Fixpoint b64_scan (value : ascii → option N) (s : string) (ss : list N) (quad pads : nat) : option (list N) :=
  match s with
  | EmptyString => if (quad =? 0)%nat then Some (reverse ss) else None
  | String c s' =>
      if bool_decide (c = "="%char) then
        if (2 <=? quad)%nat && (4 <=? quad + S pads)%nat then Some (reverse ss)
        else b64_scan value s' ss quad (S pads)
      else match value c with
           | Some v => b64_scan value s' (v :: ss) ((quad + 1) mod 4)%nat 0
           | None => b64_scan value s' ss quad pads
           end
  end.

(** [urlsafe_b64decode] translates its two characters and then decodes. *)
Definition url_value (c : ascii) : option N :=
  if bool_decide (c = "-"%char) then Some 62%N
  else if bool_decide (c = "_"%char) then Some 63%N
  else std_value c.

(** [s + "=" * (-len(s) % 4)] *)
Definition padded (token : string) : string :=
  token +:+ of_bytes (replicate (Z.to_nat (- Z.of_nat (String.length token) mod 4)) 61%N).

(** [urlsafe_b64decode] of a [str], which must be ASCII. *)
Definition urlsafe_b64decode (s : string) : option string :=
  if all_chars (λ c, (N_of_ascii c <? 128)%N) s then
    ss ← b64_scan url_value s [] 0 0; lenient ss
  else None.

(** ** Round trips *)

#[local] Ltac Zify.zify_post_hook ::= Z.to_euclidean_division_equations.

Definition is_byte (n : N) : Prop := n < 256.
Definition is_sextet (n : N) : Prop := n < 64.

Lemma b64_value_char n : n < 64 → b64_value (b64_char n) = Some n.
Proof.
  intros Hn.
  assert (forallb (λ k, bool_decide (b64_value (b64_char (N.of_nat k)) = Some (N.of_nat k)))
            (seq 0 64) = true) as Hall by (vm_compute; reflexivity).
  rewrite forallb_forall in Hall. specialize (Hall (N.to_nat n)).
  rewrite N2Nat.id in Hall. eapply bool_decide_eq_true_1, Hall, in_seq. lia.
Qed.

Lemma byte_triple a b c :
  is_byte a → is_byte b → is_byte c →
  let n := a * 65536 + b * 256 + c in
  n / 262144 * 262144 + n / 4096 mod 64 * 4096 + n / 64 mod 64 * 64 + n mod 64 = n ∧
  n / 65536 = a ∧ n / 256 mod 256 = b ∧ n mod 256 = c.
Proof. unfold is_byte. cbv zeta. intros. split_and!; lia. Qed.

Lemma byte_pair a b :
  is_byte a → is_byte b →
  let n := a * 65536 + b * 256 in
  let m := n / 262144 * 262144 + n / 4096 mod 64 * 4096 + n / 64 mod 64 * 64 in
  m / 65536 = a ∧ m / 256 mod 256 = b.
Proof. unfold is_byte. cbv zeta. intros. split; lia. Qed.

Lemma byte_single a :
  is_byte a → let n := a * 65536 in
  (n / 262144 * 262144 + n / 4096 mod 64 * 4096) / 65536 = a.
Proof. unfold is_byte. cbv zeta. lia. Qed.

(** Three elements at a time. *)
Lemma list_triple_ind {A} (P : list A → Prop) :
  P [] → (∀ a, P [a]) → (∀ a b, P [a; b]) → (∀ a b c l, P l → P (a :: b :: c :: l)) →
  ∀ l, P l.
Proof.
  intros H0 H1 H2 H3 l. enough (P l ∧ (∀ a, P (a :: l)) ∧ (∀ a b, P (a :: b :: l))) as [? _] by done.
  induction l as [|x l (IH0 & IH1 & IH2)]; split_and!; auto.
Qed.

Lemma decode_encode_sextets bs :
  Forall is_byte bs → decode_sextets (encode_sextets bs) = Some bs.
Proof.
  induction bs as [|a|a b|a b c bs IH] using list_triple_ind; intros Hb;
    rewrite ?Forall_cons in Hb; destruct_and? Hb.
  - done.
  - simpl. do 2 f_equal. replace (a * 65536 + 0 * 256 + 0) with (a * 65536) by lia.
    by apply byte_single.
  - simpl. destruct (byte_pair a b) as [Ha Hb']; [done|done|].
    rewrite N.add_0_r. by rewrite Ha, Hb'.
  - cbn [encode_sextets group3 app decode_sextets].
    destruct (byte_triple a b c) as (Hn & Ha & Hb' & Hc); [done..|]. rewrite Hn.
    rewrite IH by done. simpl. by rewrite Ha, Hb', Hc.
Qed.

Lemma encode_sextets_ok bs : Forall is_byte bs → Forall is_sextet (encode_sextets bs).
Proof.
  unfold is_sextet.
  assert (∀ a b c, is_byte a → is_byte b → is_byte c → Forall is_sextet (group3 a b c)) as Hg.
  { unfold is_byte, is_sextet, group3. intros. repeat constructor; lia. }
  assert (is_byte 0) as H0 by (unfold is_byte; lia).
  induction bs as [|a|a b|a b c bs IH] using list_triple_ind; intros Hb;
    rewrite ?Forall_cons in Hb; destruct_and? Hb.
  - constructor.
  - apply Forall_take, Hg; done.
  - apply Forall_take, Hg; done.
  - apply Forall_app. split; [by apply Hg|by apply IH].
Qed.

Lemma sextets_of ss : Forall is_sextet ss → sextets (of_sextets ss) = Some ss.
Proof.
  induction 1 as [|n ss Hn _ IH]; simpl; [done|]. rewrite b64_value_char by done. simpl. by rewrite IH.
Qed.

Lemma bytes_ok s : Forall is_byte (bytes s).
Proof. induction s; constructor; [apply N_ascii_bounded|done]. Qed.

Lemma of_bytes_bytes s : of_bytes (bytes s) = s.
Proof. induction s as [|c s IH]; simpl; [done|]. by rewrite ascii_N_embedding, IH. Qed.

Lemma sextets_encode b : sextets (encode b) = Some (encode_sextets (bytes b)).
Proof. apply sextets_of, encode_sextets_ok, bytes_ok. Qed.

Lemma lenient_encode b : lenient (encode_sextets (bytes b)) = Some b.
Proof.
  unfold lenient. rewrite decode_encode_sextets by apply bytes_ok. simpl. by rewrite of_bytes_bytes.
Qed.

Lemma encode_sextets_length_mod bs : N.of_nat (length (encode_sextets bs)) mod 4 ≠ 1.
Proof.
  induction bs as [|a|a b|a b c bs IH] using list_triple_ind; [done..|].
  cbn [encode_sextets]. rewrite length_app. unfold group3. simpl length.
  rewrite Nat2N.inj_add. change (N.of_nat 4) with (1 * 4). rewrite N.add_comm.
  by rewrite N.Div0.mod_add.
Qed.

#[export] Instance encode_inj : Inj (=) (=) encode.
Proof.
  intros b b' Heq. pose proof (sextets_encode b) as H1. rewrite Heq, sextets_encode in H1.
  injection H1 as H1. pose proof (lenient_encode b) as H2. rewrite <- H1, lenient_encode in H2.
  by injection H2.
Qed.

(** The accepted strings are exactly the encodings, with any padding. *)
Lemma strict_spec s b : strict_b64url_decode s = Ret b ↔ rstrip_pad s = encode b.
Proof.
  unfold strict_b64url_decode. split.
  - destruct (sextets _) as [ss|]; [|done]. destruct (_ =? 1); [done|].
    destruct (lenient ss) as [d|]; [|done]. case_bool_decide as He; [|done]. by intros [= <-].
  - intros ->. rewrite sextets_encode. rewrite (proj2 (N.eqb_neq _ _)) by apply encode_sextets_length_mod.
    rewrite lenient_encode. by rewrite bool_decide_eq_true_2.
Qed.

Lemma b64_char_not_pad n : n < 64 → b64_char n ≠ "="%char.
Proof.
  intros Hn Heq. pose proof (b64_value_char n Hn) as Hv. rewrite Heq in Hv. discriminate Hv.
Qed.

Lemma rstrip_sextets ss : Forall is_sextet ss → rstrip_pad (of_sextets ss) = of_sextets ss.
Proof.
  induction 1 as [|n ss Hn _ IH]; simpl; [done|]. rewrite IH.
  destruct (of_sextets ss); [|done]. rewrite bool_decide_eq_false_2; [done|].
  by apply b64_char_not_pad.
Qed.

Lemma rstrip_encode b : rstrip_pad (encode b) = encode b.
Proof. apply rstrip_sextets, encode_sextets_ok, bytes_ok. Qed.

(** ** The padded text through the standard decoder *)

Lemma url_value_char n : n < 64 → url_value (b64_char n) = Some n.
Proof.
  intros Hn.
  assert (forallb (λ k, bool_decide (url_value (b64_char (N.of_nat k)) = Some (N.of_nat k)))
            (seq 0 64) = true) as Hall by (vm_compute; reflexivity).
  rewrite forallb_forall in Hall. specialize (Hall (N.to_nat n)).
  rewrite bool_decide_eq_true, N2Nat.id in Hall. apply Hall, list_elem_of_In, elem_of_seq. lia.
Qed.

Lemma scan_sextets ss acc quad rest :
  Forall is_sextet ss →
  b64_scan url_value (of_sextets ss +:+ rest) acc (quad mod 4)%nat 0
  = b64_scan url_value rest (reverse ss ++ acc) ((quad + length ss) mod 4)%nat 0.
Proof.
  intros Hss. revert acc quad. induction Hss as [|n ss Hn Hss IH]; intros acc quad.
  - by rewrite Nat.add_0_r.
  - change (of_sextets (n :: ss) +:+ rest) with (String (b64_char n) (of_sextets ss +:+ rest)).
    cbn [b64_scan]. rewrite bool_decide_eq_false_2 by by apply b64_char_not_pad.
    rewrite url_value_char, Nat.Div0.add_mod_idemp_l by done. rewrite IH.
    rewrite reverse_cons, <- app_assoc. cbn [length app]. do 2 f_equal. lia.
Qed.

(** [urlsafe_b64decode(encode(b) + padding)] is [b]. *)
Lemma padded_decode b :
  let pads := Z.to_nat (- Z.of_nat (String.length (encode b)) mod 4) in
  (ss ← b64_scan url_value (encode b +:+ of_bytes (replicate pads 61)) [] 0 0; decode_sextets ss)
  = Some (bytes b).
Proof.
  unfold encode. set (ss := encode_sextets (bytes b)).
  assert (String.length (of_sextets ss) = length ss) as Hlen.
  { unfold of_sextets. induction ss as [|n l IH]; simpl; [done|by rewrite IH]. }
  cbv zeta. rewrite Hlen. pose proof (encode_sextets_length_mod (bytes b)) as Hmod. fold ss in Hmod.
  assert (decode_sextets ss = Some (bytes b)) as Hdec by apply decode_encode_sextets, bytes_ok.
  change 0%nat with (0 mod 4)%nat at 1.
  rewrite scan_sextets by (apply encode_sextets_ok, bytes_ok). rewrite Nat.add_0_l, app_nil_r.
  assert ((length ss mod 4 = 0 ∧ Z.to_nat (- Z.of_nat (length ss) mod 4) = 0) ∨
          (length ss mod 4 = 2 ∧ Z.to_nat (- Z.of_nat (length ss) mod 4) = 2) ∨
          (length ss mod 4 = 3 ∧ Z.to_nat (- Z.of_nat (length ss) mod 4) = 1))%nat as Hcase.
  { assert ((length ss mod 4)%nat ≠ 1%nat) as Hne.
    { intros Heq. apply Hmod. change 4 with (N.of_nat 4). by rewrite <- Nat2N.inj_mod, Heq. }
    pose proof (Nat2Z.inj_mod (length ss) 4) as Hz.
    pose proof (Nat.mod_upper_bound (length ss) 4 ltac:(done)). clear Hmod Hlen Hdec.
    generalize dependent (length ss mod 4)%nat. intros m Hm Hz Hlt. lia. }
  destruct Hcase as [[-> ->]|[[-> ->]|[-> ->]]]; cbn; rewrite reverse_involutive; exact Hdec.
Qed.

(** ** Properties *)

(** [strict_b64url_decode] accepts exactly the canonical encodings: it
    returns [b] when, and only when, the input without its trailing padding
    is the encoding of [b]; so encoding and decoding round-trip, and no two
    unpadded texts decode to the same bytes. *)
Theorem strict_b64url_canonical (s : string) (b : string) :
  (strict_b64url_decode s = Ret b ↔ rstrip_pad s = encode b) ∧
  strict_b64url_decode (encode b) = Ret b ∧
  canonicalize_b64url (encode b) = Ret (encode b).
Proof.
  assert (strict_b64url_decode (encode b) = Ret b) as Hb.
  { apply strict_spec, rstrip_encode. }
  split; [apply strict_spec|]. split; [done|]. unfold canonicalize_b64url. by rewrite Hb.
Qed.

Example strict_accepts : strict_b64url_decode "aGk=" = Ret "hi".
Proof. vm_compute. reflexivity. Qed.

Example strict_rejects_garbage_bits : strict_b64url_decode "aGl" = Raise ValueError.
Proof. vm_compute. reflexivity. Qed.
