(* ===== verification/Dpop.v ===== *)
(** * DPoP proofs

    [mcp_proxy/auth/dpop.py]: [compute_jkt], [_jwk_to_public_key],
    [_normalize_htu], the stateless server nonce and [verify_dpop_proof].
    Every exception the handler lets out is an outcome, the ones that are not
    an HTTP 401 included.

    What the code takes from outside is a [DpopRuntime]: [json.loads],
    [float(str)], Unicode [str.upper]/[str.lower], [urlparse]/[urlunparse] and
    the JWT library's verification.  No law is assumed of any of them.
    Instants are microseconds; [iat] is the number the claim holds. *)

From S2P Require Import Prelude Sha256 Json Base64 ReplayStore.
From Stdlib Require Import QArith Lqa.

Open Scope Z_scope.

(** [float(x)]: a finite number, or an infinity or NaN. *)
Inductive pyfloat := Finite (q : Q) | NonFinite.

(** The key [_jwk_to_public_key] builds, by its public numbers. *)
Inductive public_key := EcP256 (x y : N) | Rsa (e n : N).

#[export] Instance public_key_eq_dec : EqDecision public_key.
Proof. solve_decision. Defined.

Class DpopRuntime := {
  json_loads : string → option json;
  float_of_str : string → option pyfloat;
  upper : string → string;
  lower : string → string;
  urlparse : string → outcome (string * string * string);      (* scheme, netloc, path *)
  urlunparse : string * string * string → string;
  (** [jwt.decode]: the claims when the signature verifies under a key and an
      algorithm, and what it asks of the registered claims at an instant ([nbf]
      is not in the future, [jti] is a text) *)
  jwt_decode : string → public_key → string → option (list (string * json));
  jwt_claims_ok : Z → list (string * json) → bool;
}.

Section Dpop.
Context `{Hash} `{DpopRuntime} `{ReplayGuard}.

Definition unauthorized {A} (detail : string) : outcome A := Raise (HTTPException 401 detail).

(** [except Exception: raise HTTPException(401, detail)] *)
Definition catch {A} (m : outcome A) (detail : string) : outcome A :=
  match m with Ret a => Ret a | Raise _ => unauthorized detail end.

Definition b64_member (v : json) : outcome string :=
  match v with JStr s => strict_b64url_decode s | _ => Raise ValueError end.

Definition canonical_member (v : json) : outcome json :=
  match v with
  | JStr s => let! c := canonicalize_b64url s in Ret (JStr c)
  | _ => Raise ValueError
  end.

Definition member (k : string) (jwk : list (string * json)) : outcome json :=
  match get k jwk with Some v => Ret v | None => Raise KeyError end.

(** ** The thumbprint *)

Definition thumbprint_members (jwk : list (string * json)) : outcome (list (string * json)) :=
  if is_str "EC" (get_none "kty" jwk) then
    let! crv := member "crv" jwk in
    let! kty := member "kty" jwk in
    let! x := member "x" jwk in
    let! y := member "y" jwk in
    let! x := canonical_member x in
    let! y := canonical_member y in
    Ret [("crv", crv); ("kty", kty); ("x", x); ("y", y)]
  else if is_str "RSA" (get_none "kty" jwk) then
    let! e := member "e" jwk in
    let! kty := member "kty" jwk in
    let! n := member "n" jwk in
    let! n := canonical_member n in
    let! e := canonical_member e in
    Ret [("e", e); ("kty", kty); ("n", n)]
  else Raise ValueError.

Definition compute_jkt (jwk : list (string * json)) : outcome string :=
  let! required := thumbprint_members jwk in
  Ret (encode (digest (dumps (JObj required)))).

Definition int_from_bytes (b : string) : N := fold_left (λ acc d, acc * 256 + d)%N (bytes b) 0%N.

Definition int_member (k : string) (jwk : list (string * json)) : outcome N :=
  let! v := member k jwk in let! b := b64_member v in Ret (int_from_bytes b).

Definition _jwk_to_public_key (jwk : list (string * json)) : outcome public_key :=
  if is_str "EC" (get_none "kty" jwk) then
    if is_str "P-256" (get_none "crv" jwk) then
      let! x := int_member "x" jwk in let! y := int_member "y" jwk in Ret (EcP256 x y)
    else Raise ValueError
  else if is_str "RSA" (get_none "kty" jwk) then
    let! n := int_member "n" jwk in let! e := int_member "e" jwk in Ret (Rsa e n)
  else Raise ValueError.

(** ** The target URL *)

(** [s.replace(old, new)] for a non-empty [old]. *)
Fixpoint replace_all (fuel : nat) (old new s : string) : string :=
  match fuel with
  | O => s
  | S fuel' =>
      match s with
      | EmptyString => EmptyString
      | String c s' =>
          if startswith s old then
            new +:+ replace_all fuel' old new (String.substring (String.length old) (String.length s) s)
          else String c (replace_all fuel' old new s')
      end
  end.

Definition replace (old new s : string) : string := replace_all (String.length s) old new s.

Definition _normalize_htu (url : string) : outcome string :=
  let url := replace "ws://" "http://" (replace "wss://" "https://" url) in
  let! (scheme, netloc, path) := urlparse url in
  Ret (urlunparse (lower scheme, lower netloc, path)).

(** ** The server nonce *)

Definition _NONCE_ROTATION_INTERVAL : Z := 300.
Definition microseconds (s : Z) : Z := s * 1000000.

Definition _nonce_for_window (secret : string) (window : Z) : string :=
  String.substring 0 32 (to_hex (hmac secret (pretty window))).

Definition _current_window (now : Z) : Z := now / microseconds _NONCE_ROTATION_INTERVAL.

Definition get_current_dpop_nonce (secret : string) (now : Z) : string :=
  _nonce_for_window secret (_current_window now).

Definition _is_valid_nonce (secret : string) (now : Z) (nonce : json) : outcome bool :=
  if negb (py_bool nonce) then Ret false
  else
    let window := _current_window now in
    let! current := compare_digest nonce (_nonce_for_window secret window) in
    if current then Ret true
    else compare_digest nonce (_nonce_for_window secret (window - 1)).

(** ** [verify_dpop_proof] *)

(** [float(iat)] *)
Definition py_float (v : json) : outcome pyfloat :=
  match v with
  | JInt z => Ret (Finite (inject_Z z))
  | JBool b => Ret (Finite (if b then 1 else 0)%Q)
  | JFloat _ q => Ret (Finite q)
  | JStr s => match float_of_str s with Some f => Ret f | None => Raise ValueError end
  | _ => Raise TypeError
  end.

Record dpop_settings := {
  dpop_clock_skew : Z;
  dpop_iat_window : Z;
  nonce_secret : string;
}.

(** [-skew <= time.time() - float(iat) <= window] *)
Definition iat_fresh (st : dpop_settings) (now : Z) (iat : pyfloat) : bool :=
  match iat with
  | NonFinite => false
  | Finite q =>
      let age := (now # 1000000) - q in
      Qle_bool (inject_Z (- dpop_clock_skew st)) age && Qle_bool age (inject_Z (dpop_iat_window st))
  end%Q.

(** [claims.get(key, "")] used as a [str]: anything else has no such method. *)
Definition str_claim (key : string) (claims : list (string * json)) : outcome string :=
  match default (JStr "") (get key claims) with JStr s => Ret s | _ => Raise AttributeError end.

Definition check_htu (htus : list string) (claims : list (string * json)) : outcome unit :=
  let! expected := omapM _normalize_htu (List.filter (λ h, negb (bool_decide (h = ""))) htus) in
  let! htu := str_claim "htu" claims in
  let! got := _normalize_htu htu in
  if bool_decide (got ∈ expected) then Ret tt
  else unauthorized "Invalid DPoP proof: htu mismatch".

Definition check_ath (access_token : option string) (claims : list (string * json)) : outcome unit :=
  match access_token with
  | None => Ret tt
  | Some token =>
      let! same := compare_digest (default (JStr "") (get "ath" claims)) (encode (digest token)) in
      if same then Ret tt else unauthorized "Invalid DPoP proof: ath mismatch"
  end.

Definition check_nonce (st : dpop_settings) (now : Z) (require_nonce : bool)
    (claims : list (string * json)) : outcome unit :=
  if negb require_nonce then Ret tt
  else
    let nonce := get_none "nonce" claims in
    if negb (py_bool nonce) then unauthorized "use_dpop_nonce"
    else
      let! ok := _is_valid_nonce (nonce_secret st) now nonce in
      if ok then Ret tt else unauthorized "use_dpop_nonce".

Record dpop_call := {
  proof_jwt : string;
  htm : string;
  htus : list string;
  access_token : option string;
  require_nonce : bool;
}.

(** [proof_jwt.split(".")[0]] *)
Fixpoint before_dot (s : string) : string :=
  match s with
  | EmptyString => EmptyString
  | String c s' => if bool_decide (c = "."%char) then EmptyString else String c (before_dot s')
  end.

(** Steps 1 to 5: the header, its algorithm, its key and the thumbprint. *)
Definition read_header (jwt : string) : outcome (string * list (string * json) * string) :=
  let! header := catch
    (let! raw := strict_b64url_decode (before_dot jwt) in
     match json_loads raw with Some v => Ret v | None => Raise ValueError end)
    "Invalid DPoP proof: malformed JWT" in
  match header with
  | JObj h =>
      if negb (is_str "dpop+jwt" (get_none "typ" h))
      then unauthorized "Invalid DPoP proof: typ must be 'dpop+jwt'" else
      match default (JStr "") (get "alg" h) with
      | JStr alg =>
          if negb (bool_decide (alg ∈ ["ES256"; "PS256"]))
          then unauthorized "Invalid DPoP proof: unsupported algorithm" else
          match get "jwk" h with
          | Some (JObj ((_ :: _) as jwk)) =>
              if has_key "d" jwk
              then unauthorized "Invalid DPoP proof: jwk contains private key material" else
              let! jkt := catch (compute_jkt jwk) "Invalid DPoP proof: cannot compute JWK thumbprint" in
              Ret (alg, jwk, jkt)
          | _ => unauthorized "Invalid DPoP proof: missing jwk in header"
          end
      | _ => unauthorized "Invalid DPoP proof: unsupported algorithm"
      end
  | _ => Raise AttributeError                       (* header.get on a list, a string, ... *)
  end.

(** Step 6. *)
Definition read_claims (now : Z) (jwt : string) (alg : string) (jwk : list (string * json))
    : outcome (list (string * json)) :=
  catch (let! key := _jwk_to_public_key jwk in
         match jwt_decode jwt key alg with
         | Some claims => if jwt_claims_ok now claims then Ret claims else Raise ValueError
         | None => Raise ValueError
         end)
    "Invalid DPoP proof: signature verification failed".

(** Steps 7 to 12, on the verified claims; the [jti] to consume. *)
Definition check_claims (st : dpop_settings) (now : Z) (c : dpop_call)
    (claims : list (string * json)) : outcome json :=
  let jti := get_none "jti" claims in
  if negb (py_bool jti) then unauthorized "Invalid DPoP proof: missing jti" else
  let iat := get_none "iat" claims in
  if is_none iat then unauthorized "Invalid DPoP proof: missing iat" else
  let! f := py_float iat in
  if negb (iat_fresh st now f) then unauthorized "Invalid DPoP proof: iat out of acceptable window" else
  let! m := str_claim "htm" claims in
  if negb (bool_decide (upper m = upper (htm c))) then unauthorized "Invalid DPoP proof: htm mismatch" else
  let! _ := check_htu (htus c) claims in
  let! _ := check_ath (access_token c) claims in
  let! _ := check_nonce st now (require_nonce c) claims in
  Ret jti.

Definition _DEFAULT_TTL : Z := 300.

(** [wall] is [time.time()], [mono] the clock of the store. *)
Definition verify_dpop_proof (st : dpop_settings) (wall mono : Z) (c : dpop_call) (g : guard)
    : outcome string * guard :=
  match
    (let! (alg, jwk, jkt) := read_header (proof_jwt c) in
     let! claims := read_claims wall (proof_jwt c) alg jwk in
     let! jti := check_claims st wall c claims in
     let! key := jti_text jti in
     Ret (jkt, key))
  with
  | Raise e => (Raise e, g)
  | Ret (jkt, key) =>
      let '(is_new, g') := consume_jti mono key (microseconds _DEFAULT_TTL) g in
      (if is_new then Ret jkt else unauthorized "DPoP proof replay detected", g')
  end.
End Dpop.

(** ** Freshness bounds the life of a proof *)

Section DpopLemmas.
Context `{Hash} `{DpopRuntime} `{ReplayGuard}.

Lemma iat_fresh_apart st now now' f :
  iat_fresh st now f = true → iat_fresh st now' f = true →
  now' - now <= microseconds (dpop_clock_skew st + dpop_iat_window st).
Proof.
  unfold iat_fresh. destruct f as [q|]; [|done].
  rewrite !andb_true_iff, !Qle_bool_iff. intros [Hlo _] [_ Hhi].
  assert ((now' # 1000000) - (now # 1000000)
          <= inject_Z (dpop_clock_skew st + dpop_iat_window st))%Q as Hq.
  { rewrite inject_Z_plus. rewrite inject_Z_opp in Hlo. lra. }
  unfold microseconds. unfold Qle, Qminus, Qplus, Qopp, inject_Z in Hq. simpl in Hq. lia.
Qed.

(** What the claims checks have established when they pass. *)
Lemma check_claims_inv st now c claims jti :
  check_claims st now c claims = Ret jti →
  jti = get_none "jti" claims ∧ py_bool jti = true ∧
  ∃ f m, py_float (get_none "iat" claims) = Ret f ∧ iat_fresh st now f = true ∧
    str_claim "htm" claims = Ret m ∧ upper m = upper (htm c) ∧
    check_htu (htus c) claims = Ret tt ∧ check_ath (access_token c) claims = Ret tt ∧
    check_nonce st now (require_nonce c) claims = Ret tt.
Proof.
  unfold check_claims. destruct (py_bool (get_none "jti" claims)) eqn:Hj; simpl; [|done].
  destruct (is_none _); [done|].
  destruct (py_float _) as [f|]; simpl; [|done].
  destruct (iat_fresh st now f) eqn:Hf; simpl; [|done].
  destruct (str_claim "htm" claims) as [m|]; simpl; [|done].
  case_bool_decide as Hm; simpl; [|done].
  destruct (check_htu _ _) as [[]|]; simpl; [|done].
  destruct (check_ath _ _) as [[]|]; simpl; [|done].
  destruct (check_nonce _ _ _ _) as [[]|]; simpl; [|done].
  intros [= <-]. split; [done|]. split; [done|]. by exists f, m.
Qed.

(** The thumbprint and the signed claims of a proof. *)
Definition proof_parts (jwt : string) : outcome (string * list (string * json)) :=
  let! (alg, jwk, jkt) := read_header jwt in
  let! key := _jwk_to_public_key jwk in
  match jwt_decode jwt key alg with Some claims => Ret (jkt, claims) | None => Raise ValueError end.

Lemma claims_read now jwt alg jwk :
  (∃ e, read_claims now jwt alg jwk = Raise e) ∨
  ∃ key claims, _jwk_to_public_key jwk = Ret key ∧ jwt_decode jwt key alg = Some claims ∧
    read_claims now jwt alg jwk = Ret claims.
Proof.
  unfold read_claims. destruct (_jwk_to_public_key jwk) as [key|e]; [|left; by eexists]. cbn [obind].
  destruct (jwt_decode jwt key alg) as [claims|] eqn:Hd; [|left; by eexists].
  destruct (jwt_claims_ok now claims); [right|left; by eexists]. by exists key, claims.
Qed.

Lemma verify_inv st wall mono c g r g' :
  verify_dpop_proof st wall mono c g = (r, g') →
  (∃ e, r = Raise e ∧ g' = g) ∨
  ∃ jkt claims jti key, proof_parts (proof_jwt c) = Ret (jkt, claims) ∧
    check_claims st wall c claims = Ret jti ∧ jti_text jti = Ret key ∧
    g' = (consume_jti mono key (microseconds _DEFAULT_TTL) g).2 ∧
    r = if (consume_jti mono key (microseconds _DEFAULT_TTL) g).1 then Ret jkt
        else unauthorized "DPoP proof replay detected".
Proof.
  unfold verify_dpop_proof, proof_parts.
  destruct (read_header _) as [[[alg jwk] jkt]|e]; simpl; [|intros [= <- <-]; eauto].
  destruct (claims_read wall (proof_jwt c) alg jwk) as [[e ->]|(pk & claims & -> & Hdec & ->)]; simpl;
    [intros [= <- <-]; eauto|]. rewrite Hdec.
  destruct (check_claims _ _ _ _) as [jti|e] eqn:Hc; simpl; [|intros [= <- <-]; eauto].
  destruct (jti_text jti) as [key|e] eqn:Hk; simpl; [|intros [= <- <-]; eauto].
  destruct (consume_jti _ _ _ g) as [is_new g2] eqn:Hcons. intros [= <- <-]. right.
  exists jkt, claims, jti, key. rewrite Hcons. by split_and!.
Qed.

Lemma accepted_inv st wall mono c g jkt g' :
  verify_dpop_proof st wall mono c g = (Ret jkt, g') →
  ∃ claims jti key, proof_parts (proof_jwt c) = Ret (jkt, claims) ∧
    check_claims st wall c claims = Ret jti ∧ jti_text jti = Ret key ∧
    (consume_jti mono key (microseconds _DEFAULT_TTL) g).1 = true ∧
    g' = (consume_jti mono key (microseconds _DEFAULT_TTL) g).2.
Proof.
  intros Hv. destruct (verify_inv _ _ _ _ _ _ _ Hv) as [(e & [=] & _)|(j & cl & jti & key & Hp & Hc & Hk & Hg & Hr)].
  destruct (consume_jti mono key _ g).1 eqn:Hn; [|done]. injection Hr as ->.
  exists cl, jti, key. by rewrite Hn.
Qed.

(** ** The nonce *)

Lemma substring_ascii n s : is_ascii s = true → is_ascii (String.substring 0 n s) = true.
Proof.
  unfold is_ascii. revert n. induction s as [|c s IH]; intros [|n]; simpl; try done.
  rewrite !andb_true_iff. intros [Hc Hs]. split; [done|]. by apply IH.
Qed.

Lemma nonce_ascii secret w : is_ascii (_nonce_for_window secret w) = true.
Proof. apply substring_ascii, hex_ascii. Qed.

Lemma nonce_truthy secret w : py_bool (JStr (_nonce_for_window secret w)) = true.
Proof.
  unfold _nonce_for_window. destruct (hexdigest_nonempty
    (xor_pad 92 (if (64 <? String.length secret)%nat then digest secret else secret) +:+
     digest (xor_pad 54 (if (64 <? String.length secret)%nat then digest secret else secret) +:+ pretty w)))
    as (c & s & Hs).
  unfold hexdigest in Hs. unfold hmac. by rewrite Hs.
Qed.

Lemma compare_nonces secret w w' :
  compare_digest (JStr (_nonce_for_window secret w)) (_nonce_for_window secret w')
  = Ret (bool_decide (_nonce_for_window secret w = _nonce_for_window secret w')).
Proof. unfold compare_digest. by rewrite !nonce_ascii. Qed.

Lemma nonce_window_valid secret now w :
  w = _current_window now ∨ w = _current_window now - 1 →
  _is_valid_nonce secret now (JStr (_nonce_for_window secret w)) = Ret true.
Proof.
  intros Hw. unfold _is_valid_nonce. rewrite nonce_truthy. simpl negb. cbv iota.
  rewrite !compare_nonces. cbn [obind].
  destruct Hw as [->| ->]; [by rewrite bool_decide_eq_true_2|].
  set (n := _nonce_for_window secret (_current_window now - 1)).
  rewrite (bool_decide_eq_true_2 (n = n)) by done. by destruct (bool_decide _).
Qed.

Lemma windows_adjacent now now' :
  now <= now' <= now + microseconds _NONCE_ROTATION_INTERVAL →
  _current_window now = _current_window now' ∨ _current_window now = _current_window now' - 1.
Proof.
  unfold _current_window, microseconds, _NONCE_ROTATION_INTERVAL. intros Hn.
  Z.to_euclidean_division_equations. lia.
Qed.
End DpopLemmas.

(** ** Properties *)

Section DpopProperties.
Context `{Hash} `{DpopRuntime} `{ReplayGuard}.

(** C40: no replay. Once a proof is accepted, no later request presenting the
    same JWT is accepted, whatever method, URL, token or nonce it is checked
    against and whatever other proofs were consumed in between, as long as the
    clock skew and the [iat] window together stay below the store's five
    minutes (the defaults, 5 s and 60 s, do). *)
Theorem dpop_no_replay (st : dpop_settings) (wall mono wall' mono' : Z) (c c' : dpop_call)
    (g g' : guard) (jkt : string) (calls : list (Z * string * Z)) :
  verify_dpop_proof st wall mono c g = (Ret jkt, g') →
  proof_jwt c' = proof_jwt c →
  mono' - mono = wall' - wall → calls_clocked mono calls mono' →
  dpop_clock_skew st + dpop_iat_window st < _DEFAULT_TTL →
  is_ret (verify_dpop_proof st wall' mono' c' (consumes calls g')).1 = false.
Proof.
  intros Hv Hjwt Hclk Hcalls Httl.
  apply accepted_inv in Hv as (claims & jti & key & Hp & Hc & Hk & Hnew & ->).
  destruct (verify_dpop_proof st wall' mono' c' _) as [r g2] eqn:Hv'. simpl.
  destruct r as [jkt'|]; [exfalso|done].
  apply accepted_inv in Hv' as (claims' & jti' & key' & Hp' & Hc' & Hk' & Hnew' & _).
  rewrite Hjwt, Hp in Hp'. injection Hp' as <- <-.
  apply check_claims_inv in Hc as (-> & _ & f & m & Hf & Hfresh & _).
  apply check_claims_inv in Hc' as (-> & _ & f' & m' & Hf' & Hfresh' & _).
  rewrite Hf in Hf'. injection Hf' as <-. rewrite Hk in Hk'. injection Hk' as <-.
  pose proof (iat_fresh_apart _ _ _ _ Hfresh Hfresh') as Hle.
  pose proof (calls_clocked_le _ _ _ Hcalls) as Hmono.
  rewrite consume_new in Hnew'. bools.
  rewrite (consumes_keep _ _ _ _ _ Hcalls) in Hnew'; [done|].
  apply consume_remembers; [done|]. unfold microseconds in *. lia.
Qed.

(** the [jti] is consumed only when every other check has passed: a request
    that ends in anything but acceptance or a replay refusal leaves the store
    as it was, and an accepted one registers its own [jti] and nothing else. *)
Theorem dpop_no_partial_state (st : dpop_settings) (wall mono : Z) (c : dpop_call) (g : guard) :
  let '(r, g') := verify_dpop_proof st wall mono c g in
  match r with
  | Raise e => e = HTTPException 401 "DPoP proof replay detected" ∨ g' = g
  | Ret jkt =>
      ∃ claims key, proof_parts (proof_jwt c) = Ret (jkt, claims) ∧
        jti_text (get_none "jti" claims) = Ret key ∧ remembered mono key g = false ∧
        (∀ mono' k, mono <= mono' → remembered mono' k g' = true →
           remembered mono' k g = true ∨ k = key)
  end.
Proof.
  destruct (verify_dpop_proof st wall mono c g) as [r g'] eqn:Hv. destruct r as [jkt|e].
  - apply accepted_inv in Hv as (claims & jti & key & Hp & Hc & Hk & Hnew & ->).
    apply check_claims_inv in Hc as (-> & _). exists claims, key.
    rewrite consume_new in Hnew. bools. split_and!; try done.
    intros mono' k Hle. by apply consume_adds_only.
  - apply verify_inv in Hv as [(? & _ & ->)|(jkt & cl & jti & key & _ & _ & _ & -> & Hr)]; [by right|].
    left. destruct (consume_jti _ _ _ _).1; [done|]. by injection Hr.
Qed.

(** the server nonce is stateless but never expires under a client in less
    than a rotation: a nonce handed out at any instant is accepted for the
    next 300 seconds, on every worker that has the secret. *)
Theorem nonce_valid_for_rotation (secret : string) (now now' : Z) :
  now <= now' <= now + microseconds _NONCE_ROTATION_INTERVAL →
  _is_valid_nonce secret now' (JStr (get_current_dpop_nonce secret now)) = Ret true.
Proof. intros Hn. apply nonce_window_valid. by apply windows_adjacent. Qed.

(** Not every validation failure is a 401: a JWT whose first segment is
    valid base64url of a JSON value that is not an object lets an
    [AttributeError] out of [verify_dpop_proof], before any signature check. *)
Theorem dpop_non_object_header_escapes (st : dpop_settings) (wall mono : Z) (c : dpop_call)
    (g : guard) (raw : string) (header : json) :
  strict_b64url_decode (before_dot (proof_jwt c)) = Ret raw →
  json_loads raw = Some header → as_obj header = None →
  verify_dpop_proof st wall mono c g = (Raise AttributeError, g).
Proof.
  intros Hraw Hj Hobj. unfold verify_dpop_proof, read_header. rewrite Hraw. simpl. rewrite Hj. simpl.
  by destruct header.
Qed.
End DpopProperties.

(** ** Witnesses: a runtime that knows one proof *)

Module DpopDemo.
Definition jwk : list (string * json) :=
  [("kty", JStr "EC"); ("crv", JStr "P-256"); ("x", JStr "AQ"); ("y", JStr "Ag")].
Definition header : json :=
  JObj [("typ", JStr "dpop+jwt"); ("alg", JStr "ES256"); ("jwk", JObj jwk)].
Definition claims : list (string * json) :=
  [("jti", JStr "j-1"); ("iat", JInt 1000); ("htm", JStr "POST"); ("htu", JStr "http://m/x")].

Definition runtime : DpopRuntime := {|
  json_loads s := if bool_decide (s = "hdr") then Some header
                  else if bool_decide (s = "[]") then Some (JList []) else None;
  float_of_str _ := None;
  upper s := s; lower s := s;
  urlparse s := Ret ("", "", s);
  urlunparse p := snd p;
  jwt_decode jwt key alg := if bool_decide (key = EcP256 1 2) then Some claims else None;
  jwt_claims_ok _ _ := true;
|}.

Definition st : dpop_settings :=
  {| dpop_clock_skew := 5; dpop_iat_window := 60; nonce_secret := "k" |}.
Definition call (jwt : string) : dpop_call :=
  {| proof_jwt := jwt; htm := "POST"; htus := ["http://m/x"]; access_token := None;
     require_nonce := false |}.
Definition proof1 : dpop_call := call (encode "hdr" +:+ ".payload.sig").
End DpopDemo.

#[local] Existing Instance DpopDemo.runtime.

Lemma dpop_no_replay_witness :
  is_ret (verify_dpop_proof DpopDemo.st 1001000000 1000000 DpopDemo.proof1 guard0).1 = true ∧
  is_ret (verify_dpop_proof DpopDemo.st 1060000000 60000000 DpopDemo.proof1
            (consumes [(2000000, "other", 5)]
               (verify_dpop_proof DpopDemo.st 1001000000 1000000 DpopDemo.proof1 guard0).2)).1 = false.
Proof.
  split; [vm_compute; reflexivity|].
  destruct (verify_dpop_proof DpopDemo.st 1001000000 1000000 DpopDemo.proof1 guard0) as [[jkt|e] g'] eqn:Hv.
  - refine (dpop_no_replay DpopDemo.st 1001000000 1000000 1060000000 60000000 DpopDemo.proof1
              DpopDemo.proof1 guard0 g' jkt [(2000000, "other", 5)] Hv eq_refl eq_refl _ _).
    + repeat split; vm_compute; discriminate.
    + reflexivity.
  - exfalso.
    assert (is_ret (verify_dpop_proof DpopDemo.st 1001000000 1000000 DpopDemo.proof1 guard0).1 = true)
      as Hr by (vm_compute; reflexivity).
    rewrite Hv in Hr. discriminate Hr.
Defined.

Lemma nonce_valid_for_rotation_witness :
  _is_valid_nonce "secret" 700000000 (JStr (get_current_dpop_nonce "secret" 450000000)) = Ret true.
Proof. apply (nonce_valid_for_rotation "secret" 450000000 700000000). split; vm_compute; discriminate. Defined.

Lemma dpop_non_object_header_escapes_witness :
  verify_dpop_proof DpopDemo.st 0 0 (DpopDemo.call "W10.e30.sig") guard0 = (Raise AttributeError, guard0).
Proof.
  apply (dpop_non_object_header_escapes DpopDemo.st 0 0 (DpopDemo.call "W10.e30.sig") guard0 "[]" (JList []));
    vm_compute; reflexivity.
Defined.
