(* ===== verification/NonceSecret.v ===== *)
(** * Booting workers and the shared nonce secret

    [mcp_proxy/auth/dpop.py:_load_or_create_nonce_secret_file], one worker per
    process on a shared filesystem, as a step relation: each worker looks for
    the file, reads it when it is there, and otherwise draws a secret, writes
    it to a temporary file of its own and renames that over the path.  A
    rename replaces whatever is there. *)

From S2P Require Import Prelude.

Inductive worker :=
| Booting                       (* before [p.exists()] *)
| Renaming (secret : string)    (* the file was missing; tmp is written *)
| Ready (secret : string).      (* what the function returned *)

Record boot_state := {
  secret_file : option string;
  workers : gmap nat worker;
}.

Inductive boot_step : boot_state → boot_state → Prop :=
| boot_read s w f :
    workers s !! w = Some Booting → secret_file s = Some f →
    boot_step s {| secret_file := Some f; workers := <[w := Ready f]> (workers s) |}
| boot_draw s w secret :
    workers s !! w = Some Booting → secret_file s = None →
    boot_step s {| secret_file := None; workers := <[w := Renaming secret]> (workers s) |}
| boot_rename s w secret :
    workers s !! w = Some (Renaming secret) →
    boot_step s {| secret_file := Some secret; workers := <[w := Ready secret]> (workers s) |}
| boot_rename_failed s w secret f :
    workers s !! w = Some (Renaming secret) → secret_file s = Some f →
    boot_step s {| secret_file := Some f; workers := <[w := Ready f]> (workers s) |}.

Definition two_booting : boot_state :=
  {| secret_file := None; workers := <[0 := Booting]> (<[1 := Booting]> ∅) |}.

(** Once the file exists and nobody is between the check and the rename, every
    worker that boots reads the same secret. *)
Definition settled (f : string) (s : boot_state) : Prop :=
  secret_file s = Some f ∧
  ∀ w st, workers s !! w = Some st → st = Booting ∨ st = Ready f.

Lemma boot_step_settled f s s' : boot_step s s' → settled f s → settled f s'.
Proof.
  intros Hstep [Hf Hw].
  destruct Hstep as [s w g Hb Hg|s w secret Hb Hg|s w secret Hb|s w secret g Hb Hg].
  - rewrite Hf in Hg. injection Hg as <-. split; [done|]. simpl. intros w' st.
    destruct (decide (w = w')) as [<-|]; [rewrite lookup_insert_eq; naive_solver|].
    rewrite lookup_insert_ne by done. apply Hw.
  - congruence.
  - apply Hw in Hb as [|]; done.
  - apply Hw in Hb as [|]; done.
Qed.

(** two workers that boot at once on an empty path can end with different
    secrets: both see no file, both rename, and each keeps the secret it drew
    while the file holds only the second. *)
Theorem booting_workers_diverge (s0 s1 : string) :
  s0 ≠ s1 →
  ∃ s, rtc boot_step two_booting s ∧
    workers s !! 0 = Some (Ready s0) ∧ workers s !! 1 = Some (Ready s1) ∧
    secret_file s = Some s1.
Proof.
  intros _. eexists. split.
  - eapply rtc_l; [apply (boot_draw two_booting 0 s0); reflexivity|].
    eapply rtc_l; [eapply (boot_draw _ 1 s1); reflexivity|].
    eapply rtc_l; [eapply (boot_rename _ 0 s0); reflexivity|].
    eapply rtc_l; [eapply (boot_rename _ 1 s1); reflexivity|].
    apply rtc_refl.
  - by split_and!.
Qed.

(** After the file has settled every later worker agrees: from a state where
    the file holds [f] and nobody is mid-creation, no run hands out another
    secret. *)
Theorem settled_workers_agree (s s' : boot_state) (f secret : string) (w : nat) :
  settled f s → rtc boot_step s s' → workers s' !! w = Some (Ready secret) → secret = f.
Proof.
  intros Hset Hr. induction Hr as [s|s s2 s' Hstep _ IH]; [|eauto using boot_step_settled].
  intros Hw. destruct Hset as [_ Hall]. destruct (Hall _ _ Hw) as [|[=]]; done.
Qed.

Lemma booting_workers_diverge_witness :
  ∃ s, rtc boot_step two_booting s ∧
    workers s !! 0 = Some (Ready "aa") ∧ workers s !! 1 = Some (Ready "bb") ∧
    secret_file s = Some "bb".
Proof. apply (booting_workers_diverge "aa" "bb"). discriminate. Defined.

Definition settled_state : boot_state := {| secret_file := Some "aa"; workers := {[0 := Booting]} |}.

Lemma settled_workers_agree_witness :
  ∃ s', rtc boot_step settled_state s' ∧ workers s' !! 0 = Some (Ready "aa") ∧ "aa" = "aa".
Proof.
  assert (settled "aa" settled_state) as Hset.
  { split; [reflexivity|]. intros w st Hw. left. simpl in Hw.
    apply lookup_singleton_Some in Hw as [_ <-]. reflexivity. }
  pose (s' := {| secret_file := Some "aa"; workers := <[0 := Ready "aa"]> (workers settled_state) |}).
  assert (rtc boot_step settled_state s') as Hr.
  { eapply rtc_l; [apply (boot_read settled_state 0 "aa"); reflexivity|apply rtc_refl]. }
  exists s'. split; [exact Hr|]. split; [reflexivity|].
  apply (settled_workers_agree settled_state s' "aa" "aa" 0 Hset Hr). reflexivity.
Defined.
