(* ===== verification/LocalSession.v ===== *)
(** * Local sessions

    [mcp_proxy/local/models.py], [mcp_proxy/local/session.py]
    ([LocalSessionStore]), [mcp_proxy/local/persistence.py] and the session
    half of [mcp_proxy/local/sweeper.py:sweep_once].  Instants and durations
    are microseconds, the clock is an argument of every operation that reads
    it; a session object is the value stored under its id, which is how every
    holder of the object reaches it. *)

From S2P Require Import Prelude.

Open Scope Z_scope.

Inductive SessionStatus := pending | active | closed | denied.
Inductive SessionCloseReason :=
| normal | idle_timeout | ttl_expired | peer_lost | policy_revoked | pending_timeout | rejected.

#[export] Instance status_eq_dec : EqDecision SessionStatus.
Proof. solve_decision. Defined.
#[export] Instance reason_eq_dec : EqDecision SessionCloseReason.
Proof. solve_decision. Defined.

Definition seconds (s : Z) : Z := s * 1000000.
Definition LOCAL_SESSION_IDLE_TIMEOUT_SECONDS : Z := 600.
Definition LOCAL_SESSION_HARD_TTL_MINUTES : Z := 60.
Definition LOCAL_SESSION_CAP_ACTIVE_PER_AGENT : Z := 50.

Record LocalSession := {
  session_id : string;
  initiator_agent_id : string;
  target_agent_id : string;
  requested_capabilities : list string;
  status : SessionStatus;
  created_at : Z;
  expires_at : option Z;
  last_activity_at : Z;
  close_reason : option SessionCloseReason;
}.

Definition with_status (st : SessionStatus) (why : option SessionCloseReason) (act : Z)
    (s : LocalSession) : LocalSession :=
  {| session_id := session_id s; initiator_agent_id := initiator_agent_id s;
     target_agent_id := target_agent_id s; requested_capabilities := requested_capabilities s;
     status := st; created_at := created_at s; expires_at := expires_at s;
     last_activity_at := act; close_reason := why |}.

(** [if session.close_reason is None: session.close_reason = reason] *)
Definition reason_once (s : LocalSession) (why : SessionCloseReason) : option SessionCloseReason :=
  match close_reason s with Some w => Some w | None => Some why end.

Definition is_expired (now : Z) (s : LocalSession) : bool :=
  match expires_at s with Some e => e <? now | None => false end.

Definition is_idle (now timeout_seconds : Z) (s : LocalSession) : bool :=
  match status s with
  | active | pending => seconds timeout_seconds <? now - last_activity_at s
  | _ => false
  end.

Definition involves (agent : string) (s : LocalSession) : bool :=
  bool_decide (agent = initiator_agent_id s) || bool_decide (agent = target_agent_id s).

(** ** The store *)

Definition _MAX_SESSIONS : Z := 10000.

Record LocalSessionStore := {
  _sessions : list (string * LocalSession);
  _ttl : Z;
  _active_cap_per_agent : Z;
}.

Definition with_sessions (st : LocalSessionStore) (d : list (string * LocalSession))
    : LocalSessionStore :=
  {| _sessions := d; _ttl := _ttl st; _active_cap_per_agent := _active_cap_per_agent st |}.

Definition LocalSessionStore_init (session_ttl_minutes active_cap_per_agent : option Z)
    : LocalSessionStore :=
  {| _sessions := [];
     _ttl := seconds (60 * default LOCAL_SESSION_HARD_TTL_MINUTES session_ttl_minutes);
     _active_cap_per_agent := default LOCAL_SESSION_CAP_ACTIVE_PER_AGENT active_cap_per_agent |}.

Definition terminated (s : LocalSession) : bool :=
  match status s with closed | denied => true | _ => false end.

Definition _evict_terminated (st : LocalSessionStore) : LocalSessionStore :=
  with_sessions st (List.filter (λ kv, negb (terminated (snd kv))) (_sessions st)).

Definition count_active_for_agent (agent : string) (st : LocalSessionStore) : Z :=
  Z.of_nat (length (List.filter
    (λ kv, bool_decide (status (snd kv) = active) && involves agent (snd kv)) (_sessions st))).

(** [uuid] is the fresh [str(uuid.uuid4())]. *)
Definition create (now : Z) (uuid initiator target : string) (caps : list string)
    (st : LocalSessionStore) : outcome LocalSession * LocalSessionStore :=
  let st := _evict_terminated st in
  if _MAX_SESSIONS <=? Z.of_nat (length (_sessions st)) then (Raise RuntimeError, st)
  else if _active_cap_per_agent st <=? count_active_for_agent initiator st
  then (Raise LocalAgentSessionCapExceeded, st)
  else
    let s := {| session_id := uuid; initiator_agent_id := initiator; target_agent_id := target;
                requested_capabilities := caps; status := pending; created_at := now;
                expires_at := Some (now + _ttl st); last_activity_at := now;
                close_reason := None |} in
    (Ret s, with_sessions st (dset uuid s (_sessions st))).

Definition update (sid : string) (f : LocalSession → LocalSession) (st : LocalSessionStore)
    : option LocalSession * LocalSessionStore :=
  match dget sid (_sessions st) with
  | None => (None, st)
  | Some s => (Some (f s), with_sessions st (dset sid (f s) (_sessions st)))
  end.

Definition get_session (now : Z) (s : LocalSession) : LocalSession :=
  if is_expired now s && negb (bool_decide (status s = closed))
  then with_status closed (reason_once s ttl_expired) (last_activity_at s) s else s.

Definition get (now : Z) (sid : string) (st : LocalSessionStore) := update sid (get_session now) st.

Definition activate_session (now : Z) (s : LocalSession) : LocalSession :=
  let s := get_session now s in
  match status s with pending => with_status active (close_reason s) now s | _ => s end.

Definition activate (now : Z) (sid : string) (st : LocalSessionStore) :=
  update sid (activate_session now) st.

Definition reject_session (now : Z) (s : LocalSession) : LocalSession :=
  let s := get_session now s in
  match status s with
  | pending => with_status denied (Some rejected) (last_activity_at s) s
  | _ => s
  end.

Definition reject (now : Z) (sid : string) (st : LocalSessionStore) :=
  update sid (reject_session now) st.

Definition close_session (why : SessionCloseReason) (s : LocalSession) : LocalSession :=
  match status s with
  | closed => s
  | _ => with_status closed (reason_once s why) (last_activity_at s) s
  end.

Definition close (sid : string) (why : SessionCloseReason) (st : LocalSessionStore) :=
  update sid (close_session why) st.

Definition find_stale (now idle_timeout_seconds : Z) (st : LocalSessionStore)
    : list (LocalSession * SessionCloseReason) :=
  omap (λ kv,
    let s := snd kv in
    if terminated s then None
    else if is_expired now s then Some (s, ttl_expired)
    else if is_idle now idle_timeout_seconds s then Some (s, idle_timeout) else None) (_sessions st).

Definition list_for_agent (agent : string) (st : LocalSessionStore) : list LocalSession :=
  snd <$> List.filter (λ kv, involves agent (snd kv)) (_sessions st).

Definition restore (s : LocalSession) (st : LocalSessionStore) : LocalSessionStore :=
  with_sessions st (dset (session_id s) s (_sessions st)).

(** ** Persistence *)

(** A row of [local_sessions]; the instants are stored as ISO text of the same
    values. *)
Record session_row := {
  p_initiator : string; p_target : string; p_status : SessionStatus;
  p_created_at : Z; p_last_activity_at : Z; p_close_reason : option SessionCloseReason;
}.

(** The UPSERT: the conflict clause rewrites status, activity and reason only. *)
Definition save_session (s : LocalSession) (db : list (string * session_row))
    : list (string * session_row) :=
  let row :=
    match dget (session_id s) db with
    | None => {| p_initiator := initiator_agent_id s; p_target := target_agent_id s;
                 p_status := status s; p_created_at := created_at s;
                 p_last_activity_at := last_activity_at s; p_close_reason := close_reason s |}
    | Some r => {| p_initiator := p_initiator r; p_target := p_target r;
                   p_status := status s; p_created_at := p_created_at r;
                   p_last_activity_at := last_activity_at s; p_close_reason := close_reason s |}
    end in
  dset (session_id s) row db.

Definition restorable (r : session_row) : bool :=
  match p_status r with pending | active => true | _ => false end.

Definition restored_session (ttl : Z) (sid : string) (r : session_row) : LocalSession :=
  {| session_id := sid; initiator_agent_id := p_initiator r; target_agent_id := p_target r;
     requested_capabilities := []; status := p_status r; created_at := p_created_at r;
     expires_at := Some (p_created_at r + ttl); last_activity_at := p_last_activity_at r;
     close_reason := p_close_reason r |}.

Definition restore_sessions (now : Z) (db : list (string * session_row)) (st : LocalSessionStore)
    : Z * LocalSessionStore :=
  foldl (λ acc kv,
    let '(n, st) := acc in
    if p_created_at (snd kv) + _ttl st <=? now then (n, st)
    else (n + 1, restore (restored_session (_ttl st) (fst kv) (snd kv)) st))
    (0, st) (List.filter (λ kv, restorable (snd kv)) db).

(** ** The session half of [sweep_once]

    [save_ok] says, for each session, whether its persistence succeeds; a
    failure is logged and swallowed. *)
Definition sweep_sessions (now idle_timeout_seconds : Z) (save_ok : string → bool)
    (st : LocalSessionStore) (db : list (string * session_row))
    : Z * (LocalSessionStore * list (string * session_row)) :=
  foldl (λ acc x,
    let '(n, (st, db)) := acc in
    let '(s, why) := x in
    match dget (session_id s) (_sessions st) with
    | Some live =>
        if bool_decide (status live = closed) then (n, (st, db))
        else
          match close (session_id s) why st with
          | (Some s', st') =>
              (n + 1, (st', if save_ok (session_id s) then save_session s' db else db))
          | (None, st') => (n, (st', db))
          end
    | None => (n, (st, db))
    end) (0, (st, db)) (find_stale now idle_timeout_seconds st).

(** ** How a session evolves *)

(** [s'] is [s] later: its identity is untouched, its status has only moved
    forward, and a close reason once set stays. *)
Definition forward (a b : SessionStatus) : Prop :=
  match a, b with
  | pending, _ => True
  | active, (active | closed) => True
  | denied, (denied | closed) => True
  | closed, closed => True
  | _, _ => False
  end.

Definition evolves (s s' : LocalSession) : Prop :=
  session_id s' = session_id s ∧ initiator_agent_id s' = initiator_agent_id s ∧
  target_agent_id s' = target_agent_id s ∧
  requested_capabilities s' = requested_capabilities s ∧
  created_at s' = created_at s ∧ expires_at s' = expires_at s ∧
  forward (status s) (status s') ∧
  (∀ why, close_reason s = Some why → close_reason s' = Some why).

#[export] Instance evolves_preorder : PreOrder evolves.
Proof.
  split.
  - intros s. unfold evolves. split_and!; try done. by destruct (status s).
  - intros s1 s2 s3 H12 H23. unfold evolves in *. destruct_and! H12. destruct_and! H23.
    split_and!; try congruence; [|auto].
    destruct (status s1), (status s2), (status s3); done.
Qed.

(** A session has a close reason exactly when it is over. *)
Definition reasoned (s : LocalSession) : Prop :=
  terminated s = true ↔ close_reason s ≠ None.

Definition good_update (f : LocalSession → LocalSession) : Prop :=
  ∀ s, reasoned s → evolves s (f s) ∧ reasoned (f s).

Lemma get_session_good now : good_update (get_session now).
Proof.
  intros s Hr. unfold get_session.
  destruct (is_expired now s && negb (bool_decide (status s = closed))); [|by split].
  unfold reasoned, evolves, reason_once in *. simpl. split_and!; try done.
  - by destruct (status s).
  - intros why ->. done.
  - by destruct (close_reason s).
Qed.

Lemma good_compose f g : good_update f → good_update g → good_update (λ s, g (f s)).
Proof.
  intros Hf Hg s Hr. destruct (Hf s Hr) as [He Hr']. destruct (Hg _ Hr') as [He' Hr''].
  split; [by transitivity (f s)|done].
Qed.

Ltac session_cases s Hr :=
  unfold reasoned, evolves, reason_once, terminated in *; destruct (status s) eqn:?; simpl;
  split_and!; try done; intuition congruence.

Lemma activate_session_good now : good_update (activate_session now).
Proof.
  apply (good_compose (get_session now)
    (λ s, match status s with pending => with_status active (close_reason s) now s | _ => s end));
    [apply get_session_good|]. intros s Hr.
  destruct (status s) eqn:Hs; [|by split..]. unfold reasoned, evolves, terminated in *.
  simpl. rewrite Hs in *. split_and!; try done.
Qed.

Lemma reject_session_good now : good_update (reject_session now).
Proof.
  apply (good_compose (get_session now)
    (λ s, match status s with pending => with_status denied (Some rejected) (last_activity_at s) s | _ => s end));
    [apply get_session_good|]. intros s Hr.
  destruct (status s) eqn:Hs; [|by split..]. unfold reasoned, evolves, terminated in *.
  simpl. rewrite Hs in *. split_and!; try done. intros why Hw.
  destruct Hr as [_ Hr]. rewrite Hw in Hr. by discriminate Hr.
Qed.

Lemma close_session_good why : good_update (close_session why).
Proof.
  intros s Hr. unfold close_session.
  destruct (status s) eqn:Hs; try by split.
  all: unfold reasoned, evolves, reason_once, terminated in *; simpl; rewrite Hs in *;
    split_and!; try done; destruct (close_reason s); naive_solver.
Qed.

(** ** Runs of the store *)

Inductive session_op :=
| OCreate (uuid initiator target : string) (caps : list string)
| OGet (sid : string)
| OActivate (sid : string)
| OReject (sid : string)
| OClose (sid : string) (why : SessionCloseReason).

Definition apply_op (now : Z) (op : session_op) (st : LocalSessionStore) : LocalSessionStore :=
  match op with
  | OCreate u i t c => (create now u i t c st).2
  | OGet sid => (get now sid st).2
  | OActivate sid => (activate now sid st).2
  | OReject sid => (reject now sid st).2
  | OClose sid why => (close sid why st).2
  end.

Fixpoint run_ops (ops : list (Z * session_op)) (st : LocalSessionStore) : LocalSessionStore :=
  match ops with
  | [] => st
  | (now, op) :: rest => run_ops rest (apply_op now op st)
  end.

Definition creates (sid : string) (op : Z * session_op) : bool :=
  match snd op with OCreate u _ _ _ => bool_decide (u = sid) | _ => false end.

(** The store's invariant: unique ids, and every session has a close reason
    exactly when it is over. *)
Definition store_ok (st : LocalSessionStore) : Prop :=
  dict_ok (_sessions st) ∧ Forall (λ kv, reasoned (snd kv)) (_sessions st).

Lemma store_ok_get st k s : store_ok st → dget k (_sessions st) = Some s → reasoned s.
Proof. intros [_ Hall] Hk. rewrite Forall_forall in Hall. by apply dget_elem, Hall in Hk. Qed.

Lemma dset_store_ok st k s :
  store_ok st → reasoned s → store_ok (with_sessions st (dset k s (_sessions st))).
Proof.
  intros [Hd Hall] Hs. split; [by apply dset_ok|]. simpl. rewrite Forall_forall in *.
  intros kv Hkv. apply dset_elem in Hkv as [->|Hkv]; [done|by apply Hall].
Qed.

Lemma update_ok sid f st : good_update f → store_ok st → store_ok (update sid f st).2.
Proof.
  intros Hf Hok. unfold update. destruct (dget sid (_sessions st)) as [s|] eqn:Hs; [|done].
  apply dset_store_ok; [done|]. apply Hf. by eapply store_ok_get.
Qed.

Lemma evict_ok st : store_ok st → store_ok (_evict_terminated st).
Proof.
  intros [Hd Hall]. split; [by apply dfilter_ok|]. simpl. rewrite Forall_forall in *.
  intros kv [Hkv _]%elem_of_filter_bool. by apply Hall.
Qed.

Lemma apply_op_ok now op st : store_ok st → store_ok (apply_op now op st).
Proof.
  intros Hok. destruct op as [u i t c|sid|sid|sid|sid why]; simpl.
  - unfold create. apply evict_ok in Hok. repeat case_match; simpl; try done.
    apply dset_store_ok; [done|]. unfold reasoned, terminated. by simpl.
  - apply update_ok; [apply get_session_good|done].
  - apply update_ok; [apply activate_session_good|done].
  - apply update_ok; [apply reject_session_good|done].
  - apply update_ok; [apply close_session_good|done].
Qed.

Lemma update_evolves sid k f st s :
  good_update f → store_ok st → dget k (_sessions st) = Some s →
  ∃ s', dget k (_sessions (update sid f st).2) = Some s' ∧ evolves s s'.
Proof.
  intros Hf Hok Hk. unfold update. destruct (dget sid (_sessions st)) as [s0|] eqn:Hs; simpl;
    [|by exists s].
  destruct (decide (k = sid)) as [->|Hne].
  - rewrite dget_dset_eq. rewrite Hk in Hs. injection Hs as ->. exists (f s0). split; [done|].
    apply Hf. by eapply store_ok_get.
  - rewrite dget_dset_ne by done. by exists s.
Qed.

Lemma update_absent sid k f st :
  dget k (_sessions st) = None → dget k (_sessions (update sid f st).2) = None.
Proof.
  intros Hk. unfold update. destruct (dget sid (_sessions st)) as [s0|] eqn:Hs; simpl; [|done].
  rewrite dget_dset_ne; [done|]. intros ->. congruence.
Qed.

Lemma create_other now u i t c st k :
  u ≠ k → dget k (_sessions (create now u i t c st).2) = dget k (_sessions (_evict_terminated st)).
Proof.
  intros Hne. unfold create. repeat case_match; simpl; try done. by rewrite dget_dset_ne.
Qed.

(** One operation that does not create [k]: its session evolves in place, or it
    was over and is evicted; an absent session stays absent. *)
Lemma apply_op_step now op st k :
  store_ok st → creates k (now, op) = false →
  match dget k (_sessions st) with
  | None => dget k (_sessions (apply_op now op st)) = None
  | Some s =>
      (∃ s', dget k (_sessions (apply_op now op st)) = Some s' ∧ evolves s s') ∨
      dget k (_sessions (apply_op now op st)) = None ∧ terminated s = true
  end.
Proof.
  intros Hok Hnew. destruct (dget k (_sessions st)) as [s|] eqn:Hk.
  - destruct op as [u i t c|sid|sid|sid|sid why]; simpl.
    2: left; by apply update_evolves; [apply get_session_good|..].
    2: left; by apply update_evolves; [apply activate_session_good|..].
    2: left; by apply update_evolves; [apply reject_session_good|..].
    2: left; by apply update_evolves; [apply close_session_good|..].
    unfold creates in Hnew. simpl in Hnew. bools. rewrite create_other by done.
    destruct (terminated s) eqn:Ht; [right|left].
    + split; [|done]. eapply dget_filter_None; [apply Hok|done|]. simpl. by rewrite Ht.
    + exists s. split; [|done]. apply dget_filter; [done|]. simpl. by rewrite Ht.
  - destruct op as [u i t c|sid|sid|sid|sid why]; simpl; try by apply update_absent.
    unfold creates in Hnew. simpl in Hnew. bools. rewrite create_other by done.
    by apply dget_filter_absent.
Qed.

Lemma run_ops_absent ops st k :
  store_ok st → existsb (creates k) ops = false → dget k (_sessions st) = None →
  dget k (_sessions (run_ops ops st)) = None.
Proof.
  revert st. induction ops as [|[now op] ops IH]; intros st Hok Hnew Hk; simpl in *; [done|].
  apply orb_false_iff in Hnew as [Hop Hnew]. apply IH; [by apply apply_op_ok|done|].
  pose proof (apply_op_step now op st k Hok Hop) as Hs. by rewrite Hk in Hs.
Qed.

Lemma run_ops_evolves ops st k s :
  store_ok st → existsb (creates k) ops = false → dget k (_sessions st) = Some s →
  match dget k (_sessions (run_ops ops st)) with
  | Some s' => evolves s s' ∧ reasoned s'
  | None => ∃ s1, evolves s s1 ∧ terminated s1 = true
  end.
Proof.
  revert st s. induction ops as [|[now op] ops IH]; intros st s Hok Hnew Hk; simpl in *.
  { rewrite Hk. split; [done|]. by eapply store_ok_get. }
  apply orb_false_iff in Hnew as [Hop Hnew].
  pose proof (apply_op_step now op st k Hok Hop) as Hs. rewrite Hk in Hs.
  pose proof (apply_op_ok now op st Hok) as Hok'.
  destruct Hs as [(s1 & Hs1 & He)|[Hnone Ht]].
  - specialize (IH _ _ Hok' Hnew Hs1). destruct (dget k _) as [s'|].
    + destruct IH. split; [by transitivity s1|done].
    + destruct IH as (s2 & ? & ?). exists s2. split; [by transitivity s1|done].
  - rewrite (run_ops_absent _ _ _ Hok' Hnew Hnone). by exists s.
Qed.

Lemma run_ops_ok ops st : store_ok st → store_ok (run_ops ops st).
Proof.
  revert st. induction ops as [|[now op] ops IH]; intros st Hok; simpl; [done|].
  by apply IH, apply_op_ok.
Qed.

(** ** The cap *)

Definition counted (agent : string) (kv : string * LocalSession) : bool :=
  bool_decide (status (snd kv) = active) && involves agent (snd kv).

Lemma count_dset agent sid s s' (d : list (string * LocalSession)) :
  dict_ok d → dget sid d = Some s → counted agent (sid, s) = false → counted agent (sid, s') = true →
  length (List.filter (counted agent) (dset sid s' d)) = S (length (List.filter (counted agent) d)).
Proof.
  unfold dict_ok. induction d as [|[k v] d IH]; simpl; [done|]. intros [Hk Hd]%NoDup_cons.
  case_bool_decide as Heq.
  - intros [= ->] Hs Hs'. subst k. simpl. by rewrite Hs, Hs'.
  - intros Hget Hs Hs'. simpl. destruct (counted agent (k, v)); simpl; by rewrite IH.
Qed.

(** ** Restart *)

Lemma restore_fold_other now (l : list (string * session_row)) acc k :
  k ∉ fst <$> l →
  dget k (_sessions (foldl (λ acc kv,
    let '(n, st) := acc in
    if p_created_at (snd kv) + _ttl st <=? now then (n, st)
    else (n + 1, restore (restored_session (_ttl st) (fst kv) (snd kv)) st)) acc l).2)
  = dget k (_sessions acc.2).
Proof.
  revert acc. induction l as [|[k' r] l IH]; intros [n st] Hk; simpl; [done|].
  rewrite IH by set_solver. destruct (_ <=? now); [done|]. simpl.
  apply dget_dset_ne. set_solver.
Qed.

Lemma restore_fold now (l : list (string * session_row)) acc k r :
  dict_ok l → dget k l = Some r → dget k (_sessions acc.2) = None →
  dget k (_sessions (foldl (λ acc kv,
    let '(n, st) := acc in
    if p_created_at (snd kv) + _ttl st <=? now then (n, st)
    else (n + 1, restore (restored_session (_ttl st) (fst kv) (snd kv)) st)) acc l).2)
  = if p_created_at r + _ttl acc.2 <=? now then None
    else Some (restored_session (_ttl acc.2) k r).
Proof.
  unfold dict_ok. revert acc. induction l as [|[k' r'] l IH]; intros [n st] Hd Hk Hnone; simpl in *; [done|].
  apply NoDup_cons in Hd as [Hk' Hd]. case_bool_decide as Heq.
  - injection Hk as ->. subst k'. rewrite restore_fold_other by done.
    destruct (_ <=? now); [done|]. simpl. apply dget_dset_eq.
  - rewrite IH; [|done|done|].
    + by destruct (p_created_at r' + _ttl st <=? now).
    + destruct (_ <=? now); [done|]. simpl. by rewrite dget_dset_ne.
Qed.

Lemma restore_sessions_get now db st k :
  dict_ok db → dget k (_sessions st) = None →
  dget k (_sessions (restore_sessions now db st).2) =
    match dget k db with
    | Some r => if restorable r && negb (p_created_at r + _ttl st <=? now)
                then Some (restored_session (_ttl st) k r) else None
    | None => None
    end.
Proof.
  intros Hdb Hst. unfold restore_sessions.
  set (f := λ kv : string * session_row, restorable (snd kv)).
  pose proof (dfilter_ok f db Hdb) as Hf.
  destruct (dget k db) as [r|] eqn:Hr.
  - destruct (restorable r) eqn:Hres; simpl.
    + rewrite (restore_fold now _ _ k r Hf); [|by apply dget_filter|done].
      by destruct (_ <=? now).
    + rewrite restore_fold_other; [done|]. apply dget_None. by eapply dget_filter_None.
  - rewrite restore_fold_other; [done|]. apply dget_None. by apply dget_filter_absent.
Qed.

(** A sweep only saves sessions the store holds. *)
Lemma sweep_leaves_row now timeout save_ok st db k :
  (∀ j s, dget j (_sessions st) = Some s → session_id s = j) →
  dget k (_sessions st) = None →
  dget k (sweep_sessions now timeout save_ok st db).2.2 = dget k db.
Proof.
  intros Hids Hk. unfold sweep_sessions.
  assert (∀ l n st' db',
    (∀ j s, dget j (_sessions st') = Some s → session_id s = j) →
    dget k (_sessions st') = None →
    dget k (foldl (λ (acc : Z * (LocalSessionStore * list (string * session_row))) x,
      let '(n, (st, db)) := acc in
      let '(s, why) := x in
      match dget (session_id s) (_sessions st) with
      | Some live =>
          if bool_decide (status live = closed) then (n, (st, db))
          else
            match close (session_id s) why st with
            | (Some s', st') =>
                (n + 1, (st', if save_ok (session_id s) then save_session s' db else db))
            | (None, st') => (n, (st', db))
            end
      | None => (n, (st, db))
      end) (n, (st', db')) l).2.2 = dget k db') as Hgen; [|by apply Hgen].
  intros l. induction l as [|[s why] l IH]; intros n st' db' Hid Hnone; simpl; [done|].
  destruct (dget (session_id s) (_sessions st')) as [live|] eqn:Hlive; [|by apply IH].
  case_bool_decide; [by apply IH|]. unfold close, update. rewrite Hlive. simpl.
  pose proof (Hid _ _ Hlive) as Hlid.
  assert (session_id (close_session why live) = session_id s) as Hcid.
  { unfold close_session. by destruct (status live). }
  assert (k ≠ session_id s) as Hne by (intros ->; congruence).
  rewrite IH; simpl.
  - destruct (save_ok _); [|done]. unfold save_session. rewrite Hcid. by apply dget_dset_ne.
  - intros j s' Hj. destruct (decide (j = session_id s)) as [->|Hjs].
    + rewrite dget_dset_eq in Hj. by injection Hj as <-.
    + rewrite dget_dset_ne in Hj by done. by apply Hid.
  - by rewrite dget_dset_ne.
Qed.

(** ** Properties *)

(** the life of a session. From the moment [create] stores it, under any
    later operations that do not draw its id again, a session's parties,
    capabilities and expiry never change, its status only moves forward
    (pending to active, denied or closed; active or denied to closed), a close
    reason once set is never replaced and is there exactly when the session is
    over; and it leaves the store only after it is over. *)
Theorem session_lifecycle (st : LocalSessionStore) (now : Z) (uuid initiator target : string)
    (caps : list string) (s : LocalSession) (ops : list (Z * session_op)) :
  store_ok st → (create now uuid initiator target caps st).1 = Ret s →
  existsb (creates uuid) ops = false →
  status s = pending ∧
  match dget uuid (_sessions (run_ops ops (create now uuid initiator target caps st).2)) with
  | Some s' => evolves s s' ∧ reasoned s'
  | None => ∃ s1, evolves s s1 ∧ terminated s1 = true
  end.
Proof.
  intros Hok Hcreate Hnew.
  pose proof (apply_op_ok now (OCreate uuid initiator target caps) st Hok) as Hok'. simpl in Hok'.
  assert (dget uuid (_sessions (create now uuid initiator target caps st).2) = Some s ∧
          status s = pending) as [Hget Hs].
  { unfold create in *. destruct (_MAX_SESSIONS <=? _); [done|].
    destruct (_active_cap_per_agent _ <=? _); [done|]. injection Hcreate as <-.
    cbn [fst snd with_sessions _sessions]. by rewrite dget_dset_eq. }
  split; [done|]. by apply run_ops_evolves.
Qed.

(** the cap on active sessions is not a cap. [create] compares it with the
    initiator's active sessions, but [activate] does not look at it: activating
    any pending, unexpired session adds one to its initiator's count, whatever
    the cap. *)
Theorem activate_ignores_cap (st : LocalSessionStore) (now : Z) (sid : string) (s : LocalSession) :
  store_ok st → dget sid (_sessions st) = Some s →
  status s = pending → is_expired now s = false →
  count_active_for_agent (initiator_agent_id s) (activate now sid st).2
    = count_active_for_agent (initiator_agent_id s) st + 1.
Proof.
  intros [Hd _] Hs Hp He. unfold activate, update. rewrite Hs. simpl.
  unfold count_active_for_agent. simpl.
  change (λ kv, bool_decide (status (snd kv) = active) && involves (initiator_agent_id s) (snd kv))
    with (counted (initiator_agent_id s)).
  rewrite (count_dset _ sid s); [lia|done|done|..].
  - unfold counted. simpl. by rewrite Hp.
  - unfold counted, activate_session, get_session. simpl. rewrite He. simpl. rewrite Hp. simpl.
    unfold involves. simpl. by rewrite bool_decide_eq_true_2.
Qed.

(** what a restart restores. From a table with one row per session, a fresh
    store holds, under each id, exactly the row's session when the row is
    pending or active and not past its hard TTL — same parties, status, age,
    activity and reason, expiry recomputed, capabilities dropped — and nothing
    else; and a row past its TTL stays as it is in the table through every
    later sweep: nothing ever closes it. *)
Theorem restart_restores_live (now : Z) (ttl cap : option Z)
    (db : list (string * session_row)) (k : string) :
  dict_ok db →
  let st := (restore_sessions now db (LocalSessionStore_init ttl cap)).2 in
  let hard_ttl := seconds (60 * default LOCAL_SESSION_HARD_TTL_MINUTES ttl) in
  dget k (_sessions st) =
    match dget k db with
    | Some r => if restorable r && negb (p_created_at r + hard_ttl <=? now)
                then Some (restored_session hard_ttl k r) else None
    | None => None
    end ∧
  ((∃ r, dget k db = Some r ∧ p_created_at r + hard_ttl <= now) →
   ∀ later timeout save_ok, dget k (sweep_sessions later timeout save_ok st db).2.2 = dget k db).
Proof.
  intros Hdb st hard_ttl.
  assert (∀ j, dget j (_sessions st) =
    match dget j db with
    | Some r => if restorable r && negb (p_created_at r + hard_ttl <=? now)
                then Some (restored_session hard_ttl j r) else None
    | None => None
    end) as Hst by (intros j; by apply restore_sessions_get).
  split; [apply Hst|]. intros (r & Hr & Hle) later timeout save_ok. apply sweep_leaves_row.
  - intros j s. rewrite Hst. destruct (dget j db); [|done]. destruct (_ && _); [|done].
    by intros [= <-].
  - rewrite Hst, Hr. rewrite (proj2 (Z.leb_le _ _)) by done. by rewrite andb_false_r.
Qed.

(** ** Witnesses *)

Module SessionDemo.
Definition st0 : LocalSessionStore := LocalSessionStore_init None (Some 1).
Lemma st0_ok : store_ok st0.
Proof. split; constructor. Qed.
(** One active session (at the cap) and one created before it was activated. *)
Definition st2 : LocalSessionStore :=
  Eval vm_compute in run_ops [(1, OCreate "s1" "a" "b" []); (2, OCreate "s2" "a" "c" []);
                              (3, OActivate "s1")] st0.
Lemma st2_ok : store_ok st2.
Proof.
  change st2 with (run_ops [(1, OCreate "s1" "a" "b" []); (2, OCreate "s2" "a" "c" []);
                            (3, OActivate "s1")] st0).
  apply run_ops_ok, st0_ok.
Qed.
Definition row1 (st : SessionStatus) (at_time : Z) : session_row :=
  {| p_initiator := "a"; p_target := "b"; p_status := st; p_created_at := at_time;
     p_last_activity_at := at_time; p_close_reason := None |}.
Definition db : list (string * session_row) := [("old", row1 active 0); ("new", row1 active (seconds 3600))].
End SessionDemo.

Lemma session_lifecycle_witness :
  match dget "s3" (_sessions (run_ops [(5, OActivate "s3"); (6, OClose "s3" normal)]
                     (create 4 "s3" "d" "b" ["read"] SessionDemo.st2).2)) with
  | Some s' => status s' = closed ∧ close_reason s' = Some normal ∧ reasoned s'
  | None => False
  end.
Proof.
  destruct (create 4 "s3" "d" "b" ["read"] SessionDemo.st2).1 as [s|e] eqn:Hc; [|discriminate Hc].
  pose proof (session_lifecycle SessionDemo.st2 4 "s3" "d" "b" ["read"] s
    [(5, OActivate "s3"); (6, OClose "s3" normal)] SessionDemo.st2_ok Hc eq_refl) as [_ Hl].
  vm_compute in Hl. vm_compute. destruct Hl as [_ Hl].
  split; [reflexivity|]. split; [reflexivity|exact Hl].
Defined.

Lemma activate_ignores_cap_witness :
  _active_cap_per_agent SessionDemo.st2 = 1 ∧
  count_active_for_agent "a" (activate 5 "s2" SessionDemo.st2).2 = 2.
Proof.
  split; [reflexivity|].
  destruct (dget "s2" (_sessions SessionDemo.st2)) as [s|] eqn:Hs; [|discriminate Hs].
  injection Hs as <-.
  exact (activate_ignores_cap SessionDemo.st2 5 "s2" _ SessionDemo.st2_ok eq_refl eq_refl eq_refl).
Defined.

Lemma restart_restores_live_witness :
  let st := (restore_sessions (seconds 3600) SessionDemo.db (LocalSessionStore_init None None)).2 in
  dget "old" (_sessions st) = None ∧
  dget "old" (sweep_sessions (seconds 9999) 600 (λ _, true) st SessionDemo.db).2.2
    = Some (SessionDemo.row1 active 0).
Proof.
  assert (dict_ok SessionDemo.db) as Hdb.
  { unfold dict_ok. apply NoDup_ListNoDup. simpl.
    repeat constructor; simpl; intuition discriminate. }
  destruct (restart_restores_live (seconds 3600) None None SessionDemo.db "old" Hdb) as [Hget Hsweep].
  split; [exact Hget|]. apply Hsweep. exists (SessionDemo.row1 active 0).
  split; [reflexivity|]. vm_compute. discriminate.
Defined.
