(* ===== verification/MessageQueue.v ===== *)
(** * The local message queue

    [mcp_proxy/local/message_queue.py] over the [local_messages] table, the
    list of its rows in insertion order.  Instants are microseconds: the code
    stores them as the ISO text of UTC instants and compares the texts, which
    orders them as instants ([IsoTime.iso_text_order]).  [limit] is the SQL
    [LIMIT]; rows with equal keys come in insertion order. *)

From S2P Require Import Prelude.

Open Scope Z_scope.

Inductive delivery_status := PENDING | DELIVERED | EXPIRED.

#[export] Instance delivery_status_eq_dec : EqDecision delivery_status.
Proof. solve_decision. Defined.

(** The SMALLINT values. *)
Definition status_code (s : delivery_status) : Z :=
  match s with PENDING => 0 | DELIVERED => 1 | EXPIRED => 2 end.

Definition DEFAULT_TTL_SECONDS : Z := 300.

Record message := {
  msg_id : string;
  session_id : option string;
  sender_agent_id : string;
  recipient_agent_id : string;
  payload_ciphertext : string;
  idempotency_key : option string;
  status : delivery_status;
  enqueued_at : Z;
  delivered_at : option Z;
  expires_at : option Z;
  is_oneshot : bool;
  correlation_id : option string;
  reply_to_correlation_id : option string;
}.

Definition set_status (s : delivery_status) (at_time : option Z) (m : message) : message :=
  {| msg_id := msg_id m; session_id := session_id m; sender_agent_id := sender_agent_id m;
     recipient_agent_id := recipient_agent_id m; payload_ciphertext := payload_ciphertext m;
     idempotency_key := idempotency_key m; status := s; enqueued_at := enqueued_at m;
     delivered_at := at_time; expires_at := expires_at m; is_oneshot := is_oneshot m;
     correlation_id := correlation_id m; reply_to_correlation_id := reply_to_correlation_id m |}.

(** ** Enqueue *)

(** [WHERE recipient_agent_id = :recipient AND idempotency_key = :ikey] *)
Definition has_key (recipient ikey : string) (m : message) : bool :=
  bool_decide (recipient_agent_id m = recipient) && bool_decide (idempotency_key m = Some ikey).

Definition existing (recipient ikey : string) (t : list message) : option message :=
  List.find (has_key recipient ikey) t.

(** The [uuid] is the fresh [str(uuid.uuid4())] of a call. *)
Definition enqueue_oneshot (now : Z) (uuid sender recipient correlation : string)
    (reply_to : option string) (payload : string) (ttl_seconds : Z) (t : list message)
    : (string * bool) * list message :=
  let ikey := "oneshot:" +:+ correlation in
  match existing recipient ikey t with
  | Some m => ((msg_id m, false), t)
  | None =>
      ((uuid, true),
       t ++ [{| msg_id := uuid; session_id := None; sender_agent_id := sender;
                recipient_agent_id := recipient; payload_ciphertext := payload;
                idempotency_key := Some ikey; status := PENDING; enqueued_at := now;
                delivered_at := None; expires_at := Some (now + ttl_seconds * 1000000);
                is_oneshot := true; correlation_id := Some correlation;
                reply_to_correlation_id := reply_to |}])
  end.

Definition enqueue (now : Z) (uuid session sender recipient payload : string) (ttl_seconds : Z)
    (ikey : option string) (t : list message) : (string * bool) * list message :=
  match match ikey with Some k => existing recipient k t | None => None end with
  | Some m => ((msg_id m, false), t)
  | None =>
      ((uuid, true),
       t ++ [{| msg_id := uuid; session_id := Some session; sender_agent_id := sender;
                recipient_agent_id := recipient; payload_ciphertext := payload;
                idempotency_key := ikey; status := PENDING; enqueued_at := now;
                delivered_at := None; expires_at := Some (now + ttl_seconds * 1000000);
                is_oneshot := false; correlation_id := None; reply_to_correlation_id := None |}])
  end.

(** ** Delivery *)

Definition fetch_pending_for_recipient (recipient : string) (limit : nat) (t : list message)
    : list message :=
  take limit (order_by enqueued_at (List.filter
    (λ m, bool_decide (recipient_agent_id m = recipient) && bool_decide (status m = PENDING)) t)).

Definition ackable (id recipient : string) (m : message) : bool :=
  bool_decide (msg_id m = id) && bool_decide (recipient_agent_id m = recipient) &&
  bool_decide (status m = PENDING).

(** [UPDATE ... WHERE] and [rowcount > 0]. *)
Definition mark_delivered (now : Z) (id recipient : string) (t : list message)
    : bool * list message :=
  (existsb (ackable id recipient) t,
   map (λ m, if ackable id recipient m then set_status DELIVERED (Some now) m else m) t).

(** [after_iso] is compared with the stored texts as a text; here both are the
    instants those texts denote. *)
Definition fetch_for_session (session : string) (after : option Z) (limit : nat)
    (t : list message) : list message :=
  take limit (order_by enqueued_at (List.filter
    (λ m, bool_decide (session_id m = Some session) &&
          match after with None => true | Some a => a <? enqueued_at m end) t)).

(** ** Expiry *)

Record notice := {
  n_msg_id : string; n_session_id : option string; n_sender : string; n_recipient : string;
}.

Definition notice_of (m : message) : notice :=
  {| n_msg_id := msg_id m; n_session_id := session_id m; n_sender := sender_agent_id m;
     n_recipient := recipient_agent_id m |}.

Definition lapsed (now : Z) (m : message) : bool :=
  bool_decide (status m = PENDING) &&
  match expires_at m with Some e => e <? now | None => false end.

Definition sweep_expired (now : Z) (limit : nat) (t : list message) : list notice * list message :=
  let notices := notice_of <$> take limit (List.filter (lapsed now) t) in
  match notices with
  | [] => ([], t)
  | _ => (notices, map (λ m, if lapsed now m then set_status EXPIRED (delivered_at m) m else m) t)
  end.

(** ** Runs of the queue *)

Inductive queue_op :=
| QOneshot (uuid sender recipient correlation : string) (reply_to : option string) (payload : string) (ttl : Z)
| QSend (uuid session sender recipient payload : string) (ttl : Z) (ikey : option string)
| QAck (id recipient : string)
| QSweep (limit : nat).

Definition queue_step (now : Z) (op : queue_op) (t : list message) : list message :=
  match op with
  | QOneshot u s r c rt p ttl => (enqueue_oneshot now u s r c rt p ttl t).2
  | QSend u ss s r p ttl k => (enqueue now u ss s r p ttl k t).2
  | QAck id r => (mark_delivered now id r t).2
  | QSweep n => (sweep_expired now n t).2
  end.

Fixpoint queue_run (ops : list (Z * queue_op)) (t : list message) : list message :=
  match ops with
  | [] => t
  | (now, op) :: rest => queue_run rest (queue_step now op t)
  end.

(** Same row, possibly later in its life: only status and delivery time may
    differ, and a settled row does not move again. *)
Definition later (m m' : message) : Prop :=
  m' = m ∨
  status m = PENDING ∧
  ((∃ now, m' = set_status DELIVERED (Some now) m) ∨
   (∃ now, m' = set_status EXPIRED (delivered_at m) m ∧ lapsed now m = true)).

Lemma ack_later id r now m :
  later m (if ackable id r m then set_status DELIVERED (Some now) m else m).
Proof.
  destruct (ackable id r m) eqn:Ha; [right|by left].
  unfold ackable in Ha. bools. split; [done|]. left. by exists now.
Qed.

Lemma sweep_later now m :
  later m (if lapsed now m then set_status EXPIRED (delivered_at m) m else m).
Proof.
  destruct (lapsed now m) eqn:Hl; [right|by left].
  pose proof Hl as Hl'. unfold lapsed in Hl'. bools. split; [done|]. right. by exists now.
Qed.

Lemma later_trans m1 m2 m3 : later m1 m2 → later m2 m3 → later m1 m3.
Proof.
  intros [->|[Hp H12]]; [done|]. intros [->|[Hp' _]]; [by right|].
  destruct H12 as [[now ->]|[now [-> _]]]; discriminate Hp'.
Qed.

(** A run only appends rows and moves rows forward. *)
Definition extends (t t' : list message) : Prop :=
  ∃ moved new, t' = moved ++ new ∧ Forall2 later t moved.

Lemma later_refl t : Forall2 later t t.
Proof. induction t; constructor; [by left|done]. Qed.

Lemma extends_refl t : extends t t.
Proof. exists t, []. rewrite app_nil_r. split; [done|apply later_refl]. Qed.

Lemma Forall2_later_trans t t1 t2 : Forall2 later t t1 → Forall2 later t1 t2 → Forall2 later t t2.
Proof.
  intros H1. revert t2. induction H1 as [|m m1 t t1 Hm _ IH]; intros t2 H2; inversion_clear H2;
    constructor; [by eapply later_trans|auto].
Qed.

Lemma extends_trans t1 t2 t3 : extends t1 t2 → extends t2 t3 → extends t1 t3.
Proof.
  intros (m1 & n1 & -> & H1) (m2 & n2 & -> & H2).
  apply Forall2_app_inv_l in H2 as (l1 & l2 & Hl1 & Hl2 & ->).
  exists l1, (l2 ++ n2). rewrite app_assoc. split; [done|]. by eapply Forall2_later_trans.
Qed.

Lemma extends_app t new : extends t (t ++ new).
Proof. exists t, new. split; [done|apply later_refl]. Qed.

Lemma extends_map f t : (∀ m, later m (f m)) → extends t (map f t).
Proof.
  intros Hf. exists (map f t), []. rewrite app_nil_r. split; [done|].
  induction t; simpl; constructor; auto.
Qed.

Lemma queue_step_extends now op t : extends t (queue_step now op t).
Proof.
  destruct op as [u s r c rt p ttl|u ss s r p ttl k|id r|n]; simpl.
  - unfold enqueue_oneshot. destruct (existing _ _ _); [apply extends_refl|apply extends_app].
  - unfold enqueue. destruct (match k with Some k => _ | None => None end);
      [apply extends_refl|apply extends_app].
  - apply extends_map. intros m. apply ack_later.
  - unfold sweep_expired. destruct (_ <$> _); [apply extends_refl|]. simpl.
    apply extends_map. intros m. apply sweep_later.
Qed.

Lemma queue_run_extends ops t : extends t (queue_run ops t).
Proof.
  revert t. induction ops as [|[now op] ops IH]; intros t; simpl; [apply extends_refl|].
  eapply extends_trans; [apply queue_step_extends|apply IH].
Qed.

(** ** One row per key *)

Definition keyed (m : message) : option (string * string) :=
  match idempotency_key m with Some k => Some (recipient_agent_id m, k) | None => None end.

(** No two rows share a recipient and an idempotency key. *)
Definition deduplicated (t : list message) : Prop := NoDup (omap keyed t).

Lemma has_key_keyed r k m : has_key r k m = true ↔ keyed m = Some (r, k).
Proof.
  unfold has_key, keyed. rewrite andb_true_iff, !bool_decide_eq_true.
  destruct (idempotency_key m); naive_solver.
Qed.

Lemma existing_None r k t : existing r k t = None ↔ (r, k) ∉ omap keyed t.
Proof.
  unfold existing. split.
  - intros Hf Hin. apply list_elem_of_omap in Hin as (m & Hm & Hk).
    apply has_key_keyed in Hk. pose proof (List.find_none _ _ Hf m) as Hn.
    rewrite Hn in Hk; [done|by apply list_elem_of_In].
  - intros Hin. destruct (List.find _ t) as [m|] eqn:Hf; [|done].
    apply List.find_some in Hf as [Hm Hk]. destruct Hin. apply list_elem_of_omap.
    exists m. split; [by apply list_elem_of_In|by apply has_key_keyed].
Qed.

Lemma keyed_map f t : (∀ m, keyed (f m) = keyed m) → omap keyed (map f t) = omap keyed t.
Proof. intros Hf. induction t as [|m t IH]; simpl; [done|]. rewrite Hf.
  by destruct (keyed m); [f_equal|]. Qed.

Lemma dedup_map f t : (∀ m, keyed (f m) = keyed m) → deduplicated t → deduplicated (map f t).
Proof. intros Hf. unfold deduplicated. by rewrite keyed_map. Qed.

Lemma dedup_snoc t m :
  deduplicated t → (∀ rk, keyed m = Some rk → rk ∉ omap keyed t) → deduplicated (t ++ [m]).
Proof.
  unfold deduplicated. intros Ht Hm. rewrite omap_app. simpl.
  destruct (keyed m) as [rk|]; [|by rewrite app_nil_r].
  apply NoDup_app. split_and!; [done| |apply NoDup_singleton].
  intros x Hx Hx'. apply list_elem_of_singleton in Hx' as ->. by eapply Hm.
Qed.

Lemma queue_step_dedup now op t : deduplicated t → deduplicated (queue_step now op t).
Proof.
  intros Ht. destruct op as [u s r c rt p ttl|u ss s r p ttl k|id r|n]; simpl.
  - unfold enqueue_oneshot. destruct (existing _ _ _) eqn:He; [done|].
    apply existing_None in He. apply dedup_snoc; [done|]. simpl. by intros rk [= <-].
  - unfold enqueue. destruct k as [k|]; [destruct (existing r k t) eqn:He; [done|]|];
      (apply dedup_snoc; [done|]); simpl; [|done].
    apply existing_None in He. by intros rk [= <-].
  - apply dedup_map; [|done]. intros m. by destruct (ackable id r m).
  - unfold sweep_expired. destruct (_ <$> _); [done|]. simpl.
    apply dedup_map; [|done]. intros m. by destruct (lapsed now m).
Qed.

Lemma queue_run_dedup ops t : deduplicated t → deduplicated (queue_run ops t).
Proof.
  revert t. induction ops as [|[now op] ops IH]; intros t Ht; simpl; [done|].
  by apply IH, queue_step_dedup.
Qed.

(** ** What a send does *)

(** The calls that send: their recipient and the idempotency key they look up. *)
Definition send_key (op : queue_op) : option (string * string) :=
  match op with
  | QOneshot _ _ r c _ _ _ => Some (r, "oneshot:" +:+ c)
  | QSend _ _ _ r _ _ (Some k) => Some (r, k)
  | _ => None
  end.

(** The value a send returns. *)
Definition send (now : Z) (op : queue_op) (t : list message) : option (string * bool) :=
  match op with
  | QOneshot u s r c rt p ttl => Some (enqueue_oneshot now u s r c rt p ttl t).1
  | QSend u ss s r p ttl k => Some (enqueue now u ss s r p ttl k t).1
  | _ => None
  end.

Lemma find_app {A} (f : A → bool) l l' :
  List.find f (l ++ l') = match List.find f l with Some x => Some x | None => List.find f l' end.
Proof. induction l as [|x l IH]; simpl; [done|]. by destruct (f x). Qed.

Lemma later_id m m' : later m m' → msg_id m' = msg_id m ∧ keyed m' = keyed m.
Proof. by intros [->|[_ [[? ->]|[? [-> _]]]]]. Qed.

Lemma existing_moved r k t moved m :
  Forall2 later t moved → existing r k t = Some m →
  ∃ m', existing r k moved = Some m' ∧ msg_id m' = msg_id m.
Proof.
  unfold existing. induction 1 as [|x y t moved Hxy _ IH]; simpl; [done|].
  destruct (later_id _ _ Hxy) as [Hid Hkey].
  assert (has_key r k y = has_key r k x) as ->.
  { apply eq_bool_prop_intro. rewrite !Is_true_true, !has_key_keyed. by rewrite Hkey. }
  destruct (has_key r k x); [|done]. intros [= <-]. by exists y.
Qed.

(** The row a key leads to keeps its identifier whatever runs. *)
Lemma existing_run r k ops t m :
  existing r k t = Some m →
  ∃ m', existing r k (queue_run ops t) = Some m' ∧ msg_id m' = msg_id m.
Proof.
  intros He. destruct (queue_run_extends ops t) as (moved & new & -> & Hm).
  destruct (existing_moved r k t moved m Hm He) as (m' & Hm' & Hid).
  exists m'. split; [|done]. unfold existing in *. by rewrite find_app, Hm'.
Qed.

(** A keyed send that finds a row answers with it and leaves the table. *)
Lemma send_replay now op t r k m :
  send_key op = Some (r, k) → existing r k t = Some m →
  send now op t = Some (msg_id m, false) ∧ queue_step now op t = t.
Proof.
  destruct op as [u s r' c rt p ttl|u ss s r' p ttl [k'|]|id r'|n]; try done;
    intros [= -> <-] He; simpl; unfold enqueue_oneshot, enqueue; by rewrite He.
Qed.

(** After a keyed send its key leads to the row it answered with. *)
Lemma send_leaves now op t r k :
  send_key op = Some (r, k) →
  ∃ m b, existing r k (queue_step now op t) = Some m ∧ send now op t = Some (msg_id m, b).
Proof.
  intros Hk. destruct (existing r k t) as [m|] eqn:He.
  { destruct (send_replay now op t r k m Hk He) as [Hs Hq]. exists m, false. by rewrite Hq. }
  destruct op as [u s r' c rt p ttl|u ss s r' p ttl [k'|]|id r'|n]; try done;
    injection Hk as -> <-; simpl; unfold enqueue_oneshot, enqueue; rewrite He; simpl;
    unfold existing in *; rewrite find_app, He; simpl; unfold has_key; simpl;
    rewrite !bool_decide_eq_true_2 by done; simpl; eauto.
Qed.

Lemma existing_unique r k t m :
  deduplicated t → existing r k t = Some m → length (List.filter (has_key r k) t) = 1%nat.
Proof.
  unfold deduplicated, existing. induction t as [|x t IH]; [done|].
  cbn [List.find List.filter]. change (omap keyed (x :: t)) with
    (match keyed x with Some rk => rk :: omap keyed t | None => omap keyed t end).
  destruct (has_key r k x) eqn:Hx; intros Hd He.
  - apply has_key_keyed in Hx. rewrite Hx in Hd. apply NoDup_cons in Hd as [Hn _].
    apply existing_None in Hn. unfold existing in Hn. simpl. f_equal.
    rewrite filter_nil; [done|]. apply Forall_forall. intros y Hy.
    apply (List.find_none _ _ Hn). by apply list_elem_of_In.
  - apply IH; [|done]. destruct (keyed x); [by apply NoDup_cons in Hd as [_ ?]|done].
Qed.

(** sending is idempotent.  Once a send with an idempotency key, a
    session [enqueue] or an [enqueue_oneshot] whose correlation id gives the
    key, was answered with a message id, then after any further enqueues, acks
    and sweeps every send with the same recipient and key is answered with that
    id and [inserted = False] and changes nothing, and exactly one row carries
    the key.  The two kinds of send share one key space: a session send
    may choose a key that begins with [oneshot:], and the one-shot message with
    that correlation id is then never stored. *)
Theorem queue_idempotent now now' op op' ops t r k :
  deduplicated t → send_key op = Some (r, k) → send_key op' = Some (r, k) →
  let t' := queue_run ops (queue_step now op t) in
  ∃ id inserted, send now op t = Some (id, inserted) ∧
    send now' op' t' = Some (id, false) ∧ queue_step now' op' t' = t' ∧
    length (List.filter (has_key r k) t') = 1%nat.
Proof.
  intros Hd Hk Hk' t'. destruct (send_leaves now op t r k Hk) as (m & b & He & Hs).
  destruct (existing_run r k ops _ m He) as (m' & Hm' & Hid).
  destruct (send_replay now' op' t' r k m' Hk' Hm') as [Hr Hq].
  exists (msg_id m), b. rewrite <- Hid at 2. split_and!; [done..|].
  apply (existing_unique r k t' m'); [|done]. by apply queue_run_dedup, queue_step_dedup.
Qed.

Definition clash_send : queue_op :=
  QSend "id-1" "sess-1" "acme::mallory" "acme::bob" "payload-1" 300 (Some "oneshot:42").

Definition clash_oneshot : queue_op :=
  QOneshot "id-2" "acme::alice" "acme::bob" "42" None "payload-2" 300.

Lemma queue_idempotent_witness :
  send 5 clash_oneshot (queue_run [(3, QAck "id-1" "acme::bob")] (queue_step 1 clash_send []))
  = Some ("id-1", false).
Proof.
  destruct (queue_idempotent 1 5 clash_send clash_oneshot [(3, QAck "id-1" "acme::bob")] []
              "acme::bob" "oneshot:42") as (id & b & H1 & H2 & _ & _);
    [constructor|reflexivity|reflexivity|].
  vm_compute in H1. injection H1 as <- <-. exact H2.
Defined.

(** ** Acknowledging *)

(** The identifiers the sends of a run draw. *)
Definition drawn (ops : list (Z * queue_op)) : list string :=
  omap (λ x, match x.2 with
             | QOneshot u _ _ _ _ _ _ | QSend u _ _ _ _ _ _ => Some u
             | _ => None
             end) ops.

(** No pending row of [recipient] has the identifier. *)
Definition settled (id recipient : string) (t : list message) : Prop :=
  Forall (λ m, ackable id recipient m = false) t.

Lemma settled_existsb id r t : settled id r t ↔ existsb (ackable id r) t = false.
Proof.
  unfold settled. induction t as [|m t IH]; simpl; [split; [done|constructor]|].
  by rewrite orb_false_iff, <- IH, Forall_cons.
Qed.

Lemma ackable_later id r m m' : later m m' → ackable id r m = false → ackable id r m' = false.
Proof.
  intros [->|[_ [[now ->]|[now [-> _]]]]]; [done|..]; intros _; unfold ackable; simpl;
    by rewrite andb_false_r.
Qed.

Lemma settled_map id r f t : (∀ m, later m (f m)) → settled id r t → settled id r (map f t).
Proof.
  unfold settled. intros Hf Hs. induction Hs as [|m t Hm _ IH]; simpl; constructor; [|done].
  by eapply ackable_later.
Qed.

Lemma settled_snoc id r t m : settled id r t → msg_id m ≠ id → settled id r (t ++ [m]).
Proof.
  unfold settled. intros Hs Hm. apply Forall_app. split; [done|]. constructor; [|constructor].
  unfold ackable. by rewrite bool_decide_eq_false_2.
Qed.

Lemma settled_step id r now op t :
  id ∉ drawn [(now, op)] → settled id r t → settled id r (queue_step now op t).
Proof.
  intros Hid Hs. destruct op as [u s r' c rt p ttl|u ss s r' p ttl k|id' r'|n]; simpl.
  - unfold enqueue_oneshot. destruct (existing _ _ _); [done|]. apply settled_snoc; [done|].
    simpl in *. set_solver.
  - unfold enqueue. destruct (match k with Some k => _ | None => None end); [done|].
    apply settled_snoc; [done|]. simpl in *. set_solver.
  - apply settled_map; [|done]. intros m. apply ack_later.
  - unfold sweep_expired. destruct (_ <$> _); [done|]. apply settled_map; [|done].
    intros m. apply sweep_later.
Qed.

Lemma drawn_cons x ops : drawn (x :: ops) = drawn [x] ++ drawn ops.
Proof. unfold drawn. simpl. by destruct (x.2). Qed.

Lemma settled_run id r ops t : id ∉ drawn ops → settled id r t → settled id r (queue_run ops t).
Proof.
  revert t. induction ops as [|[now op] ops IH]; intros t; [done|]. rewrite drawn_cons.
  intros Hid Hs. cbn [queue_run]. apply IH; [set_solver|]. apply settled_step; [set_solver|done].
Qed.

Lemma acked_settled now id r t : settled id r (mark_delivered now id r t).2.
Proof.
  unfold settled. simpl. induction t as [|m t IH]; simpl; constructor; [|done].
  destruct (ackable id r m) eqn:Ha; [|done]. unfold ackable. simpl. by rewrite andb_false_r.
Qed.

Lemma settled_ack_id now id r t : settled id r t → mark_delivered now id r t = (false, t).
Proof.
  intros Hs. unfold mark_delivered. apply settled_existsb in Hs as Hb. rewrite Hb. f_equal.
  unfold settled in Hs. induction Hs as [|m t Hm _ IH]; simpl in *; [done|].
  rewrite Hm in *. f_equal. by apply IH.
Qed.

(** a message is acknowledged once, and only by its recipient.
    [mark_delivered] succeeds exactly when the table holds a pending row with
    the id and that recipient; afterwards, whatever enqueues (of other ids),
    acks and sweeps run, acknowledging it again fails and changes nothing; and
    no row addressed to another recipient is touched. *)
Theorem ack_once now now' id r ops t :
  id ∉ drawn ops →
  let '(ok, t1) := mark_delivered now id r t in
  (ok = true ↔ ∃ m, m ∈ t ∧ msg_id m = id ∧ recipient_agent_id m = r ∧ status m = PENDING) ∧
  mark_delivered now' id r (queue_run ops t1) = (false, queue_run ops t1) ∧
  List.filter (λ m, negb (bool_decide (recipient_agent_id m = r))) t1
  = List.filter (λ m, negb (bool_decide (recipient_agent_id m = r))) t.
Proof.
  intros Hid. destruct (mark_delivered now id r t) as [ok t1] eqn:He.
  pose proof (acked_settled now id r t) as Hs. rewrite He in Hs. simpl in Hs.
  injection He as <- <-. split_and!.
  - rewrite existsb_exists. unfold ackable. split.
    + intros (m & Hm & Ha). bools. exists m. by rewrite list_elem_of_In.
    + intros (m & Hm & <- & <- & Hp). exists m. rewrite <- list_elem_of_In. split; [done|].
      by rewrite !bool_decide_eq_true_2.
  - by apply settled_ack_id, settled_run.
  - clear. induction t as [|m t IH]; simpl; [done|]. rewrite IH.
    destruct (ackable id r m) eqn:Ha; [|done]. unfold ackable in Ha. bools. simpl.
    by rewrite bool_decide_eq_true_2.
Qed.

Lemma ack_once_witness :
  (mark_delivered 9 "id-1" "acme::bob"
     (queue_run [(4, QSweep 10); (5, clash_oneshot)] (queue_step 3 (QAck "id-1" "acme::bob")
       (queue_step 1 clash_send [])))).1 = false.
Proof.
  pose proof (ack_once 3 9 "id-1" "acme::bob" [(4, QSweep 10); (5, clash_oneshot)]
                (queue_step 1 clash_send [])) as H.
  change (queue_step 3 (QAck "id-1" "acme::bob") (queue_step 1 clash_send []))
    with (mark_delivered 3 "id-1" "acme::bob" (queue_step 1 clash_send [])).2.
  destruct (mark_delivered 3 "id-1" "acme::bob" (queue_step 1 clash_send [])) as [ok t1].
  destruct H as (_ & H & _); [simpl; set_solver|].
  cbn [snd]. by rewrite H.
Defined.

(** ** Expiring *)

Lemma sweep_flips now limit t :
  (0 < limit)%nat →
  (sweep_expired now limit t).2
  = map (λ m, if lapsed now m then set_status EXPIRED (delivered_at m) m else m) t.
Proof.
  intros Hl. unfold sweep_expired.
  destruct (notice_of <$> take limit (List.filter (lapsed now) t)) as [|n ns] eqn:Hn; [|done].
  apply fmap_nil_inv in Hn. symmetry. simpl.
  assert (List.filter (lapsed now) t = []) as Hf.
  { destruct (List.filter _ _); [done|]. destruct limit; [lia|done]. }
  clear Hn. induction t as [|m t IH]; simpl in *; [done|].
  destruct (lapsed now m); [done|]. by rewrite IH.
Qed.

Lemma lapsed_after now now' t :
  List.filter (lapsed now')
    (map (λ m, if lapsed now m then set_status EXPIRED (delivered_at m) m else m) t)
  = List.filter (λ m, negb (lapsed now m) && lapsed now' m) t.
Proof.
  induction t as [|m t IH]; simpl; [done|]. destruct (lapsed now m); simpl.
  - unfold lapsed at 1. simpl. done.
  - by rewrite IH.
Qed.

(** a sweep expires every lapsed row at once but reports at most [limit] of
    them.  The notices are the first [limit] lapsed rows; the rows a later sweep
    can report are those that had not lapsed.  So a sweep that meets more than
    [limit] lapsed messages expires the rest without any sender being told, and
    no later sweep makes up for it. *)
Theorem sweep_reports_at_most_limit now now' limit limit' t :
  (0 < limit)%nat →
  let '(notices, t') := sweep_expired now limit t in
  notices = notice_of <$> take limit (List.filter (lapsed now) t) ∧
  Forall (λ m, lapsed now m = false) t' ∧
  (sweep_expired now' limit' t').1
  = notice_of <$> take limit' (List.filter (λ m, negb (lapsed now m) && lapsed now' m) t).
Proof.
  intros Hl. destruct (sweep_expired now limit t) as [notices t'] eqn:He.
  pose proof (sweep_flips now limit t Hl) as Ht. rewrite He in Ht. simpl in Ht. subst t'.
  split_and!.
  - unfold sweep_expired in He. by destruct (notice_of <$> _); simplify_eq.
  - apply Forall_forall. intros m Hm.
    apply list_elem_of_In, in_map_iff in Hm as (x & <- & _).
    destruct (lapsed now x) eqn:Hx; [reflexivity|done].
  - unfold sweep_expired at 1. rewrite lapsed_after. by destruct (notice_of <$> _).
Qed.

Definition lapsing (u : string) : queue_op :=
  QSend u "sess-1" "acme::alice" "acme::bob" "p" 0 None.

Lemma sweep_reports_at_most_limit_witness :
  (sweep_expired 9 5 (sweep_expired 8 1 (queue_run [(1, lapsing "a"); (2, lapsing "b")] [])).2).1 = [].
Proof.
  pose proof (sweep_reports_at_most_limit 8 9 1 5 (queue_run [(1, lapsing "a"); (2, lapsing "b")] []))
    as H.
  destruct (sweep_expired 8 1 _) as [ns t']. destruct H as (_ & _ & H); [lia|].
  simpl. rewrite H. reflexivity.
Defined.
