(* ===== verification/BundleVerify.v ===== *)
(** * The offline verifier: the chains of a bundle

    [scripts/cullis-audit-verify.py], the part that needs no network and no
    signatures: classification of the rows, the two canonical texts and the two
    chain walks.  A bundle row is the dict [json.loads] gives for a line, a
    list of fields in key order; [sys.exit(n)] is [Raise (SystemExit n)].
    Everything that comes from the bundle is untyped: a missing key raises
    [KeyError], joining a value that is not a text raises [TypeError], and
    values are compared as Python compares them.  The printed explanations are
    not modelled. *)

From Stdlib Require Import QArith.
From S2P Require Import Prelude Sha256 HashChain Json.

Open Scope Z_scope.

Abbreviation entry := (list (string * json)).

Definition exit {A} (code : Z) : outcome A := Raise (SystemExit code).

(** ** Which chain a row belongs to *)

Definition detect_chain (e : entry) : option string :=
  if is_str "audit_log" (get_none "chain" e) then Some "audit_log"
  else if is_str "local_audit" (get_none "chain" e) then Some "local_audit"
  else
    let looks_audit := has_key "action" e && has_key "status" e in
    let looks_local := has_key "event_type" e && has_key "result" e in
    if looks_audit && negb looks_local then Some "audit_log"
    else if looks_local && negb looks_audit then Some "local_audit" else None.

(** The partition is built from the front; the result is the same. *)
Fixpoint split_entries_by_chain (entries : list entry) (forced : string)
    : outcome (list entry * list entry) :=
  match entries with
  | [] => Ret ([], [])
  | e :: rest =>
      match detect_chain e with
      | None => exit 9
      | Some detected =>
          if negb (bool_decide (forced = "auto")) && negb (bool_decide (detected = forced))
          then exit 9 else
          let! (audit_rows, local_rows) := split_entries_by_chain rest forced in
          Ret (if bool_decide (detected = "audit_log")
               then (e :: audit_rows, local_rows) else (audit_rows, e :: local_rows))
      end
  end.

(** ** Canonical texts *)

(** An operand of [str.join]. *)
Definition text_of (v : json) : outcome string :=
  match v with JStr s => Ret s | _ => Raise TypeError end.

(** [entry.get(k) or ""] *)
Definition field (k : string) (e : entry) : json := py_or (get_none k e) (JStr "").

(** [.lower() == "v2"]: no character but [V] lowers to [v]. *)
Definition lower_is_v2 (v : json) : outcome bool :=
  match v with
  | JStr s => Ret (bool_decide (s = "v2") || bool_decide (s = "V2"))
  | _ => Raise AttributeError
  end.

Definition with_principal (e : entry) (s : string) : string :=
  let pt := get_none "principal_type" e in
  if py_bool pt && negb (is_str "agent" pt) then s +:+ "|pt=" +:+ str_of pt else s.

Definition canonical (e : entry) (previous_hash : json) : outcome string :=
  let! v2 := lower_is_v2 (py_or (get_none "hash_format" e) (JStr "v1")) in
  let chain_seq := get_none "chain_seq" e in
  let peer := "peer=" +:+ str_of (field "peer_org_id" e) in
  if v2 then
    if is_none chain_seq then Ret "INVALID-V2-WITHOUT-CHAIN-SEQ" else
    let! ts := item "timestamp" e in
    let! ev := item "event_type" e in
    let! res := item "result" e in
    let! parts := omapM text_of
      [JStr "v2"; py_or ts (JStr ""); ev; field "agent_id" e; field "session_id" e;
       field "org_id" e; res; field "details" e; py_or previous_hash (JStr "genesis");
       JStr ("seq=" +:+ str_of chain_seq); JStr peer] in
    Ret (with_principal e (join "|" parts))
  else
    let! i := item "id" e in
    let! ts := item "timestamp" e in
    let! ev := item "event_type" e in
    let! res := item "result" e in
    let! parts := omapM text_of
      [JStr (str_of i); py_or ts (JStr ""); ev; field "agent_id" e; field "session_id" e;
       field "org_id" e; res; field "details" e; py_or previous_hash (JStr "genesis")] in
    let base := join "|" parts in
    Ret (with_principal e
      (if is_none chain_seq then base
       else base +:+ "|seq=" +:+ str_of chain_seq +:+ "|" +:+ peer)).

(** An f-string: every value is put through [str]. *)
Definition canonical_audit_log (e : entry) (prev_hash : string) : outcome string :=
  let! seq := item "chain_seq" e in
  let! ts := item "timestamp" e in
  let! ag := item "agent_id" e in
  let! act := item "action" e in
  let! st := item "status" e in
  let opt k := str_of (field k e) in
  if is_str "v2" (get_none "hash_format" e) then
    Ret (join "|" ["v2"; str_of seq; str_of ts; str_of ag; str_of act; opt "tool_name"; str_of st;
                   opt "detail"; opt "request_id"; opt "dpop_jkt"; opt "on_behalf_of_user_id";
                   prev_hash])
  else
    Ret (join "|" [str_of seq; str_of ts; str_of ag; str_of act; opt "tool_name"; str_of st;
                   opt "detail"; opt "request_id"; prev_hash]).

(** ** Sorting and grouping *)

(** A stable sort, as [list.sort] is. *)
Fixpoint insert_by {A} (le : A → A → bool) (x : A) (l : list A) : list A :=
  match l with
  | [] => [x]
  | y :: rest => if le x y then x :: l else y :: insert_by le x rest
  end.

Definition sort_by {A} (le : A → A → bool) (l : list A) : list A := foldr (insert_by le) [] l.

(** [rows.sort(key=lambda r: r["chain_seq"])]: numbers compare with numbers and
    texts with texts; anything else raises when there is a pair to compare (so
    do lists here, which Python compares elementwise). *)
Definition key_pairs {K} (f : json → option K) (rows : list entry) : option (list (K * entry)) :=
  mapM (λ e, k ← f (get_none "chain_seq" e); Some (k, e)) rows.

Definition sort_rows (rows : list entry) : outcome (list entry) :=
  match key_pairs num_of rows, key_pairs as_str rows with
  | Some l, _ => Ret (snd <$> sort_by (λ x y, Qle_bool (fst x) (fst y)) l)
  | _, Some l => Ret (snd <$> sort_by (λ x y, String.leb (fst x) (fst y)) l)
  | _, _ => match rows with [_] => Ret rows | _ => Raise TypeError end
  end.

(** Dictionaries keyed by bundle values. *)
Fixpoint jget {V} (k : json) (d : list (json * V)) : option V :=
  match d with
  | [] => None
  | (k', v) :: rest => if json_eq k' k then Some v else jget k rest
  end.

Fixpoint jset {V} (k : json) (v : V) (d : list (json * V)) : list (json * V) :=
  match d with
  | [] => [(k, v)]
  | (k', v') :: rest => if json_eq k' k then (k', v) :: rest else (k', v') :: jset k v rest
  end.

Definition use_key {A} (k : json) (a : A) : outcome A := if hashable k then Ret a else Raise TypeError.

(** [set.add] *)
Definition set_add (v : json) (s : list json) : outcome (list json) :=
  use_key v (if existsb (json_eq v) s then s else s ++ [v]).

Section Walks.
Context `{Hash}.

(** ** [verify_chains]: the rows of [local_audit] *)

Definition legacy_row (e : entry) : bool :=
  is_none (get_none "chain_seq" e) && negb (is_none (get_none "entry_hash" e)).

(** One row of either walk: its hash, then its link. *)
Definition check_entry (e : entry) (expected_prev : json) : outcome json :=
  let! text := canonical e expected_prev in
  let! recorded := item "entry_hash" e in
  if negb (json_eq (JStr (hexdigest text)) recorded) then exit 2
  else if negb (json_eq (get_none "previous_hash" e) expected_prev) then exit 2
  else Ret recorded.

(** [prev] with the count and the agents seen so far. *)
Fixpoint legacy_walk (entries : list entry) (prev : json) (n : Z) (agents : list json)
    : outcome (Z * Z) :=
  match entries with
  | [] => Ret (n, Z.of_nat (length agents))
  | e :: rest =>
      let agent := get_none "agent_id" e in
      let! agents := if py_bool agent then set_add agent agents else Ret agents in
      if legacy_row e then
        let! prev := check_entry e prev in legacy_walk rest prev (n + 1) agents
      else legacy_walk rest prev n agents
  end.

Fixpoint last_legacy (entries : list entry) (d : list (json * json)) : outcome (list (json * json)) :=
  match entries with
  | [] => Ret d
  | e :: rest =>
      if legacy_row e then
        let org := field "org_id" e in
        let! d := use_key org (jset org (get_none "entry_hash" e) d) in last_legacy rest d
      else last_legacy rest d
  end.

Fixpoint group_by_org (entries : list entry) (d : list (json * list entry))
    : outcome (list (json * list entry)) :=
  match entries with
  | [] => Ret d
  | e :: rest =>
      if is_none (get_none "chain_seq" e) then group_by_org rest d else
      let org := field "org_id" e in
      let! d := use_key org (jset org (default [] (jget org d) ++ [e]) d) in group_by_org rest d
  end.

Fixpoint org_walk (rows : list entry) (expected_prev : json) (n : Z) : outcome Z :=
  match rows with
  | [] => Ret n
  | e :: rest => let! prev := check_entry e expected_prev in org_walk rest prev (n + 1)
  end.

Fixpoint orgs_walk (legacy : list (json * json)) (groups : list (json * list entry)) (n : Z)
    : outcome Z :=
  match groups with
  | [] => Ret n
  | (org, rows) :: rest =>
      let! rows := sort_rows rows in
      let! n := org_walk rows (default JNull (jget org legacy)) n in
      orgs_walk legacy rest n
  end.

Definition verify_chains (entries : list entry) : outcome (Z * Z * Z) :=
  let! (legacy_n, agents) := legacy_walk entries JNull 0 [] in
  let! legacy := last_legacy entries [] in
  let! groups := group_by_org entries [] in
  let! per_org_n := orgs_walk legacy groups 0 in
  Ret (legacy_n, per_org_n, agents).

(** ** [verify_audit_log_chain] *)

(** The rows with a position, paired with [int(e["chain_seq"])], and how many
    have none. *)
Fixpoint positioned (entries : list entry) : outcome (list (Z * entry) * Z) :=
  match entries with
  | [] => Ret ([], 0)
  | e :: rest =>
      let seq := get_none "chain_seq" e in
      if is_none seq then let! (rows, n) := positioned rest in Ret (rows, n + 1) else
      match int_of seq with
      | Raise (TypeError | ValueError) => exit 9
      | Raise ex => Raise ex
      | Ret q => let! (rows, n) := positioned rest in Ret ((q, e) :: rows, n)
      end
  end.

(** The link a row must carry, after a row at [prev] or none. *)
Definition expected_link (prev : option (string * Z)) (seq : Z) (e : entry) : outcome json :=
  match prev with
  | None => Ret (if seq =? 1 then JStr "genesis" else get_none "prev_hash" e)
  | Some (prev_hash, prev_seq) =>
      if seq =? prev_seq then exit 2
      else if negb (seq =? prev_seq + 1) then exit 2
      else Ret (JStr prev_hash)
  end.

Fixpoint audit_walk (rows : list (Z * entry)) (prev : option (string * Z)) (verified : Z)
    : outcome Z :=
  match rows with
  | [] => Ret verified
  | (seq, e) :: rest =>
      let! expected_prev := expected_link prev seq e in
      if negb (json_eq (get_none "prev_hash" e) expected_prev) then exit 2 else
      let! text := canonical_audit_log e (str_of (py_or expected_prev (JStr "genesis"))) in
      if negb (json_eq (JStr (hexdigest text)) (get_none "row_hash" e)) then exit 2 else
      let! recorded := item "row_hash" e in
      audit_walk rest (Some (str_of recorded, seq)) (verified + 1)
  end.

Definition partial_from (rows : list (Z * entry)) : option Z :=
  match rows with
  | (seq, _) :: _ => if seq =? 1 then None else Some seq
  | [] => None
  end.

Definition by_seq (x y : Z * entry) : bool := fst x <=? fst y.

(** [(verified, skipped, partial_from)] *)
Definition verify_audit_log_chain (entries : list entry) : outcome (Z * Z * option Z) :=
  let! (rows, skipped) := positioned entries in
  let rows := sort_by by_seq rows in
  let! verified := audit_walk rows None 0 in
  Ret (verified, skipped, partial_from rows).
End Walks.

(** ** Sorting *)

Lemma insert_by_perm {A} (le : A → A → bool) x l : insert_by le x l ≡ₚ x :: l.
Proof.
  induction l as [|y l IH]; simpl; [done|]. destruct (le x y); [done|].
  rewrite IH. apply Permutation_swap.
Qed.

Lemma sort_by_perm {A} (le : A → A → bool) l : sort_by le l ≡ₚ l.
Proof. induction l as [|x l IH]; simpl; [done|]. by rewrite insert_by_perm, IH. Qed.

Lemma insert_by_sorted (x : Z * entry) l :
  StronglySorted (key_le fst) l → StronglySorted (key_le fst) (insert_by by_seq x l).
Proof.
  induction 1 as [|y l Hl IH Hy]; simpl; [by repeat constructor|].
  unfold by_seq at 1. destruct (Z.leb_spec (fst x) (fst y)) as [Hxy|Hxy].
  - constructor; [by constructor|]. constructor; [done|].
    eapply Forall_impl; [exact Hy|]. unfold key_le. lia.
  - constructor; [done|]. rewrite insert_by_perm. constructor; [|done]. unfold key_le. lia.
Qed.

Lemma sort_by_sorted l : StronglySorted (key_le fst) (sort_by by_seq l).
Proof. induction l as [|x l IH]; simpl; [constructor|]. by apply insert_by_sorted. Qed.

Lemma sort_by_numbered s l l' : numbered fst s l → l' ≡ₚ l → sort_by by_seq l' = l.
Proof.
  intros Hn Hp. apply (strict_sort_unique fst); [by eapply numbered_strict|apply sort_by_sorted|].
  by rewrite sort_by_perm.
Qed.

(** ** What an accepted [audit_log] bundle is *)

Lemma json_eq_str v s : json_eq v (JStr s) = true ↔ v = JStr s.
Proof.
  split; [|intros ->; simpl; by apply bool_decide_eq_true_2].
  destruct v; simpl; try done. intros Hb. by bools; subst.
Qed.

Lemma str_json_eq v s : json_eq (JStr s) v = true ↔ v = JStr s.
Proof.
  split; [|intros ->; simpl; by apply bool_decide_eq_true_2].
  destruct v; simpl; try done. intros Hb. by bools; subst.
Qed.

Section Accepted.
Context `{Hash}.

(** The link a row stores, the hash it stores, and the text the verifier
    hashes for it. *)
Definition row_link (x : Z * entry) : option string := as_str (get_none "prev_hash" (snd x)).
Definition row_stored (x : Z * entry) : option string := as_str (get_none "row_hash" (snd x)).
Definition hashed_text (e : entry) : outcome string :=
  canonical_audit_log e (str_of (py_or (get_none "prev_hash" e) (JStr "genesis"))).
Definition row_text (x : Z * entry) : string :=
  match hashed_text (snd x) with Ret s => s | Raise _ => "" end.
Definition complete (x : Z * entry) : Prop := is_ret (hashed_text (snd x)) = true.

Abbreviation bundle_chain := (linked row_text row_link row_stored).

Definition audit_rows (entries : list entry) : list (Z * entry) :=
  match positioned entries with Ret (rows, _) => sort_by by_seq rows | Raise _ => [] end.

Lemma walk_step p q seq e rest n v :
  audit_walk ((seq, e) :: rest) (Some (p, q)) n = Ret v ↔
  seq = q + 1 ∧ row_link (seq, e) = Some p ∧ complete (seq, e) ∧
  row_stored (seq, e) = Some (hexdigest (row_text (seq, e))) ∧
  audit_walk rest (Some (hexdigest (row_text (seq, e)), seq)) (n + 1) = Ret v.
Proof.
  unfold complete, row_text, row_link, row_stored, hashed_text. cbn [audit_walk expected_link snd].
  destruct (Z.eqb_spec seq q) as [->|Hne]; [split; [done|lia]|].
  destruct (Z.eqb_spec seq (q + 1)) as [->|Hne']; cbn [negb]; [|split; [done|lia]].
  cbn [obind]. destruct (json_eq (get_none "prev_hash" e) (JStr p)) eqn:Hp; cbn [negb].
  2: { split; [done|]. intros (_ & Hl & _). assert (get_none "prev_hash" e = JStr p) as Hg.
       { destruct (get_none "prev_hash" e); try done. simpl in Hl. congruence. }
       rewrite Hg in Hp. simpl in Hp. by rewrite bool_decide_eq_true_2 in Hp. }
  apply json_eq_str in Hp as ->. destruct (canonical_audit_log e _) as [text|ex] eqn:Ht; cbn [obind is_ret].
  2: { split; [done|]. by intros (_ & _ & ? & _). }
  destruct (json_eq (JStr (hexdigest text)) (get_none "row_hash" e)) eqn:Hs; cbn [negb].
  2: { split; [done|]. intros (_ & _ & _ & Hr & _).
       assert (get_none "row_hash" e = JStr (hexdigest text)) as Hg.
       { destruct (get_none "row_hash" e); try done. simpl in Hr. congruence. }
       rewrite Hg in Hs. simpl in Hs. by rewrite bool_decide_eq_true_2 in Hs. }
  apply str_json_eq in Hs as Hg. rewrite Hg.
  assert (item "row_hash" e = Ret (JStr (hexdigest text))) as ->.
  { unfold item. unfold get_none in Hg. destruct (get "row_hash" e); [|done]. simpl in Hg. by subst. }
  cbn [obind str_of as_str]. naive_solver.
Qed.

Lemma audit_walk_linked rows p q n v :
  audit_walk rows (Some (p, q)) n = Ret v ↔
  v = n + Z.of_nat (length rows) ∧ numbered fst (q + 1) rows ∧ bundle_chain (Some p) rows ∧
  Forall complete rows.
Proof.
  revert p q n. induction rows as [|[seq e] rows IH]; intros p q n.
  - simpl. split.
    + intros [= <-]. split_and!; [lia|done|constructor|constructor].
    + intros (-> & _). f_equal. lia.
  - rewrite walk_step, IH. cbn [numbered length fst]. split.
    + intros (-> & Hl & Hc & Hs & -> & Hn & Hch & Hf).
      split_and!; [lia|done|done| |by constructor].
      constructor; [done|done|]. by rewrite Hs.
    + intros (-> & [-> Hn] & Hch & Hf). apply Forall_cons in Hf as [Hc Hf].
      inversion_clear Hch as [|??? Hl Hs Hrest]. rewrite Hs in Hrest. split_and!; try done. lia.
Qed.
(** A first row that carries a text as its link starts a chain at that text. *)
Lemma walk_first seq e rest n p :
  get_none "prev_hash" e = JStr p → (seq = 1 → p = "genesis") →
  audit_walk ((seq, e) :: rest) None n = audit_walk ((seq, e) :: rest) (Some (p, seq - 1)) n.
Proof.
  intros Hp H1. cbn [audit_walk expected_link].
  destruct (Z.eqb_spec seq (seq - 1)) as [|_]; [lia|].
  destruct (Z.eqb_spec seq (seq - 1 + 1)) as [_|]; [|lia]. cbn [negb].
  destruct (Z.eqb_spec seq 1) as [Hs|_]; [by rewrite H1|by rewrite Hp].
Qed.

Lemma walk_from_genesis e rest n v :
  audit_walk ((1, e) :: rest) None n = Ret v → get_none "prev_hash" e = JStr "genesis".
Proof.
  cbn [audit_walk expected_link Z.eqb obind].
  destruct (json_eq _ _) eqn:Hp; [intros _; by apply json_eq_str|done].
Qed.

(** The rows of an accepted bundle that reaches the genesis. *)
Definition full_chain (rows : list (Z * entry)) : Prop :=
  numbered fst 1 rows ∧ bundle_chain (Some "genesis") rows ∧ Forall complete rows.

Lemma accepted_full es n k :
  verify_audit_log_chain es = Ret (n, k, None) ↔
  ∃ rs, positioned es = Ret (rs, k) ∧ n = Z.of_nat (length (sort_by by_seq rs)) ∧
    full_chain (sort_by by_seq rs).
Proof.
  unfold verify_audit_log_chain. destruct (positioned es) as [[rs k']|ex]; cbn [obind].
  2: { split; [done|]. by intros (? & ? & _). }
  set (rows := sort_by by_seq rs).
  assert (partial_from rows = None ∧ (∃ v, audit_walk rows None 0 = Ret v) ∨ full_chain rows →
          audit_walk rows None 0 = audit_walk rows (Some ("genesis", 0)) 0) as Hfirst.
  { destruct rows as [|[seq e] rest]; [done|]. intros [[Hpf [v Hv]]|([Hs _] & Hc & _)].
    - simpl in Hpf. destruct (Z.eqb_spec seq 1) as [->|]; [|done].
      apply (walk_first 1 e rest 0 "genesis"); [|done]. by apply (walk_from_genesis e rest 0 v).
    - simpl in Hs. subst. inversion_clear Hc as [|??? Hl _ _]. apply (walk_first 1 e rest 0 "genesis"); [|done].
      unfold row_link in Hl. simpl in Hl. destruct (get_none "prev_hash" e); try done. simpl in Hl. congruence. }
  split.
  - intros Hv. destruct (audit_walk rows None 0) as [v|] eqn:Hw; [|done]. simpl in Hv.
    injection Hv as -> -> Hpf. exists rs. fold rows.
    assert (audit_walk rows (Some ("genesis", 0)) 0 = Ret n) as Hw'
      by (rewrite <- Hfirst; [done|left; eauto]).
    apply audit_walk_linked in Hw' as (-> & Hn & Hc & Hf). by split_and!.
  - intros (rs' & Heq & -> & Hfull). assert (rs' = rs) as -> by congruence.
    assert (k' = k) as -> by congruence. fold rows in Hfull |- *. rewrite Hfirst by (by right).
    destruct Hfull as (Hn & Hc & Hf).
    rewrite (proj2 (audit_walk_linked rows "genesis" 0 0 _)) by done. simpl. do 2 f_equal.
    destruct rows as [|[seq e] rest]; [done|]. simpl in *. by destruct Hn as [-> _].
Qed.

(** ** Reading the link back from a text *)

Lemma join_last l : (2 <= length l)%nat → ∃ pre, join "|" l = pre +:+ "|" +:+ List.last l "".
Proof.
  intros Hl. exists (join "|" (removelast l)).
  rewrite <- join_snoc; [rewrite <- app_removelast_last; [done|intros ->; simpl in Hl; lia]|].
  intros Hr. apply (f_equal length) in Hr. rewrite removelast_firstn_len, length_firstn in Hr.
  simpl in Hr. lia.
Qed.

Lemma hashed_text_link e t :
  hashed_text e = Ret t →
  ∃ pre, t = pre +:+ "|" +:+ str_of (py_or (get_none "prev_hash" e) (JStr "genesis")).
Proof.
  unfold hashed_text, canonical_audit_log. intros Ht.
  repeat match type of Ht with (let! _ := ?x in _) = _ => destruct x; cbn [obind] in Ht; [|done] end.
  assert (∀ a b : string, Ret a = Ret b → a = b) as Hinj by congruence.
  destruct (is_str _ _); apply Hinj in Ht as <-;
    match goal with |- ∃ _, join "|" ?l = _ => apply (join_last l); simpl; lia end.
Qed.

Lemma text_gives_link x y :
  complete x → complete y → row_text x = row_text y →
  (row_link x = Some "genesis" ∨ ∃ m, row_link x = Some (hexdigest m)) →
  (row_link y = Some "genesis" ∨ ∃ m, row_link y = Some (hexdigest m)) →
  row_link x = row_link y.
Proof.
  assert (∀ z, complete z → (row_link z = Some "genesis" ∨ ∃ m, row_link z = Some (hexdigest m)) →
    ∃ pre l, row_link z = Some l ∧ row_text z = pre +:+ "|" +:+ l ∧ pipe_free l) as Hz.
  { intros [q e]. unfold complete, row_text, row_link. simpl. intros Hc Hl.
    destruct (hashed_text e) as [t|] eqn:Ht; [|done]. apply hashed_text_link in Ht as [pre ->].
    assert (∃ l, get_none "prev_hash" e = JStr l ∧ pipe_free l ∧ l ≠ "") as (l & Hg & Hf & Hne).
    { destruct Hl as [Hl|[m Hl]]; destruct (get_none "prev_hash" e); try done; simpl in Hl;
        injection Hl as ->; eexists; (split; [done|]); [done|].
      destruct (hexdigest_nonempty m) as (c & s & Hm).
      split; [apply hexdigest_pipe_free|by rewrite Hm]. }
    exists pre, l. rewrite Hg. destruct l; [done|]. done. }
  intros Hx Hy Ht Hlx Hly. destruct (Hz x Hx Hlx) as (p & l & -> & Htx & Hf).
  destruct (Hz y Hy Hly) as (p' & l' & -> & Hty & Hf'). rewrite Htx, Hty in Ht.
  apply (split_last pipe) in Ht as [_ ->]; [done|done|done].
Qed.

Definition last_row_hash (entries : list entry) : option string :=
  last_stored row_stored (Some "genesis") (audit_rows entries).

Lemma audit_rows_sorted es rs k : positioned es = Ret (rs, k) → audit_rows es = sort_by by_seq rs.
Proof. intros Hp. unfold audit_rows. by rewrite Hp. Qed.
End Accepted.

(** ** Cutting the end off *)

(** The rows of a bundle up to position [m]; rows without a position stay. *)
Definition up_to (m : Z) (entries : list entry) : list entry :=
  List.filter (λ e, match int_of (get_none "chain_seq" e) with Ret q => q <=? m | Raise _ => true end)
    entries.

Lemma positioned_up_to m es rs k :
  positioned es = Ret (rs, k) →
  positioned (up_to m es) = Ret (List.filter (λ x, fst x <=? m) rs, k).
Proof.
  revert rs k. induction es as [|e es IH]; intros rs k; simpl; [by intros [= <- <-]|].
  destruct (is_none (get_none "chain_seq" e)) eqn:Hnone.
  - destruct (get_none "chain_seq" e) eqn:Hg; try done.
    destruct (positioned es) as [[rs' k']|]; cbn [obind]; [|done]. intros [= <- <-].
    simpl. by rewrite Hg, (IH _ _ eq_refl).
  - destruct (int_of (get_none "chain_seq" e)) as [q|ex] eqn:Hq; [|by destruct ex].
    destruct (positioned es) as [[rs' k']|]; cbn [obind]; [|done]. intros [= <- <-].
    specialize (IH _ _ eq_refl). simpl. destruct (q <=? m); [|done].
    simpl. by rewrite Hnone, Hq, IH.
Qed.

Lemma filter_perm {A} (f : A → bool) l l' : l ≡ₚ l' → List.filter f l ≡ₚ List.filter f l'.
Proof.
  induction 1 as [|x l l' _ IH|x y l|l l1 l2 _ IH _ IH']; simpl; [done|..].
  - destruct (f x); by rewrite IH.
  - destruct (f x), (f y); done || apply Permutation_swap.
  - by rewrite IH.
Qed.

Lemma filter_up_to (l : list (Z * entry)) m :
  numbered fst 1 l → List.filter (λ x, fst x <=? m) l = take (Z.to_nat m) l.
Proof.
  intros Hn. pose proof (numbered_range fst 1 l 1 m Hn) as Hr.
  replace (Z.to_nat (m - 1 + 1)) with (Z.to_nat m) in Hr by lia.
  rewrite drop_0 in Hr by lia. rewrite <- Hr by lia.
  apply List.filter_ext_in. intros x Hx%list_elem_of_In.
  pose proof (numbered_bound _ _ _ _ Hn Hx). by rewrite (proj2 (Z.leb_le 1 _)) by lia.
Qed.

Lemma full_chain_take `{Hash} n rows : full_chain rows → full_chain (take n rows).
Proof.
  intros (Hn & Hc & Hf). split_and!; [by apply numbered_take| |by apply Forall_take].
  rewrite <- (take_drop n rows) in Hc. by apply linked_app in Hc as [? _].
Qed.

(** ** Properties *)

Section BundleProperties.
Context `{Hash}.

(** C37: an accepted bundle is bound by its last hash.  Two bundles the verifier
    accepts from the genesis whose last rows carry the same [row_hash] hold the
    same number of rows, numbered alike, and hash the same texts row by row:
    changing, adding, removing or reordering rows other than at the end changes
    that hash, as long as the texts at hand do not collide. *)
Theorem bundle_bound_by_last_hash (es es' : list entry) (n n' k k' : Z) :
  verify_audit_log_chain es = Ret (n, k, None) →
  verify_audit_log_chain es' = Ret (n', k', None) →
  last_row_hash es = last_row_hash es' →
  collision_free (map row_text (audit_rows es) ++ map row_text (audit_rows es')) →
  n = n' ∧ Forall2 (λ x y, fst x = fst y ∧ row_text x = row_text y) (audit_rows es) (audit_rows es').
Proof.
  intros (rs & Hp & -> & Hn & Hc & Hf)%accepted_full (rs' & Hp' & -> & Hn' & Hc' & Hf')%accepted_full.
  unfold last_row_hash. rewrite (audit_rows_sorted _ _ _ Hp), (audit_rows_sorted _ _ _ Hp').
  intros Hlast Hcf. rewrite Forall_forall in Hf. rewrite Forall_forall in Hf'.
  assert (Forall2 (λ x y, row_text x = row_text y) (sort_by by_seq rs) (sort_by by_seq rs')) as Ht.
  { eapply head_commits; [|exact Hc|exact Hc'|exact Hcf| |exact Hlast].
    - intros m [= Hm]. by apply (hex_not_genesis (digest m)).
    - intros x y Hx Hy Hlx Hly Hxy. apply text_gives_link; auto. }
  split; [by rewrite (Forall2_length _ _ _ Ht)|].
  clear - Hn Hn' Ht. revert Hn Hn'. generalize 1.
  induction Ht as [|x y l l' Hxy _ IH]; intros s; simpl; constructor; [|by apply (IH (s + 1)); tauto].
  by destruct Hn as [-> _], Hn' as [-> _].
Qed.

(** the end of a bundle is not bound.  From a bundle accepted from the
    genesis, take away every row above any position [m]: what is left is
    accepted from the genesis too, as a chain of [m] rows (or of all, when
    there are no more).  The verdict the tool then prints is that no row was
    removed. *)
Theorem removed_tail_accepted (es : list entry) (n k m : Z) :
  verify_audit_log_chain es = Ret (n, k, None) → 0 <= m →
  verify_audit_log_chain (up_to m es) = Ret (Z.min m n, k, None).
Proof.
  intros (rs & Hp & -> & Hfull)%accepted_full Hm. apply accepted_full.
  assert (sort_by by_seq (List.filter (λ x, fst x <=? m) rs) = take (Z.to_nat m) (sort_by by_seq rs))
    as Hs.
  { pose proof (proj1 Hfull) as Hn. apply (sort_by_numbered 1); [by apply numbered_take|].
    rewrite <- filter_up_to by done. apply filter_perm. by rewrite sort_by_perm. }
  exists (List.filter (λ x, fst x <=? m) rs). rewrite Hs. split_and!.
  - by apply positioned_up_to.
  - rewrite length_take. lia.
  - by apply full_chain_take.
Qed.
End BundleProperties.

(** ** Witnesses *)

Module BundleDemo.
(** A legacy row of [agent], hashed the way the producer does. *)
Definition row (agent : string) (seq : Z) (prev : string) : entry :=
  let fields h :=
    [("chain", JStr "audit_log"); ("id", JInt seq); ("timestamp", JStr "2026-06-02T07:05:09+00:00");
     ("agent_id", JStr agent); ("action", JStr "tool.call"); ("status", JStr "success");
     ("chain_seq", JInt seq); ("prev_hash", JStr prev); ("row_hash", JStr h)] in
  match canonical_audit_log (fields "") prev with Ret s => fields (hexdigest s) | Raise _ => [] end.

Definition hash_of (e : entry) : string := str_of (get_none "row_hash" e).
Definition row1 : entry := Eval vm_compute in row "acme::alice" 1 "genesis".
Definition row2 : entry := Eval vm_compute in row "acme::bob" 2 (hash_of row1).
Definition unchained : entry := [("chain", JStr "audit_log"); ("id", JInt 9); ("chain_seq", JNull)].
Definition bundle : list entry := [row2; unchained; row1].
Definition reordered : list entry := [row1; row2].
End BundleDemo.

Lemma bundle_bound_by_last_hash_witness :
  verify_audit_log_chain BundleDemo.bundle = Ret (2, 1, None) ∧
  map row_text (audit_rows BundleDemo.bundle) = map row_text (audit_rows BundleDemo.reordered).
Proof.
  assert (verify_audit_log_chain BundleDemo.bundle = Ret (2, 1, None)) as Hb by (vm_compute; reflexivity).
  assert (verify_audit_log_chain BundleDemo.reordered = Ret (2, 0, None)) as Hr by (vm_compute; reflexivity).
  split; [exact Hb|].
  destruct (bundle_bound_by_last_hash BundleDemo.bundle BundleDemo.reordered 2 2 1 0 Hb Hr) as [_ Hf].
  - vm_compute. reflexivity.
  - apply collision_freeb_sound. vm_compute. reflexivity.
  - induction Hf as [|x y l l' [_ Hxy] _ IH]; [reflexivity|]. simpl. rewrite Hxy. f_equal. exact IH.
Defined.

Lemma removed_tail_accepted_witness :
  length (up_to 1 BundleDemo.bundle) = 2%nat ∧
  verify_audit_log_chain (up_to 1 BundleDemo.bundle) = Ret (1, 1, None).
Proof.
  split; [vm_compute; reflexivity|].
  apply (removed_tail_accepted BundleDemo.bundle 2 1 1); [vm_compute; reflexivity|lia].
Defined.
