(* ===== verification/AuditExport.v ===== *)
(** * The audit export

    [mcp_proxy/admin/audit_export.py], the producer of the bundles
    [BundleVerify] checks, and [load_bundle], which reads them back.  A line of
    the NDJSON stream is the dict it prints; printing and parsing a line give
    that dict back.  Rows come with their primary key.  Every batch of a table
    is a query of its own, so a run takes the list of the tables its queries
    meet, in order: [None] means the run asked for more queries than listed. *)

From Stdlib Require Import QArith.
From S2P Require Import Prelude Sha256 HashChain Json LocalAudit.
From S2P Require Import AuditCanon AuditLog AuditMerkle Base64 BundleVerify.

Open Scope Z_scope.

Definition _BATCH_SIZE : nat := 1000.

Definition opt_str (o : option string) : json := match o with Some s => JStr s | None => JNull end.
Definition opt_int (o : option Z) : json := match o with Some z => JInt z | None => JNull end.

(** ** Lines *)

(** [_entry_line] over [_AUDIT_LOG_COLS]; [repr_float] prints [duration_ms]. *)
Definition audit_entry (repr_float : Q → string) (x : Z * audit_row) : entry :=
  let '(row_id, r) := x in
  let p := payload r in
  [("kind", JStr "entry"); ("chain", JStr "audit_log"); ("id", JInt row_id);
   ("timestamp", JStr (timestamp p)); ("agent_id", JStr (agent_id p));
   ("action", JStr (action p)); ("tool_name", opt_str (tool_name p));
   ("status", JStr (status p)); ("detail", opt_str (detail p));
   ("request_id", opt_str (request_id p));
   ("duration_ms", match duration_ms p with Some q => JFloat (repr_float q) q | None => JNull end);
   ("chain_seq", opt_int (chain_seq r)); ("prev_hash", opt_str (prev_hash r));
   ("row_hash", opt_str (row_hash r)); ("hash_format", opt_str (hash_format r));
   ("dpop_jkt", opt_str (dpop_jkt p)); ("on_behalf_of_user_id", opt_str (on_behalf_of_user_id p))].

(** [_entry_line] over [_LOCAL_AUDIT_COLS]; [peer_row_hash] is a column no
    writer of this program fills. *)
Definition local_audit_entry (r : LocalAudit.local_row) : entry :=
  [("kind", JStr "entry"); ("chain", JStr "local_audit"); ("id", JInt (LocalAudit.id r));
   ("timestamp", JStr (LocalAudit.timestamp r)); ("event_type", JStr (LocalAudit.event_type r));
   ("agent_id", opt_str (LocalAudit.agent_id r)); ("session_id", opt_str (LocalAudit.session_id r));
   ("org_id", opt_str (LocalAudit.org_id r)); ("details", opt_str (LocalAudit.details r));
   ("result", JStr (LocalAudit.result r)); ("entry_hash", opt_str (LocalAudit.entry_hash r));
   ("previous_hash", opt_str (LocalAudit.previous_hash r));
   ("chain_seq", opt_int (LocalAudit.chain_seq r));
   ("peer_org_id", opt_str (LocalAudit.peer_org_id r)); ("peer_row_hash", JNull);
   ("hash_format", opt_str (LocalAudit.hash_format r))].

(** ** Keyset pagination *)

(** One query per view: the first [size] rows past [last_key]; an empty page
    ends the run. *)
Fixpoint pages {T A} (size : nat) (key : A → Z) (select : Z → T → list A) (last_key : Z)
    (views : list T) : option (list A) :=
  match views with
  | [] => None
  | t :: views' =>
      match take size (select last_key t) with
      | [] => Some []
      | r :: rs => app (r :: rs) <$> pages size key select (key (List.last rs r)) views'
      end
  end.

Abbreviation table := (list (Z * audit_row)).

Definition row_seq (x : Z * audit_row) : Z := seq_of (snd x).

(** [chain_seq IS NULL AND id > :last ORDER BY id] *)
Definition select_unchained (last_id : Z) (t : table) : table :=
  order_by fst (List.filter (λ x, negb (chained (snd x)) && (last_id <? fst x)) t).

(** [chain_seq > :last [AND chain_seq <= :upper] ORDER BY chain_seq] *)
Definition select_chained_after (until_seq : option Z) (last_seq : Z) (t : table) : table :=
  order_by row_seq (List.filter
    (λ x, chained (snd x) && (last_seq <? row_seq x) &&
          match until_seq with Some u => row_seq x <=? u | None => true end) t).

Definition _iter_audit_log (since_seq until_seq : option Z) (unchained_views views : list table)
    : option table :=
  unchained ← match since_seq, until_seq with
              | None, None => pages _BATCH_SIZE fst select_unchained 0 unchained_views
              | _, _ => Some []
              end;
  let last_seq := match since_seq with Some s => s - 1 | None => 0 end in
  rows ← pages _BATCH_SIZE row_seq (select_chained_after until_seq) last_seq views;
  Some (unchained ++ rows).

(** [if org_id:] an empty text is no filter. *)
Definition select_local (org_id : option string) (since_seq until_seq : option Z) (last_id : Z)
    (t : list LocalAudit.local_row) : list LocalAudit.local_row :=
  order_by LocalAudit.id (List.filter
    (λ r, (last_id <? LocalAudit.id r) &&
          (if truthy org_id then bool_decide (LocalAudit.org_id r = org_id) else true) &&
          match since_seq with
          | Some lo => match LocalAudit.chain_seq r with Some q => lo <=? q | None => false end
          | None => true
          end &&
          match until_seq with
          | Some hi => match LocalAudit.chain_seq r with Some q => q <=? hi | None => false end
          | None => true
          end) t).

Definition _iter_local_audit (org_id : option string) (since_seq until_seq : option Z)
    (views : list (list LocalAudit.local_row)) : option (list LocalAudit.local_row) :=
  pages _BATCH_SIZE LocalAudit.id (select_local org_id since_seq until_seq) 0 views.

(** ** Anchors *)

(** [base64.b64encode]: the standard alphabet, padded. *)
Definition std_char (c : ascii) : ascii :=
  if bool_decide (c = "-"%char) then "+"%char else if bool_decide (c = "_"%char) then "/"%char else c.

Fixpoint map_str (f : ascii → ascii) (s : string) : string :=
  match s with EmptyString => "" | String c s' => String (f c) (map_str f s') end.

Definition b64encode (b : string) : string :=
  let s := map_str std_char (encode b) in
  s +:+ match (String.length s mod 4)%nat with 2%nat => "==" | 3%nat => "=" | _ => "" end.

Record chain_anchor := {
  anchored_at : string; ca_org_id : string; ca_chain_seq : Z; ca_row_hash : string;
  ca_tsa_url : option string; ca_tsa_token : option string;
}.

Record merkle_anchor := { ma_created_at : string; ma_anchor : anchor }.

Definition token_json (token : option string) : json := opt_str (b64encode <$> token).

Definition anchor_line (a : chain_anchor) : entry :=
  [("kind", JStr "anchor"); ("chain", JStr "audit_log"); ("anchored_at", JStr (anchored_at a));
   ("org_id", JStr (ca_org_id a)); ("chain_seq", JInt (ca_chain_seq a));
   ("row_hash", JStr (ca_row_hash a)); ("tsa_url", opt_str (ca_tsa_url a));
   ("tsa_token_b64", token_json (ca_tsa_token a))].

Definition merkle_line (m : merkle_anchor) : entry :=
  let a := ma_anchor m in
  [("kind", JStr "merkle_anchor"); ("chain", JStr "audit_log"); ("anchor_id", JInt (a_id a));
   ("created_at", JStr (ma_created_at m)); ("org_id", JStr (a_org a));
   ("chain_seq_start", JInt (chain_seq_start a)); ("chain_seq_end", JInt (chain_seq_end a));
   ("leaf_count", JInt (leaf_count a)); ("merkle_root", JStr (merkle_root a));
   ("tsa_url", opt_str (fst <$> tsa a)); ("tsa_token_b64", token_json (snd <$> tsa a))].

Definition at_least (lo : option Z) (z : Z) : bool :=
  match lo with Some l => l <=? z | None => true end.
Definition at_most (hi : option Z) (z : Z) : bool :=
  match hi with Some h => z <=? h | None => true end.

Definition _iter_anchors (since_seq until_seq : option Z) (anchors : list chain_anchor)
    (merkle : list merkle_anchor) : list entry :=
  map anchor_line (order_by ca_chain_seq (List.filter
    (λ a, at_least since_seq (ca_chain_seq a) && at_most until_seq (ca_chain_seq a)) anchors)) ++
  map merkle_line (order_by (λ m, chain_seq_start (ma_anchor m)) (List.filter
    (λ m, at_least since_seq (chain_seq_end (ma_anchor m)) &&
          at_most until_seq (chain_seq_start (ma_anchor m))) merkle)).

(** ** [export_audit] *)

Inductive chain_choice := ChainAuditLog | ChainLocalAudit | ChainBoth.

#[export] Instance chain_choice_eq_dec : EqDecision chain_choice.
Proof. solve_decision. Defined.

Record export_query := {
  q_chain : chain_choice; q_org_id : option string;
  q_since_seq : option Z; q_until_seq : option Z; q_include_anchors : bool;
}.

(** What the queries of one request meet. *)
Record export_views := {
  v_unchained : list table; v_chained : list table;
  v_local : list (list LocalAudit.local_row);
  v_anchors : list chain_anchor; v_merkle : list merkle_anchor;
}.

Definition export_audit (repr_float : Q → string) (q : export_query) (v : export_views)
    : outcome (option (list entry)) :=
  if truthy (q_org_id q) && bool_decide (q_chain q = ChainAuditLog)
  then Raise (HTTPException 400 "org_id only filters the per-org local_audit chain") else
  if match q_since_seq q, q_until_seq q with Some s, Some u => u <? s | _, _ => false end
  then Raise (HTTPException 400 "since_seq must be <= until_seq") else
  Ret (
    audit ← (if bool_decide (q_chain q ≠ ChainLocalAudit)
             then map (audit_entry repr_float) <$>
                    _iter_audit_log (q_since_seq q) (q_until_seq q) (v_unchained v) (v_chained v)
             else Some []);
    local ← (if bool_decide (q_chain q ≠ ChainAuditLog)
             then map local_audit_entry <$>
                    _iter_local_audit (q_org_id q) (q_since_seq q) (q_until_seq q) (v_local v)
             else Some []);
    Some (audit ++ local ++
          (if q_include_anchors q && bool_decide (q_chain q ≠ ChainLocalAudit)
           then _iter_anchors (q_since_seq q) (q_until_seq q) (v_anchors v) (v_merkle v)
           else []))).

(** ** [load_bundle] *)

Definition of_kind (kind : string) (e : entry) : bool :=
  is_str kind (default (JStr "entry") (get "kind" e)).

(** The counts of the skipped kinds are only printed. *)
Definition load_bundle (lines : list entry) : list entry * list entry :=
  (List.filter (of_kind "entry") lines, List.filter (of_kind "anchor") lines).

(** ** Pages of a numbered table *)

Lemma filter_past {A} (f : A → Z) s l n :
  numbered f s l → (n ≤ length l)%nat →
  List.filter (λ x, s + Z.of_nat n - 1 <? f x) l = drop n l.
Proof.
  intros Hn Hl. rewrite <- (take_drop n l) at 1. rewrite List.filter_app.
  pose proof (numbered_take f s l n Hn) as Ht. pose proof (numbered_drop f s l n Hl Hn) as Hd.
  rewrite filter_nil, filter_id; [done| |].
  - apply Forall_forall. intros x Hx. pose proof (numbered_bound _ _ _ _ Hd Hx). apply Z.ltb_lt. lia.
  - apply Forall_forall. intros x Hx. pose proof (numbered_bound _ _ _ _ Ht Hx).
    rewrite length_take_le in H by done. apply Z.ltb_ge. lia.
Qed.

Lemma numbered_nodup {A} (f : A → Z) s l : numbered f s l → NoDup (f <$> l).
Proof.
  revert s. induction l as [|x l IH]; intros s; [constructor|]. intros [Hx Hl]. rewrite fmap_cons.
  apply NoDup_cons. split; [|by eapply IH]. intros Hin. apply list_elem_of_fmap in Hin as (y & Hy & Hin).
  pose proof (numbered_bound _ _ _ _ Hl Hin). lia.
Qed.

(** The elements past [last], up to [upper]. *)
Definition window {A} (f : A → Z) (last : Z) (upper : option Z) (l : list A) : list A :=
  List.filter (λ x, (last <? f x) && at_most upper (f x)) l.

Lemma window_slice {A} (f : A → Z) s l last upper :
  numbered f s l → s <= last + 1 →
  ∃ w, window f last upper l = take w (drop (Z.to_nat (last + 1 - s)) l).
Proof.
  intros Hn Hs. set (u := match upper with Some u => u | None => s + Z.of_nat (length l) end).
  exists (Z.to_nat (u - (last + 1) + 1)). rewrite <- (numbered_range f s l (last + 1) u) by done.
  apply List.filter_ext_in. intros x Hx%list_elem_of_In.
  pose proof (numbered_bound _ _ _ _ Hn Hx). f_equal.
  - destruct (Z.ltb_spec last (f x)), (Z.leb_spec (last + 1) (f x)); lia || done.
  - unfold u. destruct upper; simpl; [done|]. symmetry. apply Z.leb_le. lia.
Qed.

Lemma window_numbered {A} (f : A → Z) s l last upper :
  numbered f s l → s <= last + 1 → numbered f (last + 1) (window f last upper l).
Proof.
  intros Hn Hs. destruct (window_slice f s l last upper Hn Hs) as [w ->].
  destruct (decide (Z.to_nat (last + 1 - s) ≤ length l)%nat) as [Hl|Hl].
  - apply numbered_take. pose proof (numbered_drop f s l _ Hl Hn) as Hd.
    by replace (s + Z.of_nat (Z.to_nat (last + 1 - s))) with (last + 1) in Hd by lia.
  - by rewrite drop_ge, take_nil by lia.
Qed.

Lemma window_past {A} (f : A → Z) last last' upper l :
  last <= last' →
  window f last' upper l = List.filter (λ x, last' <? f x) (window f last upper l).
Proof.
  intros Hl. unfold window. rewrite <- filter_andb. apply List.filter_ext. intros x.
  destruct (Z.ltb_spec last' (f x)), (Z.ltb_spec last (f x)); simpl; try lia;
    by rewrite ?andb_true_r, ?andb_false_r.
Qed.

(** ** A run over a table that stands still ends *)

Lemma strict_past {A} (key : A → Z) l1 x l2 :
  StronglySorted (key_lt key) (l1 ++ x :: l2) → List.filter (λ y, key x <? key y) (l1 ++ x :: l2) = l2.
Proof.
  intros Hs. rewrite List.filter_app. simpl. rewrite Z.ltb_irrefl. rewrite filter_nil, filter_id.
  - done.
  - apply StronglySorted_app_1_r in Hs.
    apply StronglySorted_inv in Hs as [_ Hx]. eapply Forall_impl; [exact Hx|]. intros y. apply Z.ltb_lt.
  - apply Forall_forall. intros y Hy. apply Z.ltb_ge.
    assert (key_lt key y x) as Hlt; [|unfold key_lt in Hlt; lia].
    eapply StronglySorted_app_1_elem_of; [exact Hs|done|left].
Qed.

Lemma strict_suffix {A} (key : A → Z) l last :
  StronglySorted (key_lt key) l → ∃ pre, l = pre ++ List.filter (λ y, last <? key y) l.
Proof.
  induction 1 as [|x l Hl [pre IH] Hx]; [by exists []|]. simpl. destruct (Z.ltb_spec last (key x)) as [Hlt|Hge].
  - exists []. simpl. f_equal. symmetry. apply filter_id. eapply Forall_impl; [exact Hx|].
    unfold key_lt. intros y Hy. apply Z.ltb_lt. lia.
  - exists (x :: pre). simpl. by f_equal.
Qed.

Lemma strict_of_nodup {A} (key : A → Z) l :
  StronglySorted (key_le key) l → NoDup (key <$> l) → StronglySorted (key_lt key) l.
Proof.
  induction 1 as [|x l Hl IH Hx]; [constructor|]. rewrite fmap_cons. intros [Hn Hd]%NoDup_cons.
  constructor; [by apply IH|]. rewrite Forall_forall in *. intros y Hy. specialize (Hx y Hy).
  unfold key_le, key_lt in *. assert (key x ≠ key y); [|lia].
  intros Heq. apply Hn. rewrite Heq. by apply list_elem_of_fmap_2.
Qed.

Lemma nodup_filter_keys {A} (key : A → Z) (f : A → bool) l :
  NoDup (key <$> l) → NoDup (key <$> List.filter f l).
Proof.
  induction l as [|x l IH]; [done|]. rewrite fmap_cons. intros [Hn Hd]%NoDup_cons. simpl.
  destruct (f x); [|by apply IH]. rewrite fmap_cons. apply NoDup_cons. split; [|by apply IH].
  intros Hin. apply Hn. apply list_elem_of_fmap in Hin as (y & -> & Hy).
  apply elem_of_filter_bool in Hy as [Hy _]. by apply list_elem_of_fmap_2.
Qed.

(** [WHERE f AND key > :last ORDER BY key] over distinct keys. *)
Lemma keyset_select {A} (key : A → Z) (f : A → bool) t last :
  NoDup (key <$> List.filter f t) →
  let l := order_by key (List.filter f t) in
  StronglySorted (key_lt key) l ∧
  order_by key (List.filter (λ x, f x && (last <? key x)) t) = List.filter (λ x, last <? key x) l.
Proof.
  intros Hd l. assert (StronglySorted (key_lt key) l) as Hl.
  { apply strict_of_nodup; [apply order_by_sorted|]. unfold l. by rewrite order_by_perm. }
  split; [done|]. apply order_by_strict; [by apply StronglySorted_filter_bool|].
  rewrite filter_andb. apply filter_perm. unfold l. by rewrite order_by_perm.
Qed.

Lemma pages_cons {T A} size (key : A → Z) (select : Z → T → list A) last t views :
  pages size key select last (t :: views)
  = match take size (select last t) with
    | [] => Some []
    | r :: rs => app (r :: rs) <$> pages size key select (key (List.last rs r)) views
    end.
Proof. done. Qed.

(** A keyset query over distinct keys: the rows of a fixed strictly sorted list
    past the last key.  A run that may ask one query more than there are rows
    returns them all. *)
Lemma pages_complete {T A} size (key : A → Z) (select : Z → T → list A) t l :
  (0 < size)%nat → StronglySorted (key_lt key) l →
  (∀ last, select last t = List.filter (λ x, last <? key x) l) →
  ∀ n last, (length (select last t) ≤ n)%nat →
    pages size key select last (replicate (S n) t) = Some (select last t).
Proof.
  intros Hsize Hl Hsel n. induction n as [|n IH]; intros last Hlen.
  - cbn [replicate pages]. destruct (select last t) as [|r rs]; [by rewrite take_nil|simpl in Hlen; lia].
  - rewrite (replicate_S (S n)), pages_cons.
    destruct (take size (select last t)) as [|r rs] eqn:Hpage.
    { destruct (select last t); [done|]. by destruct size; [lia|]. }
    assert (select (key (List.last rs r)) t = drop size (select last t)) as Hrest.
    { rewrite (Hsel (key _)). destruct (strict_suffix key l last Hl) as [pre Hpre].
      rewrite <- Hsel in Hpre. rewrite <- (take_drop size (select last t)), Hpage in Hpre.
      destruct (@exists_last _ (r :: rs)) as (front & x & Hx); [done|].
      assert (List.last rs r = x) as ->.
      { transitivity (List.last (r :: rs) r); [by destruct rs|]. rewrite Hx. apply List.last_last. }
      rewrite Hx, <- app_assoc, app_assoc in Hpre. simpl in Hpre. rewrite Hpre at 1.
      apply strict_past. by rewrite <- Hpre. }
    pose proof (f_equal length Hpage) as Hp. rewrite length_take in Hp. simpl in Hp.
    rewrite IH, Hrest.
    + rewrite <- Hpage. by rewrite fmap_Some_2 with (x := drop size (select last t)), take_drop.
    + rewrite Hrest, length_drop. lia.
Qed.

Lemma keyset_completes {T A} size (key : A → Z) (select : Z → T → list A) (rows_of : T → list A)
    (f : A → bool) t n last :
  (0 < size)%nat → NoDup (key <$> List.filter f (rows_of t)) → (length (rows_of t) < n)%nat →
  (∀ last, select last t = order_by key (List.filter (λ x, f x && (last <? key x)) (rows_of t))) →
  is_Some (pages size key select last (replicate n t)).
Proof.
  intros Hsize Hd Hlen Hsel. destruct n as [|n]; [lia|].
  destruct (keyset_select key f (rows_of t) last Hd) as [Hl _].
  exists (select last t). eapply (pages_complete size key select t _ Hsize Hl).
  - intros k. rewrite Hsel. by apply keyset_select.
  - rewrite Hsel, order_by_perm. etrans; [apply List.filter_length_le|]. lia.
Qed.

(** ** Pages of the chain, while it grows *)

Section ExportLemmas.
Context `{Hash}.

Definition chained_table (t : table) : table := List.filter (λ x, chained (snd x)) t.

Lemma chained_table_rows t : snd <$> chained_table t = chained_rows (snd <$> t).
Proof.
  unfold chained_table, chained_rows. induction t as [|x t IH]; [done|].
  rewrite fmap_cons. cbn [List.filter]. destruct (chained (snd x)); [|done].
  by rewrite fmap_cons, IH.
Qed.

Lemma numbered_fmap {A B} (g : A → B) (f : B → Z) s l :
  numbered f s (g <$> l) ↔ numbered (f ∘ g) s l.
Proof. revert s. induction l as [|x l IH]; intros s; [done|]. rewrite fmap_cons. simpl. by rewrite IH. Qed.

Lemma chained_table_numbered t : chain_ok (snd <$> t) → numbered row_seq 1 (chained_table t).
Proof.
  intros Hok. apply (numbered_fmap snd seq_of). rewrite chained_table_rows. by eapply chain_numbered.
Qed.

Lemma select_window upper last t :
  chain_ok (snd <$> t) → 0 <= last →
  select_chained_after upper last t = window row_seq last upper (chained_table t).
Proof.
  intros Hok Hl. unfold select_chained_after.
  assert (List.filter (λ x, chained (snd x) && (last <? row_seq x) &&
            match upper with Some u => row_seq x <=? u | None => true end) t
          = window row_seq last upper (chained_table t)) as ->.
  { unfold window, chained_table. rewrite <- filter_andb. apply List.filter_ext. intros x.
    by rewrite andb_assoc. }
  apply order_by_strict; [|done]. eapply numbered_strict, window_numbered; [|done..|].
  - by apply chained_table_numbered.
  - lia.
Qed.

(** Each view extends the one before it. *)
Fixpoint growing (t : table) (views : list table) : Prop :=
  match views with [] => True | t' :: views' => t `prefix_of` t' ∧ growing t' views' end.

Lemma window_grows t t' last upper :
  t `prefix_of` t' →
  window row_seq last upper (chained_table t) `prefix_of` window row_seq last upper (chained_table t').
Proof.
  intros [more ->]. unfold window, chained_table. rewrite !List.filter_app. by eexists.
Qed.

Lemma last_numbered {A} (f : A → Z) s x l :
  numbered f s (x :: l) → f (List.last l x) = s + Z.of_nat (length l).
Proof.
  destruct l as [|y l _] using rev_ind; [intros [Hx _]; simpl; lia|].
  rewrite List.last_last, length_app. intros [_ [_ [-> _]]%numbered_app]. simpl. lia.
Qed.

(** The pages of a growing chain are the window of the last view. *)
Lemma pages_window size upper views t0 last rows :
  (0 < size)%nat → 0 <= last → growing t0 views → Forall (λ t, chain_ok (snd <$> t)) views →
  pages size row_seq (select_chained_after upper) last views = Some rows →
  ∃ final, final ∈ views ∧ t0 `prefix_of` final ∧ rows = window row_seq last upper (chained_table final).
Proof.
  intros Hsize. revert t0 last rows. induction views as [|t views IH]; intros t0 last rows Hlast Hg Hok; [done|].
  destruct Hg as [Hpre Hg]. apply Forall_cons in Hok as [Ht Hok]. cbn [pages].
  rewrite select_window by done. set (w := window row_seq last upper (chained_table t)).
  destruct (take size w) as [|r rs] eqn:Hpage.
  - intros [= <-]. exists t. split_and!; [left|done|]. fold w. destruct w; [done|]. by destruct size; [lia|].
  - intros (rows' & Hrows & ->)%fmap_Some.
    pose proof (chained_table_numbered t Ht) as Hn.
    assert (numbered row_seq (last + 1) (r :: rs)) as Hnp.
    { rewrite <- Hpage. apply numbered_take. eapply window_numbered; [done|lia]. }
    pose proof (last_numbered row_seq _ _ _ Hnp) as Hlst.
    destruct (IH t (row_seq (List.last rs r)) rows') as (final & Hin & Hpref & ->); [lia|done..|].
    exists final. split_and!; [by right|by etrans|].
    pose proof (window_grows t final last upper Hpref) as [more Hmore]. fold w in Hmore.
    rewrite (window_past row_seq last) by lia.
    assert (window row_seq last upper (chained_table final) = (r :: rs) ++ drop size w ++ more) as Hw.
    { rewrite Hmore, <- Hpage, app_assoc. f_equal. symmetry. apply take_drop. }
    assert (numbered row_seq (last + 1) (window row_seq last upper (chained_table final))) as Hnf.
    { apply (window_numbered row_seq 1); [|lia]. apply chained_table_numbered.
      rewrite Forall_forall in Hok. by apply Hok. }
    rewrite Hw at 2. f_equal.
    replace (row_seq (List.last rs r)) with (last + 1 + Z.of_nat (length (r :: rs)) - 1) by (simpl length; lia).
    rewrite (filter_past row_seq (last + 1)); [|done|rewrite Hw, length_app; lia].
    by rewrite Hw, drop_app_length.
Qed.
(** [since_seq = 0] asks for the rows from 1, as no bound does. *)
Lemma select_from_zero upper t :
  chain_ok (snd <$> t) → select_chained_after upper (-1) t = select_chained_after upper 0 t.
Proof.
  intros Hok. unfold select_chained_after. f_equal.
  replace (List.filter _ t) with (window row_seq (-1) upper (chained_table t)).
  2: { unfold window, chained_table. rewrite <- filter_andb. apply List.filter_ext. intros x.
       by rewrite andb_assoc. }
  transitivity (window row_seq 0 upper (chained_table t)).
  - unfold window. apply List.filter_ext_in. intros x Hx%list_elem_of_In.
    pose proof (numbered_bound _ _ _ _ (chained_table_numbered t Hok) Hx).
    by rewrite !(proj2 (Z.ltb_lt _ (row_seq x))) by lia.
  - unfold window, chained_table. rewrite <- filter_andb. apply List.filter_ext. intros x.
    by rewrite andb_assoc.
Qed.

Lemma pages_forall {T A} (P : A → Prop) size key (select : Z → T → list A) last views rows :
  (∀ l t, Forall P (select l t)) → pages size key select last views = Some rows → Forall P rows.
Proof.
  intros Hs. revert last rows. induction views as [|t views IH]; intros last rows; [done|]. cbn [pages].
  pose proof (Forall_take P size _ (Hs last t)) as Hp.
  destruct (take size (select last t)) as [|r rs]; [by intros [= <-]|].
  intros (rows' & Hrows & ->)%fmap_Some. apply Forall_app. split; [done|by eapply IH].
Qed.

Lemma unchained_pages size last views rows :
  pages size fst select_unchained last views = Some rows → Forall (λ x, chained (snd x) = false) rows.
Proof.
  apply pages_forall. intros l t. unfold select_unchained. rewrite order_by_perm.
  apply Forall_forall. intros x (_ & Hx)%elem_of_filter_bool. by bools.
Qed.

(** ** An exported row is the row the verifier reads *)

Context (repr_float : Q → string).

Definition exported (x : Z * audit_row) : Z * entry := (row_seq x, audit_entry repr_float x).

Lemma opt_field o : str_of (py_or (opt_str o) (JStr "")) = or_empty o.
Proof. destruct o as [s|]; [|done]. unfold py_or. simpl. by case_bool_decide; subst. Qed.

Lemma exported_text i r q prev :
  chain_seq r = Some q →
  canonical_audit_log (audit_entry repr_float (i, r)) prev
  = Ret (canonical_audit_row q (payload r) prev (hash_format r)).
Proof.
  intros Hq. unfold canonical_audit_log, canonical_audit_row, field, is_v2. simpl.
  unfold get_none. simpl. rewrite Hq, !opt_field. simpl.
  destruct (hash_format r) as [f|]; simpl.
  - case_bool_decide as Hf; [subst; by rewrite bool_decide_eq_true_2|].
    rewrite bool_decide_eq_false_2; [done|congruence].
  - done.
Qed.

(** Links of a chain are texts other than the empty one and [None]'s. *)
Definition proper_link (p : string) : Prop := p ≠ "" ∧ p ≠ "None".

Lemma hexdigest_proper m : proper_link (hexdigest m).
Proof.
  assert (String.length (hexdigest m) = 64%nat) as Hl.
  { unfold hexdigest. rewrite to_hex_length, digest_length. done. }
  split; intros He; by rewrite He in Hl.
Qed.

Lemma exported_chain s p l :
  chain_from s p (snd <$> l) → proper_link p →
  linked row_text row_link row_stored (Some p) (map exported l) ∧
  Forall complete (map exported l) ∧ numbered fst s (map exported l).
Proof.
  revert s p. induction l as [|[i r] l IH]; intros s p; [intros _ _; split_and!; try done; constructor|].
  rewrite fmap_cons. simpl snd. inversion_clear 1 as [|???? Hs Hp Hh Hrest]. intros [Hne Hnn].
  unfold compute_audit_row_hash in Hh.
  assert (prev_hash r = Some p) as Hlink.
  { destruct (prev_hash r) as [h|]; simpl in Hp; [by subst|by destruct Hnn]. }
  assert (row_hash r = Some (hexdigest (canonical_audit_row s (payload r) p (hash_format r)))) as Hhash.
  { destruct (row_hash r) as [h|] eqn:Hr; simpl in Hh; [by rewrite Hh|].
    by apply hexdigest_proper in Hh. }
  assert (hashed_text (audit_entry repr_float (i, r))
          = Ret (canonical_audit_row s (payload r) p (hash_format r))) as Htext.
  { unfold hashed_text. rewrite (exported_text i r s) by done. unfold get_none. simpl. rewrite Hlink.
    unfold py_or. simpl. by rewrite bool_decide_eq_false_2. }
  rewrite Hhash in Hrest. destruct (IH _ _ Hrest (hexdigest_proper _)) as (Hc & Hf & Hn).
  simpl map. split_and!.
  - constructor.
    + unfold row_link, exported, get_none. simpl. by rewrite Hlink.
    + unfold row_stored, row_text, exported, get_none. cbn [snd]. rewrite Htext. simpl. by rewrite Hhash.
    + unfold row_stored at 1, exported at 1, get_none. simpl. by rewrite Hhash.
  - constructor; [|done]. unfold complete, exported. cbn [snd]. by rewrite Htext.
  - split; [|done]. unfold exported, row_seq, seq_of. simpl. by rewrite Hs.
Qed.
Lemma positioned_chained l :
  Forall (λ x, chained (snd x) = true) l →
  positioned (map (audit_entry repr_float) l) = Ret (map exported l, 0).
Proof.
  induction 1 as [|[i r] l Hx _ IH]; [done|]. simpl in Hx. cbn [map positioned].
  unfold chained in Hx. destruct (chain_seq r) as [q|] eqn:Hq; [|done].
  unfold get_none. simpl. rewrite Hq. simpl. rewrite IH. cbn [obind].
  unfold exported at 2, row_seq, seq_of. simpl. by rewrite Hq.
Qed.

Lemma positioned_unchained u l rows n :
  Forall (λ x, chained (snd x) = false) u → positioned l = Ret (rows, n) →
  positioned (map (audit_entry repr_float) u ++ l) = Ret (rows, Z.of_nat (length u) + n).
Proof.
  intros Hu Hl. induction Hu as [|[i r] u Hx _ IH]; [done|]. simpl in Hx.
  cbn [map app positioned]. unfold chained in Hx. destruct (chain_seq r) as [q|] eqn:Hq; [done|].
  unfold get_none at 1. simpl get. rewrite Hq. simpl. rewrite IH. cbn [obind]. do 2 f_equal. lia.
Qed.

(** The window of a well-formed table is a chain from its first position. *)
Lemma window_chain last upper t :
  chain_ok (snd <$> t) → 0 <= last →
  ∃ p, chain_from (last + 1) p (snd <$> window row_seq last upper (chained_table t)) ∧
    proper_link p ∧ (last = 0 → p = "genesis").
Proof.
  intros Hok Hl. pose proof (chained_table_numbered t Hok) as Hn.
  destruct (window_slice row_seq 1 (chained_table t) last upper Hn) as [w ->]; [lia|].
  replace (last + 1 - 1) with last by lia. unfold chain_ok in Hok. rewrite <- chained_table_rows in Hok.
  destruct (decide (Z.to_nat last ≤ length (chained_table t))%nat) as [Hle|Hle].
  2: { rewrite drop_ge, take_nil by lia. exists "genesis". split; [constructor|done]. }
  rewrite fmap_take, fmap_drop.
  rewrite <- (take_drop (Z.to_nat last) (snd <$> chained_table t)) in Hok.
  apply chain_from_app in Hok as [Hpre Hsuf]. rewrite length_take, length_fmap in Hsuf.
  replace (1 + Z.of_nat (Z.to_nat last `min` length (chained_table t))) with (last + 1) in Hsuf by lia.
  eexists. split; [by apply chain_from_take|]. split.
  - destruct (take (Z.to_nat last) (snd <$> chained_table t)) as [|r l _] using rev_ind; [done|].
    apply chain_hashes in Hpre. apply Forall_app in Hpre as [_ Hr].
    apply Forall_cons in Hr as [[m Hm] _]. unfold last_hash. rewrite foldl_app. simpl. rewrite Hm.
    apply hexdigest_proper.
  - by intros ->.
Qed.

(** Chained rows from position [s] on are accepted. *)
Lemma exported_accepted s p u l :
  Forall (λ x, chained (snd x) = false) u → Forall (λ x, chained (snd x) = true) l →
  chain_from s p (snd <$> l) → proper_link p → (s = 1 → p = "genesis") →
  verify_audit_log_chain (map (audit_entry repr_float) (u ++ l))
  = Ret (Z.of_nat (length l), Z.of_nat (length u),
         match l with [] => None | _ => if s =? 1 then None else Some s end).
Proof.
  intros Hu Hl Hc Hp Hs. unfold verify_audit_log_chain. rewrite map_app.
  rewrite (positioned_unchained u _ _ _ Hu (positioned_chained l Hl)). cbn [obind].
  destruct (exported_chain s p l Hc Hp) as (Hlink & Hcomplete & Hn).
  rewrite (sort_by_numbered s (map exported l)) by done. rewrite Z.add_0_r.
  destruct l as [|x l]; [done|].
  assert (row_seq x = s) as <- by (by destruct Hn).
  assert (get_none "prev_hash" (audit_entry repr_float x) = JStr p) as Hprev.
  { inversion Hlink as [|??? Hfirst _ _]; subst. unfold row_link, exported in Hfirst. simpl in Hfirst.
    destruct (get_none "prev_hash" _); try done. simpl in Hfirst. congruence. }
  change (map exported (x :: l)) with ((row_seq x, audit_entry repr_float x) :: map exported l) in *.
  rewrite (walk_first _ _ _ _ p Hprev Hs).
  rewrite (proj2 (audit_walk_linked _ p (row_seq x - 1) 0 (Z.of_nat (length (x :: l))))).
  - done.
  - rewrite Z.sub_add. split_and!; [|done..]. simpl length. by rewrite length_map.
Qed.
End ExportLemmas.

(** ** Properties *)

Section ExportProperties.
Context `{Hash} (repr_float : Q → string).

(** [detect_chain] and [load_bundle] read the tags the export writes. *)
Lemma load_export audit local anchors :
  Forall (λ e, get "kind" e = Some (JStr "entry") ∧ get "chain" e = Some (JStr "audit_log")) audit →
  Forall (λ e, get "kind" e = Some (JStr "entry") ∧ get "chain" e = Some (JStr "local_audit")) local →
  Forall (λ e, ∃ k, get "kind" e = Some (JStr k) ∧ k ≠ "entry") anchors →
  split_entries_by_chain (load_bundle (audit ++ local ++ anchors)).1 "auto" = Ret (audit, local).
Proof.
  intros Ha Hl Hn. unfold load_bundle. cbn [fst]. rewrite !List.filter_app.
  rewrite (filter_nil _ anchors), app_nil_r, !filter_id.
  - induction Ha as [|e audit [_ He] _ IH].
    + simpl. induction Hl as [|e local [_ He] _ IH]; [done|].
      cbn [split_entries_by_chain]. unfold detect_chain, get_none. rewrite He. simpl. by rewrite IH.
    + cbn [app split_entries_by_chain]. unfold detect_chain, get_none. rewrite He. simpl. by rewrite IH.
  - eapply Forall_impl; [exact Hl|]. intros e [He _]. unfold of_kind. by rewrite He.
  - eapply Forall_impl; [exact Ha|]. intros e [He _]. unfold of_kind. by rewrite He.
  - eapply Forall_impl; [exact Hn|]. intros e (k & He & Hk). unfold of_kind. rewrite He. simpl.
    by apply bool_decide_eq_false_2.
Qed.

Lemma anchor_kinds since until anchors merkle :
  Forall (λ e, ∃ k, get "kind" e = Some (JStr k) ∧ k ≠ "entry") (_iter_anchors since until anchors merkle).
Proof.
  unfold _iter_anchors. apply Forall_app. split; apply Forall_forall; intros e He;
    apply list_elem_of_In, in_map_iff in He as (x & <- & _); simpl; eauto.
Qed.

Lemma audit_kinds l :
  Forall (λ e, get "kind" e = Some (JStr "entry") ∧ get "chain" e = Some (JStr "audit_log"))
    (map (audit_entry repr_float) l).
Proof. apply Forall_forall. intros e He. by apply list_elem_of_In, in_map_iff in He as ([i r] & <- & _). Qed.

Lemma local_kinds l :
  Forall (λ e, get "kind" e = Some (JStr "entry") ∧ get "chain" e = Some (JStr "local_audit"))
    (map local_audit_entry l).
Proof. apply Forall_forall. intros e He. by apply list_elem_of_In, in_map_iff in He as (r & <- & _). Qed.

Lemma iter_audit_log_window since until uv views rows :
  growing [] views → Forall (λ t, chain_ok (snd <$> t)) views →
  match since with Some s => 0 <= s | None => True end →
  _iter_audit_log since until uv views = Some rows →
  ∃ u final, final ∈ views ∧ Forall (λ x, chained (snd x) = false) u ∧
    rows = u ++ window row_seq (Z.max 1 (default 1 since) - 1) until (chained_table final).
Proof.
  intros Hg Hok Hs Hit. unfold _iter_audit_log in Hit.
  apply bind_Some in Hit as (u & Hu & Hit). apply bind_Some in Hit as (w & Hw & [= <-]).
  assert (Forall (λ x, chained (snd x) = false) u) as Hun.
  { destruct since, until; try (injection Hu as <-; constructor). by eapply unchained_pages. }
  assert (pages _BATCH_SIZE row_seq (select_chained_after until) (Z.max 1 (default 1 since) - 1) views
          = Some w) as Hp.
  { rewrite <- Hw. destruct since as [s|]; [|done]. simpl.
    destruct (decide (s = 0)) as [->|]; [|by replace (Z.max 1 s) with s by lia].
    destruct views as [|t views]; [done|]. apply Forall_cons in Hok as [Ht _].
    rewrite !pages_cons. by rewrite select_from_zero. }
  destruct (pages_window _BATCH_SIZE until views [] (Z.max 1 (default 1 since) - 1) w)
    as (final & Hin & _ & ->); [unfold _BATCH_SIZE; lia|destruct since; simpl; lia|done..|].
  by exists u, final.
Qed.

(** C36: the [audit_log] part of what the endpoint exports, the offline verifier
    accepts.  While the writers only append between the queries of an export
    that includes the primary chain ([audit_log] or both) and whose [since_seq],
    if given, is not negative, every bundle it completes is split by the
    verifier, and the rows of the primary chain in it pass the verifier's walk:
    they are exactly the requested window of the chain as one of the queries saw
    it, all of them are verified, and the verdict names the first position
    exactly when the window starts past the genesis and is not empty.  Of the
    [local_audit] part and of the anchors of a bundle this says nothing: a
    window of [local_audit] that starts past the genesis is rejected, as the
    docstring of the endpoint says. *)
Theorem export_accepted (q : export_query) (v : export_views) (lines : list entry) :
  growing [] (v_chained v) → Forall (λ t, chain_ok (snd <$> t)) (v_chained v) →
  q_chain q ≠ ChainLocalAudit →
  match q_since_seq q with Some s => 0 <= s | None => True end →
  export_audit repr_float q v = Ret (Some lines) →
  let from := Z.max 1 (default 1 (q_since_seq q)) in
  ∃ final audit local skipped, final ∈ v_chained v ∧
    split_entries_by_chain (load_bundle lines).1 "auto" = Ret (audit, local) ∧
    let rows := window row_seq (from - 1) (q_until_seq q) (chained_table final) in
    verify_audit_log_chain audit
    = Ret (Z.of_nat (length rows), skipped,
           match rows with [] => None | _ => if from =? 1 then None else Some from end).
Proof.
  intros Hg Hok Hch Hs He from. unfold export_audit in He.
  destruct (truthy (q_org_id q) && _); [done|].
  destruct (match q_since_seq q, q_until_seq q with Some s, Some u => u <? s | _, _ => false end); [done|].
  assert (∀ a b : option (list entry), Ret a = Ret b → a = b) as Hinj by congruence. apply Hinj in He.
  rewrite (bool_decide_eq_true_2 (q_chain q ≠ ChainLocalAudit)) in He by done.
  apply bind_Some in He as (audit & Ha & He). apply fmap_Some in Ha as (rows & Hrows & ->).
  apply bind_Some in He as (local & Hl & [= <-]).
  destruct (iter_audit_log_window _ _ _ _ _ Hg Hok Hs Hrows) as (u & final & Hin & Hu & ->).
  fold from. rewrite Forall_forall in Hok.
  exists final, (map (audit_entry repr_float)
    (u ++ window row_seq (from - 1) (q_until_seq q) (chained_table final))), local, (Z.of_nat (length u)).
  split_and!; [done| |].
  - apply load_export; [apply audit_kinds| |].
    + destruct (bool_decide (q_chain q ≠ ChainAuditLog)); [|injection Hl as <-; constructor].
      apply fmap_Some in Hl as (l & _ & ->). apply local_kinds.
    + destruct (_ && _); [apply anchor_kinds|constructor].
  - destruct (window_chain (from - 1) (q_until_seq q) final (Hok _ Hin)) as (p & Hc & Hp & H1); [lia|].
    rewrite Z.sub_add in Hc. apply (exported_accepted repr_float from p); [done| |done|done|].
    + apply Forall_forall. intros x Hx. unfold window, chained_table in Hx.
      apply elem_of_filter_bool in Hx as [Hx _]. by apply elem_of_filter_bool in Hx as [_ Hx].
    + intros Hf. apply H1. lia.
Qed.

(** an export of a table that stands still ends.  Over distinct primary
    keys, a full export whose queries all meet one table completes as soon as
    it may ask one query more per stream than the table has rows. *)
Theorem export_completes (q : export_query) (v : export_views) (t : table)
    (lt : list LocalAudit.local_row) (n : nat) :
  q_chain q = ChainBoth → q_since_seq q = None → q_until_seq q = None →
  chain_ok (snd <$> t) → NoDup (fst <$> t) → NoDup (LocalAudit.id <$> lt) →
  (length t < n)%nat → (length lt < n)%nat →
  v_unchained v = replicate n t → v_chained v = replicate n t → v_local v = replicate n lt →
  ∃ lines, export_audit repr_float q v = Ret (Some lines).
Proof.
  intros Hch Hs Hu Hok Hids Hlids Hn Hln Hvu Hvc Hvl. unfold export_audit, _iter_audit_log, _iter_local_audit.
  rewrite Hch, Hs, Hu, Hvu, Hvc, Hvl, andb_false_r. cbn [bool_decide decide decide_rel].
  assert (0 < _BATCH_SIZE)%nat as Hsize by (unfold _BATCH_SIZE; lia).
  destruct (keyset_completes _BATCH_SIZE fst select_unchained (λ t, t) (λ x, negb (chained (snd x))) t n 0)
    as [u ->]; [done|by apply nodup_filter_keys|done..|].
  destruct (keyset_completes _BATCH_SIZE row_seq (select_chained_after None) (λ t, t)
              (λ x, chained (snd x)) t n 0) as [c ->]; [done| |done| |].
  { apply (numbered_nodup row_seq 1). by apply chained_table_numbered. }
  { intros k. unfold select_chained_after. f_equal. apply List.filter_ext. intros x. by rewrite andb_true_r. }
  destruct (keyset_completes _BATCH_SIZE LocalAudit.id (select_local (q_org_id q) None None) (λ t, t)
              (λ r, if truthy (q_org_id q) then bool_decide (LocalAudit.org_id r = q_org_id q) else true)
              lt n 0) as [l ->]; [done|by apply nodup_filter_keys|done| |].
  { intros k. unfold select_local. f_equal. apply List.filter_ext. intros x.
    rewrite !andb_true_r. apply andb_comm. }
  eexists. reflexivity.
Qed.
End ExportProperties.

(** ** Witnesses: the three-row chain, exported while its third row commits *)

Module ExportDemo.
Definition rows : table := combine [1; 2; 3] AnchorDemo.table.
Definition query : export_query :=
  {| q_chain := ChainBoth; q_org_id := None; q_since_seq := Some 2; q_until_seq := None;
     q_include_anchors := true |}.
Definition views : export_views :=
  {| v_unchained := []; v_chained := [take 2 rows; rows; rows]; v_local := [[]];
     v_anchors := [{| anchored_at := "2026-06-02T08:00:00+00:00"; ca_org_id := "acme"; ca_chain_seq := 2;
                      ca_row_hash := "aa"; ca_tsa_url := None; ca_tsa_token := Some "MK|" |}];
     v_merkle := map (λ a, {| ma_created_at := "t"; ma_anchor := a |}) AnchorDemo.anchors |}.
End ExportDemo.

Lemma export_accepted_witness :
  ∃ lines audit local, export_audit (λ _, "0.0") ExportDemo.query ExportDemo.views = Ret (Some lines) ∧
    split_entries_by_chain (load_bundle lines).1 "auto" = Ret (audit, local) ∧
    ∃ n k, verify_audit_log_chain audit = Ret (n, k, Some 2).
Proof.
  destruct (export_audit (λ _, "0.0") ExportDemo.query ExportDemo.views) as [[lines|]|] eqn:He;
    [|vm_compute in He; discriminate He..].
  assert (chain_ok (snd <$> ExportDemo.rows)) as Hok by exact AnchorDemo.anchored_table_ok.
  assert (chain_ok (snd <$> take 2 ExportDemo.rows)) as Hok2.
  { apply (chain_from_take 1 _AUDIT_CHAIN_GENESIS _ 2) in Hok. exact Hok. }
  destruct (export_accepted (λ _, "0.0") ExportDemo.query ExportDemo.views lines)
    as (final & audit & local & k & Hin & Hsplit & Hver).
  - split; [apply prefix_nil|]. split; [exists (drop 2 ExportDemo.rows); reflexivity|].
    split; [reflexivity|exact I].
  - repeat constructor; assumption.
  - discriminate.
  - simpl. lia.
  - exact He.
  - exists lines, audit, local. split_and!; [reflexivity|exact Hsplit|].
    simpl in Hin. rewrite !elem_of_cons in Hin.
    destruct Hin as [->|[->|[->|Hin]]]; [..|by apply not_elem_of_nil in Hin];
      (eexists _, k; etransitivity; [exact Hver|reflexivity]).
Defined.

Lemma export_completes_witness :
  ∃ lines, export_audit (λ _, "0.0")
    {| q_chain := ChainBoth; q_org_id := None; q_since_seq := None; q_until_seq := None;
       q_include_anchors := false |}
    {| v_unchained := replicate 4 ExportDemo.rows; v_chained := replicate 4 ExportDemo.rows;
       v_local := replicate 4 []; v_anchors := []; v_merkle := [] |} = Ret (Some lines).
Proof.
  eapply (export_completes (λ _, "0.0") _ _ ExportDemo.rows [] 4); try reflexivity.
  - exact AnchorDemo.anchored_table_ok.
  - change (fst <$> ExportDemo.rows) with [1; 2; 3]. by apply (bool_decide_unpack (NoDup [1; 2; 3])).
  - constructor.
  - simpl. lia.
  - simpl. lia.
Defined.
