(* ===== verification/ProofVerify.v ===== *)
(** * The offline verifier: inclusion proofs and archive artefacts

    [scripts/cullis-audit-verify.py], the parts behind [--merkle-proof],
    [--archive-sth], [--archive-manifest] and [--archive-proof].  A file is the
    value [json.load] gives for it, [None] when it cannot be read or parsed.
    The ECDSA check of [_verify_es256_signature] (base64 decoding, key loading
    and the curve arithmetic of the [cryptography] package) is the parameter
    [es256_check]. *)

From Stdlib Require Import QArith.
From S2P Require Import Prelude Sha256 Json AuditCanon AuditLog.
From S2P Require Import Merkle AuditMerkle BundleVerify AuditExport.

Open Scope Z_scope.

(** [v[k]] on any value. *)
Definition subscript (k : string) (v : json) : outcome json :=
  match v with JObj f => item k f | _ => Raise TypeError end.

(** [try: m except (KeyError, TypeError, ValueError): sys.exit(code)] *)
Definition malformed {A} (code : Z) (m : outcome A) : outcome A :=
  match m with
  | Raise (KeyError | TypeError | ValueError) => exit code
  | _ => m
  end.

(** [try: m except KeyError: sys.exit(code)] *)
Definition key_missing {A} (code : Z) (m : outcome A) : outcome A :=
  match m with Raise KeyError => exit code | _ => m end.

(** [bytes.fromhex(v)] of any value. *)
Definition hex_bytes (v : json) : outcome string :=
  match v with JStr s => from_hex s | _ => Raise TypeError end.

(** ** Rows by position *)

Definition int_opt (v : json) : option Z := match int_of v with Ret q => Some q | Raise _ => None end.

Definition has_position (e : entry) : bool := negb (is_none (get_none "chain_seq" e)).
Definition is_audit_row (e : entry) : bool := bool_decide (detect_chain e = Some "audit_log").

Definition _chain_seq_map (bundles : list (list entry)) : list (Z * entry) :=
  let all_rows := List.filter has_position (concat bundles) in
  let audit_rows := List.filter is_audit_row all_rows in
  omap (λ e, q ← int_opt (get_none "chain_seq" e); Some (q, e))
    (match audit_rows with [] => all_rows | _ => audit_rows end).

(** A later row replaces an earlier one at the same position. *)
Definition seq_lookup (q : Z) (m : list (Z * entry)) : option entry :=
  snd <$> last (List.filter (λ x, fst x =? q) m).

Section Proofs.
Context `{Hash}.

(** ** Merkle inclusion proofs *)

Fixpoint merkle_walk (current : string) (proof : list (string * string)) : option string :=
  match proof with
  | [] => Some current
  | (sibling, position) :: rest =>
      if negb (String.length sibling =? 32)%nat then None
      else if bool_decide (position = "L") then merkle_walk (digest (sibling +:+ current)) rest
      else if bool_decide (position = "R") then merkle_walk (digest (current +:+ sibling)) rest
      else None
  end.

Definition _merkle_verify_inclusion (leaf : string) (proof : list (string * string))
    (expected_root : string) : bool :=
  if negb (String.length leaf =? 32)%nat then false
  else if negb (String.length expected_root =? 32)%nat then false
  else match merkle_walk leaf proof with
       | Some current => bool_decide (current = expected_root)
       | None => false
       end.

(** [bundle_leaf[:16]] for the message: only a sequence can be sliced. *)
Definition leaf_mismatch {A} (bundle_leaf : json) : outcome A :=
  match bundle_leaf with JStr _ | JList _ => exit 6 | _ => Raise TypeError end.

Definition proof_step (s : json) : outcome (string * string) :=
  let! sibling := subscript "sibling_hex" s in
  let! b := from_hex (str_of sibling) in
  let! position := subscript "position" s in
  Ret (b, str_of position).

Definition verify_merkle_proof (by_seq : list (Z * entry)) (file : option json) : outcome unit :=
  match file with
  | None => exit 6
  | Some proof =>
      let! (chain_seq, leaf_hex, root_hex, steps) := malformed 6
        (let! q := subscript "chain_seq" proof in let! chain_seq := int_of q in
         let! leaf := subscript "leaf_hex" proof in
         let! root := subscript "merkle_root" proof in
         let! steps := subscript "proof" proof in
         match steps with
         | JList l => Ret (chain_seq, str_of leaf, str_of root, l)
         | _ => Raise TypeError
         end) in
      match seq_lookup chain_seq by_seq with
      | None => exit 6
      | Some e =>
          let bundle_leaf := py_or (get_none "row_hash" e) (get_none "entry_hash" e) in
          if is_none bundle_leaf then exit 6 else
          if negb (bool_decide (str_of bundle_leaf = leaf_hex)) then leaf_mismatch bundle_leaf else
          let! (leaf_bytes, root_bytes, proof_steps) := malformed 6
            (let! l := from_hex leaf_hex in let! r := from_hex root_hex in
             let! s := omapM proof_step steps in Ret (l, r, s)) in
          if _merkle_verify_inclusion leaf_bytes proof_steps root_bytes then Ret tt else exit 6
      end
  end.

Definition verify_merkle_proofs (files : list (option json)) (bundles : list (list entry))
    : outcome Z :=
  let! _ := omapM (verify_merkle_proof (_chain_seq_map bundles)) files in
  Ret (Z.of_nat (length files)).

(** ** RFC 6962 audit paths *)

Definition _rfc6962_leaf_hash (row_hash_hex : string) : outcome string :=
  let! raw := from_hex row_hash_hex in Ret (digest (String (ascii_of_N 0) raw)).

Definition _rfc6962_node_hash (left right : string) : string :=
  digest (String (ascii_of_N 1) (left +:+ right)).

Fixpoint rfc6962_walk (h : string) (idx : Z) (audit_path : list json) : option string :=
  match audit_path with
  | [] => Some h
  | sibling_hex :: rest =>
      if is_str "" sibling_hex then rfc6962_walk h (Z.shiftr idx 1) rest else
      match hex_bytes sibling_hex with
      | Raise _ => None
      | Ret sibling =>
          if negb (String.length sibling =? 32)%nat then None
          else rfc6962_walk
                 (if Z.odd idx then _rfc6962_node_hash sibling h else _rfc6962_node_hash h sibling)
                 (Z.shiftr idx 1) rest
      end
  end.

Definition _rfc6962_verify_audit_path (leaf_hash : string) (audit_path : list json)
    (leaf_index tree_size : Z) (expected_root : string) : bool :=
  if negb ((0 <=? leaf_index) && (leaf_index <? tree_size)) then false
  else if negb (String.length leaf_hash =? 32)%nat || negb (String.length expected_root =? 32)%nat
  then false
  else match rfc6962_walk leaf_hash leaf_index audit_path with
       | Some h => bool_decide (h = expected_root)
       | None => false
       end.

(** ** Signed payloads *)

Definition _sth_canonical_payload (sth : json) : outcome string :=
  let! org := subscript "mastio_org_id" sth in
  let! epoch := subscript "epoch_utc" sth in
  let! size := subscript "tree_size" sth in let! size := int_of size in
  let! root := subscript "root_hash_hex" sth in
  let! lo := subscript "chain_seq_lo" sth in let! lo := int_of lo in
  let! hi := subscript "chain_seq_hi" sth in let! hi := int_of hi in
  let! kid := subscript "mastio_kid" sth in
  let! signed := subscript "signed_at" sth in
  Ret (dumps (JObj
    [("mastio_org_id", org); ("epoch_utc", epoch); ("tree_size", JInt size);
     ("root_hash_hex", root); ("chain_seq_lo", JInt lo); ("chain_seq_hi", JInt hi);
     ("mastio_kid", kid); ("issued_at", signed)])).

Definition _manifest_canonical_payload (manifest : entry) : outcome string :=
  let! epoch := item "epoch_utc" manifest in
  let! lo := item "chain_seq_lo" manifest in let! lo := int_of lo in
  let! hi := item "chain_seq_hi" manifest in let! hi := int_of hi in
  let! rows := item "row_count" manifest in let! rows := int_of rows in
  let! sink := item "sink_url" manifest in
  let! sha := item "bundle_sha256" manifest in
  Ret (dumps (JObj
    [("epoch_utc", epoch); ("mastio_org_id", default (JStr "") (get "mastio_org_id" manifest));
     ("chain_seq_lo", JInt lo); ("chain_seq_hi", JInt hi); ("row_count", JInt rows);
     ("sink_url", sink); ("bundle_sha256", sha)])).

(** ** Archive artefacts *)

(** Payload, signature text, PEM. *)
Context (es256_check : string → string → string → bool).

(** A signature that is not a text fails inside the [try]. *)
Definition _verify_es256_signature (payload : string) (signature : json) (pem : string) : bool :=
  match signature with JStr s => es256_check payload s pem | _ => false end.

Definition _load_json_file (file : option json) : outcome entry :=
  match file with Some (JObj f) => Ret f | _ => exit 7 end.

Definition verify_sth (pem : string) (file : option json) : outcome unit :=
  let! sth := _load_json_file file in
  let! (payload, sig) := key_missing 7
    (let! p := _sth_canonical_payload (JObj sth) in let! s := item "signature_b64u" sth in Ret (p, s)) in
  if _verify_es256_signature payload sig pem
  then let! _ := item "epoch_utc" sth in Ret tt else exit 7.

Definition verify_manifest (pem : string) (file : option json) : outcome unit :=
  let! manifest := _load_json_file file in
  let! (payload, sig) := key_missing 7
    (let! p := _manifest_canonical_payload manifest in
     let! s := item "signature_b64u" manifest in Ret (p, s)) in
  if _verify_es256_signature payload sig pem then Ret tt else exit 7.

(** [list(v)] *)
Definition list_of (v : json) : outcome (list json) :=
  match v with
  | JList l => Ret l
  | JStr s => Ret ((λ c, JStr (String c "")) <$> String.list_ascii_of_string s)
  | JObj f => Ret ((λ kv, JStr (fst kv)) <$> f)
  | _ => Raise TypeError
  end.

Definition verify_archive_proof (pem : string) (by_seq : list (Z * entry)) (file : option json)
    : outcome unit :=
  let! proof := _load_json_file file in
  let! (sth, leaf_index, leaf_hash_hex, audit_path) := malformed 7
    (let! sth := item "sth" proof in
     let! i := item "leaf_index" proof in let! i := int_of i in
     let! leaf := item "leaf_hash_hex" proof in
     let! path := item "audit_path" proof in let! path := list_of path in
     Ret (sth, i, str_of leaf, path)) in
  let! payload := _sth_canonical_payload sth in
  let! sig := subscript "signature_b64u" sth in
  if negb (_verify_es256_signature payload sig pem) then exit 7 else
  let! (leaf_hash, root, tree_size, lo) := malformed 7
    (let! leaf := from_hex leaf_hash_hex in
     let! r := subscript "root_hash_hex" sth in let! r := hex_bytes r in
     let! n := subscript "tree_size" sth in let! n := int_of n in
     let! lo := subscript "chain_seq_lo" sth in let! lo := int_of lo in
     Ret (leaf, r, n, lo)) in
  if negb (_rfc6962_verify_audit_path leaf_hash audit_path leaf_index tree_size root) then exit 7 else
  match seq_lookup (lo + leaf_index) by_seq with
  | None => Ret tt
  | Some e =>
      let bundle_row_hash := py_or (get_none "row_hash" e) (get_none "entry_hash" e) in
      if is_none bundle_row_hash then Ret tt else
      let! computed := _rfc6962_leaf_hash (str_of bundle_row_hash) in
      if bool_decide (computed = leaf_hash) then Ret tt else exit 7
  end.

(** [pubkey] is [None] without the flag, [Some None] when the file is
    unreadable. *)
Definition verify_archive_proofs (sths proofs manifests : list (option json))
    (pubkey : option (option string)) (bundles : list (list entry)) : outcome (Z * Z * Z) :=
  match sths, proofs, manifests with
  | [], [], [] => Ret (0, 0, 0)
  | _, _, _ =>
      match pubkey with
      | None | Some None => exit 7
      | Some (Some pem) =>
          let! _ := omapM (verify_sth pem) sths in
          let! _ := omapM (verify_manifest pem) manifests in
          let! _ := omapM (verify_archive_proof pem (_chain_seq_map bundles)) proofs in
          Ret (Z.of_nat (length sths), Z.of_nat (length manifests), Z.of_nat (length proofs))
      end
  end.
End Proofs.

(** ** The row a position leads to *)

Section RowLemmas.
Context `{Hash} (repr_float : Q → string).

Lemma omap_map_Some {A B C} (f : B → option C) (g : A → B) (h : A → C) l :
  Forall (λ x, f (g x) = Some (h x)) l → omap f (map g l) = map h l.
Proof. induction 1 as [|x l Hx _ IH]; simpl; [done|]. rewrite Hx. f_equal. exact IH. Qed.

Lemma map_of_export (rows : table) :
  _chain_seq_map [map (audit_entry repr_float) rows]
  = map (exported repr_float) (chained_table rows).
Proof.
  unfold _chain_seq_map. cbn [concat]. rewrite app_nil_r.
  assert (List.filter has_position (map (audit_entry repr_float) rows)
          = map (audit_entry repr_float) (chained_table rows)) as ->.
  { unfold chained_table. induction rows as [|[i r] rows IH]; [done|]. cbn [map List.filter snd].
    assert (has_position (audit_entry repr_float (i, r)) = chained r) as ->.
    { unfold has_position, get_none, chained. simpl. by destruct (chain_seq r). }
    destruct (chained r); cbn [map]; by rewrite IH. }
  assert (List.filter is_audit_row (map (audit_entry repr_float) (chained_table rows))
          = map (audit_entry repr_float) (chained_table rows)) as ->.
  { apply filter_id, Forall_forall. intros e He.
    by apply list_elem_of_In, in_map_iff in He as ([i r] & <- & _). }
  transitivity (omap (λ e, q ← int_opt (get_none "chain_seq" e); Some (q, e))
                  (map (audit_entry repr_float) (chained_table rows))); [by destruct (chained_table rows)|].
  apply omap_map_Some. apply Forall_forall. intros [i r] Hin. unfold chained_table in Hin.
  apply elem_of_filter_bool in Hin as [_ Hc]. simpl in Hc. unfold chained in Hc.
  unfold exported, row_seq, seq_of, get_none. simpl. by destruct (chain_seq r).
Qed.

Lemma seq_lookup_unique (l : table) s i r q :
  numbered row_seq s l → (i, r) ∈ l → chain_seq r = Some q →
  seq_lookup q (map (exported repr_float) l) = Some (audit_entry repr_float (i, r)).
Proof.
  intros Hn Hin Hq. unfold seq_lookup.
  assert (List.filter (λ x, fst x =? q) (map (exported repr_float) l)
          = map (exported repr_float) (List.filter (λ x, row_seq x =? q) l)) as ->.
  { clear. induction l as [|x l IH]; [done|]. simpl. destruct (row_seq x =? q); simpl; by rewrite IH. }
  assert (row_seq (i, r) = q) as Hrq by (unfold row_seq, seq_of; simpl; by rewrite Hq).
  assert (List.filter (λ x, row_seq x =? q) l = [(i, r)]) as ->; [|done].
  clear Hq. revert s Hn. induction l as [|x l IH]; intros s Hn; [by apply not_elem_of_nil in Hin|].
  destruct Hn as [Hx Hn]. simpl. apply elem_of_cons in Hin as [<-|Hin].
  - rewrite Hrq, Z.eqb_refl. rewrite filter_nil; [done|]. apply Forall_forall. intros y Hy.
    pose proof (numbered_bound _ _ _ _ Hn Hy). apply Z.eqb_neq. lia.
  - pose proof (numbered_bound _ _ _ _ Hn Hin). destruct (Z.eqb_spec (row_seq x) q); [lia|].
    by eapply IH.
Qed.
End RowLemmas.

(** The JSON object of a proof response. *)
Definition step_json (s : string * string) : json :=
  JObj [("sibling_hex", JStr (fst s)); ("position", JStr (snd s))].

Definition response_json (r : proof_response) : json :=
  JObj [("anchor_id", JInt (r_anchor_id r)); ("chain_seq", JInt (r_chain_seq r));
        ("chain_seq_start", JInt (r_start r)); ("chain_seq_end", JInt (r_end r));
        ("leaf_count", JInt (r_leaf_count r)); ("merkle_root", JStr (r_merkle_root r));
        ("leaf_hex", JStr (r_leaf_hex r)); ("proof", JList (map step_json (r_proof r)))].

Section ProofProperties.
Context `{Hash} (repr_float : Q → string).

Lemma merkle_walk_replay current proof : merkle_walk current proof = replay current proof.
Proof.
  revert current. induction proof as [|[s p] proof IH]; intros current; [done|]. simpl.
  unfold digest_sized, _DIGEST_BYTES. by rewrite !IH.
Qed.

Lemma merkle_verify_same leaf proof root :
  _merkle_verify_inclusion leaf proof root = verify_inclusion leaf proof root.
Proof.
  unfold _merkle_verify_inclusion, verify_inclusion, digest_sized, _DIGEST_BYTES.
  rewrite merkle_walk_replay. destruct (replay leaf proof) as [c|].
  - repeat (destruct (negb _); [done|]). apply bool_decide_ext. naive_solver.
  - by repeat (destruct (negb _); [done|]).
Qed.
Lemma proof_response_seq q t anchors resp :
  get_inclusion_proof q t anchors = Ret resp → r_chain_seq resp = q.
Proof.
  unfold get_inclusion_proof. destruct (covering_anchor q anchors); [|done].
  destruct (negb _); [done|]. destruct (omapM _ _) as [leaves|]; [|done]. cbn [obind].
  destruct (leaves !! _); [|done]. destruct (inclusion_proof _ _); [|done]. by intros [= <-].
Qed.

Lemma decode_response steps :
  omapM proof_step (map step_json steps)
  = omapM (λ s, let! b := from_hex (fst s) in Ret (b, snd s)) steps.
Proof.
  induction steps as [|[sib pos] steps IH]; [done|]. cbn [map omapM fst snd].
  unfold proof_step at 1, step_json at 1. simpl. destruct (from_hex sib); cbn [obind]; [|done].
  by rewrite IH.
Qed.

(** C38: online and offline agree.  Whatever the history of the table and its
    anchors, for every anchored position the JSON answer of the proof endpoint
    is accepted by the offline verifier against a bundle of the exported rows;
    and the offline replay of a proof is the same function as the program's own
    [verify_inclusion]. *)
Theorem endpoint_proof_accepted_offline (rows : table) (anchors : list anchor) (q : Z) :
  rtc anchor_step ([], []) (snd <$> rows, anchors) →
  1 <= q <= _last_anchored_seq anchors →
  (∃ resp, get_inclusion_proof q (snd <$> rows) anchors = Ret resp ∧
    verify_merkle_proofs [Some (response_json resp)] [map (audit_entry repr_float) rows] = Ret 1) ∧
  ∀ leaf proof root, _merkle_verify_inclusion leaf proof root = verify_inclusion leaf proof root.
Proof.
  intros Hr Hq. split; [|intros; apply merkle_verify_same].
  pose proof (anchors_reachable _ _ Hr) as Hinv. pose proof (proj1 Hinv) as Hok. simpl in Hok.
  destruct (proof_of_covered q _ _ Hinv Hq) as (resp & r & Hget & Hver & Hin & Hseq & Hhash).
  exists resp. split; [done|]. apply list_elem_of_fmap in Hin as ([i r'] & Heq & Hin). simpl in Heq. subst r'.
  unfold response_verifies in Hver.
  destruct (from_hex (r_leaf_hex resp)) as [leaf|] eqn:Hleaf; [|done].
  destruct (from_hex (r_merkle_root resp)) as [root|] eqn:Hroot; [|done].
  destruct (omapM _ (r_proof resp)) as [steps|] eqn:Hsteps; [|done].
  unfold verify_merkle_proofs. cbn [omapM]. rewrite map_of_export.
  assert (verify_merkle_proof (map (exported repr_float) (chained_table rows)) (Some (response_json resp))
          = Ret tt) as ->; [|done].
  unfold verify_merkle_proof, response_json. simpl.
  rewrite (proof_response_seq _ _ _ _ Hget), (seq_lookup_unique repr_float _ 1 i r).
  2: by apply chained_table_numbered.
  2: { unfold chained_table. apply elem_of_filter_bool. split; [done|]. unfold chained. simpl. by rewrite Hseq. }
  2: done.
  assert (py_or (get_none "row_hash" (audit_entry repr_float (i, r)))
            (get_none "entry_hash" (audit_entry repr_float (i, r))) = JStr (r_leaf_hex resp)) as ->.
  { unfold get_none. simpl. rewrite Hhash. unfold py_or. simpl.
    case_bool_decide as He; [|done]. rewrite He in Hleaf. injection Hleaf as <-. discriminate Hver. }
  cbn [is_none str_of]. rewrite bool_decide_eq_true_2 by done. cbn [negb]. rewrite Hleaf, Hroot.
  cbn [obind]. rewrite decode_response, Hsteps. cbn [obind malformed]. rewrite merkle_verify_same, Hver. done.
Qed.

(** an RFC 6962 audit path does not bind the position.  Empty entries only
    shift the index, wherever they stand and whether or not the tree has an
    unpaired node there: from a path accepted for one index, entries added in
    front make a path accepted for every index of any tree whose high bits are
    the accepted index; and with no entries at all the root itself is accepted as
    the leaf at every index. *)
Theorem rfc6962_index_unbound (leaf root : string) (path : list json) (idx size j size' : Z) (n : nat) :
  _rfc6962_verify_audit_path leaf path idx size root = true →
  0 <= j < size' → Z.shiftr j (Z.of_nat n) = idx →
  _rfc6962_verify_audit_path leaf (replicate n (JStr "") ++ path) j size' root = true ∧
  _rfc6962_verify_audit_path root [] j size' root = true.
Proof.
  unfold _rfc6962_verify_audit_path. intros Hv Hj Hs.
  destruct (negb ((0 <=? idx) && (idx <? size))); [done|].
  assert (negb ((0 <=? j) && (j <? size')) = false) as ->
    by (apply negb_false_iff, andb_true_iff; lia).
  destruct (String.length leaf =? 32)%nat, (String.length root =? 32)%nat; try done. cbn [negb orb] in *.
  split; [|by apply bool_decide_eq_true_2].
  assert (∀ n j h, rfc6962_walk h j (replicate n (JStr "") ++ path)
          = rfc6962_walk h (Z.shiftr j (Z.of_nat n)) path) as Hskip.
  { clear. induction n as [|n IH]; intros j h; [by rewrite Z.shiftr_0_r|].
    cbn [replicate app rfc6962_walk is_str]. rewrite bool_decide_eq_true_2 by done. rewrite IH.
    rewrite Z.shiftr_shiftr by lia. do 2 f_equal. lia. }
  by rewrite Hskip, Hs.
Qed.
End ProofProperties.

(** ** Witnesses *)

Lemma endpoint_proof_accepted_offline_witness :
  _last_anchored_seq AnchorDemo.anchors = 3 ∧
  ∃ resp, get_inclusion_proof 2 (snd <$> ExportDemo.rows) AnchorDemo.anchors = Ret resp ∧
    verify_merkle_proofs [Some (response_json resp)] [map (audit_entry (λ _, "0.0")) ExportDemo.rows] = Ret 1.
Proof.
  assert (_last_anchored_seq AnchorDemo.anchors = 3) as Hl by (vm_compute; reflexivity).
  split; [exact Hl|].
  refine (proj1 (endpoint_proof_accepted_offline (λ _, "0.0") ExportDemo.rows AnchorDemo.anchors 2
                   AnchorDemo.reachable _)).
  rewrite Hl. lia.
Defined.

(** The first of two leaves, with its proof, at the second position. *)
Definition two_leaf_root : string := _rfc6962_node_hash (digest "a") (digest "b").

Lemma rfc6962_index_unbound_witness :
  _rfc6962_verify_audit_path (digest "a") [JStr ""; JStr (to_hex (digest "b"))] 1 2 two_leaf_root = true.
Proof.
  destruct (rfc6962_index_unbound (digest "a") two_leaf_root [JStr (to_hex (digest "b"))] 0 2 1 2 1) as [H _].
  - vm_compute. reflexivity.
  - lia.
  - reflexivity.
  - exact H.
Defined.
