(* ===== verification/TsaVerify.v ===== *)
(** * The offline verifier: time-stamp anchors

    [scripts/cullis-audit-verify.py], [_chain_reaches_trust_store] and the token
    checks above it.  Certificates and parsed tokens are values of the
    [cryptography], [asn1crypto] and [rfc3161-client] packages: the classes
    [X509] and [Rfc3161] hold what the code asks of them.  [_verify_signed_by],
    which only picks the package's verification routine for the key at hand, is
    [signed_by]. *)

From S2P Require Import Prelude Sha256.

Open Scope Z_scope.

Class X509 := {
  cert : Type;
  fingerprint : cert → string;
  issued_by : cert → cert → bool;           (* node.issuer == cand.subject *)
  signed_by : cert → cert → bool;           (* _verify_signed_by(child, parent) *)
  not_valid_before : cert → Z;
  not_valid_after : cert → Z;
  basic_constraints : cert → option (bool * option Z);   (* ca, path_length *)
  key_cert_sign : cert → option bool;       (* of the KeyUsage extension *)
}.

Section Walk.
Context `{X509}.

Definition _is_valid_intermediate (cand : cert) : bool :=
  match basic_constraints cand with
  | Some (true, _) => match key_cert_sign cand with Some false => false | _ => true end
  | _ => false
  end.

Definition _candidate_path_length (cand : cert) : option Z :=
  match basic_constraints cand with Some (_, l) => l | None => None end.

Definition _is_within_validity (verification_time : Z) (c : cert) : bool :=
  (not_valid_before c <=? verification_time) && (verification_time <=? not_valid_after c).

(** A frontier node: the certificate, [intermediates_below], [node is leaf]. *)
Record node := { n_cert : cert; n_below : Z; n_leaf : bool }.

Definition visitedb (visited : list string) (c : cert) : bool :=
  existsb (λ fp, bool_decide (fp = fingerprint c)) visited.

Definition trusted_parent (t : Z) (c root : cert) : bool :=
  issued_by c root && signed_by c root && _is_within_validity t root.

Definition parent_allowed (n : node) (cand : cert) : bool :=
  issued_by (n_cert n) cand && signed_by (n_cert n) cand && _is_valid_intermediate cand &&
  match _candidate_path_length cand with Some l => n_below n <=? l | None => true end.

Definition new_below (n : node) : Z := if n_leaf n then n_below n else n_below n + 1.

Definition parents (embedded : list cert) (visited : list string) (n : node) : list node :=
  (λ c, {| n_cert := c; n_below := new_below n; n_leaf := false |}) <$>
    List.filter (λ c, negb (visitedb visited c) && parent_allowed n c) embedded.

(** One round: [None] when a node is issued by a trust root. *)
Fixpoint walk_round (t : Z) (embedded roots : list cert) (frontier : list node)
    (visited : list string) (nxt : list node) : option (list string * list node) :=
  match frontier with
  | [] => Some (visited, nxt)
  | n :: rest =>
      if negb (_is_within_validity t (n_cert n)) then walk_round t embedded roots rest visited nxt
      else if visitedb visited (n_cert n) then walk_round t embedded roots rest visited nxt
      else
        let visited := fingerprint (n_cert n) :: visited in
        if existsb (trusted_parent t (n_cert n)) roots then None
        else walk_round t embedded roots rest visited (nxt ++ parents embedded visited n)
  end.

Fixpoint walk_rounds (max_steps : nat) (t : Z) (embedded roots : list cert) (frontier : list node)
    (visited : list string) : bool :=
  match max_steps with
  | O => false
  | S k =>
      match frontier with
      | [] => false
      | _ => match walk_round t embedded roots frontier visited [] with
             | None => true
             | Some (visited, nxt) => walk_rounds k t embedded roots nxt visited
             end
      end
  end.

Definition _chain_reaches_trust_store (leaf : cert) (embedded roots : list cert)
    (verification_time : Z) : bool :=
  walk_rounds (length embedded + length roots + 2) verification_time embedded roots
    [{| n_cert := leaf; n_below := 0; n_leaf := true |}] [].

(** ** Chains *)

Definition in_force (t : Z) (c : cert) : Prop := not_valid_before c <= t <= not_valid_after c.

(** A CA whose key usage, if it has one, allows to sign certificates. *)
Definition may_issue (c : cert) : Prop :=
  (∃ l, basic_constraints c = Some (true, l)) ∧ key_cert_sign c ≠ Some false.

Lemma within_in_force t c : _is_within_validity t c = true ↔ in_force t c.
Proof. unfold _is_within_validity, in_force. rewrite andb_true_iff, !Z.leb_le. reflexivity. Qed.

Lemma valid_may_issue c : _is_valid_intermediate c = true → may_issue c.
Proof.
  unfold _is_valid_intermediate, may_issue. destruct (basic_constraints c) as [[[] l]|]; [|done..].
  intros Hk. split; [by exists l|]. by destruct (key_cert_sign c) as [[]|].
Qed.

(** [c] is reached from [leaf] through [k] embedded certificates, [c] included;
    each is in its validity window, issues and signs the one below and may issue,
    and [within k l] says that a path length [l] allows [k] intermediates below
    its certificate. *)
Inductive chain_up (within : Z → Z → Prop) (t : Z) (embedded : list cert) (leaf : cert)
    : Z → cert → Prop :=
| chain_leaf : in_force t leaf → chain_up within t embedded leaf 0 leaf
| chain_parent k c p :
    chain_up within t embedded leaf k c → p ∈ embedded →
    issued_by c p = true → signed_by c p = true → may_issue p → in_force t p →
    (∀ ca l, basic_constraints p = Some (ca, Some l) → within k l) →
    chain_up within t embedded leaf (k + 1) p.

(** The standard's count, and the code's: it is one less as soon as there is an
    intermediate below. *)
Definition rfc5280_within (k l : Z) : Prop := k <= l.
Definition code_within (k l : Z) : Prop := Z.max 0 (k - 1) <= l.

(** What a frontier holds. *)
Definition node_ok (t : Z) (embedded : list cert) (leaf : cert) (n : node) : Prop :=
  _is_within_validity t (n_cert n) = true →
  ∃ k, chain_up code_within t embedded leaf k (n_cert n) ∧ n_below n = Z.max 0 (k - 1) ∧ 0 <= k ∧
    (n_leaf n = true ↔ k = 0).

Lemma parents_ok t embedded leaf visited n :
  node_ok t embedded leaf n → _is_within_validity t (n_cert n) = true →
  Forall (node_ok t embedded leaf) (parents embedded visited n).
Proof.
  intros Hn Hv. destruct (Hn Hv) as (k & Hc & Hb & Hk & Hl). apply Forall_forall.
  intros m Hm. unfold parents in Hm. apply list_elem_of_fmap in Hm as (p & -> & Hp).
  apply elem_of_filter_bool in Hp as [Hin Hp]. apply andb_true_iff in Hp as [_ Hp].
  unfold parent_allowed in Hp. rewrite !andb_true_iff in Hp. destruct Hp as [[[Hi Hs] Hva] Hlen].
  intros Hvp. simpl in *. exists (k + 1). split_and!.
  - econstructor; [done..|by apply valid_may_issue|by apply within_in_force|]. intros ca l Hl'.
    unfold _candidate_path_length in Hlen. rewrite Hl' in Hlen. apply Z.leb_le in Hlen. unfold code_within. lia.
  - unfold new_below. destruct (n_leaf n).
    + assert (k = 0) as -> by (by apply Hl). lia.
    + assert (k ≠ 0) by (intros ->; by destruct Hl as [_ Hl]; specialize (Hl eq_refl)). lia.
  - lia.
  - split; [done|lia].
Qed.

Lemma walk_round_ok t embedded roots leaf frontier visited nxt :
  Forall (node_ok t embedded leaf) frontier → Forall (node_ok t embedded leaf) nxt →
  match walk_round t embedded roots frontier visited nxt with
  | None => ∃ k c root, chain_up code_within t embedded leaf k c ∧ root ∈ roots ∧ trusted_parent t c root = true
  | Some (_, nxt') => Forall (node_ok t embedded leaf) nxt'
  end.
Proof.
  intros Hf. revert visited nxt. induction Hf as [|n frontier Hn _ IH]; intros visited nxt Hx; simpl; [done|].
  destruct (_is_within_validity t (n_cert n)) eqn:Hv; simpl; [|by apply IH].
  destruct (visitedb visited (n_cert n)); [by apply IH|].
  destruct (existsb _ roots) eqn:Hr.
  - apply existsb_exists in Hr as (root & Hin & Ht). destruct (Hn Hv) as (k & Hc & _).
    exists k, (n_cert n), root. by rewrite list_elem_of_In.
  - apply IH. apply Forall_app. split; [done|by apply parents_ok].
Qed.

Lemma walk_rounds_ok n t embedded roots leaf frontier visited :
  Forall (node_ok t embedded leaf) frontier →
  walk_rounds n t embedded roots frontier visited = true →
  ∃ k c root, chain_up code_within t embedded leaf k c ∧ root ∈ roots ∧ trusted_parent t c root = true.
Proof.
  revert frontier visited. induction n as [|n IH]; intros frontier visited Hf; [done|]. simpl.
  destruct frontier as [|m frontier]; [done|].
  pose proof (walk_round_ok t embedded roots leaf _ visited [] Hf (Forall_nil_2 _)) as Hr.
  destruct (walk_round _ _ _ _ _ _) as [[visited' nxt]|]; [by apply IH|done].
Qed.

(** the pre-check enforces the operator's pin.  When it accepts a signing
    certificate, there is a chain from it through embedded certificates to a
    certificate one of the configured trust roots issued and signed: every link
    is a valid signature under matching names, every certificate and the root are
    inside their validity windows at the time of the stamp, and every embedded
    certificate on the way is a CA allowed to sign, within its path length as the
    code counts it. *)
Theorem trust_walk_sound (leaf : cert) (embedded roots : list cert) (t : Z) :
  _chain_reaches_trust_store leaf embedded roots t = true →
  ∃ k c root, chain_up code_within t embedded leaf k c ∧ root ∈ roots ∧
    issued_by c root = true ∧ signed_by c root = true ∧ in_force t root.
Proof.
  intros Hw. apply (walk_rounds_ok _ _ _ _ leaf) in Hw as (k & c & root & Hc & Hr & Ht).
  - unfold trusted_parent in Ht. rewrite !andb_true_iff in Ht. destruct Ht as [[? ?] ?].
    exists k, c, root. by rewrite <- within_in_force.
  - constructor; [|constructor]. intros Hv. exists 0. split_and!; [by constructor; apply within_in_force|done|lia|done].
Qed.
End Walk.

(** ** The path length is counted one short *)

Module PathLength.
(** [Leaf] under [Sub], under [Top] with a path length of 0, under [Root]. *)
Inductive name := Leaf | Sub | Top | Root.

Definition above (a b : name) : bool :=
  match a, b with Leaf, Sub | Sub, Top | Top, Root | Root, Root => true | _, _ => false end.

#[export] Instance certs : X509 := {|
  cert := name;
  fingerprint c := match c with Leaf => "l" | Sub => "s" | Top => "t" | Root => "r" end;
  issued_by := above;
  signed_by := above;
  not_valid_before _ := 0;
  not_valid_after _ := 10;
  basic_constraints c := match c with Leaf => None | Top => Some (true, Some 0) | _ => Some (true, None) end;
  key_cert_sign c := match c with Leaf => None | _ => Some true end;
|}.
End PathLength.

(** the path length is checked against one intermediate too few.  A
    certification authority whose path length is 0 may sign end certificates
    only; the pre-check nevertheless accepts a signer below a subordinate
    authority of such an authority, although no chain that counts path lengths as
    RFC 5280 does leads from the signer to the trusted root. *)
Theorem path_length_counted_short :
  ∃ (_ : X509) (leaf : cert) (embedded roots : list cert) (t : Z),
    _chain_reaches_trust_store leaf embedded roots t = true ∧
    ∀ k c root, chain_up rfc5280_within t embedded leaf k c → root ∈ roots →
      trusted_parent t c root = false.
Proof.
  exists PathLength.certs, PathLength.Leaf, [PathLength.Sub; PathLength.Top], [PathLength.Root], 5.
  split; [reflexivity|]. intros k c root Hc ->%list_elem_of_singleton.
  assert (k = 0 ∧ c = PathLength.Leaf ∨ k = 1 ∧ c = PathLength.Sub) as [[_ ->]|[_ ->]]; [|done..].
  induction Hc as [|k c p _ IH Hin Hi _ _ _ Hl]; [by left|].
  destruct IH as [[-> ->]|[-> ->]]; destruct p; try done; [by right|].
  specialize (Hl true 0 eq_refl). unfold rfc5280_within in Hl. lia.
Qed.

Lemma trust_walk_sound_witness :
  ∃ k c root, @chain_up PathLength.certs code_within 5 [PathLength.Sub; PathLength.Top] PathLength.Leaf k c ∧
    root ∈ [PathLength.Root] ∧ PathLength.above c root = true.
Proof.
  destruct (@trust_walk_sound PathLength.certs PathLength.Leaf [PathLength.Sub; PathLength.Top]
              [PathLength.Root] 5) as (k & c & root & Hc & Hr & Hi & _).
  - vm_compute. reflexivity.
  - exists k, c, root. split; [exact Hc|]. split; [exact Hr|exact Hi].
Defined.
