(* ===== verification/AuditVerifyCli.v ===== *)
(** * The offline verifier: anchors, peers and the verdict

    [scripts/cullis-audit-verify.py]: [verify_token_against_digest] and the
    functions it dispatches to, [verify_anchors], [cross_reconcile],
    [enforce_anchor_floor] and [main].  A bundle is the list of the objects of
    its lines; instants are microseconds and [now] is the clock of the run.  The
    packages behind RFC 3161 tokens are the class [Rfc3161]. *)

From S2P Require Import Prelude Sha256 HashChain Json AuditCanon AuditLog Base64.
From S2P Require Import BundleVerify AuditExport ProofVerify TsaVerify.

Open Scope Z_scope.

Class Rfc3161 `{X509} := {
  asn1crypto_installed : bool;
  rfc3161_client_installed : bool;
  tst : Type;
  parse_token : string → option tst;
  imprint : tst → string;                        (* hashed_message *)
  imprint_alg : tst → string;                    (* its algorithm, dotted *)
  gen_time : tst → Z;
  token_certs : tst → option (list (option cert));  (* [None]: does not load *)
  eku : cert → option (list string);
  signers : tst → list (option (string * Z));    (* issuer and serial number *)
  cert_issuer : cert → string;
  cert_serial : cert → Z;
  sha384 : string → string;
  sha512 : string → string;
  load_trust_store : string → option (list cert);
  decodes : tst → bool;
  builds : list cert → bool;
  message_verifies : tst → list cert → string → bool;
}.

Definition _OID_KP_TIME_STAMPING : string := "1.3.6.1.5.5.7.3.8".

Record tsa_options := {
  trust_store_path : option string; allow_unverified_signature : bool;
  max_age_days : Z; skew_seconds : Z;
}.

(** ** [base64.b64decode] of a text *)

Definition asciib (s : string) : bool := all_chars (λ c, (N_of_ascii c <? 128)%N) s.

Definition b64decode (v : json) : outcome string :=
  match v with
  | JStr s =>
      if negb (asciib s) then Raise ValueError else
      match ss ← b64_scan std_value s [] 0 0; decode_sextets ss with
      | Some l => Ret (of_bytes l)
      | None => Raise ValueError
      end
  | _ => Raise TypeError
  end.

Example b64decode_padded :
  map b64decode [JStr "TUt8"; JStr "TUs="; JStr "T UtK"; JStr "TUs"]
  = [Ret "MK|"; Ret "MK"; Ret "MKJ"; Raise ValueError].
Proof. reflexivity. Qed.

Section Tokens.
Context `{Hash} `{Rfc3161}.

(** ** Tokens *)

(** [s[n:]] *)
Fixpoint skip (n : nat) (s : string) : string :=
  match n, s with S n', String _ s' => skip n' s' | _, _ => s end.

(** [s.split("|", 1)]: the part before the separator, if there is one. *)
Fixpoint before_pipe (s : string) : option string :=
  match s with
  | EmptyString => None
  | String c s' => if bool_decide (c = pipe) then Some "" else String c <$> before_pipe s'
  end.

(** The search for a time-stamping certificate; [None] is an exception. *)
Fixpoint signer_eku_ok (certs : list (option cert)) : option bool :=
  match certs with
  | [] => Some false
  | None :: _ => None
  | Some c :: rest =>
      match eku c with
      | Some oids => if bool_decide (_OID_KP_TIME_STAMPING ∈ oids) then Some true else signer_eku_ok rest
      | None => signer_eku_ok rest
      end
  end.

Definition find_signer (sid : string * Z) (certs : list cert) : option cert :=
  List.find (λ c, bool_decide (cert_issuer c = fst sid) && (cert_serial c =? snd sid)) certs.

Definition expected_imprint (alg digest_hex row_hash : string) : option string :=
  if bool_decide (alg = "2.16.840.1.101.3.4.2.1") then Some digest_hex
  else if bool_decide (alg = "2.16.840.1.101.3.4.2.2") then Some (to_hex (sha384 row_hash))
  else if bool_decide (alg = "2.16.840.1.101.3.4.2.3") then Some (to_hex (sha512 row_hash))
  else None.

(** The part behind the trust store: the chain walk and the signature. *)
Definition verify_signature (t : tst) (certs : list (option cert)) (row_hash path : string)
    : bool * string :=
  if negb rfc3161_client_installed then (false, "rfc3161-lib-missing") else
  match load_trust_store path with
  | None => (false, "rfc3161-trust-store-bad")
  | Some roots =>
      match mapM id certs with
      | None => (false, "rfc3161-chain-walk-error")
      | Some embedded =>
          match signers t with
          | [None] => (false, "rfc3161-unsupported-sid")
          | [Some sid] =>
              match find_signer sid embedded with
              | None => (false, "rfc3161-no-matching-signer-cert")
              | Some leaf =>
                  if negb (_chain_reaches_trust_store leaf embedded roots (gen_time t))
                  then (false, "rfc3161-untrusted-chain")
                  else if negb (decodes t) then (false, "rfc3161-decode-error")
                  else if negb (builds roots) then (false, "rfc3161-verifier-build-error")
                  else if negb (message_verifies t roots row_hash)
                  then (false, "rfc3161-signature-invalid")
                  else (true, "rfc3161-verified")
              end
          | _ => (false, "rfc3161-multi-signer")
          end
      end
  end.

Definition _verify_rfc3161_full (now : Z) (o : tsa_options) (raw digest_hex row_hash : string)
    : bool * string :=
  if negb asn1crypto_installed then (false, "rfc3161-lib-missing") else
  match parse_token raw with
  | None => (false, "rfc3161-parse-error")
  | Some t =>
      match expected_imprint (imprint_alg t) digest_hex row_hash with
      | None => (false, "rfc3161-unsupported-imprint-alg")
      | Some expected =>
          if negb (bool_decide (to_hex (imprint t) = expected)) then (false, "rfc3161-imprint-mismatch")
          else if now + skew_seconds o * 1000000 <? gen_time t then (false, "rfc3161-gentime-future")
          else if gen_time t <? now - max_age_days o * 86400000000 then (false, "rfc3161-gentime-stale")
          else match token_certs t with
          | None => (false, "rfc3161-no-embedded-cert")
          | Some certs =>
              match signer_eku_ok certs with
              | None => (false, "rfc3161-cert-parse-error")
              | Some false => (false, "rfc3161-no-timestamping-eku")
              | Some true =>
                  match trust_store_path o with
                  | None => if allow_unverified_signature o then (true, "rfc3161-imprint-eku-only")
                            else (false, "rfc3161-no-trust-store")
                  | Some path => verify_signature t certs row_hash path
                  end
              end
          end
      end
  end.

(** [row_hash] is never absent at the call in [verify_anchors]; the remainder of a
    mock token is taken as UTF-8. *)
Definition verify_token_against_digest (now : Z) (o : tsa_options) (token digest_hex row_hash : string)
    : bool * string :=
  if startswith token "MK|" then
    match before_pipe (skip 3 token) with
    | None => (false, "mock-malformed")
    | Some d => (bool_decide (d = digest_hex), "mock")
    end
  else if startswith token "T1|" then _verify_rfc3161_full now o (skip 3 token) digest_hex row_hash
  else (false, "unrecognized").

(** ** [verify_anchors] *)

(** [(e.get("org_id") or "", seq)] as a key. *)
Definition pair_key {A} (a b : json) (x : A) : outcome A :=
  if hashable a && hashable b then Ret x else Raise TypeError.

Fixpoint head_hashes (entries : list entry) (d : list (json * json)) : outcome (list (json * json)) :=
  match entries with
  | [] => Ret d
  | e :: rest =>
      let seq := get_none "chain_seq" e in
      if is_none seq then head_hashes rest d else
      let! h := item "entry_hash" e in
      let org := field "org_id" e in
      let! d := pair_key org seq (jset (JList [org; seq]) h d) in head_hashes rest d
  end.

Fixpoint audit_heads (entries : list entry) (d : list (Z * string)) : outcome (list (Z * string)) :=
  match entries with
  | [] => Ret d
  | e :: rest =>
      let seq := get_none "chain_seq" e in
      let h := get_none "row_hash" e in
      if is_none seq || negb (py_bool h) then audit_heads rest d else
      let! q := int_of seq in audit_heads rest (d ++ [(q, str_of h)])
  end.

(** A later row replaces an earlier one. *)
Definition head_at (q : Z) (d : list (Z * string)) : option string :=
  snd <$> last (List.filter (λ x, fst x =? q) d).

Definition actual_head (local : list (json * json)) (audit : list (Z * string)) (a : entry)
    : outcome json :=
  let! org := item "org_id" a in
  let! seq := item "chain_seq" a in
  let chain := get_none "chain" a in
  let from_local := let! _ := pair_key org seq tt in Ret (default JNull (jget (JList [org; seq]) local)) in
  let from_audit := let! q := int_of seq in
                    Ret (match head_at q audit with Some h => JStr h | None => JNull end) in
  if is_str "audit_log" chain then from_audit
  else if is_none chain then
    let! _ := pair_key org seq tt in
    match jget (JList [org; seq]) local with
    | Some h => Ret h
    | None =>
        let! q := int_of seq in
        match head_at q audit with Some h => Ret (JStr h) | None => Ret JNull end
    end
  else from_local.

Definition unverifiable (backend : string) : bool :=
  bool_decide (backend ∈ ["rfc3161-lib-missing"; "rfc3161-unverified"; "rfc3161-no-trust-store";
                          "rfc3161-trust-store-bad"]).

(** Whether the anchor is of dispute grade. *)
Definition verify_anchor (now : Z) (o : tsa_options) (local : list (json * json))
    (audit : list (Z * string)) (a : entry) : outcome bool :=
  let! head := actual_head local audit a in
  if is_none head then exit 3 else
  let! claimed := item "row_hash" a in
  if negb (json_eq head claimed) then exit 3 else
  let! t := item "tsa_token_b64" a in
  let! token := b64decode t in
  match claimed with
  | JStr row_hash =>
      if negb (asciib row_hash) then Raise ValueError else
      let '(ok, backend) := verify_token_against_digest now o token (hexdigest row_hash) row_hash in
      if ok then Ret (bool_decide (backend = "rfc3161-verified"))
      else if unverifiable backend then exit 5 else exit 3
  | _ => Raise AttributeError
  end.

Definition verify_anchors (now : Z) (o : tsa_options) (local_rows anchors audit_rows : list entry)
    : outcome (Z * Z) :=
  let! local := head_hashes local_rows [] in
  let! audit := audit_heads audit_rows [] in
  let! grades := omapM (verify_anchor now o local audit) anchors in
  Ret (Z.of_nat (length grades), Z.of_nat (length (List.filter id grades))).

Definition enforce_anchor_floor (require_anchors : bool) (dispute_grade : Z) : outcome unit :=
  if negb require_anchors || (0 <? dispute_grade) then Ret tt else exit 8.
End Tokens.

(** ** [cross_reconcile] *)

Fixpoint index_by_hash (entries : list entry) (d : list (json * entry)) : outcome (list (json * entry)) :=
  match entries with
  | [] => Ret d
  | e :: rest =>
      let h := get_none "entry_hash" e in
      let org := get_none "org_id" e in
      if py_bool h && py_bool org then
        let! d := pair_key org h (jset (JList [org; h]) e d) in index_by_hash rest d
      else index_by_hash rest d
  end.

Definition agrees (e counterpart : entry) : bool :=
  forallb (λ f, json_eq (get_none f e) (get_none f counterpart))
    ["event_type"; "result"; "session_id"; "details"].

(** Whether the row names a peer that was checked; the messages of a refusal read
    [id] and [org_id]. *)
Definition reconcile_row (by_hash : list (json * entry)) (e : entry) : outcome bool :=
  let peer_org := get_none "peer_org_id" e in
  let peer_hash := get_none "peer_row_hash" e in
  if negb (py_bool peer_org) || negb (py_bool peer_hash) then Ret false else
  let! _ := pair_key peer_org peer_hash tt in
  match jget (JList [peer_org; peer_hash]) by_hash with
  | None => let! _ := item "id" e in let! _ := item "org_id" e in exit 4
  | Some counterpart =>
      if agrees e counterpart then Ret true
      else let! _ := item "id" e in let! _ := item "id" counterpart in exit 4
  end.

Definition cross_reconcile (bundles : list (list entry)) : outcome Z :=
  match bundles with
  | [] | [_] => Ret 0
  | _ =>
      let! by_hash := index_by_hash (concat bundles) [] in
      let! checked := omapM (reconcile_row by_hash) (concat bundles) in
      Ret (Z.of_nat (length (List.filter id checked)))
  end.

(** ** [main] *)

Record cli_args := {
  a_bundles : list (list entry);          (* the lines of each --bundle *)
  a_chain : string;
  a_tsa : tsa_options;
  a_merkle_proofs : list (option json);
  a_archive_sths : list (option json);
  a_archive_proofs : list (option json);
  a_archive_manifests : list (option json);
  a_archive_pubkey : option (option string);
  a_require_genesis : bool;
  a_require_anchors : bool;
}.

Section Main.
Context `{Hash} `{Rfc3161} (es256_check : string → string → string → bool).

(** The sets of organisations and agents of the summary. *)
Definition summary_keys (e : entry) : outcome unit :=
  let key k := let v := get_none k e in if py_bool v then use_key v tt else Ret tt in
  let! _ := key "org_id" in key "agent_id".

(** One turn of the loop over the bundles: its entries, where its [audit_log]
    chain starts when not at the genesis, its dispute-grade anchors. *)
Definition verify_bundle (now : Z) (args : cli_args) (lines : list entry)
    : outcome (list entry * option Z * Z) :=
  let '(entries, anchors) := load_bundle lines in
  let! (audit, local) := split_entries_by_chain entries (a_chain args) in
  let! _ := verify_chains local in
  let! (_, _, partial) := verify_audit_log_chain audit in
  let! (_, dispute_grade) := verify_anchors now (a_tsa args) local anchors audit in
  let! _ := omapM summary_keys entries in
  Ret (entries, partial, dispute_grade).

Definition sum (l : list Z) : Z := foldr Z.add 0 l.

Definition main (now : Z) (args : cli_args) : outcome Z :=
  let! results := omapM (verify_bundle now args) (a_bundles args) in
  let bundles := (λ r, fst (fst r)) <$> results in
  let! _ := cross_reconcile bundles in
  let! _ := verify_merkle_proofs (a_merkle_proofs args) bundles in
  let! _ := verify_archive_proofs es256_check (a_archive_sths args) (a_archive_proofs args)
              (a_archive_manifests args) (a_archive_pubkey args) bundles in
  let! _ := enforce_anchor_floor (a_require_anchors args) (sum (snd <$> results)) in
  if a_require_genesis args &&
     existsb (λ r, match snd (fst r) with Some _ => true | None => false end) results
  then exit 10 else Ret 0.
End Main.

(** ** What a passing run establishes *)

Section Verdict.
Context `{Hash} `{Rfc3161} (es256_check : string → string → string → bool).

(** A token of dispute grade.  Its imprint is the hash of [row_hash] under the
    algorithm it names. *)
Definition binds (t : tst) (row_hash : string) : Prop :=
  (imprint_alg t = "2.16.840.1.101.3.4.2.1" ∧ to_hex (imprint t) = hexdigest row_hash) ∨
  (imprint_alg t = "2.16.840.1.101.3.4.2.2" ∧ to_hex (imprint t) = to_hex (sha384 row_hash)) ∨
  (imprint_alg t = "2.16.840.1.101.3.4.2.3" ∧ to_hex (imprint t) = to_hex (sha512 row_hash)).

(** [embedded] are the certificates the token carries, [leaf] the one of its only
    signer, and a chain of valid signatures leads from [leaf], at the time of
    the stamp, to a certificate that one of [roots] has issued. *)
Definition signed_under (t : tst) (embedded : list cert) (leaf : cert) (roots : list cert) : Prop :=
  token_certs t = Some (Some <$> embedded) ∧
  signers t = [Some (cert_issuer leaf, cert_serial leaf)] ∧ leaf ∈ embedded ∧
  ∃ k c root, chain_up code_within (gen_time t) embedded leaf k c ∧ root ∈ roots ∧
    issued_by c root = true ∧ signed_by c root = true ∧ in_force (gen_time t) root.

(** One of the certificates it carries is for time stamping. *)
Definition for_time_stamping (embedded : list cert) : Prop := ∃ c oids,
  c ∈ embedded ∧ eku c = Some oids ∧ "1.3.6.1.5.5.7.3.8" ∈ oids.

Definition dispute_grade_token (now : Z) (o : tsa_options) (token row_hash : string) : Prop :=
  ∃ t path roots embedded leaf,
    startswith token "T1|" = true ∧ parse_token (skip 3 token) = Some t ∧ binds t row_hash ∧
    now - max_age_days o * 86400000000 <= gen_time t <= now + skew_seconds o * 1000000 ∧
    trust_store_path o = Some path ∧ load_trust_store path = Some roots ∧
    signed_under t embedded leaf roots ∧ for_time_stamping embedded ∧
    message_verifies t roots row_hash = true.

Lemma expected_binds t expected row_hash :
  expected_imprint (imprint_alg t) (hexdigest row_hash) row_hash = Some expected → to_hex (imprint t) = expected →
  binds t row_hash.
Proof.
  unfold expected_imprint, binds. repeat case_bool_decide; intros [= <-] Heq; tauto.
Qed.

Lemma loaded {A} (l : list (option A)) k : mapM id l = Some k → l = Some <$> k.
Proof.
  revert k. induction l as [|x l IH]; intros k; cbn; [by intros [= <-]|].
  destruct x as [x|]; [|done]. cbn. destruct (mapM id l) as [k'|]; [|done]. cbn. intros [= <-].
  cbn. f_equal. by apply IH.
Qed.

Lemma eku_found embedded : signer_eku_ok (Some <$> embedded) = Some true → for_time_stamping embedded.
Proof.
  induction embedded as [|c l IH]; [done|]. cbn. destruct (eku c) as [oids|] eqn:He; [case_bool_decide as Hin|].
  - intros _. exists c, oids. split_and!; [left|done|done].
  - intros (c' & oids' & Hc & He')%IH. exists c', oids'. split; [by right|done].
  - intros (c' & oids' & Hc & He')%IH. exists c', oids'. split; [by right|done].
Qed.

Lemma signature_verified t certs row_hash path :
  token_certs t = Some certs → verify_signature t certs row_hash path = (true, "rfc3161-verified") →
  ∃ roots embedded leaf, load_trust_store path = Some roots ∧ certs = Some <$> embedded ∧
    signed_under t embedded leaf roots ∧ message_verifies t roots row_hash = true.
Proof.
  intros Hcerts. unfold verify_signature, signed_under. destruct (negb _); [done|].
  destruct (load_trust_store path) as [roots|]; [|done].
  destruct (mapM id certs) as [embedded|] eqn:Hload; [|done]. apply loaded in Hload as ->.
  destruct (signers t) as [|[sid|] [|]]; try done.
  destruct (find_signer sid embedded) as [leaf|] eqn:Hf; [|done].
  destruct (_chain_reaches_trust_store leaf embedded roots (gen_time t)) eqn:Hw; [|done].
  destruct (decodes t); [|done]. destruct (builds roots); [|done].
  destruct (message_verifies t roots row_hash) eqn:Hm; [|done]. intros _.
  apply List.find_some in Hf as [Hin [Hi Hn]%andb_true_iff]. apply bool_decide_eq_true in Hi.
  apply Z.eqb_eq in Hn. exists roots, embedded, leaf. split_and!; try done; [by destruct sid; simpl in *; subst|by apply list_elem_of_In|].
  by apply trust_walk_sound.
Qed.

Lemma token_verified now o token row_hash :
  verify_token_against_digest now o token (hexdigest row_hash) row_hash = (true, "rfc3161-verified") →
  dispute_grade_token now o token row_hash.
Proof.
  unfold verify_token_against_digest. destruct (startswith token "MK|").
  { destruct (before_pipe _); [|done]. intros [=]. }
  destruct (startswith token "T1|") eqn:Hs; [|done]. unfold _verify_rfc3161_full.
  destruct (negb _); [done|]. destruct (parse_token _) as [t|] eqn:Hp; [|done].
  destruct (expected_imprint _ _ _) as [expected|] eqn:He; [|done].
  destruct (bool_decide (to_hex (imprint t) = expected)) eqn:Hi; [|done]. bools. simpl.
  destruct (Z.ltb_spec (now + skew_seconds o * 1000000) (gen_time t)) as [|Hf]; [done|].
  destruct (Z.ltb_spec (gen_time t) (now - max_age_days o * 86400000000)) as [|Hst]; [done|].
  destruct (token_certs t) as [certs|] eqn:Hcerts; [|done].
  destruct (signer_eku_ok certs) as [[]|] eqn:Heku; [|done..].
  destruct (trust_store_path o) as [path|] eqn:Hpath; [|by destruct (allow_unverified_signature o)].
  intros Hv. apply signature_verified in Hv as (roots & embedded & leaf & Hroots & -> & Hsigned & Hm); [|done].
  exists t, path, roots, embedded, leaf.
  split_and!; try done; [by eapply expected_binds|by apply eku_found].
Qed.

Lemma anchor_graded now o local audit a :
  verify_anchor now o local audit a = Ret true →
  ∃ row_hash token, actual_head local audit a = Ret (JStr row_hash) ∧
    get "row_hash" a = Some (JStr row_hash) ∧
    b64decode (get_none "tsa_token_b64" a) = Ret token ∧ dispute_grade_token now o token row_hash.
Proof.
  unfold verify_anchor. destruct (actual_head local audit a) as [head|]; [|done]. cbn [obind].
  destruct (is_none head); [done|].
  unfold item at 1. destruct (get "row_hash" a) as [claimed|]; [|done]. cbn [obind].
  destruct (json_eq head claimed) eqn:Heq; [|done]. cbn [negb].
  unfold item, get_none. destruct (get "tsa_token_b64" a) as [tk|]; [|done]. cbn [obind default from_option id].
  destruct (b64decode tk) as [token|] eqn:Htk; [|done]. cbn [obind].
  destruct claimed as [| | | |row_hash| |]; try done. apply json_eq_str in Heq as ->.
  destruct (negb (asciib row_hash)); [done|].
  destruct (verify_token_against_digest _ _ _ _ _) as [ok backend] eqn:Hv.
  destruct ok; [|by destruct (unverifiable backend)]. intros [= Hb]. bools. subst backend.
  exists row_hash, token. split_and!; try done. by apply token_verified.
Qed.

Lemma filter_id_pos {A} (f : A → bool) l :
  0 < Z.of_nat (length (List.filter f l)) → ∃ x, x ∈ l ∧ f x = true.
Proof.
  destruct (List.filter f l) as [|x l'] eqn:Hf; [simpl; lia|]. intros _.
  exists x. apply elem_of_filter_bool. rewrite Hf. left.
Qed.

Lemma anchors_graded now o local_rows anchors audit_rows n g :
  verify_anchors now o local_rows anchors audit_rows = Ret (n, g) → 0 < g →
  ∃ local audit a row_hash token, a ∈ anchors ∧
    head_hashes local_rows [] = Ret local ∧ audit_heads audit_rows [] = Ret audit ∧
    actual_head local audit a = Ret (JStr row_hash) ∧
    get "row_hash" a = Some (JStr row_hash) ∧
    b64decode (get_none "tsa_token_b64" a) = Ret token ∧ dispute_grade_token now o token row_hash.
Proof.
  unfold verify_anchors. destruct (head_hashes local_rows []) as [local|]; [|done]. cbn [obind].
  destruct (audit_heads audit_rows []) as [audit|]; [|done]. cbn [obind].
  destruct (omapM _ anchors) as [grades|] eqn:Hg; [|done]. intros [= _ <-] Hpos.
  apply filter_id_pos in Hpos as (x & Hx & Ht). unfold id in Ht. subst x.
  apply omapM_Ret in Hg. apply list_elem_of_lookup_1 in Hx as [i Hi].
  destruct (Forall2_lookup_r _ _ _ _ _ Hg Hi) as (a & Ha & Hv).
  apply anchor_graded in Hv as (row_hash & token & ? & ? & ? & ?).
  exists local, audit, a, row_hash, token. split_and!; try done. by eapply list_elem_of_lookup_2.
Qed.

Lemma sum_pos l : 0 < sum l → Forall (λ x, 0 <= x) l → ∃ x, x ∈ l ∧ 0 < x.
Proof.
  intros Hs Hl. induction Hl as [|x l Hx _ IH]; simpl in Hs; [lia|].
  destruct (decide (0 < x)); [exists x; split; [left|done]|].
  destruct IH as (y & ? & ?); [lia|]. exists y. split; [by right|done].
Qed.

Lemma bundle_inv now args lines entries partial g :
  verify_bundle now args lines = Ret (entries, partial, g) →
  ∃ audit local n k m, split_entries_by_chain (load_bundle lines).1 (a_chain args) = Ret (audit, local) ∧
    is_ret (verify_chains local) = true ∧ verify_audit_log_chain audit = Ret (n, k, partial) ∧
    verify_anchors now (a_tsa args) local (load_bundle lines).2 audit = Ret (m, g) ∧ 0 <= g.
Proof.
  unfold verify_bundle. destruct (load_bundle lines) as [es anchors]. cbn [fst snd].
  destruct (split_entries_by_chain _ _) as [[audit local]|]; [|done]. cbn [obind].
  destruct (verify_chains local) as [c|] eqn:Hc; [|done]. cbn [obind].
  destruct (verify_audit_log_chain audit) as [[[n k] p]|] eqn:Hau; [|done]. cbn [obind].
  destruct (verify_anchors _ _ _ _ _) as [[m g']|] eqn:Ha; [|done]. cbn [obind].
  destruct (omapM _ es); [|done]. cbn [obind]. intros [= <- <- <-].
  exists audit, local, n, k, m. rewrite Hc. split_and!; try done.
  unfold verify_anchors in Ha. destruct (head_hashes _ _); [|done]. cbn [obind] in Ha.
  destruct (audit_heads _ _); [|done]. cbn [obind] in Ha. destruct (omapM _ anchors); [|done].
  injection Ha as _ <-. lia.
Qed.

(** C39: what a strict pass establishes.  When the tool exits with 0 under
    [--require-genesis] and [--require-anchors], every bundle's rows were all
    classified, its local chains verified, and its [audit_log] part verified from
    the genesis with no row skipped over; and at least one anchor row carries the
    stored hash of a chain row of its bundle under a time stamp of dispute grade
    for that very hash: its imprint is that hash, its time is within the limits,
    one of the certificates it carries is for time stamping, it has one signer,
    from whose certificate among those a chain of valid signatures leads to one
    of the configured roots, and the package verifies its signature over the
    hash.  (The code asks for the time-stamping usage of some certificate of the
    token and not of the signer's, [usage_of_another_certificate].) *)
Theorem strict_pass_is_anchored (now : Z) (args : cli_args) :
  main es256_check now args = Ret 0 →
  a_require_genesis args = true → a_require_anchors args = true →
  (∀ lines, lines ∈ a_bundles args → ∃ audit local n k,
     split_entries_by_chain (load_bundle lines).1 (a_chain args) = Ret (audit, local) ∧
     is_ret (verify_chains local) = true ∧ verify_audit_log_chain audit = Ret (n, k, None)) ∧
  ∃ lines audit local local_heads audit_heads' a row_hash token,
    lines ∈ a_bundles args ∧
    split_entries_by_chain (load_bundle lines).1 (a_chain args) = Ret (audit, local) ∧
    head_hashes local [] = Ret local_heads ∧ audit_heads audit [] = Ret audit_heads' ∧
    a ∈ (load_bundle lines).2 ∧ actual_head local_heads audit_heads' a = Ret (JStr row_hash) ∧
    get "row_hash" a = Some (JStr row_hash) ∧
    b64decode (get_none "tsa_token_b64" a) = Ret token ∧
    dispute_grade_token now (a_tsa args) token row_hash.
Proof.
  intros Hm Hg Ha. unfold main in Hm.
  destruct (omapM (verify_bundle now args) (a_bundles args)) as [results|] eqn:Hr; [|done]. cbn [obind] in Hm.
  destruct (cross_reconcile _); [|done]. cbn [obind] in Hm.
  destruct (verify_merkle_proofs _ _); [|done]. cbn [obind] in Hm.
  destruct (verify_archive_proofs _ _ _ _ _ _); [|done]. cbn [obind] in Hm.
  unfold enforce_anchor_floor in Hm. rewrite Ha, Hg in Hm. cbn [negb orb andb] in Hm.
  destruct (Z.ltb_spec 0 (sum (snd <$> results))) as [Hpos|]; [|done]. cbn [obind] in Hm.
  destruct (existsb _ results) eqn:Hpartial; [done|]. apply omapM_Ret in Hr.
  assert (∀ lines, lines ∈ a_bundles args → ∃ entries p g, (entries, p, g) ∈ results ∧
            verify_bundle now args lines = Ret (entries, p, g)) as Hall.
  { intros lines Hin. apply list_elem_of_lookup_1 in Hin as [i Hi].
    destruct (Forall2_lookup_l _ _ _ _ _ Hr Hi) as ([[entries p] g] & Hri & Hv).
    exists entries, p, g. split; [by eapply list_elem_of_lookup_2|done]. }
  split.
  - intros lines Hin. destruct (Hall lines Hin) as (entries & p & g & Hres & Hv).
    apply bundle_inv in Hv as (audit & local & n & k & m & ? & ? & Hc & _).
    exists audit, local, n, k. split_and!; try done. destruct p as [s|]; [|done].
    assert (existsb (λ r : list entry * option Z * Z, match r.1.2 with Some _ => true | None => false end)
              results = true) as Hex; [|congruence].
    apply existsb_exists. exists (entries, Some s, g). by rewrite <- list_elem_of_In.
  - apply sum_pos in Hpos as (g & Hin & Hg0).
    2: { apply Forall_fmap, Forall_forall. intros [[entries p] g] Hin.
         apply list_elem_of_lookup_1 in Hin as [i Hi].
         destruct (Forall2_lookup_r _ _ _ _ _ Hr Hi) as (lines & _ & Hv).
         by apply bundle_inv in Hv as (? & ? & ? & ? & ? & _ & _ & _ & _ & ?). }
    apply list_elem_of_fmap in Hin as ([[entries p] g'] & -> & Hin). simpl in Hg0.
    apply list_elem_of_lookup_1 in Hin as [i Hi].
    destruct (Forall2_lookup_r _ _ _ _ _ Hr Hi) as (lines & Hl & Hv).
    apply bundle_inv in Hv as (audit & local & n & k & m & Hs & _ & _ & Hva & _).
    destruct (anchors_graded _ _ _ _ _ _ _ Hva Hg0) as (lh & ah & anc & row_hash & token & ? & ? & ? & ? & ? & ? & ?).
    exists lines, audit, local, lh, ah, anc, row_hash, token. split_and!; try done.
    by eapply list_elem_of_lookup_2.
Qed.
End Verdict.

(** The search for the usage stops at any certificate of the token: the one of the
    signer need not have it. *)
Theorem usage_of_another_certificate `{Rfc3161} c c' :
  eku c = None → eku c' = Some [_OID_KP_TIME_STAMPING] → signer_eku_ok [Some c; Some c'] = Some true.
Proof. intros Hc Hc'. cbn. by rewrite Hc, Hc'. Qed.

(** ** Witness: two rows and one anchor over the second *)

Module CliDemo.
Definition row_hash2 : string := Eval vm_compute in BundleDemo.hash_of BundleDemo.row2.

(** A package that knows one token, [tok], which binds that row's hash. *)
#[export] Instance tsa : @Rfc3161 PathLength.certs := {|
  asn1crypto_installed := true;
  rfc3161_client_installed := true;
  tst := string;
  parse_token raw := if bool_decide (raw = "tok") then Some raw else None;
  imprint _ := digest row_hash2;
  imprint_alg _ := "2.16.840.1.101.3.4.2.1";
  gen_time _ := 5;
  token_certs _ := Some [Some PathLength.Top : option (@cert PathLength.certs)];
  eku _ := Some [_OID_KP_TIME_STAMPING];
  signers _ := [Some ("ca", 1)];
  cert_issuer _ := "ca";
  cert_serial _ := 1;
  sha384 s := s;
  sha512 s := s;
  load_trust_store path := if bool_decide (path = "roots.pem") then Some [PathLength.Root : @cert PathLength.certs] else None;
  decodes _ := true;
  builds _ := true;
  message_verifies _ _ m := bool_decide (m = row_hash2);
|}.

Definition anchor_row : entry :=
  [("kind", JStr "anchor"); ("chain", JStr "audit_log"); ("org_id", JStr "acme"); ("chain_seq", JInt 2);
   ("row_hash", JStr row_hash2); ("tsa_token_b64", JStr (b64encode "T1|tok"))].

Definition args : cli_args :=
  {| a_bundles := [[BundleDemo.row1; BundleDemo.row2; anchor_row]]; a_chain := "auto";
     a_tsa := {| trust_store_path := Some "roots.pem"; allow_unverified_signature := false;
                 max_age_days := 3650; skew_seconds := 300 |};
     a_merkle_proofs := []; a_archive_sths := []; a_archive_proofs := []; a_archive_manifests := [];
     a_archive_pubkey := None; a_require_genesis := true; a_require_anchors := true |}.

Lemma args_pass : @main _ PathLength.certs tsa (λ _ _ _, false) 7 args = Ret 0.
Proof. vm_compute. reflexivity. Qed.
End CliDemo.

Lemma strict_pass_is_anchored_witness :
  ∃ lines a row_hash token, lines ∈ a_bundles CliDemo.args ∧ a ∈ (load_bundle lines).2 ∧
    get "row_hash" a = Some (JStr row_hash) ∧ @dispute_grade_token _ PathLength.certs CliDemo.tsa 7 (a_tsa CliDemo.args) token row_hash.
Proof.
  destruct (@strict_pass_is_anchored _ PathLength.certs CliDemo.tsa (λ _ _ _, false) 7 CliDemo.args CliDemo.args_pass eq_refl eq_refl)
    as (_ & lines & audit & local & lh & ah & a & row_hash & token & Hl & _ & _ & _ & Ha & _ & Hg & _ & Hd).
  exists lines, a, row_hash, token. split; [exact Hl|]. split; [exact Ha|]. split; [exact Hg|exact Hd].
Defined.
