(* ===== verification/Tier.v ===== *)
(** * Device tiers

    [mcp_proxy/attestation/tier.py] (the tier of a device claim),
    [mcp_proxy/policy/tier_matrix.py] (the tier a capability needs),
    [mcp_proxy/policy/tier_eval.py] (the tier of an agent at the gate) and the
    sweep of [mcp_proxy/mdm/stale_watcher.py].  A claim is the dict stored as
    JSON text on the agent's row; its [device_attestation] block is a dict, as
    [build_attestation_claim] writes it.  Instants are microseconds.  The file
    of the matrix is the value the YAML package gives for it, with text keys. *)

From S2P Require Import Prelude Sha256 Json.
From Stdlib Require Import QArith.
Open Scope Z_scope.

Definition TIER_UNTRUSTED : string := "untrusted".
Definition TIER_BYOD_ISOLATED : string := "byod_isolated".
Definition TIER_BYOD_ATTESTED : string := "byod_attested".
Definition TIER_MANAGED : string := "managed".
Definition TIER_MANAGED_ATTESTED : string := "managed_attested".

Definition STRENGTH_HW_ATTESTED : string := "hw_attested".
Definition STRENGTH_HW_ISOLATED : string := "hw_isolated".
Definition STRENGTH_SOFT_ONLY : string := "soft_only".
Definition COMPLIANCE_COMPLIANT : string := "compliant".
Definition COMPLIANCE_UNKNOWN : string := "unknown".

Definition TIER_ORDER : list string :=
  [TIER_UNTRUSTED; TIER_BYOD_ISOLATED; TIER_BYOD_ATTESTED; TIER_MANAGED; TIER_MANAGED_ATTESTED].

(** [_TIER_RANK.get(t)] *)
Definition _TIER_RANK (t : string) : option nat := fst <$> list_find (λ t', t' = t) TIER_ORDER.

(** ** The tier of a claim *)

Definition compute_effective_tier (mdm compliance hardware strength : json) : string :=
  let has_mdm := negb (is_none mdm) && is_str COMPLIANCE_COMPLIANT compliance in
  if has_mdm && is_str STRENGTH_HW_ATTESTED strength then TIER_MANAGED_ATTESTED
  else if has_mdm then TIER_MANAGED
  else if is_str STRENGTH_HW_ATTESTED strength then TIER_BYOD_ATTESTED
  else if is_str STRENGTH_HW_ISOLATED strength then TIER_BYOD_ISOLATED
  else TIER_UNTRUSTED.

Definition is_stale (stale_seconds threshold_seconds : Z) : bool :=
  if threshold_seconds <=? 0 then false else threshold_seconds <? stale_seconds.

(** [claim.get("device_attestation") or {}], used as a dict; a block of another
    JSON type raises (also a list of pairs, which [dict] would read: no writer
    of the column stores one). *)
Definition inner_block (claim : fields) : outcome fields :=
  match py_or (get_none "device_attestation" claim) (JObj []) with
  | JObj inner => Ret inner
  | _ => Raise AttributeError
  end.

Definition apply_stale_downgrade (claim : fields) (threshold_seconds : Z) : outcome fields :=
  let! inner := inner_block claim in
  let! stale_s := int_of (py_or (get_none "stale_seconds" inner) (JInt 0)) in
  if negb (is_stale stale_s threshold_seconds) then Ret claim else
  let inner := dset "compliance" (JStr COMPLIANCE_UNKNOWN) inner in
  Ret [("device_attestation", JObj inner);
       ("effective_tier", JStr (compute_effective_tier
          (get_none "mdm" inner)
          (py_or (get_none "compliance" inner) (JStr COMPLIANCE_UNKNOWN))
          (get_none "hardware" inner)
          (py_or (get_none "strength" inner) (JStr STRENGTH_SOFT_ONLY))))].

(** ** The tier a capability needs *)

(** [len(s)]: the bytes that start a code point. *)
Fixpoint py_len (s : string) : nat :=
  match s with
  | EmptyString => 0
  | String c s' =>
      let n := N_of_ascii c in
      if (N.leb 128 n && N.ltb n 192)%bool then py_len s' else S (py_len s')
  end.

(** [s.endswith(t)] *)
Fixpoint endswith (s t : string) : bool :=
  bool_decide (s = t) || match s with String _ s' => endswith s' t | EmptyString => false end.

(** [s[:-1]] of a text that ends with an ASCII character. *)
Fixpoint chop (s : string) : string :=
  match s with
  | String c (String _ _ as s') => String c (chop s')
  | _ => ""
  end.

Record TierMatrix := {
  version : string;
  default_min_tier : string;
  by_exact : gmap string string;
  by_prefix : list (string * string);
  source_path : string;
}.

(** The scan of [by_prefix]: [best] is the longest prefix so far. *)
Fixpoint best_prefix (capability best : string) (tier : option string)
    (prefixes : list (string * string)) : option string :=
  match prefixes with
  | [] => tier
  | (p, t) :: rest =>
      if startswith capability p && (py_len best <? py_len p)%nat
      then best_prefix capability p (Some t) rest
      else best_prefix capability best tier rest
  end.

Definition TierMatrix_lookup (m : TierMatrix) (capability : option string) : string :=
  match capability with
  | None | Some EmptyString => default_min_tier m
  | Some c =>
      match by_exact m !! c with
      | Some t => t
      | None => default (default_min_tier m) (best_prefix c "" None (by_prefix m))
      end
  end.

Definition rank_or (fallback : string) (t : option string) : nat :=
  default (default 0%nat (_TIER_RANK fallback)) (t ≫= _TIER_RANK).

Definition tier_meets_requirement (actual required : option string) : bool :=
  (rank_or TIER_MANAGED_ATTESTED required <=? rank_or TIER_UNTRUSTED actual)%nat.

(** What is at the path of the matrix. *)
Inductive matrix_file :=
| Missing
| Unreadable (e : exn)
| Yaml (v : json).

Definition fallback_matrix (path : string) : TierMatrix :=
  {| version := "0.0-fallback"; default_min_tier := TIER_UNTRUSTED;
     by_exact := ∅; by_prefix := []; source_path := path |}.

Definition entry_tier (v : json) : option string :=
  match v with
  | JObj e =>
      match get_none "min_tier" e with
      | JStr t => if _TIER_RANK t then Some t else None
      | _ => None
      end
  | _ => None
  end.

(** One round of the loop over [capabilities.items()]. *)
Definition load_entry (acc : gmap string string * list (string * string)) (entry : string * json)
    : outcome (gmap string string * list (string * string)) :=
  let '(exact, prefixes) := acc in
  let '(name, v) := entry in
  match entry_tier v with
  | None => Raise ValueError
  | Some t =>
      if bool_decide (name = "") then Raise ValueError
      else if endswith name ".*" then Ret (exact, prefixes ++ [(chop name, t)])
      else Ret (<[name := t]> exact, prefixes)
  end.

Fixpoint load_entries (acc : gmap string string * list (string * string))
    (entries : fields) : outcome (gmap string string * list (string * string)) :=
  match entries with
  | [] => Ret acc
  | entry :: rest => let! acc := load_entry acc entry in load_entries acc rest
  end.

Definition load_tier_matrix (path : string) (file : matrix_file) : outcome TierMatrix :=
  match file with
  | Missing => Ret (fallback_matrix path)
  | Unreadable e => Raise e
  | Yaml (JObj raw) =>
      let version := str_of (py_or (get_none "version" raw) (JStr "0.0-unversioned")) in
      let default_min_tier :=
        str_of (py_or (get_none "default_min_tier" raw) (JStr TIER_UNTRUSTED)) in
      if negb (if _TIER_RANK default_min_tier then true else false) then Raise ValueError else
      match py_or (get_none "capabilities" raw) (JObj []) with
      | JObj capabilities =>
          let! (exact, prefixes) := load_entries (∅, []) capabilities in
          Ret {| version := version; default_min_tier := default_min_tier; by_exact := exact;
                 by_prefix := order_by (λ kv, - Z.of_nat (py_len (fst kv))) prefixes;
                 source_path := path |}
      | _ => Raise ValueError
      end
  | Yaml _ => Raise ValueError
  end.

Definition load_default_tier_matrix (path : string) (file : matrix_file) : TierMatrix :=
  match load_tier_matrix path file with
  | Ret m => m
  | Raise _ => fallback_matrix "<load-error-fallback>"
  end.

(** ** The lookup finds the most specific entry *)

(** The wildcard entry [n] of the file covers the capability [c]. *)
Definition covers (n c : string) : bool := endswith n ".*" && startswith c (chop n).

Lemma rank_in_order t : (if _TIER_RANK t then true else false) = true ↔ t ∈ TIER_ORDER.
Proof.
  unfold _TIER_RANK. split.
  - destruct (list_find _ _) as [[i x]|] eqn:Hf; [|done]. intros _.
    apply list_find_Some in Hf as (Hi & -> & _). by eapply list_elem_of_lookup_2.
  - intros Hin. destruct (list_find_elem_of (λ t', t' = t) _ _ Hin eq_refl) as [[i x] Hf].
    by rewrite Hf.
Qed.

Lemma entry_tier_in_order v t : entry_tier v = Some t → t ∈ TIER_ORDER.
Proof.
  unfold entry_tier. intros Ht. apply rank_in_order.
  destruct v as [| | | | | |e]; [done..|]. destruct (get_none "min_tier" e) as [| | | |s| |]; try done.
  destruct (_TIER_RANK s) eqn:Hs; [|done]. simplify_eq. by rewrite Hs.
Qed.

(** What the loop over the entries has collected, apart from what it started
    with: an exact name keeps the tier of its entry, a prefix is a wildcard. *)
Lemma load_entries_exact acc entries acc' name t :
  NoDup (fst <$> entries) → load_entries acc entries = Ret acc' →
  fst acc' !! name = Some t →
  (∃ v, (name, v) ∈ entries ∧ endswith name ".*" = false ∧ entry_tier v = Some t)
  ∨ fst acc !! name = Some t ∧ (∀ v, (name, v) ∈ entries → endswith name ".*" = true).
Proof.
  revert acc. induction entries as [|[n v] rest IH]; intros [exact pre] Hnd Hload Hlook.
  { simplify_eq/=. right. split; [done|]. intros v Hin. inversion Hin. }
  simpl in Hload, Hnd. apply NoDup_cons in Hnd as [Hn Hnd].
  destruct (entry_tier v) as [tv|] eqn:Htv; [|done].
  destruct (bool_decide_reflect (n = "")) as [|_]; [done|].
  destruct (endswith n ".*") eqn:Hw; simpl in Hload.
  - destruct (IH _ Hnd Hload Hlook) as [(v' & Hin & ?)|[? Hall]].
    + left. exists v'. by split; [right|].
    + right. split; [done|]. intros v' [[= -> ->]|Hin]%elem_of_cons; eauto.
  - destruct (IH _ Hnd Hload Hlook) as [(v' & Hin & ?)|[Hl Hall]].
    + left. exists v'. by split; [right|].
    + simpl in Hl. apply lookup_insert_Some in Hl as [[-> ->]|[Hne Hl]].
      * left. exists v. by split; [left|].
      * right. split; [done|]. intros v' [[= -> ->]|Hin]%elem_of_cons; [done|eauto].
Qed.

Lemma load_entries_keeps acc entries acc' name t :
  NoDup (fst <$> entries) → load_entries acc entries = Ret acc' →
  (∃ v, (name, v) ∈ entries ∧ endswith name ".*" = false ∧ entry_tier v = Some t)
  ∨ fst acc !! name = Some t ∧ name ∉ fst <$> entries →
  fst acc' !! name = Some t.
Proof.
  revert acc. induction entries as [|[n v] rest IH]; intros [exact pre] Hnd Hload Hor.
  { simplify_eq/=. destruct Hor as [(v & Hin & _)|[? _]]; [inversion Hin|done]. }
  simpl in Hload, Hnd. apply NoDup_cons in Hnd as [Hn Hnd].
  destruct (entry_tier v) as [tv|] eqn:Htv; [|done].
  destruct (bool_decide_reflect (n = "")) as [|_]; [done|].
  destruct (endswith n ".*") eqn:Hw; simpl in Hload; apply (IH _ Hnd Hload); simpl;
    destruct Hor as [(v' & [[= -> ->]|Hin]%elem_of_cons & Hw' & Ht)|[Hl Hne]].
  - congruence.
  - left; eauto.
  - right. split; [done|]. by apply not_elem_of_cons in Hne as [_ Hne].
  - right. rewrite lookup_insert_eq. by simplify_eq.
  - left; eauto.
  - right. apply not_elem_of_cons in Hne as [Hne Hne']. by rewrite lookup_insert_ne.
Qed.

Lemma load_entries_prefixes acc entries acc' p t :
  load_entries acc entries = Ret acc' →
  (p, t) ∈ snd acc' ↔
  (p, t) ∈ snd acc ∨
    ∃ n v, (n, v) ∈ entries ∧ endswith n ".*" = true ∧ p = chop n ∧ entry_tier v = Some t.
Proof.
  revert acc. induction entries as [|[n v] rest IH]; intros [exact pre] Hload.
  { simplify_eq/=. split; [auto|]. intros [?|(n & v & Hin & _)]; [done|inversion Hin]. }
  simpl in Hload. destruct (entry_tier v) as [tv|] eqn:Htv; [|done].
  destruct (bool_decide _); [done|].
  destruct (endswith n ".*") eqn:Hw; rewrite (IH _ Hload); simpl;
    [rewrite elem_of_app, list_elem_of_singleton|]; split.
  - intros [[Hp|[= -> ->]]|(n' & v' & Hin & ?)]; [by left|..].
    + right. exists n, v. split; [left|done].
    + right. exists n', v'. split; [by right|done].
  - intros [Hp|(n' & v' & [[= -> ->]|Hin]%elem_of_cons & ? & -> & Ht)]; [by left; left|..].
    + left. right. congruence.
    + right. eauto 8.
  - intros [Hp|(n' & v' & Hin & ?)]; [by left|]. right. exists n', v'. split; [by right|done].
  - intros [Hp|(n' & v' & [[= -> ->]|Hin]%elem_of_cons & ? & -> & Ht)]; [by left|congruence|].
    right. eauto 8.
Qed.

Lemma load_entries_tier acc entries acc' :
  load_entries acc entries = Ret acc' →
  ∀ n v, (n, v) ∈ entries → ∃ t, entry_tier v = Some t.
Proof.
  revert acc. induction entries as [|[n v] rest IH]; intros [exact pre] Hload n' v' Hin.
  { inversion Hin. }
  simpl in Hload. destruct (entry_tier v) as [tv|] eqn:Htv; [|done].
  apply elem_of_cons in Hin as [[= -> ->]|Hin]; [by exists tv|].
  cases; eapply IH; eauto.
Qed.

(** The scan ends with the entry of the longest prefix of the capability. *)
Lemma best_prefix_spec c best tier prefixes :
  (best_prefix c best tier prefixes = tier ∧
     ∀ p t, (p, t) ∈ prefixes → startswith c p = true → (py_len p ≤ py_len best)%nat)
  ∨ ∃ p t, (p, t) ∈ prefixes ∧ startswith c p = true ∧ (py_len best < py_len p)%nat ∧
      best_prefix c best tier prefixes = Some t ∧
      ∀ p' t', (p', t') ∈ prefixes → startswith c p' = true → (py_len p' ≤ py_len p)%nat.
Proof.
  revert best tier. induction prefixes as [|[p t] rest IH]; intros best tier; simpl.
  { left. split; [done|]. intros p t Hin. inversion Hin. }
  setoid_rewrite elem_of_cons.
  destruct (startswith c p && (py_len best <? py_len p)%nat) eqn:Hb.
  - bools. match goal with H : Nat.ltb _ _ = true |- _ => apply Nat.ltb_lt in H end.
    right. destruct (IH p (Some t)) as [[Heq Hall]|(p' & t' & Hin & Hs & Hlt & Heq & Hall)].
    + exists p, t. split_and!; eauto. intros p' t' [[= -> ->]|Hin] ?; eauto.
    + exists p', t'. split_and!; eauto; [lia|]. intros p'' t'' [[= -> ->]|Hin'] ?; eauto with lia.
  - assert (startswith c p = true → (py_len p ≤ py_len best)%nat) as Hle.
    { intros Hs. rewrite Hs in Hb. simpl in Hb. by apply Nat.ltb_ge in Hb. }
    destruct (IH best tier) as [[Heq Hall]|(p' & t' & Hin & Hs & Hlt & Heq & Hall)].
    + left. split; [done|]. intros p' t' [[= -> ->]|Hin] ?; eauto.
    + right. exists p', t'. split_and!; eauto. intros p'' t'' [[= -> ->]|Hin'] Hs'; eauto.
      specialize (Hle Hs'). lia.
Qed.

Lemma load_tier_matrix_inv path raw m :
  load_tier_matrix path (Yaml (JObj raw)) = Ret m →
  ∃ caps prefixes,
    py_or (get_none "capabilities" raw) (JObj []) = JObj caps ∧
    load_entries (∅, []) caps = Ret (by_exact m, prefixes) ∧
    by_prefix m ≡ₚ prefixes ∧ default_min_tier m ∈ TIER_ORDER.
Proof.
  cbn [load_tier_matrix].
  match goal with |- context [negb (if _TIER_RANK ?d then true else false)] =>
    destruct (if _TIER_RANK d then true else false) eqn:Hd end; simpl; [|done].
  destruct (py_or (get_none "capabilities" raw) (JObj [])) as [| | | | | |caps]; try done.
  destruct (load_entries _ caps) as [[exact prefixes]|] eqn:Hl; simpl; [|done].
  intros [= <-]. exists caps, prefixes. simpl. split_and!; [done|done|apply order_by_perm|].
  by apply rank_in_order.
Qed.

(** What the operator wrote about the capability [c], as the gate should read
    it: the tier of its own entry, else of the longest wildcard entry that
    covers it, else the default. *)
Inductive most_specific (caps : fields) (fallback c : string) : string → Prop :=
| own_entry v t :
    (c, v) ∈ caps → endswith c ".*" = false → entry_tier v = Some t →
    most_specific caps fallback c t
| longest_wildcard n v t :
    (∀ v', (c, v') ∈ caps → endswith c ".*" = true) →
    (n, v) ∈ caps → covers n c = true → entry_tier v = Some t →
    (∀ n' v', (n', v') ∈ caps → covers n' c = true → (py_len (chop n') ≤ py_len (chop n))%nat) →
    most_specific caps fallback c t
| no_entry :
    (∀ v', (c, v') ∈ caps → endswith c ".*" = true) →
    (∀ n v, (n, v) ∈ caps → covers n c = false) →
    most_specific caps fallback c fallback.

(** A wildcard entry leaves a prefix of at least one character. *)
Lemma chop_cons a b s : chop (String a (String b s)) = String a (chop (String b s)).
Proof. done. Qed.

Lemma chop_dot s : endswith s ".*" = true → ∃ pre, chop s = pre +:+ ".".
Proof.
  induction s as [|a s IH]; simpl; [done|].
  intros [Heq%bool_decide_eq_true_1|Hs]%orb_true_iff.
  - injection Heq as -> ->. by exists "".
  - destruct s as [|b s]; [done|]. destruct (IH Hs) as [pre Hpre].
    exists (String a pre). by rewrite Hpre.
Qed.

Lemma py_len_app a b : py_len (a +:+ b) = (py_len a + py_len b)%nat.
Proof.
  induction a as [|c a IH]; [done|]. rewrite str_app_cons. simpl.
  destruct (_ && _); rewrite IH; lia.
Qed.

Lemma chop_nonempty s : endswith s ".*" = true → (0 < py_len (chop s))%nat.
Proof. intros [pre ->]%chop_dot. rewrite py_len_app. simpl. lia. Qed.

(** the tier the gate requires for a capability is what the operator's
    file says about it: the entry of that name, otherwise the longest [p.*]
    entry that covers it whatever the order of the entries, otherwise the
    default; and it is always one of the five tiers. *)
Theorem lookup_most_specific path raw m caps c :
  load_tier_matrix path (Yaml (JObj raw)) = Ret m →
  py_or (get_none "capabilities" raw) (JObj []) = JObj caps →
  NoDup (fst <$> caps) → c ≠ "" →
  most_specific caps (default_min_tier m) c (TierMatrix_lookup m (Some c)) ∧
  TierMatrix_lookup m (Some c) ∈ TIER_ORDER.
Proof.
  intros Hload Hcaps Hnd Hc.
  destruct (load_tier_matrix_inv _ _ _ Hload) as (caps' & prefixes & Hcaps' & Hle & Hperm & Hd).
  assert (caps' = caps) as -> by congruence.
  assert (most_specific caps (default_min_tier m) c (TierMatrix_lookup m (Some c))) as Hms.
  2: { split; [done|]. destruct Hms; eauto using entry_tier_in_order. }
  assert (∀ p t, (p, t) ∈ by_prefix m ↔
    ∃ n v, (n, v) ∈ caps ∧ endswith n ".*" = true ∧ p = chop n ∧ entry_tier v = Some t) as Hpre.
  { intros p t. rewrite Hperm. rewrite (load_entries_prefixes _ _ _ p t Hle).
    split; [intros [Hin|H]; [inversion Hin|exact H]|auto]. }
  destruct c as [|a c']; [done|]. set (c := String a c') in *. cbn [TierMatrix_lookup].
  change (match c with EmptyString => _ | _ => ?k end) with k.
  destruct (by_exact m !! c) as [t|] eqn:Hex.
  { destruct (load_entries_exact _ _ _ c t Hnd Hle Hex) as [(v & ? & ? & ?)|[[=] _]].
    by eapply own_entry. }
  assert (∀ v', (c, v') ∈ caps → endswith c ".*" = true) as Hown.
  { intros v Hin. destruct (endswith c ".*") eqn:Hw; [done|].
    destruct (load_entries_tier _ _ _ Hle c v Hin) as [t Ht].
    assert (by_exact m !! c = Some t) as Hk; [|by rewrite Hk in Hex].
    apply (load_entries_keeps _ _ _ c t Hnd Hle). left; eauto. }
  destruct (best_prefix_spec c "" None (by_prefix m)) as [[-> Hall]|(p & t & Hin & Hs & _ & -> & Hall)].
  - apply no_entry; [done|]. intros n v Hin. unfold covers.
    destruct (endswith n ".*") eqn:Hw; [|done]. simpl.
    destruct (startswith c (chop n)) eqn:Hs; [|done].
    destruct (load_entries_tier _ _ _ Hle n v Hin) as [t Ht].
    pose proof (Hall (chop n) t ltac:(apply Hpre; eauto 8) Hs) as Hlen.
    pose proof (chop_nonempty n Hw). simpl in Hlen. lia.
  - apply Hpre in Hin as (n & v & Hin & Hw & -> & Ht).
    eapply longest_wildcard; [done|exact Hin|unfold covers; by rewrite Hw|done|].
    intros n' v' Hin' Hcov. apply andb_true_iff in Hcov as [Hw' Hs'].
    destruct (load_entries_tier _ _ _ Hle n' v' Hin') as [t' Ht'].
    apply (Hall (chop n') t'); [|done]. apply Hpre. eauto 8.
Qed.

(** ** The tier of an agent at the gate *)

Section Resolve.
Context (json_loads : string → option json).

Definition DEFAULT_STALE_THRESHOLD_SECONDS : Z := 900.

Definition _resolve_stale_threshold (env : option string) : Z :=
  match env with
  | None | Some EmptyString => DEFAULT_STALE_THRESHOLD_SECONDS
  | Some raw =>
      match int_of_str raw with
      | Some v => if v <? 0 then DEFAULT_STALE_THRESHOLD_SECONDS else v
      | None => DEFAULT_STALE_THRESHOLD_SECONDS
      end
  end.

Definition _safe_parse_attestation (raw : option string) : option fields :=
  match raw with
  | None | Some EmptyString => None
  | Some s => json_loads s ≫= as_obj
  end.

Definition _recompute_tier_from_claim (claim : fields) : outcome string :=
  let! inner := inner_block claim in
  Ret (compute_effective_tier
         (get_none "mdm" inner)
         (py_or (get_none "compliance" inner) (JStr COMPLIANCE_UNKNOWN))
         (get_none "hardware" inner)
         (py_or (get_none "strength" inner) (JStr STRENGTH_SOFT_ONLY))).

(** [row] is what [get_agent] gives: an exception, no row, or the row with its
    [last_attestation]. *)
Definition resolve_effective_tier (env : option string)
    (row : outcome (option (option string))) : outcome (string * option fields) :=
  match row with
  | Raise _ | Ret None => Ret (TIER_UNTRUSTED, None)
  | Ret (Some raw) =>
      match _safe_parse_attestation raw with
      | None => Ret (TIER_UNTRUSTED, None)
      | Some claim =>
          let! claim := apply_stale_downgrade claim (_resolve_stale_threshold env) in
          let! tier := _recompute_tier_from_claim claim in
          Ret (tier, Some claim)
      end
  end.

(** ** Claims and the stale watcher *)

(** [strftime("%Y-%m-%dT%H:%M:%SZ")] of a UTC instant and what
    [_parse_verified_at] reads back: the instant without its fraction. *)
Class ZuluTime := {
  zulu : Z → string;
  parse_zulu : string → option Z;
  parse_zulu_zulu t : parse_zulu (zulu t) = Some (t / 1000000 * 1000000);
  zulu_nonempty t : zulu t ≠ "";
}.
Context `{ZuluTime}.

Definition claim_block (mdm device_id : option string) (compliance : string)
    (manufacturer : json) (verified_at now : Z) (hardware : option string)
    (strength : string) : fields :=
  [("mdm", opt_json mdm); ("device_id", opt_json device_id); ("compliance", JStr compliance);
   ("hardware", opt_json hardware); ("strength", JStr strength);
   ("manufacturer", manufacturer); ("verified_at", JStr (zulu verified_at));
   ("stale_seconds", JInt (Z.max 0 (Z.quot (now - verified_at) 1000000)))].

Definition build_attestation_claim (mdm device_id : option string) (compliance : string)
    (manufacturer : json) (verified_at now : Z) (hardware : option string)
    (strength : string) : fields :=
  [("device_attestation",
    JObj (claim_block mdm device_id compliance manufacturer verified_at now hardware strength));
   ("effective_tier", JStr (compute_effective_tier (opt_json mdm) (JStr compliance)
      (opt_json hardware) (JStr strength)))].

(** The columns of [internal_agents] a sweep reads. *)
Record agent_row := {
  agent_id : string;
  last_attestation : option string;
  last_stale_event_at : option Z;
}.

Record stale_event := {
  ev_agent_id : string;
  ev_device_attestation : json;
  ev_effective_tier : json;
  ev_previous_compliance : json;
}.

Definition _parse_verified_at (raw : json) : option Z :=
  if py_bool raw then parse_zulu (str_of raw) else None.

(** One round of the loop of [scan_once]: the event it emits, if any. *)
Definition scan_row (threshold_seconds now : Z) (row : agent_row) : outcome (option stale_event) :=
  match last_attestation row ≫= json_loads with
  | None => Ret None
  | Some (JObj claim) =>
      let! inner := inner_block claim in
      match _parse_verified_at (get_none "verified_at" inner) with
      | None => Ret None
      | Some verified_at =>
          if now - verified_at <=? threshold_seconds * 1000000 then Ret None
          else if match last_stale_event_at row with
                  | Some e => verified_at <=? e | None => false end then Ret None
          else
            let! downgraded := apply_stale_downgrade claim threshold_seconds in
            let! dev := item "device_attestation" downgraded in
            let! tier := item "effective_tier" downgraded in
            Ret (Some {| ev_agent_id := agent_id row; ev_device_attestation := dev;
                         ev_effective_tier := tier;
                         ev_previous_compliance := get_none "compliance" inner |})
      end
  | Some _ => Raise AttributeError
  end.

Definition mark_reported (now : Z) (row : agent_row) : agent_row :=
  {| agent_id := agent_id row; last_attestation := last_attestation row;
     last_stale_event_at := Some now |}.

(** The loop over the rows: the rows it rewrites, or the exception that ends
    it, with the events it has emitted. *)
Fixpoint scan_rows (threshold_seconds now : Z) (rows : list agent_row)
    : outcome (list agent_row) * list stale_event :=
  match rows with
  | [] => (Ret [], [])
  | row :: rest =>
      match scan_row threshold_seconds now row with
      | Raise e => (Raise e, [])
      | Ret found =>
          let '(res, events) := scan_rows threshold_seconds now rest in
          (match res with
           | Ret rest' => Ret (match found with Some _ => mark_reported now row | None => row end :: rest')
           | Raise e => Raise e
           end,
           match found with Some ev => ev :: events | None => events end)
      end
  end.

(** [scan_once]: the UPDATEs are one transaction, the audit rows are not in
    it. *)
Definition scan_once (threshold_seconds now : Z) (table : list agent_row)
    : outcome Z * list agent_row * list stale_event :=
  match scan_rows threshold_seconds now table with
  | (Ret table', events) => (Ret (Z.of_nat (length events)), table', events)
  | (Raise e, events) => (Raise e, table, events)
  end.

(** ** What the gate may rely on *)

Lemma compute_tier_cases mdm compliance hardware strength t :
  compute_effective_tier mdm compliance hardware strength = t →
  t ∈ TIER_ORDER ∧
  (t = TIER_MANAGED ∨ t = TIER_MANAGED_ATTESTED →
     is_none mdm = false ∧ is_str COMPLIANCE_COMPLIANT compliance = true) ∧
  (t = TIER_MANAGED_ATTESTED ∨ t = TIER_BYOD_ATTESTED → is_str STRENGTH_HW_ATTESTED strength = true) ∧
  (t = TIER_BYOD_ISOLATED → is_str STRENGTH_HW_ISOLATED strength = true).
Proof.
  intros <-. unfold compute_effective_tier, TIER_ORDER.
  destruct (is_none mdm), (is_str COMPLIANCE_COMPLIANT compliance), (is_str STRENGTH_HW_ATTESTED strength),
    (is_str STRENGTH_HW_ISOLATED strength); simpl; split_and!; try set_solver; intuition done.
Qed.

Lemma get_dset k v d k' : get k' (dset k v d) = if bool_decide (k' = k) then Some v else get k' d.
Proof.
  assert (∀ d : fields, get k' d = dget k' d) as Hget.
  { induction d0 as [|[k0 v0] d0 IH]; simpl; [done|]. by rewrite IH. }
  rewrite !Hget. case_bool_decide as Hk; [subst; apply dget_dset_eq|by apply dget_dset_ne].
Qed.

(** The conditions under which a stored claim supports the tier [t]. *)
Record supports (env : option string) (inner : fields) (t : string) : Prop := {
  supports_managed :
    t = TIER_MANAGED ∨ t = TIER_MANAGED_ATTESTED →
    is_none (get_none "mdm" inner) = false ∧ get "compliance" inner = Some (JStr COMPLIANCE_COMPLIANT) ∧
    ∃ s, int_of (py_or (get_none "stale_seconds" inner) (JInt 0)) = Ret s ∧
         is_stale s (_resolve_stale_threshold env) = false;
  supports_attested :
    t = TIER_MANAGED_ATTESTED ∨ t = TIER_BYOD_ATTESTED →
    get "strength" inner = Some (JStr STRENGTH_HW_ATTESTED);
  supports_isolated :
    t = TIER_BYOD_ISOLATED → get "strength" inner = Some (JStr STRENGTH_HW_ISOLATED);
}.

Lemma py_or_str k d s inner :
  py_or (get_none k inner) (JStr d) = JStr s → s ≠ d → get k inner = Some (JStr s).
Proof.
  unfold py_or, get_none. destruct (get k inner) as [v|]; simpl.
  - destruct (py_bool v); [by intros ->|congruence].
  - congruence.
Qed.

Lemma dset_obj k v d : py_or (JObj (dset k v d)) (JObj []) = JObj (dset k v d).
Proof. unfold py_or. destruct d as [|[k' v'] d]; simpl; [done|]. by destruct (bool_decide _). Qed.

(** The block the tier is computed from is the stored one, with the compliance
    replaced when the claim is stale. *)
Lemma downgraded_block stored th claim' inner' :
  apply_stale_downgrade stored th = Ret claim' → inner_block claim' = Ret inner' →
  ∃ inner s, inner_block stored = Ret inner ∧
    int_of (py_or (get_none "stale_seconds" inner) (JInt 0)) = Ret s ∧
    inner' = (if is_stale s th then dset "compliance" (JStr COMPLIANCE_UNKNOWN) inner else inner).
Proof.
  unfold apply_stale_downgrade. intros Hdown Hinner'.
  destruct (inner_block stored) as [inner|] eqn:Hinner; [|done]. cbn [obind] in Hdown.
  destruct (int_of _) as [s|] eqn:Hs; [|done]. cbn [obind] in Hdown.
  exists inner, s. split_and!; [done..|]. destruct (is_stale s th); simpl in Hdown.
  - injection Hdown as <-. unfold inner_block in Hinner'.
    match type of Hinner' with context [py_or ?x _] =>
      change x with (JObj (dset "compliance" (JStr COMPLIANCE_UNKNOWN) inner)) in Hinner' end.
    rewrite dset_obj in Hinner'. by injection Hinner'.
  - congruence.
Qed.

Lemma stored_block stored inner :
  inner_block stored = Ret inner → get "device_attestation" stored = Some (JObj inner) ∨ inner = [].
Proof.
  unfold inner_block, py_or, get_none.
  destruct (get "device_attestation" stored) as [v|]; simpl; [|intros [= <-]; by right].
  destruct (py_bool v); [|intros [= <-]; by right]. destruct v; try done. intros [= <-]. by left.
Qed.

Lemma parsed_text raw stored :
  _safe_parse_attestation raw = Some stored →
  ∃ s, raw = Some s ∧ json_loads s = Some (JObj stored).
Proof.
  unfold _safe_parse_attestation. destruct raw as [[|a s]|]; try done.
  intros Hp. exists (String a s). split; [done|].
  destruct (json_loads _) as [[]|]; simplify_eq/=. done.
Qed.

(** A stale claim keeps what is not its compliance. *)
Lemma stale_keeps inner k :
  k ≠ "compliance" → get k (dset "compliance" (JStr COMPLIANCE_UNKNOWN) inner) = get k inner.
Proof. intros ?. rewrite get_dset. by rewrite bool_decide_eq_false_2. Qed.

Lemma strength_is s b :
  is_str s (py_or (get_none "strength" b) (JStr STRENGTH_SOFT_ONLY)) = true →
  s ≠ STRENGTH_SOFT_ONLY → get "strength" b = Some (JStr s).
Proof. intros Hs%is_str_inv. by apply py_or_str. Qed.

Lemma block_supports env inner s t :
  int_of (py_or (get_none "stale_seconds" inner) (JInt 0)) = Ret s →
  let b := if is_stale s (_resolve_stale_threshold env)
           then dset "compliance" (JStr COMPLIANCE_UNKNOWN) inner else inner in
  compute_effective_tier (get_none "mdm" b) (py_or (get_none "compliance" b) (JStr COMPLIANCE_UNKNOWN))
    (get_none "hardware" b) (py_or (get_none "strength" b) (JStr STRENGTH_SOFT_ONLY)) = t →
  supports env inner t.
Proof.
  intros Hs b Ht. destruct (compute_tier_cases _ _ _ _ _ Ht) as (_ & Hman & Hatt & Hiso).
  assert (get "strength" b = get "strength" inner) as Hstr.
  { subst b. destruct (is_stale _ _); [by apply stale_keeps|done]. }
  split.
  - intros Hm. destruct (Hman Hm) as [Hmdm Hc%is_str_inv]. subst b.
    destruct (is_stale s (_resolve_stale_threshold env)) eqn:Hstale.
    + unfold get_none in Hc. rewrite get_dset in Hc. done.
    + split_and!; [done|by eapply py_or_str|eauto].
  - intros Ha. rewrite <- Hstr. by apply strength_is; [apply Hatt|].
  - intros Hi. rewrite <- Hstr. by apply strength_is; [apply Hiso|].
Qed.

(** the tier of an agent is justified by the inputs stored in its claim
    and never by the tier the claim declares: it is one of the five tiers, and
    above [untrusted] only when the row holds a claim with a
    [device_attestation] block; the managed tiers need a device manager, the
    compliance [compliant] and a claim that is not stale, the attested ones the
    strength [hw_attested], [byod_isolated] the strength [hw_isolated]. *)
Theorem resolved_tier_justified env row t claim :
  resolve_effective_tier env row = Ret (t, claim) →
  t ∈ TIER_ORDER ∧
  (t ≠ TIER_UNTRUSTED →
   ∃ s stored inner, row = Ret (Some (Some s)) ∧ json_loads s = Some (JObj stored) ∧
     get "device_attestation" stored = Some (JObj inner) ∧ supports env inner t).
Proof.
  unfold resolve_effective_tier. intros Hres.
  assert (TIER_UNTRUSTED ∈ TIER_ORDER) as Hun by (unfold TIER_ORDER; set_solver).
  destruct row as [[raw|]|]; [|by simplify_eq..].
  destruct (_safe_parse_attestation raw) as [stored|] eqn:Hparse; [|by simplify_eq].
  destruct (apply_stale_downgrade stored _) as [claim'|] eqn:Hdown; [|done]. cbn [obind] in Hres.
  unfold _recompute_tier_from_claim in Hres.
  destruct (inner_block claim') as [inner'|] eqn:Hinner'; [|done]. cbn [obind] in Hres.
  injection Hres as Ht <-.
  destruct (downgraded_block _ _ _ _ Hdown Hinner') as (inner & s & Hinner & Hs & ->).
  split; [by apply (compute_tier_cases _ _ _ _ _ Ht)|]. intros Hne.
  destruct (parsed_text _ _ Hparse) as (txt & -> & Htxt).
  destruct (stored_block _ _ Hinner) as [Hblock| ->].
  - exists txt, stored, inner. split_and!; [done..|]. by eapply block_supports.
  - destruct Hne. rewrite <- Ht. by destruct (is_stale _ _).
Qed.

(** ** What ageing does to a claim *)

Lemma fresh_not_stale verified now th :
  now - verified <= th * 1000000 -> is_stale (Z.max 0 (Z.quot (now - verified) 1000000)) th = false.
Proof.
  intros Hd. unfold is_stale. destruct (Z.leb_spec th 0); [done|].
  apply Z.ltb_ge. apply Z.max_lub; [lia|]. Z.to_euclidean_division_equations; lia.
Qed.

(** What [or "unknown"] and [or "soft_only"] add makes no difference. *)
Lemma tier_of_texts mdm hardware c s :
  compute_effective_tier mdm (py_or (JStr c) (JStr COMPLIANCE_UNKNOWN)) hardware
    (py_or (JStr s) (JStr STRENGTH_SOFT_ONLY))
  = compute_effective_tier mdm (JStr c) hardware (JStr s).
Proof.
  unfold py_or. simpl. destruct (bool_decide_reflect (c = "")), (bool_decide_reflect (s = ""));
    subst; done.
Qed.

Section Aged.
Context (mdm device_id : option string) (manufacturer : json) (hardware : option string) (compliance strength : string)
  (verified_at built_at : Z).

Let block := claim_block mdm device_id compliance manufacturer verified_at built_at hardware strength.
Let claim := build_attestation_claim mdm device_id compliance manufacturer verified_at built_at
               hardware strength.
Let tier := compute_effective_tier (opt_json mdm) (JStr compliance) (opt_json hardware)
              (JStr strength).

Lemma built_block : inner_block claim = Ret block.
Proof. reflexivity. Qed.

Lemma built_not_downgraded th :
  built_at - verified_at <= th * 1000000 → apply_stale_downgrade claim th = Ret claim.
Proof.
  intros Hf. unfold apply_stale_downgrade. rewrite built_block. cbn [obind].
  set (z := Z.max 0 (Z.quot (built_at - verified_at) 1000000)).
  change (get_none "stale_seconds" block) with (JInt z). unfold py_or, py_bool.
  assert (int_of (if negb (z =? 0) then JInt z else JInt 0) = Ret z) as ->.
  { destruct (Z.eqb_spec z 0) as [->|]; done. }
  cbn [obind]. subst z. by rewrite fresh_not_stale.
Qed.

Lemma built_tier : _recompute_tier_from_claim claim = Ret tier.
Proof.
  unfold _recompute_tier_from_claim. rewrite built_block. cbn [obind]. f_equal.
  apply tier_of_texts.
Qed.

(** a claim that was fresh when it was stored keeps its tier however old
    it gets.  Once its [verified_at] is past the threshold the watcher reports
    it as stale, but the tier it reports is the full one, and the gate still
    computes the full one: the age is only ever read from [stale_seconds], which
    nothing updates after the claim is stored. *)
Theorem aged_claim_keeps_tier env threshold now row text :
  last_attestation row = Some text → text ≠ "" → json_loads text = Some (JObj claim) →
  built_at - verified_at <= threshold * 1000000 →
  built_at - verified_at <= _resolve_stale_threshold env * 1000000 →
  threshold * 1000000 < now - verified_at →
  match last_stale_event_at row with
  | Some e => e < verified_at / 1000000 * 1000000
  | None => True
  end →
  (∃ ev, scan_row threshold now row = Ret (Some ev) ∧ ev_effective_tier ev = JStr tier) ∧
  resolve_effective_tier env (Ret (Some (last_attestation row))) = Ret (tier, Some claim).
Proof.
  intros Hrow Htext Hload Hf Hf' Hage Hlast. rewrite Hrow. split.
  - unfold scan_row. rewrite Hrow. cbn [mbind option_bind]. rewrite Hload, built_block.
    cbn [obind]. change (get_none "verified_at" block) with (JStr (zulu verified_at)).
    unfold _parse_verified_at, py_bool, str_of.
    rewrite bool_decide_eq_false_2 by apply zulu_nonempty. cbn [negb]. rewrite parse_zulu_zulu.
    assert (verified_at / 1000000 * 1000000 <= verified_at)
      by (pose proof (Z.mul_div_le verified_at 1000000); lia).
    destruct (Z.leb_spec (now - verified_at / 1000000 * 1000000) (threshold * 1000000)); [lia|].
    assert (match last_stale_event_at row with
            | Some e => verified_at / 1000000 * 1000000 <=? e | None => false end = false) as ->.
    { destruct (last_stale_event_at row); [by apply Z.leb_gt|done]. }
    rewrite built_not_downgraded by done. cbn [obind]. by eexists.
  - unfold resolve_effective_tier.
    assert (_safe_parse_attestation (Some text) = Some claim) as ->.
    { unfold _safe_parse_attestation. rewrite Hload. by destruct text. }
    rewrite built_not_downgraded by done. cbn [obind]. by rewrite built_tier.
Qed.
End Aged.
End Resolve.

(** ** Concrete runs *)

(** Instants as signed binary texts, in place of calendar texts. *)
Fixpoint pos_text (p : positive) : string :=
  match p with
  | xH => "." | xO p => String "0" (pos_text p) | xI p => String "1" (pos_text p)
  end.
Fixpoint text_pos (s : string) : option positive :=
  match s with
  | String c s' =>
      if bool_decide (c = "."%char) then Some xH
      else if bool_decide (c = "0"%char) then xO <$> text_pos s' else xI <$> text_pos s'
  | EmptyString => None
  end.
Definition minute_text (z : Z) : string :=
  match z with Z0 => "Z" | Zpos p => String "+" (pos_text p) | Zneg p => String "-" (pos_text p) end.
Definition text_z (s : string) : option Z :=
  match s with
  | String c s' =>
      if bool_decide (c = "Z"%char) then Some 0
      else if bool_decide (c = "+"%char) then Zpos <$> text_pos s' else Zneg <$> text_pos s'
  | EmptyString => None
  end.

Lemma text_pos_text p : text_pos (pos_text p) = Some p.
Proof. induction p as [p IH|p IH|]; simpl; [by rewrite IH..|done]. Qed.

#[export] Instance binary_zulu : ZuluTime.
Proof.
  refine {| zulu t := minute_text (t / 1000000); parse_zulu s := (λ n, n * 1000000) <$> text_z s |}.
  - intros t. destruct (t / 1000000) as [|p|p]; simpl; [done|by rewrite text_pos_text..].
  - intros t. by destruct (t / 1000000).
Defined.

(** A matrix with nested wildcards. *)
Definition matrix_yaml : fields :=
  [("version", JStr "1.0"); ("default_min_tier", JStr "byod_isolated");
   ("capabilities", JObj
     [("admin.*", JObj [("min_tier", JStr "managed")]);
      ("admin.audit.*", JObj [("min_tier", JStr "managed_attested")]);
      ("mcp.read", JObj [("min_tier", JStr "untrusted")])])].

Definition matrix : TierMatrix :=
  match load_tier_matrix "tiers.yaml" (Yaml (JObj matrix_yaml)) with
  | Ret m => m
  | Raise _ => fallback_matrix ""
  end.

Example matrix_lookups :
  (λ c, TierMatrix_lookup matrix (Some c)) <$>
    ["admin.read"; "admin.audit.export"; "administer"; "mcp.read"; "mcp.read.all"; ""]
  = ["managed"; "managed_attested"; "byod_isolated"; "untrusted"; "byod_isolated"; "byod_isolated"].
Proof. vm_compute. reflexivity. Qed.

Lemma lookup_most_specific_witness :
  TierMatrix_lookup matrix (Some "admin.audit.export") ∈ TIER_ORDER.
Proof.
  refine (proj2 (lookup_most_specific "tiers.yaml" matrix_yaml matrix
    match get "capabilities" matrix_yaml with Some (JObj c) => c | _ => [] end
    "admin.audit.export" _ _ _ _)).
  - vm_compute. reflexivity.
  - reflexivity.
  - apply (bool_decide_unpack _). vm_compute. exact I.
  - done.
Defined.

(** Alice's laptop: managed by Intune, compliant, checked twelve seconds before
    the claim was stored. *)
Definition alice_claim : fields :=
  build_attestation_claim (Some "intune") (Some "dev-1") "compliant" JNull 100000000 112000000 None
    "hw_attested".
Definition alice_loads (s : string) : option json :=
  if bool_decide (s = "claim") then Some (JObj alice_claim) else None.
Definition alice_row : agent_row :=
  {| agent_id := "acme::alice"; last_attestation := Some "claim"; last_stale_event_at := None |}.

(** A claim that says [managed_attested] of a device without a manager. *)
Definition forged_loads (s : string) : option json :=
  Some (JObj [("effective_tier", JStr "managed_attested");
              ("device_attestation", JObj [("strength", JStr "hw_isolated")])]).

Lemma resolved_tier_justified_witness :
  ∃ s stored inner,
    Ret (Some (Some "claim")) = Ret (Some (Some s)) ∧ forged_loads s = Some (JObj stored) ∧
    get "device_attestation" stored = Some (JObj inner) ∧ supports None inner TIER_BYOD_ISOLATED.
Proof.
  refine (proj2 (resolved_tier_justified forged_loads None (Ret (Some (Some "claim")))
    TIER_BYOD_ISOLATED _ eq_refl) _). done.
Defined.

(** A day later. *)
Lemma aged_claim_keeps_tier_witness :
  (∃ ev, scan_row alice_loads 900 86400000000 alice_row = Ret (Some ev) ∧
     ev_effective_tier ev = JStr TIER_MANAGED_ATTESTED) ∧
  resolve_effective_tier alice_loads None (Ret (Some (Some "claim")))
  = Ret (TIER_MANAGED_ATTESTED, Some alice_claim).
Proof.
  refine (aged_claim_keeps_tier alice_loads (Some "intune") (Some "dev-1") JNull None "compliant"
    "hw_attested" 100000000 112000000 None 900 86400000000 alice_row "claim" _ _ _ _ _ _ _);
    first [reflexivity | done | simpl; unfold _resolve_stale_threshold, DEFAULT_STALE_THRESHOLD_SECONDS; lia].
Defined.
