(* ===== verification/Intune.v ===== *)
(** * The Intune client

    [mdm/intune.py]: the token cache of the Graph client, the walk over the
    pages of [managedDevices/delta] and the projection of a device.  What
    Graph and the clock answer is a record of functions of the number of
    requests so far; a URL taken from a page is whatever JSON value the page
    has there. *)

From S2P Require Import Prelude Json Effects.

Open Scope Z_scope.

(** What a request gives: a transport error, or a status with what
    [resp.json()] gives. *)
Inductive http_reply :=
| TransportError (name : string)
| Response (status : Z) (body : outcome json).

Record graph := {
  post_token : nat → http_reply;
  get_page : nat → json → string → http_reply;   (* URL, bearer token *)
  utc_now : nat → Z;                             (* microseconds *)
}.

Record IntuneClient := {
  _token : option string;
  _token_expires_at : option Z;
  requests : nat;
}.

Definition new_client : IntuneClient :=
  {| _token := None; _token_expires_at := None; requests := 0 |}.

Definition _TOKEN_REFRESH_SLACK : Z := 600 * 1000000.
Definition _TOKEN_DEFAULT_LIFETIME : Z := 3600 * 1000000.

(** [timedelta] and [datetime] are bounded: 999999999 days, year 9999. *)
Definition max_delta : Z := 1000000000 * 86400 * 1000000 - 1.
Definition min_delta : Z := - 999999999 * 86400 * 1000000.
Definition max_instant : Z := 253402300800 * 1000000 - 1.
Definition min_instant : Z := - 62135596800 * 1000000.

Definition timedelta_seconds (s : Z) : outcome Z :=
  if (min_delta <=? s * 1000000) && (s * 1000000 <=? max_delta) then Ret (s * 1000000)
  else Raise OverflowError.
Definition add_delta (t d : Z) : outcome Z :=
  if (min_instant <=? t + d) && (t + d <=? max_instant) then Ret (t + d) else Raise OverflowError.

Section Client.
Context (G : graph).

Notation M := (M IntuneClient).

(** A request: its number is its place in the run. *)
Definition request (f : nat → http_reply) : M http_reply := λ c,
  (Ret (f (requests c)),
   {| _token := _token c; _token_expires_at := _token_expires_at c; requests := S (requests c) |}).

Definition forget_token : M unit :=
  modify (λ c, {| _token := None; _token_expires_at := None; requests := requests c |}).
Definition keep_token (token : string) (expires : Z) : M unit :=
  modify (λ c, {| _token := Some token; _token_expires_at := Some expires; requests := requests c |}).

(** The token while it is good for another ten minutes. *)
Definition cached_token (now : Z) (c : IntuneClient) : option string :=
  match _token c, _token_expires_at c with
  | Some token, Some expires => if now + _TOKEN_REFRESH_SLACK <? expires then Some token else None
  | _, _ => None
  end.

(** [timedelta(seconds=int(lifetime_s))], or the default when that is no
    number. *)
Definition token_lifetime (v : json) : outcome Z :=
  match int_of v with
  | Ret n => timedelta_seconds n
  | Raise ValueError | Raise TypeError => Ret _TOKEN_DEFAULT_LIFETIME
  | Raise e => Raise e
  end.

Definition token_of_reply (now : Z) (r : http_reply) : M string :=
  match r with
  | TransportError name => raise (IntuneGraphError 0 ("token request transport error: " +:+ name))
  | Response status body =>
      if negb (status =? 200) then
        raise (IntuneGraphError status
          "token endpoint returned non-200 (check tenant_id, client_id, client_secret, and admin consent)")
      else
        do payload <- lift body;
        match payload with
        | JObj payload =>
            match get_none "access_token" payload with
            | JStr (String _ _ as token) =>
                do lifetime <- lift (token_lifetime (default (JFloat "3600.0" (QArith_base.Qmake 3600 1)) (get "expires_in" payload)));
                do expires <- lift (add_delta now lifetime);
                do _ <- keep_token token expires;
                ret token
            | _ => raise (IntuneGraphError 200 "token endpoint returned 200 without access_token")
            end
        | _ => raise AttributeError
        end
  end.

Definition _ensure_token : M string :=
  do now <- gets (λ c, utc_now G (requests c));
  do cached <- gets (cached_token now);
  match cached with
  | Some token => ret token
  | None => do r <- request (post_token G); token_of_reply now r
  end.

(** A page, with one forced refresh after a 401; the second request is not
    inside the [try]. *)
Definition fetch_page (url : json) (token : string) : M (Z * outcome json * string) :=
  do r <- request (λ n, get_page G n url token);
  match r with
  | TransportError name => raise (IntuneGraphError 0 ("managedDevices transport error: " +:+ name))
  | Response status body =>
      if negb (status =? 401) then ret (status, body, token)
      else
        do _ <- forget_token;
        do token <- _ensure_token;
        do r <- request (λ n, get_page G n url token);
        match r with
        | TransportError name => raise (HTTPError name)
        | Response status body => ret (status, body, token)
        end
  end.

(** The walk, for at most [pages_left] pages. *)
Fixpoint fetch_pages (pages_left : nat) (url : json) (token : string) (devices : list json)
    : M (list json * json) :=
  match pages_left with
  | O => ret (devices, JNull)
  | S pages_left =>
      do (status, body, token) <- fetch_page url token;
      if negb (status =? 200) then
        raise (IntuneGraphError status "managedDevices endpoint returned non-200")
      else
        do payload <- lift body;
        match payload with
        | JObj payload =>
            let devices := devices ++ match default (JList []) (get "value" payload) with
                                      | JList page => page | _ => [] end in
            let next_link := get_none "@odata.nextLink" payload in
            let delta_out := get_none "@odata.deltaLink" payload in
            if py_bool delta_out then ret (devices, delta_out)
            else if py_bool next_link then fetch_pages pages_left next_link token devices
            else ret (devices, JNull)
        | _ => raise AttributeError
        end
  end.

Definition page_cap : nat := 200.

Definition fetch_managed_devices_delta (delta_link : option string) : M (list json * json) :=
  do token <- _ensure_token;
  let url := match delta_link with
             | Some (String _ _ as link) => link
             | _ => "https://graph.microsoft.com/v1.0/deviceManagement/managedDevices/delta"
             end in
  fetch_pages page_cap (JStr url) token [].

(** ** The walk is bounded *)

(** At most [n] requests, whatever the answers. *)
Definition within {A} (n : nat) (m : M A) : Prop := ∀ c, (requests (m c).2 <= requests c + n)%nat.

Lemma within_bind {A B} n k (m : M A) (f : A → M B) :
  within n m → (∀ a, within k (f a)) → within (n + k) (bind m f).
Proof.
  intros Hm Hf c. specialize (Hm c). unfold bind. destruct (m c) as [[a|e] c1]; cbn in *; [|lia].
  specialize (Hf a c1). lia.
Qed.

Lemma within_more {A} n k (m : M A) : (n <= k)%nat → within n m → within k m.
Proof. intros Hle Hm c. specialize (Hm c). lia. Qed.

Lemma within_request f : within 1 (request f).
Proof. intros c. cbn. lia. Qed.

Lemma within_pure {A} (m : M A) : (∀ c, requests (m c).2 = requests c) → within 0 m.
Proof. intros Hm c. rewrite Hm. lia. Qed.

Lemma within_token_reply now r : within 0 (token_of_reply now r).
Proof.
  apply within_pure. intros c. destruct r as [name|status body]; [done|]. cbn.
  destruct (negb _); [done|]. unfold bind, lift. destruct body as [[]|]; try done.
  destruct (get_none _ _) as [| | | |[|a s]| |]; try done.
  destruct (token_lifetime _); [|done]. by destruct (add_delta _ _).
Qed.

Lemma within_ensure_token : within 1 _ensure_token.
Proof.
  unfold _ensure_token. apply (within_bind 0 1); [by apply within_pure|]. intros now.
  apply (within_bind 0 1); [by apply within_pure|]. intros [token|].
  - apply (within_more 0); [lia|]. by apply within_pure.
  - apply (within_bind 1 0); [apply within_request|]. intros r. apply within_token_reply.
Qed.

Lemma within_page url token : within 3 (fetch_page url token).
Proof.
  unfold fetch_page. apply (within_bind 1 2); [apply within_request|]. intros [name|status body].
  - apply (within_more 0); [lia|]. by apply within_pure.
  - destruct (negb _); [apply (within_more 0); [lia|]; by apply within_pure|].
    apply (within_bind 0 2); [by apply within_pure|]. intros _.
    apply (within_bind 1 1); [apply within_ensure_token|]. intros token'.
    apply (within_bind 1 0); [apply within_request|]. intros [name'|status' body']; by apply within_pure.
Qed.

Lemma within_pages n url token devices : within (3 * n) (fetch_pages n url token devices).
Proof.
  revert url token devices. induction n as [|n IH]; intros url token devices; [by apply within_pure|].
  apply (within_more (3 + 3 * n)); [lia|]. cbn [fetch_pages].
  apply within_bind; [apply within_page|]. intros [[status body] token'].
  assert (∀ A (m : M A), (∀ c, requests (m c).2 = requests c) → within (3 * n) m) as Hpure.
  { intros A m Hm. apply (within_more 0); [lia|]. by apply within_pure. }
  destruct (negb _); [by apply Hpure|].
  apply (within_bind 0 (3 * n)); [by apply within_pure|]. intros [| | | | | |payload]; try by apply Hpure.
  destruct (py_bool _); [by apply Hpure|]. destruct (py_bool _); [apply IH|by apply Hpure].
Qed.

(** A fetch ends after at most 601 requests, also when the pages Graph names
    lead back to each other. *)
Theorem fetch_bounded delta_link c :
  (requests (fetch_managed_devices_delta delta_link c).2 <= requests c + 601)%nat.
Proof.
  assert (within (1 + 3 * 200) (fetch_managed_devices_delta delta_link)) as Hw; [|exact (Hw c)].
  apply within_bind; [apply within_ensure_token|]. intros token. apply within_pages.
Qed.

End Client.

(** ** Devices *)

Definition map_compliance_state (graph_state : json) : string :=
  if is_str "compliant" graph_state then "compliant"
  else if is_str "noncompliant" graph_state then "non_compliant"
  else "unknown".

Record projected_device := {
  device_id : string;
  compliance : string;
  azure_ad_device_id : json;
  user_principal_name : json;
  device_name : json;
  manufacturer : json;
  serial_number : json;
}.

Definition project_device_row (graph_device : json) : outcome projected_device :=
  match graph_device with
  | JObj d =>
      Ret {| device_id := str_of (py_or (get_none "id" d) (JStr ""));
             compliance := map_compliance_state (get_none "complianceState" d);
             azure_ad_device_id := get_none "azureADDeviceId" d;
             user_principal_name := get_none "userPrincipalName" d;
             device_name := get_none "deviceName" d;
             manufacturer := get_none "manufacturer" d;
             serial_number := get_none "serialNumber" d |}
  | _ => Raise AttributeError
  end.
