(* ===== verification/Mdm.v ===== *)
(** * Device management: polling, reconciliation, revocation

    [mdm/circuit_breaker.py], [mdm/poller.py], [mdm/compliance_change.py],
    [registry/revoke_cert.py] and the audit rows of
    [attestation/audit_events.py].  The state is the table of the agents, the
    cache of the devices, the stored deltaLink, the client and the audit
    trail.  Statements fail by the oracle of [Effects]; inside a transaction
    no other connection writes. *)

From S2P Require Import Prelude Sha256 Json AuditCanon AuditLog AuditChain Tier Effects Intune.
From Stdlib Require Import QArith Qminmax Lqa.

Open Scope Z_scope.

(** ** The circuit breaker *)

Inductive breaker_state := CLOSED | OPEN | HALF_OPEN.

#[export] Instance breaker_state_eq_dec : EqDecision breaker_state.
Proof. solve_decision. Defined.

Record CircuitBreakerConfig := { failure_threshold : Z; cooldown_seconds : Q }.

Definition default_config : CircuitBreakerConfig :=
  {| failure_threshold := 5; cooldown_seconds := 1800 |}.

Record CircuitBreaker := {
  config : CircuitBreakerConfig;
  b_state : breaker_state;
  consecutive_failures : Z;
  opened_at_monotonic : option Q;
}.

Definition closed_breaker (cfg : CircuitBreakerConfig) : CircuitBreaker :=
  {| config := cfg; b_state := CLOSED; consecutive_failures := 0; opened_at_monotonic := None |}.

Definition _set_state (new_state : breaker_state) (b : CircuitBreaker) : CircuitBreaker :=
  {| config := config b; b_state := new_state; consecutive_failures := consecutive_failures b;
     opened_at_monotonic := opened_at_monotonic b |}.

Definition cooldown_remaining_seconds (now : Q) (b : CircuitBreaker) : Q :=
  match b_state b, opened_at_monotonic b with
  | OPEN, Some opened => Qmax 0 (cooldown_seconds (config b) - (now - opened))
  | _, _ => 0
  end.

Definition should_poll (now : Q) (b : CircuitBreaker) : bool * CircuitBreaker :=
  match b_state b with
  | CLOSED | HALF_OPEN => (true, b)
  | OPEN =>
      if Qle_bool (cooldown_remaining_seconds now b) 0 then (true, _set_state HALF_OPEN b)
      else (false, b)
  end.

Definition record_success (b : CircuitBreaker) : CircuitBreaker :=
  {| config := config b; b_state := CLOSED; consecutive_failures := 0; opened_at_monotonic := None |}.

Definition opened (now : Q) (b : CircuitBreaker) : CircuitBreaker :=
  {| config := config b; b_state := OPEN; consecutive_failures := consecutive_failures b;
     opened_at_monotonic := Some now |}.

(** The flag is the edge from CLOSED to OPEN. *)
Definition record_failure (now : Q) (b : CircuitBreaker) : bool * CircuitBreaker :=
  let b := {| config := config b; b_state := b_state b;
              consecutive_failures := consecutive_failures b + 1;
              opened_at_monotonic := opened_at_monotonic b |} in
  match b_state b with
  | HALF_OPEN => (false, opened now b)
  | CLOSED =>
      if failure_threshold (config b) <=? consecutive_failures b then (true, opened now b)
      else (false, b)
  | OPEN => (false, b)
  end.

(** ** The database *)

(** The columns of [internal_agents] these modules use; instants are
    microseconds. *)
Record internal_agent := {
  a_agent_id : string;
  a_last_attestation : option string;
  a_is_active : bool;
  a_revoked_at : option Z;
  a_revoked_reason : option string;
  a_federation_revision : Z;
}.

(** A row of [mdm_device_state] below its key [(mdm, device_id)]. *)
Record device_row := {
  d_compliance : option string;
  d_azure_ad_device_id : option string;
  d_user_principal_name : option string;
  d_device_name : option string;
  d_manufacturer : option string;
  d_serial_number : option string;
  d_raw_payload : string;
  d_last_seen_at : Z;
  d_created_at : Z;
}.

Record mdm_state := {
  m_trail : world;
  m_audits : nat;
  m_statements : nat;
  internal_agents : list internal_agent;
  mdm_device_state : gmap (string * string) device_row;
  stored_delta_link : option string;      (* proxy_config, "mdm.intune.delta_link" *)
  graph_client : IntuneClient;
}.

#[export] Instance mdm_trailed : Trailed mdm_state := {
  trail := m_trail;
  audit_calls := m_audits;
  audited := λ w s,
    {| m_trail := w; m_audits := Datatypes.S (m_audits s); m_statements := m_statements s;
       internal_agents := internal_agents s; mdm_device_state := mdm_device_state s;
       stored_delta_link := stored_delta_link s; graph_client := graph_client s |};
  trail_audited := λ w s, eq_refl;
}.

#[export] Instance mdm_transactional : Transactional mdm_state := {
  statements := m_statements;
  issued := λ s,
    {| m_trail := m_trail s; m_audits := m_audits s; m_statements := Datatypes.S (m_statements s);
       internal_agents := internal_agents s; mdm_device_state := mdm_device_state s;
       stored_delta_link := stored_delta_link s; graph_client := graph_client s |};
  restore := λ s s',
    {| m_trail := {| w_table := w_table (m_trail s); w_pending := w_pending (m_trail s');
                     w_unhealthy := w_unhealthy (m_trail s') |};
       m_audits := m_audits s'; m_statements := m_statements s';
       internal_agents := internal_agents s; mdm_device_state := mdm_device_state s;
       stored_delta_link := stored_delta_link s; graph_client := graph_client s' |};
}.

Definition with_agents (l : list internal_agent) (s : mdm_state) : mdm_state :=
  {| m_trail := m_trail s; m_audits := m_audits s; m_statements := m_statements s;
     internal_agents := l; mdm_device_state := mdm_device_state s;
     stored_delta_link := stored_delta_link s; graph_client := graph_client s |}.
Definition with_devices (d : gmap (string * string) device_row) (s : mdm_state) : mdm_state :=
  {| m_trail := m_trail s; m_audits := m_audits s; m_statements := m_statements s;
     internal_agents := internal_agents s; mdm_device_state := d;
     stored_delta_link := stored_delta_link s; graph_client := graph_client s |}.
Definition with_link (l : option string) (s : mdm_state) : mdm_state :=
  {| m_trail := m_trail s; m_audits := m_audits s; m_statements := m_statements s;
     internal_agents := internal_agents s; mdm_device_state := mdm_device_state s;
     stored_delta_link := l; graph_client := graph_client s |}.
Definition with_client (c : IntuneClient) (s : mdm_state) : mdm_state :=
  {| m_trail := m_trail s; m_audits := m_audits s; m_statements := m_statements s;
     internal_agents := internal_agents s; mdm_device_state := mdm_device_state s;
     stored_delta_link := stored_delta_link s; graph_client := c |}.
(** A row written by an INSERT of its own, its chain columns left NULL. *)
Definition with_unchained (p : audit_payload) (s : mdm_state) : mdm_state :=
  {| m_trail := {| w_table := w_table (m_trail s)
                     ++ [{| payload := p; chain_seq := None; prev_hash := None; row_hash := None;
                            hash_format := None |}];
                   w_pending := w_pending (m_trail s); w_unhealthy := w_unhealthy (m_trail s) |};
     m_audits := m_audits s; m_statements := m_statements s;
     internal_agents := internal_agents s; mdm_device_state := mdm_device_state s;
     stored_delta_link := stored_delta_link s; graph_client := graph_client s |}.

(** What the process meets: the trail's surroundings, the database, Graph and
    the driver, which turns a JSON value bound to a text column into a text or
    raises. *)
Record mdm_env := {
  e_auditing : auditing;
  fails : nat → option exn;
  e_graph : graph;
  bind_text : json → outcome (option string);
  json_loads : string → option json;
  isoformat_utc : Z → string;
  attestation_stale_threshold_seconds : Z;
  exn_text : exn → string;      (* f"{type(exc).__name__}: {exc}" *)
}.

Section Handlers.
Context `{Hash} `{ZuluTime} (E : mdm_env).

Notation M := (M mdm_state).
Notation statement := (statement (fails E)).
Notation transaction := (transaction (fails E)).
Notation audit := (audit (e_auditing E)).

Definition raw_row (now : Z) (agent action : string) (detail : string) : audit_payload :=
  {| timestamp := isoformat_utc E now; AuditCanon.agent_id := agent; action := action; tool_name := None;
     status := "success"; detail := Some detail; request_id := None; duration_ms := None;
     dpop_jkt := None; on_behalf_of_user_id := None |}.

(** The INSERT inside its [try]. *)
Definition insert_unchained (p : audit_payload) : M unit :=
  catch (statement (modify (with_unchained p))) (λ _, ret tt).

(** ** Audit rows of the attestation family *)

Definition ALLOWED_SUBTYPES : list string := ["verified"; "revoked"; "stale"].
Definition _VALID_TRIGGERS : list string := ["enrollment"; "polling"; "ttl_expired"].

Definition _build_detail_payload (event_subtype : string) (device_attestation effective_tier
    previous_compliance : json) (trigger : string) (extra : fields) : string :=
  let payload :=
    [("event_subtype", JStr event_subtype); ("device_attestation", device_attestation);
     ("effective_tier", effective_tier); ("previous_compliance", previous_compliance);
     ("trigger", JStr trigger)] in
  dumps (JObj (foldl (λ p '(k, v), if has_key k p then p else p ++ [(k, v)]) payload extra)).

(** The two columns outside the hashed fields are not modelled. *)
Definition log_device_attestation_change (agent event_subtype : string)
    (device_attestation effective_tier previous_compliance : json) (trigger : string) (now : Z)
    : M unit :=
  let event_subtype := if bool_decide (event_subtype ∈ ALLOWED_SUBTYPES) then event_subtype
                       else "verified" in
  let trigger := if bool_decide (trigger ∈ _VALID_TRIGGERS) then trigger else "polling" in
  insert_unchained (raw_row now agent "device_attestation"
    (_build_detail_payload event_subtype device_attestation effective_tier previous_compliance
       trigger [])).

Definition degraded_details (failures : Z) (status message : json) : json :=
  JObj [("mdm", JStr "intune"); ("consecutive_failures", JInt failures);
        ("last_error_status", status); ("last_error_message", message);
        ("remediation", JStr "Check MCP_PROXY_MDM_INTUNE_* credentials and Graph API throttle headers. The polling loop stays in OPEN for the configured cooldown before a single probe.")].

Definition degraded_call (failures : Z) (status message : json) : audit_call :=
  {| c_agent_id := "system"; c_action := "mdm_polling_degraded"; c_status := "failure";
     c_tool_name := None; c_detail := None; c_details := Some (degraded_details failures status message);
     c_request_id := None; c_duration_ms := None; c_dpop_jkt := None; c_on_behalf_of_user_id := None |}.

Definition emit_polling_degraded (failures : Z) (status message : json) : M unit :=
  catch (audit (degraded_call failures status message)) (λ _, ret tt).

(** ** Revocation *)

Definition REASON_INSUFFICIENT_COMPLIANCE : string := "insufficient_compliance".

Definition find_agent (agent : string) (l : list internal_agent) : option internal_agent :=
  snd <$> list_find (λ a, a_agent_id a = agent) l.

Definition revoked_row (now : Z) (reason_code : string) (a : internal_agent) : internal_agent :=
  {| a_agent_id := a_agent_id a; a_last_attestation := a_last_attestation a; a_is_active := false;
     a_revoked_at := Some now; a_revoked_reason := Some reason_code;
     a_federation_revision := a_federation_revision a + 1 |}.

(** [WHERE agent_id = :aid AND revoked_at IS NULL] *)
Definition revocable (agent : string) (a : internal_agent) : bool :=
  bool_decide (a_agent_id a = agent) && bool_decide (a_revoked_at a = None).

Definition update_where (p : internal_agent → bool) (f : internal_agent → internal_agent)
    (l : list internal_agent) : list internal_agent :=
  map (λ a, if p a then f a else a) l.

(** [_run]: whether the row went from active to revoked. *)
Definition mark_revoked (agent reason_code : string) (now : Z) : M bool :=
  do existing <- statement (gets (λ s, find_agent agent (internal_agents s)));
  match existing with
  | None => ret false
  | Some a =>
      if bool_decide (a_revoked_at a = None) then
        do hit <- statement (λ s,
          (Ret (existsb (revocable agent) (internal_agents s)),
           with_agents (update_where (revocable agent) (revoked_row now reason_code) (internal_agents s)) s));
        ret hit
      else ret false
  end.

Definition revocation_details (reason_code : string) (reason_detail mdm : option string) (now : Z)
    : json :=
  JObj [("reason_code", JStr reason_code); ("reason_detail", opt_json reason_detail);
        ("mdm", opt_json mdm); ("revoked_at", JStr (isoformat_utc E now))].

(** On the caller's connection, and on one of its own. *)
Definition revoke_agent_cert (agent reason_code : string) (reason_detail mdm : option string)
    (now : Z) : M bool :=
  do transitioned <- mark_revoked agent reason_code now;
  if transitioned : bool then
    do _ <- insert_unchained (raw_row now agent "agent.revoked"
              (dumps (revocation_details reason_code reason_detail mdm now)));
    ret true
  else ret false.

Definition revoke_agent_cert_alone (agent reason_code : string) (reason_detail mdm : option string)
    (now : Z) : M bool :=
  do transitioned <- transaction (mark_revoked agent reason_code now);
  if transitioned : bool then
    do _ <- catch (audit {| c_agent_id := agent; c_action := "agent.revoked"; c_status := "success";
                            c_tool_name := None; c_detail := None;
                            c_details := Some (revocation_details reason_code reason_detail mdm now);
                            c_request_id := None; c_duration_ms := None; c_dpop_jkt := None;
                            c_on_behalf_of_user_id := None |}) (λ _, ret tt);
    ret true
  else ret false.

(** ** Reconciliation *)

Record ReconcileSummary := {
  devices_checked : Z;
  transitions : Z;
  revocations : Z;
  reverifications : Z;
}.

Definition no_summary : ReconcileSummary :=
  {| devices_checked := 0; transitions := 0; revocations := 0; reverifications := 0 |}.
Definition checked_one (r : ReconcileSummary) : ReconcileSummary :=
  {| devices_checked := devices_checked r + 1; transitions := transitions r;
     revocations := revocations r; reverifications := reverifications r |}.
Definition flipped_one (r : ReconcileSummary) : ReconcileSummary :=
  {| devices_checked := devices_checked r; transitions := transitions r + 1;
     revocations := revocations r; reverifications := reverifications r |}.
Definition revoked_one (r : ReconcileSummary) : ReconcileSummary :=
  {| devices_checked := devices_checked r; transitions := transitions r;
     revocations := revocations r + 1; reverifications := reverifications r |}.
Definition verified_one (r : ReconcileSummary) : ReconcileSummary :=
  {| devices_checked := devices_checked r; transitions := transitions r;
     revocations := revocations r; reverifications := reverifications r + 1 |}.

Definition cached_compliance (mdm device : string) (s : mdm_state) : option string :=
  mdm_device_state s !! (mdm, device) ≫= d_compliance.

Definition _load_cached_compliance (mdm device : string) : M (option string) :=
  statement (gets (cached_compliance mdm device)).

(** Whether a stored claim is anchored to the device. *)
Definition bound_to (mdm device : string) (claim_json : option string) : outcome bool :=
  match claim_json with
  | None | Some EmptyString => Ret false
  | Some text =>
      match json_loads E text with
      | None => Ret false
      | Some (JObj claim) =>
          let! inner := inner_block claim in
          Ret (is_str mdm (get_none "mdm" inner) && is_str device (get_none "device_id" inner))
      | Some _ => Raise AttributeError
      end
  end.

Fixpoint matched (mdm device : string) (l : list internal_agent) : outcome (list internal_agent) :=
  match l with
  | [] => Ret []
  | a :: rest =>
      let! here := bound_to mdm device (a_last_attestation a) in
      let! others := matched mdm device rest in
      Ret (if here : bool then a :: others else others)
  end.

Definition _find_agents_bound_to_device (mdm device : string) : M (list internal_agent) :=
  do rows <- statement (gets internal_agents);
  lift (matched mdm device rows).

Definition with_claim (claim : string) (a : internal_agent) : internal_agent :=
  {| a_agent_id := a_agent_id a; a_last_attestation := Some claim; a_is_active := a_is_active a;
     a_revoked_at := a_revoked_at a; a_revoked_reason := a_revoked_reason a;
     a_federation_revision := a_federation_revision a |}.

Definition _update_agent_attestation (agent : string) (fresh_claim : fields) : M unit :=
  statement (modify (λ s, with_agents
    (update_where (λ a, bool_decide (a_agent_id a = agent)) (with_claim (dumps (JObj fresh_claim)))
       (internal_agents s)) s)).

Definition _build_fresh_claim (mdm device compliance : string) (manufacturer : json) (now : Z)
    : outcome fields :=
  apply_stale_downgrade
    (build_attestation_claim (Some mdm) (Some device) compliance manufacturer now now None
       STRENGTH_SOFT_ONLY)
    (attestation_stale_threshold_seconds E).

Definition flip_detail (device : string) : string :=
  "Intune device " +:+ device +:+ " flipped to non_compliant; cert pinned to this device is no longer trusted.".

Definition attestation_event (agent subtype previous : string) (fresh_claim : fields) (now : Z) : M unit :=
  do dev <- lift (item "device_attestation" fresh_claim);
  do tier <- lift (item "effective_tier" fresh_claim);
  log_device_attestation_change agent subtype dev tier (JStr previous) "polling" now.

Definition revoke_bound (mdm device previous : string) (manufacturer : json) (now : Z)
    (r : ReconcileSummary) (a : internal_agent) : M ReconcileSummary :=
  do fresh_claim <- lift (_build_fresh_claim mdm device "non_compliant" manufacturer now);
  do transitioned <- revoke_agent_cert (a_agent_id a) REASON_INSUFFICIENT_COMPLIANCE
                       (Some (flip_detail device)) (Some mdm) now;
  if transitioned : bool then
    do _ <- _update_agent_attestation (a_agent_id a) fresh_claim;
    do _ <- attestation_event (a_agent_id a) "revoked" previous fresh_claim now;
    ret (revoked_one r)
  else ret r.

Definition verify_bound (mdm device previous : string) (manufacturer : json) (now : Z)
    (r : ReconcileSummary) (a : internal_agent) : M ReconcileSummary :=
  do fresh_claim <- lift (_build_fresh_claim mdm device "compliant" manufacturer now);
  do _ <- attestation_event (a_agent_id a) "verified" previous fresh_claim now;
  ret (verified_one r).

Definition reconcile_device (mdm : string) (now : Z) (r : ReconcileSummary) (graph_device : json)
    : M ReconcileSummary :=
  do projected <- lift (project_device_row graph_device);
  let device := device_id projected in
  if bool_decide (device = "") then ret r
  else
    let r := checked_one r in
    let fresh := compliance projected in
    do previous <- _load_cached_compliance mdm device;
    match previous with
    | None => ret r
    | Some previous =>
        if bool_decide (previous = fresh) then ret r
        else
          let r := flipped_one r in
          if bool_decide (previous = "compliant") && bool_decide (fresh = "non_compliant") then
            do agents <- _find_agents_bound_to_device mdm device;
            for_each (revoke_bound mdm device previous (manufacturer projected) now) r agents
          else if bool_decide (previous = "non_compliant") && bool_decide (fresh = "compliant") then
            do agents <- _find_agents_bound_to_device mdm device;
            for_each (verify_bound mdm device previous (manufacturer projected) now) r agents
          else ret r
    end.

Definition reconcile_devices_and_revoke (mdm : string) (now : Z) (fresh_devices : list json)
    : M ReconcileSummary :=
  for_each (reconcile_device mdm now) no_summary fresh_devices.

(** ** One poll *)

Definition _reconcile_compliance_changes (mdm : string) (now : Z) (devices : list json)
    : M ReconcileSummary :=
  catch (transaction (reconcile_devices_and_revoke mdm now devices)) (λ _, ret no_summary).

(** ON CONFLICT keeps [created_at]. *)
Definition upserted (old : option device_row) (row : device_row) : device_row :=
  {| d_compliance := d_compliance row; d_azure_ad_device_id := d_azure_ad_device_id row;
     d_user_principal_name := d_user_principal_name row; d_device_name := d_device_name row;
     d_manufacturer := d_manufacturer row; d_serial_number := d_serial_number row;
     d_raw_payload := d_raw_payload row; d_last_seen_at := d_last_seen_at row;
     d_created_at := match old with Some o => d_created_at o | None => d_created_at row end |}.

Definition bound_row (p : projected_device) (graph_device : json) (now : Z) : outcome device_row :=
  let! azure_ad := bind_text E (azure_ad_device_id p) in
  let! upn := bind_text E (user_principal_name p) in
  let! name := bind_text E (device_name p) in
  let! manufacturer := bind_text E (manufacturer p) in
  let! serial := bind_text E (serial_number p) in
  Ret {| d_compliance := Some (compliance p); d_azure_ad_device_id := azure_ad;
         d_user_principal_name := upn; d_device_name := name; d_manufacturer := manufacturer;
         d_serial_number := serial; d_raw_payload := dumps_plain graph_device;
         d_last_seen_at := now; d_created_at := now |}.

Definition upsert_device (mdm : string) (now : Z) (touched : Z) (graph_device : json) : M Z :=
  do projected <- lift (project_device_row graph_device);
  if bool_decide (device_id projected = "") then ret touched
  else
    do row <- lift (bound_row projected graph_device now);
    do _ <- statement (modify (λ s,
      with_devices (<[(mdm, device_id projected) :=
                        upserted (mdm_device_state s !! (mdm, device_id projected)) row]>
                      (mdm_device_state s)) s));
    ret (touched + 1).

Definition upsert_device_rows (mdm : string) (now : Z) (devices : list json) : M Z :=
  match devices with
  | [] => ret 0
  | _ => transaction (for_each (upsert_device mdm now) 0 devices)
  end.

Definition _load_delta_link : M (option string) :=
  do link <- transaction (statement (gets stored_delta_link));
  ret (match link with Some (String _ _) => link | _ => None end).

Definition _persist_delta_link (value : json) : M unit :=
  transaction (do text <- lift (bind_text E value); statement (modify (with_link text))).

Definition on_client {A} (m : Effects.M IntuneClient A) : M A := λ s,
  let '(r, c) := m (graph_client s) in (r, with_client c s).

Definition intune_poll_once (now : Z) : M (Z * json) :=
  do delta_link <- _load_delta_link;
  do (devices, next_delta) <- on_client (fetch_managed_devices_delta (e_graph E) delta_link);
  do _ <- _reconcile_compliance_changes "intune" now devices;
  do touched <- upsert_device_rows "intune" now devices;
  do _ <- (if py_bool next_delta then catch (_persist_delta_link next_delta) (λ _, ret tt) else ret tt);
  ret (touched, next_delta).

(** ** The loop *)

Definition _BACKOFF_SECONDS : list Z := [30; 60; 120; 300; 300].

(** What the loop keeps between its rounds. *)
Record loop_state := { breaker : CircuitBreaker; backoff_idx : nat }.

Definition new_loop (cfg : CircuitBreakerConfig) : loop_state :=
  {| breaker := closed_breaker cfg; backoff_idx := 0 |}.

Definition backoff (idx : nat) : Z :=
  default 0 (_BACKOFF_SECONDS !! Nat.min idx (length _BACKOFF_SECONDS - 1)).

(** The clocks of a round: [time.monotonic()] when it starts, when it sleeps
    instead of polling and when it records a failure, [datetime.now()] of the
    poll. *)
Record round := { asked_at : Q; slept_at : Q; failed_at : Q; started : Z }.

(** The seconds the round ends with waiting. *)
Definition poll_failed (r : round) (e : exn) (l : loop_state) : M (loop_state * Q) :=
  let wait_s := backoff (backoff_idx l) in
  let '(status, message) :=
    match e with IntuneGraphError status message => (status, message) | _ => (0, exn_text E e) end in
  let '(opened_edge, b) := record_failure (failed_at r) (breaker l) in
  do _ <- (if opened_edge : bool
           then catch (emit_polling_degraded (consecutive_failures b) (JInt status) (JStr message))
                  (λ _, ret tt)
           else ret tt);
  ret ({| breaker := b; backoff_idx := S (backoff_idx l) |}, inject_Z wait_s).

(** One round of the loop; the flag tells whether it polled. *)
Definition poll_round (interval_seconds : Z) (r : round) (l : loop_state)
    : M (bool * loop_state * Q) :=
  let '(go, b) := should_poll (asked_at r) (breaker l) in
  let l := {| breaker := b; backoff_idx := backoff_idx l |} in
  if negb go then ret (false, l, cooldown_remaining_seconds (slept_at r) b)
  else λ s,
    match intune_poll_once (started r) s with
    | (Ret _, s1) =>
        (Ret (true, {| breaker := record_success b; backoff_idx := 0 |}, inject_Z interval_seconds), s1)
    | (Raise e, s1) => (do (l, wait_s) <- poll_failed r e l; ret (true, l, wait_s)) s1
    end.

End Handlers.

(** ** Reconciliation, agent by agent *)

Section Reconcile.
Context `{Hash} `{ZuluTime} (E : mdm_env) (mdm : string) (now : Z).

(** The device of [g] was compliant in the cache and no longer is. *)
Definition flips (s : mdm_state) (g : json) : bool :=
  match project_device_row g with
  | Ret p => negb (bool_decide (device_id p = "")) &&
             bool_decide (cached_compliance mdm (device_id p) s = Some "compliant") &&
             bool_decide (compliance p = "non_compliant")
  | Raise _ => false
  end.

Definition anchored (device : string) (a : internal_agent) : bool :=
  match bound_to E mdm device (a_last_attestation a) with Ret b => b | Raise _ => false end.

Definition unrevoked (a : internal_agent) : bool := bool_decide (a_revoked_at a = None).

(** The agent as the flip of a device leaves it. *)
Definition downgraded_by (g : json) (a : internal_agent) : internal_agent :=
  match project_device_row g with
  | Ret p =>
      match _build_fresh_claim E mdm (device_id p) "non_compliant" (manufacturer p) now with
      | Ret claim => with_claim (dumps (JObj claim)) (revoked_row now REASON_INSUFFICIENT_COMPLIANCE a)
      | Raise _ => a
      end
  | Raise _ => a
  end.

Definition dooms (s : mdm_state) (a : internal_agent) (g : json) : bool :=
  flips s g && match project_device_row g with Ret p => anchored (device_id p) a | Raise _ => false end.

(** What a poll that brings [devices] means for one agent: the first flip of a
    device its claim is anchored to revokes it. *)
Definition reconciled (s : mdm_state) (devices : list json) (a : internal_agent) : internal_agent :=
  if unrevoked a then
    match List.find (dooms s a) devices with Some g => downgraded_by g a | None => a end
  else a.

Definition same_cache (s s' : mdm_state) : Prop := mdm_device_state s' = mdm_device_state s.

Lemma insert_keeps p s :
  ∃ s', insert_unchained E p s = (Ret tt, s') ∧ internal_agents s' = internal_agents s ∧ same_cache s s'.
Proof.
  unfold insert_unchained, catch, statement, modify, ret.
  destruct (fails E (statements s)); by eexists.
Qed.

Lemma gets_statement {A} (f : mdm_state → A) s a s' :
  statement (fails E) (gets f) s = (Ret a, s') → a = f (issued s) ∧ s' = issued s.
Proof. intros Hg%statement_Ret. unfold gets in Hg. by simplify_eq. Qed.

Lemma update_where_none p f l : (∀ a, a ∈ l → p a = false) → update_where p f l = l.
Proof.
  unfold update_where. induction l as [|a l IH]; intros Hp; [done|]. cbn [map].
  rewrite (Hp a) by left. f_equal. apply IH. intros b Hb. apply Hp. by right.
Qed.

Lemma update_where_ext p q f g l :
  (∀ a, a ∈ l → p a = q a ∧ (p a = true → f a = g a)) → update_where p f l = update_where q g l.
Proof.
  unfold update_where. intros Hl. apply map_ext_in. intros a Ha%list_elem_of_In.
  destruct (Hl a Ha) as [Hpq Hfg]. rewrite <- Hpq. destruct (p a); [by apply Hfg|done].
Qed.

Lemma update_where_ids p f l :
  (∀ a, a_agent_id (f a) = a_agent_id a) → a_agent_id <$> update_where p f l = a_agent_id <$> l.
Proof.
  intros Hf. unfold update_where. induction l as [|a l IH]; [done|]. cbn.
  f_equal; [by destruct (p a)|exact IH].
Qed.

Lemma unique_row l a b :
  NoDup (a_agent_id <$> l) → a ∈ l → b ∈ l → a_agent_id a = a_agent_id b → a = b.
Proof.
  induction l as [|c l IH]; intros Hnd Ha Hb Heq; [by apply not_elem_of_nil in Ha|].
  cbn in Hnd. apply NoDup_cons in Hnd as [Hc Hnd].
  apply elem_of_cons in Ha as [->|Ha], Hb as [->|Hb]; [done| | |by apply IH].
  - destruct Hc. rewrite Heq. by apply list_elem_of_fmap_2.
  - destruct Hc. rewrite <- Heq. by apply list_elem_of_fmap_2.
Qed.

Lemma find_agent_Some x l a : find_agent x l = Some a → a ∈ l ∧ a_agent_id a = x.
Proof.
  unfold find_agent. destruct (list_find _ l) as [[i a']|] eqn:Hf; [|done]. intros [= <-].
  apply list_find_Some in Hf as (Hi & Hid & _). split; [|done]. by eapply list_elem_of_lookup_2.
Qed.

Lemma find_agent_None x l a : find_agent x l = None → a ∈ l → a_agent_id a ≠ x.
Proof.
  unfold find_agent. destruct (list_find _ l) as [[i a']|] eqn:Hf; [done|]. intros _ Ha Hid.
  apply list_find_None in Hf. rewrite Forall_forall in Hf. by apply (Hf a).
Qed.

(** [_run] and what it leaves of the table. *)
Lemma mark_revoked_agents x reason s b s' :
  NoDup (a_agent_id <$> internal_agents s) → mark_revoked E x reason now s = (Ret b, s') →
  internal_agents s' = update_where (revocable x) (revoked_row now reason) (internal_agents s) ∧
  same_cache s s' ∧ (b = existsb (revocable x) (internal_agents s)).
Proof.
  intros Hnd (existing & s1 & Hget & Hrest)%bind_Ret.
  apply gets_statement in Hget as [-> ->]. change (internal_agents (issued s)) with (internal_agents s) in Hrest.
  assert (∀ l, (∀ a, a ∈ l → revocable x a = false) → existsb (revocable x) l = false) as Hnone.
  { intros l Hl. apply not_true_is_false. intros (a & Ha%list_elem_of_In & Hr)%existsb_exists.
    by rewrite Hl in Hr. }
  destruct (find_agent x (internal_agents s)) as [a|] eqn:Hf.
  - apply find_agent_Some in Hf as [Ha Hid]. case_bool_decide as Hrev.
    + apply bind_Ret in Hrest as (hit & s2 & Hst%statement_Ret & Hret). cbn in Hst.
      injection Hst as <- <-. injection Hret as <- <-. done.
    + injection Hrest as <- <-.
      assert (∀ c, c ∈ internal_agents s → revocable x c = false) as Hno.
      { intros c Hc. unfold revocable. case_bool_decide as Hcid; [|done].
        assert (c = a) as -> by (by eapply unique_row; eauto; congruence).
        by rewrite bool_decide_eq_false_2. }
      rewrite update_where_none by done. by rewrite Hnone.
  - injection Hrest as <- <-.
    assert (∀ c, c ∈ internal_agents s → revocable x c = false) as Hno.
    { intros c Hc. unfold revocable. rewrite bool_decide_eq_false_2; [done|].
      by eapply find_agent_None. }
    rewrite update_where_none by done. by rewrite Hnone.
Qed.

Lemma event_keeps x subtype previous claim s r s' :
  attestation_event E x subtype previous claim now s = (Ret r, s') →
  internal_agents s' = internal_agents s ∧ same_cache s s'.
Proof.
  intros (dev & s1 & Hd & Hrest)%bind_Ret. apply bind_Ret in Hrest as (tier & s2 & Ht & Hrest).
  unfold lift in Hd, Ht. injection Hd as _ <-. injection Ht as _ <-.
  unfold log_device_attestation_change in Hrest.
  match type of Hrest with insert_unchained _ ?p _ = _ =>
    destruct (insert_keeps p s) as (s3 & Heq & Hkeep) end.
  rewrite Heq in Hrest. by injection Hrest as _ <-.
Qed.

(** The row of a revocation, with its new claim. *)
Definition struck (claim : fields) (a : internal_agent) : internal_agent :=
  with_claim (dumps (JObj claim)) (revoked_row now REASON_INSUFFICIENT_COMPLIANCE a).

Lemma revoke_bound_agents device previous man claim r x s r' s' :
  _build_fresh_claim E mdm device "non_compliant" man now = Ret claim →
  NoDup (a_agent_id <$> internal_agents s) →
  revoke_bound E mdm device previous man now r x s = (Ret r', s') →
  internal_agents s' = update_where (revocable (a_agent_id x)) (struck claim) (internal_agents s) ∧
  same_cache s s'.
Proof.
  intros Hclaim Hnd. unfold revoke_bound. rewrite Hclaim.
  intros (c & s0 & Hc & Hrest)%bind_Ret. injection Hc as <- <-.
  apply bind_Ret in Hrest as (transitioned & s1 & Hrev & Hrest).
  unfold revoke_agent_cert in Hrev. apply bind_Ret in Hrev as (b & s2 & Hmark & Hins).
  destruct (mark_revoked_agents _ _ _ _ _ Hnd Hmark) as (Hag & Hsame & Hb).
  destruct b.
  - apply bind_Ret in Hins as ([] & s3 & Hins & Hret).
    match type of Hins with insert_unchained _ ?p _ = _ =>
      destruct (insert_keeps p s2) as (s3' & Heq & Hag3 & Hsame3) end.
    rewrite Heq in Hins. injection Hins as ->. injection Hret as <- <-.
    apply bind_Ret in Hrest as ([] & s4 & Hupd%statement_Ret & Hrest). cbn in Hupd. injection Hupd as <-.
    apply bind_Ret in Hrest as ([] & s5 & Hev & Hret). injection Hret as _ <-.
    destruct (event_keeps _ _ _ _ _ _ _ Hev) as [Hag5 Hsame5]. split.
    + rewrite Hag5. cbn. rewrite Hag3, Hag. unfold update_where. rewrite map_map.
      symmetry in Hb. apply existsb_exists in Hb as (y & Hy%list_elem_of_In & Hry).
      apply map_ext_in. intros a Ha%list_elem_of_In.
      destruct (revocable (a_agent_id x) a) eqn:Hra.
      * cbn. unfold revocable in Hra. bools. by rewrite bool_decide_eq_true_2.
      * case_bool_decide as Hid; [|done]. exfalso.
        unfold revocable in Hry. bools.
        assert (a = y) as -> by (eapply unique_row; eauto; congruence).
        unfold revocable in Hra. rewrite !bool_decide_eq_true_2 in Hra; done.
    + unfold same_cache in *. rewrite Hsame5. cbn. by rewrite Hsame3.
  - injection Hins as <- <-. injection Hrest as _ <-. split; [|done]. rewrite Hag.
    assert (∀ a, a ∈ internal_agents s → revocable (a_agent_id x) a = false) as Hno.
    { intros a Ha%list_elem_of_In. destruct (revocable _ a) eqn:Hra; [|done].
      assert (existsb (revocable (a_agent_id x)) (internal_agents s) = true) as Hex
        by (apply existsb_exists; eauto). congruence. }
    by rewrite !update_where_none.
Qed.

Lemma update_where_twice p q f l :
  (∀ a, p (f a) = false) →
  update_where p f (update_where q f l) = update_where (λ a, p a || q a) f l.
Proof.
  intros Hp. unfold update_where. rewrite map_map. apply map_ext. intros a.
  destruct (q a); [by rewrite Hp, orb_true_r|]. by rewrite orb_false_r.
Qed.

Lemma struck_ids claim p l : a_agent_id <$> update_where p (struck claim) l = a_agent_id <$> l.
Proof. by apply update_where_ids. Qed.

Definition named (l : list internal_agent) (a : internal_agent) : bool :=
  existsb (λ x, revocable (a_agent_id x) a) l.

Lemma revoke_loop_agents device previous man claim l r s r' s' :
  _build_fresh_claim E mdm device "non_compliant" man now = Ret claim →
  NoDup (a_agent_id <$> internal_agents s) →
  for_each (revoke_bound E mdm device previous man now) r l s = (Ret r', s') →
  internal_agents s' = update_where (named l) (struck claim) (internal_agents s) ∧ same_cache s s'.
Proof.
  intros Hclaim. revert r s. induction l as [|x l IH]; intros r s Hnd Hrun; cbn in Hrun.
  - injection Hrun as _ <-. split; [|done]. symmetry. by apply update_where_none.
  - apply bind_Ret in Hrun as (r1 & s1 & Hone & Hrest).
    destruct (revoke_bound_agents _ _ _ _ _ _ _ _ _ Hclaim Hnd Hone) as [Hag Hsame].
    apply IH in Hrest as [Hag' Hsame']; [|by rewrite Hag, struck_ids].
    split; [|by unfold same_cache in *; congruence].
    rewrite Hag', Hag, update_where_twice.
    + apply update_where_ext. intros a _. split; [apply orb_comm|done].
    + intros a. apply not_true_is_false. intros (y & _ & Hy)%existsb_exists.
      unfold revocable in Hy. bools. done.
Qed.

Lemma matched_filter device l L :
  matched E mdm device l = Ret L → L = List.filter (anchored device) l.
Proof.
  revert L. induction l as [|a l IH]; intros L HL; cbn in HL; [by injection HL as <-|].
  unfold anchored at 1. cbn [List.filter]. destruct (bound_to _ _ _ _) as [here|]; [|done].
  cbn in HL. destruct (matched E mdm device l) as [others|]; [|done]. cbn in HL. injection HL as <-.
  rewrite (IH others) by done. by destruct here.
Qed.

(** In a table of distinct agents, naming the rows is naming the agents. *)
Lemma named_filter p l a :
  NoDup (a_agent_id <$> l) → a ∈ l → named (List.filter p l) a = unrevoked a && p a.
Proof.
  intros Hnd Ha. unfold named, unrevoked. apply eq_true_iff_eq.
  rewrite existsb_exists, andb_true_iff. split.
  - intros (x & [Hx Hpx]%filter_In & Hr). unfold revocable in Hr. bools.
    apply list_elem_of_In in Hx. assert (a = x) as -> by (by eapply unique_row; eauto).
    by rewrite bool_decide_eq_true_2.
  - intros [Hun Hp]. exists a. split; [by apply filter_In; split; [apply list_elem_of_In|]|].
    unfold revocable. by rewrite bool_decide_eq_true_2.
Qed.

Lemma verify_loop_agents device previous man l r s r' s' :
  for_each (verify_bound E mdm device previous man now) r l s = (Ret r', s') →
  internal_agents s' = internal_agents s ∧ same_cache s s'.
Proof.
  revert r s. induction l as [|x l IH]; intros r s Hrun; cbn in Hrun; [by injection Hrun as _ <-|].
  apply bind_Ret in Hrun as (r1 & s1 & Hone & Hrest).
  apply bind_Ret in Hone as (claim & s2 & Hc & Hone). unfold lift in Hc. injection Hc as _ <-.
  apply bind_Ret in Hone as ([] & s3 & Hev & Hret). injection Hret as _ <-.
  destruct (event_keeps _ _ _ _ _ _ _ Hev) as [Hag Hsame].
  destruct (IH _ _ Hrest) as [Hag' Hsame']. split; [congruence|]. unfold same_cache in *. congruence.
Qed.

Lemma find_matched mdm' device s L s' :
  _find_agents_bound_to_device E mdm' device s = (Ret L, s') →
  matched E mdm' device (internal_agents s) = Ret L ∧ s' = issued s.
Proof.
  intros (rows & s1 & Hg & Hm)%bind_Ret. apply gets_statement in Hg as [-> ->].
  unfold lift in Hm. by injection Hm as Hm <-.
Qed.

Lemma fresh_claim_total device comp man :
  _build_fresh_claim E mdm device comp man now
  = Ret (build_attestation_claim (Some mdm) (Some device) comp man now now None STRENGTH_SOFT_ONLY).
Proof.
  unfold _build_fresh_claim, apply_stale_downgrade. rewrite built_block. cbn [obind].
  assert (get_none "stale_seconds" (claim_block (Some mdm) (Some device) comp man now now None
    STRENGTH_SOFT_ONLY) = JInt 0) as -> by (unfold claim_block; by rewrite Z.sub_diag).
  change (int_of (py_or (JInt 0) (JInt 0))) with (Ret 0). cbn [obind]. unfold is_stale.
  destruct (Z.leb_spec (attestation_stale_threshold_seconds E) 0) as [|Hlt]; [done|].
  by rewrite (proj2 (Z.ltb_ge (attestation_stale_threshold_seconds E) 0)) by lia.
Qed.

(** One device: the agents it dooms are struck, the others stay. *)
Lemma device_agents g r s r' s' :
  NoDup (a_agent_id <$> internal_agents s) → reconcile_device E mdm now r g s = (Ret r', s') →
  internal_agents s' = update_where (λ a, unrevoked a && dooms s a g) (downgraded_by g) (internal_agents s) ∧
  same_cache s s'.
Proof.
  intros Hnd (p & s1 & Hp & Hrest)%bind_Ret. unfold lift in Hp. injection Hp as Hp <-.
  assert (∀ r0 s0, (Ret r0, s0) = (Ret r', s') → internal_agents s0 = internal_agents s →
    same_cache s s0 → flips s g = false →
    internal_agents s' = update_where (λ a, unrevoked a && dooms s a g) (downgraded_by g) (internal_agents s) ∧
    same_cache s s') as Hquiet.
  { intros r0 s0 [= _ <-] Hag Hsame Hf. split; [|done]. rewrite Hag. symmetry.
    apply update_where_none. intros a _. unfold dooms. by rewrite Hf, andb_false_r. }
  assert (flips s g = negb (bool_decide (device_id p = "")) &&
             bool_decide (cached_compliance mdm (device_id p) s = Some "compliant") &&
             bool_decide (compliance p = "non_compliant")) as Hflips by (unfold flips; by rewrite Hp).
  cbv zeta in Hrest. case_bool_decide as Hid.
  { by eapply Hquiet. }
  apply bind_Ret in Hrest as (previous & s2 & Hprev & Hrest).
  apply gets_statement in Hprev as [-> ->]. change (cached_compliance mdm (device_id p) (issued s))
    with (cached_compliance mdm (device_id p) s) in Hrest.
  destruct (cached_compliance mdm (device_id p) s) as [previous|] eqn:Hcache; [|by eapply Hquiet].
  destruct (bool_decide (previous = compliance p)) eqn:Hsame in Hrest.
  { bools. eapply Hquiet; [exact Hrest|done|done|]. rewrite Hflips. cbn. subst previous.
    destruct (bool_decide_reflect (compliance p = "non_compliant")) as [->|]; [done|].
    apply andb_false_r. }
  destruct (bool_decide (previous = "compliant") && bool_decide (compliance p = "non_compliant")) eqn:Hflip.
  - bools. apply bind_Ret in Hrest as (L & s3 & Hfind & Hloop).
    apply find_matched in Hfind as [Hm ->].
    change (internal_agents (issued (issued s))) with (internal_agents s) in Hm.
    pose proof (matched_filter _ _ _ Hm) as HL.
    assert (∀ a, dooms s a g = anchored (device_id p) a) as Hdooms.
    { intros a. unfold dooms. rewrite Hflips, Hp. cbn [negb andb].
      by rewrite !bool_decide_eq_true_2 by congruence. }
    change (NoDup (a_agent_id <$> internal_agents (issued (issued s)))) in Hnd.
    destruct (revoke_loop_agents _ _ _ _ _ _ (issued (issued s)) _ _ (fresh_claim_total _ _ _) Hnd Hloop)
      as [Hag Hs].
    split; [|done]. rewrite Hag. change (internal_agents (issued (issued s))) with (internal_agents s).
    apply update_where_ext. intros a Ha. rewrite HL, Hdooms.
    split; [by apply (named_filter (anchored (device_id p)))|].
    intros _. unfold downgraded_by. by rewrite Hp, fresh_claim_total.
  - destruct (_ && _) eqn:Hback in Hrest.
    + apply bind_Ret in Hrest as (L & s3 & Hfind & Hloop). apply find_matched in Hfind as [_ ->].
      destruct (verify_loop_agents _ _ _ _ _ _ _ _ Hloop) as [Hag Hs].
      eapply (Hquiet r'); [reflexivity|exact Hag|exact Hs|]. rewrite Hflips. bools.
      assert (compliance p ≠ "non_compliant") by congruence.
      rewrite (bool_decide_eq_false_2 (compliance p = _)) by done. apply andb_false_r.
    + eapply Hquiet; [exact Hrest|done|done|]. rewrite Hflips. cbn.
      destruct (bool_decide_reflect (previous = "compliant")) as [->|Hne]; cbn in Hflip.
      * by rewrite Hflip, andb_false_r.
      * by rewrite (bool_decide_eq_false_2 (Some previous = Some "compliant")) by congruence.
Qed.

Lemma same_cache_flips s s' g : same_cache s s' → flips s' g = flips s g.
Proof. intros Hs. unfold flips, cached_compliance. by rewrite Hs. Qed.

Lemma same_cache_dooms s s' a g : same_cache s s' → dooms s' a g = dooms s a g.
Proof. intros Hs. unfold dooms. by rewrite (same_cache_flips s s'). Qed.

Lemma same_cache_reconciled s s' devices a :
  same_cache s s' → reconciled s' devices a = reconciled s devices a.
Proof.
  intros Hs. unfold reconciled. destruct (unrevoked a); [|done].
  assert (List.find (dooms s' a) devices = List.find (dooms s a) devices) as ->; [|done].
  induction devices as [|g l IH]; [done|]. cbn. rewrite IH. by rewrite (same_cache_dooms s s').
Qed.

Lemma downgraded_revoked s a g : dooms s a g = true → unrevoked (downgraded_by g a) = false.
Proof.
  unfold dooms, downgraded_by. destruct (project_device_row g) as [p|]; [|by rewrite andb_false_r].
  by rewrite fresh_claim_total.
Qed.

(** A reconciliation that returns leaves every agent as its reference
    definition says: untouched, unless it was not revoked and its claim is
    anchored to a device that went from compliant to non-compliant; then it is
    inactive, revoked with the reason and the instant, and its claim is
    rewritten.  The cache stays as it was. *)
Theorem reconcile_per_agent devices s r s' :
  NoDup (a_agent_id <$> internal_agents s) →
  reconcile_devices_and_revoke E mdm now devices s = (Ret r, s') →
  internal_agents s' = map (reconciled s devices) (internal_agents s) ∧
  mdm_device_state s' = mdm_device_state s.
Proof.
  unfold reconcile_devices_and_revoke. intros Hnd. generalize no_summary. intros r0 Hrun.
  revert s r0 Hnd Hrun. induction devices as [|g devices IH]; intros s r0 Hnd Hrun; cbn in Hrun.
  - injection Hrun as _ <-. split; [|done]. rewrite <- (map_id (internal_agents s)) at 1.
    apply map_ext. intros a. unfold reconciled. by destruct (unrevoked a).
  - apply bind_Ret in Hrun as (r1 & s1 & Hone & Hrest).
    destruct (device_agents _ _ _ _ _ Hnd Hone) as [Hag Hs].
    assert (∀ a, a_agent_id (downgraded_by g a) = a_agent_id a) as Hkeep.
    { intros a. unfold downgraded_by. destruct (project_device_row g) as [p|]; [|done].
      by rewrite fresh_claim_total. }
    apply IH in Hrest as [Hag' Hs']; [|by rewrite Hag, update_where_ids].
    split; [|by rewrite Hs'].
    rewrite Hag', Hag. unfold update_where. rewrite map_map. apply map_ext. intros a.
    rewrite (same_cache_reconciled s s1) by done. unfold reconciled at 2. cbn [List.find]. destruct (unrevoked a) eqn:Hun; cbn [andb].
    + destruct (dooms s a g) eqn:Hd; [|unfold reconciled; by rewrite Hun].
      unfold reconciled. by rewrite (downgraded_revoked s).
    + unfold reconciled. by rewrite Hun.
Qed.

End Reconcile.

(** ** What a poll leaves behind *)

Section Poll.
Context `{Hash} `{ZuluTime} (E : mdm_env).

Definition same_tables (s s' : mdm_state) : Prop :=
  internal_agents s' = internal_agents s ∧ mdm_device_state s' = mdm_device_state s.

(** The cache after one entry of the feed. *)
Lemma upsert_device_spec mdm now n g s n' s' :
  upsert_device E mdm now n g s = (Ret n', s') →
  internal_agents s' = internal_agents s ∧
  ∃ p, project_device_row g = Ret p ∧
    (device_id p = "" ∧ s' = s ∨
     device_id p ≠ "" ∧ ∀ d, cached_compliance mdm d s' = if bool_decide (d = device_id p) then Some (compliance p)
                                       else cached_compliance mdm d s).
Proof.
  intros (p & s1 & Hp & Hrest)%bind_Ret. unfold lift in Hp. injection Hp as Hp <-.
  destruct (bool_decide_reflect (device_id p = "")) as [Hid|Hid].
  { injection Hrest as _ <-. split; [done|]. exists p. auto. }
  apply bind_Ret in Hrest as (row & s2 & Hrow & Hrest). unfold lift in Hrow. injection Hrow as Hrow <-.
  apply bind_Ret in Hrest as ([] & s3 & Hst%statement_Ret & Hret). injection Hst as <-.
  injection Hret as _ <-. split; [done|]. exists p. split; [done|]. right. split; [done|]. intros d.
  unfold cached_compliance. cbn. case_bool_decide as Hd.
  - subst d. rewrite lookup_insert_eq. cbn. unfold bound_row in Hrow.
    repeat (destruct (bind_text E _); [cbn in Hrow|done]). by injection Hrow as <-.
  - rewrite lookup_insert_ne by congruence. done.
Qed.

(** The entries of the feed that name a device. *)
Definition device_of (g : json) : option string :=
  match project_device_row g with
  | Ret p => if bool_decide (device_id p = "") then None else Some (device_id p)
  | Raise _ => None
  end.

Lemma upsert_loop_spec mdm now devices n s n' s' :
  for_each (upsert_device E mdm now) n devices s = (Ret n', s') →
  internal_agents s' = internal_agents s ∧
  (NoDup (omap device_of devices) →
   (∀ d, d ∉ omap device_of devices → cached_compliance mdm d s' = cached_compliance mdm d s) ∧
   ∀ g, g ∈ devices → flips mdm s' g = false).
Proof.
  revert n s. induction devices as [|g devices IH]; intros n s Hrun; cbn in Hrun.
  { injection Hrun as _ <-. split; [done|]. split; [done|]. intros g Hg. by apply not_elem_of_nil in Hg. }
  apply bind_Ret in Hrun as (n1 & s1 & Hone & Hrest).
  destruct (upsert_device_spec _ _ _ _ _ _ _ Hone) as (Hag & p & Hp & Hcache).
  destruct (IH _ _ Hrest) as (Hag' & Hdevs). split; [congruence|]. cbn [omap list_omap].
  destruct Hcache as [[Hid ->]|[Hid Hcache]].
  - assert (device_of g = None) as -> by (unfold device_of; rewrite Hp; by rewrite bool_decide_eq_true_2).
    intros Hnd. destruct (Hdevs Hnd) as [Hkeep Hflips].
    split; [done|]. intros g' [->|Hg']%elem_of_cons; [|by apply Hflips].
    unfold flips. rewrite Hp. by rewrite bool_decide_eq_true_2.
  - assert (device_of g = Some (device_id p)) as ->
      by (unfold device_of; rewrite Hp; by rewrite bool_decide_eq_false_2).
    intros [Hnew Hnd]%NoDup_cons. destruct (Hdevs Hnd) as [Hkeep Hflips]. split.
    + intros d Hd. apply not_elem_of_cons in Hd as [Hd Hd'].
      rewrite Hkeep, Hcache by done. by rewrite bool_decide_eq_false_2.
    + intros g' [->|Hg']%elem_of_cons; [|by apply Hflips].
      unfold flips. rewrite Hp, (bool_decide_eq_false_2 (device_id p = "")) by done.
      rewrite Hkeep, Hcache by done. rewrite (bool_decide_eq_true_2 (device_id p = device_id p)) by done.
      destruct (bool_decide_reflect (compliance p = "non_compliant")) as [->|]; [|apply andb_false_r].
      by rewrite bool_decide_eq_false_2, andb_false_r.
Qed.

Lemma upsert_rows_spec mdm now devices s n s' :
  upsert_device_rows E mdm now devices s = (Ret n, s') →
  internal_agents s' = internal_agents s ∧
  (NoDup (omap device_of devices) → ∀ g, g ∈ devices → flips mdm s' g = false).
Proof.
  intros Hrun. destruct devices as [|g devices].
  { injection Hrun as _ <-. split; [done|]. intros _ g Hg. by apply not_elem_of_nil in Hg. }
  unfold upsert_device_rows in Hrun. apply transaction_Ret in Hrun as (s1 & Hrun & ->).
  destruct (upsert_loop_spec _ _ _ _ _ _ _ Hrun) as [Hag Hdevs].
  split; [exact Hag|]. intros Hnd. exact (proj2 (Hdevs Hnd)).
Qed.

Lemma transaction_tables {A} (m : M mdm_state A) s r s' :
  (∀ a s1, m s = (Ret a, s1) → same_tables s s1) → transaction (fails E) m s = (r, s') → same_tables s s'.
Proof.
  intros Hm. unfold transaction. destruct (m s) as [[a|e] s1]; [|by intros [= _ <-]].
  specialize (Hm _ _ eq_refl). unfold statement. destruct (fails E _); by intros [= _ <-].
Qed.

(** A transaction that raises leaves the tables. *)
Lemma tables_restored {A} (m : M mdm_state A) s e s' :
  transaction (fails E) m s = (Raise e, s') → same_tables s s'.
Proof.
  unfold transaction. destruct (m s) as [[a|e'] s1]; [|by intros [= _ <-]].
  unfold statement. destruct (fails E _); by intros [= _ <-].
Qed.

(** what a poll that returns has done.  The agents are reconciled against
    the cache before it was rewritten, or left alone when the reconciliation
    raised; afterwards, when no device is listed twice, no device of the feed
    counts as flipping any more, whether its flip was acted on or not. *)
Theorem poll_outcome now s x s' :
  intune_poll_once E now s = (Ret x, s') →
  ∃ devices link s1,
    fetch_managed_devices_delta (e_graph E) link (graph_client s) = (Ret (devices, snd x), graph_client s1) ∧
    same_tables s s1 ∧
    (NoDup (a_agent_id <$> internal_agents s) →
     internal_agents s' =
       match transaction (fails E) (reconcile_devices_and_revoke E "intune" now devices) s1 with
       | (Ret _, _) => map (reconciled E "intune" now s devices) (internal_agents s)
       | (Raise _, _) => internal_agents s
       end) ∧
    (NoDup (omap device_of devices) → ∀ g, g ∈ devices → flips "intune" s' g = false).
Proof.
  intros (link & s1 & Hlink & Hrest)%bind_Ret.
  assert (same_tables s s1 ∧ graph_client s1 = graph_client s) as [Hs1 Hc1].
  { apply bind_Ret in Hlink as (l & s0 & Ht & Hret). injection Hret as _ <-.
    apply transaction_Ret in Ht as (s2 & Hst & ->). apply gets_statement in Hst as [_ ->]. done. }
  apply bind_Ret in Hrest as ([devices next] & s2 & Hfetch & Hrest).
  unfold on_client in Hfetch. destruct (fetch_managed_devices_delta _ _ _) as [r c] eqn:Hf.
  injection Hfetch as -> <-.
  apply bind_Ret in Hrest as (sum & s3 & Hrec & Hrest).
  apply bind_Ret in Hrest as (touched & s4 & Hup & Hrest).
  apply bind_Ret in Hrest as ([] & s5 & Hlast & Hret). injection Hret as <- <-.
  assert (same_tables s4 s5) as [Hag5 Hdev5].
  { destruct (py_bool next); [|by injection Hlast as <-]. revert Hlast. unfold catch.
    destruct (_persist_delta_link E next s4) as [o s6] eqn:Hp.
    assert (same_tables s4 s6).
    { eapply transaction_tables; [|exact Hp]. intros a s7 (t & s8 & Ht & Hst)%bind_Ret.
      unfold lift in Ht. injection Ht as _ <-. apply statement_Ret in Hst. injection Hst as _ <-. by split. }
    destruct o as [[]|e]; intros Heq; by injection Heq as <-. }
  exists devices, link, (with_client c s1). cbn [graph_client with_client snd].
  rewrite <- Hc1. split; [done|]. split; [done|]. split.
  - intros Hnd. unfold _reconcile_compliance_changes, catch in Hrec.
    rewrite Hag5, (proj1 (upsert_rows_spec _ _ _ _ _ _ Hup)).
    destruct (transaction _ (reconcile_devices_and_revoke _ _ _ _) _) as [[sum'|e] s3'] eqn:Htx;
      injection Hrec as _ <-.
    + apply transaction_Ret in Htx as (s6 & Hrun & ->). cbn in Hnd |- *.
      rewrite <- (proj1 Hs1) in Hnd.
      destruct (reconcile_per_agent E "intune" now devices (with_client c s1) _ _ Hnd Hrun) as [-> _]. cbn.
      rewrite (proj1 Hs1). apply map_ext. intros a. apply same_cache_reconciled. exact (proj2 Hs1).
    + destruct (tables_restored (reconcile_devices_and_revoke E "intune" now devices) _ _ _ Htx) as [-> _].
      by rewrite <- (proj1 Hs1).
  - intros Hnd g Hg. pose proof (proj2 (upsert_rows_spec _ _ _ _ _ _ Hup) Hnd g Hg) as Hflips.
    etrans; [|exact Hflips]. by apply same_cache_flips.
Qed.

End Poll.

(** ** Revocations leave their rows *)

Section Recorded.
Context `{Hash} `{ZuluTime} (E : mdm_env) (now : Z) (Hup : ∀ n, fails E n = None).

Definition unchained (p : audit_payload) : audit_row :=
  {| payload := p; chain_seq := None; prev_hash := None; row_hash := None; hash_format := None |}.

(** The row [agent.revoked] of an agent is in [audit_log]. *)
Definition revocation_recorded (s : mdm_state) (agent : string) : Prop :=
  ∃ details, unchained (raw_row E now agent "agent.revoked" details) ∈ w_table (m_trail s).

(** Every agent is as it was in [s0] or has such a row. *)
Definition accounted (s0 s : mdm_state) : Prop :=
  ∀ a, a ∈ internal_agents s → a ∈ internal_agents s0 ∨ revocation_recorded s (a_agent_id a).

Definition more_rows (s s' : mdm_state) : Prop :=
  ∀ r, r ∈ w_table (m_trail s) → r ∈ w_table (m_trail s').

Lemma recorded_more s s' agent :
  more_rows s s' → revocation_recorded s agent → revocation_recorded s' agent.
Proof. intros Hm [d Hd]. exists d. by apply Hm. Qed.

Lemma accounted_more s0 s s' :
  more_rows s s' → internal_agents s' = internal_agents s → accounted s0 s → accounted s0 s'.
Proof.
  intros Hm Hag Ha a. rewrite Hag. intros [|Hr]%Ha; [by left|right]. by eapply recorded_more.
Qed.

Lemma insert_unchained_runs p s : insert_unchained E p s = (Ret tt, with_unchained p (issued s)).
Proof. unfold insert_unchained, catch, statement. by rewrite Hup. Qed.

Lemma with_unchained_more p s : more_rows s (with_unchained p (issued s)).
Proof. intros r Hr. cbn. apply elem_of_app. by left. Qed.

Lemma revoke_agent_accounted s0 x reason detail mdm s b s' :
  revoke_agent_cert E x reason detail mdm now s = (Ret b, s') → accounted s0 s →
  accounted s0 s' ∧ (b = true → revocation_recorded s' x).
Proof.
  intros (t & s1 & Hmark & Hrest)%bind_Ret Ha.
  apply bind_Ret in Hmark as (existing & s2 & Hget & Hmark). apply gets_statement in Hget as [-> ->].
  destruct (find_agent _ _) as [a|]; [|injection Hmark as <- <-; by injection Hrest as <- <-].
  case_bool_decide; [|injection Hmark as <- <-; by injection Hrest as <- <-].
  apply bind_Ret in Hmark as (hit & s3 & Hst%statement_Ret & Hret). injection Hst as <- <-.
  injection Hret as <- <-. cbn [internal_agents issued mdm_transactional] in Hrest.
  destruct (existsb (revocable x) (internal_agents s)) eqn:Hex.
  - apply bind_Ret in Hrest as ([] & s4 & Hins & Hret). rewrite insert_unchained_runs in Hins.
    injection Hins as <-. injection Hret as <- <-.
    match goal with |- accounted _ ?s' ∧ _ => assert (revocation_recorded s' x) as Hrec end.
    { eexists. cbn. apply elem_of_app. right. apply list_elem_of_singleton. reflexivity. }
    split; [|done]. intros c Hc. cbn in Hc. unfold update_where in Hc.
    apply list_elem_of_In, in_map_iff in Hc as (c0 & <- & Hc0%list_elem_of_In).
    destruct (revocable x c0) eqn:Hr.
    + right. unfold revocable in Hr. bools. cbn. by match goal with H : a_agent_id c0 = x |- _ => rewrite H end.
    + destruct (Ha c0 Hc0) as [|Hrec0]; [by left|right]. eapply recorded_more; [|exact Hrec0].
      intros row Hrow. cbn. apply elem_of_app. by left.
  - injection Hrest as <- <-. split; [|done].
    intros c Hc. cbn in Hc. rewrite update_where_none in Hc; [by apply Ha|].
    intros a' Ha'. apply not_true_is_false. intros Hr.
    assert (existsb (revocable x) (internal_agents s) = true); [|congruence].
    apply existsb_exists. exists a'. split; [by apply list_elem_of_In|done].
Qed.

Lemma attestation_event_more x subtype previous claim s r s' :
  attestation_event E x subtype previous claim now s = (Ret r, s') →
  more_rows s s' ∧ internal_agents s' = internal_agents s.
Proof.
  intros (dev & s1 & Hd & Hrest)%bind_Ret. apply bind_Ret in Hrest as (tier & s2 & Ht & Hrest).
  unfold lift in Hd, Ht. injection Hd as _ <-. injection Ht as _ <-.
  unfold log_device_attestation_change in Hrest. rewrite insert_unchained_runs in Hrest.
  injection Hrest as _ <-. split; [apply with_unchained_more|done].
Qed.

Lemma revoke_bound_accounted s0 mdm device previous man r x s r' s' :
  revoke_bound E mdm device previous man now r x s = (Ret r', s') → accounted s0 s → accounted s0 s'.
Proof.
  intros (claim & s1 & Hc & Hrest)%bind_Ret Ha. unfold lift in Hc. injection Hc as _ <-.
  apply bind_Ret in Hrest as (t & s2 & Hrev & Hrest).
  destruct (revoke_agent_accounted _ _ _ _ _ _ _ _ Hrev Ha) as [Ha2 Hrec].
  destruct t; [|by injection Hrest as _ <-]. specialize (Hrec eq_refl).
  apply bind_Ret in Hrest as ([] & s3 & Hupd%statement_Ret & Hrest). injection Hupd as <-.
  apply bind_Ret in Hrest as ([] & s4 & Hev & Hret). injection Hret as _ <-.
  destruct (attestation_event_more _ _ _ _ _ _ _ Hev) as [Hmore Hag].
  eapply accounted_more; [exact Hmore|exact Hag|].
  intros c Hc. cbn in Hc. unfold update_where in Hc.
  apply list_elem_of_In, in_map_iff in Hc as (c0 & <- & Hc0%list_elem_of_In).
  case_bool_decide as Hid; [right; cbn; by rewrite Hid|by apply Ha2].
Qed.

Lemma verify_bound_accounted s0 mdm device previous man r x s r' s' :
  verify_bound E mdm device previous man now r x s = (Ret r', s') → accounted s0 s → accounted s0 s'.
Proof.
  intros (claim & s1 & Hc & Hrest)%bind_Ret Ha. unfold lift in Hc. injection Hc as _ <-.
  apply bind_Ret in Hrest as ([] & s4 & Hev & Hret). injection Hret as _ <-.
  destruct (attestation_event_more _ _ _ _ _ _ _ Hev) as [Hmore Hag]. by eapply accounted_more.
Qed.

Lemma reconcile_device_accounted s0 mdm r g s r' s' :
  reconcile_device E mdm now r g s = (Ret r', s') → accounted s0 s → accounted s0 s'.
Proof.
  intros (p & s1 & Hp & Hrest)%bind_Ret Ha. unfold lift in Hp. injection Hp as _ <-. cbv zeta in Hrest.
  case_bool_decide; [by injection Hrest as _ <-|].
  apply bind_Ret in Hrest as (previous & s2 & Hprev & Hrest). apply gets_statement in Hprev as [_ ->].
  destruct previous as [previous|]; [|by injection Hrest as _ <-].
  case_bool_decide; [by injection Hrest as _ <-|].
  destruct (_ && _); [|destruct (_ && _); [|by injection Hrest as _ <-]];
    apply bind_Ret in Hrest as (L & s3 & Hfind & Hloop); apply find_matched in Hfind as [_ ->];
    refine (for_each_inv (accounted s0) _ _ _ _ _ _ _ Hloop Ha); intros acc x s2 acc' s2';
    [apply revoke_bound_accounted|apply verify_bound_accounted].
Qed.

(** while no statement fails, a reconciliation changes no agent without
    leaving its revocation in [audit_log]. *)
Theorem revocations_recorded mdm devices s r s' :
  reconcile_devices_and_revoke E mdm now devices s = (Ret r, s') →
  ∀ a, a ∈ internal_agents s' →
    a ∈ internal_agents s ∨
    ∃ details, unchained (raw_row E now (a_agent_id a) "agent.revoked" details) ∈ w_table (m_trail s').
Proof.
  intros Hrun. refine (for_each_inv (accounted s) _ _ _ _ _ _ _ Hrun _); [|by left].
  intros acc g s1 acc' s1'. apply reconcile_device_accounted.
Qed.

End Recorded.

(** ** What every program of this file preserves *)

Section Closed.
Context `{Hash} `{ZuluTime} (E : mdm_env) (P : mdm_state → Prop).
Context (P_issued : ∀ s, P s → P (issued s)) (P_agents : ∀ l s, P s → P (with_agents l s))
  (P_devices : ∀ d s, P s → P (with_devices d s)) (P_link : ∀ l s, P s → P (with_link l s))
  (P_client : ∀ c s, P s → P (with_client c s)) (P_unchained : ∀ p s, P s → P (with_unchained p s))
  (P_restore : ∀ s s', P s → P s' → P (restore s s')).

#[local] Instance P_stable : Stable P := {| stable_issued := P_issued; stable_restore := P_restore |}.

Notation closed := (preserves P).

Lemma closed_insert p : closed (insert_unchained E p).
Proof.
  apply preserves_catch; [|intros; apply preserves_ret]. apply preserves_statement; [apply _|].
  apply preserves_modify. intros s. apply P_unchained.
Qed.
Lemma closed_client {A} (m : M IntuneClient A) : closed (on_client m).
Proof. intros s Hs. unfold on_client. destruct (m _) as [[a|e] c]; by apply P_client. Qed.

#[local] Hint Resolve closed_insert closed_client : preserved.

Lemma closed_mark x reason now : closed (mark_revoked E x reason now).
Proof.
  apply preserves_bind; [auto with preserved|]. intros [a|]; [|auto with preserved].
  apply preserves_if; [|auto with preserved]. apply preserves_bind; [|auto with preserved].
  apply preserves_statement; [apply _|]. intros s Hs. by apply P_agents.
Qed.

Lemma closed_event x subtype previous claim now :
  closed (attestation_event E x subtype previous claim now).
Proof. unfold attestation_event, log_device_attestation_change. auto 10 with preserved. Qed.

Lemma closed_update x claim : closed (_update_agent_attestation E x claim).
Proof. apply preserves_statement; [apply _|]. apply preserves_modify. intros s. apply P_agents. Qed.

#[local] Hint Resolve closed_mark closed_event closed_update : preserved.

Lemma closed_revoke x reason detail mdm now : closed (revoke_agent_cert E x reason detail mdm now).
Proof. unfold revoke_agent_cert. auto 10 with preserved. Qed.
#[local] Hint Resolve closed_revoke : preserved.

Lemma closed_reconcile mdm now devices : closed (reconcile_devices_and_revoke E mdm now devices).
Proof.
  apply preserves_for_each. intros r g. apply preserves_bind; [auto with preserved|]. intros p.
  apply preserves_if; [auto with preserved|]. apply preserves_bind; [unfold _load_cached_compliance; auto with preserved|].
  intros [previous|]; [|auto with preserved]. apply preserves_if; [auto with preserved|].
  assert (∀ device, closed (_find_agents_bound_to_device E mdm device))
    by (intros; unfold _find_agents_bound_to_device; auto with preserved).
  apply preserves_if; [|apply preserves_if; [|auto with preserved]]; (apply preserves_bind; [done|]); intros L;
    apply preserves_for_each; intros acc x; unfold revoke_bound, verify_bound; auto 12 with preserved.
Qed.

Lemma closed_upsert mdm now devices : closed (upsert_device_rows E mdm now devices).
Proof.
  unfold upsert_device_rows. destruct devices; [auto with preserved|].
  apply preserves_transaction; [apply _|]. apply preserves_for_each. intros n g. apply preserves_bind; [auto with preserved|]. intros p.
  apply preserves_if; [auto with preserved|]. apply preserves_bind; [auto with preserved|]. intros row.
  apply preserves_bind; [|auto with preserved]. apply preserves_statement; [apply _|].
  apply preserves_modify. intros s. apply P_devices.
Qed.

Lemma poll_closed now : closed (intune_poll_once E now).
Proof.
  apply preserves_bind; [unfold _load_delta_link; auto 10 with preserved|]. intros link.
  apply preserves_bind; [auto with preserved|]. intros [devices next].
  apply preserves_bind; [unfold _reconcile_compliance_changes; auto using closed_reconcile with preserved|]. intros _.
  apply preserves_bind; [apply closed_upsert|]. intros n. apply preserves_bind; [|auto with preserved].
  apply preserves_if; [|auto with preserved]. apply preserves_catch; [|auto with preserved].
  apply preserves_transaction; [apply _|]. apply preserves_bind; [auto with preserved|]. intros t.
  apply preserves_statement; [apply _|]. apply preserves_modify. intros s. apply P_link.
Qed.

End Closed.

(** ** The loop *)

Section Loop.
Context `{Hash} `{ZuluTime} (E : mdm_env) (interval_seconds : Z).

Lemma unchained_chain t r : chain_seq r = None → chain_ok t → chain_ok (t ++ [r]).
Proof.
  intros Hr Ht. unfold chain_ok. rewrite chained_rows_app. cbn. unfold chained at 1. rewrite Hr.
  by rewrite app_nil_r.
Qed.

Lemma poll_sound now s : sound s → sound (intune_poll_once E now s).2.
Proof.
  intros Hs. pose proof (poll_closed E sound) as Hc.
  specialize (Hc ltac:(done) ltac:(done) ltac:(done) ltac:(done) ltac:(done)
    ltac:(intros p s0 Hs0; by apply unchained_chain) ltac:(done) now s Hs).
  by destruct (intune_poll_once E now s) as [[]].
Qed.

Lemma poll_audits now s : m_audits (intune_poll_once E now s).2 = m_audits s.
Proof.
  pose proof (poll_closed E (λ s', m_audits s' = m_audits s)) as Hc.
  specialize (Hc ltac:(done) ltac:(done) ltac:(done) ltac:(done) ltac:(done) ltac:(done) ltac:(done)
    now s eq_refl).
  by destruct (intune_poll_once E now s) as [[]].
Qed.

(** The audit call of a failure, when there is one. *)
Lemma poll_failed_spec r e l s :
  let '(edge, b) := record_failure (failed_at r) (breaker l) in
  ∃ s', poll_failed E r e l s = (Ret ({| breaker := b; backoff_idx := S (backoff_idx l) |},
                                     inject_Z (backoff (backoff_idx l))), s') ∧
    (polite (e_auditing E) → sound s → sound s') ∧
    m_audits s' = (m_audits s + if edge : bool then 1 else 0)%nat.
Proof.
  unfold poll_failed. destruct (record_failure _ _) as [edge b].
  destruct (match e with IntuneGraphError status message => (status, message) | _ => (0, exn_text E e) end)
    as [status message].
  unfold bind. destruct edge; [|exists s; split_and!; [done|done|cbn; lia]].
  unfold emit_polling_degraded. set (c := degraded_call _ _ _). unfold catch.
  assert (m_audits (audit (e_auditing E) c s).2 = S (m_audits s)) as Hn.
  { unfold audit. by destruct (log_audit _ _ _ _). }
  assert (polite (e_auditing E) → sound s → sound (audit (e_auditing E) c s).2) as Hsound.
  { intros Hp Hs. pose proof (audit_post (e_auditing E) c s Hp Hs) as Hpost.
    destruct (audit _ c s). by destruct Hpost. }
  destruct (audit (e_auditing E) c s) as [[[]|e'] s']; cbn in *; exists s'; split_and!; try done; lia.
Qed.

(** A round never raises: the loop survives whatever Graph, the database and
    the trail do. *)
Lemma poll_round_spec r l s :
  let '(go, b) := should_poll (asked_at r) (breaker l) in
  if go : bool then
    match intune_poll_once E (started r) s with
    | (Ret _, s1) =>
        poll_round E interval_seconds r l s
        = (Ret (true, {| breaker := record_success b; backoff_idx := 0 |}, inject_Z interval_seconds), s1)
    | (Raise e, s1) =>
        let '(edge, b') := record_failure (failed_at r) b in
        ∃ s', poll_round E interval_seconds r l s
              = (Ret (true, {| breaker := b'; backoff_idx := S (backoff_idx l) |},
                      inject_Z (backoff (backoff_idx l))), s') ∧
          (polite (e_auditing E) → sound s1 → sound s') ∧
          m_audits s' = (m_audits s1 + if edge : bool then 1 else 0)%nat
    end
  else poll_round E interval_seconds r l s
       = (Ret (false, {| breaker := b; backoff_idx := backoff_idx l |},
               cooldown_remaining_seconds (slept_at r) b), s).
Proof.
  unfold poll_round. destruct (should_poll _ _) as [go b]. destruct go; cbn [negb]; [|done].
  destruct (intune_poll_once E (started r) s) as [[x|e] s1]; [done|].
  pose proof (poll_failed_spec r e {| breaker := b; backoff_idx := backoff_idx l |} s1) as Hf.
  cbn [breaker backoff_idx] in Hf. destruct (record_failure _ b) as [edge b'].
  destruct Hf as (s' & Heq & Hs & Hn). exists s'. split; [|done]. unfold bind. by rewrite Heq.
Qed.

(** C26: an open breaker does not stop the polling for good: the round after
    one that did not poll does, whatever happens to it, once the pause of that
    round is over. *)
Theorem breaker_polls_again r l s l' pause s' r' :
  poll_round E interval_seconds r l s = (Ret (false, l', pause), s') →
  (slept_at r + pause <= asked_at r')%Q →
  ∃ l'' pause' s'', poll_round E interval_seconds r' l' s' = (Ret (true, l'', pause'), s'').
Proof.
  intros Hr Hle. pose proof (poll_round_spec r l s) as Hspec. unfold should_poll in Hspec.
  assert (∃ opened, b_state (breaker l') = OPEN ∧ opened_at_monotonic (breaker l') = Some opened ∧
    pause = cooldown_remaining_seconds (slept_at r) (breaker l')) as (opened & Ho & Hop & Hpause).
  { destruct (b_state (breaker l)) eqn:Hst.
    1,3: destruct (intune_poll_once E (started r) s) as [[x|e] s1]; [congruence|];
      destruct (record_failure _ _); destruct Hspec as (? & Heq & _); congruence.
    destruct (Qle_bool _ 0) eqn:Hq.
    - destruct (intune_poll_once E (started r) s) as [[x|e] s1]; [congruence|].
      destruct (record_failure _ _); destruct Hspec as (? & Heq & _); congruence.
    - assert (l' = l ∧ pause = cooldown_remaining_seconds (slept_at r) (breaker l)) as [-> ->].
      { rewrite Hr in Hspec. injection Hspec as -> -> _. split; [by destruct l|done]. }
      unfold cooldown_remaining_seconds in Hq |- *. rewrite Hst in Hq |- *.
      destruct (opened_at_monotonic (breaker l)) as [opened|]; [by exists opened|done]. }
  pose proof (poll_round_spec r' l' s') as Hspec'.
  assert (should_poll (asked_at r') (breaker l') = (true, _set_state HALF_OPEN (breaker l'))) as Hgo.
  { unfold should_poll. rewrite Ho.
    assert (Qle_bool (cooldown_remaining_seconds (asked_at r') (breaker l')) 0 = true) as ->; [|done].
    apply Qle_bool_iff. rewrite Hpause in Hle. unfold cooldown_remaining_seconds in Hle |- *.
    rewrite Ho, Hop in Hle |- *. apply Q.max_lub; [lra|].
    pose proof (Q.le_max_r 0 (cooldown_seconds (config (breaker l')) - (slept_at r - opened))). lra. }
  rewrite Hgo in Hspec'. destruct (intune_poll_once E (started r') s') as [[x|e] s1]; [by eauto|].
  destruct (record_failure _ _). destruct Hspec' as (s2 & -> & _). by eauto.
Qed.

(** ** Outages *)

(** A stretch of rounds in which no poll succeeds, with the number of polls. *)
Inductive outage : nat → loop_state → mdm_state → loop_state → mdm_state → Prop :=
| outage_start l s : outage 0 l s l s
| outage_sleep k l s l1 s1 r l2 w s2 :
    outage k l s l1 s1 →
    poll_round E interval_seconds r l1 s1 = (Ret (false, l2, w), s2) → outage k l s l2 s2
| outage_poll k l s l1 s1 r e s1' l2 w s2 :
    outage k l s l1 s1 → intune_poll_once E (started r) s1 = (Raise e, s1') →
    poll_round E interval_seconds r l1 s1 = (Ret (true, l2, w), s2) → outage (S k) l s l2 s2.

(** The breaker after [k] failures since it was closed. *)
Definition after_failures (cfg : CircuitBreakerConfig) (k : nat) (b : CircuitBreaker) : Prop :=
  config b = cfg ∧ consecutive_failures b = Z.of_nat k ∧
  (b_state b = CLOSED ↔ Z.of_nat k < failure_threshold cfg).

Lemma should_poll_after cfg k now b :
  after_failures cfg k b →
  after_failures cfg k (snd (should_poll now b)) ∧
  (fst (should_poll now b) = true → b_state (snd (should_poll now b)) ≠ OPEN).
Proof.
  intros Haf. unfold should_poll. destruct (b_state b) eqn:Hst; cbn.
  1,3: by rewrite Hst.
  destruct (Qle_bool _ 0); cbn; [|done]. split; [|done]. destruct Haf as (Hc & Hn & Hs).
  split_and!; [done|done|]. cbn. split; [done|]. intros Hlt%Hs. congruence.
Qed.

Lemma record_failure_after cfg k now b :
  after_failures cfg k b → b_state b ≠ OPEN →
  after_failures cfg (S k) (snd (record_failure now b)) ∧
  fst (record_failure now b) = (Z.of_nat k <? failure_threshold cfg) && (failure_threshold cfg <=? Z.of_nat (S k)).
Proof.
  intros (Hc & Hn & Hs) Ho. unfold record_failure. rewrite Nat2Z.inj_succ.
  cbn [b_state config consecutive_failures]. rewrite Hc, Hn. unfold after_failures.
  destruct (b_state b) eqn:Hst; [|done|].
  - assert (Z.of_nat k < failure_threshold cfg) as Hlt by by apply Hs.
    rewrite (proj2 (Z.ltb_lt _ _) Hlt). cbn [andb]. change (Z.succ (Z.of_nat k)) with (Z.of_nat k + 1).
    destruct (Z.leb_spec (failure_threshold cfg) (Z.of_nat k + 1)) as [Hle|Hgt];
      cbn [fst snd opened config consecutive_failures b_state]; (split; [|done]);
      (split_and!; [done|lia|]); split; intros; (congruence || done || lia).
  - assert (¬ Z.of_nat k < failure_threshold cfg) as Hlt by (intros Hlt%Hs; congruence).
    rewrite (proj2 (Z.ltb_ge _ _)) by lia. cbn [fst snd opened config consecutive_failures b_state andb].
    split; [|done]. split_and!; [done|lia|]. split; [done|lia].
Qed.

(** a stretch of failing polls, however long and however often the breaker
    let it probe, makes exactly one call for a [mdm_polling_degraded] row: when
    its failures reach the threshold.  The trail stays one chain. *)
Theorem outage_audited_once cfg k s l' s' :
  0 < failure_threshold cfg → outage k (new_loop cfg) s l' s' →
  m_audits s' = (m_audits s + if (failure_threshold cfg <=? Z.of_nat k)%Z then 1 else 0)%nat ∧
  (polite (e_auditing E) → sound s → sound s').
Proof.
  intros Hpos Hout. cut (after_failures cfg k (breaker l') ∧
    m_audits s' = (m_audits s + if (failure_threshold cfg <=? Z.of_nat k)%Z then 1 else 0)%nat ∧
    (polite (e_auditing E) → sound s → sound s')); [tauto|].
  remember (new_loop cfg) as l eqn:Hl.
  induction Hout as [l s|k l s l1 s1 r l2 w s2 _ IH Hr|k l s l1 s1 r e s1' l2 w s2 _ IH Hp Hr]; subst l.
  - split_and!; [by split_and!| |done]. rewrite (proj2 (Z.leb_gt _ _)) by lia. lia.
  - destruct (IH eq_refl) as (Haf & Hn & Hs). clear IH.
    pose proof (poll_round_spec r l1 s1) as Hspec.
    pose proof (should_poll_after cfg k (asked_at r) _ Haf) as [Haf' Ho].
    destruct (should_poll (asked_at r) (breaker l1)) as [[] b]; cbn [fst snd] in *.
    + destruct (intune_poll_once E (started r) s1) as [[x|e] s3]; [congruence|].
      destruct (record_failure _ b). destruct Hspec as (? & Heq & _). congruence.
    + rewrite Hr in Hspec. by simplify_eq.
  - destruct (IH eq_refl) as (Haf & Hn & Hs). clear IH.
    pose proof (poll_round_spec r l1 s1) as Hspec.
    pose proof (should_poll_after cfg k (asked_at r) _ Haf) as [Haf' Ho].
    destruct (should_poll (asked_at r) (breaker l1)) as [[] b]; cbn [fst snd] in *; [|congruence].
    rewrite Hp in Hspec.
    pose proof (record_failure_after cfg k (failed_at r) b Haf' (Ho eq_refl)) as [Haf2 Hedge].
    destruct (record_failure (failed_at r) b) as [edge b'] eqn:Hrec. cbn [fst snd] in *.
    destruct Hspec as (s3 & Heq & Hs3 & Hn3). rewrite Hr in Heq. simplify_eq. cbn [breaker].
    pose proof (poll_audits (started r) s1) as Hq. pose proof (poll_sound (started r) s1) as Hq'.
    rewrite Hp in Hq, Hq'. cbn [snd] in Hq, Hq'. split_and!; [done| |by auto].
    rewrite Hn3, Hq, Hn. destruct (Z.ltb_spec (Z.of_nat k) (failure_threshold cfg)),
      (Z.leb_spec (failure_threshold cfg) (Z.of_nat k)),
      (Z.leb_spec (failure_threshold cfg) (Z.of_nat (S k))); cbn; lia.
Qed.

End Loop.

(** ** Concrete runs *)

Module MdmDemo.
(** Graph lists one laptop; [graph_down] answers 503. *)
Definition laptop (compliance : string) : json :=
  JObj [("id", JStr "dev-1"); ("complianceState", JStr compliance); ("manufacturer", JStr "Dell")].
Definition graph_up (devices : list json) : graph :=
  {| post_token _ := Response 200 (Ret (JObj [("access_token", JStr "tok"); ("expires_in", JInt 3599)]));
     get_page _ _ _ := Response 200 (Ret (JObj [("value", JList devices);
                                               ("@odata.deltaLink", JStr "https://graph/delta?1")]));
     utc_now _ := 1000000000 |}.
Definition graph_down : graph :=
  {| post_token _ := Response 503 (Ret JNull); get_page _ _ _ := Response 503 (Ret JNull);
     utc_now _ := 1000000000 |}.

Definition claim : json :=
  JObj [("device_attestation", JObj [("mdm", JStr "intune"); ("device_id", JStr "dev-1")])].

Definition env (g : graph) : mdm_env :=
  {| e_auditing :=
       {| audit_at _ := {| now_iso := "2026-01-01T00:00:00+00:00"; current_dpop_jkt := None;
                           current_on_behalf_of_user := None; batched_chain := None;
                           audit_chain_disabled := false; audit_chain_durable := true;
                           audit_fail_deny := true |};
          db_at _ _ := calm |};
     fails _ := None; e_graph := g;
     bind_text v := match v with JStr s => Ret (Some s) | JNull => Ret None | _ => Raise TypeError end;
     json_loads s := if bool_decide (s = "claim") then Some claim
                     else if bool_decide (s = "[]") then Some (JList []) else None;
     isoformat_utc _ := "2026-01-01T00:00:00+00:00"; attestation_stale_threshold_seconds := 900;
     exn_text _ := "RuntimeError: " |}.

Definition agent (id : string) (claim : option string) : internal_agent :=
  {| a_agent_id := id; a_last_attestation := claim; a_is_active := true; a_revoked_at := None;
     a_revoked_reason := None; a_federation_revision := 1 |}.

Definition cached (compliance : string) : device_row :=
  {| d_compliance := Some compliance; d_azure_ad_device_id := None; d_user_principal_name := None;
     d_device_name := None; d_manufacturer := Some "Dell"; d_serial_number := None;
     d_raw_payload := "{}"; d_last_seen_at := 0; d_created_at := 0 |}.

Definition start (agents : list internal_agent) : mdm_state :=
  {| m_trail := {| w_table := []; w_pending := []; w_unhealthy := false |}; m_audits := 0;
     m_statements := 0; internal_agents := agents;
     mdm_device_state := {[("intune", "dev-1") := cached "compliant"]};
     stored_delta_link := None; graph_client := new_client |}.

Definition alice : internal_agent := agent "acme::alice" (Some "claim").
Definition bob : internal_agent := agent "acme::bob" None.

Definition poll (agents : list internal_agent) : outcome (Z * json) * mdm_state :=
  intune_poll_once (env (graph_up [laptop "noncompliant"])) 5 (start agents).

Definition failing_round (k : nat) : round :=
  {| asked_at := inject_Z (Z.of_nat k * 10000); slept_at := inject_Z (Z.of_nat k * 10000);
     failed_at := inject_Z (Z.of_nat k * 10000 + 1); started := 0 |}.
Fixpoint drive (k : nat) : loop_state * mdm_state :=
  match k with
  | O => (new_loop default_config, start [])
  | S k' =>
      let '(l, s) := drive k' in
      match poll_round (env graph_down) 600 (failing_round k') l s with
      | (Ret (_, l', _), s') => (l', s')
      | (Raise _, s') => (l, s')
      end
  end.
End MdmDemo.

(** A poll that finds the laptop out of compliance revokes Alice only; but an
    agent whose stored claim is not an object makes the reconciliation raise,
    the cache still takes the new state, and no later poll revokes her. *)
Theorem failed_reconciliation_loses_revocation :
  (is_ret (MdmDemo.poll [MdmDemo.alice; MdmDemo.bob]).1,
   a_is_active <$> internal_agents (MdmDemo.poll [MdmDemo.alice; MdmDemo.bob]).2) = (true, [false; true]) ∧
  let broken := MdmDemo.agent "acme::broken" (Some "[]") in
  let repaired := MdmDemo.agent "acme::broken" None in
  let s := (MdmDemo.poll [MdmDemo.alice; broken]).2 in
  (is_ret (MdmDemo.poll [MdmDemo.alice; broken]).1, a_is_active <$> internal_agents s) = (true, [true; true]) ∧
  a_is_active <$> internal_agents
    (intune_poll_once (MdmDemo.env (MdmDemo.graph_up [MdmDemo.laptop "noncompliant"])) 6
       (with_agents [MdmDemo.alice; repaired] s)).2 = [true; true].
Proof. vm_compute. split_and!; reflexivity. Qed.

Lemma poll_outcome_witness :
  ∃ x s', MdmDemo.poll [MdmDemo.alice; MdmDemo.bob] = (Ret x, s') ∧
  ∃ devices, NoDup (omap device_of devices) → ∀ g, g ∈ devices → flips "intune" s' g = false.
Proof.
  eexists _, _. split; [vm_compute; reflexivity|].
  edestruct (poll_outcome (MdmDemo.env (MdmDemo.graph_up [MdmDemo.laptop "noncompliant"])) 5
    (MdmDemo.start [MdmDemo.alice; MdmDemo.bob])) as (devices & link & s1 & _ & _ & _ & Hflips);
    [vm_compute; reflexivity|]. exists devices. exact Hflips.
Defined.

Lemma revocations_recorded_witness :
  ∃ r s', reconcile_devices_and_revoke (MdmDemo.env MdmDemo.graph_down) "intune" 5
            [MdmDemo.laptop "noncompliant"] (MdmDemo.start [MdmDemo.alice]) = (Ret r, s') ∧
  ∀ a, a ∈ internal_agents s' →
    a ∈ [MdmDemo.alice] ∨
    ∃ details, unchained (raw_row (MdmDemo.env MdmDemo.graph_down) 5 (a_agent_id a) "agent.revoked" details)
               ∈ w_table (m_trail s').
Proof.
  eexists _, _. split; [vm_compute; reflexivity|].
  eapply (revocations_recorded (MdmDemo.env MdmDemo.graph_down) 5 (λ _, eq_refl) "intune"
    [MdmDemo.laptop "noncompliant"] (MdmDemo.start [MdmDemo.alice])). vm_compute. reflexivity.
Defined.

(** Opened at 0, asked at 10, asked again when the 1790 seconds are over. *)
Lemma breaker_polls_again_witness :
  let b := {| config := default_config; b_state := OPEN; consecutive_failures := 5;
              opened_at_monotonic := Some 0%Q |} in
  let l := {| breaker := b; backoff_idx := 5 |} in
  let at_time t := {| asked_at := t; slept_at := t; failed_at := t; started := 0 |} in
  let s := MdmDemo.start [] in
  ∃ l' pause s',
    poll_round (MdmDemo.env MdmDemo.graph_down) 600 (at_time 10%Q) l s = (Ret (false, l', pause), s') ∧
    ∃ l'' pause' s'', poll_round (MdmDemo.env MdmDemo.graph_down) 600 (at_time 1800%Q) l' s'
                      = (Ret (true, l'', pause'), s'').
Proof.
  intros b l at_time s. eexists _, _, _.
  assert (poll_round (MdmDemo.env MdmDemo.graph_down) 600 (at_time 10%Q) l s
    = (Ret (false, l, 1790%Q), s)) as Hr by (vm_compute; reflexivity).
  split; [exact Hr|].
  apply (breaker_polls_again (MdmDemo.env MdmDemo.graph_down) 600 (at_time 10%Q) l s l 1790 s
    (at_time 1800%Q) Hr). by vm_compute.
Defined.

Lemma outage_audited_once_witness :
  ∃ l s, outage (MdmDemo.env MdmDemo.graph_down) 600 6 (new_loop default_config) (MdmDemo.start []) l s ∧
    m_audits s = 1%nat ∧ sound s.
Proof.
  assert (∀ k l s, outage (MdmDemo.env MdmDemo.graph_down) 600 k (new_loop default_config)
      (MdmDemo.start []) l s → (l, s) = MdmDemo.drive k →
    ∀ e s1' l2 w s2,
    intune_poll_once (MdmDemo.env MdmDemo.graph_down) 0 s = (Raise e, s1') →
    poll_round (MdmDemo.env MdmDemo.graph_down) 600 (MdmDemo.failing_round k) l s = (Ret (true, l2, w), s2) →
    outage (MdmDemo.env MdmDemo.graph_down) 600 (S k) (new_loop default_config) (MdmDemo.start []) l2 s2 ∧
    (l2, s2) = MdmDemo.drive (S k)) as Hstep.
  { intros k l s Ho Hd e s1' l2 w s2 Hp Hr. split.
    - eapply outage_poll; [exact Ho| |exact Hr]. exact Hp.
    - cbn [MdmDemo.drive]. rewrite <- Hd. by rewrite Hr. }
  assert (outage (MdmDemo.env MdmDemo.graph_down) 600 0 (new_loop default_config) (MdmDemo.start [])
    (new_loop default_config) (MdmDemo.start [])) as H0 by constructor.
  edestruct (Hstep 0%nat _ _ H0 eq_refl) as [H1 E1]; [vm_compute; reflexivity..|].
  edestruct (Hstep 1%nat _ _ H1 E1) as [H2 E2]; [vm_compute; reflexivity..|].
  edestruct (Hstep 2%nat _ _ H2 E2) as [H3 E3]; [vm_compute; reflexivity..|].
  edestruct (Hstep 3%nat _ _ H3 E3) as [H4 E4]; [vm_compute; reflexivity..|].
  edestruct (Hstep 4%nat _ _ H4 E4) as [H5 E5]; [vm_compute; reflexivity..|].
  edestruct (Hstep 5%nat _ _ H5 E5) as [H6 E6]; [vm_compute; reflexivity..|].
  eexists _, _. split; [exact H6|].
  destruct (outage_audited_once (MdmDemo.env MdmDemo.graph_down) 600 default_config 6 _ _ _ eq_refl H6) as [Hn Hs].
  split; [exact Hn|]. apply Hs; [|constructor]. intros n t Hok. by apply calm_table_benign.
Defined.
