(* ===== verification/AgentRegistry.v ===== *)
(** * The registry of agents and their credentials

    The rows of [internal_agents] with the columns that authenticate an agent,
    the tables beside it, and what the process keeps in memory.  Here are
    [auth/cert_grace.py], the administration of the registry
    ([admin/agents.py], [db.py:deactivate_agent], [db.py:get_agent]) and the
    sweep of [lifespan/agent_cert_grace_cleanup.py].  A row contains the row
    of [Mdm], so the theorems about revocation apply to it.  Instants are
    microseconds of a UTC clock, stored as the texts of [UtcTime]. *)

From S2P Require Import Prelude Sha256 IsoTime UtcTime Json JsonParse Base64 RateLimit ReplayStore Dpop Tier Intune Mdm AuditCanon AuditLog AuditChain Effects.
From Stdlib Require Import QArith.

Open Scope Z_scope.

(** ** The tables *)

Record agent := {
  r_core : internal_agent;      (* agent_id, last_attestation, is_active, revoked_at, revoked_reason, federation_revision *)
  r_display_name : string;
  r_capabilities : string;      (* a JSON array *)
  r_cert_pem : option string;
  r_created_at : string;
  r_device_info : option string;
  r_dpop_jkt : option string;
  r_enrollment_method : option string;
  r_enrolled_at : option string;
  r_spiffe_id : option string;
  r_federated : bool;
  r_federated_at : option string;
  r_reach : string;
  r_principal_type : string;
  r_previous_cert_pem : option string;
  r_previous_dpop_jkt : option string;
  r_previous_grace_period_expires_at : option string;
}.

Definition r_agent_id (r : agent) : string := a_agent_id (r_core r).
Definition r_is_active (r : agent) : bool := a_is_active (r_core r).

Inductive enrollment_status := PENDING | APPROVED | REJECTED | EXPIRED.

#[export] Instance enrollment_status_eq_dec : EqDecision enrollment_status.
Proof. solve_decision. Defined.

Definition status_text (st : enrollment_status) : string :=
  match st with
  | PENDING => "pending" | APPROVED => "approved" | REJECTED => "rejected" | EXPIRED => "expired"
  end.

(** A row of [pending_enrollments]. *)
Record enrollment := {
  e_session_id : string;
  e_pubkey_pem : string;
  e_pubkey_fingerprint : string;
  e_requester_name : string;
  e_requester_email : string;
  e_reason : option string;
  e_device_info : option string;
  e_dpop_jkt : option string;
  e_status : enrollment_status;
  e_created_at : string;
  e_expires_at : string;
  e_decided_at : option string;
  e_decided_by : option string;
  e_agent_id_assigned : option string;
  e_capabilities_assigned : option string;
  e_groups_assigned : option string;
  e_cert_pem : option string;
  e_rejection_reason : option string;
  e_device_attestation_json : option string;
  e_principal_type : string;
}.

(** A row of [agent_quarantine_events]. *)
Record quarantine_event := {
  q_id : Z;
  q_agent_id : string;
  q_quarantined_at : string;
  q_mode : string;
  q_trigger_ratio : option Q;
  q_trigger_abs_rate : Q;
  q_expires_at : option string;
  q_resolved_at : option string;
  q_resolved_by : option string;
}.

Record tables := {
  agents : list agent;
  pending_enrollments : list enrollment;
  quarantine_events : list quarantine_event;
  user_pins : gmap string (option string);        (* local_user_principals: pubkey_thumbprint *)
  workload_pins : gmap string (option string);    (* local_workload_principals *)
  device_states : gmap (string * string) device_row;
  agent_keys : gmap string string;                (* proxy_config, "agent_key:..." *)
}.

(** What the process keeps beside the database; the contextvar of the request
    is reset by the middleware. *)
Record memory `{ReplayGuard} := {
  nonces : gmap string (string * Z);     (* attestation nonces: the base64 text and the last second *)
  rates : windows;
  jtis : guard;
  vault : gmap string string;            (* the private keys of the agents in Vault *)
  request_jkt : option string;
}.

Record registry_state `{ReplayGuard} := {
  s_trail : world;
  s_audits : nat;
  s_statements : nat;
  s_tables : tables;
  s_memory : memory;
}.

#[export] Instance registry_trailed `{ReplayGuard} : Trailed registry_state := {
  trail := s_trail;
  audit_calls := s_audits;
  audited := λ w s, {| s_trail := w; s_audits := S (s_audits s); s_statements := s_statements s;
                       s_tables := s_tables s; s_memory := s_memory s |};
  trail_audited := λ w s, eq_refl;
}.

#[export] Instance registry_transactional `{ReplayGuard} : Transactional registry_state := {
  statements := s_statements;
  issued := λ s, {| s_trail := s_trail s; s_audits := s_audits s; s_statements := S (s_statements s);
                    s_tables := s_tables s; s_memory := s_memory s |};
  restore := λ s s',
    {| s_trail := {| w_table := w_table (s_trail s); w_pending := w_pending (s_trail s');
                     w_unhealthy := w_unhealthy (s_trail s') |};
       s_audits := s_audits s'; s_statements := s_statements s';
       s_tables := s_tables s; s_memory := s_memory s' |};
}.

Section Setters.
Context `{ReplayGuard}.

Definition with_tables (t : tables) (s : registry_state) : registry_state :=
  {| s_trail := s_trail s; s_audits := s_audits s; s_statements := s_statements s;
     s_tables := t; s_memory := s_memory s |}.
Definition with_memory (m : memory) (s : registry_state) : registry_state :=
  {| s_trail := s_trail s; s_audits := s_audits s; s_statements := s_statements s;
     s_tables := s_tables s; s_memory := m |}.

Definition with_agent_rows (l : list agent) (t : tables) : tables :=
  {| agents := l; pending_enrollments := pending_enrollments t; quarantine_events := quarantine_events t;
     user_pins := user_pins t; workload_pins := workload_pins t; device_states := device_states t;
     agent_keys := agent_keys t |}.
Definition with_enrollments (l : list enrollment) (t : tables) : tables :=
  {| agents := agents t; pending_enrollments := l; quarantine_events := quarantine_events t;
     user_pins := user_pins t; workload_pins := workload_pins t; device_states := device_states t;
     agent_keys := agent_keys t |}.
Definition with_events (l : list quarantine_event) (t : tables) : tables :=
  {| agents := agents t; pending_enrollments := pending_enrollments t; quarantine_events := l;
     user_pins := user_pins t; workload_pins := workload_pins t; device_states := device_states t;
     agent_keys := agent_keys t |}.
Definition with_key (key pem : string) (t : tables) : tables :=
  {| agents := agents t; pending_enrollments := pending_enrollments t;
     quarantine_events := quarantine_events t;
     user_pins := user_pins t; workload_pins := workload_pins t; device_states := device_states t;
     agent_keys := <[key := pem]> (agent_keys t) |}.

Definition with_nonces (n : gmap string (string * Z)) (m : memory) : memory :=
  {| nonces := n; rates := rates m; jtis := jtis m; vault := vault m; request_jkt := request_jkt m |}.
Definition with_rates (w : windows) (m : memory) : memory :=
  {| nonces := nonces m; rates := w; jtis := jtis m; vault := vault m; request_jkt := request_jkt m |}.
Definition with_jtis (g : guard) (m : memory) : memory :=
  {| nonces := nonces m; rates := rates m; jtis := g; vault := vault m; request_jkt := request_jkt m |}.
Definition with_vault (v : gmap string string) (m : memory) : memory :=
  {| nonces := nonces m; rates := rates m; jtis := jtis m; vault := v; request_jkt := request_jkt m |}.
Definition with_request_jkt (j : option string) (m : memory) : memory :=
  {| nonces := nonces m; rates := rates m; jtis := jtis m; vault := vault m; request_jkt := j |}.

Definition update_rows {A} (p : A → bool) (f : A → A) (l : list A) : list A :=
  map (λ a, if p a then f a else a) l.

Definition find_row (id : string) (l : list agent) : option agent :=
  snd <$> list_find (λ r, r_agent_id r = id) l.

Definition named (id : string) (r : agent) : bool := bool_decide (r_agent_id r = id).
Definition active_named (id : string) (r : agent) : bool := named id r && r_is_active r.
End Setters.

(** ** [auth/cert_grace.py] *)

Definition now_utc_iso (now : Z) : string := utc_text now.

Definition hours (h : Z) : Z := h * 3600000000.

(** [datetime] arithmetic leaves its range with an [OverflowError]. *)
Definition datetime_of (t : Z) : outcome Z :=
  if (first_instant <=? t) && (t <? last_instant) then Ret t else Raise OverflowError.

Definition compute_grace_expiry (now grace_hours : Z) : outcome string :=
  let! expiry := datetime_of (now + hours (Z.max grace_hours 0)) in Ret (utc_text expiry).

Definition is_grace_active `{FromIso} (now : Z) (expires_at : option string) : bool :=
  match expires_at with
  | None | Some EmptyString => false
  | Some text =>
      match from_iso text with
      | None => false
      | Some (_, expiry) => now <? expiry
      end
  end.

(** ** Certificates and keys

    The package [cryptography]: parsing, encodings and signatures.  A parser
    gives [None] where it raises [ValueError]. *)

Inductive key_kind :=
| RsaKey (key_size : Z)
| EcKey (curve : string)
| OtherKey (class : string).

Class Cryptography := {
  key : Type;
  load_pem_public_key : string → option key;
  spki_der : key → string;
  kind_of : key → key_kind;
  pss_verifies : key → string → string → bool;          (* RSA-PSS, SHA-256: signature, text *)
  ecdsa_verifies : key → string → string → bool;        (* ECDSA, SHA-256 *)
  ecdsa_verifies_digest : key → string → string → outcome bool;   (* over a digest *)
  certificate : Type;
  load_pem_x509_certificates : string → option (list certificate);
  load_pem_x509_certificate : string → option certificate;
  cert_pem_of : certificate → string;
  cert_der : certificate → string;
  cert_key : certificate → key;
  cert_serial : certificate → Z;
  san_uris : certificate → outcome (option (list string));   (* None: no such extension *)
  common_names : certificate → list string;
}.

Section Registry.
Context `{Hash} `{FromIso} `{Cryptography} `{ReplayGuard}.

Definition cert_thumbprint_hex (pem : option string) : option string :=
  match pem with
  | None | Some EmptyString => None
  | Some text => match load_pem_x509_certificate text with
                 | None => None
                 | Some cert => Some (hexdigest (cert_der cert))
                 end
  end.

(** ** Settings and surroundings *)

Record registry_env := {
  auditing_of : auditing;
  statement_fails : nat → option exn;
  float_literal : string → json;             (* json.loads: the value of a literal with a fraction *)
  setting_org_id : string;
  admin_secret : string;
  agent_cert_grace_period_hours : Z;
  rate_limit_per_minute : Z;
  stale_threshold_seconds : Z;
  secret_backend : string;
  vault_addr : string;
  vault_post : string → option exn;          (* what a POST of the key of an agent fails with *)
  vault_get : string → option exn;
}.

Context (E : registry_env).

Notation M := (M registry_state).
Notation statement := (statement (statement_fails E)).
Notation transaction := (transaction (statement_fails E)).

Definition audit (c : audit_call) : M unit := Effects.audit (auditing_of E) c.

(** [log_audit(agent_id, action, "success", detail, details)] *)
Definition success_call (agent action : string) (detail : option string) (details : option json) : audit_call :=
  {| c_agent_id := agent; c_action := action; c_status := "success"; c_tool_name := None;
     c_detail := detail; c_details := details; c_request_id := None; c_duration_ms := None;
     c_dpop_jkt := None; c_on_behalf_of_user_id := None |}.

Definition admin_call (action detail : string) : audit_call := success_call "admin" action (Some detail) None.

Definition select {A} (f : tables → A) : M A := statement (gets (λ s, f (s_tables s))).

Definition set_tables (f : tables → tables) : M unit :=
  statement (modify (λ s, with_tables (f (s_tables s)) s)).

(** An UPDATE, with [rowcount > 0]. *)
Definition update_agents (p : agent → bool) (f : agent → agent) : M bool :=
  statement (λ s,
    let t := s_tables s in
    (Ret (existsb p (agents t)), with_tables (with_agent_rows (update_rows p f (agents t)) t) s)).

(** An INSERT: the primary key of the table is the agent_id. *)
Definition insert_agent (r : agent) : M unit :=
  statement (λ s,
    let t := s_tables s in
    if existsb (named (r_agent_id r)) (agents t) then (Raise IntegrityError, s)
    else (Ret tt, with_tables (with_agent_rows (agents t ++ [r]) t) s)).

(** ** Reading an agent *)

(** [models.py:InternalAgent], as [get_agent] fills it. *)
Record InternalAgent := {
  i_agent_id : string;
  i_display_name : string;
  i_capabilities : list string;
  i_created_at : string;
  i_is_active : bool;
  i_cert_pem : option string;
  i_dpop_jkt : option string;
  i_reach : string;
  i_principal_type : string;
  i_previous_cert_pem : option string;
  i_previous_dpop_jkt : option string;
  i_previous_grace_period_expires_at : option string;
}.

Definition get_agent (id : string) : M (option (agent * json)) :=
  transaction
    (do row <- select (λ t, find_row id (agents t));
     match row with
     | None => ret None
     | Some r => do caps <- lift (loads (float_literal E) (r_capabilities r)); ret (Some (r, caps))
     end).

Definition or_default (s d : string) : string := if bool_decide (s = "") then d else s.

(** The fields of the model are validated: the capabilities are strings. *)
Definition internal_agent_of (r : agent) (caps : json) : outcome InternalAgent :=
  match as_list caps ≫= mapM as_str with
  | None => Raise (Other "ValidationError" "capabilities")
  | Some caps =>
      Ret {| i_agent_id := r_agent_id r; i_display_name := r_display_name r; i_capabilities := caps;
             i_created_at := r_created_at r; i_is_active := r_is_active r; i_cert_pem := r_cert_pem r;
             i_dpop_jkt := r_dpop_jkt r;
             i_reach := or_default (r_reach r) (if r_federated r then "both" else "intra");
             i_principal_type := or_default (r_principal_type r) "agent";
             i_previous_cert_pem := r_previous_cert_pem r; i_previous_dpop_jkt := r_previous_dpop_jkt r;
             i_previous_grace_period_expires_at := r_previous_grace_period_expires_at r |}
  end.

(** ** Administration *)

Definition _require_admin_secret (x_admin_secret : string) : outcome unit :=
  let! same := compare_digest (JStr x_admin_secret) (admin_secret E) in
  if same : bool then Ret tt else Raise (HTTPException 403 "invalid admin secret").

Definition with_core (f : internal_agent → internal_agent) (r : agent) : agent :=
  {| r_core := f (r_core r); r_display_name := r_display_name r; r_capabilities := r_capabilities r;
     r_cert_pem := r_cert_pem r; r_created_at := r_created_at r; r_device_info := r_device_info r;
     r_dpop_jkt := r_dpop_jkt r; r_enrollment_method := r_enrollment_method r;
     r_enrolled_at := r_enrolled_at r; r_spiffe_id := r_spiffe_id r; r_federated := r_federated r;
     r_federated_at := r_federated_at r; r_reach := r_reach r; r_principal_type := r_principal_type r;
     r_previous_cert_pem := r_previous_cert_pem r; r_previous_dpop_jkt := r_previous_dpop_jkt r;
     r_previous_grace_period_expires_at := r_previous_grace_period_expires_at r |}.

(** The columns [is_active] and [federation_revision]. *)
Definition core_with (active : bool) (revision : Z) (a : internal_agent) : internal_agent :=
  {| a_agent_id := a_agent_id a; a_last_attestation := a_last_attestation a; a_is_active := active;
     a_revoked_at := a_revoked_at a; a_revoked_reason := a_revoked_reason a;
     a_federation_revision := revision |}.

Definition bumped (a : internal_agent) : internal_agent :=
  core_with (a_is_active a) (a_federation_revision a + 1) a.
Definition deactivated (a : internal_agent) : internal_agent :=
  core_with false (a_federation_revision a + 1) a.

Definition with_federated (b : bool) (r : agent) : agent :=
  {| r_core := bumped (r_core r); r_display_name := r_display_name r; r_capabilities := r_capabilities r;
     r_cert_pem := r_cert_pem r; r_created_at := r_created_at r; r_device_info := r_device_info r;
     r_dpop_jkt := r_dpop_jkt r; r_enrollment_method := r_enrollment_method r;
     r_enrolled_at := r_enrolled_at r; r_spiffe_id := r_spiffe_id r; r_federated := b;
     r_federated_at := r_federated_at r; r_reach := r_reach r; r_principal_type := r_principal_type r;
     r_previous_cert_pem := r_previous_cert_pem r; r_previous_dpop_jkt := r_previous_dpop_jkt r;
     r_previous_grace_period_expires_at := r_previous_grace_period_expires_at r |}.

Definition with_capabilities (caps : string) (r : agent) : agent :=
  {| r_core := bumped (r_core r); r_display_name := r_display_name r; r_capabilities := caps;
     r_cert_pem := r_cert_pem r; r_created_at := r_created_at r; r_device_info := r_device_info r;
     r_dpop_jkt := r_dpop_jkt r; r_enrollment_method := r_enrollment_method r;
     r_enrolled_at := r_enrolled_at r; r_spiffe_id := r_spiffe_id r; r_federated := r_federated r;
     r_federated_at := r_federated_at r; r_reach := r_reach r; r_principal_type := r_principal_type r;
     r_previous_cert_pem := r_previous_cert_pem r; r_previous_dpop_jkt := r_previous_dpop_jkt r;
     r_previous_grace_period_expires_at := r_previous_grace_period_expires_at r |}.

Definition with_jkt (jkt : string) (r : agent) : agent :=
  {| r_core := r_core r; r_display_name := r_display_name r; r_capabilities := r_capabilities r;
     r_cert_pem := r_cert_pem r; r_created_at := r_created_at r; r_device_info := r_device_info r;
     r_dpop_jkt := Some jkt; r_enrollment_method := r_enrollment_method r;
     r_enrolled_at := r_enrolled_at r; r_spiffe_id := r_spiffe_id r; r_federated := r_federated r;
     r_federated_at := r_federated_at r; r_reach := r_reach r; r_principal_type := r_principal_type r;
     r_previous_cert_pem := r_previous_cert_pem r; r_previous_dpop_jkt := r_previous_dpop_jkt r;
     r_previous_grace_period_expires_at := r_previous_grace_period_expires_at r |}.

(** [previous_dpop_jkt] and the expiry the two previous credentials share. *)
Definition with_previous_jkt (jkt : string) (prev : option string) (grace_expiry : string) (r : agent) : agent :=
  {| r_core := r_core r; r_display_name := r_display_name r; r_capabilities := r_capabilities r;
     r_cert_pem := r_cert_pem r; r_created_at := r_created_at r; r_device_info := r_device_info r;
     r_dpop_jkt := Some jkt; r_enrollment_method := r_enrollment_method r;
     r_enrolled_at := r_enrolled_at r; r_spiffe_id := r_spiffe_id r; r_federated := r_federated r;
     r_federated_at := r_federated_at r; r_reach := r_reach r; r_principal_type := r_principal_type r;
     r_previous_cert_pem := r_previous_cert_pem r; r_previous_dpop_jkt := prev;
     r_previous_grace_period_expires_at := Some grace_expiry |}.

Definition without_previous (r : agent) : agent :=
  {| r_core := r_core r; r_display_name := r_display_name r; r_capabilities := r_capabilities r;
     r_cert_pem := r_cert_pem r; r_created_at := r_created_at r; r_device_info := r_device_info r;
     r_dpop_jkt := r_dpop_jkt r; r_enrollment_method := r_enrollment_method r;
     r_enrolled_at := r_enrolled_at r; r_spiffe_id := r_spiffe_id r; r_federated := r_federated r;
     r_federated_at := r_federated_at r; r_reach := r_reach r; r_principal_type := r_principal_type r;
     r_previous_cert_pem := None; r_previous_dpop_jkt := None;
     r_previous_grace_period_expires_at := None |}.

Definition py_bool_text (b : bool) : string := if b then "True" else "False".

Definition not_found {A} : M A := raise (HTTPException 404 "agent not found").

(** [patch_federated] and [patch_capabilities], up to the answer, which is the
    row they read back. *)
Definition patch_agent (id : string) (f : agent → agent) (action detail : string) : M (option agent) :=
  do updated <- transaction
    (do row <- select (λ t, find_row id (agents t));
     match row with
     | None => not_found
     | Some _ =>
         do _ <- update_agents (named id) f;
         select (λ t, find_row id (agents t))
     end);
  do _ <- audit (admin_call action detail);
  ret updated.

Definition patch_federated (x_admin_secret id : string) (federated : bool) : M (option agent) :=
  do _ <- lift (_require_admin_secret x_admin_secret);
  patch_agent id (with_federated federated) "agent.federated_patched"
    ("agent_id=" +:+ id +:+ " federated=" +:+ py_bool_text federated).

Definition patch_capabilities (x_admin_secret id : string) (capabilities : list string) : M (option agent) :=
  do _ <- lift (_require_admin_secret x_admin_secret);
  patch_agent id (with_capabilities (dumps_plain (JList (JStr <$> capabilities)))) "agent.capabilities_patched"
    ("agent_id=" +:+ id +:+ " capabilities=" +:+ repr (JList (JStr <$> capabilities))).

(** [db.py:deactivate_agent] *)
Definition deactivate_agent (id : string) : M bool :=
  transaction (update_agents (active_named id) (with_core deactivated)).

Definition deactivate_agent_endpoint (x_admin_secret id : string) : M unit :=
  do _ <- lift (_require_admin_secret x_admin_secret);
  do _ <- transaction
    (do hit <- update_agents (active_named id) (with_core deactivated);
     if hit : bool then ret tt
     else raise (HTTPException 404 "agent not found or already inactive"));
  audit (admin_call "agent.deactivated" ("agent_id=" +:+ id)).

(** ** The DPoP key of an agent *)

Definition bad_jwk {A} (detail : string) : outcome A := Raise (HTTPException 400 detail).

Definition jwk_thumbprint (jwk : fields) : outcome string :=
  match jwk with
  | [] => bad_jwk "jwk must be a non-empty object"
  | _ =>
      if has_key "d" jwk then
        bad_jwk "private key material ('d') rejected — send the public JWK only"
      else
        let kty := get_none "kty" jwk in
        if negb (is_str "EC" kty || is_str "RSA" kty) then
          bad_jwk ("unsupported kty " +:+ repr kty +:+ " — expected 'EC' (P-256) or 'RSA'")
        else
          match compute_jkt jwk with
          | Raise ValueError | Raise KeyError => bad_jwk "malformed JWK"
          | r => r
          end
  end.

Definition rotation_details (id jkt grace_expiry : string) (old_jkt : option string) : json :=
  JObj [("agent_id", JStr id); ("previous_dpop_jkt", opt_json old_jkt); ("new_dpop_jkt", JStr jkt);
        ("grace_period_expires_at", JStr grace_expiry);
        ("grace_period_hours", JInt (agent_cert_grace_period_hours E))].

Definition same_key (old : option string) (jkt : string) : bool :=
  match old with None | Some EmptyString => false | Some o => bool_decide (o = jkt) end.

Definition register_agent_dpop_jwk (x_admin_secret id : string) (jwk : fields) (now : Z) : M string :=
  do _ <- lift (_require_admin_secret x_admin_secret);
  do jkt <- lift (jwk_thumbprint jwk);
  do grace_expiry <- lift (compute_grace_expiry now (agent_cert_grace_period_hours E));
  do old_jkt <- transaction
    (do prev_row <- select (λ t, head (List.filter (active_named id) (agents t)));
     let old_jkt := prev_row ≫= r_dpop_jkt in
     do hit <- (if same_key old_jkt jkt then update_agents (active_named id) (with_jkt jkt)
                else update_agents (active_named id) (with_previous_jkt jkt old_jkt grace_expiry));
     if hit : bool then ret old_jkt
     else raise (HTTPException 404 "agent not found or inactive"));
  do _ <- audit
    (if same_key old_jkt jkt then
       admin_call "agent.dpop_jwk_set" ("agent_id=" +:+ id +:+ " jkt=" +:+ jkt +:+ " idempotent=1")
     else admin_call "agent.dpop_jwk_rotated" (dumps_plain (rotation_details id jkt grace_expiry old_jkt)));
  ret jkt.

(** ** The sweep of the previous credentials *)

Definition grace_expired (now_text : string) (r : agent) : bool :=
  match r_previous_grace_period_expires_at r with
  | Some expires => text_lt expires now_text
  | None => false
  end.

Definition expired_detail (now_text : string) (r : agent) : string :=
  "grace_expired_at=" +:+ default "None" (r_previous_grace_period_expires_at r)
  +:+ " cleared_at=" +:+ now_text.

Fixpoint audit_each (call : agent → audit_call) (l : list agent) : M unit :=
  match l with
  | [] => ret tt
  | r :: rest => do _ <- catch (audit (call r)) (λ _, ret tt); audit_each call rest
  end.

Definition _sweep_once (now : Z) : M Z :=
  let now := now_utc_iso now in
  do expired_rows <- transaction
    (do rows <- select (λ t, filter (λ r, grace_expired now r = true) (agents t));
     match rows with
     | [] => ret []
     | _ => do _ <- update_agents (grace_expired now) without_previous; ret rows
     end);
  do _ <- audit_each
    (λ r, success_call (r_agent_id r) "agent.cert_grace_period_expired" (Some (expired_detail now r)) None)
    expired_rows;
  ret (Z.of_nat (length expired_rows)).

End Registry.

(** ** Rows by their key *)

Section Rows.
Context {A : Type} (k : A → string).

Definition find_by (id : string) (l : list A) : option A := snd <$> list_find (λ a, k a = id) l.

Lemma find_by_cons id a l :
  find_by id (a :: l) = if bool_decide (k a = id) then Some a else find_by id l.
Proof.
  unfold find_by. cbn. destruct (decide (k a = id)).
  - by rewrite bool_decide_eq_true_2.
  - rewrite bool_decide_eq_false_2 by done. by destruct (list_find _ l) as [[]|].
Qed.

Lemma find_by_Some id l a : find_by id l = Some a → a ∈ l ∧ k a = id.
Proof.
  induction l as [|b l IH]; [done|]. rewrite find_by_cons. case_bool_decide.
  - intros [= ->]. split; [by left|done].
  - intros Hf. destruct (IH Hf). split; [by right|done].
Qed.

Lemma find_by_None id l : find_by id l = None ↔ existsb (λ a, bool_decide (k a = id)) l = false.
Proof.
  induction l as [|b l IH]; [done|]. rewrite find_by_cons. cbn. case_bool_decide; [done|]. by rewrite IH.
Qed.

Lemma find_by_exists id l : existsb (λ a, bool_decide (k a = id)) l = true → ∃ a, find_by id l = Some a.
Proof.
  intros He. destruct (find_by id l) as [a|] eqn:Hf; [by exists a|].
  apply find_by_None in Hf. congruence.
Qed.

Lemma find_by_update id id' (f : A → A) l :
  (∀ a, k (f a) = k a) →
  find_by id' (update_rows (λ a, bool_decide (k a = id)) f l)
  = if bool_decide (id' = id) then f <$> find_by id' l else find_by id' l.
Proof.
  intros Hf. induction l as [|b l IH]; [by case_bool_decide|].
  unfold update_rows in *. cbn [map]. rewrite !find_by_cons, IH.
  destruct (decide (k b = id)) as [Hb|Hb].
  - rewrite !(bool_decide_eq_true_2 (k b = id)) by done. rewrite Hf.
    repeat case_bool_decide; try done; congruence.
  - rewrite !(bool_decide_eq_false_2 (k b = id)) by done. repeat case_bool_decide; try done; congruence.
Qed.

Lemma find_by_app id l l' :
  find_by id (l ++ l') = match find_by id l with Some a => Some a | None => find_by id l' end.
Proof.
  induction l as [|b l IH]; [done|]. rewrite <- app_comm_cons, !find_by_cons. by case_bool_decide.
Qed.

Lemma find_by_unique id l a : NoDup (k <$> l) → a ∈ l → k a = id → find_by id l = Some a.
Proof.
  induction l as [|b l IH]; [by intros _ Ha%not_elem_of_nil|].
  intros [Hb Hd]%NoDup_cons. intros [->|Ha]%elem_of_cons Hk; rewrite find_by_cons.
  - by rewrite bool_decide_eq_true_2.
  - rewrite bool_decide_eq_false_2; [by apply IH|]. intros Heq. apply Hb. rewrite Heq, <- Hk.
    by apply list_elem_of_fmap_2.
Qed.

Lemma update_rows_keys p (f : A → A) l : (∀ a, k (f a) = k a) → k <$> update_rows p f l = k <$> l.
Proof. intros Hf. unfold update_rows. induction l as [|a l IH]; [done|]. cbn. f_equal; [|exact IH]. by destruct (p a). Qed.

Lemma elem_of_update_rows p (f : A → A) a l :
  a ∈ update_rows p f l ↔ ∃ b, b ∈ l ∧ a = if p b then f b else b.
Proof using Type.
  clear k.
  change (update_rows p f l) with ((λ b, if p b then f b else b) <$> l). rewrite list_elem_of_fmap. naive_solver.
Qed.

Lemma update_rows_none p (f : A → A) l : existsb p l = false → update_rows p f l = l.
Proof.
  intros Hn. unfold update_rows. induction l as [|a l IH]; [done|]. cbn in *.
  apply orb_false_iff in Hn as [-> Hn]. by rewrite IH.
Qed.
End Rows.

(** ** What a call that returned did *)

Section Calls.
Context `{Hash} `{FromIso} `{Cryptography} `{ReplayGuard} (E : registry_env).

Lemma select_Ret {A} (f : tables → A) s a s' :
  select E f s = (Ret a, s') → a = f (s_tables s) ∧ s' = issued s.
Proof. intros Hs%statement_Ret. by injection Hs as <- <-. Qed.

Lemma update_agents_Ret p f s b s' :
  update_agents E p f s = (Ret b, s') →
  b = existsb p (agents (s_tables s)) ∧
  s' = with_tables (with_agent_rows (update_rows p f (agents (s_tables s))) (s_tables s)) (issued s).
Proof. intros Hs%statement_Ret. by injection Hs as <- <-. Qed.

Lemma insert_agent_Ret r s s' :
  insert_agent E r s = (Ret tt, s') →
  find_row (r_agent_id r) (agents (s_tables s)) = None ∧
  s' = with_tables (with_agent_rows (agents (s_tables s) ++ [r]) (s_tables s)) (issued s).
Proof.
  intros Hs%statement_Ret. cbn in Hs. destruct (existsb _ _) eqn:He; [done|]. injection Hs as <-.
  split; [|done]. by apply (find_by_None r_agent_id).
Qed.

(** The audit trail beside the tables and the memory. *)
Lemma audit_frame c s :
  s_tables (snd (audit E c s)) = s_tables s ∧ s_memory (snd (audit E c s)) = s_memory s.
Proof. unfold audit, Effects.audit. by destruct (log_audit _ _ _ _). Qed.

Lemma audit_caught_Ret c s s' :
  catch (audit E c) (λ _, ret tt) s = (Ret tt, s') → s_tables s' = s_tables s ∧ s_memory s' = s_memory s.
Proof.
  unfold catch. pose proof (audit_frame c s). destruct (audit E c s) as [[[]|e] s1]; cbn in *.
  - by intros [= <-].
  - by intros [= <-].
Qed.

Lemma get_agent_Ret id s o s' :
  get_agent E id s = (Ret o, s') →
  s_tables s' = s_tables s ∧ s_memory s' = s_memory s ∧
  match o with
  | None => find_row id (agents (s_tables s)) = None
  | Some (r, caps) => find_row id (agents (s_tables s)) = Some r ∧ loads (float_literal E) (r_capabilities r) = Ret caps
  end.
Proof.
  intros Hg%transaction_Ret. destruct Hg as (s1 & Hg & ->).
  apply bind_Ret in Hg as (row & s2 & [-> ->]%select_Ret & Hg).
  destruct (find_row id _) as [r|] eqn:Hr; [|by injection Hg as <- <-].
  apply bind_Ret in Hg as (caps & s3 & Hl & Hg). injection Hl as Hl <-. by injection Hg as <- <-.
Qed.

End Calls.
