(* ===== verification/Enrollment.v ===== *)
(** * Enrollment of Connectors

    [enrollment/service.py] and [enrollment/router.py], with the nonces and
    the quotes of the attestation ([attestation/nonce_store.py] without Redis,
    [tpm_verify.py], [enrollment_hook.py]) and the signature of the agent's
    certificate ([egress/agent_manager.py:sign_external_pubkey]).  The tables
    are those of [AgentRegistry]; the task that binds a new agent at the
    broker is what [approve] schedules.  A message that quotes an exception of
    another package is modelled without the quotation. *)

From S2P Require Import Prelude Sha256 IsoTime UtcTime Json JsonParse Base64 RateLimit ReplayStore Dpop Tier Intune Mdm AuditCanon AuditLog AuditChain Effects AgentRegistry.
From Stdlib Require Import QArith.

Open Scope Z_scope.

Definition ENROLLMENT_TTL : Z := 30 * 60 * 1000000.

(** ** Certificates of the intermediate authority *)

(** [x509.CertificateBuilder], signed: the names and the key go into the
    certificate; it refuses names it cannot encode. *)
Class CertificateBuilder `{Cryptography} := {
  issue : key → certificate → string → string → string → Z → Z → Z → outcome certificate;
  issued_key k ca cn o uri from till serial c : issue k ca cn o uri from till serial = Ret c → cert_key c = k;
  issued_uris k ca cn o uri from till serial c :
    issue k ca cn o uri from till serial = Ret c → san_uris c = Ret (Some [uri]);
  pem_nonempty c : cert_pem_of c ≠ "";
  parsed_chain c c' : load_pem_x509_certificates (cert_pem_of c +:+ cert_pem_of c') = Some [c; c'];
}.

(** The state of [AgentManager] that signing reads: whether the Org root is
    there, the intermediate authority, and the one a reload would find. *)
Record AgentManager `{Cryptography} := {
  m_org_id : string;
  m_trust_domain : string;
  ca_loaded : bool;
  mastio_ca_cert : option certificate;
  persisted_ca : option certificate;
}.

Definition AGENT_CERT_VALIDITY_DAYS : Z := 365.
Definition _ALLOWED_EC_CURVES : list string := ["secp256r1"; "secp384r1"; "secp521r1"].
Definition _MIN_RSA_KEY_BITS : Z := 2048.

Section Enrollment.
Context `{Hash} `{FromIso} `{Cryptography} `{ReplayGuard} `{ZuluTime}.
Context `{!CertificateBuilder}.

Definition strong (k : key) : bool :=
  match kind_of k with
  | RsaKey size => _MIN_RSA_KEY_BITS <=? size
  | EcKey curve => bool_decide (curve ∈ _ALLOWED_EC_CURVES)
  | OtherKey _ => false
  end.

Definition assert_strong_public_key (k : key) : outcome unit :=
  if strong k then Ret tt else Raise ValueError.

Definition spiffe_uri (mgr : AgentManager) (name : string) : string :=
  "spiffe://" +:+ m_trust_domain mgr +:+ "/" +:+ m_org_id mgr +:+ "/" +:+ name.

(** The authority in memory, or the one the lazy reload adopts. *)
Definition signing_ca (mgr : AgentManager) : option certificate :=
  match mastio_ca_cert mgr with Some ca => Some ca | None => persisted_ca mgr end.

Definition sign_external_pubkey (mgr : AgentManager) (serial now : Z) (pubkey_pem agent_name : string)
    : outcome string :=
  match signing_ca mgr with
  | None => Raise RuntimeError
  | Some ca =>
      match load_pem_public_key pubkey_pem with
      | None => Raise ValueError
      | Some k =>
          let! _ := assert_strong_public_key k in
          let! cert := issue k ca (m_org_id mgr +:+ "::" +:+ agent_name) (m_org_id mgr)
                         (spiffe_uri mgr agent_name) now (now + hours (24 * AGENT_CERT_VALIDITY_DAYS)) serial in
          Ret (cert_pem_of cert +:+ cert_pem_of ca)
      end
  end.

(** ** Attestation nonces *)

Definition _prune_locked (now_s : Z) (l : gmap string (string * Z)) : gmap string (string * Z) :=
  filter (λ kv, now_s <= kv.2.2) l.

(** [raw] and [nonce_id] are random. *)
Definition issue_nonce (now_s ttl : Z) (raw nonce_id : string) (l : gmap string (string * Z))
    : (string * string * Z) * gmap string (string * Z) :=
  let nonce_b64 := encode raw in
  let expires_at := now_s + ttl in
  ((nonce_id, nonce_b64, expires_at), <[nonce_id := (nonce_b64, expires_at)]> (_prune_locked now_s l)).

Definition consume_nonce (now_s : Z) (nonce_id : string) (l : gmap string (string * Z))
    : outcome (option string) * gmap string (string * Z) :=
  if bool_decide (nonce_id = "") then (Ret None, l)
  else
    let l := _prune_locked now_s l in
    match l !! nonce_id with
    | None => (Ret None, l)
    | Some (nonce_b64, _) =>
        (match urlsafe_b64decode (padded nonce_b64) with
         | Some raw => Ret (Some raw)
         | None => Raise ValueError
         end, delete nonce_id l)
    end.

(** ** TPM quotes *)

Definition TPM_MANUFACTURER_WHITELIST : list string := ["Infineon"; "Intel"; "Microsoft"; "Nuvoton"; "ST"].
Definition _QUOTE_MAGIC : string := "CULLIS-Q1".

(** [blob[pos : pos + n]] *)
Definition slice (pos n : nat) (blob : string) : string := String.substring pos n blob.
Definition be_int (b : string) : nat := N.to_nat (int_from_bytes b).

Definition quote_error {A} (text : string) : outcome A := Raise (Other "TpmQuoteVerificationError" text).

Definition _unpack_envelope (blob : string) : outcome (string * string * string) :=
  if (String.length blob <? 9 + 2 + 4 + 4)%nat then quote_error "quote envelope truncated"
  else if negb (bool_decide (slice 0 9 blob = _QUOTE_MAGIC)) then quote_error "quote envelope magic mismatch"
  else
    let nonce_len := be_int (slice 9 2 blob) in
    let nonce := slice 11 nonce_len blob in
    let pos := (11 + nonce_len)%nat in
    let quote_len := be_int (slice pos 4 blob) in
    let quote := slice (pos + 4) quote_len blob in
    if negb (String.length quote =? quote_len)%nat then quote_error "quote body truncated"
    else
      let pos := (pos + 4 + quote_len)%nat in
      let sig_len := be_int (slice pos 4 blob) in
      let sig := slice (pos + 4) sig_len blob in
      if negb (String.length sig =? sig_len)%nat then quote_error "quote signature truncated"
      else Ret (nonce, quote, sig).

Definition _claim_soft_only : fields :=
  [("hardware", JStr "soft"); ("strength", JStr "soft_only"); ("manufacturer", JNull)].

Definition quote_strength (ek_cert_present : bool) (manufacturer : option string) : string :=
  if ek_cert_present && match manufacturer with
                        | Some m => bool_decide (m ∈ TPM_MANUFACTURER_WHITELIST)
                        | None => false end
  then "hw_attested" else "hw_isolated".

Definition verify_tpm_quote (quote_blob public_key_pem expected_nonce : string) (manufacturer : option string)
    (ek_cert_present : bool) : outcome (bool * fields) :=
  match _unpack_envelope quote_blob with
  | Raise _ => Ret (false, _claim_soft_only)
  | Ret (nonce, quote_bytes, sig_bytes) =>
      if negb (bool_decide (nonce = expected_nonce)) then Ret (false, _claim_soft_only)
      else
        match load_pem_public_key public_key_pem with
        | None => quote_error "invalid public key PEM"
        | Some pub =>
            match kind_of pub with
            | EcKey _ =>
                let! valid := ecdsa_verifies_digest pub sig_bytes (digest quote_bytes) in
                if valid : bool then
                  Ret (true, [("hardware", JStr "tpm_2.0");
                              ("strength", JStr (quote_strength ek_cert_present manufacturer));
                              ("manufacturer", opt_json manufacturer);
                              ("pcr_digest_sha256", JStr (hexdigest quote_bytes))])
                else Ret (false, _claim_soft_only)
            | _ => Ret (false, _claim_soft_only)
            end
        end
  end.

(** ** The requests *)

Record StartRequest := {
  q_pubkey_pem : string;
  q_pop_signature : string;
  q_requester_name : string;
  q_requester_email : string;
  q_reason : option string;
  q_device_info : option string;
  q_dpop_jwk : option fields;
  q_attestation_nonce_id : option string;
  q_tpm_quote_b64 : option string;
  q_tpm_manufacturer : option string;
  q_tpm_ek_cert_present : bool;
  q_principal_type : string;
}.

Record Approval := {
  p_agent_id : string;
  p_capabilities : list string;
  p_groups : list string;
  p_admin_name : string;
}.

Context (E : registry_env).

Notation M := (M registry_state).
Notation statement := (statement (statement_fails E)).
Notation transaction := (transaction (statement_fails E)).
Notation select := (select E).
Notation set_tables := (set_tables E).

Definition refuse {A} (status : Z) (message : string) : outcome A := Raise (EnrollmentError status message).

Definition _pubkey_fingerprint (pubkey_pem : string) : outcome string :=
  match load_pem_public_key pubkey_pem with
  | None => refuse 400 "Invalid public key PEM"
  | Some k => Ret (hexdigest (spki_der k))
  end.

Definition _validate_and_compute_dpop_jkt (dpop_jwk : option fields) : outcome (option string) :=
  match dpop_jwk with
  | None => Ret None
  | Some [] => refuse 400 "dpop_jwk must be a non-empty object"
  | Some jwk =>
      if has_key "d" jwk then refuse 400 "dpop_jwk must be the public JWK — private material ('d') rejected"
      else
        let kty := get_none "kty" jwk in
        if negb (is_str "EC" kty || is_str "RSA" kty) then
          refuse 400 ("dpop_jwk kty " +:+ repr kty +:+ " unsupported — expected 'EC' (P-256) or 'RSA'")
        else
          match compute_jkt jwk with
          | Raise ValueError | Raise KeyError => refuse 400 "dpop_jwk is malformed"
          | Ret jkt => Ret (Some jkt)
          | Raise e => Raise e
          end
  end.

(** A signature of the text [domain|subject] by the key; every exception on
    the way is a refusal. *)
Definition proof_of_possession (domain subject pubkey_pem signature_b64 : string) : bool :=
  match urlsafe_b64decode (padded signature_b64) with
  | None => false
  | Some sig =>
      match load_pem_public_key pubkey_pem with
      | None => false
      | Some k =>
          let canonical := domain +:+ "|" +:+ subject in
          match kind_of k with
          | RsaKey _ => pss_verifies k sig canonical
          | EcKey _ => ecdsa_verifies k sig canonical
          | OtherKey _ => false
          end
      end
  end.

Definition _ENROLLMENT_POP_DOMAIN : string := "enrollment-pop:v1".
Definition _verify_pop_signature (pubkey_pem fingerprint signature_b64 : string) : bool :=
  proof_of_possession _ENROLLMENT_POP_DOMAIN fingerprint pubkey_pem signature_b64.

Definition _ENROLLMENT_STATUS_PROOF_DOMAIN : string := "enrollment-status:v1".
Definition _verify_enrollment_proof (pubkey_pem session_id signature_b64 : string) : bool :=
  proof_of_possession _ENROLLMENT_STATUS_PROOF_DOMAIN session_id pubkey_pem signature_b64.

Definition nonempty (o : option string) : bool :=
  match o with None | Some EmptyString => false | Some _ => true end.

Definition on_nonces {A} (f : gmap string (string * Z) → outcome A * gmap string (string * Z)) : M A := λ s,
  let '(r, l) := f (nonces (s_memory s)) in (r, with_memory (with_nonces l (s_memory s)) s).

Definition _verify_tpm_attestation (now : Z) (q : StartRequest) : M (option string) :=
  let quote := default "" (q_tpm_quote_b64 q) in
  let nonce_id := default "" (q_attestation_nonce_id q) in
  if bool_decide (quote = "") && bool_decide (nonce_id = "") then ret None
  else if xorb (negb (bool_decide (quote = ""))) (negb (bool_decide (nonce_id = ""))) then
    lift (refuse 400 "tpm_quote_b64 and attestation_nonce_id must both be supplied (or both omitted)")
  else
    do nonce_bytes <- on_nonces (consume_nonce (now / 1000000) nonce_id);
    match nonce_bytes with
    | None => lift (refuse 400 "attestation nonce expired or already consumed")
    | Some nonce_bytes =>
        match urlsafe_b64decode (padded quote) with
        | None => lift (refuse 400 "tpm_quote_b64 is not valid base64url")
        | Some quote_blob =>
            do (valid, claim) <- lift
              match verify_tpm_quote quote_blob (q_pubkey_pem q) nonce_bytes (q_tpm_manufacturer q)
                      (q_tpm_ek_cert_present q) with
              | Raise (Other "TpmQuoteVerificationError" text) =>
                  refuse 400 ("tpm_quote verification failed: " +:+ text)
              | r => r
              end;
            if valid : bool then ret (Some (dumps (JObj (dset "verified_at" (JStr (seconds_text now)) claim))))
            else lift (refuse 400 "tpm_quote signature or nonce verification failed")
        end
    end.

(** ** Reads and writes of [pending_enrollments] *)

Definition with_status (st : enrollment_status) (r : enrollment) : enrollment :=
  {| e_session_id := e_session_id r; e_pubkey_pem := e_pubkey_pem r; e_pubkey_fingerprint := e_pubkey_fingerprint r;
     e_requester_name := e_requester_name r; e_requester_email := e_requester_email r; e_reason := e_reason r;
     e_device_info := e_device_info r; e_dpop_jkt := e_dpop_jkt r; e_status := st;
     e_created_at := e_created_at r; e_expires_at := e_expires_at r; e_decided_at := e_decided_at r;
     e_decided_by := e_decided_by r; e_agent_id_assigned := e_agent_id_assigned r;
     e_capabilities_assigned := e_capabilities_assigned r; e_groups_assigned := e_groups_assigned r;
     e_cert_pem := e_cert_pem r; e_rejection_reason := e_rejection_reason r;
     e_device_attestation_json := e_device_attestation_json r; e_principal_type := e_principal_type r |}.

Definition session (sid : string) (r : enrollment) : bool := bool_decide (e_session_id r = sid).

Definition find_enrollment (sid : string) (t : tables) : option enrollment :=
  snd <$> list_find (λ r, e_session_id r = sid) (pending_enrollments t).

(** An UPDATE, with the number of its rows. *)
Definition update_enrollments (p : enrollment → bool) (f : enrollment → enrollment) : M Z :=
  statement (λ s,
    let t := s_tables s in
    (Ret (Z.of_nat (length (filter (λ r, p r = true) (pending_enrollments t)))),
     with_tables (with_enrollments (update_rows p f (pending_enrollments t)) t) s)).

(** [datetime.fromisoformat(record["expires_at"]) < _now()] *)
Definition record_expired (now : Z) (r : enrollment) : outcome bool :=
  match from_iso (e_expires_at r) with
  | None => Raise ValueError
  | Some (false, _) => Raise TypeError
  | Some (true, expires_at) => Ret (expires_at <? now)
  end.

Definition get_record (now : Z) (sid : string) : M enrollment :=
  do row <- select (find_enrollment sid);
  match row with
  | None => lift (refuse 404 "Enrollment session not found")
  | Some record =>
      if bool_decide (e_status record = PENDING) then
        do lapsed <- lift (record_expired now record);
        if lapsed : bool then
          do _ <- update_enrollments (session sid) (with_status EXPIRED);
          ret (with_status EXPIRED record)
        else ret record
      else ret record
  end.

(** [WHERE status = 'pending' AND expires_at < :now] *)
Definition lapsed (now_text : string) (r : enrollment) : bool :=
  bool_decide (e_status r = PENDING) && text_lt (e_expires_at r) now_text.

Definition sweep_expired (now : Z) : M Z :=
  update_enrollments (lapsed (seconds_text now)) (with_status EXPIRED).

Definition newer_first (a b : enrollment) : Prop := text_lt (e_created_at a) (e_created_at b) = false.

#[export] Instance newer_first_dec a b : Decision (newer_first a b).
Proof. unfold newer_first. apply _. Defined.

Definition list_pending (now : Z) : M (list enrollment) :=
  do _ <- update_enrollments (lapsed (seconds_text now)) (with_status EXPIRED);
  select (λ t, merge_sort newer_first (filter (λ r, e_status r = PENDING) (pending_enrollments t))).

Record StartedEnrollment := {
  started_session_id : string;
  started_expires_at : Z;
  started_audit_events : list audit_call;
}.

Definition new_enrollment (now : Z) (session_id fingerprint : string) (jkt attestation : option string)
    (q : StartRequest) : enrollment :=
  {| e_session_id := session_id; e_pubkey_pem := q_pubkey_pem q; e_pubkey_fingerprint := fingerprint;
     e_requester_name := q_requester_name q; e_requester_email := q_requester_email q; e_reason := q_reason q;
     e_device_info := q_device_info q; e_dpop_jkt := jkt; e_status := PENDING;
     e_created_at := seconds_text now; e_expires_at := seconds_text (now + ENROLLMENT_TTL);
     e_decided_at := None; e_decided_by := None; e_agent_id_assigned := None;
     e_capabilities_assigned := Some "[]"; e_groups_assigned := Some "[]"; e_cert_pem := None;
     e_rejection_reason := None; e_device_attestation_json := attestation;
     e_principal_type := q_principal_type q |}.

(** The primary key is the session_id. *)
Definition insert_enrollment (r : enrollment) : M unit :=
  statement (λ s,
    let t := s_tables s in
    if existsb (session (e_session_id r)) (pending_enrollments t) then (Raise IntegrityError, s)
    else (Ret tt, with_tables (with_enrollments (pending_enrollments t ++ [r]) t) s)).

(** [session_id] is random. *)
Definition start_enrollment (now : Z) (session_id : string) (q : StartRequest) : M StartedEnrollment :=
  do dpop_jkt <- lift (_validate_and_compute_dpop_jkt (q_dpop_jwk q));
  do fingerprint <- lift (_pubkey_fingerprint (q_pubkey_pem q));
  if bool_decide (q_pop_signature q = "") then lift (refuse 400 "pop_signature is required. Connectors must sign 'enrollment-pop:v1|<pubkey-sha256-hex>' with the enrollment private key. Pre-v0.4.4 Connectors are unsupported.")
  else if negb (_verify_pop_signature (q_pubkey_pem q) fingerprint (q_pop_signature q)) then
    lift (refuse 400 "pop_signature does not verify against pubkey_pem, the submitter does not control the corresponding private key (H-csr-pop audit).")
  else
    do attestation_json <- _verify_tpm_attestation now q;
    do expires_at <- lift (datetime_of (now + ENROLLMENT_TTL));
    if negb (bool_decide (q_principal_type q ∈ ["agent"; "workload"])) then
      lift (refuse 400 ("principal_type must be 'agent' or 'workload', got " +:+ repr_str (q_principal_type q)))
    else
      do _ <- insert_enrollment (new_enrollment now session_id fingerprint dpop_jkt attestation_json q);
      ret {| started_session_id := session_id; started_expires_at := expires_at;
             started_audit_events :=
               match attestation_json with
               | Some text => [success_call ("pending::" +:+ session_id) "device_attestation.verified"
                                 (Some text) None]
               | None => []
               end |}.

(** ** The stamp of the device *)

Record device_hint := {
  h_azure_ad_device_id : option string;
  h_intune_device_id : option string;
  h_serial_number : option string;
}.

Definition no_hint : device_hint :=
  {| h_azure_ad_device_id := None; h_intune_device_id := None; h_serial_number := None |}.

Definition _str_or_none (value : json) : option string :=
  match value with
  | JStr s => let t := rstrip (lstrip s) in if bool_decide (t = "") then None else Some t
  | _ => None
  end.

Definition or_else {A} (a b : option A) : option A := match a with Some _ => a | None => b end.

Definition _extract_device_hint (device_info : option string) : device_hint :=
  match device_info with
  | None | Some EmptyString => no_hint
  | Some text =>
      match loads (float_literal E) text with
      | Ret (JObj parsed) =>
          {| h_azure_ad_device_id := _str_or_none (get_none "azure_ad_device_id" parsed);
             h_intune_device_id := or_else (_str_or_none (get_none "intune_device_id" parsed))
                                     (_str_or_none (get_none "device_id" parsed));
             h_serial_number := _str_or_none (get_none "serial_number" parsed) |}
      | _ => no_hint
      end
  end.

Abbreviation keyed_device := (string * string * device_row)%type.

Definition seen_later (a b : keyed_device) : Prop := d_last_seen_at b.2 <= d_last_seen_at a.2.

#[export] Instance seen_later_dec a b : Decision (seen_later a b).
Proof. unfold seen_later. apply _. Defined.

(** [WHERE ... ORDER BY last_seen_at DESC LIMIT 1] *)
Definition freshest (p : keyed_device → bool) (t : tables) : option keyed_device :=
  head (merge_sort seen_later (filter (λ d, p d = true) (map_to_list (device_states t)))).

Definition by_hint (hint : option string) (p : string → keyed_device → bool) : M (option keyed_device) :=
  match hint with
  | None => ret None
  | Some v => select (freshest (p v))
  end.

Definition _lookup_device_row (h : device_hint) : M (option keyed_device) :=
  do row <- by_hint (h_azure_ad_device_id h) (λ v d, bool_decide (d_azure_ad_device_id d.2 = Some v));
  match row with
  | Some _ => ret row
  | None =>
      do row <- by_hint (h_intune_device_id h) (λ v d, bool_decide (d.1 = ("intune", v)));
      match row with
      | Some _ => ret row
      | None => by_hint (h_serial_number h) (λ v d, bool_decide (d_serial_number d.2 = Some v))
      end
  end.

Definition compliance_or_unknown (d : device_row) : string :=
  match d_compliance d with None | Some EmptyString => COMPLIANCE_UNKNOWN | Some c => c end.

Definition device_claim (now : Z) (d : keyed_device) : outcome fields :=
  apply_stale_downgrade
    (build_attestation_claim (Some d.1.1) (Some d.1.2) (compliance_or_unknown d.2)
       (opt_json (d_manufacturer d.2)) (d_last_seen_at d.2) now None STRENGTH_SOFT_ONLY)
    (stale_threshold_seconds E).

Definition unchained_row (now : Z) (agent action detail : string) : audit_row :=
  {| payload := {| timestamp := utc_text now; AuditCanon.agent_id := agent; action := action; tool_name := None;
                   status := "success"; detail := Some detail; request_id := None; duration_ms := None;
                   dpop_jkt := None; on_behalf_of_user_id := None |};
     chain_seq := None; prev_hash := None; row_hash := None; hash_format := None |}.

Definition insert_audit_row (r : audit_row) : M unit :=
  statement (modify (λ s,
    {| s_trail := {| w_table := w_table (s_trail s) ++ [r]; w_pending := w_pending (s_trail s);
                     w_unhealthy := w_unhealthy (s_trail s) |};
       s_audits := s_audits s; s_statements := s_statements s; s_tables := s_tables s;
       s_memory := s_memory s |})).

Definition stamp_detail (session_id : string) (claim : fields) : outcome string :=
  let! block := item "device_attestation" claim in
  let! tier := item "effective_tier" claim in
  Ret (dumps (JObj [("event_subtype", JStr "verified"); ("device_attestation", block);
                    ("effective_tier", tier); ("trigger", JStr "enrollment");
                    ("session_id", JStr session_id)])).

Definition stamp_attestation_on_enrollment (now : Z) (agent : string) (device_info : option string)
    (session_id : string) : M (option fields) :=
  do row <- catch (_lookup_device_row (_extract_device_hint device_info)) (λ _, ret None);
  match row with
  | None => ret None
  | Some d =>
      do claim <- lift (device_claim now d);
      do stored <- catch
        (do _ <- update_agents E (named agent) (with_core (with_claim (dumps (JObj claim)))); ret true)
        (λ _, ret false);
      if stored : bool then
        do text <- lift (stamp_detail session_id claim);
        do _ <- catch (insert_audit_row (unchained_row now agent "device_attestation" text)) (λ _, ret tt);
        ret (Some claim)
      else ret None
  end.

(** ** Decisions *)

Definition approved_record (now agent : string) (a : Approval) (cert : string) (r : enrollment) : enrollment :=
  {| e_session_id := e_session_id r; e_pubkey_pem := e_pubkey_pem r; e_pubkey_fingerprint := e_pubkey_fingerprint r;
     e_requester_name := e_requester_name r; e_requester_email := e_requester_email r; e_reason := e_reason r;
     e_device_info := e_device_info r; e_dpop_jkt := e_dpop_jkt r; e_status := APPROVED;
     e_created_at := e_created_at r; e_expires_at := e_expires_at r; e_decided_at := Some now;
     e_decided_by := Some (p_admin_name a); e_agent_id_assigned := Some agent;
     e_capabilities_assigned := Some (dumps_plain (JList (JStr <$> p_capabilities a)));
     e_groups_assigned := Some (dumps_plain (JList (JStr <$> p_groups a)));
     e_cert_pem := Some cert; e_rejection_reason := e_rejection_reason r;
     e_device_attestation_json := e_device_attestation_json r; e_principal_type := e_principal_type r |}.

Definition rejected_record (now admin_name reason : string) (r : enrollment) : enrollment :=
  {| e_session_id := e_session_id r; e_pubkey_pem := e_pubkey_pem r; e_pubkey_fingerprint := e_pubkey_fingerprint r;
     e_requester_name := e_requester_name r; e_requester_email := e_requester_email r; e_reason := e_reason r;
     e_device_info := e_device_info r; e_dpop_jkt := e_dpop_jkt r; e_status := REJECTED;
     e_created_at := e_created_at r; e_expires_at := e_expires_at r; e_decided_at := Some now;
     e_decided_by := Some admin_name; e_agent_id_assigned := e_agent_id_assigned r;
     e_capabilities_assigned := e_capabilities_assigned r; e_groups_assigned := e_groups_assigned r;
     e_cert_pem := e_cert_pem r; e_rejection_reason := Some reason;
     e_device_attestation_json := e_device_attestation_json r; e_principal_type := e_principal_type r |}.

(** An id with the separator is kept, any other is a name of the
    organisation. *)
Definition canonical_id (mgr : AgentManager) (agent_id : string) : string :=
  match partition "::" agent_id with
  | Some _ => agent_id
  | None => m_org_id mgr +:+ "::" +:+ agent_id
  end.

(** [canonical_id.split("::", 1)[1]] *)
Definition name_part (canonical : string) : string :=
  match partition "::" canonical with Some (_, name) => name | None => "" end.

Definition enrolled_agent (now canonical spiffe cert : string) (a : Approval) (r : enrollment) : agent :=
  {| r_core := {| a_agent_id := canonical; a_last_attestation := None; a_is_active := true;
                  a_revoked_at := None; a_revoked_reason := None; a_federation_revision := 1 |};
     r_display_name := p_agent_id a; r_capabilities := dumps_plain (JList (JStr <$> p_capabilities a));
     r_cert_pem := Some cert; r_created_at := now; r_device_info := e_device_info r;
     r_dpop_jkt := e_dpop_jkt r; r_enrollment_method := Some "connector"; r_enrolled_at := Some now;
     r_spiffe_id := Some spiffe; r_federated := false; r_federated_at := None; r_reach := "both";
     r_principal_type := or_default (e_principal_type r) "agent"; r_previous_cert_pem := None;
     r_previous_dpop_jkt := None; r_previous_grace_period_expires_at := None |}.

Definition reactivated (a : internal_agent) : internal_agent :=
  core_with true (a_federation_revision a + 1) a.

Definition reenrolled_agent (now spiffe cert grace_expiry : string) (old_cert old_jkt : option string)
    (r : enrollment) (g : agent) : agent :=
  {| r_core := reactivated (r_core g); r_display_name := r_display_name g;
     r_capabilities := r_capabilities g; r_cert_pem := Some cert; r_created_at := r_created_at g;
     r_device_info := e_device_info r; r_dpop_jkt := e_dpop_jkt r;
     r_enrollment_method := r_enrollment_method g; r_enrolled_at := Some now; r_spiffe_id := Some spiffe;
     r_federated := r_federated g; r_federated_at := r_federated_at g; r_reach := r_reach g;
     r_principal_type := or_default (e_principal_type r) "agent"; r_previous_cert_pem := old_cert;
     r_previous_dpop_jkt := old_jkt; r_previous_grace_period_expires_at := Some grace_expiry |}.

Definition created_event (sid canonical : string) (a : Approval) : audit_call :=
  success_call canonical "agent.create" None
    (Some (JObj [("source", JStr "device_code_enrollment"); ("session_id", JStr sid);
                 ("admin", JStr (p_admin_name a)); ("capabilities", JList (JStr <$> p_capabilities a))])).

Definition rotated_event (sid canonical cert grace_expiry : string) (old_cert old_jkt : option string)
    (a : Approval) (r : enrollment) : audit_call :=
  success_call canonical "agent.cert_rotated" None
    (Some (JObj [("source", JStr "device_code_enrollment"); ("session_id", JStr sid);
                 ("admin", JStr (p_admin_name a)); ("reason", JStr "re-enrollment of existing agent_id");
                 ("previous_cert_thumbprint", opt_json (cert_thumbprint_hex old_cert));
                 ("new_cert_thumbprint", opt_json (cert_thumbprint_hex (Some cert)));
                 ("previous_dpop_jkt", opt_json old_jkt); ("new_dpop_jkt", opt_json (e_dpop_jkt r));
                 ("grace_period_expires_at", JStr grace_expiry);
                 ("grace_period_hours", JInt (agent_cert_grace_period_hours E))])).

Definition _ambassador_mode_from_device_info (device_info : option string) : option string :=
  match device_info with
  | None | Some EmptyString => None
  | Some text =>
      match loads (float_literal E) text with
      | Ret (JObj parsed) => as_str (get_none "ambassador_mode" parsed)
      | _ => None
      end
  end.

(** The capabilities the background task will bind the agent to. *)
Definition scheduled_binding (auto_baseline_binding : bool) (device_info : option string)
    (capabilities : list string) : option (list string) :=
  if bool_decide (_ambassador_mode_from_device_info device_info = Some "shared") then None
  else if auto_baseline_binding && negb (bool_decide (capabilities = [])) then Some capabilities
  else None.

Record approval_clock := { read_at : Z; signed_at : Z; decided_at : Z; grace_at : Z; stamped_at : Z }.

Record approved := {
  ap_record : enrollment;
  ap_audit_events : list audit_call;
  ap_binding : option (list string);
}.

(** The row of the agent: inserted, or its credentials replaced. *)
Definition enroll_agent (ck : approval_clock) (sid canonical spiffe cert : string) (a : Approval)
    (record : enrollment) : M (list audit_call) :=
  let now := seconds_text (decided_at ck) in
  do existing <- select (λ t, existsb (named canonical) (agents t));
  if negb existing then
    do _ <- insert_agent E (enrolled_agent now canonical spiffe cert a record);
    ret [created_event sid canonical a]
  else
    do prev_row <- select (λ t, find_row canonical (agents t));
    let old_cert := prev_row ≫= r_cert_pem in
    let old_jkt := prev_row ≫= r_dpop_jkt in
    do grace_expiry <- lift (compute_grace_expiry (grace_at ck) (agent_cert_grace_period_hours E));
    do _ <- update_agents E (named canonical)
              (reenrolled_agent now spiffe cert grace_expiry old_cert old_jkt record);
    ret [rotated_event sid canonical cert grace_expiry old_cert old_jkt a record].

(** What follows once the certificate is signed. *)
Definition commit_approval (ck : approval_clock) (auto_baseline_binding : bool) (mgr : AgentManager)
    (sid cert : string) (a : Approval) (record : enrollment) : M approved :=
  let canonical := canonical_id mgr (p_agent_id a) in
  do _ <- update_enrollments (session sid)
            (approved_record (seconds_text (decided_at ck)) canonical a cert);
  do audit_events <- enroll_agent ck sid canonical (spiffe_uri mgr (name_part canonical)) cert a record;
  do _ <- catch (do _ <- stamp_attestation_on_enrollment (stamped_at ck) canonical (e_device_info record) sid;
                 ret tt) (λ _, ret tt);
  do result <- get_record (stamped_at ck) sid;
  ret {| ap_record := result; ap_audit_events := audit_events;
         ap_binding := scheduled_binding auto_baseline_binding (e_device_info record) (p_capabilities a) |}.

(** [serial] is random. *)
Definition approve (ck : approval_clock) (serial : Z) (auto_baseline_binding : bool) (mgr : AgentManager)
    (sid : string) (a : Approval) : M approved :=
  do record <- get_record (read_at ck) sid;
  if negb (bool_decide (e_status record = PENDING)) then
    lift (refuse 409 ("Cannot approve an enrollment in status '" +:+ status_text (e_status record) +:+ "'"))
  else if negb (ca_loaded mgr) then
    lift (refuse 503 "Org CA is not loaded — complete broker setup first.")
  else
    do cert <- lift (sign_external_pubkey mgr serial (signed_at ck) (e_pubkey_pem record) (p_agent_id a));
    commit_approval ck auto_baseline_binding mgr sid cert a record.

Definition commit_rejection (now read_again : Z) (sid reason admin_name : string) : M enrollment :=
  do _ <- update_enrollments (session sid) (rejected_record (seconds_text now) admin_name reason);
  get_record read_again sid.

Definition reject (read_at now read_again : Z) (sid reason admin_name : string) : M enrollment :=
  do record <- get_record read_at sid;
  if negb (bool_decide (e_status record = PENDING)) then
    lift (refuse 409 ("Cannot reject an enrollment in status '" +:+ status_text (e_status record) +:+ "'"))
  else commit_rejection now read_again sid reason admin_name.

(** ** The endpoints *)

Definition _ENROLLMENT_START_PER_MINUTE : Z := 5.
Definition _ENROLLMENT_STATUS_PER_MINUTE : Z := 60.
Definition _ATTESTATION_NONCE_PER_MINUTE : Z := 30.

Definition check_rate (mono : Z) (bucket : string) (per_minute : Z) : M bool := λ s,
  let '(ok, w) := check mono bucket per_minute (rates (s_memory s)) in
  (Ret ok, with_memory (with_rates w (s_memory s)) s).

Definition limited {A} (mono : Z) (bucket : string) (per_minute : Z) (detail : string) (m : M A) : M A :=
  do ok <- check_rate mono bucket per_minute;
  if ok : bool then m else raise (HTTPException 429 detail).

(** [except service.EnrollmentError as exc: raise HTTPException(...)] *)
Definition as_http (e : exn) : exn :=
  match e with EnrollmentError status message => HTTPException status message | e => e end.
Definition served {A} (m : M A) : M A := catch (transaction m) (λ e, raise (as_http e)).

Fixpoint emit_audit_events (events : list audit_call) : M unit :=
  match events with
  | [] => ret tt
  | ev :: rest => do _ <- audit E ev; emit_audit_events rest
  end.

Definition start_enrollment_endpoint (mono now : Z) (client_ip session_id : string) (q : StartRequest)
    : M StartedEnrollment :=
  limited mono ("ip:" +:+ client_ip +:+ ":enroll.start") _ENROLLMENT_START_PER_MINUTE
    "enrollment rate limit exceeded"
    (do started <- served (start_enrollment now session_id q);
     do _ <- emit_audit_events (started_audit_events started);
     ret started).

Definition attestation_nonce (mono now_s ttl : Z) (client_ip raw nonce_id : string) : M (string * string * Z) :=
  limited mono ("ip:" +:+ client_ip +:+ ":enroll.attestation_nonce") _ATTESTATION_NONCE_PER_MINUTE
    "attestation nonce rate limit exceeded"
    (on_nonces (λ l, let '(issued, l) := issue_nonce now_s ttl raw nonce_id l in (Ret issued, l))).

Record EnrollmentStatusResponse := {
  sr_session_id : string;
  sr_status : enrollment_status;
  sr_agent_id : option string;
  sr_cert_pem : option string;
  sr_capabilities : option json;
  sr_rejection_reason : option string;
  sr_detail : option string;
}.

Definition capabilities_of (r : enrollment) : outcome json :=
  let caps_raw := match e_capabilities_assigned r with None | Some EmptyString => "[]" | Some t => t end in
  match loads (float_literal E) caps_raw with
  | Raise ValueError => Ret (JList [])
  | v => v
  end.

Definition has_valid_proof (session_id proof_header : string) (r : enrollment) : bool :=
  negb (bool_decide (proof_header = "")) && negb (bool_decide (e_pubkey_pem r = "")) &&
  _verify_enrollment_proof (e_pubkey_pem r) session_id proof_header.

Definition proof_hint (session_id : string) : string :=
  "Proof header X-Enrollment-Proof required. Sign '" +:+ _ENROLLMENT_STATUS_PROOF_DOMAIN +:+ "|" +:+ session_id
  +:+ "' (ECDSA-SHA256 or RSA-PSS depending on enrollment key type), base64url-encode without padding, and pass as X-Enrollment-Proof header. See docs/operate/enrollment-protocol.md.".

Definition status_response (session_id proof_header : string) (r : enrollment)
    : outcome EnrollmentStatusResponse :=
  let proof := has_valid_proof session_id proof_header r in
  let bare detail reason :=
    {| sr_session_id := e_session_id r; sr_status := e_status r; sr_agent_id := None; sr_cert_pem := None;
       sr_capabilities := None; sr_rejection_reason := reason; sr_detail := detail |} in
  match e_status r, proof with
  | APPROVED, true =>
      let! caps := capabilities_of r in
      Ret {| sr_session_id := e_session_id r; sr_status := APPROVED; sr_agent_id := e_agent_id_assigned r;
             sr_cert_pem := e_cert_pem r; sr_capabilities := Some caps; sr_rejection_reason := None;
             sr_detail := None |}
  | APPROVED, false => Ret (bare (Some (proof_hint session_id)) None)
  | REJECTED, true => Ret (bare None (e_rejection_reason r))
  | _, _ => Ret (bare None None)
  end.

Definition enrollment_status_endpoint (mono now : Z) (client_ip session_id proof_header : string)
    : M EnrollmentStatusResponse :=
  limited mono ("ip:" +:+ client_ip +:+ ":enroll.status") _ENROLLMENT_STATUS_PER_MINUTE
    "enrollment status rate limit exceeded"
    (do record <- served (get_record now session_id);
     lift (status_response session_id proof_header record)).

(** What [require_login] gives: nothing, or the session's CSRF token and its
    role. *)
Definition dashboard_session : Type := option (string * string).

Definition _require_logged_in (session : dashboard_session) : outcome (string * string) :=
  match session with None => Raise (HTTPException 401 "Authentication required") | Some s => Ret s end.

Definition _verify_csrf_header (x_csrf_token : string) (session : string * string) : outcome unit :=
  if bool_decide (fst session = "") || bool_decide (x_csrf_token = "") then
    Raise (HTTPException 403 "CSRF token missing")
  else
    let! same := compare_digest (JStr x_csrf_token) (fst session) in
    if same : bool then Ret tt else Raise (HTTPException 403 "CSRF token invalid").

Definition admin_list_pending (session : dashboard_session) (now : Z) : M (list enrollment) :=
  do _ <- lift (_require_logged_in session);
  transaction (list_pending now).

Definition admin_approve (session : dashboard_session) (x_csrf_token : string) (mgr : option AgentManager)
    (ck : approval_clock) (serial : Z) (auto_baseline_binding : bool) (sid agent_id : string)
    (capabilities groups : list string) : M string :=
  do s <- lift (_require_logged_in session);
  do _ <- lift (_verify_csrf_header x_csrf_token s);
  match mgr with
  | None => raise (HTTPException 503 "agent_manager not initialized (complete broker setup first)")
  | Some mgr =>
      do result <- served (approve ck serial auto_baseline_binding mgr sid
        {| p_agent_id := agent_id; p_capabilities := capabilities; p_groups := groups;
           p_admin_name := or_default (snd s) "admin" |});
      do _ <- emit_audit_events (ap_audit_events result);
      ret (default "" (e_agent_id_assigned (ap_record result)))
  end.

Definition admin_reject (session : dashboard_session) (x_csrf_token : string) (read_at now read_again : Z)
    (sid reason : string) : M unit :=
  do s <- lift (_require_logged_in session);
  do _ <- lift (_verify_csrf_header x_csrf_token s);
  do _ <- served (reject read_at now read_again sid reason (or_default (snd s) "admin"));
  ret tt.

End Enrollment.

(** ** A small public-key infrastructure

    An instance of the classes for the examples: two keys, an authority and
    the certificates it issues for two agents, each written as one letter. *)

Module PaperPki.

Inductive paper_key := KeyA | KeyB | WeakKey.
Inductive paper_certificate := Authority | Leaf (k : bool) (alpha : bool).

Definition key_of_pem (pem : string) : option paper_key :=
  if bool_decide (pem = "KEY-A") then Some KeyA
  else if bool_decide (pem = "KEY-B") then Some KeyB
  else if bool_decide (pem = "WEAK") then Some WeakKey else None.

Definition der_of (k : paper_key) : string := match k with KeyA => "A" | KeyB => "B" | WeakKey => "W" end.

Definition letter (c : paper_certificate) : ascii :=
  match c with
  | Authority => "R"%char
  | Leaf true true => "a"%char | Leaf true false => "b"%char
  | Leaf false true => "c"%char | Leaf false false => "d"%char
  end.

Definition of_letter (a : ascii) : option paper_certificate :=
  if bool_decide (a = "R"%char) then Some Authority
  else if bool_decide (a = "a"%char) then Some (Leaf true true)
  else if bool_decide (a = "b"%char) then Some (Leaf true false)
  else if bool_decide (a = "c"%char) then Some (Leaf false true)
  else if bool_decide (a = "d"%char) then Some (Leaf false false) else None.

Definition letters (s : string) : option (list paper_certificate) := mapM of_letter (String.list_ascii_of_string s).

Definition leaf_uri (alpha : bool) : string :=
  if alpha then "spiffe://td.example/acme/alpha" else "spiffe://td.example/acme/beta".

#[local] Instance crypto : Cryptography := {
  key := paper_key;
  load_pem_public_key := key_of_pem;
  spki_der := der_of;
  kind_of k := match k with WeakKey => RsaKey 1024 | _ => EcKey "secp256r1" end;
  pss_verifies _ _ _ := false;
  ecdsa_verifies k signature text := bool_decide (signature = der_of k +:+ text);
  ecdsa_verifies_digest k signature text := Ret (bool_decide (signature = der_of k +:+ text));
  certificate := paper_certificate;
  load_pem_x509_certificates := letters;
  load_pem_x509_certificate s := letters s ≫= head;
  cert_pem_of c := String (letter c) "";
  cert_der c := String (letter c) "";
  cert_key c := match c with Leaf true _ => KeyA | Leaf false _ => KeyB | Authority => WeakKey end;
  cert_serial _ := 7;
  san_uris c := match c with Authority => Ret None | Leaf _ n => Ret (Some [leaf_uri n]) end;
  common_names _ := [];
}.

Definition paper_issue (k : paper_key) (uri : string) : outcome paper_certificate :=
  match k with
  | WeakKey => Raise ValueError
  | _ =>
      if bool_decide (uri = leaf_uri true) then Ret (Leaf (match k with KeyA => true | _ => false end) true)
      else if bool_decide (uri = leaf_uri false) then Ret (Leaf (match k with KeyA => true | _ => false end) false)
      else Raise ValueError
  end.

#[local] Instance builder : CertificateBuilder.
Proof.
  refine {| issue k ca cn o uri from till serial := paper_issue k uri |}.
  - intros k ca cn o uri from till serial c. unfold paper_issue. repeat case_bool_decide; destruct k; intros Hi; simplify_eq; done.
  - intros k ca cn o uri from till serial c. unfold paper_issue. repeat case_bool_decide; destruct k; intros Hi; simplify_eq; done.
  - done.
  - intros [|[] []] [|[] []]; reflexivity.
Defined.

(** An organisation with one request for the key A, at the instant 0. *)
Definition env : registry_env :=
  {| auditing_of := quiet_trail; statement_fails _ := None; float_literal _ := JNull; setting_org_id := "acme";
     admin_secret := "secret"; agent_cert_grace_period_hours := 24; rate_limit_per_minute := 60;
     stale_threshold_seconds := 900; secret_backend := "vault"; vault_addr := "http://vault"; vault_post _ := None;
     vault_get _ := None |}.

Definition manager : AgentManager :=
  {| m_org_id := "acme"; m_trust_domain := "td.example"; ca_loaded := true; mastio_ca_cert := Some Authority;
     persisted_ca := None |}.

Definition no_tables : tables :=
  {| agents := []; pending_enrollments := []; quarantine_events := []; user_pins := ∅; workload_pins := ∅;
     device_states := ∅; agent_keys := ∅ |}.

Definition state_of (t : tables) : registry_state :=
  {| s_trail := {| w_table := []; w_pending := []; w_unhealthy := false |}; s_audits := 0; s_statements := 0;
     s_tables := t;
     s_memory := {| nonces := ∅; rates := ∅; jtis := guard0; vault := ∅; request_jkt := None |} |}.

Definition pop (pem : string) (k : paper_key) : string :=
  encode (der_of k +:+ _ENROLLMENT_POP_DOMAIN +:+ "|" +:+ hexdigest (der_of k)).

Definition request (pem : string) (k : paper_key) : StartRequest :=
  {| q_pubkey_pem := pem; q_pop_signature := pop pem k; q_requester_name := "Ann";
     q_requester_email := "ann@acme.example"; q_reason := None; q_device_info := None; q_dpop_jwk := None;
     q_attestation_nonce_id := None; q_tpm_quote_b64 := None; q_tpm_manufacturer := None;
     q_tpm_ek_cert_present := false; q_principal_type := "agent" |}.

Definition approval (name : string) : Approval :=
  {| p_agent_id := name; p_capabilities := ["order.read"]; p_groups := []; p_admin_name := "root" |}.

Definition clock_at (t : Z) : approval_clock :=
  {| read_at := t; signed_at := t; decided_at := t; grace_at := t; stamped_at := t |}.

Definition requested : registry_state :=
  snd (start_enrollment env 0 "s1" (request "KEY-A" KeyA) (state_of no_tables)).
Definition approved_once : registry_state :=
  snd (approve env (clock_at 1000000) 5 false manager "s1" (approval "alpha") requested).

(** The same agent asks again with the key B. *)
Definition requested_again : registry_state :=
  snd (start_enrollment env 2000000 "s2" (request "KEY-B" KeyB) approved_once).
Definition approved_twice : registry_state :=
  snd (approve env (clock_at 3000000) 6 false manager "s2" (approval "alpha") requested_again).

Lemma approved_twice_eq :
  approved_twice = snd (approve env (clock_at 3000000) 6 false manager "s2" (approval "alpha") requested_again).
Proof. reflexivity. Qed.

Example two_certificates :
  (λ r, (r_agent_id r, r_is_active r, r_cert_pem r, r_previous_cert_pem r, r_previous_grace_period_expires_at r))
    <$> agents (s_tables approved_twice)
  = [("acme::alpha", true, Some "cR", Some "aR", Some "1970-01-02T00:00:03+00:00")].
Proof. vm_compute. reflexivity. Qed.

End PaperPki.
