(* ===== verification/ClientCert.v ===== *)
(** * Authentication by client certificate

    [auth/client_cert.py] and [auth/dpop_client_cert.py]: the certificate
    nginx forwards, the identity in it, the pin of the registry with its
    grace window, the proof of possession.  Left out are the traffic recorder
    and the stamp of a user session, which refuse nothing; what the bearer
    tokens tried first give is an argument. *)

From S2P Require Import Prelude Sha256 IsoTime UtcTime Json JsonParse Base64 RateLimit ReplayStore Dpop Tier Intune Mdm AuditCanon AuditLog AuditChain Effects AgentRegistry.
From Stdlib Require Import QArith.

Open Scope Z_scope.

(** ** [urllib.parse.unquote] *)

Definition hex_byte (a b : ascii) : option ascii :=
  x ← hex_value a; y ← hex_value b; Some (ascii_of_N (x * 16 + y)).

Fixpoint unquote_to_bytes (s : string) : string :=
  match s with
  | EmptyString => ""
  | String c s' =>
      match s' with
      | String a (String b rest) =>
          if bool_decide (c = "%"%char) then
            match hex_byte a b with
            | Some d => String d (unquote_to_bytes rest)
            | None => String c (unquote_to_bytes s')
            end
          else String c (unquote_to_bytes s')
      | _ => String c (unquote_to_bytes s')
      end
  end.

Definition replacement : string := utf8 65533.

(** [bytes.decode("utf-8", "replace")]: [need] bytes of a sequence are missing,
    the next of them lies between [lo] and [hi], [held] are the others. *)
Fixpoint utf8_replace (need : nat) (lo hi : N) (held s : string) : string :=
  match s with
  | EmptyString => match need with O => "" | S _ => replacement end
  | String c s' =>
      let b := N_of_ascii c in
      let start :=
        if (b <? 128)%N then String c (utf8_replace 0 128 191 "" s')
        else if ((194 <=? b) && (b <=? 223))%N then utf8_replace 1 128 191 (String c "") s'
        else if (b =? 224)%N then utf8_replace 2 160 191 (String c "") s'
        else if (b =? 237)%N then utf8_replace 2 128 159 (String c "") s'
        else if ((225 <=? b) && (b <=? 239))%N then utf8_replace 2 128 191 (String c "") s'
        else if (b =? 240)%N then utf8_replace 3 144 191 (String c "") s'
        else if ((241 <=? b) && (b <=? 243))%N then utf8_replace 3 128 191 (String c "") s'
        else if (b =? 244)%N then utf8_replace 3 128 143 (String c "") s'
        else replacement +:+ utf8_replace 0 128 191 "" s' in
      match need with
      | O => start
      | S n =>
          if ((lo <=? b) && (b <=? hi))%N then
            match n with
            | O => held +:+ String c (utf8_replace 0 128 191 "" s')
            | S _ => utf8_replace n 128 191 (held +:+ String c "") s'
            end
          else replacement +:+ start
      end
  end.

(** The characters up to the first that is not ASCII. *)
Fixpoint ascii_run (s : string) : string * string :=
  match s with
  | EmptyString => ("", "")
  | String c s' =>
      if (N_of_ascii c <? 128)%N then let '(run, rest) := ascii_run s' in (String c run, rest) else ("", s)
  end.

Fixpoint unquote_runs (fuel : nat) (s : string) : string :=
  match fuel with
  | O => s
  | S fuel =>
      let '(run, rest) := ascii_run s in
      utf8_replace 0 128 191 "" (unquote_to_bytes run) +:+
      match rest with EmptyString => "" | String c rest' => String c (unquote_runs fuel rest') end
  end.

Definition unquote (s : string) : string :=
  if has_char "%"%char s then unquote_runs (S (String.length s)) s else s.

Definition _decode_escaped_pem (escaped : string) : string := unquote escaped.

(** ** Identities *)

Definition slash : ascii := "/"%char.

Definition _parse_spiffe_uri (uri : string) : option (string * string) :=
  if negb (startswith uri "spiffe://") then None
  else
    let found :=
      match split_on slash (drop_prefix "spiffe://" uri) with
      | [_; org_id; agent_name] => Some (org_id, agent_name)
      | [_; org_id; ptype; name] =>
          if bool_decide (ptype = "agent") then Some (org_id, name)
          else if bool_decide (ptype ∈ ["user"; "workload"]) then Some (org_id, ptype +:+ "::" +:+ name)
          else None
      | _ => None
      end in
    match found with
    | Some (org_id, agent_name) =>
        if bool_decide (org_id = "") || bool_decide (agent_name = "") then None else found
    | None => None
    end.

Definition _parse_cn (cn : string) : option (string * string) :=
  match partition "::" cn with
  | None => None
  | Some (org_id, agent_name) =>
      if bool_decide (org_id = "") || bool_decide (agent_name = "") then None else Some (org_id, agent_name)
  end.

(** The first URI that parses. *)
Fixpoint first_identity (uris : list string) : option (string * string) :=
  match uris with
  | [] => None
  | u :: rest => match _parse_spiffe_uri u with Some id => Some id | None => first_identity rest end
  end.

Fixpoint _strip_log_controls (value : string) : string :=
  match value with
  | EmptyString => ""
  | String c rest =>
      let n := N_of_ascii c in
      if (n =? 13)%N then "\r" +:+ _strip_log_controls rest
      else if (n =? 10)%N then "\n" +:+ _strip_log_controls rest
      else if (n =? 0)%N then _strip_log_controls rest
      else String c (_strip_log_controls rest)
  end.

Fixpoint hex_go (fuel : nat) (n : N) (acc : string) : string :=
  match fuel with
  | O => acc
  | S fuel =>
      let acc := String (hex_digit (n mod 16)) acc in
      if (n <? 16)%N then acc else hex_go fuel (n / 16)%N acc
  end.

(** [f"{z:x}"] *)
Definition hex_text (z : Z) : string :=
  let digits := hex_go (S (N.size_nat (Z.abs_N z))) (Z.abs_N z) "" in
  if z <? 0 then "-" +:+ digits else digits.

Definition _DOCS_ANCHOR : string := "https://docs.cullis.io/runbook/mastio-mtls-auth".

Definition _err (reason hint : string) (extra : fields) : string :=
  dumps_plain (JObj ([("reason", JStr reason); ("hint", JStr hint); ("docs", JStr _DOCS_ANCHOR)] ++ extra)).

Definition refused_401 {A} (reason hint : string) (extra : fields) : outcome A :=
  Raise (HTTPException 401 (_err reason hint extra)).

(** ** The request *)

Record http_request := {
  header : string → option string;      (* by its name in lower case *)
  rq_url : string;
  rq_path : string;
  rq_scheme : string;
  rq_method : string;
}.

Definition header_or_empty (r : http_request) (name : string) : string := default "" (header r name).

Record auth_settings := {
  proxy_public_url : option string;
  egress_dpop_mode : option string;
  dpop_rules : dpop_settings;
}.

(** [datetime.now()], the clock of the rate limiter, [time.time()] and the
    clock of the replay store. *)
Record auth_clock := { a_now : Z; a_mono : Z; a_wall : Z; a_replay : Z }.

Section ClientCert.
Context `{Hash} `{FromIso} `{Cryptography} `{ReplayGuard} `{DpopRuntime}.

Definition _cert_first_spiffe (cert : certificate) : string :=
  match san_uris cert with
  | Ret (Some (uri :: _)) => _strip_log_controls uri
  | _ => "?"
  end.

Definition _identity_from_cert (cert : certificate) : outcome (string * string) :=
  let! uris := san_uris cert in
  match first_identity (default [] uris) with
  | Some id => Ret id
  | None =>
      match head (common_names cert) ≫= _parse_cn with
      | Some id => Ret id
      | None =>
          refused_401 "client_cert_no_parseable_identity"
            "Cert has no SPIFFE URI SAN and no '<org>::<agent>' CN; re-mint via the Connector enroll wizard or /v1/principals/csr."
            [("cert_san", JStr (_cert_first_spiffe cert)); ("cert_serial", JStr (hex_text (cert_serial cert)))]
      end
  end.

Definition _cert_der_digest (cert : certificate) : string := digest (cert_der cert).

Definition _pem_der_digest (pem : string) : option string :=
  if bool_decide (pem = "") then None
  else match load_pem_x509_certificates pem with
       | Some (leaf :: _) => Some (digest (cert_der leaf))
       | _ => None
       end.

Definition pubkey_thumbprint_sha256 (k : key) : string := hexdigest (spki_der k).

Context (E : registry_env) (st : auth_settings).

Notation M := (M registry_state).
Notation transaction := (transaction (statement_fails E)).
Notation select := (select E).

Definition _expected_org_id : string := rstrip (lstrip (setting_org_id E)).

(** The certificate nginx has verified. *)
Definition presented_cert (r : http_request) : outcome certificate :=
  let verify := header_or_empty r "x-ssl-client-verify" in
  if negb (bool_decide (verify = "SUCCESS")) then
    refused_401 "client_cert_not_verified"
      "nginx did not stamp X-SSL-Client-Verify=SUCCESS — request bypassed the mTLS sidecar or the cert chain failed validation; check the Mastio nginx access log."
      [("presented_verify", JStr (or_default (_strip_log_controls verify) "<empty>"))]
  else
    let escaped_pem := header_or_empty r "x-ssl-client-cert" in
    if bool_decide (escaped_pem = "") then
      refused_401 "client_cert_header_missing"
        "X-SSL-Client-Cert header is empty — request reached mcp-proxy without traversing the mTLS sidecar." []
    else
      match load_pem_x509_certificate (_decode_escaped_pem escaped_pem) with
      | None =>
          refused_401 "client_cert_invalid_pem"
            "X-SSL-Client-Cert payload is not a valid X.509 PEM — check the nginx ``proxy_set_header $ssl_client_escaped_cert`` directive." []
      | Some cert => Ret cert
      end.

(** The certificate with its identity, which is of this organisation. *)
Definition presented_identity (r : http_request) : outcome (certificate * string * string) :=
  let! cert := presented_cert r in
  let! (org_id_from_cert, agent_name) := _identity_from_cert cert in
  if negb (bool_decide (_expected_org_id = "")) && negb (bool_decide (org_id_from_cert = _expected_org_id)) then
    refused_401 "client_cert_org_mismatch"
      "The Connector cert was issued by a different Mastio Org. Re-run the enroll wizard against the Mastio whose org_id matches ``expected_org``, or correct ``MCP_PROXY_ORG_ID`` if the Mastio config drifted."
      [("expected_org", JStr _expected_org_id); ("presented_org", JStr org_id_from_cert);
       ("agent_name", JStr agent_name)]
  else Ret (cert, org_id_from_cert +:+ "::" +:+ agent_name, agent_name).

(** ** Pins *)

Definition contains (sub s : string) : bool := match partition sub s with Some _ => true | None => false end.

Definition is_user (canonical : string) : bool := contains "::user::" canonical.
Definition is_typed_principal (canonical : string) : bool :=
  is_user canonical || contains "::workload::" canonical.

(** The key bound to a principal: no row, a row without key, a key. *)
Definition stored_pubkey (canonical : string) : M (option (option string)) :=
  transaction (select (λ t, (if is_user canonical then user_pins t else workload_pins t) !! canonical)).

Definition pin_typed_principal (cert : certificate) (canonical : string) : M unit :=
  let kind := if is_user canonical then "user" else "workload" in
  let who := [("principal_id", JStr canonical); ("principal_kind", JStr kind)] in
  do row <- stored_pubkey canonical;
  match row with
  | None =>
      lift (refused_401 "typed_principal_unknown"
        ("No row exists for ``" +:+ canonical +:+ "`` in ``local_" +:+ kind +:+ "_principals``; pre-create via ``POST /v1/admin/" +:+ kind +:+ "s`` (admin dashboard) before the first /v1/principals/csr.") who)
  | Some None =>
      lift (refused_401 "typed_principal_not_yet_enrolled"
        ("Principal ``" +:+ canonical +:+ "`` exists but no CSR has been signed yet (no pubkey to pin against); have the end-user complete the Connector enroll flow before retrying.") who)
  | Some (Some stored) =>
      do same <- lift (compare_digest (JStr (pubkey_thumbprint_sha256 (cert_key cert))) stored);
      if same : bool then ret tt
      else lift (refused_401 "client_cert_pubkey_not_bound_to_principal"
        ("Cert's SPKI SHA-256 does not match the TOFU pin stored for ``" +:+ canonical +:+ "``. Rotate the pin via the admin dashboard if the key rotation was legitimate; otherwise treat as a forged-cert incident.")
        (who ++ [("cert_serial", JStr (hex_text (cert_serial cert))); ("cert_san", JStr (_cert_first_spiffe cert))]))
  end.

Definition grace_match_call (canonical : string) (grace_expires : option string) (presented : string) : audit_call :=
  success_call canonical "agent.cert_pinning_grace_match"
    (Some ("grace_expires_at=" +:+ default "None" grace_expires +:+ " presented_thumbprint=" +:+ to_hex presented))
    None.

(** Whether the previous certificate of the row is the one presented and still
    counts. *)
Definition grace_pin (now : Z) (presented : string) (r : agent) : bool :=
  match r_previous_cert_pem r ≫= (λ pem, if bool_decide (pem = "") then None else _pem_der_digest pem) with
  | Some prev => is_grace_active now (r_previous_grace_period_expires_at r) && bool_decide (presented = prev)
  | None => false
  end.

Definition pin_agent (now : Z) (cert : certificate) (canonical : string) : M (agent * json) :=
  do agent_data <- get_agent E canonical;
  match agent_data with
  | Some (r, caps) =>
      if negb (r_is_active r) then
        lift (refused_401 "agent_unknown_or_inactive"
          ("No active ``internal_agents`` row for ``" +:+ canonical +:+ "``; re-enroll via the Connector or re-activate from the admin dashboard.")
          [("agent_id", JStr canonical)])
      else
        match r_cert_pem r ≫= _pem_der_digest with
        | None =>
            lift (refused_401 "agent_cert_pin_unavailable"
              ("Stored ``cert_pem`` for ``" +:+ canonical +:+ "`` is unparseable; inspect the row and re-issue the cert if the PEM is truncated.")
              [("agent_id", JStr canonical)])
        | Some stored =>
            let presented := _cert_der_digest cert in
            if bool_decide (presented = stored) then ret (r, caps)
            else if grace_pin now presented r then
              do _ <- catch (audit E (grace_match_call canonical (r_previous_grace_period_expires_at r) presented))
                        (λ _, ret tt);
              ret (r, caps)
            else
              lift (refused_401 "client_cert_pin_mismatch"
                ("Presented cert's DER digest does not match the one stored for ``" +:+ canonical +:+ "`` (likely a stale cert post-rotation); re-enroll the Connector, or treat as forged if the caller insists their cert is current.")
                [("agent_id", JStr canonical); ("cert_serial", JStr (hex_text (cert_serial cert)));
                 ("cert_san", JStr (_cert_first_spiffe cert))])
        end
  | None =>
      lift (refused_401 "agent_unknown_or_inactive"
        ("No active ``internal_agents`` row for ``" +:+ canonical +:+ "``; re-enroll via the Connector or re-activate from the admin dashboard.")
        [("agent_id", JStr canonical)])
  end.

Definition typed_agent (now : Z) (canonical agent_name : string) : InternalAgent :=
  {| i_agent_id := canonical; i_display_name := agent_name; i_capabilities := [];
     i_created_at := utc_text now; i_is_active := true; i_cert_pem := None; i_dpop_jkt := None;
     i_reach := "intra"; i_principal_type := if is_user canonical then "user" else "workload";
     i_previous_cert_pem := None; i_previous_dpop_jkt := None;
     i_previous_grace_period_expires_at := None |}.

Definition within_rate (mono : Z) (canonical : string) : M unit := λ s,
  let '(ok, w) := check mono canonical (rate_limit_per_minute E) (rates (s_memory s)) in
  (if ok then Ret tt else Raise (HTTPException 429 "Rate limit exceeded"),
   with_memory (with_rates w (s_memory s)) s).

Definition get_agent_from_client_cert (ck : auth_clock) (r : http_request) : M InternalAgent :=
  do (cert, canonical, agent_name) <- lift (presented_identity r);
  if is_typed_principal canonical then
    do _ <- pin_typed_principal cert canonical;
    do _ <- within_rate (a_mono ck) canonical;
    ret (typed_agent (a_now ck) canonical agent_name)
  else
    do (row, caps) <- pin_agent (a_now ck) cert canonical;
    do _ <- within_rate (a_mono ck) canonical;
    lift (internal_agent_of row caps).

(** ** The proof of possession *)

Definition dedup (l : list string) : list string :=
  foldl (λ acc x, if bool_decide (x ∈ acc) then acc else acc ++ [x]) [] l.

Definition forwarded_url (r : http_request) (fwd_host : string) : string :=
  let fwd_proto := or_default (or_default (header_or_empty r "x-forwarded-proto") (rq_scheme r)) "https" in
  let fwd_port := header_or_empty r "x-forwarded-port" in
  let has_port := if startswith fwd_host "[" then contains "]:" fwd_host else has_char ":"%char fwd_host in
  let netloc := if negb (bool_decide (fwd_port = "")) && negb has_port then fwd_host +:+ ":" +:+ fwd_port
                else fwd_host in
  fwd_proto +:+ "://" +:+ netloc +:+ rq_path r.

Definition _build_htu (r : http_request) : list string :=
  let base := rstrip_slash (default "" (proxy_public_url st)) in
  let host := header_or_empty r "host" in
  let fwd_host := header_or_empty r "x-forwarded-host" in
  dedup ([rq_url r]
    ++ (if bool_decide (base = "") then [] else [base +:+ rq_path r])
    ++ (if bool_decide (host = "") then []
        else [or_default (rq_scheme r) "https" +:+ "://" +:+ host +:+ rq_path r])
    ++ (if bool_decide (fwd_host = "") then [] else [forwarded_url r fwd_host])).

Definition _resolve_mode : string :=
  let mode := Prelude.lower (rstrip (lstrip (or_default (default "" (egress_dpop_mode st)) "off"))) in
  if bool_decide (mode ∈ ["off"; "optional"; "required"]) then mode else "off".

Definition refuse_proof {A} (detail : string) : M A := raise (HTTPException 401 detail).

Definition dpop_grace_call (agent : string) (grace_expires : option string) (jkt : string) : audit_call :=
  success_call agent "agent.dpop_pinning_grace_match"
    (Some ("grace_expires_at=" +:+ default "None" grace_expires +:+ " presented_jkt=" +:+ jkt)) None.

Definition some_text (o : option string) : option string :=
  match o with Some EmptyString => None | o => o end.

Definition verify_proof (ck : auth_clock) (c : dpop_call) : M string := λ s,
  let '(r, g) := verify_dpop_proof (dpop_rules st) (a_wall ck) (a_replay ck) c (jtis (s_memory s)) in
  (r, with_memory (with_jtis g (s_memory s)) s).

(** [hmac.compare_digest] on two [str], reached only if [first] holds. *)
Definition jkt_matches (first : bool) (proof_jkt stored : string) : outcome bool :=
  if first then compare_digest (JStr proof_jkt) stored else Ret false.

(** The thumbprint of the proof against the one registered. *)
Definition pin_jkt (now : Z) (mode : string) (a : InternalAgent) (proof_jkt : string) : M unit :=
  match some_text (i_dpop_jkt a) with
  | Some stored =>
      do same <- lift (compare_digest (JStr proof_jkt) stored);
      if same : bool then ret tt
      else
        do grace <- lift
          match some_text (i_previous_dpop_jkt a) with
          | Some prev => jkt_matches (is_grace_active now (i_previous_grace_period_expires_at a)) proof_jkt prev
          | None => Ret false
          end;
        if grace : bool then
          catch (audit E (dpop_grace_call (i_agent_id a) (i_previous_grace_period_expires_at a) proof_jkt))
            (λ _, ret tt)
        else refuse_proof "DPoP proof was signed by a key not registered for this agent."
  | None =>
      if bool_decide (mode = "required") then
        refuse_proof "Agent has no DPoP key registered. Re-enroll the Connector so it can publish its JWK thumbprint."
      else ret tt
  end.

Definition set_dpop_jkt (jkt : string) : M unit :=
  modify (λ s, with_memory (with_request_jkt (Some jkt) (s_memory s)) s).

(** [bearer]: what the API token and the local token give. *)
Definition get_agent_from_dpop_client_cert (bearer : M (option InternalAgent)) (ck : auth_clock)
    (r : http_request) : M InternalAgent :=
  do short <- bearer;
  match short with
  | Some a => ret a
  | None =>
      do a <- get_agent_from_client_cert ck r;
      let mode := _resolve_mode in
      if bool_decide (mode = "off") then ret a
      else
        match some_text (header r "dpop") with
        | None =>
            if bool_decide (mode = "required") then
              refuse_proof "DPoP proof required — set MCP_PROXY_EGRESS_DPOP_MODE=optional or upgrade the client SDK to emit DPoP proofs."
            else ret a
        | Some proof =>
            do proof_jkt <- verify_proof ck
              {| proof_jwt := proof; htm := rq_method r; htus := _build_htu r; access_token := None;
                 require_nonce := true |};
            do _ <- pin_jkt (a_now ck) mode a proof_jkt;
            do _ <- set_dpop_jkt proof_jkt;
            ret a
        end
  end.

End ClientCert.

(** ** Who is let in *)

Section Admission.
Context `{Hash} `{FromIso} `{Cryptography} `{ReplayGuard} `{DpopRuntime}.
Context (E : registry_env).

(** What the row of an agent accepts at an instant. *)
Definition accepts (now : Z) (r : agent) (cert : certificate) : bool :=
  match r_cert_pem r ≫= _pem_der_digest with
  | None => false
  | Some stored => bool_decide (_cert_der_digest cert = stored) || grace_pin now (_cert_der_digest cert) r
  end.

(** The agent a request is answered as, by the tables alone. *)
Definition pinned (t : tables) (now : Z) (cert : certificate) (canonical agent_name : string)
    (a : InternalAgent) : Prop :=
  if is_typed_principal canonical then
    (if is_user canonical then user_pins t else workload_pins t) !! canonical
      = Some (Some (pubkey_thumbprint_sha256 (cert_key cert))) ∧
    a = typed_agent now canonical agent_name
  else
    ∃ r caps, find_row canonical (agents t) = Some r ∧ r_is_active r = true ∧ accepts now r cert = true ∧
      loads (float_literal E) (r_capabilities r) = Ret caps ∧ internal_agent_of r caps = Ret a.

Definition under_rate (mono : Z) (canonical : string) (s : registry_state) : Prop :=
  fst (check mono canonical (rate_limit_per_minute E) (rates (s_memory s))) = true.

Lemma compare_hex m stored b :
  compare_digest (JStr (to_hex m)) stored = Ret b → b = bool_decide (to_hex m = stored).
Proof. unfold compare_digest. rewrite hex_ascii. cbn [andb]. destruct (is_ascii stored); [by intros [= <-]|done]. Qed.

Lemma pin_typed_Ret cert canonical s s' :
  pin_typed_principal E cert canonical s = (Ret tt, s') →
  (if is_user canonical then user_pins (s_tables s) else workload_pins (s_tables s)) !! canonical
    = Some (Some (pubkey_thumbprint_sha256 (cert_key cert))) ∧
  s_tables s' = s_tables s ∧ s_memory s' = s_memory s.
Proof.
  intros Hp. apply bind_Ret in Hp as (row & s1 & Hrow & Hp).
  apply transaction_Ret in Hrow as (s2 & [-> ->]%select_Ret & ->).
  destruct (_ !! canonical) as [[stored|]|]; [|done|done].
  apply bind_Ret in Hp as (same & s3 & Hsame & Hp). injection Hsame as Hsame <-.
  destruct same; [|done]. injection Hp as <-.
  apply compare_hex in Hsame. symmetry in Hsame. apply bool_decide_eq_true_1 in Hsame as <-. done.
Qed.

Lemma pin_agent_Ret now cert canonical s r caps s' :
  pin_agent E now cert canonical s = (Ret (r, caps), s') →
  find_row canonical (agents (s_tables s)) = Some r ∧ r_is_active r = true ∧ accepts now r cert = true ∧
  loads (float_literal E) (r_capabilities r) = Ret caps ∧
  s_tables s' = s_tables s ∧ s_memory s' = s_memory s.
Proof.
  intros Hp. apply bind_Ret in Hp as (o & s1 & Hget & Hp).
  apply get_agent_Ret in Hget as (Ht & Hm & Ho). destruct o as [[r' caps']|]; [|done]. destruct Ho as [Hfind Hl].
  destruct (r_is_active r') eqn:Hact; [|done]. cbn [negb] in Hp. unfold accepts.
  destruct (r_cert_pem r' ≫= _pem_der_digest) as [stored|] eqn:Hpem; [|done].
  case_bool_decide as Hd.
  - injection Hp as <- <- <-. rewrite Hpem, bool_decide_eq_true_2 by done. done.
  - destruct (grace_pin now _ r') eqn:Hg; [|done].
    apply bind_Ret in Hp as ([] & s2 & [Ht2 Hm2]%audit_caught_Ret & Hp). injection Hp as <- <- <-.
    rewrite Hpem, Hg, orb_true_r, Ht2, Hm2. done.
Qed.

Lemma within_rate_Ret mono canonical s s' :
  within_rate E mono canonical s = (Ret tt, s') → under_rate mono canonical s ∧ s_tables s' = s_tables s.
Proof.
  unfold within_rate, under_rate. destruct (check _ _ _ _) as [[] w]; [|done]. by intros [= <-].
Qed.

Lemma admitted_Ret ck r s a s' :
  get_agent_from_client_cert E ck r s = (Ret a, s') →
  ∃ cert canonical agent_name,
    presented_identity E r = Ret (cert, canonical, agent_name) ∧ under_rate (a_mono ck) canonical s ∧
    pinned (s_tables s) (a_now ck) cert canonical agent_name a ∧ s_tables s' = s_tables s.
Proof.
  intros Hg. apply bind_Ret in Hg as ([[cert canonical] name] & s1 & Hid & Hg). injection Hid as Hid <-.
  exists cert, canonical, name. split; [done|]. unfold pinned. destruct (is_typed_principal canonical).
  - apply bind_Ret in Hg as ([] & s2 & (Hpin & Ht & Hm)%pin_typed_Ret & Hg).
    apply bind_Ret in Hg as ([] & s3 & [Hrate Ht3]%within_rate_Ret & Hg). injection Hg as <- <-.
    unfold under_rate in *. rewrite Hm in Hrate. by rewrite Ht3, Ht.
  - apply bind_Ret in Hg as ([row caps] & s2 & (Hf & Ha & Hacc & Hl & Ht & Hm)%pin_agent_Ret & Hg).
    apply bind_Ret in Hg as ([] & s3 & [Hrate Ht3]%within_rate_Ret & Hg). injection Hg as Hg <-.
    unfold under_rate in *. rewrite Hm in Hrate. rewrite Ht3, Ht. split_and!; [done| |done].
    by exists row, caps.
Qed.

(** *** With a database that answers *)

Definition answers : Prop := ∀ n, statement_fails E n = None.

Lemma transaction_done {A} (m : M registry_state A) s a s1 :
  answers → m s = (Ret a, s1) → transaction (statement_fails E) m s = (Ret a, issued s1).
Proof. intros Hc Hm. unfold transaction, statement. by rewrite Hm, Hc. Qed.

Lemma select_done {A} (f : tables → A) s : answers → select E f s = (Ret (f (s_tables s)), issued s).
Proof. intros Hc. unfold select, statement. by rewrite Hc. Qed.

Lemma update_agents_done p f s :
  answers →
  update_agents E p f s =
    (Ret (existsb p (agents (s_tables s))),
     with_tables (with_agent_rows (update_rows p f (agents (s_tables s))) (s_tables s)) (issued s)).
Proof. intros Hc. unfold update_agents, statement. by rewrite Hc. Qed.

Lemma get_agent_done id s r caps :
  answers → find_row id (agents (s_tables s)) = Some r → loads (float_literal E) (r_capabilities r) = Ret caps →
  get_agent E id s = (Ret (Some (r, caps)), issued (issued s)).
Proof.
  intros Hc Hf Hl. apply transaction_done; [done|].
  erewrite bind_step; [|by apply select_done]. rewrite Hf. cbn [s_tables].
  erewrite bind_step; [|by rewrite Hl]. done.
Qed.

Lemma pin_agent_done now cert canonical s r caps :
  answers → find_row canonical (agents (s_tables s)) = Some r → r_is_active r = true →
  accepts now r cert = true → loads (float_literal E) (r_capabilities r) = Ret caps →
  ∃ s', pin_agent E now cert canonical s = (Ret (r, caps), s') ∧ s_tables s' = s_tables s ∧ s_memory s' = s_memory s.
Proof.
  intros Hc Hf Ha Hacc Hl. unfold pin_agent. erewrite bind_step; [|by eapply get_agent_done].
  cbv beta iota. rewrite Ha. cbn [negb]. unfold accepts in Hacc.
  destruct (r_cert_pem r ≫= _pem_der_digest) as [stored|]; [|done].
  case_bool_decide as Hd; [by eexists|].
  cbn in Hacc. rewrite Hacc.
  set (c := grace_match_call _ _ _).
  pose proof (audit_frame E c (issued (issued s))) as [Ht Hm].
  destruct (audit E c (issued (issued s))) as [[[]|e] s2] eqn:Haud; cbn in Ht, Hm.
  - eexists. erewrite bind_step; [|unfold catch; by rewrite Haud]. by split_and!.
  - eexists. erewrite bind_step; [|unfold catch; by rewrite Haud]. by split_and!.
Qed.

Lemma within_rate_done mono canonical s :
  under_rate mono canonical s → ∃ s', within_rate E mono canonical s = (Ret tt, s').
Proof. unfold under_rate, within_rate. destruct (check _ _ _ _) as [[] w]; [|done]. by eexists. Qed.

Lemma pin_typed_done cert canonical s :
  answers →
  (if is_user canonical then user_pins (s_tables s) else workload_pins (s_tables s)) !! canonical
    = Some (Some (pubkey_thumbprint_sha256 (cert_key cert))) →
  pin_typed_principal E cert canonical s = (Ret tt, issued (issued s)).
Proof.
  intros Hc Hpin. unfold pin_typed_principal, stored_pubkey.
  erewrite bind_step; [|apply transaction_done; [done|by apply select_done]].
  rewrite Hpin. erewrite bind_step; [|unfold lift, compare_digest, pubkey_thumbprint_sha256, hexdigest;
    rewrite hex_ascii; cbn; by rewrite bool_decide_eq_true_2]. done.
Qed.

Lemma admitted_done ck r s a cert canonical agent_name :
  answers → presented_identity E r = Ret (cert, canonical, agent_name) → under_rate (a_mono ck) canonical s →
  pinned (s_tables s) (a_now ck) cert canonical agent_name a →
  ∃ s', get_agent_from_client_cert E ck r s = (Ret a, s').
Proof.
  intros Hc Hid Hr Hp. unfold get_agent_from_client_cert.
  erewrite bind_step; [|unfold lift; by rewrite Hid]. cbv beta iota. unfold pinned in Hp.
  destruct (is_typed_principal canonical).
  - destruct Hp as [Hpin ->]. erewrite bind_step; [|by apply pin_typed_done].
    match goal with |- context [bind _ _ ?s1] =>
      destruct (within_rate_done (a_mono ck) canonical s1) as [s' Hs']; [exact Hr|] end.
    erewrite bind_step; [|exact Hs']. by eexists.
  - destruct Hp as (row & caps & Hf & Ha & Hacc & Hl & Hi).
    destruct (pin_agent_done (a_now ck) cert canonical s row caps) as (s1 & Hpin & Ht & Hm); [done..|].
    erewrite bind_step; [|exact Hpin]. cbv beta iota.
    destruct (within_rate_done (a_mono ck) canonical s1) as [s' Hs']; [unfold under_rate; by rewrite Hm|].
    erewrite bind_step; [|exact Hs']. unfold lift. rewrite Hi. by eexists.
Qed.
End Admission.
