(* ===== verification/Credentials.v ===== *)
(** * From the enrollment to the credential

    Theorems about [AgentRegistry], [Enrollment] and [ClientCert] together:
    what an approval that returned did to the tables, which certificates and
    keys an agent then accepts, and what a rotation and a sweep change. *)

From S2P Require Import Prelude Sha256 IsoTime UtcTime Json JsonParse Base64 RateLimit ReplayStore Dpop Tier Intune Mdm AuditCanon AuditLog AuditChain Effects AgentRegistry Enrollment ClientCert.
From Stdlib Require Import QArith.

Open Scope Z_scope.

(** ** What an approval that returned did *)

Section Approvals.
Context `{Hash} `{FromIso} `{Cryptography} `{ReplayGuard} `{ZuluTime} `{!CertificateBuilder}.
Context (E : registry_env).

Lemma update_enrollments_Ret p f s n s' :
  update_enrollments E p f s = (Ret n, s') →
  s' = with_tables (with_enrollments (update_rows p f (pending_enrollments (s_tables s))) (s_tables s)) (issued s).
Proof. intros Hs%statement_Ret. by injection Hs as _ <-. Qed.

(** The tables after a record has been read. *)
Definition read_tables (sid : string) (r : enrollment) (t : tables) : tables :=
  match find_enrollment sid t with
  | Some r0 =>
      if bool_decide (e_status r0 = PENDING) && bool_decide (e_status r = EXPIRED) then
        with_enrollments (update_rows (session sid) (with_status EXPIRED) (pending_enrollments t)) t
      else t
  | None => t
  end.

Lemma get_record_Ret now sid s r s' :
  get_record E now sid s = (Ret r, s') →
  ∃ r0, find_enrollment sid (s_tables s) = Some r0 ∧
    s_tables s' = read_tables sid r (s_tables s) ∧ s_memory s' = s_memory s ∧
    if bool_decide (e_status r0 = PENDING) then
      ∃ b, record_expired now r0 = Ret b ∧ r = if b then with_status EXPIRED r0 else r0
    else r = r0.
Proof.
  intros Hg. apply bind_Ret in Hg as (row & s1 & [-> ->]%select_Ret & Hg).
  destruct (find_enrollment sid (s_tables s)) as [r0|] eqn:Hf; [|done].
  exists r0. split; [done|]. unfold read_tables. rewrite Hf. case_bool_decide as Hp.
  - apply bind_Ret in Hg as (b & s2 & Hb & Hg). injection Hb as Hb <-. destruct b.
    + apply bind_Ret in Hg as (n & s3 & ->%update_enrollments_Ret & Hg). injection Hg as <- <-.
      split; [done|]. split; [done|]. by exists true.
    + injection Hg as <- <-. rewrite Hp. cbn. split; [done|]. split; [done|]. by exists false.
  - by injection Hg as <- <-.
Qed.

(** Rows whose last attestation the stamp may have replaced. *)
Definition stamped (claim : option string) (id : string) (l : list agent) : list agent :=
  match claim with
  | None => l
  | Some c => update_rows (named id) (with_core (with_claim c)) l
  end.

Lemma stamped_id claim id l : r_agent_id <$> stamped claim id l = r_agent_id <$> l.
Proof. destruct claim; [|done]. by apply update_rows_keys. Qed.

Definition only_agents (f : list agent → list agent) (s s' : registry_state) : Prop :=
  s_tables s' = with_agent_rows (f (agents (s_tables s))) (s_tables s) ∧ s_memory s' = s_memory s.

Lemma only_agents_id s : only_agents (λ l, l) s s.
Proof. split; [|done]. by destruct (s_tables s). Qed.

Lemma by_hint_frame hint p s :
  s_tables (snd (by_hint E hint p s)) = s_tables s ∧ s_memory (snd (by_hint E hint p s)) = s_memory s.
Proof. destruct hint; [|done]. unfold by_hint, select, statement. by destruct (statement_fails E _). Qed.

Lemma lookup_frame h s :
  s_tables (snd (_lookup_device_row E h s)) = s_tables s ∧ s_memory (snd (_lookup_device_row E h s)) = s_memory s.
Proof.
  unfold _lookup_device_row, bind.
  pose proof (by_hint_frame (h_azure_ad_device_id h) (λ v d, bool_decide (d_azure_ad_device_id d.2 = Some v)) s) as [Ht Hm].
  destruct (by_hint _ _ _ _) as [[[d|]|e] s1]; [by split| |by split]. cbn [snd] in *.
  pose proof (by_hint_frame (h_intune_device_id h) (λ v d, bool_decide (d.1 = ("intune", v))) s1) as [Ht1 Hm1].
  destruct (by_hint _ _ _ _) as [[[d|]|e] s2]; cbn [snd] in *; [split; cbn; congruence| |split; cbn; congruence].
  pose proof (by_hint_frame (h_serial_number h) (λ v d, bool_decide (d_serial_number d.2 = Some v)) s2) as [Ht2 Hm2].
  split; congruence.
Qed.

Lemma stamp_frame now agent info sid s :
  ∃ claim, only_agents (stamped claim agent) s (snd (stamp_attestation_on_enrollment E now agent info sid s)).
Proof.
  unfold stamp_attestation_on_enrollment, bind at 1, catch at 1.
  pose proof (lookup_frame (_extract_device_hint E info) s) as [Ht Hm].
  destruct (_lookup_device_row _ _ _) as [[row|e] s1]; cbn [snd] in *.
  2: { exists None. split; cbn; [|done]. rewrite Ht. by destruct (s_tables s). }
  destruct row as [d|].
  2: { exists None. split; cbn; [|done]. rewrite Ht. by destruct (s_tables s). }
  unfold bind at 1, lift at 1. destruct (device_claim E now d) as [claim|e]; cbn [snd].
  2: { exists None. split; cbn; [|done]. rewrite Ht. by destruct (s_tables s). }
  unfold bind at 1, catch at 1, bind at 1, update_agents, statement.
  destruct (statement_fails E (statements s1)); cbn [snd].
  { exists None. split; cbn; [|done]. rewrite Ht. by destruct (s_tables s). }
  exists (Some (dumps (JObj claim))).
  unfold bind at 1, lift at 1. cbn.
  destruct (stamp_detail sid claim) as [text|e]; cbn [snd].
  2: { split; cbn; [by rewrite Ht|done]. }
  unfold bind, catch, insert_audit_row, statement. cbn.
  destruct (statement_fails E _); split; cbn; by rewrite ?Ht.
Qed.

(** The rows of the registry after the agent is enrolled. *)
Definition enrolled_rows (ck : approval_clock) (canonical spiffe cert : string) (a : Approval)
    (record : enrollment) (grace_expiry : string) (l : list agent) : list agent :=
  let now := seconds_text (decided_at ck) in
  match find_row canonical l with
  | None => l ++ [enrolled_agent now canonical spiffe cert a record]
  | Some g =>
      update_rows (named canonical)
        (reenrolled_agent now spiffe cert grace_expiry (r_cert_pem g) (r_dpop_jkt g) record) l
  end.

Lemma enroll_agent_Ret ck sid canonical spiffe cert a record s evs s' :
  enroll_agent E ck sid canonical spiffe cert a record s = (Ret evs, s') →
  ∃ grace_expiry,
    only_agents (enrolled_rows ck canonical spiffe cert a record grace_expiry) s s' ∧
    match find_row canonical (agents (s_tables s)) with
    | None => evs = [created_event sid canonical a]
    | Some g => compute_grace_expiry (grace_at ck) (agent_cert_grace_period_hours E) = Ret grace_expiry ∧
        evs = [rotated_event E sid canonical cert grace_expiry (r_cert_pem g) (r_dpop_jkt g) a record]
    end.
Proof.
  intros He. apply bind_Ret in He as (b & s1 & [-> ->]%select_Ret & He). unfold enrolled_rows, only_agents.
  destruct (find_row canonical (agents (s_tables s))) as [g|] eqn:Hf.
  - destruct (existsb (named canonical) (agents (s_tables s))) eqn:Hex;
      [|apply (find_by_None r_agent_id) in Hex; change (find_by r_agent_id) with find_row in Hex; congruence].
    cbn [negb] in He. apply bind_Ret in He as (o & s2 & [-> ->]%select_Ret & He).
    cbn [s_tables issued registry_transactional] in He. rewrite Hf in He.
    apply bind_Ret in He as (expiry & s3 & Hx & He). injection Hx as Hx <-.
    apply bind_Ret in He as (b & s4 & [_ ->]%update_agents_Ret & He). injection He as <- <-.
    exists expiry. by cbn.
  - pose proof Hf as Hnone. apply (find_by_None r_agent_id) in Hf. change (existsb (named canonical) (agents (s_tables s)) = false) in Hf.
    rewrite Hf in He. cbn [negb] in He.
    apply bind_Ret in He as ([] & s2 & [_ ->]%insert_agent_Ret & He). injection He as <- <-.
    exists "". by cbn.
Qed.

Lemma find_enrollment_update sid f t :
  (∀ r, e_session_id (f r) = e_session_id r) →
  find_enrollment sid (with_enrollments (update_rows (session sid) f (pending_enrollments t)) t)
  = f <$> find_enrollment sid t.
Proof.
  intros Hf. change (find_by e_session_id sid (update_rows (λ r, bool_decide (e_session_id r = sid)) f (pending_enrollments t))
    = f <$> find_by e_session_id sid (pending_enrollments t)).
  rewrite find_by_update by done. by rewrite bool_decide_eq_true_2.
Qed.

Lemma commit_approval_Ret ck auto mgr sid cert a record found s ap s' :
  find_enrollment sid (s_tables s) = Some found →
  commit_approval E ck auto mgr sid cert a record s = (Ret ap, s') →
  let canonical := canonical_id mgr (p_agent_id a) in
  ∃ grace_expiry claim,
    s_tables s' =
      with_enrollments (update_rows (session sid) (approved_record (seconds_text (decided_at ck)) canonical a cert)
                          (pending_enrollments (s_tables s)))
        (with_agent_rows (stamped claim canonical
           (enrolled_rows ck canonical (spiffe_uri mgr (name_part canonical)) cert a record grace_expiry
              (agents (s_tables s)))) (s_tables s)) ∧
    s_memory s' = s_memory s ∧
    ap_record ap = approved_record (seconds_text (decided_at ck)) canonical a cert found ∧
    match find_row canonical (agents (s_tables s)) with
    | None => ap_audit_events ap = [created_event sid canonical a]
    | Some g => compute_grace_expiry (grace_at ck) (agent_cert_grace_period_hours E) = Ret grace_expiry ∧
        ap_audit_events ap = [rotated_event E sid canonical cert grace_expiry (r_cert_pem g) (r_dpop_jkt g) a record]
    end.
Proof.
  intros Hf Hc canonical. unfold commit_approval in Hc. fold canonical in Hc.
  apply bind_Ret in Hc as (n & s1 & ->%update_enrollments_Ret & Hc).
  apply bind_Ret in Hc as (evs & s2 & He & Hc). apply enroll_agent_Ret in He as (expiry & [Ht2 Hm2] & Hevs).
  apply bind_Ret in Hc as ([] & s3 & Hst & Hc).
  assert (∃ claim, only_agents (stamped claim canonical) s2 s3) as (claim & Ht3 & Hm3).
  { destruct (stamp_frame (stamped_at ck) canonical (e_device_info record) sid s2) as [claim Hcl].
    exists claim. unfold catch, bind in Hst.
    destruct (stamp_attestation_on_enrollment _ _ _ _ _ s2) as [[x|e] s4]; injection Hst as <-; exact Hcl. }
  apply bind_Ret in Hc as (result & s4 & Hget & Hc). apply get_record_Ret in Hget as (r0 & Hf0 & Ht4 & Hm4 & Hr).
  injection Hc as <- <-. cbn [s_tables s_memory with_tables] in *.
  rewrite Ht2 in Ht3. cbn [agents with_agent_rows with_enrollments] in Ht3.
  rewrite Ht3 in Hf0.
  change (find_enrollment sid (with_enrollments (update_rows (session sid)
    (approved_record (seconds_text (decided_at ck)) canonical a cert) (pending_enrollments (s_tables s)))
    (s_tables s)) = Some r0) in Hf0.
  rewrite find_enrollment_update, Hf in Hf0 by done. injection Hf0 as <-.
  rewrite bool_decide_eq_false_2 in Hr by done.
  exists expiry, claim. subst result. rewrite Ht4, Hm4, Hm3, Hm2. cbn [ap_record ap_audit_events].
  assert (read_tables sid (approved_record (seconds_text (decided_at ck)) canonical a cert found) (s_tables s3)
    = s_tables s3) as ->.
  { unfold read_tables. destruct (find_enrollment sid (s_tables s3)); [|done].
    rewrite (bool_decide_eq_false_2 (e_status (approved_record _ _ _ _ _) = EXPIRED)) by done.
    by rewrite andb_false_r. }
  rewrite Ht3. cbn [agents with_enrollments] in Hevs. split_and!; [by destruct (s_tables s)|done|done|exact Hevs].
Qed.

(** An approval that returned, from the pending record to the tables. *)
Lemma approve_Ret ck serial auto mgr sid a s ap s' :
  approve E ck serial auto mgr sid a s = (Ret ap, s') →
  let canonical := canonical_id mgr (p_agent_id a) in
  ∃ record cert grace_expiry claim,
    find_enrollment sid (s_tables s) = Some record ∧ e_status record = PENDING ∧
    sign_external_pubkey mgr serial (signed_at ck) (e_pubkey_pem record) (p_agent_id a) = Ret cert ∧
    s_tables s' =
      with_enrollments (update_rows (session sid) (approved_record (seconds_text (decided_at ck)) canonical a cert)
                          (pending_enrollments (s_tables s)))
        (with_agent_rows (stamped claim canonical
           (enrolled_rows ck canonical (spiffe_uri mgr (name_part canonical)) cert a record grace_expiry
              (agents (s_tables s)))) (s_tables s)) ∧
    s_memory s' = s_memory s ∧
    ap_record ap = approved_record (seconds_text (decided_at ck)) canonical a cert record ∧
    match find_row canonical (agents (s_tables s)) with
    | None => ap_audit_events ap = [created_event sid canonical a]
    | Some g => compute_grace_expiry (grace_at ck) (agent_cert_grace_period_hours E) = Ret grace_expiry ∧
        ap_audit_events ap = [rotated_event E sid canonical cert grace_expiry (r_cert_pem g) (r_dpop_jkt g) a record]
    end.
Proof.
  intros Ha canonical. apply bind_Ret in Ha as (record & s1 & Hget & Ha).
  apply get_record_Ret in Hget as (r0 & Hf & Ht & Hm & Hr).
  destruct (decide (e_status record = PENDING)) as [Hp|Hp];
    [rewrite bool_decide_eq_true_2 in Ha by done|rewrite bool_decide_eq_false_2 in Ha by done; done].
  cbn [negb] in Ha. destruct (ca_loaded mgr); [|done]. cbn [negb] in Ha.
  assert (r0 = record) as ->.
  { destruct (decide (e_status r0 = PENDING)) as [Hst|Hst];
      [rewrite bool_decide_eq_true_2 in Hr by done|rewrite bool_decide_eq_false_2 in Hr by done; done].
    destruct Hr as ([] & _ & ->); [done|done]. }
  assert (s_tables s1 = s_tables s) as Ht1 by (rewrite Ht; unfold read_tables; rewrite Hf, Hp; done).
  apply bind_Ret in Ha as (cert & s2 & Hsign & Ha). injection Hsign as Hsign <-.
  apply (commit_approval_Ret _ _ _ _ _ _ _ record) in Ha as (expiry & claim & Htab & Hmem & Hrec & Hevs);
    [|by rewrite Ht1].
  rewrite Ht1 in *. rewrite Hm in Hmem. exists record, cert, expiry, claim. by split_and!.
Qed.

End Approvals.

(** ** The certificate of an approval *)

Section Issued.
Context `{Hash} `{FromIso} `{Cryptography} `{ReplayGuard} `{ZuluTime} `{DpopRuntime} `{!CertificateBuilder}.

Lemma sign_Ret mgr serial now pem name cert :
  sign_external_pubkey mgr serial now pem name = Ret cert →
  ∃ leaf ca k, cert = cert_pem_of leaf +:+ cert_pem_of ca ∧ load_pem_public_key pem = Some k ∧
    strong k = true ∧ cert_key leaf = k ∧ san_uris leaf = Ret (Some [spiffe_uri mgr name]).
Proof.
  unfold sign_external_pubkey. destruct (signing_ca mgr) as [ca|]; [|done].
  destruct (load_pem_public_key pem) as [k|]; [|done].
  unfold assert_strong_public_key. destruct (strong k) eqn:Hk; [|done]. cbn [obind].
  destruct (issue _ _ _ _ _ _ _ _) as [leaf|] eqn:Hi; [|done]. intros [= <-].
  exists leaf, ca, k. split_and!; [done..|by eapply issued_key|by eapply issued_uris].
Qed.

(** The digest a stored chain pins. *)
Definition pin (pem : option string) : option string := pem ≫= _pem_der_digest.

Lemma chain_pin leaf ca : pin (Some (cert_pem_of leaf +:+ cert_pem_of ca)) = Some (digest (cert_der leaf)).
Proof.
  unfold pin. cbn. unfold _pem_der_digest. rewrite parsed_chain, bool_decide_eq_false_2; [done|].
  pose proof (pem_nonempty leaf). by destruct (cert_pem_of leaf).
Qed.

Lemma pin_nonempty o : o ≫= (λ pem, if bool_decide (pem = "") then None else _pem_der_digest pem) = pin o.
Proof. destruct o as [pem|]; [|done]. cbn. unfold _pem_der_digest. by destruct (bool_decide (pem = "")). Qed.

Lemma grace_text_active now t : representable t → is_grace_active now (Some (utc_text t)) = (now <? t).
Proof.
  intros Ht. pose proof (from_iso_utc t Ht) as Hf. unfold is_grace_active.
  destruct (utc_text t) as [|c text] eqn:Hu; [done|]. by rewrite Hf.
Qed.

Lemma grace_expiry_Ret now h text :
  compute_grace_expiry now h = Ret text →
  text = utc_text (now + hours (Z.max h 0)) ∧ representable (now + hours (Z.max h 0)).
Proof.
  unfold compute_grace_expiry, datetime_of. destruct (_ && _) eqn:Hr; [|done]. intros [= <-].
  split; [done|]. unfold representable. lia.
Qed.

(** What the registry accepts, by the two pins and the end of the window. *)
Lemma accepts_pins now r cert :
  accepts now r cert =
    match pin (r_cert_pem r) with
    | None => false
    | Some d => bool_decide (digest (cert_der cert) = d) ||
                (is_grace_active now (r_previous_grace_period_expires_at r) &&
                 bool_decide (pin (r_previous_cert_pem r) = Some (digest (cert_der cert))))
    end.
Proof.
  unfold accepts, grace_pin. rewrite pin_nonempty. fold (pin (r_cert_pem r)). unfold _cert_der_digest.
  destruct (pin (r_cert_pem r)) as [d|]; [|done]. f_equal.
  destruct (pin (r_previous_cert_pem r)) as [prev|]; [|by rewrite (bool_decide_eq_false_2 (None = _)), andb_false_r].
  f_equal. apply bool_decide_ext. naive_solver.
Qed.

Lemma stamped_find claim id l :
  find_row id (stamped claim id l) =
    match claim with
    | None => find_row id l
    | Some c => with_core (with_claim c) <$> find_row id l
    end.
Proof.
  destruct claim as [c|]; [|done]. unfold stamped.
  change (find_by r_agent_id id (update_rows (λ a, bool_decide (r_agent_id a = id)) (with_core (with_claim c)) l)
    = with_core (with_claim c) <$> find_by r_agent_id id l).
  rewrite find_by_update by done. by rewrite bool_decide_eq_true_2.
Qed.

Lemma find_row_update id f l :
  (∀ a, r_agent_id (f a) = r_agent_id a) → find_row id (update_rows (named id) f l) = f <$> find_row id l.
Proof.
  intros Hf. change (find_by r_agent_id id (update_rows (λ a, bool_decide (r_agent_id a = id)) f l)
    = f <$> find_by r_agent_id id l).
  rewrite find_by_update by done. by rewrite bool_decide_eq_true_2.
Qed.

(** The row of the agent once its enrollment is approved. *)
Definition credentialed (ck : approval_clock) (spiffe cert : string) (a : Approval) (record : enrollment)
    (expiry : string) (canonical : string) (g : option agent) : agent :=
  match g with
  | None => enrolled_agent (seconds_text (decided_at ck)) canonical spiffe cert a record
  | Some g => reenrolled_agent (seconds_text (decided_at ck)) spiffe cert expiry (r_cert_pem g) (r_dpop_jkt g) record g
  end.

Lemma enrolled_find ck canonical spiffe cert a record expiry l :
  find_row canonical (enrolled_rows ck canonical spiffe cert a record expiry l)
  = Some (credentialed ck spiffe cert a record expiry canonical (find_row canonical l)).
Proof.
  unfold enrolled_rows. destruct (find_row canonical l) as [g|] eqn:Hg.
  - rewrite find_row_update by done. by rewrite Hg.
  - change (find_by r_agent_id canonical (l ++ [enrolled_agent (seconds_text (decided_at ck)) canonical spiffe cert a record])
      = Some (enrolled_agent (seconds_text (decided_at ck)) canonical spiffe cert a record)).
    rewrite find_by_app. change (find_by r_agent_id canonical l = None) in Hg. rewrite Hg, find_by_cons.
    by rewrite bool_decide_eq_true_2.
Qed.

Lemma claimed_accepts now claim r cert : accepts now (with_core (with_claim claim) r) cert = accepts now r cert.
Proof. done. Qed.

(** The row an approval leaves, with the leaf it has issued. *)
Lemma approved_row E ck serial auto mgr sid a s ap s' :
  approve E ck serial auto mgr sid a s = (Ret ap, s') →
  let canonical := canonical_id mgr (p_agent_id a) in
  ∃ record leaf ca k expiry row,
    find_enrollment sid (s_tables s) = Some record ∧ e_status record = PENDING ∧
    load_pem_public_key (e_pubkey_pem record) = Some k ∧ cert_key leaf = k ∧
    san_uris leaf = Ret (Some [spiffe_uri mgr (p_agent_id a)]) ∧
    find_row canonical (agents (s_tables s')) = Some row ∧ r_is_active row = true ∧
    r_cert_pem row = Some (cert_pem_of leaf +:+ cert_pem_of ca) ∧
    e_cert_pem (ap_record ap) = r_cert_pem row ∧
    match find_row canonical (agents (s_tables s)) with
    | None => r_previous_cert_pem row = None ∧ r_previous_grace_period_expires_at row = None ∧
        r_capabilities row = dumps_plain (JList (JStr <$> p_capabilities a))
    | Some g => compute_grace_expiry (grace_at ck) (agent_cert_grace_period_hours E) = Ret expiry ∧
        r_previous_cert_pem row = r_cert_pem g ∧ r_previous_grace_period_expires_at row = Some expiry ∧
        r_capabilities row = r_capabilities g ∧
        a_revoked_at (r_core row) = a_revoked_at (r_core g)
    end.
Proof.
  intros Ha canonical. apply approve_Ret in Ha as (record & cert & expiry & claim & Hf & Hp & Hsign & Ht & _ & Hrec & Hevs).
  apply sign_Ret in Hsign as (leaf & ca & k & -> & Hk & _ & Hck & Hsan).
  rewrite Ht. fold canonical in Hevs |- *. cbn [agents with_enrollments with_agent_rows].
  set (row := credentialed ck (spiffe_uri mgr (name_part canonical)) (cert_pem_of leaf +:+ cert_pem_of ca) a record
                expiry canonical (find_row canonical (agents (s_tables s)))).
  exists record, leaf, ca, k, expiry,
    (match claim with None => row | Some c => with_core (with_claim c) row end).
  split_and!; [done..| | | | |].
  - rewrite stamped_find, enrolled_find. by destruct claim.
  - destruct claim; subst row; by destruct (find_row canonical (agents (s_tables s))).
  - destruct claim; subst row; by destruct (find_row canonical (agents (s_tables s))).
  - rewrite Hrec. destruct claim; subst row; by destruct (find_row canonical (agents (s_tables s))).
  - subst row. destruct (find_row canonical (agents (s_tables s))) as [g|].
    + destruct Hevs as [Hx _]. by destruct claim.
    + by destruct claim.
Qed.

End Issued.

(** ** Properties of the credentials *)

Section Windows.
Context `{Hash} `{FromIso} `{Cryptography} `{ReplayGuard} `{ZuluTime} `{DpopRuntime} `{!CertificateBuilder}.

(** an approval that re-enrolls an agent leaves exactly two certificates
    able to authenticate as it: the one just issued, for good, and the one the
    registry pinned before, until the grace period is over.  The certificate
    before that one is dropped at once. *)
Theorem reenrollment_window (E : registry_env) (ck : approval_clock) (serial : Z) (auto : bool)
    (mgr : AgentManager) (sid : string) (a : Approval) (s : registry_state) (ap : approved)
    (s' : registry_state) (g : agent) :
  let canonical := canonical_id mgr (p_agent_id a) in
  let expiry := grace_at ck + hours (Z.max (agent_cert_grace_period_hours E) 0) in
  approve E ck serial auto mgr sid a s = (Ret ap, s') →
  find_row canonical (agents (s_tables s)) = Some g →
  ∃ leaf row,
    find_row canonical (agents (s_tables s')) = Some row ∧ r_is_active row = true ∧
    ∀ now cert, accepts now row cert =
      bool_decide (digest (cert_der cert) = digest (cert_der leaf)) ||
      ((now <? expiry) && bool_decide (pin (r_cert_pem g) = Some (digest (cert_der cert)))).
Proof.
  intros canonical expiry Ha Hg.
  apply approved_row in Ha as (record & leaf & ca & k & text & row & _ & _ & _ & _ & _ & Hrow & Hact & Hpem & _ & Hprev).
  fold canonical in Hrow, Hprev. rewrite Hg in Hprev.
  destruct Hprev as ([-> Hrep]%grace_expiry_Ret & Hpc & Hpe & _ & _).
  exists leaf, row. split; [done|]. split; [done|]. intros now cert.
  rewrite accepts_pins, Hpem, Hpc, Hpe, chain_pin. by rewrite grace_text_active.
Qed.

(** *** The sweep *)

(** The expiries in the table are texts of the clock. *)
Definition clock_expiries (t : tables) : Prop :=
  ∀ r, r ∈ agents t → match r_previous_grace_period_expires_at r with
                      | None => True
                      | Some text => ∃ x, representable x ∧ text = utc_text x
                      end.

Definition jkt_accepted (now : Z) (r : agent) (jkt : string) : bool :=
  match some_text (r_dpop_jkt r) with
  | None => true
  | Some stored =>
      bool_decide (jkt = stored) ||
      match some_text (r_previous_dpop_jkt r) with
      | Some prev => is_grace_active now (r_previous_grace_period_expires_at r) && bool_decide (jkt = prev)
      | None => false
      end
  end.

Definition swept_row (now : Z) (r : agent) : agent :=
  if grace_expired (now_utc_iso now) r then without_previous r else r.

Lemma audit_each_tables E f l s : s_tables (snd (audit_each E f l s)) = s_tables s.
Proof.
  revert s. induction l as [|r l IH]; intros s; [done|]. cbn [audit_each]. unfold bind, catch.
  pose proof (audit_frame E (f r) s) as [Ht _]. destruct (audit E (f r) s) as [[[]|e] s1]; cbn in Ht |- *;
    by rewrite IH.
Qed.

Lemma sweep_rows E now s n s' :
  _sweep_once E now s = (Ret n, s') → agents (s_tables s') = map (swept_row now) (agents (s_tables s)).
Proof.
  intros Hs. apply bind_Ret in Hs as (rows & s1 & Htr & Hs). apply transaction_Ret in Htr as (s2 & Htr & ->).
  apply bind_Ret in Htr as (found & s3 & [-> ->]%select_Ret & Htr).
  apply bind_Ret in Hs as ([] & s4 & Haud & Hs). injection Hs as _ <-.
  pose proof (audit_each_tables E
    (λ r, success_call (r_agent_id r) "agent.cert_grace_period_expired" (Some (expired_detail (now_utc_iso now) r)) None)
    rows (issued s2)) as Ht.
  rewrite Haud in Ht. cbn in Ht. rewrite Ht. clear Haud Ht. unfold swept_row.
  destruct (filter _ (agents (s_tables s))) as [|r rest] eqn:Hf.
  - injection Htr as <- <-. cbn. rewrite <- (map_id (agents (s_tables s))) at 1. apply map_ext_in. intros r Hr.
    destruct (grace_expired (now_utc_iso now) r) eqn:Hx; [|done]. exfalso.
    assert (r ∈ filter (λ r, grace_expired (now_utc_iso now) r = true) (agents (s_tables s))) as Hin
      by (apply list_elem_of_filter; split; [done|by apply list_elem_of_In]).
    rewrite Hf in Hin. by apply not_elem_of_nil in Hin.
  - apply bind_Ret in Htr as (b & s5 & [_ ->]%update_agents_Ret & Htr). by injection Htr as <- <-.
Qed.

Lemma swept_find now id l : find_row id (map (swept_row now) l) = swept_row now <$> find_row id l.
Proof.
  change (find_by r_agent_id id (map (swept_row now) l) = swept_row now <$> find_by r_agent_id id l).
  induction l as [|r l IH]; [done|]. cbn [map]. rewrite !find_by_cons, IH.
  assert (r_agent_id (swept_row now r) = r_agent_id r) as -> by (unfold swept_row; by case_match).
  by case_bool_decide.
Qed.

(** the sweep of the previous credentials changes no decision: from the
    instant it runs at, every agent is there as before and accepts the same
    certificates and the same proof keys. *)
Theorem sweep_unobservable (E : registry_env) (now : Z) (s : registry_state) (n : Z) (s' : registry_state) :
  clock_expiries (s_tables s) → representable now → _sweep_once E now s = (Ret n, s') →
  ∀ id, match find_row id (agents (s_tables s)), find_row id (agents (s_tables s')) with
        | None, None => True
        | Some r, Some r' =>
            r_core r' = r_core r ∧
            ∀ later, now <= later →
              (∀ cert, accepts later r' cert = accepts later r cert) ∧
              (∀ jkt, jkt_accepted later r' jkt = jkt_accepted later r jkt)
        | _, _ => False
        end.
Proof.
  intros Hclock Hnow Hs id. rewrite (sweep_rows _ _ _ _ _ Hs), swept_find.
  destruct (find_row id (agents (s_tables s))) as [r|] eqn:Hf; [|done]. cbn [fmap option_fmap option_map].
  destruct (find_by_Some r_agent_id id (agents (s_tables s)) r) as [Hin _]; [exact Hf|].
  unfold swept_row. destruct (grace_expired (now_utc_iso now) r) eqn:Hx; [|done].
  split; [done|]. intros later Hlater. unfold grace_expired in Hx. specialize (Hclock r Hin).
  destruct (r_previous_grace_period_expires_at r) as [text|] eqn:Ht; [|done].
  destruct Hclock as (x & Hrep & ->). unfold now_utc_iso in Hx. rewrite text_lt_utc in Hx by done.
  assert (is_grace_active later (Some (utc_text x)) = false) as Hoff by (rewrite grace_text_active by done; lia).
  split.
  - intros cert. rewrite !accepts_pins. cbn [r_cert_pem without_previous r_previous_grace_period_expires_at].
    by rewrite Ht, Hoff.
  - intros jkt. unfold jkt_accepted. cbn [r_dpop_jkt r_previous_dpop_jkt without_previous
      r_previous_grace_period_expires_at some_text]. rewrite Ht, Hoff.
    destruct (some_text (r_dpop_jkt r)); [|done]. by destruct (some_text (r_previous_dpop_jkt r)).
Qed.

Lemma active_first id l g :
  find_row id l = Some g → r_is_active g = true → head (List.filter (active_named id) l) = Some g.
Proof.
  intros Hg Hact. change (find_by r_agent_id id l = Some g) in Hg.
  induction l as [|r l IH]; [done|]. rewrite find_by_cons in Hg. cbn [List.filter].
  destruct (bool_decide (r_agent_id r = id)) eqn:Hb; unfold active_named at 1, named; rewrite Hb.
  - injection Hg as ->. by rewrite Hact.
  - by apply IH.
Qed.

Lemma active_updated id f l g :
  (∀ r, r_agent_id (f r) = r_agent_id r) → find_row id l = Some g → r_is_active g = true →
  find_row id (update_rows (active_named id) f l) = Some (f g).
Proof.
  intros Hf Hg Hact. change (find_by r_agent_id id l = Some g) in Hg.
  change (find_by r_agent_id id (update_rows (active_named id) f l) = Some (f g)).
  induction l as [|r l IH]; [done|]. unfold update_rows in *. cbn [map]. rewrite find_by_cons in *.
  assert (active_named id r = bool_decide (r_agent_id r = id) && r_is_active r) as -> by done.
  destruct (bool_decide (r_agent_id r = id)) eqn:Hb; cbn [andb].
  - injection Hg as ->. by rewrite Hact, Hf, Hb.
  - rewrite Hb. by apply IH.
Qed.

(** A rotation of the DPoP key moves the expiry the previous certificate
    shares: an expired one authenticates again. *)
Theorem dpop_rotation_revives_certificate (E : registry_env) (secret id jkt : string) (jwk : fields)
    (now : Z) (s s' : registry_state) (g : agent) (cert : certificate) :
  register_agent_dpop_jwk E secret id jwk now s = (Ret jkt, s') →
  find_row id (agents (s_tables s)) = Some g → r_is_active g = true → same_key (r_dpop_jkt g) jkt = false →
  pin (r_cert_pem g) ≠ None → pin (r_previous_cert_pem g) = Some (digest (cert_der cert)) →
  0 < agent_cert_grace_period_hours E →
  ∃ row, find_row id (agents (s_tables s')) = Some row ∧
    ∀ later, later < now + hours (agent_cert_grace_period_hours E) → accepts later row cert = true.
Proof.
  intros Hr Hg Hact Hsame Hpin Hprev Hh. unfold register_agent_dpop_jwk in Hr.
  apply bind_Ret in Hr as ([] & s1 & Hadm & Hr). injection Hadm as _ <-.
  apply bind_Ret in Hr as (jkt' & s2 & Hjkt & Hr). injection Hjkt as _ <-.
  apply bind_Ret in Hr as (expiry & s3 & Hx & Hr). injection Hx as Hx <-.
  apply grace_expiry_Ret in Hx as [-> Hrep].
  apply bind_Ret in Hr as (old & s4 & Htr & Hr). apply transaction_Ret in Htr as (s5 & Htr & ->).
  apply bind_Ret in Htr as (prev & s6 & [-> ->]%select_Ret & Htr).
  assert (head (List.filter (active_named id) (agents (s_tables s))) = Some g) as Hfind
    by (by apply active_first).
  rewrite Hfind in Htr. cbn [mbind option_bind] in Htr.
  apply bind_Ret in Hr as ([] & s7 & Haud & Hr). injection Hr as <- <-.
  rewrite Hsame in Htr. apply bind_Ret in Htr as (hit & s8 & [_ ->]%update_agents_Ret & Htr).
  destruct hit; [|done]. injection Htr as <- <-.
  match type of Haud with audit _ ?c ?s0 = _ => pose proof (audit_frame E c s0) as [Ht _] end.
  rewrite Haud in Ht. cbn [snd] in Ht. rewrite Ht. cbn [s_tables agents with_agent_rows with_tables issued registry_transactional].
  set (f := with_previous_jkt _ _ _).
  exists (f g). split.
  - by apply active_updated.
  - intros later Hl. rewrite accepts_pins. subst f. cbn [r_cert_pem with_previous_jkt r_previous_cert_pem
      r_previous_grace_period_expires_at]. destruct (pin (r_cert_pem g)) eqn:Hd; [|by destruct (Hpin eq_refl)].
    rewrite grace_text_active, Hprev, (bool_decide_eq_true_2 (Some _ = Some _)) by done.
    rewrite (Z.max_l (agent_cert_grace_period_hours E)) by lia.
    rewrite (proj2 (Z.ltb_lt later (now + hours (agent_cert_grace_period_hours E)))) by done. by rewrite orb_true_r.
Qed.

End Windows.

(** ** Who is let in, with a database that answers *)

Section LetIn.
Context `{Hash} `{FromIso} `{Cryptography} `{ReplayGuard} `{DpopRuntime}.

(** *** What the admission promises, in terms of the request and the tables *)

(** nginx has verified the certificate that it hands over. *)
Definition shows (r : http_request) (cert : certificate) : Prop :=
  header r "x-ssl-client-verify" = Some "SUCCESS" ∧
  ∃ escaped, header r "x-ssl-client-cert" = Some escaped ∧ escaped ≠ "" ∧
    load_pem_x509_certificate (unquote escaped) = Some cert.

Definition spiffe_names (uri org name : string) : Prop :=
  org ≠ "" ∧ name ≠ "" ∧ ∃ domain rest, uri = "spiffe://" +:+ rest ∧
    (split_on slash rest = [domain; org; name] ∨ split_on slash rest = [domain; org; "agent"; name] ∨
     ∃ kind n, kind ∈ ["user"; "workload"] ∧ split_on slash rest = [domain; org; kind; n] ∧ name = kind +:+ "::" +:+ n).

Definition nameless (uri : string) : Prop := ∀ org name, ¬ spiffe_names uri org name.

(** The first URI that names somebody, or the common name. *)
Definition cert_names (cert : certificate) (org name : string) : Prop :=
  ∃ uris, san_uris cert = Ret uris ∧
    ((∃ before uri after, default [] uris = before ++ uri :: after ∧ Forall nameless before ∧ spiffe_names uri org name) ∨
     (Forall nameless (default [] uris) ∧ org ≠ "" ∧ name ≠ "" ∧
      ∃ cn, head (common_names cert) = Some cn ∧ partition "::" cn = Some (org, name))).

Definition of_this_org (E : registry_env) (org : string) : Prop :=
  let configured := rstrip (lstrip (setting_org_id E)) in configured = "" ∨ org = configured.

(** Fewer requests than the limit in the last minute. *)
Definition budget_left (E : registry_env) (mono : Z) (canonical : string) (s : registry_state) : Prop :=
  Z.of_nat (length (List.filter (λ t, mono - 60000000000 <? t) (default [] (rates (s_memory s) !! canonical))))
  < rate_limit_per_minute E.

Definition within (part s : string) : Prop := ∃ a b, partition part s = Some (a, b).

(** A stored text whose first certificate is this one, up to the digest. *)
Definition holds_cert (pem : string) (cert : certificate) : Prop :=
  ∃ leaf rest, pem ≠ "" ∧ load_pem_x509_certificates pem = Some (leaf :: rest) ∧
    digest (cert_der leaf) = digest (cert_der cert).

(** The certificate is the current one of the row, or the previous one before
    its grace period ends; the current one is readable in both cases. *)
Definition row_holds (now : Z) (row : agent) (cert : certificate) : Prop :=
  ∃ pem leaf rest, r_cert_pem row = Some pem ∧ pem ≠ "" ∧ load_pem_x509_certificates pem = Some (leaf :: rest) ∧
    (holds_cert pem cert ∨
     ∃ previous text aware expiry, r_previous_cert_pem row = Some previous ∧ holds_cert previous cert ∧
       r_previous_grace_period_expires_at row = Some text ∧ text ≠ "" ∧ from_iso text = Some (aware, expiry) ∧ now < expiry).

(** A user or a workload, bound to its key. *)
Definition bound_principal (kind : string) (pins : gmap string (option string)) (now : Z) (cert : certificate)
    (canonical name : string) (a : InternalAgent) : Prop :=
  pins !! canonical = Some (Some (hexdigest (spki_der (cert_key cert)))) ∧
  a = {| i_agent_id := canonical; i_display_name := name; i_capabilities := []; i_created_at := utc_text now;
         i_is_active := true; i_cert_pem := None; i_dpop_jkt := None; i_reach := "intra"; i_principal_type := kind;
         i_previous_cert_pem := None; i_previous_dpop_jkt := None; i_previous_grace_period_expires_at := None |}.

Definition enrolled_agent_of (E : registry_env) (t : tables) (now : Z) (cert : certificate) (canonical : string)
    (a : InternalAgent) : Prop :=
  ∃ row caps, find_row canonical (agents t) = Some row ∧ r_is_active row = true ∧ row_holds now row cert ∧
    loads (float_literal E) (r_capabilities row) = Ret (JList (JStr <$> caps)) ∧
    a = {| i_agent_id := r_agent_id row; i_display_name := r_display_name row; i_capabilities := caps;
           i_created_at := r_created_at row; i_is_active := true; i_cert_pem := r_cert_pem row;
           i_dpop_jkt := r_dpop_jkt row;
           i_reach := match r_reach row with EmptyString => if r_federated row then "both" else "intra" | t => t end;
           i_principal_type := match r_principal_type row with EmptyString => "agent" | t => t end;
           i_previous_cert_pem := r_previous_cert_pem row; i_previous_dpop_jkt := r_previous_dpop_jkt row;
           i_previous_grace_period_expires_at := r_previous_grace_period_expires_at row |}.

Definition registry_knows (E : registry_env) (t : tables) (now : Z) (cert : certificate) (canonical name : string)
    (a : InternalAgent) : Prop :=
  (within "::user::" canonical ∧ bound_principal "user" (user_pins t) now cert canonical name a) ∨
  (¬ within "::user::" canonical ∧ within "::workload::" canonical ∧
   bound_principal "workload" (workload_pins t) now cert canonical name a) ∨
  (¬ within "::user::" canonical ∧ ¬ within "::workload::" canonical ∧ enrolled_agent_of E t now cert canonical a).

(** *** The code does that *)

Lemma parsed_uri uri org name : _parse_spiffe_uri uri = Some (org, name) ↔ spiffe_names uri org name.
Proof.
  unfold _parse_spiffe_uri, spiffe_names. destruct (startswith uri "spiffe://") eqn:Hst; cbn [negb].
  - apply startswith_iff in Hst. set (rest := drop_prefix "spiffe://" uri) in *.
    assert (∀ rest', uri = "spiffe://" +:+ rest' ↔ rest' = rest) as Hrest.
    { intros rest'. rewrite Hst. split; [|by intros ->]. by intros ?%str_app_inj_l. }
    split.
    + intros H5. destruct (split_on slash rest) as [|domain [|o [|x [|y [|]]]]] eqn:Hsp; try done; cbn in H5.
      * repeat case_bool_decide; try done. injection H5 as <- <-. split_and!; [done..|].
        exists domain, rest. split; [by apply Hrest|by left].
      * destruct (decide (x = "agent")) as [->|Hna].
        { rewrite bool_decide_eq_true_2 in H5 by done. repeat case_bool_decide; try done. injection H5 as <- <-.
          split_and!; [done..|]. exists domain, rest. split; [by apply Hrest|by right; left]. }
        rewrite (bool_decide_eq_false_2 (x = "agent")) in H5 by done.
        destruct (decide (x ∈ ["user"; "workload"])) as [Hk|Hk];
          [rewrite bool_decide_eq_true_2 in H5 by done|rewrite bool_decide_eq_false_2 in H5 by done; done].
        repeat case_bool_decide; try done. injection H5 as <- <-. split_and!; [done..|].
        exists domain, rest. split; [by apply Hrest|]. right; right. by exists x, y.
    + intros (Ho & Hn & domain & rest' & ->%Hrest & [->|[->|(kind & n & Hk & -> & ->)]]).
      * by rewrite !bool_decide_eq_false_2 by done.
      * by rewrite bool_decide_eq_true_2, !bool_decide_eq_false_2 by done.
      * rewrite (bool_decide_eq_false_2 (kind = "agent"))
          by (intros ->; revert Hk; rewrite !elem_of_cons, elem_of_nil; intuition done).
        rewrite bool_decide_eq_true_2 by done. by rewrite !bool_decide_eq_false_2 by done.
  - split; [done|]. intros (_ & _ & domain & rest & -> & _).
    assert (startswith ("spiffe://" +:+ rest) "spiffe://" = true) as Hyes
      by (apply startswith_iff; by rewrite drop_prefix_app).
    congruence.
Qed.

Lemma unparsed_uri uri : _parse_spiffe_uri uri = None ↔ nameless uri.
Proof.
  split.
  - intros Hno org name Hn%parsed_uri. congruence.
  - intros Hno. destruct (_parse_spiffe_uri uri) as [[org name]|] eqn:Hp; [|done].
    by apply parsed_uri in Hp; destruct (Hno org name).
Qed.

Lemma first_named uris org name :
  first_identity uris = Some (org, name) ↔
  ∃ before uri after, uris = before ++ uri :: after ∧ Forall nameless before ∧ spiffe_names uri org name.
Proof.
  induction uris as [|u uris IH]; cbn.
  - split; [done|]. by intros ([|] & uri & after & ? & _).
  - destruct (_parse_spiffe_uri u) as [[o n]|] eqn:Hp.
    + split.
      * intros [= -> ->]. exists [], u, uris. split_and!; [done..|]. by apply parsed_uri.
      * intros ([|b before] & uri & after & [= -> ->] & Hb & Hs).
        { apply parsed_uri in Hs. congruence. }
        apply Forall_cons in Hb as [Hb _]. apply parsed_uri in Hp. by destruct (Hb o n).
    + rewrite IH. split.
      * intros (before & uri & after & -> & Hb & Hs). exists (u :: before), uri, after. split_and!; [done| |done].
        constructor; [by apply unparsed_uri|done].
      * intros ([|b before] & uri & after & [= -> ->] & Hb & Hs).
        { apply parsed_uri in Hs. congruence. }
        apply Forall_cons in Hb as [_ Hb]. by exists before, uri, after.
Qed.

Lemma none_named uris : first_identity uris = None ↔ Forall nameless uris.
Proof.
  induction uris as [|u uris IH]; cbn; [split; [constructor|done]|]. rewrite Forall_cons, <- unparsed_uri, <- IH.
  destruct (_parse_spiffe_uri u) as [[]|]; naive_solver.
Qed.

Lemma identity_named cert org name : _identity_from_cert cert = Ret (org, name) ↔ cert_names cert org name.
Proof.
  unfold _identity_from_cert, cert_names. destruct (san_uris cert) as [uris|e]; cbn [obind].
  2: { split; [done|]. by intros (? & ? & _). }
  assert (∀ P : option (list string) → Prop, (∃ u, Ret uris = Ret u ∧ P u) ↔ P uris) as Hone.
  { intros P. split; [by intros (u & [= ->] & Hu)|by exists uris]. }
  rewrite (Hone (λ u, _ ∨ _)). rewrite <- first_named, <- none_named.
  destruct (first_identity (default [] uris)) as [[o n]|]; [split; [intros [= -> ->]; by left|by intros [[= -> ->]|[? _]]]|].
  destruct (head (common_names cert)) as [cn|]; cbn [option_bind mbind].
  2: { split; [done|]. by intros [?|(_ & _ & _ & ? & ? & _)]. }
  unfold _parse_cn. destruct (partition "::" cn) as [[o n]|] eqn:Hp.
  - split.
    + intros Hr. destruct (bool_decide (o = "") || bool_decide (n = "")) eqn:He; [done|]. injection Hr as -> ->.
      apply orb_false_iff in He as [?%bool_decide_eq_false_1 ?%bool_decide_eq_false_1]. right. split_and!; [done..|]. by exists cn.
    + intros [?|(_ & Ho & Hn & cn' & [= <-] & Hp')]; [done|]. rewrite Hp in Hp'. injection Hp' as -> ->.
      by rewrite !bool_decide_eq_false_2 by done.
  - split; [done|]. intros [?|(_ & _ & _ & cn' & [= <-] & ?)]; congruence.
Qed.

Lemma presented_named (E : registry_env) r cert canonical name :
  presented_identity E r = Ret (cert, canonical, name) ↔
  ∃ org, shows r cert ∧ cert_names cert org name ∧ of_this_org E org ∧ canonical = org +:+ "::" +:+ name.
Proof.
  unfold presented_identity, presented_cert, shows, header_or_empty, of_this_org, _expected_org_id, _decode_escaped_pem.
  destruct (header r "x-ssl-client-verify") as [v|]; cbn [default id].
  2: { split; [done|]. by intros (? & [? _] & _). }
  destruct (decide (v = "SUCCESS")) as [->|Hv].
  2: { rewrite bool_decide_eq_false_2 by done. cbn. split; [done|]. intros (? & [[= ?] _] & _). congruence. }
  rewrite bool_decide_eq_true_2 by done. cbn [negb].
  destruct (header r "x-ssl-client-cert") as [pem|]; cbn [default id].
  2: { rewrite bool_decide_eq_true_2 by done. cbn. split; [done|]. by intros (? & [_ (? & ? & _)] & _). }
  destruct (decide (pem = "")) as [->|Hpem].
  { rewrite bool_decide_eq_true_2 by done. cbn. split; [done|]. intros (? & [_ (? & [= <-] & ? & _)] & _). congruence. }
  rewrite (bool_decide_eq_false_2 (pem = "")) by done.
  destruct (load_pem_x509_certificate (unquote pem)) as [c|] eqn:Hl; cbn [obind].
  2: { split; [done|]. intros (? & [_ (? & [= <-] & _ & Hn)] & _). congruence. }
  assert (∀ cert, (Some "SUCCESS" = Some "SUCCESS" ∧ ∃ escaped, Some pem = Some escaped ∧ escaped ≠ "" ∧
            load_pem_x509_certificate (unquote escaped) = Some cert) ↔ cert = c) as Hshow.
  { intros cert'. split; [intros (_ & ? & [= <-] & _ & ?); congruence|]. intros ->. split; [done|]. by exists pem. }
  setoid_rewrite Hshow. setoid_rewrite <- identity_named.
  destruct (_identity_from_cert c) as [[o n]|e] eqn:Hid; cbn [obind].
  2: { split; [done|]. intros (? & -> & ? & _). congruence. }
  case_bool_decide as He; [|case_bool_decide as Ho]; cbn [negb andb].
  - split; [intros [= <- <- <-]; exists o; by split_and!; [|by rewrite Hid|left|]|].
    intros (o' & -> & Hn & _ & ->). rewrite Hid in Hn. by injection Hn as -> ->.
  - split; [intros [= <- <- <-]; exists o; by split_and!; [|by rewrite Hid|right|]|].
    intros (o' & -> & Hn & _ & ->). rewrite Hid in Hn. by injection Hn as -> ->.
  - split; [done|]. intros (o' & -> & Hn & Hor & _). rewrite Hid in Hn. injection Hn as -> ->. tauto.
Qed.

Lemma under_rate_left (E : registry_env) mono canonical s : under_rate E mono canonical s ↔ budget_left E mono canonical s.
Proof.
  unfold under_rate, budget_left, check, newer, _WINDOW_SECONDS. change (60 * 1000000000) with 60000000000.
  destruct (Z.leb_spec (rate_limit_per_minute E)
    (Z.of_nat (length (List.filter (λ t, mono - 60000000000 <? t) (default [] (rates (s_memory s) !! canonical)))))); cbn; split; (done || lia).
Qed.

Lemma stored_digest pem cert : _pem_der_digest pem = Some (digest (cert_der cert)) ↔ holds_cert pem cert.
Proof.
  unfold _pem_der_digest, holds_cert. case_bool_decide as Hp; [split; [done|]; by intros (? & ? & ? & _)|].
  destruct (load_pem_x509_certificates pem) as [[|leaf rest]|].
  - split; [done|]. by intros (? & ? & _ & ? & _).
  - split; [intros [= ?]; by exists leaf, rest|]. intros (? & ? & _ & [= <- <-] & Hd). by rewrite Hd.
  - split; [done|]. by intros (? & ? & _ & ? & _).
Qed.

Lemma readable_pem pem : is_Some (_pem_der_digest pem) ↔ ∃ leaf rest, pem ≠ "" ∧ load_pem_x509_certificates pem = Some (leaf :: rest).
Proof.
  unfold _pem_der_digest. case_bool_decide as Hp; [split; [by intros [? ?]|by intros (? & ? & ? & _)]|].
  destruct (load_pem_x509_certificates pem) as [[|leaf rest]|].
  - split; [by intros [? ?]|by intros (? & ? & _ & ?)].
  - split; [by exists leaf, rest|by eexists].
  - split; [by intros [? ?]|by intros (? & ? & _ & ?)].
Qed.

Lemma in_grace now text : is_grace_active now text = true ↔
  ∃ t aware expiry, text = Some t ∧ t ≠ "" ∧ from_iso t = Some (aware, expiry) ∧ now < expiry.
Proof.
  unfold is_grace_active. destruct text as [[|c t]|].
  - split; [done|]. by intros (? & ? & ? & [= <-] & ? & _).
  - destruct (from_iso (String c t)) as [[aware expiry]|] eqn:Hf.
    + rewrite Z.ltb_lt. split; [intros Hlt; by exists (String c t), aware, expiry|].
      intros (? & ? & ? & [= <-] & _ & Hf' & Hlt). rewrite Hf in Hf'. by injection Hf' as -> ->.
    + split; [done|]. intros (? & ? & ? & [= <-] & _ & Hf' & _). congruence.
  - split; [done|]. by intros (? & ? & ? & ? & _).
Qed.

Lemma accepted_row now row cert : accepts now row cert = true ↔ row_holds now row cert.
Proof.
  unfold accepts, row_holds, grace_pin, _cert_der_digest. destruct (r_cert_pem row) as [pem|]; cbn [mbind option_bind].
  2: { split; [done|]. by intros (? & ? & ? & ? & _). }
  destruct (_pem_der_digest pem) as [stored|] eqn:Hs.
  2: { split; [done|]. intros (? & leaf & rest & [= <-] & Hne & Hl & _).
       assert (is_Some (_pem_der_digest pem)) as [? ?] by (apply readable_pem; by exists leaf, rest). congruence. }
  assert (∃ leaf rest, pem ≠ "" ∧ load_pem_x509_certificates pem = Some (leaf :: rest)) as (leaf & rest & Hne & Hl)
    by (apply readable_pem; by rewrite Hs).
  assert (digest (cert_der cert) = stored ↔ holds_cert pem cert) as Hcur.
  { rewrite <- stored_digest, Hs. split; [by intros ->|by intros [= ->]]. }
  rewrite orb_true_iff, bool_decide_eq_true, Hcur.
  assert (∀ previous, match (if bool_decide (previous = "") then None else _pem_der_digest previous) with
      | Some prev => is_grace_active now (r_previous_grace_period_expires_at row) && bool_decide (digest (cert_der cert) = prev)
      | None => false end = true ↔
      holds_cert previous cert ∧ is_grace_active now (r_previous_grace_period_expires_at row) = true) as Hprev.
  { intros previous. rewrite <- stored_digest. unfold _pem_der_digest at 1 2. case_bool_decide; [by split; [|intros []]|].
    destruct (load_pem_x509_certificates previous) as [[|l ?]|]; [by split; [|intros []]| |by split; [|intros []]].
    rewrite andb_true_iff, bool_decide_eq_true. split; [by intros [? ->]|by intros [[= ->] ?]]. }
  split.
  - intros [Hc|Hg]; exists pem, leaf, rest; (split_and!; [done..|]); [by left|right].
    destruct (r_previous_cert_pem row) as [previous|]; cbn [mbind option_bind] in Hg; [|done].
    apply Hprev in Hg as [Hh (t & aware & expiry & Hg)%in_grace]. exists previous, t, aware, expiry. tauto.
  - intros (? & _ & _ & [= <-] & _ & _ & [Hc|(previous & t & aware & expiry & -> & Hh & Hg)]); [by left|right].
    apply Hprev. split; [done|]. apply in_grace. by exists t, aware, expiry.
Qed.

Lemma contained part s : ClientCert.contains part s = true ↔ within part s.
Proof.
  unfold ClientCert.contains, within. destruct (partition part s) as [[a b]|]; [split; [by exists a, b|done]|].
  split; [done|]. by intros (? & ? & ?).
Qed.

Lemma listed_texts caps l : as_list caps ≫= mapM as_str = Some l ↔ caps = JList (JStr <$> l).
Proof.
  split.
  - destruct caps as [| | | | |vs|]; try done. cbn. intros Hm. f_equal. apply mapM_Some_1 in Hm.
    induction Hm as [|v t vs l Hv _ IH]; [done|]. cbn. rewrite IH. by destruct v; try done; injection Hv as ->.
  - intros ->. cbn. induction l as [|t l IH]; [done|]. cbn. by rewrite IH.
Qed.

Lemma known_row (E : registry_env) row caps a :
  r_is_active row = true →
  internal_agent_of row caps = Ret a ↔ ∃ l, caps = JList (JStr <$> l) ∧
    a = {| i_agent_id := r_agent_id row; i_display_name := r_display_name row; i_capabilities := l;
           i_created_at := r_created_at row; i_is_active := true; i_cert_pem := r_cert_pem row;
           i_dpop_jkt := r_dpop_jkt row;
           i_reach := match r_reach row with EmptyString => if r_federated row then "both" else "intra" | t => t end;
           i_principal_type := match r_principal_type row with EmptyString => "agent" | t => t end;
           i_previous_cert_pem := r_previous_cert_pem row; i_previous_dpop_jkt := r_previous_dpop_jkt row;
           i_previous_grace_period_expires_at := r_previous_grace_period_expires_at row |}.
Proof.
  intros Hact. unfold internal_agent_of. rewrite Hact.
  assert (∀ t d, or_default t d = match t with EmptyString => d | String c t => String c t end) as Hor.
  { by intros [|c t] d. }
  rewrite !Hor. destruct (as_list caps ≫= mapM as_str) as [l|] eqn:Hl.
  - apply listed_texts in Hl as ->. split; [intros [= <-]; by exists l|].
    intros (l' & [= Heq] & ->). apply (list_fmap_eq_inj (B:=json) JStr) in Heq as ->; [done|by intros ?? [=]].
  - split; [done|]. intros (l' & -> & _). assert (as_list (JList (JStr <$> l')) ≫= mapM as_str = Some l') by by apply listed_texts.
    congruence.
Qed.

Lemma pinned_known (E : registry_env) t now cert canonical name a :
  pinned E t now cert canonical name a ↔ registry_knows E t now cert canonical name a.
Proof.
  unfold pinned, registry_knows, is_typed_principal, is_user, typed_agent, bound_principal, enrolled_agent_of,
    pubkey_thumbprint_sha256. rewrite <- !contained.
  destruct (ClientCert.contains "::user::" canonical) eqn:Hu; cbn [orb].
  - unfold is_user. rewrite Hu. naive_solver.
  - destruct (ClientCert.contains "::workload::" canonical) eqn:Hw.
    + unfold is_user. rewrite Hu. naive_solver.
    + split.
      * intros (row & caps & Hf & Ha & Hacc & Hl & (l & -> & ->)%known_row); [|exact E|done]. right. right.
        split_and!; [done..|]. exists row, l. split_and!; [done..| |done|done]. by apply accepted_row.
      * intros [[? _]|[(_ & ? & _)|(_ & _ & row & l & Hf & Ha & Hacc & Hl & ->)]]; [done..|].
        exists row, (JList (JStr <$> l)). split_and!; [done..|by apply accepted_row|done|].
        apply known_row; [exact E|done|]. by exists l.
Qed.

(** C18: with a database that answers, a request is let in as [a] exactly when
    nginx says it verified the certificate it hands over, the certificate names
    somebody of this organisation (any organisation, when none is configured),
    who has made fewer requests than the limit in the last minute, and the
    registry knows the certificate: an active agent whose current certificate
    it is, or whose previous one it is before the grace period ends, or a user
    or workload bound to its key.  [a] is what the registry says of them. *)
Theorem client_cert_admits (E : registry_env) (ck : auth_clock) (r : http_request) (s : registry_state)
    (a : InternalAgent) :
  answers E →
  (∃ s', get_agent_from_client_cert E ck r s = (Ret a, s')) ↔
  ∃ cert org name,
    shows r cert ∧ cert_names cert org name ∧ of_this_org E org ∧
    budget_left E (a_mono ck) (org +:+ "::" +:+ name) s ∧
    registry_knows E (s_tables s) (a_now ck) cert (org +:+ "::" +:+ name) name a.
Proof.
  intros Hc. split.
  - intros [s' Hg]. apply admitted_Ret in Hg as (cert & canonical & name & Hid & Hr & Hp & _).
    apply presented_named in Hid as (org & Hshow & Hname & Horg & ->). exists cert, org, name.
    split_and!; [done..|by apply under_rate_left|by apply pinned_known].
  - intros (cert & org & name & Hshow & Hname & Horg & Hr & Hp).
    apply (admitted_done E ck r s a cert (org +:+ "::" +:+ name) name Hc).
    + apply presented_named. by exists org.
    + by apply under_rate_left.
    + by apply pinned_known.
Qed.

End LetIn.

(** ** Examples *)

#[local] Existing Instances PaperPki.crypto PaperPki.builder DpopDemo.runtime.

(** nginx forwards a verified certificate. *)
Definition paper_request (pem : string) : http_request :=
  {| header name := if bool_decide (name = "x-ssl-client-verify") then Some "SUCCESS"
                    else if bool_decide (name = "x-ssl-client-cert") then Some pem else None;
     rq_url := "https://m/v1/x"; rq_path := "/v1/x"; rq_scheme := "https"; rq_method := "POST" |}.
Definition paper_clock (t : Z) : auth_clock := {| a_now := t; a_mono := 0; a_wall := t; a_replay := t |}.

Definition alpha : InternalAgent :=
  {| i_agent_id := "acme::alpha"; i_display_name := "alpha"; i_capabilities := ["order.read"];
     i_created_at := "1970-01-01T00:00:01+00:00"; i_is_active := true; i_cert_pem := Some "cR"; i_dpop_jkt := None;
     i_reach := "both"; i_principal_type := "agent"; i_previous_cert_pem := Some "aR";
     i_previous_dpop_jkt := None; i_previous_grace_period_expires_at := Some "1970-01-02T00:00:03+00:00" |}.

Lemma client_cert_admits_witness :
  answers PaperPki.env ∧
  ∃ s', get_agent_from_client_cert PaperPki.env (paper_clock 4000000) (paper_request "a") PaperPki.approved_twice
        = (Ret alpha, s').
Proof.
  split; [done|]. apply (client_cert_admits PaperPki.env (paper_clock 4000000) (paper_request "a")
    PaperPki.approved_twice alpha); [done|].
  exists (PaperPki.Leaf true true), "acme", "alpha".
  split; [split; [reflexivity|exists "a"; by split_and!]|].
  split; [by apply identity_named; vm_compute|]. split; [right; vm_compute; reflexivity|].
  split; [vm_compute; reflexivity|]. apply pinned_known. unfold pinned.
  change ("acme" +:+ "::" +:+ "alpha") with "acme::alpha".
  assert (is_typed_principal "acme::alpha" = false) as -> by (vm_compute; reflexivity).
  eexists _, (JList [JStr "order.read"]). split; [vm_compute; reflexivity|].
  repeat split; vm_compute; reflexivity.
Defined.

Lemma reenrollment_window_witness :
  ∃ ap s' g leaf row,
    approve PaperPki.env (PaperPki.clock_at 3000000) 6 false PaperPki.manager "s2" (PaperPki.approval "alpha")
      PaperPki.requested_again = (Ret ap, s') ∧
    find_row "acme::alpha" (agents (s_tables PaperPki.requested_again)) = Some g ∧
    find_row "acme::alpha" (agents (s_tables s')) = Some row ∧ r_is_active row = true ∧
    ∀ now cert, accepts now row cert =
      bool_decide (digest (cert_der cert) = digest (cert_der leaf)) ||
      ((now <? 86403000000) && bool_decide (pin (r_cert_pem g) = Some (digest (cert_der cert)))).
Proof.
  destruct (returned (approve PaperPki.env (PaperPki.clock_at 3000000) 6 false PaperPki.manager "s2"
    (PaperPki.approval "alpha")) PaperPki.requested_again) as [ap Ha]; [vm_compute; reflexivity|].
  revert Ha. generalize (snd (approve PaperPki.env (PaperPki.clock_at 3000000) 6 false PaperPki.manager "s2"
    (PaperPki.approval "alpha") PaperPki.requested_again)). intros s' Ha.
  assert (∃ g, find_row "acme::alpha" (agents (s_tables PaperPki.requested_again)) = Some g) as [g Hg]
    by (eexists; vm_compute; reflexivity).
  destruct (reenrollment_window PaperPki.env (PaperPki.clock_at 3000000) 6 false PaperPki.manager "s2"
    (PaperPki.approval "alpha") PaperPki.requested_again ap s' g Ha Hg) as (leaf & row & Hrow & Hact & Hacc).
  exists ap, s', g, leaf, row. split; [exact Ha|]. split; [exact Hg|].
  split; [exact Hrow|]. split; [exact Hact|exact Hacc].
Defined.

Lemma sweep_unobservable_witness :
  ∃ n s' r r', _sweep_once PaperPki.env 90000000000 PaperPki.approved_twice = (Ret n, s') ∧
    find_row "acme::alpha" (agents (s_tables PaperPki.approved_twice)) = Some r ∧
    find_row "acme::alpha" (agents (s_tables s')) = Some r' ∧ r_previous_cert_pem r' = None ∧
    ∀ later, 90000000000 <= later → ∀ cert, accepts later r' cert = accepts later r cert.
Proof.
  assert (clock_expiries (s_tables PaperPki.approved_twice)) as Hclock.
  { intros r Hr. assert (r_previous_grace_period_expires_at r = Some (utc_text 86403000000)) as ->.
    { revert r Hr. apply Forall_forall. vm_compute. repeat constructor. }
    exists 86403000000. split; [|reflexivity]. vm_compute. split; [discriminate|reflexivity]. }
  assert (representable 90000000000) as Hrep by (vm_compute; split; [discriminate|reflexivity]).
  destruct (returned (_sweep_once PaperPki.env 90000000000) PaperPki.approved_twice) as [n Hs];
    [vm_compute; reflexivity|].
  pose proof (sweep_unobservable PaperPki.env 90000000000 PaperPki.approved_twice n _ Hclock Hrep Hs "acme::alpha") as Hsame.
  assert (∃ r, find_row "acme::alpha" (agents (s_tables PaperPki.approved_twice)) = Some r) as [r Hr]
    by (eexists; vm_compute; reflexivity).
  assert (∃ r', find_row "acme::alpha" (agents (s_tables (snd (_sweep_once PaperPki.env 90000000000 PaperPki.approved_twice))))
    = Some r' ∧ r_previous_cert_pem r' = None) as (r' & Hr' & Hnone)
    by (eexists; split; vm_compute; reflexivity).
  rewrite Hr, Hr' in Hsame. exists n, (snd (_sweep_once PaperPki.env 90000000000 PaperPki.approved_twice)), r, r'.
  split; [exact Hs|]. split; [exact Hr|]. split; [exact Hr'|]. split; [exact Hnone|].
  intros later Hl cert. exact (proj1 (proj2 Hsame later Hl) cert).
Defined.
