(* ===== verification/EnrollmentLife.v ===== *)
(** * The life of an enrollment

    Theorems about [Enrollment] from the request to the first call: an
    approved key authenticates at once ([ClientCert]), a decision is final but
    for calls that read the record before it,
    the answer to a poll keeps what was decided from all but the holder of the
    key, and an approval is in the audit trail. *)

From S2P Require Import Prelude Sha256 IsoTime UtcTime Json JsonParse Base64 RateLimit ReplayStore Dpop Tier Intune Mdm AuditCanon AuditLog AuditChain Effects AgentRegistry Enrollment ClientCert Credentials.
From Stdlib Require Import QArith.

Open Scope Z_scope.

(** ** From the approval to the first request *)

Section FirstRequest.
Context `{Hash} `{FromIso} `{Cryptography} `{ReplayGuard} `{ZuluTime} `{DpopRuntime} `{!CertificateBuilder}.

(** A name that can stand in a SPIFFE path and in a canonical id. *)
Definition plain_name (name : string) : Prop :=
  name ≠ "" ∧ has_char slash name = false ∧ has_char ":"%char name = false.

Definition serves (E : registry_env) (mgr : AgentManager) : Prop :=
  plain_name (m_org_id mgr) ∧ has_char slash (m_trust_domain mgr) = false ∧
  (_expected_org_id E = "" ∨ _expected_org_id E = m_org_id mgr).

Lemma split_uri mgr name :
  has_char slash (m_trust_domain mgr) = false → has_char slash (m_org_id mgr) = false → has_char slash name = false →
  split_on slash (drop_prefix "spiffe://" (spiffe_uri mgr name)) = [m_trust_domain mgr; m_org_id mgr; name].
Proof.
  intros Htd Horg Hname. unfold spiffe_uri. rewrite drop_prefix_app.
  change ("/" +:+ m_org_id mgr +:+ "/" +:+ name) with (String slash (m_org_id mgr +:+ String slash name)).
  by rewrite !split_on_app, split_on_free.
Qed.

Lemma parse_issued mgr name :
  has_char slash (m_trust_domain mgr) = false → plain_name (m_org_id mgr) →
  name ≠ "" → has_char slash name = false →
  _parse_spiffe_uri (spiffe_uri mgr name) = Some (m_org_id mgr, name).
Proof.
  intros Htd (Ho & Hos & _) Hn Hns. unfold _parse_spiffe_uri.
  assert (startswith (spiffe_uri mgr name) "spiffe://" = true) as -> by (unfold spiffe_uri; apply startswith_app).
  cbn [negb]. rewrite split_uri by done. cbv zeta. by rewrite !bool_decide_eq_false_2.
Qed.

Lemma issued_identity mgr name leaf :
  has_char slash (m_trust_domain mgr) = false → plain_name (m_org_id mgr) →
  name ≠ "" → has_char slash name = false →
  san_uris leaf = Ret (Some [spiffe_uri mgr name]) → _identity_from_cert leaf = Ret (m_org_id mgr, name).
Proof.
  intros Htd Ho Hn Hns Hsan. unfold _identity_from_cert. rewrite Hsan. cbn [obind].
  change (first_identity (default [] (Some [spiffe_uri mgr name]))) with
    (match _parse_spiffe_uri (spiffe_uri mgr name) with Some id => Some id | None => None end).
  by rewrite parse_issued.
Qed.

Lemma issued_presented E mgr name leaf r :
  serves E mgr → name ≠ "" → has_char slash name = false →
  san_uris leaf = Ret (Some [spiffe_uri mgr name]) → presented_cert r = Ret leaf →
  presented_identity E r = Ret (leaf, m_org_id mgr +:+ "::" +:+ name, name).
Proof.
  intros (Ho & Htd & Hexp) Hn Hns Hsan Hp. unfold presented_identity. rewrite Hp. cbn [obind].
  rewrite (issued_identity mgr name leaf) by done. cbn [obind].
  destruct Hexp as [He|He]; rewrite He.
  - by rewrite bool_decide_eq_true_2.
  - rewrite (bool_decide_eq_true_2 (m_org_id mgr = m_org_id mgr)) by done. by rewrite andb_false_r.
Qed.

Lemma plain_count name : plain_name name → count_char ":"%char name = 0%nat.
Proof. intros (_ & _ & Hc). by apply count_char_free. Qed.

Lemma not_typed org name : plain_name org → plain_name name → is_typed_principal (org +:+ "::" +:+ name) = false.
Proof.
  intros Ho Hn. unfold is_typed_principal, is_user, contains.
  assert (count_char ":"%char (org +:+ "::" +:+ name) = 2%nat) as Hc
    by (rewrite !count_char_app, (plain_count org), (plain_count name) by done; reflexivity).
  rewrite !(partition_count ":"%char) by (rewrite Hc; vm_compute; lia). done.
Qed.

Lemma short_canonical mgr name :
  plain_name name → canonical_id mgr name = m_org_id mgr +:+ "::" +:+ name.
Proof. intros (_ & _ & Hc). unfold canonical_id. by rewrite partition_free. Qed.

Lemma qualified_canonical mgr name :
  plain_name (m_org_id mgr) →
  canonical_id mgr (m_org_id mgr +:+ "::" +:+ name) = m_org_id mgr +:+ "::" +:+ name.
Proof.
  intros (_ & _ & Hc). unfold canonical_id. pose proof (partition_double ":"%char (m_org_id mgr) name Hc) as Hp.
  change (partition "::" (m_org_id mgr +:+ "::" +:+ name) = Some (m_org_id mgr, name)) in Hp. by rewrite Hp.
Qed.

Definition string_list (text : json) : Prop := ∃ caps, text = JList (JStr <$> caps).

Lemma strings_back caps : mapM as_str (JStr <$> caps) = Some caps.
Proof. induction caps as [|c caps IH]; [done|]. cbn. by rewrite IH. Qed.

Lemma capabilities_back rf caps :
  Forall valid_text caps → loads rf (dumps_plain (JList (JStr <$> caps))) = Ret (JList (JStr <$> caps)).
Proof.
  intros Hv. apply loads_dumps, plain_readable. induction Hv as [|c caps Hc Hv IH]; [done|]. by split.
Qed.

(** C19: an enrollment approved under a plain name makes the certificate it
    answers with, which is for the key of the request, a credential at once: a request that presents it through nginx is served as
    the organisation's agent of that name, as long as its budget lasts and
    the tables stay. *)
Theorem approved_key_authenticates (E : registry_env) (ck : approval_clock) (serial : Z) (auto : bool)
    (mgr : AgentManager) (sid : string) (a : Approval) (s : registry_state) (ap : approved)
    (s' : registry_state) :
  let canonical := m_org_id mgr +:+ "::" +:+ p_agent_id a in
  answers E → serves E mgr → plain_name (p_agent_id a) → Forall valid_text (p_capabilities a) →
  (∀ g, find_row canonical (agents (s_tables s)) = Some g →
     ∃ caps, loads (float_literal E) (r_capabilities g) = Ret (JList (JStr <$> caps))) →
  approve E ck serial auto mgr sid a s = (Ret ap, s') →
  ∃ record leaf,
    find_enrollment sid (s_tables s) = Some record ∧
    load_pem_public_key (e_pubkey_pem record) = Some (cert_key leaf) ∧
    (∃ ca, e_cert_pem (ap_record ap) = Some (cert_pem_of leaf +:+ cert_pem_of ca)) ∧
    ∀ now r s1,
      s_tables s1 = s_tables s' → presented_cert r = Ret leaf → under_rate E (a_mono now) canonical s1 →
      ∃ i s2, get_agent_from_client_cert E now r s1 = (Ret i, s2) ∧ i_agent_id i = canonical.
Proof.
  intros canonical Hans Hserves Hname Hcaps Hold Ha.
  apply approved_row in Ha as (record & leaf & ca & k & expiry & row & Hf & _ & Hk & <- & Hsan & Hrow & Hact & Hpem & Hissued & Hprev).
  rewrite short_canonical in Hrow, Hprev by done. fold canonical in Hrow, Hprev.
  exists record, leaf. split; [done|]. split; [done|]. split; [exists ca; by rewrite Hissued|].
  intros now r s1 Ht Hp Hr.
  destruct Hserves as (Ho & Htd & Hexp). destruct Hname as (Hn & Hns & Hnc) eqn:Hname'.
  assert (∃ caps, loads (float_literal E) (r_capabilities row) = Ret (JList (JStr <$> caps))) as [caps Hl].
  { destruct (find_row canonical (agents (s_tables s))) as [g|] eqn:Hg.
    - destruct Hprev as (_ & _ & _ & -> & _). by apply Hold.
    - destruct Hprev as (_ & _ & ->). exists (p_capabilities a). by apply capabilities_back. }
  assert (∃ i, internal_agent_of row (JList (JStr <$> caps)) = Ret i ∧ i_agent_id i = r_agent_id row) as (i & Hi & Hid).
  { unfold internal_agent_of. cbn [as_list mbind option_bind]. rewrite strings_back. by eexists. }
  destruct (find_by_Some r_agent_id canonical (agents (s_tables s')) row) as [_ Hrid]; [exact Hrow|].
  destruct (admitted_done E now r s1 i leaf canonical (p_agent_id a) Hans) as [s2 Hs2].
  - by apply issued_presented.
  - done.
  - unfold pinned. assert (is_typed_principal canonical = false) as -> by (by apply not_typed).
    exists row, (JList (JStr <$> caps)).
    rewrite Ht. split_and!; [done..| |done|done].
    rewrite accepts_pins, Hpem, chain_pin. by rewrite bool_decide_eq_true_2.
  - exists i, s2. by rewrite Hid.
Qed.

(** The organisation twice in front of a name is a typed principal only for an
    organisation called like a type. *)
Lemma twice_contains w org name :
  plain_name org → plain_name name → has_char ":"%char w = false → org ≠ w →
  contains ("::" +:+ w +:+ "::") (org +:+ "::" +:+ org +:+ "::" +:+ name) = false.
Proof.
  intros Ho Hn Hw Hne. unfold contains. destruct (partition _ _) as [[a b]|] eqn:Hp; [|done]. exfalso.
  apply partition_Some in Hp. pose proof (f_equal (count_char ":"%char) Hp) as Hc.
  rewrite !count_char_app, (plain_count org), (plain_count name), (count_char_free _ w) in Hc by done.
  change (count_char ":"%char "::") with 2%nat in Hc.
  assert (has_char ":"%char a = false) as Ha by (apply count_char_zero; lia).
  rewrite !str_app_assoc in Hp.
  change ("::" +:+ org +:+ "::" +:+ name) with (String ":" (String ":" (org +:+ "::" +:+ name))) in Hp.
  change ("::" +:+ w +:+ "::" +:+ b) with (String ":" (String ":" (w +:+ "::" +:+ b))) in Hp.
  destruct Ho as (_ & _ & Ho). apply split_first in Hp as [_ Hp]; [|done..]. injection Hp as Hp.
  apply (split_first ":"%char org w (String ":" name) (String ":" b)) in Hp as [Heq _]; done.
Qed.

Lemma twice_not_typed org name :
  plain_name org → plain_name name → org ∉ ["user"; "workload"] →
  is_typed_principal (org +:+ "::" +:+ org +:+ "::" +:+ name) = false.
Proof.
  intros Ho Hn Hout.
  change (contains ("::" +:+ "user" +:+ "::") (org +:+ "::" +:+ org +:+ "::" +:+ name)
    || contains ("::" +:+ "workload" +:+ "::") (org +:+ "::" +:+ org +:+ "::" +:+ name) = false).
  rewrite !twice_contains; try done; intros ->; apply Hout; set_solver.
Qed.

(** An id that already carries the organisation is kept as the agent's, but
    the certificate names the organisation twice: the agent cannot
    authenticate. *)
Theorem qualified_approval_unusable (E : registry_env) (ck : approval_clock) (serial : Z) (auto : bool)
    (mgr : AgentManager) (sid name : string) (a : Approval) (s : registry_state) (ap : approved)
    (s' : registry_state) :
  let qualified := m_org_id mgr +:+ "::" +:+ name in
  serves E mgr → plain_name name → m_org_id mgr ∉ ["user"; "workload"] → p_agent_id a = qualified →
  find_row (m_org_id mgr +:+ "::" +:+ qualified) (agents (s_tables s')) = None →
  approve E ck serial auto mgr sid a s = (Ret ap, s') →
  ∃ leaf row,
    find_row qualified (agents (s_tables s')) = Some row ∧ r_is_active row = true ∧
    pin (r_cert_pem row) = Some (digest (cert_der leaf)) ∧
    ∀ now r s1 i s2,
      s_tables s1 = s_tables s' → presented_cert r = Ret leaf →
      get_agent_from_client_cert E now r s1 ≠ (Ret i, s2).
Proof.
  intros qualified Hserves Hname Horg Hid Hnone Ha. destruct Hserves as (Ho & Htd & Hexp).
  apply approved_row in Ha as (record & leaf & ca & k & expiry & row & _ & _ & _ & _ & Hsan & Hrow & Hact & Hpem & _ & _).
  rewrite Hid in Hrow, Hsan. unfold qualified in Hrow. rewrite qualified_canonical in Hrow by done.
  fold qualified in Hrow. exists leaf, row. split; [done|]. split; [done|].
  split; [by rewrite Hpem, chain_pin|]. intros now r s1 i s2 Ht Hp Hg.
  assert (qualified ≠ "" ∧ has_char slash qualified = false) as [Hq Hqs].
  { destruct Ho as (Hne & Hs & _), Hname as (_ & Hs' & _). unfold qualified. split.
    - by destruct (m_org_id mgr).
    - rewrite !has_char_app, Hs, Hs'. done. }
  apply admitted_Ret in Hg as (cert & canonical & agent & Hident & _ & Hpin & _).
  rewrite (issued_presented E mgr qualified leaf r) in Hident by done. injection Hident as <- <- <-.
  unfold pinned in Hpin.
  assert (is_typed_principal (m_org_id mgr +:+ "::" +:+ qualified) = false) as Htyped
    by (apply twice_not_typed; done).
  rewrite Htyped in Hpin. destruct Hpin as (row' & caps & Hr & _). rewrite Ht in Hr. congruence.
Qed.

End FirstRequest.

(** ** Decisions *)

Section Decisions.
Context `{Hash} `{FromIso} `{Cryptography} `{ReplayGuard} `{ZuluTime} `{DpopRuntime} `{!CertificateBuilder}.

(** An agent that was revoked and enrolls again is active, but its revocation
    date stays: no later loss of compliance can revoke it. *)
Theorem reenrolled_not_revocable (E : registry_env) (ck : approval_clock) (serial : Z) (auto : bool)
    (mgr : AgentManager) (sid : string) (a : Approval) (s : registry_state) (ap : approved)
    (s' : registry_state) (g : agent) :
  let canonical := canonical_id mgr (p_agent_id a) in
  approve E ck serial auto mgr sid a s = (Ret ap, s') →
  find_row canonical (agents (s_tables s)) = Some g → a_revoked_at (r_core g) ≠ None →
  ∃ row, find_row canonical (agents (s_tables s')) = Some row ∧ r_is_active row = true ∧
    revocable canonical (r_core row) = false.
Proof.
  intros canonical Ha Hg Hrev.
  apply approved_row in Ha as (record & leaf & ca & k & expiry & row & _ & _ & _ & _ & _ & Hrow & Hact & _ & _ & Hprev).
  fold canonical in Hrow, Hprev. rewrite Hg in Hprev. destruct Hprev as (_ & _ & _ & _ & Hr).
  exists row. split; [done|]. split; [done|]. unfold revocable.
  by rewrite Hr, (bool_decide_eq_false_2 (_ = None)), andb_false_r.
Qed.

(** The statement that approves does not ask whether the record is still
    pending: an approval under way overwrites the rejection of another
    administrator, who was told it holds. *)
Theorem approval_overwrites_rejection (E : registry_env) (ck : approval_clock) (auto : bool)
    (mgr : AgentManager) (sid cert reason admin : string) (a : Approval) (t1 t2 t3 : Z)
    (s s1 s2 s3 : registry_state) (record rejected : enrollment) (ap : approved) :
  get_record E (read_at ck) sid s = (Ret record, s1) → e_status record = PENDING →
  reject E t1 t2 t3 sid reason admin s1 = (Ret rejected, s2) →
  commit_approval E ck auto mgr sid cert a record s2 = (Ret ap, s3) →
  e_status rejected = REJECTED ∧
  e_status (ap_record ap) = APPROVED ∧ e_rejection_reason (ap_record ap) = Some reason ∧
  ∃ row, find_row (canonical_id mgr (p_agent_id a)) (agents (s_tables s3)) = Some row ∧ r_is_active row = true.
Proof.
  intros _ _ Hrej Hcom. apply bind_Ret in Hrej as (r1 & s4 & Hget & Hrej).
  apply get_record_Ret in Hget as (r0 & Hf & Ht & _ & Hr).
  destruct (decide (e_status r1 = PENDING)) as [Hp|Hp];
    [rewrite bool_decide_eq_true_2 in Hrej by done|rewrite bool_decide_eq_false_2 in Hrej by done; done].
  cbn [negb] in Hrej. apply bind_Ret in Hrej as (n & s5 & ->%update_enrollments_Ret & Hrej).
  apply get_record_Ret in Hrej as (r2 & Hf2 & Ht2 & _ & Hr2).
  assert (r0 = r1) as ->.
  { destruct (decide (e_status r0 = PENDING)) as [Hst|Hst];
      [rewrite bool_decide_eq_true_2 in Hr by done|rewrite bool_decide_eq_false_2 in Hr by done; done].
    destruct Hr as ([] & _ & ->); done. }
  assert (s_tables s4 = s_tables s1) as Ht4 by (rewrite Ht; unfold read_tables; rewrite Hf, Hp; done).
  cbn [s_tables with_tables] in Hf2, Ht2. rewrite Ht4 in Hf2, Ht2.
  rewrite find_enrollment_update, Hf in Hf2 by done. injection Hf2 as <-.
  rewrite bool_decide_eq_false_2 in Hr2 by done. subst rejected.
  assert (find_enrollment sid (s_tables s2) = Some (rejected_record (seconds_text t2) admin reason r1)) as Hf3.
  { rewrite Ht2. unfold read_tables. rewrite find_enrollment_update, Hf by done. cbn [fmap option_fmap option_map].
    rewrite (bool_decide_eq_false_2 (_ = PENDING)) by done. cbn [andb].
    by rewrite find_enrollment_update, Hf. }
  eapply commit_approval_Ret in Hcom as (expiry & claim & Htab & _ & Hrec & _); [|exact Hf3].
  rewrite Hrec. split_and!; [done..|]. rewrite Htab. cbn [agents with_enrollments with_agent_rows].
  rewrite stamped_find, enrolled_find. destruct claim; (eexists; split; [reflexivity|]);
    by destruct (find_row (canonical_id mgr (p_agent_id a)) (agents (s_tables s2))).
Qed.

(** *** The life of a record *)

(** The steps of the service: its calls in their transactions, and whatever
    leaves [pending_enrollments] alone. *)
Inductive enrollment_step (E : registry_env) (s : registry_state) : registry_state → Prop :=
| step_start now sid q :
    enrollment_step E s (snd (transaction (statement_fails E) (start_enrollment E now sid q) s))
| step_read now sid : enrollment_step E s (snd (transaction (statement_fails E) (get_record E now sid) s))
| step_list now : enrollment_step E s (snd (transaction (statement_fails E) (list_pending E now) s))
| step_sweep now : enrollment_step E s (snd (transaction (statement_fails E) (sweep_expired E now) s))
| step_approve ck serial auto mgr sid a :
    enrollment_step E s (snd (transaction (statement_fails E) (approve E ck serial auto mgr sid a) s))
| step_reject t1 t2 t3 sid reason admin :
    enrollment_step E s (snd (transaction (statement_fails E) (reject E t1 t2 t3 sid reason admin) s))
| step_elsewhere s' :
    pending_enrollments (s_tables s') = pending_enrollments (s_tables s) → enrollment_step E s s'.

(** The requester proved that it holds the private half of the key. *)
Definition possessed (r : enrollment) : Prop :=
  _pubkey_fingerprint (e_pubkey_pem r) = Ret (e_pubkey_fingerprint r) ∧
  ∃ signature, _verify_pop_signature (e_pubkey_pem r) (e_pubkey_fingerprint r) signature = true.

Definition registered (l : list enrollment) : Prop :=
  NoDup (e_session_id <$> l) ∧ Forall possessed l.

(** A decided record stays as it is; a pending one keeps what was proven. *)
Definition continues (r r' : enrollment) : Prop :=
  (e_status r ≠ PENDING → r' = r) ∧
  e_session_id r' = e_session_id r ∧ e_pubkey_pem r' = e_pubkey_pem r ∧
  e_pubkey_fingerprint r' = e_pubkey_fingerprint r.

Definition advances (l l' : list enrollment) : Prop :=
  ∃ f new, l' = map f l ++ new ∧ ∀ r, r ∈ l → continues r (f r).

Lemma advances_refl l : advances l l.
Proof.
  exists (λ r, r), []. rewrite map_id, app_nil_r. split; [done|]. by intros r _.
Qed.

Lemma advances_update p f l :
  (∀ r, r ∈ l → p r = true → e_status r = PENDING) → (∀ r, e_session_id (f r) = e_session_id r) →
  (∀ r, e_pubkey_pem (f r) = e_pubkey_pem r) → (∀ r, e_pubkey_fingerprint (f r) = e_pubkey_fingerprint r) →
  advances l (update_rows p f l).
Proof.
  intros Hp Hs Hk Hf. exists (λ r, if p r then f r else r), []. rewrite app_nil_r. split; [done|].
  intros r Hr. unfold continues. destruct (p r) eqn:Hpr; [|done]. rewrite Hs, Hk, Hf. split; [|done].
  by intros []; apply Hp.
Qed.

(** A session of which one record is pending has no other. *)
Lemma session_pending sid l r0 :
  NoDup (e_session_id <$> l) → find_by e_session_id sid l = Some r0 → e_status r0 = PENDING →
  ∀ r, r ∈ l → session sid r = true → e_status r = PENDING.
Proof.
  intros Hd Hf Hp r Hr Hs%bool_decide_eq_true_1. rewrite (find_by_unique _ sid l r) in Hf by done. congruence.
Qed.

Lemma read_advances sid r t :
  NoDup (e_session_id <$> pending_enrollments t) →
  advances (pending_enrollments t) (pending_enrollments (read_tables sid r t)).
Proof.
  intros Hd. unfold read_tables. destruct (find_enrollment sid t) as [r0|] eqn:Hf; [|apply advances_refl].
  destruct (bool_decide (e_status r0 = PENDING)) eqn:Hp; [|apply advances_refl].
  apply bool_decide_eq_true_1 in Hp. case_bool_decide; cbn [andb]; [|apply advances_refl].
  apply advances_update; [|done..]. by eapply session_pending.
Qed.

Lemma lapsed_advances text l : advances l (update_rows (lapsed text) (with_status EXPIRED) l).
Proof.
  apply advances_update; [|done..]. intros r _ [Hp _]%andb_true_iff. by apply bool_decide_eq_true_1 in Hp.
Qed.

Lemma continues_trans r r1 r2 : continues r r1 → continues r1 r2 → continues r r2.
Proof.
  intros (Hd1 & Hs1 & Hp1 & Hf1) (Hd2 & Hs2 & Hp2 & Hf2). split_and!; try congruence.
  intros Hd. specialize (Hd1 Hd). subst r1. by apply Hd2.
Qed.

Lemma advances_trans l l1 l2 : advances l l1 → advances l1 l2 → advances l l2.
Proof.
  intros (f & new & -> & Hf) (g & new' & -> & Hg).
  exists (λ r, g (f r)), (map g new ++ new'). rewrite map_app, map_map, <- app_assoc. split; [done|].
  intros r Hr. eapply continues_trans; [by apply Hf|]. apply Hg, elem_of_app. left.
  apply list_elem_of_fmap. by exists r.
Qed.

Lemma advances_append l r : advances l (l ++ [r]).
Proof. exists (λ r, r), [r]. rewrite map_id. split; [done|]. by intros r' _. Qed.

(** The decided record of [sid] in place of its pending one. *)
Lemma decided_advances sid f t r0 :
  NoDup (e_session_id <$> pending_enrollments t) → find_enrollment sid t = Some r0 → e_status r0 = PENDING →
  (∀ r, e_session_id (f r) = e_session_id r) → (∀ r, e_pubkey_pem (f r) = e_pubkey_pem r) →
  (∀ r, e_pubkey_fingerprint (f r) = e_pubkey_fingerprint r) →
  advances (pending_enrollments t) (update_rows (session sid) f (pending_enrollments t)).
Proof. intros Hd Hf Hp Hs Hk Hfp. apply advances_update; [|done..]. by eapply session_pending. Qed.

Lemma reject_advances E t1 t2 t3 sid reason admin s r s' :
  NoDup (e_session_id <$> pending_enrollments (s_tables s)) →
  reject E t1 t2 t3 sid reason admin s = (Ret r, s') →
  advances (pending_enrollments (s_tables s)) (pending_enrollments (s_tables s')).
Proof.
  intros Hd Hrej. apply bind_Ret in Hrej as (r1 & s1 & Hget & Hrej).
  apply get_record_Ret in Hget as (r0 & Hf & Ht & _ & Hr).
  destruct (bool_decide (e_status r1 = PENDING)) eqn:Hp; [|done]. apply bool_decide_eq_true_1 in Hp.
  cbn [negb] in Hrej. apply bind_Ret in Hrej as (n & s2 & ->%update_enrollments_Ret & Hrej).
  apply get_record_Ret in Hrej as (r2 & Hf2 & Ht2 & _ & Hr2).
  assert (e_status r0 = PENDING) as Hp0.
  { destruct (decide (e_status r0 = PENDING)) as [|Hn]; [done|].
    rewrite bool_decide_eq_false_2 in Hr by done. congruence. }
  assert (s_tables s1 = s_tables s) as Ht1
    by (rewrite Ht; unfold read_tables; rewrite Hf, Hp, (bool_decide_eq_false_2 (PENDING = EXPIRED)), andb_false_r; done).
  cbn [s_tables with_tables] in *. rewrite Ht1 in *. rewrite Ht2.
  assert (read_tables sid r (with_enrollments
    (update_rows (session sid) (rejected_record (seconds_text t2) admin reason) (pending_enrollments (s_tables s)))
    (s_tables s)) = with_enrollments
    (update_rows (session sid) (rejected_record (seconds_text t2) admin reason) (pending_enrollments (s_tables s)))
    (s_tables s)) as ->.
  { unfold read_tables. rewrite find_enrollment_update, Hf by done. cbn [fmap option_fmap option_map].
    by rewrite (bool_decide_eq_false_2 (e_status (rejected_record _ _ _ _) = PENDING)). }
  by eapply decided_advances.
Qed.

Lemma approve_advances E ck serial auto mgr sid a s ap s' :
  NoDup (e_session_id <$> pending_enrollments (s_tables s)) →
  approve E ck serial auto mgr sid a s = (Ret ap, s') →
  advances (pending_enrollments (s_tables s)) (pending_enrollments (s_tables s')).
Proof.
  intros Hd Ha. apply approve_Ret in Ha as (record & cert & expiry & claim & Hf & Hp & _ & Ht & _ & _ & _).
  rewrite Ht. cbn [pending_enrollments with_enrollments]. by eapply decided_advances.
Qed.

Lemma tpm_tables now q s o s' :
  _verify_tpm_attestation now q s = (Ret o, s') → s_tables s' = s_tables s.
Proof.
  unfold _verify_tpm_attestation. destruct (_ && _); [by intros [= _ <-]|]. destruct (xorb _ _); [done|].
  intros Hb. apply bind_Ret in Hb as (nonce & s1 & Hn & Hb).
  assert (s_tables s1 = s_tables s) as <-.
  { unfold on_nonces in Hn. destruct (consume_nonce _ _ _). by injection Hn as _ <-. }
  destruct nonce as [nonce|]; [|done]. destruct (urlsafe_b64decode _) as [blob|]; [|done].
  apply bind_Ret in Hb as ([valid claim] & s2 & Hl & Hb). injection Hl as _ <-.
  destruct valid; [by injection Hb as _ <-|done].
Qed.

Lemma start_Ret E now sid q s st s' :
  start_enrollment E now sid q s = (Ret st, s') →
  ∃ fingerprint jkt attestation,
    existsb (session sid) (pending_enrollments (s_tables s)) = false ∧
    possessed (new_enrollment now sid fingerprint jkt attestation q) ∧
    pending_enrollments (s_tables s')
      = pending_enrollments (s_tables s) ++ [new_enrollment now sid fingerprint jkt attestation q].
Proof.
  intros Hs. apply bind_Ret in Hs as (jkt & s1 & Hj & Hs). injection Hj as _ <-.
  apply bind_Ret in Hs as (fingerprint & s2 & Hfp & Hs). injection Hfp as Hfp <-.
  destruct (bool_decide (q_pop_signature q = "")); [done|].
  destruct (_verify_pop_signature _ _ _) eqn:Hpop; [|done]. cbn [negb] in Hs.
  apply bind_Ret in Hs as (att & s3 & Ht%tpm_tables & Hs).
  apply bind_Ret in Hs as (expires & s4 & He & Hs). injection He as _ <-.
  destruct (bool_decide (q_principal_type q ∈ _)); [|done]. cbn [negb] in Hs.
  apply bind_Ret in Hs as ([] & s5 & Hins & Hs). injection Hs as _ <-.
  apply statement_Ret in Hins. cbn in Hins. destruct (existsb _ _) eqn:Hx; [done|]. injection Hins as <-.
  exists fingerprint, jkt, att. cbn in Hx |- *. rewrite Ht in *. split_and!; [done| |done].
  split; [exact Hfp|]. by exists (q_pop_signature q).
Qed.

Lemma transaction_after {A} E (m : M registry_state A) s (P : list enrollment → Prop) :
  P (pending_enrollments (s_tables s)) →
  (∀ a s', m s = (Ret a, s') → P (pending_enrollments (s_tables s'))) →
  P (pending_enrollments (s_tables (snd (transaction (statement_fails E) m s)))).
Proof.
  intros Hkept Hdone. unfold transaction. destruct (m s) as [[a|e] s1] eqn:Hm; [|done].
  unfold statement. destruct (statement_fails E _); [done|]. exact (Hdone a s1 eq_refl).
Qed.

Lemma step_advances E s s' :
  registered (pending_enrollments (s_tables s)) → enrollment_step E s s' →
  advances (pending_enrollments (s_tables s)) (pending_enrollments (s_tables s')).
Proof.
  intros [Hd _] Hstep. destruct Hstep as
    [now sid q|now sid|now|now|ck serial auto mgr sid a|t1 t2 t3 sid reason admin|s' Heq];
    try (apply (transaction_after E _ s (advances (pending_enrollments (s_tables s))));
      [apply advances_refl|intros x s1 Hx]).
  - apply start_Ret in Hx as (f & j & att & _ & _ & ->). apply advances_append.
  - apply get_record_Ret in Hx as (r0 & _ & -> & _). by apply read_advances.
  - apply bind_Ret in Hx as (n & s2 & ->%update_enrollments_Ret & Hx). apply select_Ret in Hx as [_ ->].
    apply lapsed_advances.
  - apply update_enrollments_Ret in Hx as ->. apply lapsed_advances.
  - by eapply approve_advances.
  - by eapply reject_advances.
  - rewrite Heq. apply advances_refl.
Qed.

Lemma continues_keys l f :
  (∀ r, r ∈ l → continues r (f r)) → e_session_id <$> map f l = e_session_id <$> l.
Proof.
  induction l as [|r l IH]; intros Hf; [done|]. cbn. destruct (Hf r) as (_ & Hs & _ & _); [by left|].
  f_equal; [exact Hs|]. apply IH. intros r' Hr'. apply Hf. by right.
Qed.

Lemma continues_possessed r r' : continues r r' → possessed r → possessed r'.
Proof. intros (_ & _ & Hk & Hf). unfold possessed. by rewrite Hk, Hf. Qed.

Lemma updated_registered l f : (∀ r, r ∈ l → continues r (f r)) → registered l → registered (map f l).
Proof.
  intros Hf [Hd Hp]. split; [by rewrite continues_keys|].
  rewrite Forall_forall in Hp |- *. intros r' Hr'. change (map f l) with (f <$> l) in Hr'.
  apply list_elem_of_fmap in Hr' as (r & -> & Hr). eapply continues_possessed; [by apply Hf|by apply Hp].
Qed.

(** An update keeps the table registered. *)
Lemma rows_registered p f l :
  (∀ r, e_session_id (f r) = e_session_id r) → (∀ r, e_pubkey_pem (f r) = e_pubkey_pem r) →
  (∀ r, e_pubkey_fingerprint (f r) = e_pubkey_fingerprint r) → registered l → registered (update_rows p f l).
Proof.
  intros Hs Hk Hf [Hd Hp]. split; [by rewrite update_rows_keys|].
  rewrite Forall_forall in Hp |- *. intros r Hr.
  eapply elem_of_update_rows in Hr as (b & Hb & ->). specialize (Hp b Hb).
  destruct (p b); [|done]. unfold possessed. by rewrite Hk, Hf.
Qed.

Lemma appended_registered l r :
  existsb (session (e_session_id r)) l = false → possessed r → registered l → registered (l ++ [r]).
Proof.
  intros Hx Hr [Hd Hp]. split.
  - rewrite fmap_app. apply NoDup_app. split; [done|]. split; [|apply NoDup_singleton].
    intros sid Hin ->%list_elem_of_singleton. apply list_elem_of_fmap in Hin as (r' & Hk & Hin).
    apply not_true_iff_false in Hx. apply Hx, existsb_exists. exists r'. split; [by apply list_elem_of_In|].
    unfold session. by rewrite Hk, bool_decide_eq_true_2.
  - apply Forall_app. split; [done|]. apply Forall_cons. done.
Qed.

Lemma step_registered E s s' :
  registered (pending_enrollments (s_tables s)) → enrollment_step E s s' →
  registered (pending_enrollments (s_tables s')).
Proof.
  intros Hreg Hstep. destruct Hstep as
    [now sid q|now sid|now|now|ck serial auto mgr sid a|t1 t2 t3 sid reason admin|s' Heq];
    try (apply (transaction_after E _ s registered); [exact Hreg|intros x s1 Hx]).
  - apply start_Ret in Hx as (f & j & att & Hnew & Hp & ->). by apply appended_registered.
  - apply get_record_Ret in Hx as (r0 & _ & -> & _). unfold read_tables.
    destruct (find_enrollment sid _); [|done]. destruct (_ && _); [|done]. by apply rows_registered.
  - apply bind_Ret in Hx as (n & s2 & ->%update_enrollments_Ret & Hx). apply select_Ret in Hx as [_ ->].
    by apply rows_registered.
  - apply update_enrollments_Ret in Hx as ->. by apply rows_registered.
  - apply approve_Ret in Hx as (record & cert & expiry & claim & _ & _ & _ & -> & _). by apply rows_registered.
  - apply bind_Ret in Hx as (r1 & s2 & Hget & Hx). apply get_record_Ret in Hget as (r0 & _ & Ht & _).
    destruct (bool_decide (e_status r1 = PENDING)); [|done]. cbn [negb] in Hx.
    apply bind_Ret in Hx as (n & s3 & ->%update_enrollments_Ret & Hx).
    apply get_record_Ret in Hx as (r2 & _ & -> & _). cbn [s_tables with_tables].
    assert (registered (pending_enrollments (s_tables s2))) as Hreg2.
    { rewrite Ht. unfold read_tables. destruct (find_enrollment sid _); [|done]. destruct (_ && _); [|done].
      by apply rows_registered. }
    unfold read_tables. destruct (find_enrollment sid _); [|by apply rows_registered].
    destruct (_ && _); by repeat apply rows_registered.
  - by rewrite Heq.
Qed.

(** *** Calls that overlap

    A decision reads the record first and writes by the session alone
    afterwards, and so does the lazy expiry; in between other calls of the
    service run.  The second component holds the sessions of the calls that
    have read a pending record and not written yet. *)
Inductive desk_step (E : registry_env) : registry_state * list string → registry_state * list string → Prop :=
| desk_call s s' fl : enrollment_step E s s' → desk_step E (s, fl) (s', fl)
| desk_reads s fl sid record :
    find_enrollment sid (s_tables s) = Some record → e_status record = PENDING → desk_step E (s, fl) (s, sid :: fl)
| desk_approves s fl fl' sid ck auto mgr cert a record :
    desk_step E (s, fl ++ sid :: fl')
      (snd (transaction (statement_fails E) (commit_approval E ck auto mgr sid cert a record) s), fl ++ fl')
| desk_rejects s fl fl' sid now again reason admin :
    desk_step E (s, fl ++ sid :: fl')
      (snd (transaction (statement_fails E) (commit_rejection E now again sid reason admin) s), fl ++ fl')
| desk_expires s fl fl' sid :
    desk_step E (s, fl ++ sid :: fl')
      (snd (transaction (statement_fails E) (update_enrollments E (session sid) (with_status EXPIRED)) s), fl ++ fl')
| desk_gives_up s fl fl' sid : desk_step E (s, fl ++ sid :: fl') (s, fl ++ fl').

(** As [continues], for a record that no call under way has read as pending. *)
Definition stays (fl : list string) (r r' : enrollment) : Prop :=
  (e_status r ≠ PENDING → e_session_id r ∉ fl → r' = r) ∧
  e_session_id r' = e_session_id r ∧ e_pubkey_pem r' = e_pubkey_pem r ∧
  e_pubkey_fingerprint r' = e_pubkey_fingerprint r.

(** What one step does to the rows, and to those that may still be written. *)
Definition desk_moves (l : list enrollment) (fl : list string) (l' : list enrollment) (fl' : list string) : Prop :=
  registered l' ∧ ∀ r, r ∈ l → ∃ r', r' ∈ l' ∧ stays fl r r' ∧
    (e_status r ≠ PENDING → e_session_id r ∉ fl → e_session_id r ∉ fl').

Lemma session_moves p f l fl fl' sid :
  registered l → (∀ r, p r = true → e_session_id r = sid) → (∀ r, e_session_id (f r) = e_session_id r) →
  (∀ r, e_pubkey_pem (f r) = e_pubkey_pem r) → (∀ r, e_pubkey_fingerprint (f r) = e_pubkey_fingerprint r) →
  desk_moves l (fl ++ sid :: fl') (update_rows p f l) (fl ++ fl').
Proof.
  intros Hreg Hp Hs Hk Hf. split; [by apply rows_registered|]. intros r Hr.
  exists (if p r then f r else r). split; [by apply list_elem_of_In, (in_map (λ a, if p a then f a else a)), list_elem_of_In|].
  assert (e_session_id r ∉ fl ++ sid :: fl' → e_session_id r ≠ sid ∧ e_session_id r ∉ fl ++ fl') as Hout
    by (rewrite !elem_of_app, elem_of_cons; tauto).
  split; [|by intros _ Ho; apply Hout].
  destruct (p r) eqn:Hpr; [|by split_and!]. split_and!; [|done..]. intros _ [Hne _]%Hout. by destruct Hne; apply Hp.
Qed.

Lemma moves_same l fl fl' : registered l → fl' ⊆ fl → desk_moves l fl l fl'.
Proof. intros Hreg Hsub. split; [done|]. intros r Hr. exists r. split_and!; [done|by split_and!|]. intros _ Hn Hin. by apply Hn, Hsub. Qed.

Lemma commit_rejection_rows E now again sid reason admin s r s' :
  commit_rejection E now again sid reason admin s = (Ret r, s') →
  pending_enrollments (s_tables s')
  = update_rows (session sid) (rejected_record (seconds_text now) admin reason) (pending_enrollments (s_tables s)).
Proof.
  intros Hc. apply bind_Ret in Hc as (n & s1 & ->%update_enrollments_Ret & Hc).
  apply get_record_Ret in Hc as (r0 & Hf & -> & _). unfold read_tables. rewrite Hf.
  cbn [s_tables with_tables pending_enrollments with_enrollments] in *.
  rewrite find_enrollment_update in Hf by done. destruct (find_enrollment sid _); [|done]. by injection Hf as <-.
Qed.

Lemma commit_approval_rows E ck auto mgr sid cert a record s ap s' :
  commit_approval E ck auto mgr sid cert a record s = (Ret ap, s') →
  pending_enrollments (s_tables s')
  = update_rows (session sid) (approved_record (seconds_text (decided_at ck)) (canonical_id mgr (p_agent_id a)) a cert)
      (pending_enrollments (s_tables s)).
Proof.
  intros Hc. destruct (find_enrollment sid (s_tables s)) as [found|] eqn:Hf.
  - by eapply commit_approval_Ret in Hc as (expiry & claim & -> & _); [|exact Hf].
  - exfalso. unfold commit_approval in Hc. apply bind_Ret in Hc as (n & s1 & ->%update_enrollments_Ret & Hc).
    apply bind_Ret in Hc as (evs & s2 & He & Hc). apply enroll_agent_Ret in He as (expiry & [Ht2 _] & _).
    apply bind_Ret in Hc as ([] & s3 & Hst & Hc). apply bind_Ret in Hc as (r & s5 & Hg & _).
    apply get_record_Ret in Hg as (r0 & Hf0 & _). revert Hf0.
    enough (find_enrollment sid (s_tables s3) = None) as -> by done.
    assert (∃ claim, only_agents (stamped claim (canonical_id mgr (p_agent_id a))) s2 s3) as (claim & -> & _).
    { destruct (stamp_frame E (stamped_at ck) (canonical_id mgr (p_agent_id a)) (e_device_info record) sid s2) as [claim Hcl].
      exists claim. unfold catch, bind in Hst.
      destruct (stamp_attestation_on_enrollment _ _ _ _ _ s2) as [[x|e] s4]; injection Hst as <-; exact Hcl. }
    rewrite Ht2. change (find_enrollment sid (with_enrollments (update_rows (session sid)
      (approved_record (seconds_text (decided_at ck)) (canonical_id mgr (p_agent_id a)) a cert)
      (pending_enrollments (s_tables s))) (s_tables s)) = None).
    by rewrite find_enrollment_update, Hf by done.
Qed.

Lemma desk_moved E s fl s' fl' :
  registered (pending_enrollments (s_tables s)) → desk_step E (s, fl) (s', fl') →
  desk_moves (pending_enrollments (s_tables s)) fl (pending_enrollments (s_tables s')) fl'.
Proof.
  intros Hreg Hstep. inversion Hstep as [? ? ? Hcall|? ? sid record Hf Hp|? fl1 fl2 sid ck auto mgr cert a record
    |? fl1 fl2 sid now again reason admin|? fl1 fl2 sid|? fl1 fl2 sid]; subst.
  - split; [by eapply step_registered|]. intros r Hr.
    destruct (step_advances E s s' Hreg Hcall) as (f & new & -> & Hf). exists (f r).
    split; [apply elem_of_app; left; apply list_elem_of_fmap; by exists r|]. split; [|done].
    destruct (Hf r Hr) as (Hd & Hsame). split; [by intros Hst _; apply Hd|done].
  - split; [done|]. intros r Hr. exists r. split_and!; [done|by split_and!|]. intros Hd Hn [Heq|?]%elem_of_cons; [|done].
    apply Hd. eapply session_pending; [by apply Hreg|exact Hf|done|done|by apply bool_decide_eq_true_2].
  - apply (transaction_after E _ s (λ l, desk_moves _ (fl1 ++ sid :: fl2) l (fl1 ++ fl2))).
    + apply moves_same; [done|set_solver].
    + intros ap s1 ->%commit_approval_rows. by apply (session_moves _ _ _ _ _ sid); [|intros r Hr%bool_decide_eq_true_1|..].
  - apply (transaction_after E _ s (λ l, desk_moves _ (fl1 ++ sid :: fl2) l (fl1 ++ fl2))).
    + apply moves_same; [done|set_solver].
    + intros r1 s1 ->%commit_rejection_rows. by apply (session_moves _ _ _ _ _ sid); [|intros r Hr%bool_decide_eq_true_1|..].
  - apply (transaction_after E _ s (λ l, desk_moves _ (fl1 ++ sid :: fl2) l (fl1 ++ fl2))).
    + apply moves_same; [done|set_solver].
    + intros n s1 ->%update_enrollments_Ret. by apply (session_moves _ _ _ _ _ sid); [|intros r Hr%bool_decide_eq_true_1|..].
  - apply moves_same; [done|set_solver].
Qed.

(** C20: however the calls of the service overlap, each reading the record,
    deciding and writing by the session later, and whatever else leaves the
    table alone: every record of [pending_enrollments] is for a key whose
    holder proved to have it, sessions stay unique and a record keeps its key;
    and a record that is approved, rejected or expired never changes again,
    unless a call that read it while it was pending has still to write. *)
Theorem decisions_final (E : registry_env) (s s' : registry_state) (fl fl' : list string) :
  registered (pending_enrollments (s_tables s)) → rtc (desk_step E) (s, fl) (s', fl') →
  registered (pending_enrollments (s_tables s')) ∧
  ∀ r, r ∈ pending_enrollments (s_tables s) →
    ∃ r', r' ∈ pending_enrollments (s_tables s') ∧ e_session_id r' = e_session_id r ∧
      e_pubkey_pem r' = e_pubkey_pem r ∧ e_pubkey_fingerprint r' = e_pubkey_fingerprint r ∧
      (e_status r ≠ PENDING → e_session_id r ∉ fl → r' = r).
Proof.
  intros Hreg Hrun. remember (s, fl) as a. remember (s', fl') as b.
  revert s fl Heqa Hreg. induction Hrun as [x|x [s1 fl1] y Hstep Hrun IH]; intros s fl -> Hreg.
  - injection Heqb as -> ->. split; [done|]. intros r Hr. by exists r.
  - destruct (desk_moved E s fl s1 fl1 Hreg Hstep) as [Hreg1 Hmove].
    destruct (IH Heqb s1 fl1 eq_refl Hreg1) as [Hreg' Hkeep]. split; [done|]. intros r Hr.
    destruct (Hmove r Hr) as (r1 & Hr1 & (Hsame & Hs1 & Hk1 & Hf1) & Hfl).
    destruct (Hkeep r1 Hr1) as (r' & Hr' & Hs' & Hk' & Hf' & Hd'). exists r'. split_and!; [done|congruence..|].
    intros Hd Hn. specialize (Hsame Hd Hn). subst r1. by apply Hd', Hfl.
Qed.

End Decisions.

(** ** Who may read a decision *)

Section Disclosure.
Context `{Hash} `{FromIso} `{Cryptography} `{ReplayGuard} `{ZuluTime} `{DpopRuntime} `{!CertificateBuilder}.
Context (E : registry_env).

(** The columns that anyone with the session id may learn of. *)
Definition same_outside (r1 r2 : enrollment) : Prop :=
  e_session_id r1 = e_session_id r2 ∧ e_pubkey_pem r1 = e_pubkey_pem r2 ∧
  e_status r1 = e_status r2 ∧ e_expires_at r1 = e_expires_at r2.

(** Two processes at the same statement, which hold twin records. *)
Definition twins (sid : string) (s1 s2 : registry_state) : Prop :=
  s_statements s1 = s_statements s2 ∧ rates (s_memory s1) = rates (s_memory s2) ∧
  match find_enrollment sid (s_tables s1), find_enrollment sid (s_tables s2) with
  | Some r1, Some r2 => same_outside r1 r2
  | None, None => True
  | _, _ => False
  end.

Definition alike {A B} (R : A → B → Prop) (x : outcome A * registry_state) (y : outcome B * registry_state) : Prop :=
  match x, y with
  | (Ret a, s1), (Ret b, s2) => R a b ∧ s_statements s1 = s_statements s2
  | (Raise e1, _), (Raise e2, _) => e1 = e2
  | _, _ => False
  end.

Lemma statement_alike {A B} (R : A → B → Prop) m n s1 s2 :
  s_statements s1 = s_statements s2 → alike R (m (issued s1)) (n (issued s2)) →
  alike R (statement (statement_fails E) m s1) (statement (statement_fails E) n s2).
Proof.
  intros Hs Hmn. unfold statement. cbn [statements registry_transactional]. rewrite Hs.
  by destruct (statement_fails E _).
Qed.

Lemma bind_alike {A B A' B'} (R : A → B → Prop) (R' : A' → B' → Prop) m n (f : A → M registry_state A')
    (g : B → M registry_state B') s1 s2 :
  alike R (m s1) (n s2) →
  (∀ a b t1 t2, R a b → s_statements t1 = s_statements t2 → alike R' (f a t1) (g b t2)) →
  alike R' (bind m f s1) (bind n g s2).
Proof.
  intros Hmn Hfg. unfold bind, alike in *.
  destruct (m s1) as [[a|e] t1], (n s2) as [[b|e'] t2]; try done.
  destruct Hmn. by apply Hfg.
Qed.

Lemma transaction_alike {A B} (R : A → B → Prop) m n s1 s2 :
  alike R (m s1) (n s2) →
  alike R (transaction (statement_fails E) m s1) (transaction (statement_fails E) n s2).
Proof.
  intros Hmn. unfold transaction. unfold alike in Hmn |- *.
  destruct (m s1) as [[a|e] t1], (n s2) as [[b|e'] t2]; try done.
  destruct Hmn as [HR Hst]. unfold statement. cbn [statements registry_transactional]. rewrite Hst.
  destruct (statement_fails E _); [done|]. cbn. by rewrite Hst.
Qed.

Lemma get_record_alike now sid s1 s2 :
  twins sid s1 s2 → alike same_outside (get_record E now sid s1) (get_record E now sid s2).
Proof.
  intros (Hst & _ & Hf). unfold get_record.
  apply (bind_alike (λ o1 o2 : option enrollment, match o1, o2 with
    | Some r1, Some r2 => same_outside r1 r2 | None, None => True | _, _ => False end)).
  - apply statement_alike; [done|]. split; [exact Hf|]. cbn. by rewrite Hst.
  - intros [r1|] [r2|] t1 t2 Hr Ht; try done. destruct Hr as (Hi & Hk & Hs & He). rewrite <- Hs.
    destruct (bool_decide (e_status r1 = PENDING)) eqn:Hp; [|by split].
    apply (bind_alike eq).
    + unfold lift, record_expired. rewrite He. destruct (from_iso _) as [[[] x]|]; by split.
    + intros b ? u1 u2 <- Hu. destruct b; [|by split].
      apply (bind_alike (λ _ _, True)).
      * apply statement_alike; [done|]. split; [done|]. cbn. by rewrite Hu.
      * intros ? ? v1 v2 _ Hv. by split.
Qed.

Lemma has_proof_alike sid proof r1 r2 :
  same_outside r1 r2 → has_valid_proof sid proof r1 = has_valid_proof sid proof r2.
Proof. intros (_ & Hk & _). unfold has_valid_proof. by rewrite Hk. Qed.

(** whoever cannot sign for the key of a request learns nothing of the
    decision but its kind: two databases whose records agree on the session,
    the key, the status and the deadline give every poll without a valid proof
    the same answer, whatever certificate, agent, capabilities or reason they
    hold. *)
Theorem decision_hidden (mono now : Z) (client_ip sid proof : string) (s1 s2 : registry_state) :
  twins sid s1 s2 →
  (∀ r, find_enrollment sid (s_tables s1) = Some r → has_valid_proof sid proof r = false) →
  fst (enrollment_status_endpoint E mono now client_ip sid proof s1)
  = fst (enrollment_status_endpoint E mono now client_ip sid proof s2).
Proof.
  intros Htwins Hno. unfold enrollment_status_endpoint, limited, check_rate, bind at 1 3.
  pose proof Htwins as (Hst & Hrates & Hf). rewrite <- Hrates.
  destruct (check _ _ _ _) as [[] w]; [|done].
  set (u1 := with_memory _ s1). set (u2 := with_memory _ s2).
  assert (alike same_outside (get_record E now sid u1) (get_record E now sid u2)) as Hg.
  { apply get_record_alike. subst u1 u2. split; [done|]. split; [done|]. exact Hf. }
  pose proof (transaction_alike same_outside _ _ _ _ Hg) as Ht.
  assert (∀ r s', transaction (statement_fails E) (get_record E now sid) u1 = (Ret r, s') →
            has_valid_proof sid proof r = false) as Hnone.
  { intros r s' Hr. apply transaction_Ret in Hr as (s3 & Hr & _). apply get_record_Ret in Hr as (r0 & Hf0 & _ & _ & Hr).
    assert (has_valid_proof sid proof r0 = false) as Hv by (by apply Hno).
    destruct (bool_decide (e_status r0 = PENDING)); [|by subst]. destruct Hr as ([] & _ & ->); done. }
  unfold bind, served, catch. unfold alike in Ht.
  destruct (transaction _ _ u1) as [[r1|e1] v1], (transaction _ _ u2) as [[r2|e2] v2]; try done.
  - destruct Ht as [Hr _]. specialize (Hnone r1 v1 eq_refl). unfold lift, status_response.
    rewrite <- (has_proof_alike sid proof r1 r2), Hnone by done.
    destruct Hr as (Hi & _ & Hs & _). rewrite <- Hs, <- Hi. by destruct (e_status r1).
  - by subst.
Qed.

End Disclosure.

(** ** The nonce of a quote *)

Section Quotes.
Context `{Hash} `{Cryptography}.

(** The signature covers the body of the quote and not the nonce of the
    envelope: a captured quote put in an envelope with a fresh nonce verifies
    as it did before. *)
Theorem quote_nonce_unsigned (blob blob' nonce nonce' quote sig pem : string) (manufacturer : option string)
    (ek_cert_present : bool) :
  _unpack_envelope blob = Ret (nonce, quote, sig) → _unpack_envelope blob' = Ret (nonce', quote, sig) →
  verify_tpm_quote blob' pem nonce' manufacturer ek_cert_present
  = verify_tpm_quote blob pem nonce manufacturer ek_cert_present.
Proof. intros Hb Hb'. unfold verify_tpm_quote. rewrite Hb, Hb'. by rewrite !bool_decide_eq_true_2. Qed.

End Quotes.

(** ** Approvals in the audit trail *)

#[export] Instance sound_stable `{Hash} `{ReplayGuard} : Stable (sound (S := registry_state)).
Proof. by split. Qed.

Section Recorded.
Context `{Hash} `{FromIso} `{Cryptography} `{ReplayGuard} `{ZuluTime} `{DpopRuntime} `{!CertificateBuilder}.
Context (E : registry_env).

Lemma sound_select {A} (f : tables → A) : preserves sound (select E f).
Proof. apply preserves_statement; [apply _|]. apply preserves_gets. Qed.
Lemma sound_update_agents p f : preserves sound (update_agents E p f).
Proof. apply preserves_statement; [apply _|]. by intros s Hs. Qed.
Lemma sound_insert_agent r : preserves sound (insert_agent E r).
Proof. apply preserves_statement; [apply _|]. intros s Hs. cbn. by destruct (existsb _ _). Qed.
Lemma sound_update_enrollments p f : preserves sound (update_enrollments E p f).
Proof. apply preserves_statement; [apply _|]. by intros s Hs. Qed.
Lemma sound_insert_row r : chain_seq r = None → preserves sound (insert_audit_row E r).
Proof.
  intros Hr. apply preserves_statement; [apply _|]. apply preserves_modify. intros s. by apply unchained_chain.
Qed.

#[local] Hint Resolve sound_select sound_update_agents sound_insert_agent sound_update_enrollments : preserved.

Lemma sound_get_record now sid : preserves sound (get_record E now sid).
Proof.
  apply preserves_bind; [auto with preserved|]. intros [r|]; [|auto with preserved].
  apply preserves_if; auto 10 with preserved.
Qed.

Lemma sound_stamp now agent info sid : preserves sound (stamp_attestation_on_enrollment E now agent info sid).
Proof.
  assert (∀ h p, preserves sound (by_hint E h p)) as Hh by (intros [v|] p; cbn; auto with preserved).
  apply preserves_bind.
  - apply preserves_catch; [|auto with preserved]. unfold _lookup_device_row.
    apply preserves_bind; [done|]. intros [d|]; [auto with preserved|].
    apply preserves_bind; [done|]. intros [d|]; auto with preserved.
  - intros [d|]; [|auto with preserved]. apply preserves_bind; [auto with preserved|]. intros claim.
    apply preserves_bind; [auto 10 with preserved|]. intros stored.
    apply preserves_if; [|auto with preserved]. apply preserves_bind; [auto with preserved|]. intros text.
    apply preserves_bind; [|auto with preserved]. apply preserves_catch; [by apply sound_insert_row|auto with preserved].
Qed.

Lemma sound_enroll_agent ck sid canonical spiffe cert a record :
  preserves sound (enroll_agent E ck sid canonical spiffe cert a record).
Proof.
  apply preserves_bind; [auto with preserved|]. intros existing. apply preserves_if; auto 12 with preserved.
Qed.

#[local] Hint Resolve sound_get_record sound_stamp sound_enroll_agent : preserved.

Lemma sound_approve ck serial auto mgr sid a : preserves sound (approve E ck serial auto mgr sid a).
Proof.
  apply preserves_bind; [auto with preserved|]. intros record.
  apply preserves_if; [auto with preserved|]. apply preserves_if; [auto with preserved|].
  apply preserves_bind; [auto with preserved|]. intros cert. unfold commit_approval. auto 20 with preserved.
Qed.

(** with a trail nobody else disturbs, an approval answered to the
    administrator is in it: [agent.create] for an agent the registry did not
    have, [agent.cert_rotated] with the deadline of the old credentials for
    one it had. *)
Theorem approvals_recorded (session : dashboard_session) (csrf : string) (mgr : AgentManager)
    (ck : approval_clock) (serial : Z) (auto : bool) (sid id : string) (caps groups : list string)
    (s s' : registry_state) (answer : string) :
  polite (auditing_of E) → fail_deny (auditing_of E) → sound s →
  admin_approve E session csrf (Some mgr) ck serial auto sid id caps groups s = (Ret answer, s') →
  let canonical := canonical_id mgr id in
  answer = canonical ∧ sound s' ∧
  ∃ c, in_trail (auditing_of E) c s' ∧ c_agent_id c = canonical ∧
    match find_row canonical (agents (s_tables s)) with
    | None => c_action c = "agent.create"
    | Some g => c_action c = "agent.cert_rotated" ∧
        ∃ cert expiry a r,
          compute_grace_expiry (grace_at ck) (agent_cert_grace_period_hours E) = Ret expiry ∧
          c = rotated_event E sid canonical cert expiry (r_cert_pem g) (r_dpop_jkt g) a r
    end.
Proof.
  intros Hpol Hdeny Hs Ha canonical. apply bind_Ret in Ha as (who & s1 & Hwho & Ha). injection Hwho as _ <-.
  apply bind_Ret in Ha as ([] & s2 & Hcsrf & Ha). injection Hcsrf as _ <-.
  apply bind_Ret in Ha as (result & s3 & Hsv & Ha).
  set (a := {| p_agent_id := id; p_capabilities := caps; p_groups := groups; p_admin_name := _ |}) in *.
  assert (transaction (statement_fails E) (approve E ck serial auto mgr sid a) s = (Ret result, s3)) as Ht.
  { unfold served, catch in Hsv. destruct (transaction _ _ s) as [[x|e] s4]; [done|]. done. }
  assert (sound s3) as Hs3.
  { pose proof (preserves_end sound (transaction (statement_fails E) (approve E ck serial auto mgr sid a)) s) as Hend.
    rewrite Ht in Hend. apply Hend; [|done]. apply preserves_transaction; [apply _|]. apply sound_approve. }
  apply transaction_Ret in Ht as (s4 & Ht & Hs4).
  apply approve_Ret in Ht as (record & cert & expiry & claim & Hf & Hp & _ & Htab & _ & Hrec & Hevs).
  fold canonical in Hevs. cbn [p_agent_id a] in Hevs.
  assert (∃ c, ap_audit_events result = [c] ∧ c_agent_id c = canonical ∧
    match find_row canonical (agents (s_tables s)) with
    | None => c_action c = "agent.create"
    | Some g => c_action c = "agent.cert_rotated" ∧
        ∃ cert expiry a r,
          compute_grace_expiry (grace_at ck) (agent_cert_grace_period_hours E) = Ret expiry ∧
          c = rotated_event E sid canonical cert expiry (r_cert_pem g) (r_dpop_jkt g) a r
    end) as (c & Hev & Hid & Hact).
  { change (canonical_id mgr id) with canonical in Hevs.
    destruct (find_row canonical (agents (s_tables s))) as [g|].
    - destruct Hevs as [Hx Hevs]. eexists. split; [exact Hevs|]. split; [done|]. split; [done|].
      by exists cert, expiry, a, record.
    - eexists. split; [exact Hevs|]. by split. }
  rewrite Hev in Ha. cbn [emit_audit_events] in Ha. apply bind_Ret in Ha as ([] & s5 & Hem & Ha).
  injection Ha as <- <-. apply bind_Ret in Hem as ([] & s6 & Haud & Hem). injection Hem as <-.
  pose proof (audit_post (auditing_of E) c s3 Hpol Hs3) as Hpost.
  change (Effects.audit (auditing_of E) c s3) with (audit E c s3) in Hpost. rewrite Haud in Hpost.
  destruct Hpost as (Hs6 & Hin & _). rewrite Hrec. split; [done|]. split; [done|].
  exists c. split; [|by split]. by destruct (Hin eq_refl Hdeny).
Qed.

End Recorded.

(** ** Examples *)

#[local] Existing Instances PaperPki.crypto PaperPki.builder DpopDemo.runtime.

Lemma paper_serves : serves PaperPki.env PaperPki.manager.
Proof. split; [by split_and!|]. split; [done|]. by right. Qed.

(** The agent asked again with the key B: the certificate of B is issued. *)
Lemma approved_key_authenticates_witness :
  ∃ leaf, cert_key leaf = PaperPki.KeyB ∧
    ∃ i s2, get_agent_from_client_cert PaperPki.env (paper_clock 4000000) (paper_request "c") PaperPki.approved_twice
            = (Ret i, s2) ∧ i_agent_id i = "acme::alpha".
Proof.
  destruct (returned (approve PaperPki.env (PaperPki.clock_at 3000000) 6 false PaperPki.manager "s2"
    (PaperPki.approval "alpha")) PaperPki.requested_again) as [ap Ha]; [vm_compute; reflexivity|].
  rewrite <- PaperPki.approved_twice_eq in Ha.
  destruct (approved_key_authenticates PaperPki.env (PaperPki.clock_at 3000000) 6 false PaperPki.manager "s2"
    (PaperPki.approval "alpha") PaperPki.requested_again ap PaperPki.approved_twice)
    as (record & leaf & Hf & Hk & [ca Hpem] & Hlet).
  - exact (λ _, eq_refl).
  - exact paper_serves.
  - split; [discriminate|split; reflexivity].
  - constructor; [by apply ascii_valid|constructor].
  - intros g Hg. exists ["order.read"].
    assert (r_capabilities <$> find_row "acme::alpha" (agents (s_tables PaperPki.requested_again))
      = Some (dumps_plain (JList [JStr "order.read"]))) as Hc by (vm_compute; reflexivity).
    change (m_org_id PaperPki.manager +:+ "::" +:+ p_agent_id (PaperPki.approval "alpha")) with "acme::alpha" in Hg.
    rewrite Hg in Hc. injection Hc as ->. vm_compute. reflexivity.
  - exact Ha.
  - assert (e_cert_pem (ap_record ap) = Some "cR") as Hc.
    { apply (f_equal fst) in Ha.
      assert (match fst (approve PaperPki.env (PaperPki.clock_at 3000000) 6 false PaperPki.manager "s2"
        (PaperPki.approval "alpha") PaperPki.requested_again) with
        Ret ap => e_cert_pem (ap_record ap) | Raise _ => None end = Some "cR") as Hc by (vm_compute; reflexivity).
      rewrite Ha in Hc. exact Hc. }
    rewrite Hc in Hpem. exists leaf. destruct leaf as [|[] []]; try discriminate Hpem.
    split; [reflexivity|]. apply Hlet; [reflexivity|vm_compute; reflexivity|vm_compute; reflexivity].
Defined.

(** Rejecting what is approved changes nothing. *)
Definition rejected_late : registry_state :=
  snd (transaction (statement_fails PaperPki.env)
    (reject PaperPki.env 2000000 2000000 2000000 "s1" "no" "root") PaperPki.approved_once).

Lemma paper_possessed r :
  e_pubkey_pem r = "KEY-A" → e_pubkey_fingerprint r = hexdigest "A" → possessed r.
Proof.
  intros Hk Hfp. unfold possessed. rewrite Hk, Hfp. split; [vm_compute; reflexivity|].
  exists (PaperPki.pop "KEY-A" PaperPki.KeyA). vm_compute. reflexivity.
Qed.

Lemma paper_approved :
  ∃ r, pending_enrollments (s_tables PaperPki.approved_once) = [r] ∧
    e_pubkey_pem r = "KEY-A" ∧ e_pubkey_fingerprint r = hexdigest "A" ∧ e_status r = APPROVED ∧
    e_cert_pem r = Some "aR".
Proof. eexists. split; [vm_compute; reflexivity|]. repeat split; vm_compute; reflexivity. Qed.

(** An administrator opens the record again, and rejects it, after the approval. *)
Lemma decisions_final_witness :
  registered (pending_enrollments (s_tables rejected_late)) ∧
  ∃ r, e_status r = APPROVED ∧ e_cert_pem r = Some "aR" ∧ r ∈ pending_enrollments (s_tables rejected_late).
Proof.
  destruct paper_approved as (r & Hl & Hk & Hfp & Hst & Hc).
  assert (registered (pending_enrollments (s_tables PaperPki.approved_once))) as Hreg.
  { rewrite Hl. split; [apply NoDup_singleton|]. constructor; [by apply paper_possessed|constructor]. }
  assert (rtc (desk_step PaperPki.env) (PaperPki.approved_once, []) (rejected_late, [])) as Hrun
    by (apply rtc_once, desk_call;
        exact (step_reject PaperPki.env PaperPki.approved_once 2000000 2000000 2000000 "s1" "no" "root")).
  destruct (decisions_final PaperPki.env PaperPki.approved_once rejected_late [] [] Hreg Hrun) as [Hreg' Hkeep].
  split; [exact Hreg'|]. destruct (Hkeep r) as (r' & Hr' & _ & _ & _ & Hsame); [rewrite Hl; by left|].
  rewrite Hsame in Hr' by (by rewrite Hst || apply not_elem_of_nil). exists r. by split_and!.
Defined.

(** The same database with another certificate and another agent. *)
Definition other_secret : registry_state :=
  with_tables (with_enrollments
    (map (approved_record "1970-01-01T00:00:01+00:00" "acme::mallory" (PaperPki.approval "mallory") "dR")
      (pending_enrollments (s_tables PaperPki.approved_once))) (s_tables PaperPki.approved_once)) PaperPki.approved_once.

Lemma decision_hidden_witness :
  fst (enrollment_status_endpoint PaperPki.env 0 2000000 "10.0.0.1" "s1" "" PaperPki.approved_once)
  = fst (enrollment_status_endpoint PaperPki.env 0 2000000 "10.0.0.1" "s1" "" other_secret).
Proof.
  apply (decision_hidden PaperPki.env 0 2000000 "10.0.0.1" "s1" "" PaperPki.approved_once other_secret).
  - destruct paper_approved as (r & Hl & Hk & Hfp & Hst & Hc). split; [reflexivity|]. split; [reflexivity|].
    unfold find_enrollment, other_secret. cbn [s_tables with_tables pending_enrollments with_enrollments].
    rewrite Hl. cbn [map list_find e_session_id approved_record].
    destruct (decide (e_session_id r = "s1")); [|exact I]. by split_and!.
  - intros r Hr. reflexivity.
Defined.

Lemma approvals_recorded_witness :
  ∃ answer s', admin_approve PaperPki.env (Some ("token", "root")) "token" (Some PaperPki.manager)
      (PaperPki.clock_at 3000000) 6 false "s2" "alpha" ["order.read"] [] PaperPki.requested_again = (Ret answer, s') ∧
    answer = "acme::alpha" ∧
    ∃ c, in_trail (auditing_of PaperPki.env) c s' ∧ c_action c = "agent.cert_rotated".
Proof.
  destruct (returned (admin_approve PaperPki.env (Some ("token", "root")) "token" (Some PaperPki.manager)
    (PaperPki.clock_at 3000000) 6 false "s2" "alpha" ["order.read"] []) PaperPki.requested_again) as [answer Ha];
    [vm_compute; reflexivity|].
  assert (sound PaperPki.requested_again) as Hs.
  { assert (w_table (trail PaperPki.requested_again) = []) as Ht by (vm_compute; reflexivity).
    unfold sound. rewrite Ht. constructor. }
  destruct (approvals_recorded PaperPki.env (Some ("token", "root")) "token" PaperPki.manager
    (PaperPki.clock_at 3000000) 6 false "s2" "alpha" ["order.read"] [] PaperPki.requested_again _ answer
    quiet_polite quiet_deny Hs Ha) as (Hans & _ & c & Hin & _ & Hact).
  exists answer, (snd (admin_approve PaperPki.env (Some ("token", "root")) "token" (Some PaperPki.manager)
    (PaperPki.clock_at 3000000) 6 false "s2" "alpha" ["order.read"] [] PaperPki.requested_again)).
  split; [exact Ha|]. split; [rewrite Hans; vm_compute; reflexivity|]. exists c. split; [exact Hin|].
  assert (∃ g, find_row (canonical_id PaperPki.manager "alpha") (agents (s_tables PaperPki.requested_again)) = Some g) as [g Hg]
    by (eexists; vm_compute; reflexivity).
  rewrite Hg in Hact. exact (proj1 Hact).
Defined.
