(* ===== verification/AgentKeys.v ===== *)
(** * Agents whose keys the Mastio holds

    [admin/agents.py:create_agent] and its listing, and the same operation in
    [egress/agent_manager.py], which the dashboard calls, with the private
    keys in Vault or in [proxy_config] and their retrieval.  The keypair and
    the serial of a certificate are random and therefore arguments. *)

From S2P Require Import Prelude Sha256 IsoTime UtcTime Json JsonParse Base64 RateLimit ReplayStore Dpop Tier Intune Mdm AuditCanon AuditLog AuditChain Effects AgentRegistry Enrollment ClientCert Credentials EnrollmentLife.
From Stdlib Require Import QArith.

Open Scope Z_scope.

Section AgentKeys.
Context `{Hash} `{FromIso} `{Cryptography} `{ReplayGuard} `{ZuluTime} `{!CertificateBuilder}.
Context (E : registry_env).

Notation M := (M registry_state).
Notation transaction := (transaction (statement_fails E)).
Notation select := (select E).

(** A fresh keypair: the public key and the PEM of the private one. *)
Record keypair := { kp_public : key; kp_private_pem : string }.

Definition agent_id_of (mgr : AgentManager) (name : string) : string := m_org_id mgr +:+ "::" +:+ name.

Definition _generate_agent_cert (mgr : AgentManager) (kp : keypair) (serial now : Z) (agent_name : string)
    : outcome (string * string) :=
  match signing_ca mgr with
  | None => Raise RuntimeError
  | Some ca =>
      let! cert := issue (kp_public kp) ca (agent_id_of mgr agent_name) (m_org_id mgr) (spiffe_uri mgr agent_name)
                     now (now + hours (24 * AGENT_CERT_VALIDITY_DAYS)) serial in
      Ret (cert_pem_of cert, kp_private_pem kp)
  end.

(** ** Private keys *)

Definition vault_configured : bool :=
  bool_decide (secret_backend E = "vault") && negb (bool_decide (vault_addr E = "")).

Definition _store_key_vault (id key_pem : string) : M unit :=
  if negb vault_configured then raise RuntimeError
  else
    match vault_post E id with
    | Some e => raise e
    | None => modify (λ s, with_memory (with_vault (<[id := key_pem]> (vault (s_memory s))) (s_memory s)) s)
    end.

Definition _fetch_key_vault (id : string) : M string :=
  if negb vault_configured then raise RuntimeError
  else
    match vault_get E id with
    | Some e => raise e
    | None =>
        do k <- gets (λ s, vault (s_memory s) !! id);
        match k with
        | Some key_pem => ret key_pem
        | None => raise (Other "HTTPStatusError" "404")
        end
    end.

Definition config_key (id : string) : string := "agent_key:" +:+ id.

(** [set_config(f"agent_key:{id}", key_pem)] on the open connection. *)
Definition set_agent_key (id key_pem : string) : M unit := set_tables E (with_key (config_key id) key_pem).

Definition store_key (store_in_config : M unit) (id key_pem : string) : M unit :=
  catch (_store_key_vault id key_pem) (λ _, store_in_config).

Definition get_agent_credentials (id : string) : M (string * string) :=
  do agent <- get_agent E id;
  match agent with
  | None => raise ValueError
  | Some (r, _) =>
      if negb (r_is_active r) then raise ValueError
      else
        match r_cert_pem r with
        | None | Some EmptyString => raise ValueError
        | Some cert_pem =>
            do k <- catch (do k <- _fetch_key_vault id; ret (Some k)) (λ _, ret None);
            match k with
            | Some key_pem => ret (cert_pem, key_pem)
            | None =>
                do k <- transaction (select (λ t, agent_keys t !! config_key id));
                match k with
                | None | Some EmptyString => raise ValueError
                | Some key_pem => ret (cert_pem, key_pem)
                end
            end
        end
  end.

(** ** Creation *)

Record AgentCreateRequest := {
  b_agent_name : string;
  b_display_name : string;
  b_capabilities : list string;
  b_federated : bool;
  b_cert_pem : option string;
  b_private_key_pem : option string;
}.

Record AgentCreateResponse := {
  o_agent_id : string;
  o_display_name : string;
  o_capabilities : list string;
  o_federated : bool;
  o_cert_pem : string;
  o_cert_chain_pem : option string;
  o_private_key_pem : option string;
}.

(** A row of the operator, with the defaults of the columns it leaves out. *)
Definition admin_row (id name cert_pem now : string) (capabilities : list string) (federated : bool)
    (revision : Z) : agent :=
  {| r_core := {| a_agent_id := id; a_last_attestation := None; a_is_active := true; a_revoked_at := None;
                  a_revoked_reason := None; a_federation_revision := revision |};
     r_display_name := name; r_capabilities := dumps_plain (JList (JStr <$> capabilities));
     r_cert_pem := Some cert_pem; r_created_at := now; r_device_info := None; r_dpop_jkt := None;
     r_enrollment_method := Some "admin"; r_enrolled_at := Some now; r_spiffe_id := None;
     r_federated := federated; r_federated_at := None; r_reach := "both"; r_principal_type := "agent";
     r_previous_cert_pem := None; r_previous_dpop_jkt := None; r_previous_grace_period_expires_at := None |}.

Definition _require_agent_mgr (mgr : option AgentManager) : M AgentManager :=
  match mgr with
  | Some mgr => if ca_loaded mgr then ret mgr
                else raise (HTTPException 503 "agent manager not initialized — Org CA not loaded")
  | None => raise (HTTPException 503 "agent manager not initialized — Org CA not loaded")
  end.

(** The certificate and the key, and whether they were made here. *)
Definition credential (mgr : AgentManager) (kp : keypair) (serial now : Z) (b : AgentCreateRequest)
    : outcome (string * string * bool) :=
  match nonempty (b_cert_pem b), nonempty (b_private_key_pem b) with
  | true, true => Ret (default "" (b_cert_pem b), default "" (b_private_key_pem b), false)
  | false, false =>
      let! (cert_pem, key_pem) := _generate_agent_cert mgr kp serial now (b_agent_name b) in
      Ret (cert_pem, key_pem, true)
  | _, _ => Raise (HTTPException 400 "cert_pem and private_key_pem must be provided together")
  end.

Definition register_agent (row : agent) (key_pem : string) : M unit :=
  transaction
    (do _ <- insert_agent E row;
     store_key (set_agent_key (r_agent_id row) key_pem) (r_agent_id row) key_pem).

(** [except IntegrityError] *)
Definition or_conflict (id : string) (m : M unit) : M unit :=
  catch m (λ e, match e with
                | IntegrityError => raise (HTTPException 409 ("agent " +:+ repr_str id +:+ " already registered"))
                | e => raise e
                end).

Definition create_agent (x_admin_secret : string) (mgr : option AgentManager) (kp : keypair) (serial signed_at now : Z)
    (b : AgentCreateRequest) : M AgentCreateResponse :=
  do _ <- lift (_require_admin_secret E x_admin_secret);
  do mgr <- _require_agent_mgr mgr;
  let id := agent_id_of mgr (b_agent_name b) in
  do (cert_pem, key_pem, minted_locally) <- lift (credential mgr kp serial signed_at b);
  let name := or_default (b_display_name b) (b_agent_name b) in
  do _ <- or_conflict id
    (register_agent (admin_row id name cert_pem (utc_text now) (b_capabilities b) (b_federated b) 1) key_pem);
  do _ <- audit E (admin_call "agent.create" ("agent_id=" +:+ id +:+ " federated=" +:+ py_bool_text (b_federated b)));
  ret {| o_agent_id := id; o_display_name := name; o_capabilities := b_capabilities b;
         o_federated := b_federated b; o_cert_pem := cert_pem;
         o_cert_chain_pem := (λ ca, cert_pem +:+ cert_pem_of ca) <$> mastio_ca_cert mgr;
         o_private_key_pem := if minted_locally : bool then Some key_pem else None |}.

(** [ORDER BY created_at DESC] *)
Definition created_later (a b : agent) : Prop := text_lt (r_created_at a) (r_created_at b) = false.

#[export] Instance created_later_dec a b : Decision (created_later a b).
Proof. unfold created_later. apply _. Defined.

Definition list_agents : M (list agent) := transaction (select (λ t, merge_sort created_later (agents t))).

(** *** The agent manager's own *)

(** [db.py:create_agent] leaves [federated] and the revision to the column
    defaults. *)
Definition db_create_agent (id name cert_pem : string) (capabilities : list string) (now : Z) : M unit :=
  transaction (insert_agent E (admin_row id name cert_pem (utc_text now) capabilities false 0)).

Definition manager_create_agent (mgr : AgentManager) (kp : keypair) (serial signed_at now : Z)
    (agent_name display_name : string) (capabilities : list string) : M (string * string) :=
  let id := agent_id_of mgr agent_name in
  do (cert_pem, key_pem) <- lift (_generate_agent_cert mgr kp serial signed_at agent_name);
  do _ <- store_key (transaction (set_agent_key id key_pem)) id key_pem;
  do _ <- db_create_agent id display_name cert_pem capabilities now;
  ret (id, key_pem).

Definition manager_deactivate_agent (id : string) : M unit :=
  do found <- deactivate_agent E id;
  if found : bool then ret tt else raise ValueError.


(** ** What a creation leaves alone *)

(** Every agent of the first state is in the second with its row and its
    keys. *)
Definition keeps_agents (s s' : registry_state) : Prop :=
  ∀ id r, find_row id (agents (s_tables s)) = Some r →
    find_row id (agents (s_tables s')) = Some r ∧
    vault (s_memory s') !! id = vault (s_memory s) !! id ∧
    agent_keys (s_tables s') !! config_key id = agent_keys (s_tables s) !! config_key id.

#[local] Instance keeps_stable s : Stable (keeps_agents s).
Proof.
  split; [done|]. intros s1 s2 Hs1 Hs2 id r Hr. destruct (Hs1 id r Hr) as (Ha & _ & Hk).
  destruct (Hs2 id r Hr) as (_ & Hv & _). by split_and!.
Qed.

Lemma config_key_inj id id' : config_key id = config_key id' → id = id'.
Proof. unfold config_key. by intros [=]. Qed.

Lemma audit_keeps s c : preserves (keeps_agents s) (audit E c).
Proof.
  intros s1 Hs. pose proof (audit_frame E c s1) as [Ht Hm]. destruct (audit E c s1) as [[x|e] s2]; cbn in Ht, Hm;
    intros id r Hr; rewrite Ht, Hm; by apply Hs.
Qed.

(** A key may be stored for an id that has no row yet. *)
Lemma store_key_keeps s id pem :
  find_row id (agents (s_tables s)) = None →
  preserves (keeps_agents s) (store_key (set_agent_key id pem) id pem).
Proof.
  intros Hnone. assert (∀ id' r, find_row id' (agents (s_tables s)) = Some r → id ≠ id') as Hne
    by (intros id' r Hr ->; congruence).
  apply preserves_catch.
  - unfold _store_key_vault. apply preserves_if; [auto with preserved|].
    destruct (vault_post E id); [auto with preserved|]. apply preserves_modify. intros s1 Hs id' r Hr.
    destruct (Hs id' r Hr) as (Ha & Hv & Hk). split_and!; [done| |done].
    cbn [s_memory vault with_memory with_vault]. by rewrite lookup_insert_ne by (by eapply Hne).
  - intros e. apply preserves_statement; [apply _|]. apply preserves_modify. intros s1 Hs id' r Hr.
    destruct (Hs id' r Hr) as (Ha & Hv & Hk). split_and!; [done|done|].
    cbn [s_tables agent_keys with_tables with_key].
    rewrite lookup_insert_ne; [done|]. intros Heq%config_key_inj. by eapply Hne.
Qed.

Lemma find_row_app id l l' r : find_row id l = Some r → find_row id (l ++ l') = Some r.
Proof.
  intros Hr. change (find_by r_agent_id id (l ++ l') = Some r). change (find_by r_agent_id id l = Some r) in Hr.
  by rewrite find_by_app, Hr.
Qed.

Lemma register_keeps s row pem : preserves (keeps_agents s) (register_agent row pem).
Proof.
  apply preserves_transaction; [apply _|].
  apply hoare_bind with (T := λ _ s1, keeps_agents s s1 ∧ find_row (r_agent_id row) (agents (s_tables s)) = None).
  - intros s1 Hs. destruct (insert_agent E row s1) as [[[]|e] s2] eqn:Hi.
    + apply insert_agent_Ret in Hi as [Hnone ->]. split.
      * intros id r Hr. destruct (Hs id r Hr) as (Ha & Hv & Hk). split_and!; [|done|done].
        by apply find_row_app.
      * destruct (find_row (r_agent_id row) (agents (s_tables s))) as [r|] eqn:Hr; [|done].
        destruct (Hs _ _ Hr) as [Ha _]. congruence.
    + unfold insert_agent, statement in Hi. destruct (statement_fails E _); [by injection Hi as _ <-|].
      cbn in Hi. destruct (existsb _ _); [by injection Hi as _ <-|done].
  - intros [] s1 [Hs Hnone]. apply (store_key_keeps s _ pem Hnone) in Hs as Hk. exact Hk.
Qed.

Lemma create_keeps s secret mgr kp serial signed_at now b :
  preserves (keeps_agents s) (create_agent secret mgr kp serial signed_at now b).
Proof.
  apply preserves_bind; [auto with preserved|]. intros _. apply preserves_bind.
  { unfold _require_agent_mgr. destruct mgr as [mgr|]; auto with preserved. }
  intros mgr'. apply preserves_bind; [auto with preserved|]. intros [[cert_pem key_pem] minted].
  apply preserves_bind.
  { apply preserves_catch; [apply register_keeps|]. intros []; auto with preserved. }
  intros []. apply preserves_bind; [apply audit_keeps|auto with preserved].
Qed.

(** ** What a creation stores *)

(** The private key of an agent as [get_agent_credentials] looks for it. *)
Definition held_key (s : registry_state) (id : string) : option string :=
  match (if vault_configured && bool_decide (vault_get E id = None) then vault (s_memory s) !! id else None) with
  | Some pem => Some pem
  | None => agent_keys (s_tables s) !! config_key id
  end.

Lemma store_key_Ret id pem s s' :
  vault_get E id = None → vault (s_memory s) !! id = None →
  store_key (set_agent_key id pem) id pem s = (Ret tt, s') →
  agents (s_tables s') = agents (s_tables s) ∧ held_key s' id = Some pem.
Proof.
  intros Hget Hnone. unfold store_key, catch, _store_key_vault, held_key. rewrite Hget, bool_decide_eq_true_2 by done.
  destruct vault_configured; cbn [negb andb].
  - destruct (vault_post E id) as [e|]; cbn.
    + intros Hs%statement_Ret. injection Hs as <-. cbn. by rewrite Hnone, lookup_insert_eq.
    + intros [= <-]. cbn. by rewrite lookup_insert_eq.
  - cbn. intros Hs%statement_Ret. injection Hs as <-. cbn. by rewrite lookup_insert_eq.
Qed.

Lemma register_Ret row pem s s' :
  vault_get E (r_agent_id row) = None → vault (s_memory s) !! r_agent_id row = None →
  register_agent row pem s = (Ret tt, s') →
  find_row (r_agent_id row) (agents (s_tables s')) = Some row ∧ held_key s' (r_agent_id row) = Some pem.
Proof.
  intros Hget Hnone Hr. apply transaction_Ret in Hr as (s1 & Hr & ->).
  apply bind_Ret in Hr as ([] & s2 & [Hf ->]%insert_agent_Ret & Hr).
  apply store_key_Ret in Hr as [Ha Hk]; [|done..]. split; [|exact Hk].
  change (s_tables (issued s1)) with (s_tables s1). rewrite Ha. cbn [s_tables with_tables agents with_agent_rows].
  change (find_by r_agent_id (r_agent_id row) (agents (s_tables s) ++ [row]) = Some row).
  change (find_by r_agent_id (r_agent_id row) (agents (s_tables s)) = None) in Hf.
  rewrite find_by_app, Hf, find_by_cons. by rewrite bool_decide_eq_true_2.
Qed.

Lemma fetch_vault s id :
  catch (do k <- _fetch_key_vault id; ret (Some k)) (λ _, ret None) s =
  (Ret (if vault_configured && bool_decide (vault_get E id = None) then vault (s_memory s) !! id else None), s).
Proof.
  unfold catch, bind, _fetch_key_vault. destruct vault_configured; [|done]. cbn [negb andb].
  destruct (vault_get E id) as [e|]; [by rewrite bool_decide_eq_false_2|].
  rewrite bool_decide_eq_true_2 by done. unfold bind, gets. by destruct (vault (s_memory s) !! id).
Qed.

Lemma credentials_done s id r caps cert pem :
  answers E → find_row id (agents (s_tables s)) = Some r → loads (float_literal E) (r_capabilities r) = Ret caps →
  r_is_active r = true → r_cert_pem r = Some cert → cert ≠ "" → held_key s id = Some pem → pem ≠ "" →
  ∃ s', get_agent_credentials id s = (Ret (cert, pem), s').
Proof.
  intros Hc Hf Hl Ha Hp Hcert Hk Hpem. unfold get_agent_credentials.
  erewrite bind_step; [|by eapply get_agent_done]. cbv beta iota. rewrite Ha, Hp. cbn [negb].
  destruct cert as [|ch cert]; [done|]. unfold held_key in Hk.
  erewrite bind_step; [|apply fetch_vault]. cbn [s_memory issued registry_transactional].
  destruct (if vault_configured && _ then _ else None) as [k|]; [injection Hk as ->; by eexists|].
  erewrite bind_step; [|apply transaction_done; [done|by apply select_done]].
  cbn [s_tables issued registry_transactional]. rewrite Hk. destruct pem; [done|]. by eexists.
Qed.

End AgentKeys.

(** ** Properties *)

Section Keys.
Context `{Hash} `{FromIso} `{Cryptography} `{ReplayGuard} `{ZuluTime} `{!CertificateBuilder}.

(** however a creation ends - refused, in conflict with an agent of the
    same name, with Vault or the database failing at any statement - no agent
    that was registered before loses its row or the private key kept for it,
    in Vault or in the configuration. *)
Theorem creation_keeps_keys (E : registry_env) (secret : string) (mgr : option AgentManager) (kp : keypair)
    (serial signed_at now : Z) (b : AgentCreateRequest) (s : registry_state) (id : string) (r : agent) :
  find_row id (agents (s_tables s)) = Some r →
  let s' := snd (create_agent E secret mgr kp serial signed_at now b s) in
  find_row id (agents (s_tables s')) = Some r ∧
  vault (s_memory s') !! id = vault (s_memory s) !! id ∧
  agent_keys (s_tables s') !! config_key id = agent_keys (s_tables s) !! config_key id.
Proof.
  intros Hr s'. refine (preserves_end (keeps_agents s) _ s (create_keeps E s secret mgr kp serial signed_at now b) _ id r Hr).
  by intros id' r' Hr'.
Qed.

(** C21: the credentials of an agent whose creation was answered can be fetched
    back: the certificate of the answer with the private key it was created
    with, wherever the key went, unless Vault keeps the key of an earlier
    agent of that id. *)
Theorem credentials_round_trip (E : registry_env) (secret : string) (mgr : AgentManager) (kp : keypair)
    (serial signed_at now : Z) (b : AgentCreateRequest) (s s' : registry_state) (r : AgentCreateResponse) :
  let id := agent_id_of mgr (b_agent_name b) in
  answers E → vault_get E id = None → vault (s_memory s) !! id = None →
  kp_private_pem kp ≠ "" → Forall valid_text (b_capabilities b) →
  create_agent E secret (Some mgr) kp serial signed_at now b s = (Ret r, s') →
  ∃ pem s'', get_agent_credentials E id s' = (Ret (o_cert_pem r, pem), s'') ∧
    match o_private_key_pem r with
    | Some pem' => pem = pem' ∧ pem = kp_private_pem kp
    | None => b_private_key_pem b = Some pem ∧ b_cert_pem b = Some (o_cert_pem r)
    end.
Proof.
  intros id Hans Hget Hvault Hkp Hcaps Hc. apply bind_Ret in Hc as ([] & s1 & Hadm & Hc). injection Hadm as _ <-.
  apply bind_Ret in Hc as (mgr' & s2 & Hm & Hc). unfold _require_agent_mgr in Hm.
  destruct (ca_loaded mgr); [|done]. injection Hm as <- <-. fold id in Hc.
  apply bind_Ret in Hc as ([[cert_pem key_pem] minted] & s3 & Hcred & Hc). injection Hcred as Hcred <-.
  apply bind_Ret in Hc as ([] & s4 & Hreg & Hc).
  assert (register_agent E (admin_row id (or_default (b_display_name b) (b_agent_name b)) cert_pem (utc_text now)
    (b_capabilities b) (b_federated b) 1) key_pem s = (Ret tt, s4)) as Hreg'.
  { unfold or_conflict, catch in Hreg. destruct (register_agent _ _ _ s) as [[[]|[]] s5]; done. }
  apply register_Ret in Hreg' as [Hf Hk]; [|done..].
  change (r_agent_id (admin_row _ _ _ _ _ _ _)) with id in Hf, Hk.
  apply bind_Ret in Hc as ([] & s5 & Haud & Hc). injection Hc as <- <-.
  match type of Haud with audit _ ?c _ = _ => pose proof (audit_frame E c s4) as [Ht Hmem] end.
  rewrite Haud in Ht, Hmem. cbn [snd] in Ht, Hmem.
  assert (cert_pem ≠ "" ∧ key_pem ≠ "" ∧
    match (if minted then Some key_pem else None) with
    | Some pem' => key_pem = pem' ∧ key_pem = kp_private_pem kp
    | None => b_private_key_pem b = Some key_pem ∧ b_cert_pem b = Some cert_pem
    end) as (Hcert & Hkey & Hmatch).
  { unfold credential in Hcred. unfold nonempty in Hcred.
    destruct (b_cert_pem b) as [[|c1 t1]|], (b_private_key_pem b) as [[|c2 t2]|]; try done;
      try (injection Hcred as <- <- <-; by split_and!);
      (unfold _generate_agent_cert in Hcred; destruct (signing_ca mgr); [|done];
       destruct (issue _ _ _ _ _ _ _ _) as [cert|]; [|done]; injection Hcred as <- <- <-;
       split_and!; [apply pem_nonempty|done|done|done]). }
  destruct (credentials_done E s5 id (admin_row id (or_default (b_display_name b) (b_agent_name b)) cert_pem
    (utc_text now) (b_capabilities b) (b_federated b) 1) (JList (JStr <$> b_capabilities b)) cert_pem key_pem Hans) as [s6 Hs6].
  - rewrite Ht. exact Hf.
  - by apply capabilities_back.
  - done.
  - done.
  - done.
  - unfold held_key in Hk |- *. by rewrite Ht, Hmem.
  - done.
  - exists key_pem, s6. split; [exact Hs6|]. cbn. by destruct minted.
Qed.

(** The operation behind the dashboard stores the key first: a name that is
    taken is refused and the key of the agent that has it is gone. *)
Theorem dashboard_duplicate_destroys_key (E : registry_env) (mgr : AgentManager) (kp : keypair)
    (serial signed_at now : Z) (name display : string) (caps : list string) (cert pem : string)
    (s : registry_state) (r : agent) :
  let id := agent_id_of mgr name in
  let s' := snd (manager_create_agent E mgr kp serial signed_at now name display caps s) in
  answers E → _generate_agent_cert mgr kp serial signed_at name = Ret (cert, pem) →
  find_row id (agents (s_tables s)) = Some r → vault_get E id = None →
  vault_configured E = false ∨ vault_post E id = None →
  fst (manager_create_agent E mgr kp serial signed_at now name display caps s) = Raise IntegrityError ∧
  find_row id (agents (s_tables s')) = Some r ∧ held_key E s' id = Some (kp_private_pem kp).
Proof.
  intros id s' Hans Hgen Hr Hget Hv.
  assert (pem = kp_private_pem kp) as Hp.
  { unfold _generate_agent_cert in Hgen. destruct (signing_ca mgr); [|done].
    destruct (issue _ _ _ _ _ _ _ _); [|done]. by injection Hgen as _ ->. }
  assert (∃ s1, store_key E (transaction (statement_fails E) (set_agent_key E id pem)) id pem s = (Ret tt, s1) ∧
    agents (s_tables s1) = agents (s_tables s) ∧ held_key E s1 id = Some pem) as (s1 & Hst & Ha & Hk).
  { unfold store_key, catch, _store_key_vault, held_key. rewrite Hget, bool_decide_eq_true_2 by done.
    destruct (vault_configured E); cbn [negb andb].
    - destruct Hv as [|Hv]; [done|]. rewrite Hv. eexists. split; [reflexivity|]. cbn. by rewrite lookup_insert_eq.
    - cbn. unfold set_agent_key, set_tables. eexists. split.
      + apply transaction_done; [done|]. unfold statement. by rewrite Hans.
      + cbn. by rewrite lookup_insert_eq. }
  assert (manager_create_agent E mgr kp serial signed_at now name display caps s
    = (Raise IntegrityError, restore s1 (issued s1))) as Hm.
  { unfold manager_create_agent. erewrite bind_step; [|unfold lift; by rewrite Hgen]. cbv beta iota.
    erewrite bind_step; [|exact Hst].
    apply bind_stop. unfold db_create_agent, transaction, insert_agent, statement. rewrite Hans.
    cbn [s_tables issued registry_transactional]. rewrite Ha.
    destruct (existsb _ _) eqn:Hx; [done|]. apply (find_by_None r_agent_id) in Hx.
    change (find_row id (agents (s_tables s)) = None) in Hx. congruence. }
  subst s'. rewrite Hm. cbn [fst snd]. split; [done|]. split; [by cbn; rewrite Ha|].
  rewrite <- Hp. unfold held_key in Hk |- *. exact Hk.
Qed.

End Keys.

(** ** Examples *)

#[local] Existing Instances PaperPki.crypto PaperPki.builder.

Definition paper_agent : AgentCreateRequest :=
  {| b_agent_name := "beta"; b_display_name := "Beta"; b_capabilities := ["order.read"]; b_federated := false;
     b_cert_pem := None; b_private_key_pem := None |}.
Definition paper_keypair : keypair := {| kp_public := PaperPki.KeyB; kp_private_pem := "private B" |}.

Lemma creation_keeps_keys_witness :
  ∃ r, find_row "acme::alpha" (agents (s_tables PaperPki.approved_once)) = Some r ∧
    find_row "acme::alpha" (agents (s_tables (snd (create_agent PaperPki.env "secret" (Some PaperPki.manager)
      paper_keypair 1 5 5 paper_agent PaperPki.approved_once)))) = Some r.
Proof.
  assert (∃ r, find_row "acme::alpha" (agents (s_tables PaperPki.approved_once)) = Some r) as [r Hr]
    by (eexists; vm_compute; reflexivity).
  exists r. split; [exact Hr|].
  exact (proj1 (creation_keeps_keys PaperPki.env "secret" (Some PaperPki.manager) paper_keypair 1 5 5 paper_agent
    PaperPki.approved_once "acme::alpha" r Hr)).
Defined.

Lemma credentials_round_trip_witness :
  ∃ r s', create_agent PaperPki.env "secret" (Some PaperPki.manager) paper_keypair 1 5 5 paper_agent
            PaperPki.approved_once = (Ret r, s') ∧
    ∃ pem s'', get_agent_credentials PaperPki.env "acme::beta" s' = (Ret (o_cert_pem r, pem), s'').
Proof.
  destruct (returned (create_agent PaperPki.env "secret" (Some PaperPki.manager) paper_keypair 1 5 5 paper_agent)
    PaperPki.approved_once) as [r Hr]; [vm_compute; reflexivity|].
  exists r, (snd (create_agent PaperPki.env "secret" (Some PaperPki.manager) paper_keypair 1 5 5 paper_agent
    PaperPki.approved_once)).
  split; [exact Hr|].
  destruct (credentials_round_trip PaperPki.env "secret" PaperPki.manager paper_keypair 1 5 5 paper_agent
    PaperPki.approved_once _ r (λ _, eq_refl) eq_refl ltac:(vm_compute; reflexivity) ltac:(discriminate)
    ltac:(constructor; [by apply ascii_valid|constructor]) Hr) as (pem & s'' & Hget & _).
  exists pem, s''. exact Hget.
Defined.
