(* ===== verification/TokenText.v ===== *)
(** * The text of a user API token and the patterns of its scope

    [db.py:_new_api_token_plaintext] with the standard base32 encoding, and
    [auth/api_token.py:_path_matches_globs] with the regular expressions it
    builds: [re.escape], the replacement of the escaped star and
    [re.fullmatch] on the expressions these can give.  The theorems say that a
    token's text determines its random bytes and that the expressions match as
    the patterns read. *)

From S2P Require Import Prelude IsoTime UtcTime Json JsonParse Base64.

Open Scope N_scope.

(** ** Base32 *)

(** [base64.b32encode]'s alphabet. *)
Definition b32_char (n : N) : ascii := ascii_of_N (if n <? 26 then 65 + n else 24 + n).

Definition quintet (k v : N) : N := v / 32 ^ k mod 32.

(** The eight characters of five bytes. *)
Definition group5 (a b c d e : N) : list N :=
  let v := (((a * 256 + b) * 256 + c) * 256 + d) * 256 + e in
  [quintet 7 v; quintet 6 v; quintet 5 v; quintet 4 v; quintet 3 v; quintet 2 v; quintet 1 v; quintet 0 v].

Fixpoint quintets (bs : list N) : list N :=
  match bs with
  | a :: b :: c :: d :: e :: rest => group5 a b c d e ++ quintets rest
  | _ => []
  end.

Definition of_quintets (l : list N) : string := foldr (λ n s, String (b32_char n) s) "" l.

Fixpoint pads (n : nat) : string := match n with O => "" | S n => String "=" (pads n) end.

(** The characters that stand for the filling, by the bytes of the last group. *)
Definition filling (leftover : nat) : nat := match leftover with 1 => 6 | 2 => 4 | 3 => 3 | 4 => 1 | _ => 0 end%nat.

Definition b32encode (bs : list N) : string :=
  let leftover := (length bs mod 5)%nat in
  let full := match leftover with O => bs | _ => bs ++ repeat 0 (5 - leftover)%nat end in
  let qs := quintets full in
  of_quintets (take (length qs - filling leftover) qs) +:+ pads (filling leftover).

Definition _API_TOKEN_PREFIX : string := "culk_".
Definition _API_TOKEN_BODY_BYTES : nat := 32.
Definition _API_TOKEN_BODY_LEN : nat := 52.
Definition _API_TOKEN_FULL_LEN : nat := String.length _API_TOKEN_PREFIX + _API_TOKEN_BODY_LEN.

(** [_new_api_token_plaintext()], on what [secrets.token_bytes] gave. *)
Definition _new_api_token_plaintext (raw : list N) : outcome string :=
  let body := lower (rstrip_pad (b32encode raw)) in
  if Nat.eqb (String.length body) _API_TOKEN_BODY_LEN then Ret (_API_TOKEN_PREFIX +:+ body)
  else Raise (Other "AssertionError" ("unexpected body length: " +:+ pretty (N.of_nat (String.length body)))).

(** [s[-n:]], by code points. *)
Definition last_chars (n : nat) (s : string) : string :=
  let l := chars s in join "" (drop (length l - n) l).

(** [s.strip()], with the blanks of Unicode. *)
Definition unicode_blank (c : string) : bool :=
  match c with
  | String a EmptyString => blank a
  | _ => existsb (λ n, bool_decide (c = utf8 n))
           ([133; 160; 5760; 8232; 8233; 8239; 8287; 12288] ++ map N.of_nat (seq 8192 11))
  end.

Fixpoint drop_blank (l : list string) : list string :=
  match l with c :: rest => if unicode_blank c then drop_blank rest else l | [] => [] end.

Definition strip_text (s : string) : string := join "" (rev (drop_blank (rev (drop_blank (chars s))))).

(** ** Patterns *)

Definition newline : ascii := ascii_of_N 10.
Definition star : ascii := "*"%char.

(** The characters [re.escape] puts a backslash before. *)
Definition special (c : ascii) : bool :=
  has_char c ("()[]{}?*+-|^$\.&~# " +:+ of_bytes [9; 10; 13; 11; 12]).

Fixpoint re_escape (s : string) : string :=
  match s with
  | EmptyString => ""
  | String c s' => if special c then String bslash (String c (re_escape s')) else String c (re_escape s')
  end.

Definition regex_of (pattern : string) : string := "^" +:+ replace_text (String bslash "*") ".*" (re_escape pattern) +:+ "$".

(** What such an expression consists of. *)
Inductive atom := Bol | Eol | AnyStar | Lit (c : ascii).

(** A special character is behind a backslash in these expressions. *)
Fixpoint parse_re (s : string) : option (list atom) :=
  match s with
  | EmptyString => Some []
  | String c rest =>
      if bool_decide (c = bslash) then
        match rest with
        | String d rest' => if special d then cons (Lit d) <$> parse_re rest' else None
        | EmptyString => None
        end
      else if bool_decide (c = "^"%char) then cons Bol <$> parse_re rest
      else if bool_decide (c = "$"%char) then cons Eol <$> parse_re rest
      else if bool_decide (c = "."%char) then
        match rest with
        | String d rest' => if bool_decide (d = star) then cons AnyStar <$> parse_re rest' else None
        | EmptyString => None
        end
      else if special c then None
      else cons (Lit c) <$> parse_re rest
  end.

(** [fullmatch]: a dot takes anything but a newline, [$] also looks before a
    last newline, and the whole text has to be used. *)
Fixpoint full_match (r : list atom) (start : bool) (s : string) : bool :=
  match r with
  | [] => bool_decide (s = "")
  | Bol :: r => start && full_match r start s
  | Eol :: r => (bool_decide (s = "") || bool_decide (s = String newline "")) && full_match r start s
  | Lit c :: r => match s with String d s' => bool_decide (d = c) && full_match r false s' | EmptyString => false end
  | AnyStar :: r =>
      (fix run start s :=
         full_match r start s ||
         match s with
         | String d s' => negb (bool_decide (d = newline)) && run false s'
         | EmptyString => false
         end) start s
  end.

Definition re_fullmatch (regex s : string) : bool :=
  match parse_re regex with Some r => full_match r true s | None => false end.

Fixpoint any_glob (request_path : string) (patterns : list string) : bool :=
  match patterns with
  | [] => false
  | p :: rest => if re_fullmatch (regex_of p) request_path then true else any_glob request_path rest
  end.

Definition _path_matches_globs (request_path : string) (patterns : list string) : bool :=
  match patterns with [] => true | _ => any_glob request_path patterns end.

(** ** The text of a token *)

Definition token_raw (raw : list N) : Prop := length raw = _API_TOKEN_BODY_BYTES ∧ Forall is_byte raw.

Definition b32_value (c : ascii) : N := let n := N_of_ascii c in if n <? 97 then n - 24 else n - 97.

Lemma quintet_bound k v : quintet k v < 32.
Proof. unfold quintet. apply N.mod_lt. done. Qed.

(** The character of a body. *)
Definition body_char (n : N) : ascii :=
  if (65 <=? N_of_ascii (b32_char n)) && (N_of_ascii (b32_char n) <=? 90)
  then ascii_of_N (N_of_ascii (b32_char n) + 32) else b32_char n.

Lemma lower_quintets n l : lower (of_quintets (n :: l)) = String (body_char n) (lower (of_quintets l)).
Proof. done. Qed.

Lemma body_char_spec n : n < 32 →
  b32_value (body_char n) = n ∧ b32_char n ≠ "="%char ∧ N_of_ascii (body_char n) < 128 ∧ blank (body_char n) = false.
Proof.
  intros Hn. assert (forallb (λ k, let n := N.of_nat k in
    (b32_value (body_char n) =? n) && negb (bool_decide (b32_char n = "="%char)) && (N_of_ascii (body_char n) <? 128)
    && negb (blank (body_char n))) (seq 0 32) = true) as Hall by (vm_compute; reflexivity).
  rewrite forallb_forall in Hall. specialize (Hall (N.to_nat n)). cbv zeta in Hall. rewrite N2Nat.id in Hall.
  assert (In (N.to_nat n) (seq 0 32)) as Hin by (apply list_elem_of_In, elem_of_seq; lia).
  apply Hall in Hin. rewrite !andb_true_iff, N.eqb_eq, !negb_true_iff, N.ltb_lt, bool_decide_eq_false in Hin. tauto.
Qed.

(** The values of the characters of a body. *)
Fixpoint values (s : string) : list N := match s with EmptyString => [] | String c s' => b32_value c :: values s' end.

Lemma values_lower l : Forall (λ n, n < 32) l → values (lower (of_quintets l)) = l.
Proof.
  induction 1 as [|n l Hn Hl IH]; [done|]. rewrite lower_quintets. cbn [values]. rewrite IH. f_equal. by apply body_char_spec.
Qed.

Lemma rstrip_pads l n : Forall (λ n, n < 32) l → rstrip_pad (of_quintets l +:+ pads n) = of_quintets l.
Proof.
  intros Hl. assert (rstrip_pad (pads n) = "") as Hn.
  { induction n as [|n IH]; [done|]. cbn. by rewrite IH. }
  induction Hl as [|x l Hx Hl IH]; [exact Hn|]. cbn [of_quintets foldr]. rewrite str_app_cons. cbn [rstrip_pad].
  change (foldr _ "" l) with (of_quintets l). rewrite IH. destruct (of_quintets l) eqn:E; [|done].
  rewrite bool_decide_eq_false_2; [done|]. by apply body_char_spec.
Qed.

Lemma quintet_step k x : x / 32 ^ k = x / 32 ^ (k + 1) * 32 + quintet k x.
Proof.
  unfold quintet. rewrite N.pow_add_r, N.pow_1_r, <- N.Div0.div_div. pose proof (N.div_mod (x / 32 ^ k) 32). lia.
Qed.

(** Five bytes are in their eight quintets. *)
Lemma group5_inj a b c d e a' b' c' d' e' :
  Forall is_byte [a; b; c; d; e] → Forall is_byte [a'; b'; c'; d'; e'] →
  group5 a b c d e = group5 a' b' c' d' e' → [a; b; c; d; e] = [a'; b'; c'; d'; e'].
Proof.
  rewrite !Forall_cons, !Forall_nil. unfold is_byte. intros Ha Ha'. unfold group5.
  set (v := (((a * 256 + b) * 256 + c) * 256 + d) * 256 + e). set (v' := (((a' * 256 + b') * 256 + c') * 256 + d') * 256 + e').
  intros [= H7 H6 H5 H4 H3 H2 H1 H0].
  assert (∀ x, x < 256 ^ 5 → x = (((((((quintet 7 x * 32 + quintet 6 x) * 32 + quintet 5 x) * 32 + quintet 4 x) * 32
    + quintet 3 x) * 32 + quintet 2 x) * 32 + quintet 1 x) * 32 + quintet 0 x)) as Hq.
  { intros x Hx. pose proof (quintet_step 7 x) as S7. pose proof (quintet_step 6 x) as S6. pose proof (quintet_step 5 x) as S5.
    pose proof (quintet_step 4 x) as S4. pose proof (quintet_step 3 x) as S3. pose proof (quintet_step 2 x) as S2.
    pose proof (quintet_step 1 x) as S1. pose proof (quintet_step 0 x) as S0. 
    change (7 + 1) with 8 in S7. change (6 + 1) with 7 in S6. change (5 + 1) with 6 in S5. change (4 + 1) with 5 in S4. change (3 + 1) with 4 in S3. change (2 + 1) with 3 in S2. change (1 + 1) with 2 in S1. change (0 + 1) with 1 in S0.
    rewrite (N.div_small x (32 ^ 8)) in S7 by exact Hx. change (32 ^ 0) with 1 in S0. rewrite N.div_1_r in S0. lia. }
  assert (v = v') as Hv.
  { rewrite (Hq v), (Hq v') by (subst v v'; change (256 ^ 5) with 1099511627776; lia).
    by rewrite H7, H6, H5, H4, H3, H2, H1, H0. }
  subst v v'. assert (a = a' ∧ b = b' ∧ c = c' ∧ d = d' ∧ e = e') as (-> & -> & -> & -> & ->) by lia. done.
Qed.

Lemma quintets_app n l l' : length l = (5 * n)%nat → quintets (l ++ l') = quintets l ++ quintets l'.
Proof.
  revert l. induction n as [|n IH]; intros l Hl; [by destruct l|].
  destruct l as [|a [|b [|c [|d [|e l]]]]]; cbn [length] in Hl; try lia.
  cbn [app quintets]. rewrite IH by lia. by rewrite app_assoc.
Qed.

Lemma quintets_length n l : length l = (5 * n)%nat → length (quintets l) = (8 * n)%nat.
Proof.
  revert l. induction n as [|n IH]; intros l Hl; [by destruct l|].
  destruct l as [|a [|b [|c [|d [|e l]]]]]; cbn [length] in Hl; try lia.
  cbn [quintets]. rewrite length_app, IH by lia. cbn. lia.
Qed.

Lemma quintets_bound n l : length l = (5 * n)%nat → Forall (λ q, q < 32) (quintets l).
Proof.
  revert l. induction n as [|n IH]; intros l Hl; [by destruct l|].
  destruct l as [|a [|b [|c [|d [|e l]]]]]; cbn [length] in Hl; try lia.
  cbn [quintets]. apply Forall_app. split; [|apply IH; lia]. unfold group5. repeat constructor; apply quintet_bound.
Qed.

Lemma quintets_inj n l l' :
  length l = (5 * n)%nat → length l' = (5 * n)%nat → Forall is_byte l → Forall is_byte l' →
  quintets l = quintets l' → l = l'.
Proof.
  revert l l'. induction n as [|n IH]; intros l l' Hl Hl' Hb Hb' Heq; [by destruct l, l'|].
  destruct l as [|a [|b [|c [|d [|e l]]]]]; cbn [length] in Hl; try lia.
  destruct l' as [|a' [|b' [|c' [|d' [|e' l']]]]]; cbn [length] in Hl'; try lia.
  change (a :: b :: c :: d :: e :: l) with ([a; b; c; d; e] ++ l) in *.
  change (a' :: b' :: c' :: d' :: e' :: l') with ([a'; b'; c'; d'; e'] ++ l') in *.
  apply Forall_app in Hb as [Hg Hb]. apply Forall_app in Hb' as [Hg' Hb'].
  assert (group5 a b c d e ++ quintets l = group5 a' b' c' d' e' ++ quintets l') as Happ by exact Heq.
  apply app_inj_1 in Happ as [Hgroup Hrest]; [|done].
  rewrite (group5_inj a b c d e a' b' c' d' e') by done. f_equal. apply IH; try done; lia.
Qed.

(** The last group of a token: two bytes and the filling. *)
Lemma last_group a b : is_byte a → is_byte b →
  ∃ q3 q2 q1 q0, group5 a b 0 0 0 = [q3; q2; q1; q0; 0; 0; 0; 0] ∧ (q0 = 0 ∨ q0 = 16).
Proof.
  unfold is_byte. intros Ha Hb. unfold group5.
  assert ((((a * 256 + b) * 256 + 0) * 256 + 0) * 256 + 0 = (a * 256 + b) * 16 * 32 ^ 4) as ->
    by (change (32 ^ 4) with 1048576; lia).
  set (w := a * 256 + b). unfold quintet.
  assert (∀ k, k <= 4 → w * 16 * 32 ^ 4 / 32 ^ k = w * 16 * 32 ^ (4 - k)) as Hk.
  { intros k Hk. replace (32 ^ 4) with (32 ^ (4 - k) * 32 ^ k) by (rewrite <- N.pow_add_r; f_equal; lia).
    rewrite N.mul_assoc. apply N.div_mul, N.pow_nonzero. done. }
  rewrite !(Hk 3), !(Hk 2), !(Hk 1), !(Hk 0), !(Hk 4) by lia.
  change (32 ^ (4 - 3)) with 32. change (32 ^ (4 - 2)) with (32 * 32). change (32 ^ (4 - 1)) with (32 * 32 * 32).
  change (32 ^ (4 - 0)) with (32 * 32 * 32 * 32). change (32 ^ (4 - 4)) with 1.
  rewrite !N.mul_assoc, !N.Div0.mod_mul. eexists _, _, _, _. split; [reflexivity|].
  rewrite N.mul_1_r. assert (w * 16 = w / 2 * 32 + w mod 2 * 16) as -> by (pose proof (N.div_mod w 2); lia).
  rewrite N.add_comm, N.Div0.mod_add.
  generalize (N.mod_lt w 2 ltac:(done)). generalize (w mod 2). clear. intros x Hx.
  assert (x = 0 ∨ x = 1) as [-> | ->] by lia; auto.
Qed.

(** The quintets of a token, without those of the filling. *)
Definition token_quintets (raw : list N) : list N := take 52 (quintets (raw ++ [0; 0; 0])).

Lemma raw_split raw : token_raw raw →
  ∃ front a b, raw = front ++ [a; b] ∧ length front = (5 * 6)%nat ∧ is_byte a ∧ is_byte b.
Proof.
  intros [Hlen Hb]. exists (take 30 raw).
  assert (length (drop 30 raw) = 2%nat) as Hd by (rewrite length_drop, Hlen; done).
  destruct (drop 30 raw) as [|a [|b [|]]] eqn:E; try done. exists a, b.
  rewrite <- (take_drop 30 raw), E in Hb. apply Forall_app in Hb as [_ Hb].
  apply Forall_cons in Hb as [Ha Hb]. apply Forall_cons in Hb as [Hb _].
  split_and!; try done; [by rewrite <- E, take_drop|rewrite length_take, Hlen; done].
Qed.

Lemma token_quintets_spec raw : token_raw raw →
  quintets (raw ++ [0; 0; 0]) = token_quintets raw ++ [0; 0; 0; 0] ∧ length (token_quintets raw) = 52%nat ∧
  Forall (λ q, q < 32) (token_quintets raw) ∧ ∃ l q, token_quintets raw = l ++ [q] ∧ (q = 0 ∨ q = 16).
Proof.
  intros Hraw. destruct (raw_split raw Hraw) as (front & a & b & -> & Hf & Ha & Hb).
  destruct (last_group a b Ha Hb) as (q3 & q2 & q1 & q0 & Hg & Hq0).
  assert (quintets ((front ++ [a; b]) ++ [0; 0; 0]) = (quintets front ++ [q3; q2; q1; q0]) ++ [0; 0; 0; 0]) as Hq.
  { rewrite <- !app_assoc. rewrite (quintets_app 6) by done. f_equal. exact Hg. }
  assert (length (quintets front ++ [q3; q2; q1; q0]) = 52%nat) as Hlen
    by (rewrite length_app, (quintets_length 6) by done; done).
  assert (token_quintets (front ++ [a; b]) = quintets front ++ [q3; q2; q1; q0]) as ->.
  { unfold token_quintets. rewrite Hq. by rewrite <- Hlen at 1; rewrite take_app_length. }
  split_and!; [exact Hq|exact Hlen| |].
  - assert (Forall (λ q, q < 32) (quintets ((front ++ [a; b]) ++ [0; 0; 0]))) as Hall
      by (apply (quintets_bound 7); rewrite !length_app, Hf; done).
    rewrite Hq in Hall. by apply Forall_app in Hall as [? _].
  - exists (quintets front ++ [q3; q2; q1]), q0. by rewrite <- app_assoc.
Qed.

Definition token_body (raw : list N) : string := lower (of_quintets (token_quintets raw)).
Definition token_text (raw : list N) : string := _API_TOKEN_PREFIX +:+ token_body raw.

Lemma lower_length s : String.length (lower s) = String.length s.
Proof. induction s as [|c s IH]; [done|]. cbn. by rewrite IH. Qed.

Lemma of_quintets_length l : String.length (of_quintets l) = length l.
Proof. induction l as [|n l IH]; [done|]. cbn. by rewrite <- IH. Qed.

Lemma body_length raw : token_raw raw → String.length (token_body raw) = _API_TOKEN_BODY_LEN.
Proof.
  intros Hraw. unfold token_body. rewrite lower_length, of_quintets_length. by apply token_quintets_spec.
Qed.

(** Thirty-two bytes always give a token. *)
Lemma new_token raw : token_raw raw → _new_api_token_plaintext raw = Ret (token_text raw).
Proof.
  intros Hraw. pose proof (body_length raw Hraw) as Hlen. pose proof (token_quintets_spec raw Hraw) as (Hq & Hn & Hb & _).
  unfold _new_api_token_plaintext.
  assert (rstrip_pad (b32encode raw) = of_quintets (token_quintets raw)) as ->.
  { unfold b32encode. cbv zeta. destruct Hraw as [-> _]. change (_API_TOKEN_BODY_BYTES mod 5)%nat with 2%nat. cbn [filling].
    change (repeat 0 (5 - 2)%nat) with [0; 0; 0]. rewrite Hq, length_app, Hn. cbn [length].
    change (52 + 4 - 4)%nat with 52%nat. rewrite <- Hn at 1. rewrite take_app_length. by apply rstrip_pads. }
  change (lower (of_quintets (token_quintets raw))) with (token_body raw). by rewrite Hlen.
Qed.

Lemma token_text_inj raw raw' : token_raw raw → token_raw raw' → token_text raw = token_text raw' → raw = raw'.
Proof.
  intros Hraw Hraw' Heq%str_app_inj_l.
  destruct (token_quintets_spec raw Hraw) as (Hq & _ & Hb & _).
  destruct (token_quintets_spec raw' Hraw') as (Hq' & _ & Hb' & _).
  assert (token_quintets raw = token_quintets raw') as Ht.
  { rewrite <- (values_lower _ Hb), <- (values_lower _ Hb'). unfold token_body in Heq. by rewrite Heq. }
  assert (raw ++ [0; 0; 0] = raw' ++ [0; 0; 0]) as Happ%app_inv_tail; [|done].
  destruct Hraw as [Hn Hr], Hraw' as [Hn' Hr'].
  apply (quintets_inj 7); rewrite ?length_app, ?Hn, ?Hn'; try done.
  1,2: apply Forall_app; split; [done|]; repeat constructor; done.
  by rewrite Hq, Hq', Ht.
Qed.

(** The last character is one of two: the four that the table is searched by
    have 65536 values. *)
Lemma token_last_char raw : token_raw raw →
  ∃ front c, token_text raw = front +:+ String c "" ∧ (c = "a" ∨ c = "q")%char.
Proof.
  intros Hraw. destruct (token_quintets_spec raw Hraw) as (_ & _ & _ & l & q & Hl & Hq).
  exists (_API_TOKEN_PREFIX +:+ lower (of_quintets l)). unfold token_text, token_body. rewrite Hl.
  assert (lower (of_quintets (l ++ [q])) = lower (of_quintets l) +:+ lower (of_quintets [q])) as ->.
  { clear. induction l as [|x l IH]; [done|]. cbn -[b32_char]. rewrite str_app_cons. f_equal. exact IH. }
  rewrite <- !str_app_assoc. destruct Hq as [-> | ->]; [exists "a"%char|exists "q"%char]; auto.
Qed.

Lemma token_ascii raw : token_raw raw → is_ascii (token_text raw) = true.
Proof.
  intros Hraw. destruct (token_quintets_spec raw Hraw) as (_ & _ & Hb & _).
  unfold is_ascii, token_text. rewrite all_chars_app. apply andb_true_iff. split; [reflexivity|].
  unfold token_body. clear Hraw. induction Hb as [|n l Hn Hb IH]; [done|]. rewrite lower_quintets. cbn [all_chars].
  rewrite IH, andb_true_r. by apply N.ltb_lt, body_char_spec.
Qed.

Lemma chars_ascii s : is_ascii s = true → length (chars s) = String.length s ∧ join "" (chars s) = s.
Proof.
  unfold is_ascii. induction s as [|c s IH]; [done|]. cbn [all_chars]. intros [Hc Hs]%andb_true_iff.
  apply N.ltb_lt in Hc. specialize (IH Hs) as [Hlen Hjoin]. cbn [chars].
  destruct s as [|d s]; [by split|]. cbn [all_chars] in Hs. apply andb_true_iff in Hs as [Hd _]. apply N.ltb_lt in Hd.
  assert (∃ x rest, chars (String d s) = String d x :: rest) as (x & rest & E).
  { cbn [chars]. repeat case_match; eauto. }
  rewrite E in *. assert ((128 <=? N_of_ascii d) = false) as -> by (apply N.leb_gt; done). cbn [andb].
  split; [change (S (length (String d x :: rest)) = S (String.length (String d s))); by rewrite Hlen|].
  rewrite join_cons by done. by rewrite Hjoin.
Qed.

Lemma token_length raw : token_raw raw → length (chars (token_text raw)) = _API_TOKEN_FULL_LEN.
Proof.
  intros Hraw. rewrite (proj1 (chars_ascii _ (token_ascii raw Hraw))). unfold token_text.
  rewrite str_length_app, body_length by done. done.
Qed.

Lemma strip_unblank s : is_ascii s = true → all_chars (λ c, negb (blank c)) s = true → strip_text s = s.
Proof.
  intros Ha Hb. destruct (chars_ascii s Ha) as [_ Hjoin]. unfold strip_text.
  assert (Forall (λ c, unicode_blank c = false) (chars s)) as Hf.
  { clear Hjoin. induction s as [|c s IH]; [constructor|]. unfold is_ascii in Ha. cbn [all_chars] in Ha, Hb.
    apply andb_true_iff in Ha as [Hc Ha], Hb as [Hn Hb]. specialize (IH Ha Hb). apply negb_true_iff in Hn.
    cbn [chars]. destruct (chars s) as [|[|d x] rest] eqn:E; [by constructor|by constructor|].
    destruct s as [|e s]; [done|]. assert (d = e) as -> by (cbn [chars] in E; repeat case_match; congruence).
    cbn [all_chars] in Ha. apply andb_true_iff in Ha as [He%N.ltb_lt _].
    assert ((128 <=? N_of_ascii e) = false) as -> by (apply N.leb_gt; done). by constructor. }
  assert (∀ l, Forall (λ c, unicode_blank c = false) l → drop_blank l = l) as Hd.
  { intros l Hl. destruct Hl as [|c l Hc Hl]; [done|]. cbn [drop_blank]. by rewrite Hc. }
  rewrite (Hd (chars s)) by done. rewrite Hd by (by apply Forall_rev). by rewrite rev_involutive.
Qed.

Lemma token_unblank raw : token_raw raw → strip_text (token_text raw) = token_text raw.
Proof.
  intros Hraw. apply strip_unblank; [by apply token_ascii|]. unfold token_text. rewrite all_chars_app.
  apply andb_true_iff. split; [reflexivity|]. destruct (token_quintets_spec raw Hraw) as (_ & _ & Hb & _).
  unfold token_body. clear Hraw. induction Hb as [|n l Hn Hb IH]; [done|].
  rewrite lower_quintets. cbn [all_chars]. rewrite IH, andb_true_r. by apply negb_true_iff, body_char_spec.
Qed.

(** ** What a pattern matches *)

(** A star stands for any text without a newline, every other character for
    itself. *)
Inductive wild : string → string → Prop :=
| wild_end : wild "" ""
| wild_char c p s : c ≠ star → wild p s → wild (String c p) (String c s)
| wild_star p mid s : has_char newline mid = false → wild p s → wild (String star p) (mid +:+ s).

Fixpoint atoms (p : string) : list atom :=
  match p with
  | EmptyString => []
  | String c p' => (if bool_decide (c = star) then AnyStar else Lit c) :: atoms p'
  end.

Notation replaced := (replace_text (String bslash "*") ".*").

Lemma replaced_none c s : startswith (String c s) (String bslash "*") = false → replaced (String c s) = String c (replaced s).
Proof. intros Hs. unfold replace_text. cbn [replace_go]. by rewrite Hs. Qed.

Lemma escape_head p : startswith (re_escape p) "*" = false.
Proof.
  destruct p as [|c p]; [done|]. cbn [re_escape]. destruct (special c) eqn:Hc; [reflexivity|].
  cbn [startswith]. rewrite bool_decide_eq_false_2; [done|]. by intros <-.
Qed.

Lemma startswith_two a b s : startswith s (String b "") = false → startswith (String a s) (String bslash (String b "")) = false.
Proof.
  intros Hs. change (bool_decide (bslash = a) && startswith s (String b "") = false). by rewrite Hs, andb_false_r.
Qed.

(** The escaped pattern with its stars replaced, one character at a time. *)
Lemma replaced_escape c p :
  replaced (re_escape (String c p)) =
  (if bool_decide (c = star) then ".*" else if special c then String bslash (String c "") else String c "")
  +:+ replaced (re_escape p).
Proof.
  cbn [re_escape]. case_bool_decide as Hc.
  - subst c. change (special star) with true. generalize (re_escape p). intros x. by destruct x.
  - destruct (special c) eqn:Hsp.
    + rewrite replaced_none, replaced_none; [done| |].
      * by apply startswith_two, escape_head.
      * cbn [startswith]. rewrite (bool_decide_eq_false_2 (star = c)) by congruence. by rewrite andb_false_r.
    + rewrite replaced_none; [done|]. by apply startswith_two, escape_head.
Qed.

Lemma parse_escaped p : parse_re (replaced (re_escape p) +:+ "$") = Some (atoms p ++ [Eol]).
Proof.
  induction p as [|c p IH]; [reflexivity|]. rewrite replaced_escape. cbn [atoms].
  case_bool_decide as Hc; [|destruct (special c) eqn:Hsp].
  - rewrite str_app_assoc. revert IH. generalize (replaced (re_escape p) +:+ "$"). intros x IH.
    change (parse_re (".*" +:+ x)) with (cons AnyStar <$> parse_re x). by rewrite IH.
  - rewrite !str_app_assoc. rewrite !str_app_cons. cbn [parse_re]. rewrite bool_decide_eq_true_2, Hsp by done.
    change ("" +:+ ?x) with x. by rewrite IH.
  - rewrite !str_app_assoc, !str_app_cons. cbn [parse_re]. rewrite Hsp.
    rewrite !bool_decide_eq_false_2 by (intros ->; done). change ("" +:+ ?x) with x. by rewrite IH.
Qed.

Lemma parse_regex p : parse_re (regex_of p) = Some (Bol :: atoms p ++ [Eol]).
Proof.
  unfold regex_of. change ("^" +:+ ?x) with (String "^" x). cbn [parse_re]. by rewrite parse_escaped.
Qed.

(** ** Matching *)

Lemma full_lit c r b s : full_match (Lit c :: r) b s = true ↔ ∃ s', s = String c s' ∧ full_match r false s' = true.
Proof.
  destruct s as [|d s]; cbn; [split; [done|by intros (? & ? & _)]|].
  rewrite andb_true_iff, bool_decide_eq_true. split; [intros [-> Hm]; by exists s|by intros (s' & [= -> ->] & Hm)].
Qed.

(** Without [Bol] the start does not matter. *)
Lemma full_start p b b' s : full_match (atoms p ++ [Eol]) b s = full_match (atoms p ++ [Eol]) b' s.
Proof.
  revert b b' s. induction p as [|c p IH]; intros b b' s; [done|]. cbn [atoms app].
  case_bool_decide; [|done]. destruct s as [|d s]; cbn; by rewrite (IH b b').
Qed.

Lemma full_any p b s : full_match (AnyStar :: atoms p ++ [Eol]) b s = true ↔
  ∃ mid s', s = mid +:+ s' ∧ has_char newline mid = false ∧ full_match (atoms p ++ [Eol]) false s' = true.
Proof.
  revert b. induction s as [|d s IH]; intros b.
  - cbn. rewrite orb_false_r. rewrite (full_start p b false). split; [intros Hm; by exists "", ""|].
    intros (mid & s' & Heq & _ & Hm). destruct mid; [|done]. by destruct s'.
  - change (full_match (AnyStar :: atoms p ++ [Eol]) b (String d s)) with
      (full_match (atoms p ++ [Eol]) b (String d s) ||
       (negb (bool_decide (d = newline)) && full_match (AnyStar :: atoms p ++ [Eol]) false s)).
    rewrite orb_true_iff, andb_true_iff, negb_true_iff, bool_decide_eq_false, IH, (full_start p b false). split.
    + intros [Hm|[Hd (mid & s' & -> & Hmid & Hm)]]; [by exists "", (String d s)|].
      exists (String d mid), s'. split_and!; [done| |done]. cbn [has_char]. by rewrite bool_decide_eq_false_2, Hmid.
    + intros (mid & s' & Heq & Hmid & Hm). destruct mid as [|e mid]; [left; by rewrite Heq|right].
      injection Heq as <- ->. cbn in Hmid. apply orb_false_iff in Hmid as [Hd%bool_decide_eq_false_1 Hmid].
      split; [done|]. by exists mid, s'.
Qed.

Lemma full_wild p s : full_match (atoms p ++ [Eol]) false s = true ↔ wild p s.
Proof.
  revert s. induction p as [|c p IH]; intros s.
  - cbn. rewrite andb_true_iff, bool_decide_eq_true. split.
    + intros [_ ->]. constructor.
    + by inversion 1.
  - cbn [atoms app]. case_bool_decide as Hc.
    + subst c. rewrite full_any. split.
      * intros (mid & s' & -> & Hmid & Hm). constructor; [done|by apply IH].
      * inversion 1; subst; [done|]. eexists _, _. split; [reflexivity|]. split; [done|by apply IH].
    + rewrite full_lit. split.
      * intros (s' & -> & Hm). constructor; [done|by apply IH].
      * inversion 1; subst; [|done]. eexists. split; [reflexivity|by apply IH].
Qed.

Lemma any_glob_wild request_path l : any_glob request_path l = true ↔ ∃ p, p ∈ l ∧ wild p request_path.
Proof.
  induction l as [|p l IH]; [split; [done|by intros (p & ?%not_elem_of_nil & _)]|].
  cbn [any_glob]. unfold re_fullmatch at 1. rewrite parse_regex.
  change (full_match (Bol :: atoms p ++ [Eol]) true request_path) with (full_match (atoms p ++ [Eol]) true request_path).
  rewrite (full_start p true false). pose proof (full_wild p request_path) as Hw.
  destruct (full_match _ _ _); [split; [intros _; exists p; split; [left|by apply Hw]|done]|].
  rewrite IH. split; intros (q & Hq & Hm); [exists q; split; [by right|done]|].
  apply elem_of_cons in Hq as [->|Hq]; [by apply Hw in Hm|by exists q].
Qed.

(** C14: A request path is within the patterns of a scope exactly when there
    are none or one of them matches it as it reads: a star for any text
    without a newline, every other character, special in a regular expression
    or not, for itself.  The docstring says that the star matches any character;
    the dot of the regular expression matches no newline ([star_no_newline]). *)
Theorem path_matches_globs (request_path : string) (patterns : list string) :
  _path_matches_globs request_path patterns = true ↔
  patterns = [] ∨ ∃ p, p ∈ patterns ∧ wild p request_path.
Proof.
  destruct patterns as [|p l]; [split; [by left|done]|]. cbn [_path_matches_globs]. rewrite any_glob_wild.
  split; [by right|by intros [|]].
Qed.

(** A path that holds a newline is outside the scope the docstring gives as its
    example. *)
Lemma star_no_newline : _path_matches_globs ("/v1/a" +:+ String newline "b") ["/v1/*"] = false.
Proof. vm_compute. reflexivity. Qed.

(** *** Reading a pattern *)

Lemma wild_lit c p s : c ≠ star → wild (String c p) s ↔ ∃ s', s = String c s' ∧ wild p s'.
Proof.
  intros Hc. split; [inversion 1; subst; [eauto|done]|]. intros (s' & -> & Hw). by constructor.
Qed.

Lemma wild_prefix p q s : has_char star p = false → wild (p +:+ q) s ↔ ∃ s', s = p +:+ s' ∧ wild q s'.
Proof.
  revert s. induction p as [|c p IH]; intros s Hp.
  - change ("" +:+ ?x) with x. split; [by exists s|by intros (s' & -> & Hw)].
  - cbn [has_char] in Hp. apply orb_false_iff in Hp as [Hc%bool_decide_eq_false_1 Hp].
    rewrite str_app_cons, wild_lit by done. split.
    + intros (s' & -> & (s'' & -> & Hw)%IH); [|done]. by exists s''.
    + intros (s' & -> & Hw). eexists. split; [reflexivity|]. apply IH; [done|]. by exists s'.
Qed.

Lemma wild_rest s : wild "*" s ↔ has_char newline s = false.
Proof.
  split.
  - inversion 1 as [| |p mid s' Hmid Hw]; subst; [done|]. inversion Hw; subst. by rewrite str_app_nil_r.
  - intros Hs. rewrite <- (str_app_nil_r s). constructor; [done|constructor].
Qed.

(** The scope a token has unless it is given another: the tree below [/v1/]. *)
Lemma default_scope request_path :
  wild "/v1/*" request_path ↔ ∃ rest, request_path = "/v1/" +:+ rest ∧ has_char newline rest = false.
Proof.
  change "/v1/*" with ("/v1/" +:+ "*"). rewrite wild_prefix by done.
  split; intros (rest & -> & Hr); exists rest; (split; [done|by apply wild_rest]).
Qed.

(** ** Examples *)

Example first_token : _new_api_token_plaintext (repeat 255 32) = Ret ("culk_" +:+ join "" (repeat "7" 51) +:+ "q").
Proof. vm_compute. reflexivity. Qed.

Example short_raw : is_ret (_new_api_token_plaintext [1; 2; 3]) = false.
Proof. vm_compute. reflexivity. Qed.

(** A dot is a dot, a star crosses slashes and a newline ends it. *)
Example glob_examples :
  map (λ p, _path_matches_globs p ["/v1/chat.completions"; "/v1/a*z"])
    ["/v1/chat.completions"; "/v1/chatXcompletions"; "/v1/a/b/z"; "/v1/az"; "/v1/a" +:+ String newline "z"; "/v1/az" +:+ String newline ""]
  = [true; false; true; true; false; false].
Proof. vm_compute. reflexivity. Qed.
