(* ===== verification/Quarantine.v ===== *)
(** * Quarantine of an agent

    [observability/quarantine.py] and the endpoint that reactivates an agent
    ([admin/agents.py]), on the tables of [AgentRegistry]: what the anomaly
    evaluator does with a decision, the expiry that deletes the agent, and the
    operator's way back.  A caller's notification is an argument: what it
    raises is swallowed. *)

From S2P Require Import Prelude Sha256 IsoTime UtcTime Json RateLimit ReplayStore Dpop Tier Intune Mdm AuditCanon AuditLog AuditChain Effects AgentRegistry Enrollment.
From Stdlib Require Import QArith.

Open Scope Z_scope.

Record TriggerInfo := {
  agent_id : string;
  current_rate_rps : Q;
  baseline_rpm : option Q;
  ratio : option Q;
  hour_of_week : option Z;
  mature : bool;
  sustained_ticks : Z;
}.

(** What the notification carries. *)
Record notice := {
  n_event_id : Z;
  n_trigger : TriggerInfo;
  n_mode : string;
  n_quarantined_at : string;
  n_expires_at : option string;
}.

Record ExpiryStats := { scanned : Z; deleted : Z; resolved : Z }.

Record ReactivationResult := {
  ok : bool;
  ra_agent_id : string;
  resolved_event_id : option Z;
  message : string;
}.

Definition enforce : string := "enforce".

Section Quarantine.
Context `{Hash} `{FromIso} `{Cryptography} `{ReplayGuard} (E : registry_env).

Notation M := (M registry_state).
Notation statement := (statement (statement_fails E)).
Notation transaction := (transaction (statement_fails E)).

(** ** A decision *)

Definition next_id (l : list quarantine_event) : Z := foldr (λ e n, Z.max (q_id e) n) 0 l + 1.

(** INSERT under the constraint on [mode]. *)
Definition insert_event (agent mode : string) (t : TriggerInfo) (expires_at : option string) (now_iso : string)
    : M unit :=
  statement (λ s,
    let tb := s_tables s in
    if bool_decide (mode = "shadow") || bool_decide (mode = "enforce") then
      (Ret tt, with_tables (with_events (quarantine_events tb ++
        [ {| q_id := next_id (quarantine_events tb); q_agent_id := agent; q_quarantined_at := now_iso;
             q_mode := mode; q_trigger_ratio := ratio t; q_trigger_abs_rate := current_rate_rps t;
             q_expires_at := expires_at; q_resolved_at := None; q_resolved_by := None |} ]) tb) s)
    else (Raise IntegrityError, s)).

Definition _insert_quarantine_event (agent mode : string) (t : TriggerInfo) (expires_at : option string)
    (now_iso : string) : M Z :=
  transaction
    (do _ <- insert_event agent mode t expires_at now_iso;
     do row <- select E (λ tb, head (List.filter (λ e,
       bool_decide (q_agent_id e = agent) && bool_decide (q_quarantined_at e = now_iso)) (quarantine_events tb)));
     ret (match row with Some e => q_id e | None => -1 end)).

(** [UPDATE internal_agents SET is_active = 0]: the revision stays. *)
Definition switched (active : bool) (a : internal_agent) : internal_agent :=
  core_with active (a_federation_revision a) a.

Definition _deactivate_agent (id : string) : M bool :=
  transaction (update_agents E (active_named id) (with_core (switched false))).

Definition notify (notification_dispatch : option (notice → option exn)) (n : notice) : M unit :=
  match notification_dispatch with
  | None => ret tt
  | Some dispatch => catch (match dispatch n with Some e => raise e | None => ret tt end) (λ _, ret tt)
  end.

Definition quarantine_hook (ttl_hours : Z) (notification_dispatch : option (notice → option exn))
    (t : TriggerInfo) (mode : string) (now : Z) : M unit :=
  let now_iso := z_text now in
  do expires_iso <- lift (if bool_decide (mode = enforce) then
                            let! expiry := datetime_of (now + hours ttl_hours) in Ret (Some (z_text expiry))
                          else Ret None);
  do event_id <- _insert_quarantine_event (agent_id t) mode t expires_iso now_iso;
  do _ <- (if bool_decide (mode = enforce) then
             catch (do _ <- _deactivate_agent (agent_id t); ret tt) (λ _, ret tt)
           else ret tt);
  notify notification_dispatch
    {| n_event_id := event_id; n_trigger := t; n_mode := mode; n_quarantined_at := now_iso;
       n_expires_at := expires_iso |}.

(** ** Expiry *)

Definition open_event (e : quarantine_event) : bool := bool_decide (q_resolved_at e = None).

(** [WHERE mode = 'enforce' AND resolved_at IS NULL AND expires_at < :now] *)
Definition due (now_iso : string) (e : quarantine_event) : bool :=
  bool_decide (q_mode e = enforce) && open_event e &&
  match q_expires_at e with Some expires => text_lt expires now_iso | None => false end.

Definition resolve (now_iso who : string) (e : quarantine_event) : quarantine_event :=
  {| q_id := q_id e; q_agent_id := q_agent_id e; q_quarantined_at := q_quarantined_at e; q_mode := q_mode e;
     q_trigger_ratio := q_trigger_ratio e; q_trigger_abs_rate := q_trigger_abs_rate e;
     q_expires_at := q_expires_at e; q_resolved_at := Some now_iso; q_resolved_by := Some who |}.

(** [DELETE FROM internal_agents WHERE agent_id = :a], with [rowcount > 0]. *)
Definition delete_agent (id : string) : M bool :=
  statement (λ s,
    let tb := s_tables s in
    (Ret (existsb (named id) (agents tb)),
     with_tables (with_agent_rows (List.filter (λ r, negb (named id r)) (agents tb)) tb) s)).

Definition is_open (id : Z) (e : quarantine_event) : bool := (q_id e =? id) && open_event e.

(** [UPDATE agent_quarantine_events SET ... WHERE id = :id AND resolved_at IS NULL] *)
Definition resolve_event (id : Z) (now_iso who : string) : M bool :=
  statement (λ s,
    let tb := s_tables s in
    (Ret (existsb (is_open id) (quarantine_events tb)),
     with_tables (with_events (update_rows (is_open id) (resolve now_iso who) (quarantine_events tb)) tb) s)).

Definition add_if (b : bool) (n : Z) : Z := if b then n + 1 else n.

Definition expire_one (now_iso : string) (st : ExpiryStats) (event : Z * string) : M ExpiryStats :=
  transaction
    (do gone <- delete_agent (snd event);
     do closed <- resolve_event (fst event) now_iso "expired";
     ret {| scanned := scanned st; deleted := add_if gone (deleted st); resolved := add_if closed (resolved st) |}).

Definition run_expiry_once (now : Z) : M ExpiryStats :=
  let now_iso := z_text now in
  do rows <- transaction (select E (λ tb,
    map (λ e, (q_id e, q_agent_id e)) (List.filter (due now_iso) (quarantine_events tb))));
  for_each (expire_one now_iso) {| scanned := Z.of_nat (length rows); deleted := 0; resolved := 0 |} rows.

(** [QuarantineExpiryScheduler._loop]: a pass that raises is retried. *)
Record expiry_scheduler := { runs_completed : Z; last_stats : option ExpiryStats }.

Definition expiry_tick (now : Z) (x : expiry_scheduler) : M expiry_scheduler :=
  catch
    (do stats <- run_expiry_once now;
     ret {| runs_completed := runs_completed x + 1; last_stats := Some stats |})
    (λ _, ret x).

(** ** Reactivation *)

Definition _operator_fingerprint (secret : string) : string := "operator:" +:+ String.substring 0 12 (hexdigest secret).

(** The last row by [quarantined_at]. *)
Fixpoint newest (l : list quarantine_event) : option quarantine_event :=
  match l with
  | [] => None
  | e :: rest =>
      match newest rest with
      | None => Some e
      | Some e' => if text_lt (q_quarantined_at e) (q_quarantined_at e') then Some e' else Some e
      end
  end.

Definition open_of (id : string) (e : quarantine_event) : bool := bool_decide (q_agent_id e = id) && open_event e.

Definition refused (id : string) (event : option Z) (why : string) : ReactivationResult :=
  {| ok := false; ra_agent_id := id; resolved_event_id := event; message := why |}.

(** The second transaction. *)
Definition clear_quarantine (id secret : string) (now : Z) (e : quarantine_event) : M ReactivationResult :=
  do row_exists <- update_agents E (named id) (with_core (switched true));
  if negb row_exists then
    ret (refused id (Some (q_id e))
      "agent row no longer exists (quarantine expired + hard-deleted) — re-enrollment required")
  else
    do _ <- resolve_event (q_id e) (z_text now) (_operator_fingerprint secret);
    ret {| ok := true; ra_agent_id := id; resolved_event_id := Some (q_id e); message := "agent reactivated" |}.

Definition reactivate_agent (id secret : string) (now : Z) : M ReactivationResult :=
  do event <- transaction (select E (λ tb, newest (List.filter (open_of id) (quarantine_events tb))));
  match event with
  | None => ret (refused id None "no active quarantine event for this agent")
  | Some e =>
      if negb (bool_decide (q_mode e = enforce)) then
        ret (refused id None ("most recent event is mode=" +:+ repr (JStr (q_mode e)) +:+
               " — shadow events never quarantined the agent, nothing to clear"))
      else transaction (clear_quarantine id secret now e)
  end.

Definition id_text (o : option Z) : string := match o with Some n => pretty n | None => "None" end.

Definition reactivate_agent_endpoint (x_admin_secret id : string) (now : Z) : M ReactivationResult :=
  do _ <- lift (_require_admin_secret E x_admin_secret);
  do result <- reactivate_agent id x_admin_secret now;
  if negb (ok result) then raise (HTTPException 404 (message result))
  else
    do _ <- audit E (admin_call "agent.reactivated_from_quarantine"
      ("agent_id=" +:+ id +:+ " event_id=" +:+ id_text (resolved_event_id result)));
    ret result.

End Quarantine.

(** ** What the operations do to the tables *)

Section Effects.
Context `{Hash} `{FromIso} `{Cryptography} `{ReplayGuard} (E : registry_env).

Definition open_decision (n : Z) (t : TriggerInfo) (mode now_iso : string) (expires_at : option string)
    : quarantine_event :=
  {| q_id := n; q_agent_id := agent_id t; q_quarantined_at := now_iso; q_mode := mode; q_trigger_ratio := ratio t;
     q_trigger_abs_rate := current_rate_rps t; q_expires_at := expires_at; q_resolved_at := None;
     q_resolved_by := None |}.

Definition expiry_of (ttl_hours : Z) (mode : string) (now : Z) : option string :=
  if bool_decide (mode = enforce) then Some (z_text (now + hours ttl_hours)) else None.

(** The tables with the event of a decision. *)
Definition recorded (ttl_hours : Z) (t : TriggerInfo) (mode : string) (now : Z) (tb : tables) : tables :=
  with_events (quarantine_events tb ++
    [open_decision (next_id (quarantine_events tb)) t mode (z_text now) (expiry_of ttl_hours mode now)]) tb.

Definition switched_off (id : string) (tb : tables) : tables :=
  with_agent_rows (update_rows (active_named id) (with_core (switched false)) (agents tb)) tb.

Lemma restore_tables s s' : s_tables (restore s s') = s_tables s.
Proof. done. Qed.

(** A transaction puts the tables back when it raises. *)
Lemma undone_tables {A} (m : M registry_state A) s (Q : A → tables → Prop) :
  (∀ a s1, m s = (Ret a, s1) → Q a (s_tables s1)) →
  let '(r, s') := transaction (statement_fails E) m s in
  match r with Ret a => Q a (s_tables s') | Raise _ => s_tables s' = s_tables s end.
Proof.
  intros HQ. unfold transaction. destruct (m s) as [[a|e] s1] eqn:Hm; [|done].
  unfold statement. destruct (statement_fails E _); [done|]. by apply (HQ a s1).
Qed.

Lemma statement_up {A} (m : M registry_state A) s :
  (∀ n, statement_fails E n = None) → statement (statement_fails E) m s = m (issued s).
Proof. intros Hup. unfold statement. by rewrite Hup. Qed.

Lemma transaction_up {A} (m : M registry_state A) s :
  (∀ n, statement_fails E n = None) →
  is_ret (fst (m s)) = true → is_ret (fst (transaction (statement_fails E) m s)) = true.
Proof.
  intros Hup Hm. unfold transaction. destruct (m s) as [[a|e] s1]; [|done]. by rewrite statement_up.
Qed.

Lemma notify_quiet dispatch n s : notify dispatch n s = (Ret tt, s).
Proof. unfold notify. destruct dispatch as [d|]; [unfold catch; by destruct (d n)|done]. Qed.

Lemma insert_quarantine_event_spec agent mode t expires now_iso s :
  agent = agent_id t →
  let '(r, s') := _insert_quarantine_event E agent mode t expires now_iso s in
  match r with
  | Ret _ => s_tables s' = with_events (quarantine_events (s_tables s) ++
      [open_decision (next_id (quarantine_events (s_tables s))) t mode now_iso expires]) (s_tables s)
  | Raise _ => s_tables s' = s_tables s
  end.
Proof.
  intros ->. apply (undone_tables _ s (λ _ tb, tb = with_events (quarantine_events (s_tables s) ++
    [open_decision (next_id (quarantine_events (s_tables s))) t mode now_iso expires]) (s_tables s))).
  intros n s1 Hrun.
  apply bind_Ret in Hrun as ([] & s2 & Hins%statement_Ret & Hrun).
  apply bind_Ret in Hrun as (row & s3 & [_ ->]%select_Ret & Hrun). injection Hrun as _ <-.
  destruct (_ || _); [|done]. by injection Hins as <-.
Qed.

Lemma insert_quarantine_event_up agent mode t expires now_iso s :
  (∀ n, statement_fails E n = None) → mode = "shadow" ∨ mode = enforce →
  is_ret (fst (_insert_quarantine_event E agent mode t expires now_iso s)) = true.
Proof.
  intros Hup Hmode. apply transaction_up; [done|]. unfold insert_event, bind. rewrite statement_up by done.
  assert (bool_decide (mode = "shadow") || bool_decide (mode = "enforce") = true) as ->
    by (destruct Hmode as [->| ->]; done).
  unfold select. by rewrite statement_up.
Qed.

Lemma deactivate_agent_spec id s :
  let '(r, s') := _deactivate_agent E id s in
  match r with Ret _ => s_tables s' = switched_off id (s_tables s) | Raise _ => s_tables s' = s_tables s end.
Proof.
  apply (undone_tables _ s (λ _ tb, tb = switched_off id (s_tables s))). intros b s1 Hrun. by apply update_agents_Ret in Hrun as [_ ->].
Qed.

Lemma deactivate_agent_up id s :
  (∀ n, statement_fails E n = None) → is_ret (fst (_deactivate_agent E id s)) = true.
Proof. intros Hup. apply transaction_up; [done|]. unfold update_agents. by rewrite statement_up. Qed.

(** A decision that fails before its row is written leaves the tables as
    they were.  Otherwise the row is there, open, with the expiry in enforce
    mode and none in shadow mode, and the agent is switched off in enforce
    mode exactly, at most; with a database that answers, an enforced decision
    within the calendar always ends with the row and the agent switched
    off. *)
Theorem decision_recorded ttl dispatch t mode now s :
  let '(r, s') := quarantine_hook E ttl dispatch t mode now s in
  (is_ret r = false → s_tables s' = s_tables s) ∧
  (is_ret r = true →
    s_tables s' = recorded ttl t mode now (s_tables s) ∨
    mode = enforce ∧ s_tables s' = switched_off (agent_id t) (recorded ttl t mode now (s_tables s))) ∧
  ((∀ n, statement_fails E n = None) → mode = enforce → representable (now + hours ttl) →
    is_ret r = true ∧ s_tables s' = switched_off (agent_id t) (recorded ttl t mode now (s_tables s))).
Proof.
  unfold quarantine_hook. set (expires := if bool_decide (mode = enforce) then _ else _).
  assert (expires = Ret (expiry_of ttl mode now) ∨ ∃ e, expires = Raise e ∧
    (mode = enforce → ¬ representable (now + hours ttl))) as Hexp.
  { subst expires. unfold expiry_of, datetime_of, representable. case_bool_decide; [|by left].
    destruct (Z.leb_spec first_instant (now + hours ttl)), (Z.ltb_spec (now + hours ttl) last_instant); cbn;
      (by left) || (right; eexists; split; [done|lia]). }
  destruct Hexp as [->|(e & -> & Hrange)]; [|cbn; split_and!; try done; intros _ Hm Hr; by destruct (Hrange Hm)].
  unfold bind at 1. cbn [lift]. unfold bind at 1.
  pose proof (insert_quarantine_event_spec (agent_id t) mode t (expiry_of ttl mode now) (z_text now) s eq_refl) as Hins.
  pose proof (insert_quarantine_event_up (agent_id t) mode t (expiry_of ttl mode now) (z_text now) s) as Hup.
  destruct (_insert_quarantine_event _ _ _ _ _ _ _) as [[n|e] s1].
  2:{ split_and!; [done|done|]. intros Hn Hm _. by specialize (Hup Hn (or_intror Hm)). }
  fold (recorded ttl t mode now (s_tables s)) in Hins.
  unfold bind. case_bool_decide as Hm.
  - unfold catch at 1. pose proof (deactivate_agent_spec (agent_id t) s1) as Hde.
    pose proof (deactivate_agent_up (agent_id t) s1) as Hok.
    destruct (_deactivate_agent _ _ s1) as [[b|e] s2]; cbn [ret].
    + rewrite notify_quiet. rewrite Hde, Hins. split_and!; [done|by right|done].
    + rewrite notify_quiet. rewrite Hde, Hins. split_and!; [done|by left|]. intros Hn. by specialize (Hok Hn).
  - cbn [ret]. rewrite notify_quiet. rewrite Hins. split_and!; [done|by left|]. intros _ Hm'. done.
Qed.

(** *** Expiry *)

Definition named_by (l : list quarantine_event) (r : agent) : bool :=
  existsb (λ e, bool_decide (q_agent_id e = r_agent_id r)) l.

(** The tables after a pass: the agents of the due events are gone and those
    events are resolved. *)
Definition expired_tables (now : Z) (tb : tables) : tables :=
  let gone := List.filter (due (z_text now)) (quarantine_events tb) in
  with_events (update_rows (due (z_text now)) (resolve (z_text now) "expired") (quarantine_events tb))
    (with_agent_rows (List.filter (λ r, negb (named_by gone r)) (agents tb)) tb).

(** The same, event by event. *)
Definition without_agent (id : string) (tb : tables) : tables :=
  with_agent_rows (List.filter (λ r, negb (named id r)) (agents tb)) tb.
Definition closed_event (id : Z) (now_iso who : string) (tb : tables) : tables :=
  with_events (update_rows (is_open id) (resolve now_iso who) (quarantine_events tb)) tb.
Definition expire_row (now_iso : string) (tb : tables) (event : Z * string) : tables :=
  closed_event (fst event) now_iso "expired" (without_agent (snd event) tb).

Lemma resolve_event_Ret id now_iso who s b s' :
  resolve_event E id now_iso who s = (Ret b, s') →
  b = existsb (is_open id) (quarantine_events (s_tables s)) ∧ s_tables s' = closed_event id now_iso who (s_tables s).
Proof. intros Hr%statement_Ret. by injection Hr as <- <-. Qed.

Lemma delete_agent_Ret id s b s' :
  delete_agent E id s = (Ret b, s') → s_tables s' = without_agent id (s_tables s).
Proof. intros Hr%statement_Ret. by injection Hr as <- <-. Qed.

Lemma expire_one_Ret now_iso st event s st' s' :
  expire_one E now_iso st event s = (Ret st', s') →
  s_tables s' = expire_row now_iso (s_tables s) event ∧ scanned st' = scanned st ∧
  resolved st' = add_if (existsb (is_open (fst event)) (quarantine_events (s_tables s))) (resolved st).
Proof.
  intros (s1 & Hrun & ->)%transaction_Ret. apply bind_Ret in Hrun as (gone & s2 & Hdel%delete_agent_Ret & Hrun).
  apply bind_Ret in Hrun as (closed & s3 & [-> Hres]%resolve_event_Ret & Hrun). injection Hrun as <- <-.
  rewrite Hdel in *. by split.
Qed.

Lemma expire_loop now_iso rows : ∀ st s st' s',
  for_each (expire_one E now_iso) st rows s = (Ret st', s') →
  s_tables s' = foldl (expire_row now_iso) (s_tables s) rows ∧ scanned st' = scanned st.
Proof.
  induction rows as [|x rows IH]; intros st s st' s' Hrun; cbn in Hrun; [by injection Hrun as <- <-|].
  apply bind_Ret in Hrun as (st1 & s1 & (Htb & Hsc & _)%expire_one_Ret & Hrun).
  apply IH in Hrun as [-> ->]. by rewrite Htb.
Qed.

Lemma update_rows_app_id (p q : quarantine_event → bool) now_iso who l :
  (∀ e, e ∈ l → q e = true → p (resolve now_iso who e) = false) →
  update_rows p (resolve now_iso who) (update_rows q (resolve now_iso who) l) =
  update_rows (λ e, p e || q e) (resolve now_iso who) l.
Proof.
  intros Hp. unfold update_rows. rewrite map_map. apply map_ext_in. intros e He%list_elem_of_In.
  destruct (q e) eqn:Hq; [|by rewrite orb_false_r]. by rewrite (Hp e He Hq), orb_true_r.
Qed.

Lemma update_rows_keys_of {A B} (k : A → B) p (f : A → A) l :
  (∀ a, k (f a) = k a) → k <$> update_rows p f l = k <$> l.
Proof. intros Hf. unfold update_rows. induction l as [|a l IH]; [done|]. cbn. f_equal; [|exact IH]. by destruct (p a). Qed.

Lemma update_rows_ext {A} (p q : A → bool) f l :
  (∀ a, a ∈ l → p a = q a) → update_rows p f l = update_rows q f l.
Proof. intros Hpq. apply map_ext_in. intros a Ha%list_elem_of_In. by rewrite Hpq. Qed.

Lemma expire_rows now_iso rows : ∀ tb,
  foldl (expire_row now_iso) tb rows = with_events
    (update_rows (λ e, open_event e && existsb (λ x, fst x =? q_id e) rows) (resolve now_iso "expired")
      (quarantine_events tb))
    (with_agent_rows (List.filter (λ r, negb (existsb (λ x, bool_decide (snd x = r_agent_id r)) rows)) (agents tb)) tb).
Proof.
  induction rows as [|[id a] rows IH]; intros tb; cbn [foldl existsb fst snd].
  - rewrite filter_id by (by apply Forall_forall). rewrite update_rows_none; [by destruct tb|].
    induction (quarantine_events tb) as [|e l IH]; cbn; [done|]. by rewrite andb_false_r.
  - rewrite IH. unfold expire_row, closed_event, without_agent. cbn -[update_rows]. rewrite update_rows_app_id.
    + rewrite <- filter_andb. destruct tb. unfold with_events, with_agent_rows. cbn -[update_rows]. f_equal.
      * apply filter_ext. intros r. unfold named. rewrite negb_orb. f_equal. f_equal.
        apply bool_decide_ext. naive_solver.
      * apply update_rows_ext. intros e _. unfold is_open. rewrite (Z.eqb_sym (q_id e)).
        destruct (open_event e), (id =? q_id e); cbn; by rewrite ?orb_true_r, ?orb_false_r.
    + intros e _ _. cbn. done.
Qed.

(** A pass of the expiry that completes deletes exactly the agents that an
    open enforced decision past its expiry names, whatever happened to them
    since, and resolves exactly those decisions as expired; no other agent,
    event or table changes. *)
Theorem expiry_exact now s st s' :
  NoDup (q_id <$> quarantine_events (s_tables s)) →
  run_expiry_once E now s = (Ret st, s') →
  s_tables s' = expired_tables now (s_tables s) ∧
  scanned st = Z.of_nat (length (List.filter (due (z_text now)) (quarantine_events (s_tables s)))).
Proof.
  intros Hnd Hrun. unfold run_expiry_once in Hrun. apply bind_Ret in Hrun as (rows & s1 & Hsel & Hrun).
  apply transaction_Ret in Hsel as (s2 & [-> ->]%select_Ret & ->).
  apply expire_loop in Hrun as [-> Hsc]. cbn in Hsc. rewrite length_map in Hsc. split; [|exact Hsc].
  rewrite expire_rows. unfold expired_tables. cbn. set (evs := quarantine_events (s_tables s)) in *.
  f_equal; [apply update_rows_ext; intros e He|].
  - apply eq_true_iff_eq. rewrite andb_true_iff, existsb_exists. split.
    + intros [_ ([id a] & Hin & Hid%Z.eqb_eq)]. cbn in Hid. apply list_elem_of_In, list_elem_of_fmap in Hin as (e' & [= -> ->] & Hin).
      apply elem_of_filter_bool in Hin as [Hin Hdue].
      assert (e' = e) as <-; [|done].
      apply list_elem_of_lookup in Hin as [i Hi]. apply list_elem_of_lookup in He as [j Hj].
      assert (i = j) as <- by (eapply (NoDup_lookup (q_id <$> evs)); [done|rewrite list_lookup_fmap, Hi; done|
        rewrite list_lookup_fmap, Hj; cbn; by rewrite Hid]). congruence.
    + intros Hdue. split; [by unfold due in Hdue; rewrite !andb_true_iff in Hdue; tauto|].
      exists (q_id e, q_agent_id e). cbn. split; [|apply Z.eqb_refl].
      apply list_elem_of_In, list_elem_of_fmap. exists e. split; [done|]. by apply elem_of_filter_bool.
  - unfold with_agent_rows. f_equal. apply filter_ext. intros r. f_equal. unfold named_by.
    clear. induction (List.filter _ evs) as [|e l IH]; [done|]. cbn. by rewrite IH.
Qed.

(** *** Reactivation *)

Definition switched_on (id : string) (tb : tables) : tables :=
  with_agent_rows (update_rows (named id) (with_core (switched true)) (agents tb)) tb.

Definition reactivated (id secret : string) (now : Z) (e : quarantine_event) (tb : tables) : tables :=
  closed_event (q_id e) (z_text now) (_operator_fingerprint secret) (switched_on id tb).

Definition newest_open (id : string) (tb : tables) : option quarantine_event :=
  newest (List.filter (open_of id) (quarantine_events tb)).

Definition clear_outcome (id secret : string) (now : Z) (e : quarantine_event) (tb0 : tables)
    (res : ReactivationResult) (tb : tables) : Prop :=
  if ok res then existsb (named id) (agents tb0) = true ∧ resolved_event_id res = Some (q_id e) ∧
                 tb = reactivated id secret now e tb0
  else tb = tb0.

Lemma clear_quarantine_Ret id secret now e s res s' :
  clear_quarantine E id secret now e s = (Ret res, s') →
  clear_outcome id secret now e (s_tables s) res (s_tables s').
Proof.
  intros Hrun. apply bind_Ret in Hrun as (b & s4 & [-> ->]%update_agents_Ret & Hrun). unfold clear_outcome.
  destruct (existsb (named id) (agents (s_tables s))) eqn:Hex; cbn [negb] in Hrun.
  - apply bind_Ret in Hrun as (b & s5 & [_ Hres]%resolve_event_Ret & Hrun). injection Hrun as <- <-. cbn [ok].
    split_and!; [done|done|]. by rewrite Hres.
  - injection Hrun as <- <-. cbn. rewrite update_rows_none by done. by destruct (s_tables s).
Qed.

Lemma select_tables {A} (f : tables → A) s :
  let '(r, s') := transaction (statement_fails E) (select E f) s in
  match r with Ret a => a = f (s_tables s) ∧ s_tables s' = s_tables s | Raise _ => s_tables s' = s_tables s end.
Proof.
  apply (undone_tables _ s (λ a tb, a = f (s_tables s) ∧ tb = s_tables s)).
  by intros a s1 [-> ->]%select_Ret.
Qed.

Lemma reactivate_agent_spec id secret now s :
  let '(r, s') := reactivate_agent E id secret now s in
  match r with
  | Raise _ => s_tables s' = s_tables s
  | Ret res =>
      if ok res then
        ∃ e, newest_open id (s_tables s) = Some e ∧ q_mode e = enforce ∧
             clear_outcome id secret now e (s_tables s) res (s_tables s')
      else s_tables s' = s_tables s
  end.
Proof.
  unfold reactivate_agent, bind. pose proof (select_tables (newest_open id) s) as Hsel. unfold newest_open at 1 in Hsel.
  destruct (transaction _ _ s) as [[o|x] s1]; [|done]. destruct Hsel as [-> Htb].
  destruct (newest_open id (s_tables s)) as [e|]; [|done]. case_bool_decide as Hm; [|done]. cbn [negb].
  pose proof (undone_tables (clear_quarantine E id secret now e) s1 (clear_outcome id secret now e (s_tables s))) as Htx.
  destruct (transaction _ (clear_quarantine E id secret now e) s1) as [[res|x] s2].
  - assert (clear_outcome id secret now e (s_tables s) res (s_tables s2)) as Hout
      by (apply Htx; intros a s3 Hrun%clear_quarantine_Ret; by rewrite Htb in Hrun).
    destruct (ok res) eqn:Hok; [by exists e|]. unfold clear_outcome in Hout. by rewrite Hok in Hout.
  - rewrite <- Htb. apply Htx. intros a s3 Hrun%clear_quarantine_Ret. by rewrite Htb in Hrun.
Qed.

Lemma reactivate_agent_up id secret now s e :
  (∀ n, statement_fails E n = None) →
  newest_open id (s_tables s) = Some e → q_mode e = enforce → existsb (named id) (agents (s_tables s)) = true →
  ∃ res s', reactivate_agent E id secret now s = (Ret res, s') ∧ ok res = true.
Proof.
  intros Hup He Hm Hex. unfold reactivate_agent, bind. unfold newest_open in He.
  unfold transaction at 1, select. rewrite statement_up by done. cbn [gets]. rewrite statement_up by done. cbn [ret].
  change (s_tables (issued s)) with (s_tables s). rewrite He. rewrite bool_decide_eq_true_2 by done. cbn [negb].
  unfold transaction, clear_quarantine, update_agents, resolve_event, bind. rewrite statement_up by done.
  change (s_tables (issued (issued (issued s)))) with (s_tables s). rewrite Hex. cbn [negb]. rewrite statement_up by done. cbn [ret].
  rewrite statement_up by done. by eexists _, _.
Qed.

(** A reactivation answers only when the newest open event of the agent is
    an enforced one and the agent still exists; then it has switched every row
    of that name on and resolved that event, and it, alone, under the
    operator's fingerprint.  In every other case the tables are as before,
    unless only the audit row of a completed reactivation is missing; and with
    a database that answers, such an agent is always switched on. *)
Theorem reactivation_exact secret id now s :
  let '(r, s') := reactivate_agent_endpoint E secret id now s in
  let done e := newest_open id (s_tables s) = Some e ∧ q_mode e = enforce ∧
                existsb (named id) (agents (s_tables s)) = true ∧
                s_tables s' = reactivated id secret now e (s_tables s) in
  (is_ret r = true → ∃ e, done e) ∧
  (s_tables s' = s_tables s ∨ ∃ e, done e) ∧
  (∀ e, (∀ n, statement_fails E n = None) → _require_admin_secret E secret = Ret tt →
    newest_open id (s_tables s) = Some e → q_mode e = enforce → existsb (named id) (agents (s_tables s)) = true →
    done e).
Proof.
  unfold reactivate_agent_endpoint, bind. cbn [lift].
  destruct (_require_admin_secret E secret) as [[]|x]; [|split_and!; [done|by left|done]].
  pose proof (reactivate_agent_spec id secret now s) as Hspec.
  pose proof (reactivate_agent_up id secret now s) as Hup.
  destruct (reactivate_agent E id secret now s) as [[res|x] s1].
  2:{ split_and!; [done|by left|]. intros e Hn _ He Hm Hex. by destruct (Hup e Hn He Hm Hex) as (? & ? & ? & _). }
  destruct (ok res) eqn:Hok; cbn [negb].
  - destruct Hspec as (e & He & Hm & Hout). unfold clear_outcome in Hout. rewrite Hok in Hout.
    destruct Hout as (Hex & _ & Htb).
    pose proof (audit_frame E (admin_call "agent.reactivated_from_quarantine"
      ("agent_id=" +:+ id +:+ " event_id=" +:+ id_text (resolved_event_id res))) s1) as [Haud _].
    destruct (audit E _ s1) as [[[]|x] s2]; cbn [fst snd ret] in *; rewrite Haud;
      (split_and!; [intros _; by exists e|right; by exists e|intros e' _ _ He' _ _]);
      rewrite He in He'; injection He' as <-; done.
  - cbn [raise]. split_and!; [done|by left|]. intros e Hn _ He Hm Hex.
    destruct (Hup e Hn He Hm Hex) as (res' & s' & [= <- <-] & Hok'). congruence.
Qed.

(** *** Consequences *)

(** A decision is due one second after its hours, and not before them. *)
Lemma decision_due n t now ttl later :
  representable (now + hours ttl) → representable later →
  (now + hours ttl + 1000000 <= later →
    due (z_text later) (open_decision n t enforce (z_text now) (expiry_of ttl enforce now)) = true) ∧
  (later + 1000000 <= now + hours ttl →
    due (z_text later) (open_decision n t enforce (z_text now) (expiry_of ttl enforce now)) = false).
Proof.
  intros Hx Hl. unfold due, open_decision, expiry_of, open_event. rewrite !bool_decide_eq_true_2 by done.
  cbn [q_mode q_resolved_at q_expires_at andb].
  rewrite text_lt_z by done. split; intros Hle.
  - by apply Z.ltb_lt, z_key_apart.
  - apply Z.ltb_ge, Z.lt_le_incl, z_key_apart, Hle.
Qed.

Lemma named_by_due now e l r :
  e ∈ l → due now e = true → q_agent_id e = r_agent_id r → named_by (List.filter (due now) l) r = true.
Proof.
  intros He Hd Hr. apply existsb_exists. exists e. split; [|by apply bool_decide_eq_true_2].
  by apply list_elem_of_In, elem_of_filter_bool.
Qed.

(** An agent named by a due decision is gone after the pass. *)
Lemma due_agent_gone now e tb id :
  e ∈ quarantine_events tb → due (z_text now) e = true → q_agent_id e = id →
  find_row id (agents (expired_tables now tb)) = None.
Proof.
  intros He Hd <-. apply (find_by_None r_agent_id). apply not_true_iff_false. intros Hex.
  apply existsb_exists in Hex as (r & Hin & Hr%bool_decide_eq_true_1).
  apply list_elem_of_In, elem_of_filter_bool in Hin as [_ Hn].
  by rewrite (named_by_due _ e) in Hn.
Qed.

(** The row keeps its revocation while it is switched on. *)
Lemma reactivation_undoes_revocation id secret now e tb r :
  r ∈ agents tb → r_agent_id r = id →
  ∃ r', r' ∈ agents (reactivated id secret now e tb) ∧ r_is_active r' = true ∧
        a_revoked_at (r_core r') = a_revoked_at (r_core r).
Proof.
  intros Hr Hid. exists (with_core (switched true) r). split; [|by split].
  apply elem_of_update_rows. exists r. split; [done|]. unfold named. by rewrite bool_decide_eq_true_2.
Qed.

(** The revision that the federation reads stays. *)
Lemma decision_not_federated id tb :
  (λ r, a_federation_revision (r_core r)) <$> agents (switched_off id tb) =
  (λ r, a_federation_revision (r_core r)) <$> agents tb.
Proof.
  unfold switched_off, update_rows. cbn. change (map ?f ?l) with (f <$> l). rewrite <- list_fmap_compose.
  apply list_fmap_ext. intros i r _. cbn. by destruct (active_named id r).
Qed.

(** A reactivation resolves one decision.  Where the evaluator wrote two
    for one agent, the older stays open, and the expiry deletes the agent that
    the operator reactivated as soon as that decision is due. *)
Theorem reactivated_agent_deleted id secret now later e e' s s1 st s2 :
  let tb := s_tables s in
  NoDup (q_id <$> quarantine_events tb) →
  newest_open id tb = Some e → e' ∈ quarantine_events tb → e' ≠ e → q_agent_id e' = id →
  due (z_text later) e' = true →
  s_tables s1 = reactivated id secret now e tb →
  run_expiry_once E later s1 = (Ret st, s2) →
  find_row id (agents (s_tables s2)) = None.
Proof.
  intros tb Hnd He He' Hne Hid Hd Hs1 Hrun.
  assert (e ∈ quarantine_events tb) as Hin.
  { clear -He. unfold newest_open in He.
    assert (∀ l, newest l = Some e → e ∈ l) as Hnew.
    { induction l as [|x l IH]; [done|]. cbn. destruct (newest l) as [y|]; [case_match|]; intros [= ->];
        [right; by apply IH|by left..]. }
    by apply Hnew, elem_of_filter_bool in He as [? _]. }
  assert (q_id <$> quarantine_events (s_tables s1) = q_id <$> quarantine_events tb) as Hids
    by (rewrite Hs1; unfold reactivated, closed_event; cbn -[update_rows]; by apply (update_rows_keys_of q_id)).
  destruct (expiry_exact later s1 st s2) as [-> _]; [by rewrite Hids|done|].
  apply (due_agent_gone later e'); [|done..]. rewrite Hs1. unfold reactivated, closed_event. cbn -[update_rows].
  apply elem_of_update_rows. exists e'. split; [done|]. unfold is_open.
  destruct (Z.eqb_spec (q_id e') (q_id e)) as [Heq|]; [|done]. exfalso. apply Hne.
  apply list_elem_of_lookup in He' as [i Hi]. apply list_elem_of_lookup in Hin as [j Hj].
  assert (i = j) as <- by (eapply (NoDup_lookup (q_id <$> quarantine_events tb));
    [done|rewrite list_lookup_fmap, Hi; done|rewrite list_lookup_fmap, Hj; cbn; by rewrite Heq]).
  congruence.
Qed.

End Effects.

(** ** Examples *)

#[local] Existing Instances PaperPki.crypto PaperPki.builder DpopDemo.runtime.

(** An agent above its limits, decided twice, ninety seconds apart. *)
Definition flood : TriggerInfo :=
  {| agent_id := "acme::alpha"; current_rate_rps := 150; baseline_rpm := None; ratio := None;
     hour_of_week := None; mature := false; sustained_ticks := 3 |}.

Definition decided (now : Z) (s : registry_state) : registry_state :=
  snd (quarantine_hook PaperPki.env 24 None flood enforce now s).

Definition decided_once : registry_state := decided 5000000 PaperPki.approved_once.
Definition decided_twice : registry_state := decided 95000000 decided_once.

Definition event_at (n : Z) (now : Z) : quarantine_event :=
  open_decision n flood enforce (z_text now) (expiry_of 24 enforce now).

Lemma two_events : quarantine_events (s_tables decided_twice) = [event_at 1 5000000; event_at 2 95000000].
Proof. vm_compute. reflexivity. Qed.

Lemma two_ids : NoDup (q_id <$> quarantine_events (s_tables decided_twice)).
Proof. rewrite two_events. cbn. repeat constructor; set_solver. Qed.

Lemma expiry_exact_witness :
  NoDup (q_id <$> quarantine_events (s_tables decided_twice)) ∧
  ∃ st s', run_expiry_once PaperPki.env 86406000000 decided_twice = (Ret st, s') ∧
    s_tables s' = expired_tables 86406000000 (s_tables decided_twice) ∧ scanned st = 1 ∧
    agents (s_tables s') = [].
Proof.
  split; [exact two_ids|].
  destruct (returned (run_expiry_once PaperPki.env 86406000000) decided_twice) as [st Hrun]; [vm_compute; reflexivity|].
  destruct (expiry_exact PaperPki.env 86406000000 decided_twice st _ two_ids Hrun) as [Htb Hsc].
  exists st, (snd (run_expiry_once PaperPki.env 86406000000 decided_twice)).
  split; [exact Hrun|]. split; [exact Htb|]. split; [rewrite Hsc; vm_compute; reflexivity|].
  rewrite Htb. vm_compute. reflexivity.
Defined.

(** The operator's reactivation, and the pass a day after the first decision. *)
Definition operator_reactivated : registry_state :=
  snd (reactivate_agent_endpoint PaperPki.env "secret" "acme::alpha" 600000000 decided_twice).

Lemma reactivated_agent_deleted_witness :
  r_is_active <$> find_row "acme::alpha" (agents (s_tables operator_reactivated)) = Some true ∧
  ∃ st s', run_expiry_once PaperPki.env 86406000000 operator_reactivated = (Ret st, s') ∧
    find_row "acme::alpha" (agents (s_tables s')) = None.
Proof.
  split; [vm_compute; reflexivity|].
  destruct (returned (run_expiry_once PaperPki.env 86406000000) operator_reactivated) as [st Hrun]; [vm_compute; reflexivity|].
  exists st, (snd (run_expiry_once PaperPki.env 86406000000 operator_reactivated)). split; [exact Hrun|].
  apply (reactivated_agent_deleted PaperPki.env "acme::alpha" "secret" 600000000 86406000000
    (event_at 2 95000000) (event_at 1 5000000) decided_twice operator_reactivated st); try exact two_ids; try exact Hrun.
  - vm_compute. reflexivity.
  - rewrite two_events. left.
  - discriminate.
  - reflexivity.
  - vm_compute. reflexivity.
  - vm_compute. reflexivity.
Defined.
