(* ===== verification/Traffic.v ===== *)
(** * Counting the requests of an agent

    [observability/traffic_recorder.py] and [observability/baseline_rollup.py]:
    the counters in memory and their flush into [agent_traffic_samples], and
    the daily roll-up of the samples into one mean per hour of the week.
    Instants are microseconds; floats are rationals. *)

From S2P Require Import Prelude Sha256 IsoTime UtcTime Effects AgentRegistry.
From Stdlib Require Import QArith Qround Lqa.

Open Scope Z_scope.

#[local] Ltac Zify.zify_post_hook ::= Z.to_euclidean_division_equations.

(** ** The tables *)

(** A row of [agent_traffic_samples]; the key is the agent and the bucket. *)
Record sample := { sm_agent_id : string; sm_bucket_ts : string; sm_req_count : Z }.

(** A row of [agent_hourly_baselines]; the key is the agent and the hour. *)
Record baseline := {
  bl_agent_id : string;
  bl_hour_of_week : Z;
  bl_req_per_min_avg : Q;
  bl_req_per_min_p95 : Q;
  bl_sample_count : Z;
  bl_updated_at : string;
}.

(** The buckets of the agents: [dict[str, dict[str, int]]]. *)
Definition buckets := list (string * list (string * Z)).

Record TrafficRecorder := {
  _buckets : buckets;
  flush_count : Z;
  flush_failures : Z;
  rows_written : Z;
}.

Record traffic := {
  t_statements : nat;
  t_samples : list sample;
  t_baselines : list baseline;
  t_recorder : TrafficRecorder;
}.

#[export] Instance traffic_transactional : Transactional traffic := {
  statements := t_statements;
  issued := λ s, {| t_statements := S (t_statements s); t_samples := t_samples s;
                    t_baselines := t_baselines s; t_recorder := t_recorder s |};
  restore := λ s s', {| t_statements := t_statements s'; t_samples := t_samples s;
                        t_baselines := t_baselines s; t_recorder := t_recorder s' |};
}.

Definition with_samples (l : list sample) (s : traffic) : traffic :=
  {| t_statements := t_statements s; t_samples := l; t_baselines := t_baselines s; t_recorder := t_recorder s |}.
Definition with_baselines (l : list baseline) (s : traffic) : traffic :=
  {| t_statements := t_statements s; t_samples := t_samples s; t_baselines := l; t_recorder := t_recorder s |}.
Definition with_recorder (r : TrafficRecorder) (s : traffic) : traffic :=
  {| t_statements := t_statements s; t_samples := t_samples s; t_baselines := t_baselines s; t_recorder := r |}.

(** SELECT DISTINCT gives the rows in an order of the database's choice. *)
Class SqlDistinct := {
  distinct : list string → list string;
  distinct_perm l : distinct l ≡ₚ remove_dups l;
}.

#[export] Instance first_seen : SqlDistinct := {| distinct := remove_dups; distinct_perm l := reflexivity _ |}.

(** ** The buckets *)

Definition minutes (m : Z) : Z := m * 60000000.

(** [now.replace(minute=(now.minute // 10) * 10, second=0, microsecond=0)] *)
Definition aligned (d : date_fields) : date_fields :=
  {| year := year d; month := month d; day := day d; hour := hour d;
     minute := (minute d / 10 * 10)%N; second := 0; microsecond := 0; tz_utc := tz_utc d |}.

Definition _bucket_ts_iso (now : Z) : string := replace_text "+00:00" "Z" (print_iso (aligned (utc now))).

Definition bucket_start (now : Z) : Z := now / minutes 10 * minutes 10.

(** The bucket of an instant starts at the multiple of ten minutes below it. *)
Lemma bucket_text now : _bucket_ts_iso now = z_text (bucket_start now).
Proof.
  unfold _bucket_ts_iso, z_text, utc_text. do 2 f_equal. unfold aligned, utc, bucket_start, minutes.
  unfold day_microseconds. set (v := now / (10 * 60000000) * (10 * 60000000)).
  assert (v / 86400000000 = now / 86400000000) as -> by lia.
  assert (v mod 86400000000 = now mod 86400000000 / 600000000 * 600000000) as -> by lia.
  set (us := now mod 86400000000). set (n := now / 86400000000 + epoch_days). cbn.
  f_equal; lia.
Qed.

Lemma bucket_representable now : representable now → representable (bucket_start now).
Proof.
  unfold representable, bucket_start, minutes, first_instant, last_instant, day_microseconds, epoch_days. lia.
Qed.

(** ** [TrafficRecorder] *)

Section Recorder.
Context (fails : nat → option exn).

Definition with_buckets (b : buckets) (r : TrafficRecorder) : TrafficRecorder :=
  {| _buckets := b; flush_count := flush_count r; flush_failures := flush_failures r; rows_written := rows_written r |}.

Definition bump (agent_id bucket : string) (b : buckets) : buckets :=
  match dget agent_id b with
  | None => dset agent_id [(bucket, 1)] b
  | Some agent_buckets =>
      dset agent_id (dset bucket (default 0 (dget bucket agent_buckets) + 1) agent_buckets) b
  end.

Definition record (agent_id : string) (now : Z) (r : TrafficRecorder) : TrafficRecorder :=
  if bool_decide (agent_id = "") then r
  else with_buckets (bump agent_id (_bucket_ts_iso now) (_buckets r)) r.

(** [app.state.traffic_recorder] is absent where nothing wired it. *)
Definition record_agent_request (recorder : option TrafficRecorder) (agent_id : string) (now : Z)
    : option TrafficRecorder :=
  record agent_id now <$> recorder.

Definition agents_tracked (r : TrafficRecorder) : nat := length (_buckets r).

Definition rows_of (pending : buckets) : list sample :=
  flat_map (λ ab, map (λ bc, {| sm_agent_id := fst ab; sm_bucket_ts := fst bc; sm_req_count := snd bc |}) (snd ab))
    pending.

Definition same_sample (a b : sample) : bool :=
  bool_decide (sm_agent_id a = sm_agent_id b) && bool_decide (sm_bucket_ts a = sm_bucket_ts b).

(** [ON CONFLICT (agent_id, bucket_ts) DO UPDATE SET req_count = req_count + excluded.req_count] *)
Fixpoint upsert_sample (r : sample) (l : list sample) : list sample :=
  match l with
  | [] => [r]
  | x :: rest =>
      if same_sample x r then
        {| sm_agent_id := sm_agent_id x; sm_bucket_ts := sm_bucket_ts x;
           sm_req_count := sm_req_count x + sm_req_count r |} :: rest
      else x :: upsert_sample r rest
  end.

Definition upsert_samples (rows l : list sample) : list sample := foldl (λ l r, upsert_sample r l) l rows.

Definition _write_pending (pending : buckets) : M traffic unit :=
  let rows := rows_of pending in
  match rows with
  | [] => ret tt
  | _ =>
      do _ <- transaction fails (statement fails (modify (λ s, with_samples (upsert_samples rows (t_samples s)) s)));
      modify (λ s, let r := t_recorder s in
                   with_recorder {| _buckets := _buckets r; flush_count := flush_count r;
                                    flush_failures := flush_failures r;
                                    rows_written := rows_written r + Z.of_nat (length rows) |} s)
  end.

Definition flushed (r : TrafficRecorder) : TrafficRecorder :=
  {| _buckets := _buckets r; flush_count := flush_count r + 1; flush_failures := flush_failures r;
     rows_written := rows_written r |}.
Definition flush_failed (r : TrafficRecorder) : TrafficRecorder :=
  {| _buckets := _buckets r; flush_count := flush_count r; flush_failures := flush_failures r + 1;
     rows_written := rows_written r |}.

(** The write of [_flush_once], which other requests can interleave with. *)
Definition settle (pending : buckets) : M traffic unit :=
  catch
    (do _ <- _write_pending pending; modify (λ s, with_recorder (flushed (t_recorder s)) s))
    (λ _, modify (λ s, with_recorder (flush_failed (t_recorder s)) s)).

(** Swapping the counters out, under the lock. *)
Definition swap : M traffic (option buckets) :=
  do pending <- gets (λ s, _buckets (t_recorder s));
  match pending with
  | [] => ret None
  | _ =>
      do _ <- modify (λ s, with_recorder (with_buckets [] (t_recorder s)) s);
      ret (Some pending)
  end.

Definition _flush_once : M traffic unit :=
  do pending <- swap;
  match pending with None => ret tt | Some pending => settle pending end.

End Recorder.

(** ** [baseline_rollup.py] *)

Definition weekday (t : Z) : Z := (t / day_microseconds + epoch_days) mod 7.
Definition hour_of_day (t : Z) : Z := t mod day_microseconds / 3600000000.

Definition parsed `{FromIso} (text : string) : outcome (bool * Z) :=
  match from_z text with Some d => Ret d | None => Raise ValueError end.

Definition _hour_of_week `{FromIso} (iso_ts : string) : outcome Z :=
  let! (_, dt) := parsed iso_ts in Ret (weekday dt * 24 + hour_of_day dt).

Open Scope Q_scope.

Definition _percentile (sorted_values : list Q) (q : Q) : Q :=
  match sorted_values with
  | [] => 0
  | [v] => v
  | _ =>
      let n := length sorted_values in
      let pos := q * inject_Z (Z.of_nat (n - 1)) in
      let lo := Z.to_nat (Qfloor pos) in
      let hi := Nat.min (lo + 1) (n - 1) in
      let frac := pos - inject_Z (Z.of_nat lo) in
      nth lo sorted_values 0 + frac * (nth hi sorted_values 0 - nth lo sorted_values 0)
  end.

Definition q_sum (l : list Q) : Q := foldr Qplus 0 l.
Definition mean (l : list Q) : Q := q_sum l / inject_Z (Z.of_nat (length l)).

Fixpoint insert_q (x : Q) (l : list Q) : list Q :=
  match l with
  | [] => [x]
  | y :: rest => if Qle_bool x y then x :: l else y :: insert_q x rest
  end.

(** [rates.sort()] *)
Definition sort_q (l : list Q) : list Q := foldr insert_q [] l.

Open Scope Z_scope.

(** [by_bucket.setdefault(how, []).append(rpm)] *)
Fixpoint append_rate (how : Z) (rpm : Q) (d : list (Z * list Q)) : list (Z * list Q) :=
  match d with
  | [] => [(how, [rpm])]
  | (h, l) :: rest => if h =? how then (h, l ++ [rpm]) :: rest else (h, l) :: append_rate how rpm rest
  end.

Record rollup_stats := {
  agents_seen : Z;
  agents_mature : Z;
  agents_skipped_immature : Z;
  rollup_rows_written : Z;
}.

Section Rollup.
Context `{FromIso} `{SqlDistinct} (fails : nat → option exn).

Notation statement := (statement fails).
Notation transaction := (transaction fails).

(** A SELECT in a transaction of its own. *)
Definition fetch {A} (f : traffic → A) : M traffic A := transaction (statement (gets f)).

(** [bucket_ts >= :since], as texts. *)
Definition since (since_iso : string) (r : sample) : bool := negb (text_lt (sm_bucket_ts r) since_iso).

Definition of_agent (agent_id : string) (r : sample) : bool := bool_decide (sm_agent_id r = agent_id).

Definition _fetch_distinct_agents (since_iso : string) : M traffic (list string) :=
  fetch (λ s, distinct (map sm_agent_id (List.filter (since since_iso) (t_samples s)))).

Fixpoint text_min (l : list string) : option string :=
  match l with
  | [] => None
  | x :: rest =>
      match text_min rest with
      | None => Some x
      | Some y => if text_lt y x then Some y else Some x
      end
  end.

(** [row[0] if row and row[0] else None] *)
Definition some_text (o : option string) : option string :=
  match o with Some EmptyString => None | o => o end.

Definition earliest_of (agent_id : string) (l : list sample) : option string :=
  some_text (text_min (map sm_bucket_ts (List.filter (of_agent agent_id) l))).

Definition _fetch_earliest_sample (agent_id : string) : M traffic (option string) :=
  fetch (λ s, earliest_of agent_id (t_samples s)).

Definition samples_of (agent_id since_iso : string) (l : list sample) : list (string * Z) :=
  map (λ r, (sm_bucket_ts r, sm_req_count r)) (List.filter (λ r, of_agent agent_id r && since since_iso r) l).

Definition _fetch_samples (agent_id since_iso : string) : M traffic (list (string * Z)) :=
  fetch (λ s, samples_of agent_id since_iso (t_samples s)).

Definition same_baseline (a b : baseline) : bool :=
  bool_decide (bl_agent_id a = bl_agent_id b) && (bl_hour_of_week a =? bl_hour_of_week b).

(** [ON CONFLICT (agent_id, hour_of_week) DO UPDATE] of every other column. *)
Fixpoint upsert_baseline (r : baseline) (l : list baseline) : list baseline :=
  match l with
  | [] => [r]
  | x :: rest => if same_baseline x r then r :: rest else x :: upsert_baseline r rest
  end.

Definition summary : Type := Q * Q * Z.

Definition baseline_row (agent_id updated_at : string) (b : Z * summary) : baseline :=
  let '(how, (avg, p95, n)) := b in
  {| bl_agent_id := agent_id; bl_hour_of_week := how; bl_req_per_min_avg := avg; bl_req_per_min_p95 := p95;
     bl_sample_count := n; bl_updated_at := updated_at |}.

Definition _upsert_baseline_rows (agent_id : string) (summaries : list (Z * summary)) (updated_at : string)
    : M traffic Z :=
  match summaries with
  | [] => ret 0
  | _ =>
      let rows := map (baseline_row agent_id updated_at) summaries in
      do _ <- transaction (statement (modify (λ s,
        with_baselines (foldl (λ l r, upsert_baseline r l) (t_baselines s) rows) s)));
      ret (Z.of_nat (length rows))
  end.

(** [rpm = req_count / 10.0], under its hour of the week. *)
Definition rate_of (b : string * Z) : outcome (Z * Q) :=
  let! how := _hour_of_week (fst b) in Ret (how, (inject_Z (snd b) / 10)%Q).

Definition group (rates : list (Z * Q)) : list (Z * list Q) :=
  foldl (λ d hr, append_rate (fst hr) (snd hr) d) [] rates.

Definition summarise (rates : list Q) : summary :=
  let rates := sort_q rates in (mean rates, _percentile rates (95 # 100), Z.of_nat (length rates)).

Definition summaries_of (samples : list (string * Z)) : outcome (list (Z * summary)) :=
  let! rates := omapM rate_of samples in
  Ret (map (λ b, (fst b, summarise (snd b))) (group rates)).

Definition skipped (st : rollup_stats) : rollup_stats :=
  {| agents_seen := agents_seen st; agents_mature := agents_mature st;
     agents_skipped_immature := agents_skipped_immature st + 1; rollup_rows_written := rollup_rows_written st |}.
Definition matured (written : Z) (st : rollup_stats) : rollup_stats :=
  {| agents_seen := agents_seen st; agents_mature := agents_mature st + 1;
     agents_skipped_immature := agents_skipped_immature st;
     rollup_rows_written := rollup_rows_written st + written |}.

(** Comparing a naive [datetime] with an aware one is a [TypeError]. *)
Definition aware (d : bool * Z) : outcome Z := if fst d then Ret (snd d) else Raise TypeError.

Definition roll_agent (since_iso : string) (mature_threshold : Z) (updated_at : string)
    (st : rollup_stats) (agent_id : string) : M traffic rollup_stats :=
  do earliest <- _fetch_earliest_sample agent_id;
  match earliest with
  | None => ret (skipped st)
  | Some earliest =>
      do parsed <- lift (parsed earliest);
      do earliest_dt <- lift (aware parsed);
      if mature_threshold <? earliest_dt then ret (skipped st)
      else
        do samples <- _fetch_samples agent_id since_iso;
        match samples with
        | [] => ret (skipped st)
        | _ =>
            do summaries <- lift (summaries_of samples);
            do written <- _upsert_baseline_rows agent_id summaries updated_at;
            ret (matured written st)
        end
  end.

Definition days (d : Z) : Z := d * day_microseconds.

Definition run_once (now window_days min_baseline_days : Z) : M traffic rollup_stats :=
  do window_start <- lift (datetime_of (now - days window_days));
  let since_iso := z_text window_start in
  do mature_threshold <- lift (datetime_of (now - days min_baseline_days));
  let updated_at := z_text now in
  do agents <- _fetch_distinct_agents since_iso;
  for_each (roll_agent since_iso mature_threshold updated_at)
    {| agents_seen := Z.of_nat (length agents); agents_mature := 0; agents_skipped_immature := 0;
       rollup_rows_written := 0 |} agents.

End Rollup.

(** The wait of [_loop], in microseconds. *)
Definition _seconds_until_next_run (now rollup_hour_utc : Z) : outcome Z :=
  if (0 <=? rollup_hour_utc) && (rollup_hour_utc <=? 23) then
    let target := now / day_microseconds * day_microseconds + rollup_hour_utc * 3600000000 in
    let! target := (if target <=? now then datetime_of (target + day_microseconds) else Ret target) in
    Ret (target - now)
  else Raise ValueError.

(** ** Every request is counted once

    Requests arrive while a flush waits for the database. *)

Inductive traffic_op :=
| Request (agent_id : string) (now : Z)
| Swap                                  (* a flush takes the counters *)
| Settle.                               (* its write ends *)

Record flusher := {
  f_traffic : traffic;
  f_in_flight : option buckets;
  f_lost : list sample;                 (* the rows of the writes that failed *)
}.

Section Flusher.
Context (fails : nat → option exn).

Definition flusher_step (f : flusher) (o : traffic_op) : flusher :=
  let s := f_traffic f in
  match o, f_in_flight f with
  | Request agent_id now, _ =>
      {| f_traffic := with_recorder (record agent_id now (t_recorder s)) s;
         f_in_flight := f_in_flight f; f_lost := f_lost f |}
  | Swap, None =>
      match swap s with
      | (Ret pending, s') => {| f_traffic := s'; f_in_flight := pending; f_lost := f_lost f |}
      | (Raise _, s') => {| f_traffic := s'; f_in_flight := None; f_lost := f_lost f |}
      end
  | Settle, Some pending =>
      {| f_traffic := snd (settle fails pending s); f_in_flight := None;
         f_lost := if is_ret (fst (_write_pending fails pending s)) then f_lost f else f_lost f ++ rows_of pending |}
  | Swap, Some _ | Settle, None => f
  end.

Definition flusher_run (ops : list traffic_op) (f : flusher) : flusher := foldl flusher_step f ops.

Definition key_of (agent_id bucket : string) : sample :=
  {| sm_agent_id := agent_id; sm_bucket_ts := bucket; sm_req_count := 0 |}.

Fixpoint counted (k : sample) (l : list sample) : Z :=
  match l with [] => 0 | r :: rest => (if same_sample r k then sm_req_count r else 0) + counted k rest end.

Definition total (k : sample) (f : flusher) : Z :=
  counted k (t_samples (f_traffic f)) + counted k (rows_of (_buckets (t_recorder (f_traffic f))))
  + counted k (rows_of (default [] (f_in_flight f))) + counted k (f_lost f).

(** The requests of an agent within a bucket. *)
Fixpoint requested (k : sample) (ops : list traffic_op) : Z :=
  match ops with
  | [] => 0
  | Request a now :: rest =>
      (if negb (bool_decide (a = "")) && same_sample (key_of a (_bucket_ts_iso now)) k then 1 else 0)
      + requested k rest
  | _ :: rest => requested k rest
  end.

Lemma counted_app k l l' : counted k (l ++ l') = counted k l + counted k l'.
Proof. induction l as [|r l IH]; cbn; [done|]. rewrite IH. lia. Qed.

Lemma same_sample_iff a b : same_sample a b = true ↔ sm_agent_id a = sm_agent_id b ∧ sm_bucket_ts a = sm_bucket_ts b.
Proof. unfold same_sample. by rewrite andb_true_iff, !bool_decide_eq_true. Qed.

Lemma same_sample_r a b k :
  same_sample a b = true → same_sample a k = same_sample b k.
Proof. intros [Ha Hb]%same_sample_iff. unfold same_sample. by rewrite Ha, Hb. Qed.

Lemma counted_upsert k r l : counted k (upsert_sample r l) = counted k l + counted k [r].
Proof.
  induction l as [|x l IH]; cbn; [lia|]. destruct (same_sample x r) eqn:Hx; cbn.
  - rewrite (same_sample_r _ _ k Hx). destruct r, x; cbn in *. unfold same_sample in *. cbn in *.
    apply andb_true_iff in Hx as [->%bool_decide_eq_true_1 ->%bool_decide_eq_true_1]. destruct (_ && _); lia.
  - rewrite IH. cbn. lia.
Qed.

Lemma counted_upserts k rows l : counted k (upsert_samples rows l) = counted k l + counted k rows.
Proof.
  unfold upsert_samples. revert l. induction rows as [|r rows IH]; intros l; cbn [foldl]; [cbn; lia|].
  rewrite IH, counted_upsert. cbn. lia.
Qed.

(** The rows of one agent. *)
Definition agent_rows (a : string) (m : list (string * Z)) : list sample :=
  map (λ bc, {| sm_agent_id := a; sm_bucket_ts := fst bc; sm_req_count := snd bc |}) m.

Lemma counted_bucket k a b m :
  counted k (agent_rows a (dset b (default 0 (dget b m) + 1) m)) =
  counted k (agent_rows a m) + if same_sample (key_of a b) k then 1 else 0.
Proof.
  induction m as [|[b' c] m IH]; cbn [dget dset].
  - cbn. unfold key_of, same_sample. cbn. destruct (_ && _); lia.
  - case_bool_decide as Hb; cbn; [subst|].
    + unfold key_of, same_sample. cbn. destruct (_ && _); lia.
    + change (map _ m) with (agent_rows a m). rewrite <- Z.add_assoc, <- IH. done.
Qed.

Lemma counted_bump k a b d :
  counted k (rows_of (bump a b d)) = counted k (rows_of d) + if same_sample (key_of a b) k then 1 else 0.
Proof.
  unfold bump. induction d as [|[a' m] d IH]; cbn [dget dset].
  - cbn. unfold key_of, same_sample. cbn. destruct (_ && _); lia.
  - cbn [rows_of flat_map fst snd]. fold (agent_rows a' m). change (flat_map _ d) with (rows_of d).
    case_bool_decide as Ha; [subst|].
    + cbn [rows_of flat_map fst snd]. fold (agent_rows a (dset b (default 0 (dget b m) + 1) m)).
      change (flat_map _ d) with (rows_of d). rewrite !counted_app, counted_bucket. lia.
    + revert IH. destruct (dget a d); intros IH; cbn [rows_of flat_map fst snd];
        fold (agent_rows a' m); rewrite !counted_app; unfold rows_of in *; lia.
Qed.

Lemma write_pending_spec k pending s :
  let '(r, s') := _write_pending fails pending s in
  _buckets (t_recorder s') = _buckets (t_recorder s) ∧ t_baselines s' = t_baselines s ∧
  counted k (t_samples s') = counted k (t_samples s) + if is_ret r then counted k (rows_of pending) else 0.
Proof.
  unfold _write_pending. destruct (rows_of pending) as [|r rows] eqn:Hrows; [cbn; split_and!; (done || lia)|].
  rewrite <- Hrows. unfold bind, transaction, statement. cbn [modify ret].
  destruct (fails _); cbn; [split_and!; (done || lia)|].
  destruct (fails _); cbn; [split_and!; (done || lia)|].
  split_and!; [done..|]. by rewrite counted_upserts.
Qed.

Lemma settle_spec k pending s :
  let s' := snd (settle fails pending s) in
  _buckets (t_recorder s') = _buckets (t_recorder s) ∧
  counted k (t_samples s') =
    counted k (t_samples s) + if is_ret (fst (_write_pending fails pending s)) then counted k (rows_of pending) else 0.
Proof.
  pose proof (write_pending_spec k pending s) as Hw. unfold settle, catch, bind.
  destruct (_write_pending fails pending s) as [[u|e] s1]; destruct Hw as (Hb & _ & Hc); done.
Qed.

Lemma step_total k f o : total k (flusher_step f o) = total k f + requested k [o].
Proof.
  destruct f as [s [pending|] lost], o as [a now| |]; unfold total; cbn.
  all: try (unfold record; case_bool_decide as Ha; cbn; [|rewrite counted_bump; destruct (same_sample _ _)]; lia).
  - lia.
  - destruct (settle_spec k pending s) as [-> ->]. fold (rows_of pending). destruct (is_ret _); [|rewrite counted_app]; lia.
  - unfold swap, bind, gets. destruct (_buckets (t_recorder s)) as [|ab d] eqn:Hb; cbn; rewrite ?Hb; unfold rows_of; cbn; lia.
  - lia.
Qed.

(** C15: Every request that the recorder was given is counted once: whatever
    flushes run between and however their writes end, the requests of an agent
    within a bucket, beyond those at the start, are the ones in the table, in
    memory, in the write under way and in the writes that failed; nothing is
    lost between the check and the swap, and nothing is written twice. *)
Theorem requests_conserved k ops f :
  total k (flusher_run ops f) = total k f + requested k ops.
Proof.
  unfold flusher_run. revert f. induction ops as [|o ops IH]; intros f; cbn [foldl]; [cbn; lia|].
  rewrite IH, step_total. destruct o; cbn; lia.
Qed.

End Flusher.

(** ** The percentile *)

Section Percentile.
Open Scope Q_scope.

Fixpoint sorted_q (l : list Q) : Prop :=
  match l with
  | [] => True
  | x :: rest => Forall (Qle x) rest ∧ sorted_q rest
  end.

Lemma insert_q_perm x l : insert_q x l ≡ₚ x :: l.
Proof.
  induction l as [|y l IH]; cbn; [done|]. destruct (Qle_bool x y); [done|].
  rewrite IH. apply Permutation_swap.
Qed.

Lemma sort_q_perm l : sort_q l ≡ₚ l.
Proof. induction l as [|x l IH]; cbn; [done|]. by rewrite insert_q_perm, IH. Qed.

Lemma insert_q_sorted x l : sorted_q l → sorted_q (insert_q x l).
Proof.
  induction l as [|y l IH]; cbn; [done|]. intros [Hy Hl]. destruct (Qle_bool x y) eqn:Hxy; cbn.
  - apply Qle_bool_iff in Hxy. split; [|done]. constructor; [done|].
    eapply Forall_impl; [exact Hy|]. intros z. by apply Qle_trans.
  - split; [|by apply IH]. rewrite insert_q_perm. constructor; [|done].
    destruct (Qlt_le_dec y x) as [Hlt|Hle]; [by apply Qlt_le_weak|].
    apply Qle_bool_iff in Hle. congruence.
Qed.

Lemma sort_q_sorted l : sorted_q (sort_q l).
Proof. induction l as [|x l IH]; [done|]. by apply insert_q_sorted. Qed.

Lemma sorted_nth l i j : sorted_q l → (i <= j < length l)%nat → nth i l 0 <= nth j l 0.
Proof.
  revert i j. induction l as [|x l IH]; intros i j Hs Hij; cbn in Hij; [lia|]. destruct Hs as [Hx Hs].
  destruct i as [|i], j as [|j]; cbn; try apply Qle_refl; try lia; [|apply IH; [done|lia]].
  rewrite Forall_forall in Hx. apply Hx, list_elem_of_In, nth_In. lia.
Qed.

(** A percentile lies between the two neighbours of its position. *)
Lemma percentile_neighbours l q :
  sorted_q l → l ≠ [] → 0 <= q <= 1 →
  let lo := Z.to_nat (Qfloor (q * inject_Z (Z.of_nat (length l - 1)))) in
  (lo < length l)%nat ∧ nth lo l 0 <= _percentile l q <= nth (Nat.min (lo + 1) (length l - 1)) l 0.
Proof.
  intros Hs Hne Hq lo.
  assert (0 <= q * inject_Z (Z.of_nat (length l - 1)) <= inject_Z (Z.of_nat (length l - 1))) as [Hp0 Hp1].
  { assert (0 <= inject_Z (Z.of_nat (length l - 1))) by (change 0 with (inject_Z 0); rewrite <- Zle_Qle; lia). split; nra. }
  set (pos := q * inject_Z (Z.of_nat (length l - 1))) in *.
  assert (0 <= Qfloor pos)%Z as Hf0 by (apply (Qfloor_resp_le 0 pos Hp0)).
  assert (Qfloor pos <= Z.of_nat (length l - 1))%Z as Hf1
    by (rewrite <- (Qfloor_Z (Z.of_nat (length l - 1))); by apply Qfloor_resp_le).
  assert (0 < length l)%nat by (destruct l; [done|cbn; lia]).
  assert (lo < length l)%nat as Hlo by (subst lo; lia). split; [done|].
  assert (inject_Z (Z.of_nat lo) <= pos < inject_Z (Z.of_nat lo) + 1) as [Hl Hu].
  { subst lo. rewrite Z2Nat.id by done. split; [apply Qfloor_le|].
    change 1 with (inject_Z 1). rewrite <- inject_Z_plus. apply Qlt_floor. }
  assert (nth lo l 0 <= nth (Nat.min (lo + 1) (length l - 1)) l 0) as Hmono by (apply sorted_nth; [done|lia]).
  destruct l as [|x [|y l]]; [done| |].
  - cbn in Hlo. assert (lo = 0%nat) as -> by lia. cbn. split; apply Qle_refl.
  - unfold _percentile. fold pos. fold lo. set (a := nth lo _ 0) in *. set (b := nth _ _ 0) in *.
    split; nra.
Qed.

End Percentile.

(** ** The wait until the next roll-up *)

Lemma hour_target now h :
  0 <= h <= 23 → (now / day_microseconds * day_microseconds + h * 3600000000) mod day_microseconds = h * 3600000000.
Proof. unfold day_microseconds. lia. Qed.

(** The roll-up never waits zero seconds or less and never more than a
    day, and the wait ends at the configured hour exactly. *)
Theorem next_run_within_a_day now h :
  0 <= h <= 23 → representable now → representable (now + day_microseconds) →
  ∃ wait, _seconds_until_next_run now h = Ret wait ∧
    0 < wait <= day_microseconds ∧ (now + wait) mod day_microseconds = h * 3600000000.
Proof.
  intros Hh Hnow Hday. unfold _seconds_until_next_run.
  destruct (Z.leb_spec 0 h), (Z.leb_spec h 23); cbn [andb]; [|lia..].
  pose proof (hour_target now h Hh) as Hm. set (target := now / day_microseconds * day_microseconds + _) in *.
  assert (now - day_microseconds < target < now + day_microseconds) by (subst target; unfold day_microseconds; lia).
  destruct (Z.leb_spec target now).
  - assert (datetime_of (target + day_microseconds) = Ret (target + day_microseconds)) as ->.
    { unfold datetime_of. unfold representable in *. destruct (Z.leb_spec first_instant (target + day_microseconds)),
        (Z.ltb_spec (target + day_microseconds) last_instant); try done; lia. }
    eexists. split; [done|]. split; [lia|].
    replace (now + (target + day_microseconds - now)) with (target + 1 * day_microseconds) by lia.
    by rewrite Z_mod_plus_full.
  - eexists. split; [done|]. split; [lia|]. by replace (now + (target - now)) with target by lia.
Qed.

Lemma next_run_within_a_day_witness :
  ∃ wait, _seconds_until_next_run 1792000000000000 4 = Ret wait ∧
    0 < wait <= day_microseconds ∧ (1792000000000000 + wait) mod day_microseconds = 4 * 3600000000.
Proof.
  apply (next_run_within_a_day 1792000000000000 4); [lia|split; [discriminate|reflexivity]..].
Defined.

(** ** The roll-up *)

Section Baselines.
Context `{FromIso} `{SqlDistinct} (fails : nat → option exn).

Definition find_baseline (a : string) (h : Z) (l : list baseline) : option baseline :=
  List.find (λ b, bool_decide (bl_agent_id b = a) && (bl_hour_of_week b =? h)) l.

(** The rates of an agent that fall in an hour of the week. *)
Definition hour_rates (a since_iso : string) (h : Z) (l : list sample) : list Q :=
  omap (λ b, match rate_of b with Ret (h', r) => if h' =? h then Some r else None | Raise _ => None end)
    (samples_of a since_iso l).

Definition old_enough (a : string) (threshold : Z) (l : list sample) : bool :=
  match earliest_of a l with
  | Some e => match parsed e with Ret (true, t) => t <=? threshold | _ => false end
  | None => false
  end.

(** What the roll-up leaves for an agent and an hour. *)
Definition rolled (a since_iso : string) (threshold : Z) (updated_at : string) (h : Z) (l : list sample)
    (old : option baseline) : option baseline :=
  match hour_rates a since_iso h l with
  | [] => old
  | rates => if old_enough a threshold l then Some (baseline_row a updated_at (h, summarise rates)) else old
  end.

Fixpoint rates_at (h : Z) (d : list (Z * list Q)) : list Q :=
  match d with [] => [] | (h', l) :: rest => if h' =? h then l else rates_at h rest end.

Lemma rates_at_append h h' r d :
  rates_at h (append_rate h' r d) = rates_at h d ++ if h' =? h then [r] else [].
Proof.
  induction d as [|[k l] d IH]; cbn; [by destruct (h' =? h)|]. destruct (Z.eqb_spec k h') as [->|Hne]; cbn.
  - by destruct (h' =? h); rewrite ?app_nil_r.
  - rewrite IH. destruct (Z.eqb_spec k h) as [->|]; [|done]. destruct (Z.eqb_spec h' h); [done|by rewrite app_nil_r].
Qed.

Lemma append_rate_keys h r d :
  map fst (append_rate h r d) = if decide (h ∈ map fst d) then map fst d else map fst d ++ [h].
Proof.
  induction d as [|[k l] d IH]; cbn [append_rate map fst].
  - case_decide as Hin; [by apply not_elem_of_nil in Hin|done].
  - destruct (Z.eqb_spec k h) as [->|Hne]; cbn [map fst].
    + rewrite decide_True by left. done.
    + rewrite IH. repeat case_decide; try done; rewrite elem_of_cons in *; naive_solver.
Qed.

Definition good_groups (d : list (Z * list Q)) : Prop := NoDup (map fst d) ∧ Forall (λ b, snd b ≠ []) d.

Lemma append_rate_good h r d : good_groups d → good_groups (append_rate h r d).
Proof.
  intros [Hn Hk]. split.
  - rewrite append_rate_keys. case_decide as Hin; [done|]. apply NoDup_app.
    split_and!; [done|set_solver|apply NoDup_singleton].
  - clear Hn. induction Hk as [|[k l] d Hl Hk IH]; cbn; [by repeat constructor|].
    destruct (k =? h); constructor; try done. cbn. by destruct l.
Qed.

Lemma rates_at_fresh h d : h ∉ map fst d → rates_at h d = [].
Proof.
  induction d as [|[k l] d IH]; cbn; [done|]. intros Hh. destruct (Z.eqb_spec k h) as [->|]; [set_solver|].
  apply IH. set_solver.
Qed.

Lemma group_spec rates d :
  good_groups d →
  let d' := foldl (λ d hr, append_rate (fst hr) (snd hr) d) d rates in
  good_groups d' ∧ ∀ h, rates_at h d' = rates_at h d ++ omap (λ hr, if fst hr =? h then Some (snd hr) else None) rates.
Proof.
  revert d. induction rates as [|[k r] rates IH]; intros d Hd; cbn [foldl fst snd].
  - split; [done|]. intros h. by rewrite app_nil_r.
  - destruct (IH _ (append_rate_good k r d Hd)) as [Hg Hr]. split; [done|]. intros h.
    rewrite Hr, rates_at_append, <- app_assoc. f_equal. cbn. by destruct (k =? h).
Qed.

Lemma find_upsert a h r l :
  find_baseline a h (upsert_baseline r l) =
  if bool_decide (bl_agent_id r = a) && (bl_hour_of_week r =? h) then Some r else find_baseline a h l.
Proof.
  unfold find_baseline. induction l as [|x l IH]; cbn; [done|].
  destruct (same_baseline x r) eqn:Hx; cbn.
  - unfold same_baseline in Hx. apply andb_true_iff in Hx as [->%bool_decide_eq_true_1 ->%Z.eqb_eq].
    by destruct (_ && _).
  - rewrite IH. destruct (bool_decide (bl_agent_id x = a) && _) eqn:Hxa; [|done].
    destruct (bool_decide (bl_agent_id r = a) && _) eqn:Hra; [|done].
    apply andb_true_iff in Hxa as [Hxa%bool_decide_eq_true_1 Hxh%Z.eqb_eq].
    apply andb_true_iff in Hra as [Ha%bool_decide_eq_true_1 Hh%Z.eqb_eq]. unfold same_baseline in Hx.
    by rewrite Ha, Hh, Hxa, Hxh, bool_decide_eq_true_2, Z.eqb_refl in Hx by done.
Qed.

Lemma find_upserts a a' updated h d l :
  good_groups d →
  find_baseline a' h (foldl (λ l r, upsert_baseline r l) l
    (map (baseline_row a updated) (map (λ b, (fst b, summarise (snd b))) d))) =
  if bool_decide (a = a') then
    match rates_at h d with [] => find_baseline a' h l | rates => Some (baseline_row a updated (h, summarise rates)) end
  else find_baseline a' h l.
Proof.
  unfold good_groups. revert l. induction d as [|[k rates] d IH]; intros l [Hn Hk].
  { cbn. by case_bool_decide. }
  cbn [map fst snd] in Hn |- *. apply NoDup_cons in Hn as [Hfresh Hn]. apply Forall_cons in Hk as [Hr Hk].
  cbn [foldl]. rewrite IH, find_upsert by done. cbn [rates_at].
  assert (bl_agent_id (baseline_row a updated (k, summarise rates)) = a) as -> by done.
  assert (bl_hour_of_week (baseline_row a updated (k, summarise rates)) = k) as -> by done.
  case_bool_decide as Ha; [|done]. cbn [andb]. destruct (Z.eqb_spec k h) as [->|Hne]; [|done].
  rewrite rates_at_fresh by done. by destruct rates.
Qed.

Lemma fetch_Ret {A} (f : traffic → A) s a s' :
  fetch fails f s = (Ret a, s') → a = f (issued s) ∧ s' = issued (issued s).
Proof.
  unfold fetch. intros (s1 & Hs & ->)%transaction_Ret. apply statement_Ret in Hs. by injection Hs as <- <-.
Qed.

Lemma omapM_rates samples rates h :
  omapM rate_of samples = Ret rates →
  omap (λ hr, if fst hr =? h then Some (snd hr) else None) rates =
  omap (λ b, match rate_of b with Ret (h', r) => if h' =? h then Some r else None | Raise _ => None end) samples.
Proof.
  intros Hm. apply omapM_Ret in Hm. induction Hm as [|b [k r] samples rates Hb Hm IH]; [done|].
  cbn. rewrite Hb. cbn. destruct (k =? h); by rewrite IH.
Qed.

Lemma rolled_young a si mt up h l old : old_enough a mt l = false → rolled a si mt up h l old = old.
Proof. unfold rolled. intros ->. by destruct (hour_rates a si h l). Qed.

Lemma rolled_idle a si mt up h l old : samples_of a si l = [] → rolled a si mt up h l old = old.
Proof. unfold rolled, hour_rates. by intros ->. Qed.

(** One agent. *)
Lemma roll_agent_spec si mt up st a s st' s' :
  roll_agent fails si mt up st a s = (Ret st', s') →
  t_samples s' = t_samples s ∧
  ∀ a' h, find_baseline a' h (t_baselines s') =
    if bool_decide (a = a') then rolled a si mt up h (t_samples s) (find_baseline a' h (t_baselines s))
    else find_baseline a' h (t_baselines s).
Proof.
  unfold roll_agent. intros (earliest & s1 & Hf & Hrun)%bind_Ret. apply fetch_Ret in Hf as [He ->]. cbn in He.
  assert (∀ (Hold : ∀ h old, rolled a si mt up h (t_samples s) old = old) (s2 : traffic),
    t_samples s2 = t_samples s → t_baselines s2 = t_baselines s →
    t_samples s2 = t_samples s ∧ ∀ a' h, find_baseline a' h (t_baselines s2) =
      if bool_decide (a = a') then rolled a si mt up h (t_samples s) (find_baseline a' h (t_baselines s))
      else find_baseline a' h (t_baselines s)) as Hsame.
  { intros Hold s2 -> ->. split; [done|]. intros a' h. rewrite Hold. by case_bool_decide. }
  destruct earliest as [e|].
  2:{ injection Hrun as _ <-. apply Hsame; [|done..]. intros h old. apply rolled_young. unfold old_enough. by rewrite <- He. }
  apply bind_Ret in Hrun as ([b t] & s2 & Hp & Hrun). injection Hp as Hp <-.
  apply bind_Ret in Hrun as (dt & s2 & Ha & Hrun). injection Ha as Ha <-.
  unfold aware in Ha. destruct b; [|done]. injection Ha as <-. cbn [snd] in Hrun.
  destruct (Z.ltb_spec mt t) as [Hlt|Hle].
  { injection Hrun as _ <-. apply Hsame; [|done..]. intros h old. apply rolled_young. unfold old_enough.
    rewrite <- He, Hp. by apply Z.leb_gt. }
  assert (old_enough a mt (t_samples s) = true) as Hold by (unfold old_enough; rewrite <- He, Hp; by apply Z.leb_le).
  apply bind_Ret in Hrun as (samples & s2 & Hf & Hrun). apply fetch_Ret in Hf as [Hs ->].
  change (samples = samples_of a si (t_samples s)) in Hs.
  destruct samples as [|b0 samples].
  { injection Hrun as _ <-. apply Hsame; [|done..]. intros h old. by apply rolled_idle. }
  set (samples' := b0 :: samples) in *.
  apply bind_Ret in Hrun as (sums & s2 & Hsum & Hrun). injection Hsum as Hsum <-.
  unfold summaries_of in Hsum. destruct (omapM rate_of samples') as [rates|] eqn:Hrates; [|done]. cbn in Hsum.
  injection Hsum as <-. apply bind_Ret in Hrun as (n & s2 & Hup & Hrun). injection Hrun as _ <-.
  assert (good_groups (group rates) ∧ ∀ h, rates_at h (group rates) = hour_rates a si h (t_samples s)) as [Hg Hr].
  { destruct (group_spec rates []) as [Hg Hr]; [split; constructor|]. split; [done|]. intros h.
    unfold group. rewrite Hr. cbn. rewrite (omapM_rates samples' rates h Hrates). unfold hour_rates. by rewrite <- Hs. }
  assert (∀ a' h l, find_baseline a' h (foldl (λ l r, upsert_baseline r l) l
      (map (baseline_row a up) (map (λ b, (fst b, summarise (snd b))) (group rates)))) =
    if bool_decide (a = a') then rolled a si mt up h (t_samples s) (find_baseline a' h l) else find_baseline a' h l)
    as Hfind.
  { intros a' h l. rewrite find_upserts by done. unfold rolled. rewrite Hr, Hold.
    case_bool_decide; [|done]. by destruct (hour_rates a si h (t_samples s)). }
  unfold _upsert_baseline_rows in Hup.
  destruct (map _ (group rates)) as [|b1 sums] eqn:Hm.
  - injection Hup as _ <-. split; [done|]. intros a' h. exact (Hfind a' h (t_baselines s)).
  - apply bind_Ret in Hup as ([] & s3 & Htx & Hn). injection Hn as _ <-.
    apply transaction_Ret in Htx as (s4 & Htx & ->). apply statement_Ret in Htx. injection Htx as <-.
    split; [done|]. intros a' h. exact (Hfind a' h (t_baselines s)).
Qed.

Lemma roll_agents_spec si mt up agents : ∀ st s st' s',
  NoDup agents →
  for_each (roll_agent fails si mt up) st agents s = (Ret st', s') →
  t_samples s' = t_samples s ∧
  ∀ a h, find_baseline a h (t_baselines s') =
    if bool_decide (a ∈ agents) then rolled a si mt up h (t_samples s) (find_baseline a h (t_baselines s))
    else find_baseline a h (t_baselines s).
Proof.
  induction agents as [|x agents IH]; intros st s st' s' Hnd Hrun; cbn in Hrun; [by injection Hrun as _ <-|].
  apply NoDup_cons in Hnd as [Hx Hnd]. apply bind_Ret in Hrun as (st1 & s1 & Hone & Hrun).
  destruct (roll_agent_spec _ _ _ _ _ _ _ _ Hone) as [Hs1 Hb1].
  destruct (IH _ _ _ _ Hnd Hrun) as [Hs Hb]. rewrite Hs1 in Hs, Hb. split; [done|]. intros a h. rewrite Hb, Hb1.
  destruct (decide (x = a)) as [->|Hne].
  - rewrite (bool_decide_eq_false_2 (a ∈ agents)), !bool_decide_eq_true_2 by (done || by left). done.
  - rewrite (bool_decide_eq_false_2 (x = a)) by done.
    rewrite (bool_decide_ext (a ∈ x :: agents) (a ∈ agents)); [done|]. rewrite elem_of_cons. naive_solver.
Qed.

(** C16: A roll-up that completes gives every agent whose first sample is old
    enough, for each hour of the week with samples in the window, the row that
    summarises exactly the rates of that hour: their mean, their number, and a
    95th percentile between two of them; every other baseline is as before
    and the samples are only read. *)
Theorem baselines_exact now window min_days s st s' :
  run_once fails now window min_days s = (Ret st, s') →
  t_samples s' = t_samples s ∧
  ∀ a h, find_baseline a h (t_baselines s') =
    rolled a (z_text (now - days window)) (now - days min_days) (z_text now) h (t_samples s)
      (find_baseline a h (t_baselines s)).
Proof.
  unfold run_once. intros (ws & s1 & Hw & Hrun)%bind_Ret. injection Hw as Hw <-.
  apply bind_Ret in Hrun as (mt & s1 & Hm & Hrun). injection Hm as Hm <-.
  assert (∀ t t', datetime_of t = Ret t' → t' = t) as Hdt
    by (intros t t'; unfold datetime_of; case_match; [by intros [= <-]|done]).
  apply Hdt in Hw as ->. apply Hdt in Hm as ->.
  apply bind_Ret in Hrun as (agents & s1 & Hf & Hrun). apply fetch_Ret in Hf as [Ha ->]. cbn in Ha.
  set (si := z_text (now - days window)) in *.
  assert (NoDup agents) as Hnd by (rewrite Ha, distinct_perm; apply NoDup_remove_dups).
  destruct (roll_agents_spec _ _ _ _ _ _ _ _ Hnd Hrun) as [Hs Hb]. split; [done|]. intros a h. rewrite Hb. cbn.
  case_bool_decide as Hin; [done|]. symmetry. apply rolled_idle. unfold samples_of.
  rewrite filter_nil; [done|]. apply Forall_forall. intros r Hr. apply andb_false_iff. unfold of_agent.
  destruct (decide (sm_agent_id r = a)) as [<-|]; [|by left; apply bool_decide_eq_false_2].
  right. apply not_true_iff_false. intros Hsince. apply Hin. rewrite Ha, distinct_perm, elem_of_remove_dups.
  apply list_elem_of_fmap. exists r. split; [done|]. by apply elem_of_filter_bool.
Qed.

End Baselines.

(** The sum of rates does not depend on their order. *)
Lemma q_sum_perm l l' : l ≡ₚ l' → (q_sum l == q_sum l')%Q.
Proof.
  induction 1 as [|x l l' _ IH|x y l|l l1 l2 _ IH1 _ IH2]; cbn; [done| | |].
  - by rewrite IH.
  - ring.
  - by rewrite IH1.
Qed.

Lemma summarise_spec rates :
  rates ≠ [] →
  let '(avg, p95, n) := summarise rates in
  (avg == mean rates)%Q ∧ n = Z.of_nat (length rates) ∧
  ∃ lo hi, lo ∈ rates ∧ hi ∈ rates ∧ (lo <= p95 <= hi)%Q.
Proof.
  intros Hne. unfold summarise. pose proof (sort_q_perm rates) as Hp. split_and!.
  - unfold mean. rewrite (Permutation_length Hp), (q_sum_perm _ _ Hp). reflexivity.
  - by rewrite (Permutation_length Hp).
  - assert (sort_q rates ≠ []) as Hs by (intros Hs; rewrite Hs in Hp; by apply Permutation_nil in Hp).
    assert (length (sort_q rates) ≠ 0%nat) by (by destruct (sort_q rates)).
    pose proof (percentile_neighbours (sort_q rates) (95 # 100) (sort_q_sorted rates) Hs ltac:(by split)) as [Hlo Hb].
    assert (∀ i, (i < length (sort_q rates))%nat → nth i (sort_q rates) 0%Q ∈ rates) as Hin
      by (intros i Hi; apply (elem_of_Permutation_proper _ _ _ Hp), list_elem_of_In, nth_In, Hi).
    eexists _, _. split; [|split; [|exact Hb]]; apply Hin; lia.
Qed.

(** The bucket of a request lies in the hour of the week of the request. *)
Lemma recorded_hour `{FromIso} now :
  representable now →
  _hour_of_week (_bucket_ts_iso now) = Ret (weekday now * 24 + hour_of_day now) ∧
  0 <= weekday now * 24 + hour_of_day now <= 167.
Proof.
  intros Hnow. unfold _hour_of_week, parsed. rewrite bucket_text, from_z_text by (by apply bucket_representable).
  unfold weekday, hour_of_day, bucket_start, minutes, day_microseconds, epoch_days. cbn [obind]. split; [|lia].
  do 2 f_equal; lia.
Qed.

(** A fortnight of an agent with two buckets on the same hour of two weeks. *)
Definition monday : Z := 1792386000000000.    (* 2026-10-19T05:00:00Z *)

Definition fortnight : traffic :=
  {| t_statements := 0;
     t_samples := [ {| sm_agent_id := "acme::bot"; sm_bucket_ts := _bucket_ts_iso (monday - days 14); sm_req_count := 120 |};
                    {| sm_agent_id := "acme::bot"; sm_bucket_ts := _bucket_ts_iso (monday - days 7); sm_req_count := 60 |};
                    {| sm_agent_id := "acme::new"; sm_bucket_ts := _bucket_ts_iso (monday - days 1); sm_req_count := 10 |} ];
     t_baselines := []; t_recorder := {| _buckets := []; flush_count := 0; flush_failures := 0; rows_written := 0 |} |}.

Definition no_failure : nat → option exn := λ _, None.

Lemma baselines_exact_witness :
  ∃ st s', run_once no_failure monday 28 7 fortnight = (Ret st, s') ∧ agents_mature st = 1 ∧
    t_samples s' = t_samples fortnight ∧
    ((Qred ∘ bl_req_per_min_avg) <$> find_baseline "acme::bot" 5 (t_baselines s')) = Some (9 # 1)%Q ∧
    find_baseline "acme::new" 125 (t_baselines s') = None.
Proof.
  destruct (run_once no_failure monday 28 7 fortnight) as [r s'] eqn:Hrun.
  assert (r = Ret {| agents_seen := 2; agents_mature := 1; agents_skipped_immature := 1; rollup_rows_written := 1 |})
    as -> by (assert (r = fst (run_once no_failure monday 28 7 fortnight)) as -> by (by rewrite Hrun); vm_compute; reflexivity).
  eexists _, s'. split; [reflexivity|]. split; [reflexivity|].
  destruct (baselines_exact no_failure _ _ _ _ _ _ Hrun) as [Hs Hb]. split; [exact Hs|].
  rewrite !Hb. split; vm_compute; reflexivity.
Defined.
