(* ===== verification/Anomaly.v ===== *)
(** * The anomaly evaluator

    [observability/anomaly_evaluator.py]: every tick rates the agents seen
    lately against their baselines, counts how long each has been above its
    limits, and hands those that have been long enough to the quarantine, or
    to nobody when there are too many.  The evaluator reads the tables of
    [Traffic] and acts through the hook of [Quarantine] on those of
    [AgentRegistry]. *)

From S2P Require Import Prelude Sha256 IsoTime UtcTime RateLimit ReplayStore Dpop Tier Intune Mdm Effects AgentRegistry Enrollment Quarantine Traffic.
From Stdlib Require Import QArith.

Open Scope Z_scope.

(** What is printed on stderr. *)
Inductive alert :=
| ShadowLog (t : TriggerInfo) (mode : string)
| AggregateAlert (candidates : list TriggerInfo).

(** What happened to an agent; the program keeps no such record, the theorems
    speak about it. *)
Inductive step :=
| Evaluated (agent : string) (triggered : bool)
| Decided (agent : string) (at_ : Z)
| Suppressed (agent : string).

Record MetaCircuitBreaker := { _events : list Z; ceiling_trips_total : Z }.

Record AnomalyEvaluator := {
  meta_breaker : MetaCircuitBreaker;
  _hot_counter : list (string * Z);
  cycles_run : Z;
  quarantines_applied_total : Z;
  quarantines_shadow_total : Z;
  quarantines_enforce_total : Z;
}.

Record detector `{ReplayGuard} := {
  d_registry : registry_state;
  d_traffic : traffic;
  d_evaluator : AnomalyEvaluator;
  d_reads : nat;                 (* readings of the clocks *)
  d_stderr : list alert;
  d_trace : list step;
}.

Record cycle_stats := { candidates : Z; applied : Z; suppressed : Z; disabled : bool }.

(** The arguments of [__init__]; the window in microseconds. *)
Record settings := {
  mode : string;
  ratio_threshold : Q;
  abs_threshold_rps : Q;
  abs_threshold_rps_soft : Q;
  sustained_ticks_required : Z;
  ceiling_per_min : Z;
  baseline_min_days : Z;
  evaluation_window : Z;
}.

Definition evaluator_init (cfg : settings) : outcome AnomalyEvaluator :=
  if bool_decide (mode cfg = "shadow") || bool_decide (mode cfg = enforce) || bool_decide (mode cfg = "off") then
    if ceiling_per_min cfg <=? 0 then Raise ValueError
    else Ret {| meta_breaker := {| _events := []; ceiling_trips_total := 0 |}; _hot_counter := [];
                cycles_run := 0; quarantines_applied_total := 0; quarantines_shadow_total := 0;
                quarantines_enforce_total := 0 |}
  else Raise ValueError.

(** The environment: both clocks by the number of the reading, the failures of
    the statements on the tables of [Traffic], and the hooks. *)
Record surroundings `{ReplayGuard} := {
  monotonic : nat → Z;
  wall : nat → Z;
  traffic_fails : nat → option exn;
  apply_hook : option (TriggerInfo → string → Z → M registry_state unit);
  alert_hook : option (list TriggerInfo → M registry_state unit);
}.

Section Setters.
Context `{ReplayGuard}.

Definition with_evaluator (x : AnomalyEvaluator) (s : detector) : detector :=
  {| d_registry := d_registry s; d_traffic := d_traffic s; d_evaluator := x; d_reads := d_reads s;
     d_stderr := d_stderr s; d_trace := d_trace s |}.

Definition with_breaker (b : MetaCircuitBreaker) (x : AnomalyEvaluator) : AnomalyEvaluator :=
  {| meta_breaker := b; _hot_counter := _hot_counter x; cycles_run := cycles_run x;
     quarantines_applied_total := quarantines_applied_total x;
     quarantines_shadow_total := quarantines_shadow_total x;
     quarantines_enforce_total := quarantines_enforce_total x |}.

Definition with_hot (h : list (string * Z)) (x : AnomalyEvaluator) : AnomalyEvaluator :=
  {| meta_breaker := meta_breaker x; _hot_counter := h; cycles_run := cycles_run x;
     quarantines_applied_total := quarantines_applied_total x;
     quarantines_shadow_total := quarantines_shadow_total x;
     quarantines_enforce_total := quarantines_enforce_total x |}.

Definition cycled (x : AnomalyEvaluator) : AnomalyEvaluator :=
  {| meta_breaker := meta_breaker x; _hot_counter := _hot_counter x; cycles_run := cycles_run x + 1;
     quarantines_applied_total := quarantines_applied_total x;
     quarantines_shadow_total := quarantines_shadow_total x;
     quarantines_enforce_total := quarantines_enforce_total x |}.

Definition counted_as (shadow : bool) (x : AnomalyEvaluator) : AnomalyEvaluator :=
  {| meta_breaker := meta_breaker x; _hot_counter := _hot_counter x; cycles_run := cycles_run x;
     quarantines_applied_total := quarantines_applied_total x;
     quarantines_shadow_total := quarantines_shadow_total x + (if shadow then 1 else 0);
     quarantines_enforce_total := quarantines_enforce_total x + (if shadow then 0 else 1) |}.

Definition applied_more (n : Z) (x : AnomalyEvaluator) : AnomalyEvaluator :=
  {| meta_breaker := meta_breaker x; _hot_counter := _hot_counter x; cycles_run := cycles_run x;
     quarantines_applied_total := quarantines_applied_total x + n;
     quarantines_shadow_total := quarantines_shadow_total x;
     quarantines_enforce_total := quarantines_enforce_total x |}.
End Setters.

Section Evaluator.
Context `{FromIso} `{SqlDistinct} `{ReplayGuard} (W : surroundings) (cfg : settings).

Notation M := (M detector).

Definition on_traffic {A} (m : Effects.M traffic A) : M A := λ s,
  let '(r, t) := m (d_traffic s) in
  (r, {| d_registry := d_registry s; d_traffic := t; d_evaluator := d_evaluator s; d_reads := d_reads s;
         d_stderr := d_stderr s; d_trace := d_trace s |}).

Definition on_registry {A} (m : Effects.M registry_state A) : M A := λ s,
  let '(r, g) := m (d_registry s) in
  (r, {| d_registry := g; d_traffic := d_traffic s; d_evaluator := d_evaluator s; d_reads := d_reads s;
         d_stderr := d_stderr s; d_trace := d_trace s |}).

Definition update (f : AnomalyEvaluator → AnomalyEvaluator) : M unit :=
  modify (λ s, with_evaluator (f (d_evaluator s)) s).

Definition read_clock (clock : nat → Z) : M Z := λ s,
  (Ret (clock (d_reads s)),
   {| d_registry := d_registry s; d_traffic := d_traffic s; d_evaluator := d_evaluator s;
      d_reads := S (d_reads s); d_stderr := d_stderr s; d_trace := d_trace s |}).

Definition emit (a : alert) : M unit := modify (λ s,
  {| d_registry := d_registry s; d_traffic := d_traffic s; d_evaluator := d_evaluator s; d_reads := d_reads s;
     d_stderr := d_stderr s ++ [a]; d_trace := d_trace s |}).

Definition note (x : step) : M unit := modify (λ s,
  {| d_registry := d_registry s; d_traffic := d_traffic s; d_evaluator := d_evaluator s; d_reads := d_reads s;
     d_stderr := d_stderr s; d_trace := d_trace s ++ [x] |}).

(** ** [MetaCircuitBreaker] *)

Definition _window : Z := 60 * 1000000.

Fixpoint trim (cutoff : Z) (l : list Z) : list Z :=
  match l with
  | [] => []
  | t :: rest => if t <? cutoff then trim cutoff rest else l
  end.

Definition set_events (f : list Z → list Z) : M unit :=
  update (λ x, with_breaker {| _events := f (_events (meta_breaker x));
                               ceiling_trips_total := ceiling_trips_total (meta_breaker x) |} x).

Definition _trim : M unit :=
  do now <- read_clock (monotonic W);
  set_events (trim (now - _window)).

Definition recent_count : M Z :=
  do _ <- _trim;
  gets (λ s, Z.of_nat (length (_events (meta_breaker (d_evaluator s))))).

Definition record_decision (agent : string) : M unit :=
  do now <- read_clock (monotonic W);
  do _ <- set_events (λ l, l ++ [now]);
  do _ <- note (Decided agent now);
  _trim.

Definition record_ceiling_trip : M unit :=
  update (λ x, with_breaker {| _events := _events (meta_breaker x);
                               ceiling_trips_total := ceiling_trips_total (meta_breaker x) + 1 |} x).

(** ** The rate and the baseline of an agent *)

Definition _fetch_recent_agents (since_iso : string) : M (list string) :=
  on_traffic (_fetch_distinct_agents (traffic_fails W) since_iso).

Definition requests_since (id since_iso : string) (l : list sample) : Z :=
  foldr (λ r n, sm_req_count r + n) 0 (List.filter (λ r, of_agent id r && since since_iso r) l).

Definition _fetch_current_rate_rps (id since_iso : string) (window : Z) : M Q :=
  do total <- on_traffic (fetch (traffic_fails W) (λ t, requests_since id since_iso (t_samples t)));
  ret (if 0 <? window then inject_Z total / (inject_Z window / 1000000) else 0)%Q.

Definition _fetch_baseline (id : string) (hour_of_week : Z) : M (option Q) :=
  on_traffic (fetch (traffic_fails W)
    (λ t, bl_req_per_min_avg <$> find_baseline id hour_of_week (t_baselines t))).

Definition q_gt (a b : Q) : bool := negb (Qle_bool a b).

Definition trigger (id : string) (rate : Q) (baseline ratio : option Q) (how : option Z) (mature : bool) : TriggerInfo :=
  {| agent_id := id; current_rate_rps := rate; baseline_rpm := baseline; Quarantine.ratio := ratio;
     hour_of_week := how; Quarantine.mature := mature; sustained_ticks := 0 |}.

Definition above (limit rate : Q) (t : TriggerInfo) : option TriggerInfo := if q_gt rate limit then Some t else None.

Definition is_mature (now : Z) (earliest : option string) : outcome bool :=
  match earliest with
  | None => Ret false
  | Some text =>
      let! d := parsed text in
      let! earliest_dt := aware d in
      Ret (baseline_min_days cfg <=? (now - earliest_dt) / day_microseconds)
  end.

Definition _evaluate_agent (id : string) (now : Z) : M (option TriggerInfo) :=
  do window_start <- lift (datetime_of (now - evaluation_window cfg));
  do rate_rps <- _fetch_current_rate_rps id (z_text window_start) (evaluation_window cfg);
  do earliest <- on_traffic (_fetch_earliest_sample (traffic_fails W) id);
  do mature <- lift (is_mature now earliest);
  if negb mature then
    ret (above (abs_threshold_rps cfg) rate_rps (trigger id rate_rps None None None false))
  else
    let how := weekday now * 24 + hour_of_day now in
    do baseline <- _fetch_baseline id how;
    match baseline with
    | Some baseline =>
        if Qle_bool baseline 0 then
          ret (above (abs_threshold_rps cfg) rate_rps (trigger id rate_rps None None (Some how) true))
        else
          let ratio := (rate_rps * 60 / baseline)%Q in
          let t := trigger id rate_rps (Some baseline) (Some ratio) (Some how) true in
          if q_gt ratio (ratio_threshold cfg) && q_gt rate_rps (abs_threshold_rps_soft cfg) then ret (Some t)
          else ret (above (abs_threshold_rps cfg) rate_rps t)
    | None => ret (above (abs_threshold_rps cfg) rate_rps (trigger id rate_rps None None (Some how) true))
    end.

(** ** A cycle *)

Definition cool (id : string) : M unit := update (λ x, with_hot (ddel id (_hot_counter x)) x).

Definition sustained (ticks : Z) (t : TriggerInfo) : TriggerInfo :=
  {| agent_id := agent_id t; current_rate_rps := current_rate_rps t; baseline_rpm := baseline_rpm t;
     Quarantine.ratio := Quarantine.ratio t; hour_of_week := hour_of_week t;
     Quarantine.mature := Quarantine.mature t; sustained_ticks := ticks |}.

Definition consider (now : Z) (found : list TriggerInfo) (id : string) : M (list TriggerInfo) :=
  do trigger <- _evaluate_agent id now;
  match trigger with
  | None => do _ <- cool id; do _ <- note (Evaluated id false); ret found
  | Some t =>
      do ticks <- gets (λ s, default 0 (dget id (_hot_counter (d_evaluator s))) + 1);
      do _ <- update (λ x, with_hot (dset id ticks (_hot_counter x)) x);
      do _ <- note (Evaluated id true);
      ret (if sustained_ticks_required cfg <=? ticks then found ++ [sustained ticks t] else found)
  end.

Definition suppress (found : list TriggerInfo) : M cycle_stats :=
  do _ <- record_ceiling_trip;
  do _ <- emit (AggregateAlert found);
  do _ <- (match alert_hook W with
           | None => ret tt
           | Some hook => catch (on_registry (hook found)) (λ _, ret tt)
           end);
  do _ <- for_each (λ _ t, do _ <- cool (agent_id t); note (Suppressed (agent_id t))) tt found;
  ret {| candidates := Z.of_nat (length found); applied := 0; suppressed := Z.of_nat (length found);
         disabled := false |}.

Definition dispatch (t : TriggerInfo) : M unit :=
  match apply_hook W with
  | None => ret tt
  | Some hook =>
      do now <- read_clock (wall W);
      catch (on_registry (hook t (mode cfg) now)) (λ _, ret tt)
  end.

Definition carry_out (t : TriggerInfo) : M unit :=
  do _ <- emit (ShadowLog t (mode cfg));
  do _ <- dispatch t;
  do _ <- update (counted_as (bool_decide (mode cfg = "shadow")));
  cool (agent_id t).

Definition apply_one (n : Z) (t : TriggerInfo) : M Z :=
  do _ <- record_decision (agent_id t);
  do _ <- carry_out t;
  ret (n + 1).

Definition no_candidates : cycle_stats := {| candidates := 0; applied := 0; suppressed := 0; disabled := false |}.

Definition run_cycle (now : Z) : M cycle_stats :=
  if bool_decide (mode cfg = "off") then ret {| candidates := 0; applied := 0; suppressed := 0; disabled := true |}
  else
    do window_start <- lift (datetime_of (now - evaluation_window cfg));
    do recent_agents <- _fetch_recent_agents (z_text window_start);
    do found <- for_each (consider now) [] recent_agents;
    do _ <- update cycled;
    match found with
    | [] => ret no_candidates
    | _ =>
        do recent <- recent_count;
        if ceiling_per_min cfg <? recent + Z.of_nat (length found) then suppress found
        else
          do applied <- for_each apply_one 0 found;
          do _ <- update (applied_more applied);
          ret {| candidates := Z.of_nat (length found); applied := applied; suppressed := 0; disabled := false |}
    end.

(** [_loop]: a cycle that raises is retried at the next tick. *)
Definition tick (now : Z) : M unit := catch (do _ <- run_cycle now; ret tt) (λ _, ret tt).

End Evaluator.

(** ** What the parts of a cycle touch *)

Section Frames.
Context `{FromIso} `{SqlDistinct} `{ReplayGuard} (W : surroundings) (cfg : settings).

(** The evaluator and the trace are [x] and [tr], and the clock has moved. *)
Definition still (x : AnomalyEvaluator) (tr : list step) (n : nat) (s : detector) : Prop :=
  d_evaluator s = x ∧ d_trace s = tr ∧ (n <= d_reads s)%nat.

Lemma still_traffic {A} x tr n (m : Effects.M traffic A) : preserves (still x tr n) (on_traffic m).
Proof. intros s Hs. unfold on_traffic. by destruct (m _) as [[a|e] t]. Qed.
Lemma still_registry {A} x tr n (m : Effects.M registry_state A) : preserves (still x tr n) (on_registry m).
Proof. intros s Hs. unfold on_registry. by destruct (m _) as [[a|e] t]. Qed.
Lemma still_clock x tr n clock : preserves (still x tr n) (read_clock clock).
Proof. intros s (Hx & Ht & Hn). cbn. split_and!; cbn; [done..|lia]. Qed.
Lemma still_emit x tr n a : preserves (still x tr n) (emit a).
Proof. intros s (Hx & Ht & Hn). by split_and!. Qed.

#[local] Hint Resolve still_traffic still_registry still_clock still_emit : preserved.

Lemma still_evaluate x tr n id now : preserves (still x tr n) (_evaluate_agent W cfg id now).
Proof.
  unfold _evaluate_agent, _fetch_current_rate_rps, _fetch_baseline.
  repeat (apply preserves_bind; [auto with preserved|intros ?]).
  apply preserves_if; [auto with preserved|]. apply preserves_bind; [auto with preserved|]. intros [b|]; [|auto with preserved].
  apply preserves_if; [auto with preserved|]. apply preserves_if; auto with preserved.
Qed.

(** *** Decisions within a window *)

Definition decided_at (x : step) : option Z := match x with Decided _ t => Some t | _ => None end.
Definition decisions (s : detector) : list Z := omap decided_at (d_trace s).
Definition events (s : detector) : list Z := _events (meta_breaker (d_evaluator s)).

(** The decisions from [w] to a minute later. *)
Definition within (w : Z) (l : list Z) : nat := length (List.filter (λ t, (w <=? t) && (t <=? w + _window)) l).

Definition calm (D L : list Z) (n : nat) (s : detector) : Prop :=
  decisions s = D ∧ events s = L ∧ (n <= d_reads s)%nat.

Lemma calm_of_still {A} (m : M detector A) D L n :
  (∀ x tr n, preserves (still x tr n) m) → preserves (calm D L n) m.
Proof.
  intros Hm s (HD & HL & Hn). specialize (Hm (d_evaluator s) (d_trace s) n s ltac:(by split_and!)).
  unfold calm, decisions, events in *. destruct (m s) as [[a|e] s']; destruct Hm as (-> & -> & ?); by split_and!.
Qed.

Lemma calm_update f D L n :
  (∀ x, _events (meta_breaker (f x)) = _events (meta_breaker x)) → preserves (calm D L n) (update f).
Proof. intros Hf s (HD & HL & Hn). unfold calm, events. cbn. by rewrite Hf. Qed.

Lemma calm_note x D L n : decided_at x = None → preserves (calm D L n) (note x).
Proof.
  intros Hx s (HD & HL & Hn). unfold calm, decisions, events. cbn. rewrite omap_app. cbn. rewrite Hx.
  by rewrite app_nil_r.
Qed.

Lemma calm_cool id D L n : preserves (calm D L n) (cool id).
Proof. by apply calm_update. Qed.

Lemma calm_evaluate id now D L n : preserves (calm D L n) (_evaluate_agent W cfg id now).
Proof. apply calm_of_still. intros. apply still_evaluate. Qed.
Lemma calm_traffic {A} D L n (m : Effects.M traffic A) : preserves (calm D L n) (on_traffic m).
Proof. apply calm_of_still. intros. apply still_traffic. Qed.
Lemma calm_registry {A} D L n (m : Effects.M registry_state A) : preserves (calm D L n) (on_registry m).
Proof. apply calm_of_still. intros. apply still_registry. Qed.
Lemma calm_clock D L n clock : preserves (calm D L n) (read_clock clock).
Proof. apply calm_of_still. intros. apply still_clock. Qed.
Lemma calm_emit D L n a : preserves (calm D L n) (emit a).
Proof. apply calm_of_still. intros. apply still_emit. Qed.

#[local] Hint Resolve calm_note calm_cool calm_evaluate calm_traffic calm_registry calm_clock calm_emit : preserved.

Lemma calm_consider now found id D L n : preserves (calm D L n) (consider W cfg now found id).
Proof.
  unfold consider. apply preserves_bind; [auto with preserved|]. intros [t|].
  - apply preserves_bind; [auto with preserved|]. intros ticks.
    apply preserves_bind; [by apply calm_update|]. auto with preserved.
  - apply preserves_bind; auto with preserved.
Qed.

Lemma calm_suppress found D L n : preserves (calm D L n) (suppress W found).
Proof.
  unfold suppress. apply preserves_bind; [by apply calm_update|]. intros _.
  apply preserves_bind; [auto with preserved|]. intros _.
  apply preserves_bind; [destruct (alert_hook W); auto with preserved|]. intros _.
  apply preserves_bind; [|auto with preserved]. apply preserves_for_each. intros _ t.
  apply preserves_bind; auto with preserved.
Qed.

Lemma calm_carry_out t D L n : preserves (calm D L n) (carry_out W cfg t).
Proof.
  unfold carry_out. apply preserves_bind; [auto with preserved|]. intros _.
  apply preserves_bind; [unfold dispatch; destruct (apply_hook W); auto with preserved|]. intros _.
  apply preserves_bind; [by apply calm_update|auto with preserved].
Qed.

End Frames.

Section Ceiling.
Context `{FromIso} `{SqlDistinct} `{ReplayGuard} (W : surroundings) (cfg : settings).
Context (clock_mono : ∀ i j, (i <= j)%nat → monotonic W i <= monotonic W j).

(** What the deque no longer holds is older than a minute. *)
Definition kept (s : detector) : Prop :=
  ∃ dropped, decisions s = dropped ++ events s ∧
    ∀ i, (d_reads s <= i)%nat → Forall (λ t, t < monotonic W i - _window) dropped.

Lemma kept_calm s s' : kept s → calm (decisions s) (events s) (d_reads s) s' → kept s'.
Proof.
  intros (dropped & HD & Hold) (HD' & HL' & Hn). exists dropped. rewrite HD', HL'. split; [done|].
  intros i Hi. apply Hold. lia.
Qed.

Lemma trim_split cutoff l : ∃ pre, l = pre ++ trim cutoff l ∧ Forall (λ t, t < cutoff) pre.
Proof.
  induction l as [|t l (pre & Hl & Hp)]; [by exists []|]. cbn. destruct (Z.ltb_spec t cutoff).
  - exists (t :: pre). cbn. rewrite <- Hl. split; [done|]. by constructor.
  - by exists [].
Qed.

Lemma trim_spec s :
  kept s →
  ∃ s', _trim W s = (Ret tt, s') ∧ kept s' ∧ decisions s' = decisions s ∧ d_reads s' = S (d_reads s) ∧
    d_evaluator s' = with_breaker {| _events := events s'; ceiling_trips_total := ceiling_trips_total (meta_breaker (d_evaluator s)) |} (d_evaluator s) ∧
    (length (List.filter (λ t, monotonic W (d_reads s) - _window <=? t)%Z (decisions s)) <= length (events s'))%nat.
Proof.
  intros (dropped & HD & Hold). eexists. split; [reflexivity|].
  destruct (trim_split (monotonic W (d_reads s) - _window) (events s)) as (pre & Hl & Hp).
  assert (Forall (λ t, t < monotonic W (d_reads s) - _window) (dropped ++ pre)) as Hall
    by (apply Forall_app; split; [by apply Hold|done]).
  set (c := monotonic W (d_reads s) - _window) in *.
  unfold kept, decisions, events in *. cbn.
  assert (omap decided_at (d_trace s) = (dropped ++ pre) ++ trim c (_events (meta_breaker (d_evaluator s)))) as Hsplit
    by (by rewrite HD, <- app_assoc, <- Hl).
  split_and!; try done.
  - exists (dropped ++ pre). split; [done|]. intros i Hi.
    eapply Forall_impl; [exact Hall|]. cbn. intros t Ht. pose proof (clock_mono (d_reads s) i ltac:(lia)). subst c. lia.
  - rewrite Hsplit, List.filter_app, length_app.
    rewrite filter_nil by (eapply Forall_impl; [exact Hall|]; cbn; intros t Ht; by apply Z.leb_gt).
    cbn. apply List.filter_length_le.
Qed.

Lemma record_spec agent s :
  kept s →
  ∃ s', record_decision W agent s = (Ret tt, s') ∧ kept s' ∧ (d_reads s <= d_reads s')%nat ∧
    decisions s' = decisions s ++ [monotonic W (d_reads s)].
Proof.
  intros (dropped & HD & Hold).
  set (s1 := {| d_registry := d_registry s; d_traffic := d_traffic s;
    d_evaluator := with_breaker {| _events := events s ++ [monotonic W (d_reads s)];
      ceiling_trips_total := ceiling_trips_total (meta_breaker (d_evaluator s)) |} (d_evaluator s);
    d_reads := S (d_reads s); d_stderr := d_stderr s;
    d_trace := d_trace s ++ [Decided agent (monotonic W (d_reads s))] |}).
  assert (decisions s1 = decisions s ++ [monotonic W (d_reads s)]) as HD1
    by (unfold decisions; cbn; by rewrite omap_app).
  destruct (trim_spec s1) as (s' & Hrun & Hk & HD' & Hr & _).
  { exists dropped. split; [rewrite HD1, HD, <- app_assoc; done|]. intros i Hi. apply Hold. cbn in Hi. lia. }
  exists s'. split; [exact Hrun|]. split; [done|]. split; [rewrite Hr; cbn; lia|]. by rewrite HD', HD1.
Qed.

(** The ceiling. *)
Definition bounded (s : detector) : Prop :=
  kept s ∧ ∀ w, Z.of_nat (within w (decisions s)) <= ceiling_per_min cfg.

(** [k] more decisions fit, in a cycle that counted the deque at [c]. *)
Definition room (c : Z) (k : nat) (s : detector) : Prop :=
  kept s ∧ (∀ i, (d_reads s <= i)%nat → c <= monotonic W i) ∧
  ∃ old new, decisions s = old ++ new ∧ Forall (λ t, c <= t) new ∧
    (∀ w, Z.of_nat (within w old) <= ceiling_per_min cfg) ∧
    Z.of_nat (length (List.filter (λ t, c - _window <=? t)%Z old)) + Z.of_nat (length new) + Z.of_nat k
      <= ceiling_per_min cfg.

Lemma within_app w l l' : within w (l ++ l') = (within w l + within w l')%nat.
Proof. unfold within. by rewrite List.filter_app, length_app. Qed.

Lemma room_bounded c k s : room c k s → bounded s.
Proof.
  intros (Hk & _ & old & new & HD & Hnew & Hold & Hroom). split; [done|]. intros w. rewrite HD, within_app.
  destruct (Z.lt_ge_cases w (c - _window)) as [Hw|Hw].
  - assert (within w new = 0%nat) as ->; [|rewrite Nat.add_0_r; apply Hold]. unfold within.
    rewrite filter_nil; [done|]. eapply Forall_impl; [exact Hnew|]. cbn. intros t Ht.
    apply andb_false_iff. right. apply Z.leb_gt. lia.
  - assert (within w old <= length (List.filter (λ t, c - _window <=? t)%Z old))%nat.
    { unfold within. apply filter_length_mono. intros t _ [Ht _]%andb_true_iff. apply Z.leb_le in Ht. apply Z.leb_le. lia. }
    assert (within w new <= length new)%nat by apply List.filter_length_le. lia.
Qed.

Lemma room_calm c k s s' : room c k s → calm (decisions s) (events s) (d_reads s) s' → room c k s'.
Proof.
  intros (Hk & Hc & old & new & HD & Hr) Hcalm. split; [by eapply kept_calm|].
  destruct Hcalm as (HD' & _ & Hn). split; [intros i Hi; apply Hc; lia|].
  exists old, new. by rewrite HD'.
Qed.

(** A program that takes no decision. *)
Lemma room_after {A} (m : M detector A) c k s :
  (∀ D L n, preserves (calm D L n) m) → room c k s → room c k (snd (m s)).
Proof.
  intros Hm Hr. eapply room_calm; [exact Hr|].
  specialize (Hm (decisions s) (events s) (d_reads s) s ltac:(by split_and!)). by destruct (m s) as [[a|e] s'].
Qed.
Lemma bounded_after {A} (m : M detector A) s :
  (∀ D L n, preserves (calm D L n) m) → bounded s → bounded (snd (m s)).
Proof.
  intros Hm [Hk Hb]. specialize (Hm (decisions s) (events s) (d_reads s) s ltac:(by split_and!)).
  assert (calm (decisions s) (events s) (d_reads s) (snd (m s))) as Hc by (by destruct (m s) as [[a|e] s']).
  split; [by eapply kept_calm|]. destruct Hc as (-> & _). done.
Qed.

Lemma apply_one_room c k n t s : room c (S k) s → room c k (snd (apply_one W cfg n t s)).
Proof.
  intros (Hk & Hc & old & new & HD & Hnew & Hold & Hroom).
  destruct (record_spec (agent_id t) s Hk) as (s1 & Hrun & Hk1 & Hr1 & HD1).
  assert (room c k s1) as Hr.
  { split; [done|]. split; [intros i Hi; apply Hc; lia|]. exists old, (new ++ [monotonic W (d_reads s)]).
    rewrite HD1, HD, app_assoc. split_and!; try done.
    - apply Forall_app. split; [done|]. constructor; [|done]. apply Hc. lia.
    - rewrite length_app. cbn. lia. }
  unfold apply_one. rewrite (bind_step _ _ _ _ _ Hrun).
  pose proof (room_after (carry_out W cfg t) c k s1 (calm_carry_out W cfg t) Hr) as Hend.
  unfold bind. by destruct (carry_out W cfg t s1) as [[[]|e] s2].
Qed.

Lemma apply_loop_room c found : ∀ n s, room c (length found) s → bounded (snd (for_each (apply_one W cfg) n found s)).
Proof.
  induction found as [|t found IH]; intros n s Hr; cbn [for_each length] in *; [by apply (room_bounded c 0)|].
  pose proof (apply_one_room c (length found) n t s Hr) as Hone. unfold bind.
  destruct (apply_one W cfg n t s) as [[m|e] s1]; cbn in Hone; [by apply IH|by eapply room_bounded].
Qed.

Lemma cycle_bounded now s : bounded s → bounded (snd (run_cycle W cfg now s)).
Proof.
  intros Hb. unfold run_cycle. case_bool_decide; [done|].
  unfold bind at 1. cbn [lift]. destruct (datetime_of _) as [ws|]; [|done].
  pose proof (bounded_after (_fetch_recent_agents W (z_text ws)) s (λ D L n, calm_traffic D L n _) Hb) as H1b.
  unfold bind at 1. destruct (_fetch_recent_agents W (z_text ws) s) as [[recent|e] s1]; [|done]. cbn [snd] in H1b.
  pose proof (bounded_after (for_each (consider W cfg now) [] recent) s1) as H2b.
  unfold bind at 1. destruct (for_each _ _ recent s1) as [[found|e] s2]; cbn [snd] in H2b;
    (assert (bounded s2) as Hb2 by (apply H2b; [intros; apply preserves_for_each; intros; apply calm_consider|done])); [|done].
  clear H1b H2b. pose proof (bounded_after (update cycled) s2 ltac:(intros; by apply calm_update) Hb2) as Hb3.
  unfold bind at 1. change (update cycled s2) with (@Ret unit tt, snd (update cycled s2)).
  set (s3 := snd (update cycled s2)) in *.
  destruct found as [|t found]; [done|]. set (all := t :: found). clearbody s3.
  destruct Hb3 as [Hk Hw]. destruct (trim_spec s3 Hk) as (s4 & Htrim & Hk4 & HD4 & Hr4 & _ & Hlen).
  unfold recent_count. rewrite bind_assoc. unfold bind at 1. rewrite Htrim. unfold bind at 1. cbn [gets].
  fold (events s4). destruct (Z.ltb_spec (ceiling_per_min cfg) (Z.of_nat (length (events s4)) + Z.of_nat (length all))) as [|Hfit].
  - apply (bounded_after (suppress W all)); [intros; apply calm_suppress|]. split; [done|]. by rewrite HD4.
  - assert (room (monotonic W (d_reads s3)) (length all) s4) as Hroom.
    { split; [done|]. split; [intros i Hi; apply clock_mono; lia|]. exists (decisions s4), []. rewrite app_nil_r.
      split_and!; [done|constructor|by rewrite HD4|]. rewrite HD4. cbn [length]. lia. }
    apply (apply_loop_room _ _ 0) in Hroom. unfold bind at 1.
    destruct (for_each (apply_one W cfg) 0 all s4) as [[n|e] s5]; [|done]. cbn [snd] in Hroom.
    by apply (bounded_after (bind (update (applied_more n)) (λ _, ret {| candidates := Z.of_nat (length all);
      applied := n; suppressed := 0; disabled := false |}))); [intros; apply preserves_bind; [by apply calm_update|auto with preserved]|].
Qed.

End Ceiling.

(** ** A life of the process *)

(** Ticks, and whatever the rest of the process does to the tables. *)
Inductive happening `{ReplayGuard} :=
| Tick (now : Z)
| Others (g : registry_state) (t : traffic).

Section Life.
Context `{FromIso} `{SqlDistinct} `{ReplayGuard} (W : surroundings) (cfg : settings).

Definition happen (s : detector) (h : happening) : detector :=
  match h with
  | Tick now => snd (tick W cfg now s)
  | Others g t =>
      {| d_registry := g; d_traffic := t; d_evaluator := d_evaluator s; d_reads := d_reads s;
         d_stderr := d_stderr s; d_trace := d_trace s |}
  end.

Definition live (l : list happening) (s : detector) : detector := foldl happen s l.

Definition started (x : AnomalyEvaluator) (g : registry_state) (t : traffic) : detector :=
  {| d_registry := g; d_traffic := t; d_evaluator := x; d_reads := 0; d_stderr := []; d_trace := [] |}.

Lemma live_inv (P : detector → Prop) l s :
  (∀ now s, P s → P (snd (run_cycle W cfg now s))) →
  (∀ g t s, P s → P (happen s (Others g t))) →
  P s → P (live l s).
Proof.
  intros Hc Ho. unfold live. revert s. induction l as [|h l IH]; intros s Hs; [done|]. cbn [foldl]. apply IH.
  destruct h as [now|g t]; [|by apply Ho]. cbn. specialize (Hc now s Hs). unfold tick, catch, bind.
  by destruct (run_cycle W cfg now s) as [[a|e] s1].
Qed.

(** C17: Whatever the ticks see and whatever else happens to the tables, an
    evaluator never takes more decisions within any sixty seconds of its clock
    than its ceiling: not in one cycle, and not over cycles that each stayed
    below it. *)
Theorem decisions_bounded x g t l w :
  (∀ i j, (i <= j)%nat → monotonic W i <= monotonic W j) →
  evaluator_init cfg = Ret x →
  Z.of_nat (within w (decisions (live l (started x g t)))) <= ceiling_per_min cfg.
Proof.
  intros Hmono Hinit. assert (bounded W cfg (live l (started x g t))) as [_ Hb]; [|apply Hb].
  apply live_inv.
  - intros now s. by apply cycle_bounded.
  - intros g' t' s [Hk Hw]. by split.
  - unfold evaluator_init in Hinit. destruct (_ || _); [|done].
    destruct (Z.leb_spec (ceiling_per_min cfg) 0); [done|]. injection Hinit as <-.
    split; [|intros w'; cbn; lia]. exists []. split; [done|]. by constructor.
Qed.

(** ** Only sustained triggers are decided *)

Definition concerns (a : string) (n : Z) (x : step) : Z :=
  match x with
  | Evaluated b true => if bool_decide (b = a) then n + 1 else n
  | Evaluated b false | Suppressed b => if bool_decide (b = a) then 0 else n
  | Decided b _ => if bool_decide (b = a) then 0 else n
  end.

(** The evaluations of an agent that tripped since it last cooled down. *)
Definition streak (a : string) (tr : list step) : Z := foldl (concerns a) 0 tr.

Definition hot (a : string) (s : detector) : Z := default 0 (dget a (_hot_counter (d_evaluator s))).

Definition earned (tr : list step) : Prop :=
  ∀ pre a t post, tr = pre ++ Decided a t :: post → sustained_ticks_required cfg <= streak a pre.

Definition tracked (s : detector) : Prop := (∀ a, hot a s = streak a (d_trace s)) ∧ earned (d_trace s).

Lemma streak_snoc a tr x : streak a (tr ++ [x]) = concerns a (streak a tr) x.
Proof. unfold streak. by rewrite foldl_app. Qed.

Lemma earned_snoc tr x :
  earned tr → (∀ a t, x = Decided a t → sustained_ticks_required cfg <= streak a tr) → earned (tr ++ [x]).
Proof.
  intros He Hx pre a t post Heq. destruct post as [|y post _] using rev_ind.
  - apply app_inj_tail in Heq as [-> ->]. by eapply Hx.
  - rewrite app_comm_cons, app_assoc in Heq. apply app_inj_tail in Heq as [-> _]. by eapply He.
Qed.

Lemma dget_ddel a b (d : list (string * Z)) : dget a (ddel b d) = if bool_decide (b = a) then None else dget a d.
Proof.
  unfold ddel. induction d as [|[k v] d IH]; cbn; [by case_bool_decide|].
  repeat (case_bool_decide; cbn; try subst; try done).
Qed.

(** The counters and the trace. *)
Definition hots (h : string → Z) (tr : list step) (s : detector) : Prop := (∀ a, hot a s = h a) ∧ d_trace s = tr.

Lemma hots_still {A} (m : M detector A) h tr :
  (∀ x tr n, preserves (still x tr n) m) → preserves (hots h tr) m.
Proof.
  intros Hm s [Hh Ht]. specialize (Hm (d_evaluator s) (d_trace s) 0%nat s ltac:(split_and!; [done..|lia])).
  unfold hots, hot in *. destruct (m s) as [[a|e] s']; destruct Hm as (-> & -> & _); by split.
Qed.

Lemma hots_update f h tr : (∀ x, _hot_counter (f x) = _hot_counter x) → preserves (hots h tr) (update f).
Proof. intros Hf s [Hh Ht]. split; [|done]. intros a. unfold hot. cbn. rewrite Hf. apply Hh. Qed.

Definition cooled (a : string) (h : string → Z) : string → Z := λ b, if bool_decide (a = b) then 0 else h b.

Lemma hots_cool a h tr s : hots h tr s → ∃ s', cool a s = (Ret tt, s') ∧ hots (cooled a h) tr s'.
Proof.
  intros [Hh Ht]. eexists. split; [reflexivity|]. split; [|done]. intros b. unfold hot, cooled. cbn.
  rewrite dget_ddel. case_bool_decide; [done|apply Hh].
Qed.

Lemma hots_note x h tr s : hots h tr s → ∃ s', note x s = (Ret tt, s') ∧ hots h (tr ++ [x]) s'.
Proof. intros [Hh Ht]. eexists. split; [reflexivity|]. split; [exact Hh|]. cbn. by rewrite Ht. Qed.

(** Steps that leave both alone. *)
Lemma hots_after {A} (m : M detector A) h tr s : preserves (hots h tr) m → hots h tr s → hots h tr (snd (m s)).
Proof. intros Hm Hs. specialize (Hm s Hs). by destruct (m s) as [[a|e] s']. Qed.

Lemma hots_record a h tr s :
  hots h tr s → ∃ s' t, record_decision W a s = (Ret tt, s') ∧ hots h (tr ++ [Decided a t]) s'.
Proof. intros [Hh Ht]. eexists _, _. split; [reflexivity|]. split; [exact Hh|]. cbn. by rewrite Ht. Qed.

#[local] Hint Resolve still_traffic still_registry still_clock still_emit : preserved.
#[local] Hint Extern 1 (preserves (hots _ _) (on_registry _)) => apply hots_still; intros; apply still_registry : preserved.
#[local] Hint Extern 1 (preserves (hots _ _) (on_traffic _)) => apply hots_still; intros; apply still_traffic : preserved.
#[local] Hint Extern 1 (preserves (hots _ _) (read_clock _)) => apply hots_still; intros; apply still_clock : preserved.
#[local] Hint Extern 1 (preserves (hots _ _) (emit _)) => apply hots_still; intros; apply still_emit : preserved.
#[local] Hint Extern 1 (preserves (hots _ _) (update _)) => by apply hots_update : preserved.

Lemma dispatch_returns t s : ∃ s', dispatch W cfg t s = (Ret tt, s').
Proof.
  unfold dispatch. destruct (apply_hook W) as [k|]; [|by eexists]. unfold bind, read_clock, catch. cbn.
  destruct (on_registry _ _) as [[[]|e] s2]; by eexists.
Qed.

Lemma apply_one_returns n t s : ∃ s', apply_one W cfg n t s = (Ret (n + 1), s').
Proof.
  unfold apply_one. rewrite (bind_step _ _ _ tt (snd (record_decision W (agent_id t) s))) by done.
  set (s1 := snd (record_decision W (agent_id t) s)). clearbody s1. unfold carry_out. rewrite bind_assoc.
  rewrite (bind_step _ _ _ tt (snd (emit (ShadowLog t (mode cfg)) s1))) by done.
  set (s2 := snd (emit (ShadowLog t (mode cfg)) s1)). clearbody s2. rewrite bind_assoc.
  destruct (dispatch_returns t s2) as [s3 Hd]. rewrite (bind_step _ _ _ _ _ Hd). by eexists.
Qed.

Lemma hots_run {A} (m : M detector A) h tr s a s' :
  preserves (hots h tr) m → m s = (Ret a, s') → hots h tr s → hots h tr s'.
Proof. intros Hm Hrun Hs. specialize (Hm s Hs). by rewrite Hrun in Hm. Qed.

Lemma hots_carry_out t h tr s :
  hots h tr s → ∃ s', carry_out W cfg t s = (Ret tt, s') ∧ hots (cooled (agent_id t) h) tr s'.
Proof.
  intros Hs. unfold carry_out. rewrite (bind_step _ _ _ tt (snd (emit (ShadowLog t (mode cfg)) s))) by done.
  assert (hots h tr (snd (emit (ShadowLog t (mode cfg)) s))) as H1s by (apply hots_after; auto with preserved).
  revert H1s. generalize (snd (emit (ShadowLog t (mode cfg)) s)). intros s1 H1s.
  destruct (dispatch_returns t s1) as [s2 Hrun]. rewrite (bind_step _ _ _ _ _ Hrun).
  apply (hots_run _ h tr) in Hrun; [|unfold dispatch; destruct (apply_hook W); auto with preserved|done].
  rewrite (bind_step _ _ _ tt (snd (update (counted_as (bool_decide (mode cfg = "shadow"))) s2))) by done.
  apply hots_cool. apply hots_after; auto with preserved.
Qed.

(** A decision on an agent that has earned it. *)
Lemma apply_one_tracked t n s :
  tracked s → sustained_ticks_required cfg <= hot (agent_id t) s →
  ∃ s', apply_one W cfg n t s = (Ret (n + 1), s') ∧ tracked s' ∧
        ∀ b, b ≠ agent_id t → hot b s' = hot b s.
Proof.
  intros [Hh He] Hreq. unfold apply_one.
  destruct (hots_record (agent_id t) (λ a, hot a s) (d_trace s) s) as (s1 & at_ & Hrun & H1s); [by split|].
  rewrite (bind_step _ _ _ _ _ Hrun). destruct (hots_carry_out t _ _ _ H1s) as (s2 & Hrun2 & Hh2 & Htr2).
  rewrite (bind_step _ _ _ _ _ Hrun2). eexists. split; [reflexivity|]. split.
  - split.
    + intros a. rewrite Hh2, Htr2, streak_snoc. unfold cooled. cbn. case_bool_decide; [done|apply Hh].
    + rewrite Htr2. apply earned_snoc; [done|]. intros a t' [= <- _]. by rewrite <- Hh.
  - intros b Hb. rewrite Hh2. unfold cooled. by rewrite bool_decide_eq_false_2.
Qed.

Definition ready (found : list TriggerInfo) (s : detector) : Prop :=
  NoDup (agent_id <$> found) ∧ Forall (λ t, sustained_ticks_required cfg <= hot (agent_id t) s) found.

Lemma apply_loop_tracked found : ∀ n s,
  tracked s → ready found s → ∃ s', for_each (apply_one W cfg) n found s = (Ret (n + Z.of_nat (length found)), s') ∧ tracked s'.
Proof.
  induction found as [|t found IH]; intros n s Ht [Hnd Hf].
  - exists s. cbn. by rewrite Z.add_0_r.
  - apply NoDup_cons in Hnd as [Hnew Hnd]. apply Forall_cons in Hf as [Ht0 Hf].
    destruct (apply_one_tracked t n s Ht Ht0) as (s1 & Hrun & Ht1 & Hsame).
    cbn [for_each]. rewrite (bind_step _ _ _ _ _ Hrun). destruct (IH (n + 1) s1 Ht1) as (s2 & Hrun2 & Ht2).
    + split; [done|]. rewrite Forall_forall in Hf |- *. intros t' Hin. rewrite Hsame; [by apply Hf|].
      intros Heq. apply Hnew. rewrite <- Heq. by apply list_elem_of_fmap_2.
    + exists s2. split; [|done]. rewrite Hrun2.
      by replace (n + Z.of_nat (length (t :: found))) with (n + 1 + Z.of_nat (length found)) by (cbn [length]; lia).
Qed.

(** ** The evaluations *)

Lemma evaluate_named id now s t s' :
  _evaluate_agent W cfg id now s = (Ret (Some t), s') → agent_id t = id.
Proof.
  unfold _evaluate_agent, above. intros (ws & s1 & _ & Hrun)%bind_Ret.
  apply bind_Ret in Hrun as (rate & s2 & _ & Hrun). apply bind_Ret in Hrun as (e & s3 & _ & Hrun).
  apply bind_Ret in Hrun as (m & s4 & _ & Hrun). destruct m; cbn [negb] in Hrun.
  - apply bind_Ret in Hrun as (bl & s5 & _ & Hrun).
    repeat case_match; injection Hrun as Ht _; by simplify_eq/=.
  - case_match; injection Hrun as Ht _; by simplify_eq/=.
Qed.

Lemma hot_same s s' a :
  d_evaluator s' = d_evaluator s → hot a s' = hot a s.
Proof. unfold hot. by intros ->. Qed.

Lemma consider_tracked now found id s :
  tracked s → ready found s → id ∉ (agent_id <$> found) →
  let '(r, s') := consider W cfg now found id s in
  tracked s' ∧ (∀ found', r = Ret found' → ready found' s' ∧ ∀ b, b ∈ (agent_id <$> found') → b = id ∨ b ∈ (agent_id <$> found)).
Proof.
  intros Ht [Hnd Hf] Hid. unfold consider, bind at 1.
  pose proof (still_evaluate W cfg (d_evaluator s) (d_trace s) 0 id now s ltac:(split_and!; [done..|lia])) as Hq.
  pose proof (evaluate_named id now s) as Hname.
  destruct (_evaluate_agent W cfg id now s) as [[o|e] s1]; destruct Hq as (Hx & Htr & _).
  2:{ destruct Ht as [Hh He]. split; [|done]. split; [intros a; by rewrite (hot_same s s1), Htr|by rewrite Htr]. }
  assert (tracked s1) as [Hh He].
  { destruct Ht as [Hh He]. split; [intros a; by rewrite (hot_same s s1), Htr|by rewrite Htr]. }
  assert (Forall (λ t, sustained_ticks_required cfg <= hot (agent_id t) s1) found) as Hf1
    by (eapply Forall_impl; [exact Hf|]; intros t Hle; by rewrite (hot_same s s1)).
  assert (∀ t, t ∈ found → agent_id t ≠ id) as Hother by (intros t Hin Heq; apply Hid; rewrite <- Heq; by apply list_elem_of_fmap_2).
  clear Ht Hf Hx Htr. destruct o as [t|].
  - specialize (Hname t s1 eq_refl).
    set (ticks := hot id s1 + 1).
    set (s2 := snd (note (Evaluated id true) (snd (update (λ x, with_hot (dset id ticks (_hot_counter x)) x) s1)))).
    change (let '(r, s') := (Ret (if sustained_ticks_required cfg <=? ticks then found ++ [sustained ticks t] else found), s2) in
      tracked s' ∧ (∀ found', r = Ret found' → ready found' s' ∧ ∀ b, b ∈ (agent_id <$> found') → b = id ∨ b ∈ (agent_id <$> found))).
    cbv iota beta.
    assert (∀ b, hot b s2 = if bool_decide (id = b) then ticks else hot b s1) as Hhot.
    { intros b. unfold hot. cbn. case_bool_decide as Hb; [subst; by rewrite dget_dset_eq|by rewrite dget_dset_ne]. }
    assert (Forall (λ t, sustained_ticks_required cfg <= hot (agent_id t) s2) found) as Hf2.
    { rewrite Forall_forall in Hf1 |- *. intros t' Hin. rewrite Hhot, bool_decide_eq_false_2; [by apply Hf1|].
      intros Heq. by apply (Hother t' Hin). }
    split; [split|].
    + intros b. rewrite Hhot. change (d_trace s2) with (d_trace s1 ++ [Evaluated id true]). rewrite streak_snoc. cbn.
      rewrite <- Hh. case_bool_decide as Hb; [by subst|done].
    + by apply earned_snoc.
    + intros found' [= <-]. destruct (Z.leb_spec (sustained_ticks_required cfg) ticks) as [Hle|]; [|split; [by split|by right]].
      split; [split|].
      * rewrite fmap_app. apply NoDup_app. split_and!; [done| |apply NoDup_singleton].
        intros b Hb Hb'%list_elem_of_singleton. subst b. cbn in Hb. congruence.
      * apply Forall_app. split; [done|]. constructor; [|done]. cbn [agent_id sustained]. rewrite Hhot, Hname, bool_decide_eq_true_2 by done. done.
      * intros b. rewrite fmap_app, elem_of_app. intros [Hb|Hb%list_elem_of_singleton]; [by right|left]. by cbn in Hb; subst.
  - destruct (hots_cool id (λ a, hot a s1) (d_trace s1) s1) as (s2 & Hrun & Hs2); [by split|].
    rewrite (bind_step _ _ _ _ _ Hrun). destruct (hots_note (Evaluated id false) _ _ _ Hs2) as (s3 & Hrun3 & Hh3 & Htr3).
    rewrite (bind_step _ _ _ _ _ Hrun3). cbn [ret]. split; [split|].
    + intros b. rewrite Hh3, Htr3, streak_snoc. unfold cooled. cbn. case_bool_decide; [done|apply Hh].
    + rewrite Htr3. by apply earned_snoc.
    + intros found' [= <-]. split; [split; [done|]|by right]. rewrite Forall_forall in Hf1 |- *. intros t' Hin.
      rewrite Hh3. unfold cooled. rewrite bool_decide_eq_false_2; [by apply Hf1|]. intros Heq. by apply (Hother t' Hin).
Qed.

Lemma consider_loop_tracked now ids : ∀ found s,
  NoDup ids → tracked s → ready found s → (∀ b, b ∈ (agent_id <$> found) → b ∉ ids) →
  let '(r, s') := for_each (consider W cfg now) found ids s in
  tracked s' ∧ ∀ found', r = Ret found' → ready found' s'.
Proof.
  induction ids as [|id ids IH]; intros found s Hnd Ht Hr Hdis; cbn [for_each].
  - split; [done|]. by intros found' [= <-].
  - apply NoDup_cons in Hnd as [Hid Hnd].
    pose proof (consider_tracked now found id s Ht Hr) as Hone. unfold bind.
    destruct (consider W cfg now found id s) as [[found1|e] s1];
      (destruct Hone as [Ht1 Hr1]; [intros Hin; apply (Hdis id Hin); by left|]); [|by split].
    destruct (Hr1 found1 eq_refl) as [Hready Hfrom]. apply IH; [done..|]. intros b Hb Hin.
    destruct (Hfrom b Hb) as [->|Hb']; [done|]. apply (Hdis b Hb'). by right.
Qed.

Lemma cool_down_tracked found : ∀ s,
  tracked s →
  ∃ s', for_each (λ (_ : unit) t, bind (cool (agent_id t)) (λ _, note (Suppressed (agent_id t)))) tt found s = (Ret tt, s')
        ∧ tracked s'.
Proof.
  induction found as [|t found IH]; intros s [Hh He]; cbn [for_each]; [by eexists|].
  destruct (hots_cool (agent_id t) (λ a, hot a s) (d_trace s) s) as (s1 & Hrun & H1s); [by split|].
  destruct (hots_note (Suppressed (agent_id t)) _ _ _ H1s) as (s2 & Hrun2 & Hh2 & Htr2).
  assert (bind (cool (agent_id t)) (λ _, note (Suppressed (agent_id t))) s = (Ret tt, s2)) as Hone
    by (by rewrite (bind_step _ _ _ _ _ Hrun)).
  rewrite (bind_step _ _ _ _ _ Hone). apply IH. split.
  - intros b. rewrite Hh2, Htr2, streak_snoc. unfold cooled. cbn. case_bool_decide; [done|apply Hh].
  - rewrite Htr2. by apply earned_snoc.
Qed.

Lemma tracked_after {A} (m : M detector A) s :
  (∀ h tr, preserves (hots h tr) m) → tracked s → tracked (snd (m s)).
Proof.
  intros Hm [Hh He]. destruct (hots_after m (λ a, hot a s) (d_trace s) s (Hm _ _)) as [Hh' Htr]; [by split|].
  split; [intros a; by rewrite Hh', Htr|by rewrite Htr].
Qed.

Lemma suppress_tracked found s : tracked s → tracked (snd (suppress W found s)).
Proof.
  intros Ht. unfold suppress.
  rewrite (bind_step _ _ _ tt (snd (record_ceiling_trip s))) by done.
  assert (tracked (snd (record_ceiling_trip s))) as H1s by (apply tracked_after; [intros; by apply hots_update|done]).
  revert H1s. generalize (snd (record_ceiling_trip s)). intros s1 H1s.
  rewrite (bind_step _ _ _ tt (snd (emit (AggregateAlert found) s1))) by done.
  assert (tracked (snd (emit (AggregateAlert found) s1))) as H2s by (apply tracked_after; [auto with preserved|done]).
  revert H2s. generalize (snd (emit (AggregateAlert found) s1)). intros s2 H2s.
  match goal with |- context [bind ?m _ s2] => set (hook := m) end.
  assert (∀ h tr, preserves (hots h tr) hook) as Hhook by (intros; subst hook; destruct (alert_hook W); auto with preserved).
  pose proof (tracked_after hook s2 Hhook H2s) as H3s. unfold bind at 1.
  destruct (hook s2) as [[[]|e] s3]; [|done]. cbn [snd] in H3s.
  destruct (cool_down_tracked found s3 H3s) as (s4 & Hrun & Ht4). by rewrite (bind_step _ _ _ _ _ Hrun).
Qed.

Lemma cycle_tracked now s : tracked s → tracked (snd (run_cycle W cfg now s)).
Proof.
  intros Ht. unfold run_cycle. case_bool_decide; [done|].
  unfold bind at 1. cbn [lift]. destruct (datetime_of _) as [ws|]; [|done].
  pose proof (tracked_after (_fetch_recent_agents W (z_text ws)) s ltac:(unfold _fetch_recent_agents; auto with preserved) Ht) as H1s.
  assert (∀ ids s1, _fetch_recent_agents W (z_text ws) s = (Ret ids, s1) → NoDup ids) as Hids.
  { intros ids s1 Hrun. unfold _fetch_recent_agents, on_traffic in Hrun.
    destruct (_fetch_distinct_agents _ _ _) as [r t] eqn:Hf. injection Hrun as -> <-.
    apply fetch_Ret in Hf as [-> _]. rewrite distinct_perm. apply NoDup_remove_dups. }
  unfold bind at 1. destruct (_fetch_recent_agents W (z_text ws) s) as [[ids|e] s1]; [|done]. cbn [snd] in H1s.
  pose proof (consider_loop_tracked now ids [] s1 (Hids _ _ eq_refl) H1s ltac:(by split; [apply NoDup_nil_2|])
    ltac:(intros b Hb; by apply not_elem_of_nil in Hb)) as H2s.
  unfold bind at 1. destruct (for_each (consider W cfg now) [] ids s1) as [[found|e] s2]; destruct H2s as [Ht2 Hready]; [|done].
  specialize (Hready found eq_refl). unfold bind at 1. change (update cycled s2) with (@Ret unit tt, snd (update cycled s2)).
  set (s3 := snd (update cycled s2)).
  assert (tracked s3 ∧ ready found s3) as [Ht3 Hr3] by done. clearbody s3. clear Ht2 Hready.
  destruct found as [|t found]; [done|]. set (all := t :: found) in *.
  assert (∀ h tr, preserves (hots h tr) (_trim W)) as Htrim
    by (intros; unfold _trim; apply preserves_bind; [auto with preserved|intros; by apply hots_update]).
  assert (tracked (snd (_trim W s3)) ∧ ready all (snd (_trim W s3))) as [Ht4 Hr4].
  { split; [by apply tracked_after|]. destruct Hr3 as [Hnd Hf]. split; [done|]. eapply Forall_impl; [exact Hf|].
    intros t' Hle. destruct (hots_after (_trim W) (λ a, hot a s3) (d_trace s3) s3 (Htrim _ _)) as [Hh _]; [by split|].
    by rewrite Hh. }
  unfold recent_count. rewrite bind_assoc. unfold bind at 1.
  change (_trim W s3) with (@Ret unit tt, snd (_trim W s3)). set (s4 := snd (_trim W s3)) in *. clearbody s4.
  unfold bind at 1. cbn [gets]. case_match; [by apply suppress_tracked|].
  destruct (apply_loop_tracked all 0 s4 Ht4 Hr4) as (s5 & Hrun & Ht5). rewrite (bind_step _ _ _ _ _ Hrun).
  exact (tracked_after (update (applied_more (0 + Z.of_nat (length all)))) s5 ltac:(auto with preserved) Ht5).
Qed.

(** An agent is decided on only when it tripped in at least the required
    number of its evaluations with no clear evaluation, no decision and no
    suppression of it among them: whatever else happens, between any two
    decisions on one agent lie that many new triggers. *)
Theorem decisions_sustained x g t l pre a at_ post :
  evaluator_init cfg = Ret x →
  d_trace (live l (started x g t)) = pre ++ Decided a at_ :: post →
  sustained_ticks_required cfg <= streak a pre.
Proof.
  intros Hinit Htr. assert (tracked (live l (started x g t))) as [_ He]; [|by eapply He].
  apply live_inv.
  - intros now s. apply cycle_tracked.
  - intros g' t' s Ht. exact Ht.
  - unfold evaluator_init in Hinit. destruct (_ || _); [|done]. destruct (_ <=? _); [done|]. injection Hinit as <-.
    split; [done|]. intros pre' a' t' post' Hnil. by destruct pre'.
Qed.

End Life.

(** ** Cycles *)

Section Cycles.
Context `{Hash} `{FromIso} `{SqlDistinct} `{Cryptography} `{ReplayGuard} (E : registry_env) (ttl_hours : Z).
Context (mono wall_clock : nat → Z) (fails : nat → option exn) (cfg : settings).

(** As [main.py] wires it. *)
Definition wired : surroundings :=
  {| monotonic := mono; wall := wall_clock; traffic_fails := fails;
     apply_hook := Some (λ t mode now, quarantine_hook E ttl_hours None t mode now); alert_hook := None |}.

Notation W := wired.

(** Everything but [on_registry] leaves the registry alone. *)
Definition registry_in (P : registry_state → Prop) (s : detector) : Prop := P (d_registry s).

Lemma in_traffic {A} P (m : Effects.M traffic A) : preserves (registry_in P) (on_traffic m).
Proof. intros s Hs. unfold on_traffic. by destruct (m _) as [[a|e] t]. Qed.
Lemma in_registry {A} P (m : Effects.M registry_state A) : preserves P m → preserves (registry_in P) (on_registry m).
Proof. intros Hm s Hs. specialize (Hm (d_registry s) Hs). unfold on_registry. by destruct (m _) as [[a|e] g]. Qed.
Lemma in_clock P clock : preserves (registry_in P) (read_clock clock).
Proof. intros s Hs. exact Hs. Qed.
Lemma in_modify P f : (∀ s, d_registry (f s) = d_registry s) → preserves (registry_in P) (modify f).
Proof. intros Hf s Hs. unfold registry_in. cbn. by rewrite Hf. Qed.

#[local] Hint Resolve in_traffic in_clock : preserved.
#[local] Hint Extern 1 (preserves (registry_in _) (update _)) => by apply in_modify : preserved.
#[local] Hint Extern 1 (preserves (registry_in _) (emit _)) => by apply in_modify : preserved.
#[local] Hint Extern 1 (preserves (registry_in _) (note _)) => by apply in_modify : preserved.
#[local] Hint Extern 1 (preserves (registry_in _) (cool _)) => by apply in_modify : preserved.

Lemma in_trim P : preserves (registry_in P) (_trim W).
Proof. unfold _trim, set_events. auto with preserved. Qed.

Lemma in_evaluate P id now : preserves (registry_in P) (_evaluate_agent W cfg id now).
Proof.
  unfold _evaluate_agent, _fetch_current_rate_rps, _fetch_baseline.
  repeat (apply preserves_bind; [auto with preserved|intros ?]).
  apply preserves_if; [auto with preserved|]. apply preserves_bind; [auto with preserved|]. intros [b|]; [|auto with preserved].
  apply preserves_if; [auto with preserved|]. apply preserves_if; auto with preserved.
Qed.

Lemma in_consider P now found id : preserves (registry_in P) (consider W cfg now found id).
Proof.
  unfold consider. apply preserves_bind; [apply in_evaluate|]. intros [t|].
  - apply preserves_bind; [auto with preserved|]. intros ticks. apply preserves_bind; auto with preserved.
  - apply preserves_bind; auto with preserved.
Qed.

Lemma in_suppress P found : preserves (registry_in P) (suppress W found).
Proof.
  unfold suppress, record_ceiling_trip. cbn [alert_hook wired].
  repeat (apply preserves_bind; [auto with preserved|intros ?]). auto with preserved.
Qed.

Lemma in_apply_one P n t :
  (∀ t now, preserves P (quarantine_hook E ttl_hours None t (mode cfg) now)) →
  preserves (registry_in P) (apply_one W cfg n t).
Proof.
  intros Hhook. unfold apply_one, record_decision, carry_out, dispatch, set_events. cbn [apply_hook wired].
  apply preserves_bind; [repeat (apply preserves_bind; [auto with preserved|intros ?]); apply in_trim|intros _].
  apply preserves_bind; [|auto with preserved].
  apply preserves_bind; [auto with preserved|intros _]. apply preserves_bind; [|intros _; apply preserves_bind; auto with preserved].
  apply preserves_bind; [auto with preserved|intros now]. apply preserves_catch; [by apply in_registry|auto with preserved].
Qed.

Lemma in_cycle P now :
  (∀ t now, preserves P (quarantine_hook E ttl_hours None t (mode cfg) now)) →
  preserves (registry_in P) (run_cycle W cfg now).
Proof.
  intros Hhook. unfold run_cycle, _fetch_recent_agents. apply preserves_if; [auto with preserved|].
  apply preserves_bind; [auto with preserved|intros ws]. apply preserves_bind; [auto with preserved|intros ids].
  apply preserves_bind; [apply preserves_for_each; intros; apply in_consider|intros found].
  apply preserves_bind; [auto with preserved|intros _]. destruct found as [|t found]; [auto with preserved|].
  apply preserves_bind; [apply preserves_bind; [apply in_trim|auto with preserved]|intros recent].
  apply preserves_if; [apply in_suppress|].
  apply preserves_bind; [apply preserves_for_each; intros; by apply in_apply_one|intros n]. auto with preserved.
Qed.

(** Outside enforce mode a cycle never changes an agent, whatever it
    finds: it only writes decisions; and when the evaluator is off it does
    nothing at all. *)
Theorem shadow_spares_agents now s :
  mode cfg ≠ enforce →
  agents (s_tables (d_registry (snd (run_cycle W cfg now s)))) = agents (s_tables (d_registry s)) ∧
  (mode cfg = "off" → snd (run_cycle W cfg now s) = s).
Proof.
  intros Hmode. split.
  - pose proof (in_cycle (λ g, agents (s_tables g) = agents (s_tables (d_registry s))) now) as Hin.
    specialize (Hin ltac:(
      intros t now' g Hg; pose proof (decision_recorded E ttl_hours None t (mode cfg) now' g) as Hd;
      destruct (quarantine_hook E ttl_hours None t (mode cfg) now' g) as [[[]|e] g']; destruct Hd as (Hno & Hyes & _);
      [destruct (Hyes eq_refl) as [->|[Hm _]]; [exact Hg|by destruct Hmode]|by rewrite (Hno eq_refl)]) s eq_refl).
    by destruct (run_cycle W cfg now s) as [[st|e] s'].
  - intros Hoff. unfold run_cycle. by rewrite bool_decide_eq_true_2.
Qed.

(** *** All or nothing *)

Lemma apply_loop_counts found : ∀ n s, ∃ s', for_each (apply_one W cfg) n found s = (Ret (n + Z.of_nat (length found)), s').
Proof.
  induction found as [|t found IH]; intros n s; cbn [for_each]; [exists s; by rewrite Z.add_0_r|].
  destruct (apply_one_returns W cfg n t s) as [s1 Hone].
  rewrite (bind_step _ _ _ _ _ Hone). destruct (IH (n + 1) s1) as [s2 Hrest]. exists s2. rewrite Hrest.
  by replace (n + Z.of_nat (length (t :: found))) with (n + 1 + Z.of_nat (length found)) by (cbn [length]; lia).
Qed.

(** A cycle that completes carries out every candidate or none: either
    they fit under the ceiling together with the decisions of the last minute,
    or there is no decision and nothing of the registry changes. *)
Theorem cycle_all_or_nothing now s st s' :
  run_cycle W cfg now s = (Ret st, s') →
  candidates st = applied st + suppressed st ∧
  (applied st = 0 ∧ d_registry s' = d_registry s ∧ decisions s' = decisions s ∨
   suppressed st = 0 ∧ applied st <= ceiling_per_min cfg).
Proof.
  unfold run_cycle. case_bool_decide; [intros [= <- <-]; split; [done|by left]|].
  intros (ws & s1 & Hw & Hrun)%bind_Ret. injection Hw as _ <-.
  apply bind_Ret in Hrun as (ids & s1 & Hf & Hrun).
  pose proof (in_traffic (λ g, g = d_registry s) (_fetch_distinct_agents fails (z_text ws)) s eq_refl) as Hg1.
  pose proof (calm_traffic (decisions s) (events s) 0 (_fetch_distinct_agents fails (z_text ws)) s
    ltac:(split_and!; [done..|lia])) as Hd1.
  unfold _fetch_recent_agents in Hf. cbn [traffic_fails wired] in Hf. rewrite Hf in Hg1, Hd1. destruct Hd1 as (Hd1 & _).
  apply bind_Ret in Hrun as (found & s2 & Hfound & Hrun).
  pose proof (preserves_for_each (registry_in (λ g, g = d_registry s)) (consider W cfg now) [] ids
    (λ acc x, in_consider _ now acc x) s1 Hg1) as Hg2.
  pose proof (preserves_for_each (calm (decisions s1) (events s1) 0) (consider W cfg now) [] ids
    (λ acc x, calm_consider W cfg now acc x _ _ _) s1 ltac:(split_and!; [done..|lia])) as Hd2.
  rewrite Hfound in Hg2, Hd2. destruct Hd2 as (Hd2 & _). rewrite Hd1 in Hd2.
  apply bind_Ret in Hrun as ([] & s3 & Hup & Hrun). injection Hup as <-.
  set (s3 := with_evaluator (cycled (d_evaluator s2)) s2) in *.
  assert (d_registry s3 = d_registry s ∧ decisions s3 = decisions s) as [Hg3 Hd3] by done. clearbody s3.
  destruct found as [|t found].
  { injection Hrun as <- <-. split; [done|]. by left. }
  set (all := t :: found) in *. apply bind_Ret in Hrun as (recent & s4 & Hrec & Hrun).
  assert (d_registry s4 = d_registry s ∧ decisions s4 = decisions s ∧ 0 <= recent) as (Hg4 & Hd4 & Hpos).
  { unfold recent_count in Hrec. injection Hrec as <- <-. split_and!; [done|done|lia]. }
  destruct (Z.ltb_spec (ceiling_per_min cfg) (recent + Z.of_nat (length all))) as [|Hfit].
  - pose proof (in_suppress (λ g, g = d_registry s) all s4 Hg4) as Hg5.
    pose proof (calm_suppress W all (decisions s) (events s4) 0 s4 ltac:(split_and!; [done..|lia])) as Hd5.
    rewrite Hrun in Hg5, Hd5. destruct Hd5 as (Hd5 & _).
    assert (candidates st = Z.of_nat (length all) ∧ applied st = 0 ∧ suppressed st = Z.of_nat (length all)) as (-> & -> & ->).
    { unfold suppress in Hrun. repeat (apply bind_Ret in Hrun as (? & ? & _ & Hrun)). by injection Hrun as <- _. }
    split; [lia|]. by left.
  - destruct (apply_loop_counts all 0 s4) as [s5 Happ]. rewrite (bind_step _ _ _ _ _ Happ) in Hrun.
    set (n := Z.of_nat (length all)) in *. clearbody n. injection Hrun as <- _. cbn [candidates applied suppressed].
    split; [lia|]. right. split; [done|lia].
Qed.

(** *** What a cycle does not see *)

(** The rates look five minutes back, but the recorder stamps a request
    with the start of its ten minutes: in the last five minutes of every ten,
    whatever the traffic, a cycle finds no agent, decides nothing, and keeps
    every counter. *)
Theorem blind_half now s st s' :
  evaluation_window cfg = 300000000 →
  301000000 <= now mod minutes 10 → representable now →
  (∀ r, r ∈ t_samples (d_traffic s) → ∃ t, t <= now ∧ representable t ∧ sm_bucket_ts r = _bucket_ts_iso t) →
  run_cycle W cfg now s = (Ret st, s') →
  candidates st = 0 ∧ d_registry s' = d_registry s ∧ ∀ a, hot a s' = hot a s.
Proof.
  intros Hwin Hlate Hnow Hrec. unfold run_cycle. case_bool_decide; [by intros [= <- <-]|].
  intros (ws & s1 & Hw & Hrun)%bind_Ret. injection Hw as Hw <-.
  assert (ws = now - 300000000 ∧ representable ws) as [-> Hws].
  { unfold datetime_of in Hw. rewrite Hwin in Hw. destruct (_ && _) eqn:Hr; [|done]. injection Hw as <-.
    split; [done|]. apply andb_true_iff in Hr as [Hr1%Z.leb_le Hr2%Z.ltb_lt]. by split. }
  apply bind_Ret in Hrun as (ids & s1 & Hf & Hrun).
  unfold _fetch_recent_agents, on_traffic in Hf. cbn [traffic_fails wired] in Hf.
  destruct (_fetch_distinct_agents fails _ (d_traffic s)) as [r t] eqn:Hd. injection Hf as -> <-.
  apply fetch_Ret in Hd as [Hids _].
  assert (ids = []) as ->.
  { apply Permutation_nil. rewrite Hids, distinct_perm. cbn. rewrite filter_nil; [done|]. apply Forall_forall.
    intros x Hx. destruct (Hrec x Hx) as (t' & Ht' & Hrep & Hts). unfold since. rewrite Hts, bucket_text.
    rewrite text_lt_z by (done || by apply bucket_representable).
    apply negb_false_iff, Z.ltb_lt, z_key_apart. unfold bucket_start, minutes in *. change (10 * 60000000) with 600000000 in *.
    assert (t' / 600000000 <= now / 600000000) by (apply Z.div_le_mono; lia).
    pose proof (Z.div_mod now 600000000 ltac:(lia)). lia. }
  cbn [for_each] in Hrun. apply bind_Ret in Hrun as (found & s2 & Hfound & Hrun). injection Hfound as <- <-.
  apply bind_Ret in Hrun as ([] & s3 & Hup & Hrun). injection Hup as <-. by injection Hrun as <- <-.
Qed.

End Cycles.

(** ** Examples *)

#[local] Existing Instances PaperPki.crypto PaperPki.builder DpopDemo.runtime.

Definition defaults (mode : string) : settings :=
  {| mode := mode; ratio_threshold := 10; abs_threshold_rps := 100; abs_threshold_rps_soft := 5;
     sustained_ticks_required := 3; ceiling_per_min := 3; baseline_min_days := 7;
     evaluation_window := 300000000 |}.

Definition each_second (n : nat) : Z := Z.of_nat n * 1000000.

Definition demo_world : surroundings := wired PaperPki.env 24 each_second (λ _, 1000000000) no_failure.

(** Sixty thousand requests in the bucket of the instant 600. *)
Definition flooded : traffic :=
  {| t_statements := 0;
     t_samples := [ {| sm_agent_id := "acme::alpha"; sm_bucket_ts := _bucket_ts_iso 600000000; sm_req_count := 60000 |} ];
     t_baselines := []; t_recorder := {| _buckets := []; flush_count := 0; flush_failures := 0; rows_written := 0 |} |}.

Definition fresh : AnomalyEvaluator :=
  {| meta_breaker := {| _events := []; ceiling_trips_total := 0 |}; _hot_counter := []; cycles_run := 0;
     quarantines_applied_total := 0; quarantines_shadow_total := 0; quarantines_enforce_total := 0 |}.

Definition demo_start : detector := started fresh PaperPki.approved_once flooded.

Definition three_ticks : list happening := [Tick 660000000; Tick 690000000; Tick 720000000].

Definition flood_trace : list step :=
  [Evaluated "acme::alpha" true; Evaluated "acme::alpha" true; Evaluated "acme::alpha" true].

Lemma decisions_bounded_witness :
  evaluator_init (defaults enforce) = Ret fresh ∧
  (∀ i j, (i <= j)%nat → monotonic demo_world i <= monotonic demo_world j) ∧
  decisions (live demo_world (defaults enforce) three_ticks demo_start) = [1000000] ∧
  Z.of_nat (within 0 (decisions (live demo_world (defaults enforce) three_ticks demo_start))) <= 3.
Proof.
  assert (∀ i j, (i <= j)%nat → monotonic demo_world i <= monotonic demo_world j) as Hmono
    by (intros i j Hij; unfold demo_world, each_second; cbn [monotonic wired]; lia).
  assert (evaluator_init (defaults enforce) = Ret fresh) as Hinit by reflexivity.
  split; [exact Hinit|]. split; [exact Hmono|]. split; [vm_compute; reflexivity|].
  exact (decisions_bounded demo_world (defaults enforce) fresh PaperPki.approved_once flooded three_ticks 0 Hmono Hinit).
Defined.

Lemma decisions_sustained_witness :
  evaluator_init (defaults enforce) = Ret fresh ∧
  d_trace (live demo_world (defaults enforce) three_ticks demo_start) =
    flood_trace ++ Decided "acme::alpha" 1000000 :: [] ∧
  3 <= streak "acme::alpha" flood_trace.
Proof.
  assert (evaluator_init (defaults enforce) = Ret fresh) as Hinit by reflexivity.
  assert (d_trace (live demo_world (defaults enforce) three_ticks demo_start) =
    flood_trace ++ Decided "acme::alpha" 1000000 :: []) as Htr by (vm_compute; reflexivity).
  split; [exact Hinit|]. split; [exact Htr|].
  exact (decisions_sustained demo_world (defaults enforce) fresh PaperPki.approved_once flooded three_ticks
    flood_trace "acme::alpha" 1000000 [] Hinit Htr).
Defined.

(** In shadow mode the third tick writes a decision and the agent stays on. *)
Definition third_tick (mode : string) : detector :=
  live demo_world (defaults mode) [Tick 660000000; Tick 690000000] demo_start.

Lemma shadow_spares_agents_witness :
  mode (defaults "shadow") ≠ enforce ∧
  length (quarantine_events (s_tables (d_registry (snd (run_cycle demo_world (defaults "shadow") 720000000 (third_tick "shadow")))))) = 1%nat ∧
  agents (s_tables (d_registry (snd (run_cycle demo_world (defaults "shadow") 720000000 (third_tick "shadow"))))) =
  agents (s_tables (d_registry (third_tick "shadow"))).
Proof.
  split; [discriminate|]. split; [vm_compute; reflexivity|].
  apply (shadow_spares_agents PaperPki.env 24 each_second (λ _, 1000000000) no_failure (defaults "shadow")
    720000000 (third_tick "shadow")). discriminate.
Defined.

Lemma cycle_all_or_nothing_witness :
  ∃ st s', run_cycle demo_world (defaults enforce) 720000000 (third_tick enforce) = (Ret st, s') ∧
    applied st = 1 ∧ candidates st = applied st + suppressed st.
Proof.
  destruct (returned (run_cycle demo_world (defaults enforce) 720000000) (third_tick enforce)) as [st Hrun]; [vm_compute; reflexivity|].
  exists st, (snd (run_cycle demo_world (defaults enforce) 720000000 (third_tick enforce))).
  split; [exact Hrun|]. split.
  - assert (fst (run_cycle demo_world (defaults enforce) 720000000 (third_tick enforce)) =
      Ret {| candidates := 1; applied := 1; suppressed := 0; disabled := false |}) as Hst by (vm_compute; reflexivity).
    rewrite Hrun in Hst. cbn [fst] in Hst. injection Hst as ->. reflexivity.
  - apply (cycle_all_or_nothing PaperPki.env 24 each_second (λ _, 1000000000) no_failure (defaults enforce)
      720000000 (third_tick enforce) st _ Hrun).
Defined.

(** The same flood a minute into the second half of its ten minutes. *)
Lemma blind_half_witness :
  ∃ st s', run_cycle demo_world (defaults enforce) 960000000 demo_start = (Ret st, s') ∧
    candidates st = 0 ∧ d_registry s' = d_registry demo_start ∧ ∀ a, hot a s' = hot a demo_start.
Proof.
  destruct (returned (run_cycle demo_world (defaults enforce) 960000000) demo_start) as [st Hrun]; [vm_compute; reflexivity|].
  exists st, (snd (run_cycle demo_world (defaults enforce) 960000000 demo_start)). split; [exact Hrun|].
  apply (blind_half PaperPki.env 24 each_second (λ _, 1000000000) no_failure (defaults enforce) 960000000 demo_start st).
  - reflexivity.
  - vm_compute. discriminate.
  - split; [discriminate|reflexivity].
  - intros r Hr%list_elem_of_singleton. subst r. exists 600000000.
    split; [lia|]. split; [split; [discriminate|reflexivity]|reflexivity].
  - exact Hrun.
Defined.
