(* ===== verification/Federation.v ===== *)
(** * The publishers of the federation

    [federation/publisher.py] sends the agents whose revision has moved to the
    Court of the federation, with the counters of the organisation;
    [federation/audit_publisher.py] sends the rows of the per-organisation
    audit chains.  The Court, the signature and what other handlers do to the
    table of agents and to the chains while a POST is under way are arguments;
    the posts so far and their answers are part of the state, so that theorems
    can speak of them.  The loops that sleep between two ticks are the lists of
    ticks. *)

From S2P Require Import Prelude Sha256 HashChain IsoTime UtcTime Json JsonParse LocalAudit Effects.

Open Scope Z_scope.

(** ** The state *)

(** The columns of [internal_agents] that the publisher reads and writes. *)
Record fed_agent := {
  f_agent_id : string;
  f_display_name : option string;
  f_capabilities : option string;
  f_cert_pem : option string;
  f_is_active : bool;
  f_federated : bool;
  f_federated_at : option Z;
  f_federation_revision : Z;
  f_last_pushed_revision : Z;
}.

(** What a POST comes to: no connection or a timeout, any other exception of
    the client, or an answer with its status and what [resp.json()] gives. *)
Inductive court_answer :=
| Unreachable
| Broken (e : exn)
| Answered (status : Z) (body : outcome json).

Record post := {
  p_url : string;
  p_body : string;
  p_signature : string;
  p_answer : court_answer;
}.

Record fed_tables := {
  fed_agents : list fed_agent;
  fed_resources : list bool;                (* local_mcp_resources: enabled *)
  fed_local_audit : list local_row;
}.

Record fed_state := {
  f_statements : nat;
  f_posts : list post;
  f_tables : fed_tables;
  f_cursor : option string;                 (* proxy_config, "last_replicated_local_audit_id" *)
}.

#[export] Instance fed_transactional : Transactional fed_state := {
  statements := f_statements;
  issued := λ s, {| f_statements := S (f_statements s); f_posts := f_posts s; f_tables := f_tables s;
                    f_cursor := f_cursor s |};
  restore := λ s s', {| f_statements := f_statements s'; f_posts := f_posts s'; f_tables := f_tables s;
                        f_cursor := f_cursor s |};
}.

Definition with_fed_agents (l : list fed_agent) (s : fed_state) : fed_state :=
  {| f_statements := f_statements s; f_posts := f_posts s; f_cursor := f_cursor s;
     f_tables := {| fed_agents := l; fed_resources := fed_resources (f_tables s);
                    fed_local_audit := fed_local_audit (f_tables s) |} |}.
Definition with_cursor (text : string) (s : fed_state) : fed_state :=
  {| f_statements := f_statements s; f_posts := f_posts s; f_tables := f_tables s; f_cursor := Some text |}.

(** The process: the driver, the Court and what the others do during the n-th
    POST, and [app.state]. *)
Record fed_env := {
  fed_fails : nat → option exn;
  fed_float_literal : string → json;
  court : nat → string → string → court_answer;
  meanwhile : nat → fed_tables → fed_tables;
  fed_clock : nat → Z;
  reverse_proxy_broker_url : option string;
  has_agent_manager : bool;
  mastio_loaded : bool;
  countersign : string → outcome string;
  has_http_client : bool;
  fed_org_id : option string;
}.

Section Federation.
Context (E : fed_env).

Notation M := (M fed_state).
Notation statement := (statement (fed_fails E)).
Notation transaction := (transaction (fed_fails E)).

(** [client.post(...)] *)
Definition post_to (url body signature : string) : M court_answer := λ s,
  let n := length (f_posts s) in
  let answer := court E n url body in
  (Ret answer,
   {| f_statements := f_statements s;
      f_posts := f_posts s ++ [{| p_url := url; p_body := body; p_signature := signature; p_answer := answer |}];
      f_tables := meanwhile E n (f_tables s); f_cursor := f_cursor s |}).

Definition is_success (status : Z) : bool := (200 <=? status) && (status <=? 299).

(** [(resp.json() or {}).get(...)], for a log line. *)
Definition logged (body : outcome json) : outcome unit :=
  let! v := body in
  match (if py_bool v then v else JObj []) with JObj _ => Ret tt | _ => Raise AttributeError end.

(** ** Agents *)

(** [WHERE (federated OR federated_at IS NOT NULL)
      AND federation_revision > last_pushed_revision] *)
Definition pending_push (r : fed_agent) : bool :=
  (f_federated r || bool_decide (is_Some (f_federated_at r))) && (f_last_pushed_revision r <? f_federation_revision r).

Definition _fetch_pending : M (list fed_agent) :=
  statement (gets (λ s, List.filter pending_push (fed_agents (f_tables s)))).

Definition mark (revision now : Z) (r : fed_agent) : fed_agent :=
  {| f_agent_id := f_agent_id r; f_display_name := f_display_name r; f_capabilities := f_capabilities r;
     f_cert_pem := f_cert_pem r; f_is_active := f_is_active r; f_federated := f_federated r;
     f_federated_at := Some now; f_federation_revision := f_federation_revision r;
     f_last_pushed_revision := revision |}.

Definition agent_named (id : string) (r : fed_agent) : bool := bool_decide (f_agent_id r = id).

(** An UPDATE of the rows that a condition selects. *)
Definition set_rows {A} (p : A → bool) (f : A → A) (l : list A) : list A := map (λ r, if p r then f r else r) l.

Definition _mark_pushed (id : string) (revision : Z) : M unit :=
  statement (modify (λ s,
    with_fed_agents (set_rows (agent_named id) (mark revision (fed_clock E (f_statements s)))
                       (fed_agents (f_tables s))) s)).

(** [json.loads(text or "[]")] *)
Definition stored_capabilities (o : option string) : outcome json :=
  loads (fed_float_literal E) (Prelude.or_default "[]" o).

Definition _build_body (r : fed_agent) : outcome string :=
  let! capabilities := stored_capabilities (f_capabilities r) in
  Ret (dumps_plain (JObj [("agent_id", JStr (f_agent_id r)); ("cert_pem", JStr (or_empty (f_cert_pem r)));
                          ("capabilities", capabilities); ("display_name", JStr (or_empty (f_display_name r)));
                          ("revoked", JBool (negb (f_is_active r)))])).

Definition agent_url (broker_url : string) : string := rstrip_slash broker_url +:+ "/v1/federation/publish-agent".

Definition _publish_one (broker_url : string) (r : fed_agent) : M bool :=
  do body <- lift (_build_body r);
  do signature <- lift (countersign E body);
  do answer <- post_to (agent_url broker_url) body signature;
  match answer with
  | Unreachable => ret false
  | Broken e => raise e
  | Answered status resp =>
      if is_success status then do _ <- lift (logged resp); ret true
      else ret ((400 <=? status) && (status <? 500))
  end.

Definition push_row (broker_url : string) (acked : Z) (r : fed_agent) : M Z :=
  do ok <- _publish_one broker_url r;
  if ok : bool then
    do _ <- transaction (_mark_pushed (f_agent_id r) (f_federation_revision r));
    ret (acked + 1)
  else ret acked.

(** The Court's URL, when the proxy is federated and its key is loaded. *)
Definition court_url : option string :=
  match reverse_proxy_broker_url E with
  | Some (String _ _ as url) => if has_agent_manager E && has_http_client E && mastio_loaded E then Some url else None
  | _ => None
  end.

Definition _tick : M Z :=
  match court_url with
  | None => ret 0
  | Some broker_url =>
      do rows <- transaction _fetch_pending;
      for_each (push_row broker_url) 0 rows
  end.

(** An iteration of [run_publisher]. *)
Definition publisher_step : M unit := catch (do _ <- _tick; ret tt) (λ _, ret tt).

(** ** Counters *)

Definition count_rows {A} (p : A → bool) (l : list A) : Z := Z.of_nat (length (List.filter p l)).

(** Two SELECTs. *)
Definition _collect_stats (org_id : string) : M (list (string * json)) :=
  do (total, active) <- statement (gets (λ s,
    (Z.of_nat (length (fed_agents (f_tables s))), count_rows f_is_active (fed_agents (f_tables s)))));
  do backends <- statement (gets (λ s, count_rows (λ b, b) (fed_resources (f_tables s))));
  ret [("org_id", JStr org_id); ("agent_active_count", JInt active); ("agent_total_count", JInt total);
       ("backend_count", JInt backends)].

Definition _publish_stats_once : M bool :=
  match court_url, or_empty (fed_org_id E) with
  | None, _ | _, EmptyString => ret false
  | Some broker_url, org_id =>
      do payload <- transaction (_collect_stats org_id);
      let body := dumps_plain (JObj payload) in
      do signature <- lift (countersign E body);
      do answer <- post_to (rstrip_slash broker_url +:+ "/v1/federation/publish-stats") body signature;
      match answer with
      | Unreachable => ret false
      | Broken e => raise e
      | Answered status _ => ret (is_success status)
      end
  end.

(** ** The audit chains *)

Definition MAX_BATCH_SIZE : nat := 200.

(** The value is a text; one that is no number counts as zero. *)
Definition cursor_of (s : fed_state) : Z :=
  match f_cursor s with None => 0 | Some text => default 0 (int_of_str text) end.

Definition _read_cursor : M Z := statement (gets cursor_of).

Definition _write_cursor (value : Z) : M unit := statement (modify (with_cursor (pretty value))).

(** [WHERE id > :after_id AND chain_seq IS NOT NULL ORDER BY id ASC LIMIT :lim] *)
Definition newer_rows (after_id : Z) (l : list local_row) : list local_row :=
  take MAX_BATCH_SIZE (order_by LocalAudit.id (List.filter (λ r, (after_id <? LocalAudit.id r) && chained r) l)).

Definition _fetch_pending_rows (after_id : Z) : M (list local_row) :=
  statement (gets (λ s, newer_rows after_id (fed_local_audit (f_tables s)))).

(** [out.setdefault(r["org_id"], []).append(r)] *)
Fixpoint add_to_group (k : option string) (r : local_row) (d : list (option string * list local_row))
    : list (option string * list local_row) :=
  match d with
  | [] => [(k, [r])]
  | (k', l) :: rest => if bool_decide (k' = k) then (k', l ++ [r]) :: rest else (k', l) :: add_to_group k r rest
  end.

Definition _group_by_org (rows : list local_row) : list (option string * list local_row) :=
  map (λ g, (fst g, order_by seq_of (snd g))) (foldl (λ d r, add_to_group (LocalAudit.org_id r) r d) [] rows).

Definition replica_entry (r : local_row) : json :=
  JObj [("chain_seq", JInt (seq_of r)); ("entry_hash", opt_json (LocalAudit.entry_hash r));
        ("previous_hash", opt_json (LocalAudit.previous_hash r)); ("timestamp", JStr (LocalAudit.timestamp r));
        ("event_type", JStr (LocalAudit.event_type r)); ("agent_id", opt_json (LocalAudit.agent_id r));
        ("session_id", opt_json (LocalAudit.session_id r)); ("details", opt_json (LocalAudit.details r));
        ("result", JStr (LocalAudit.result r)); ("principal_type", JNull);
        ("hash_format", opt_json (LocalAudit.hash_format r))].

Definition _build_audit_body (mastio_org_id : option string) (batch : list local_row) : string :=
  dumps_plain (JObj [("mastio_org_id", opt_json mastio_org_id); ("entries", JList (map replica_entry batch))]).

Definition audit_url (broker_url : string) : string := rstrip_slash broker_url +:+ "/v1/federation/audit/replicate".

(** A body that is not JSON counts as empty. *)
Definition logged_batch (body : outcome json) : outcome unit :=
  logged (match body with Ret v => Ret v | Raise _ => Ret (JObj []) end).

Definition _publish_batch (broker_url : string) (mastio_org_id : option string) (batch : list local_row) : M bool :=
  let body := _build_audit_body mastio_org_id batch in
  do signature <- lift (countersign E body);
  do answer <- post_to (audit_url broker_url) body signature;
  match answer with
  | Unreachable => ret false
  | Broken e => raise e
  | Answered status resp =>
      if is_success status then do _ <- lift (logged_batch resp); ret true else ret false
  end.

Definition highest (n : Z) (l : list local_row) : Z := foldl (λ n r, Z.max n (LocalAudit.id r)) n l.

Definition push_group (broker_url : string) (acc : Z * Z) (g : option string * list local_row) : M (Z * Z) :=
  do ok <- _publish_batch broker_url (fst g) (snd g);
  ret (if ok : bool then (fst acc + Z.of_nat (length (snd g)), highest (snd acc) (snd g)) else acc).

Definition audit_tick : M Z :=
  match court_url with
  | None => ret 0
  | Some broker_url =>
      do (cursor, pending) <- transaction
        (do cursor <- _read_cursor; do pending <- _fetch_pending_rows cursor; ret (cursor, pending));
      match pending with
      | [] => ret 0
      | _ =>
          do (acked, max_id_acked) <- for_each (push_group broker_url) (0, cursor) (_group_by_org pending);
          do _ <- (if cursor <? max_id_acked then transaction (_write_cursor max_id_acked) else ret tt);
          ret acked
      end
  end.

(** An iteration of [run_audit_publisher]. *)
Definition audit_publisher_step : M unit := catch (do _ <- audit_tick; ret tt) (λ _, ret tt).

(** ** What the Court has been told *)

(** An answer after which the publisher does not send again. *)
Definition heard (answer : court_answer) : bool :=
  match answer with
  | Answered status _ => (200 <=? status) && (status <? 300) || ((400 <=? status) && (status <? 500))
  | _ => false
  end.

(** What the Court is to read of a row, said without the code that builds it:
    the capabilities of its text, none when it has no text; its certificate and
    its name, empty when it has none; revoked when it is not active. *)
Definition capabilities_of (r : fed_agent) (caps : json) : Prop :=
  match f_capabilities r with
  | None | Some EmptyString => caps = JList []
  | Some text => loads (fed_float_literal E) text = Ret caps
  end.

Definition announcement (r : fed_agent) (caps : json) : string :=
  dumps_plain (JObj [("agent_id", JStr (f_agent_id r)); ("cert_pem", JStr (default "" (f_cert_pem r)));
                     ("capabilities", caps); ("display_name", JStr (default "" (f_display_name r)));
                     ("revoked", JBool (if f_is_active r then false else true))]).

(** A signed post to the Court's endpoint with this row, taken or refused. *)
Definition announces (r : fed_agent) (p : post) : Prop :=
  (∃ broker_url, p_url p = rstrip_slash broker_url +:+ "/v1/federation/publish-agent") ∧
  countersign E (p_body p) = Ret (p_signature p) ∧ heard (p_answer p) = true ∧
  ∃ caps, capabilities_of r caps ∧ p_body p = announcement r caps.

Definition told (posts : list post) (r : fed_agent) : Prop := ∃ p, p ∈ posts ∧ announces r p.

Lemma built_body r body : _build_body r = Ret body → ∃ caps, capabilities_of r caps ∧ body = announcement r caps.
Proof.
  unfold _build_body, stored_capabilities, capabilities_of, announcement.
  destruct (loads _ _) as [caps|] eqn:Hcaps; [|done]. cbn [obind]. intros [= <-]. exists caps. split.
  - destruct (f_capabilities r) as [[|c text]|]; [|exact Hcaps|];
      cbn [Prelude.or_default] in Hcaps; vm_compute in Hcaps; by injection Hcaps as <-.
  - destruct (f_cert_pem r) as [|], (f_display_name r) as [|], (f_is_active r); reflexivity.
Qed.

Lemma success_range status : is_success status = (200 <=? status) && (status <? 300).
Proof. unfold is_success. f_equal. lia. Qed.

Definition ids (T : fed_tables) : list string := f_agent_id <$> fed_agents T.

(** A row whose revision is the last one pushed is what the Court was told. *)
Definition settled (s : fed_state) : Prop :=
  NoDup (ids (f_tables s)) ∧
  ∀ r, r ∈ fed_agents (f_tables s) →
    f_last_pushed_revision r ≤ f_federation_revision r ∧
    (f_last_pushed_revision r = f_federation_revision r → f_federation_revision r = 0 ∨ told (f_posts s) r).

Definition same_content (r r' : fed_agent) : Prop :=
  f_display_name r' = f_display_name r ∧ f_capabilities r' = f_capabilities r ∧
  f_cert_pem r' = f_cert_pem r ∧ f_is_active r' = f_is_active r.

(** A row and what it became: its revision moves with its content. *)
Definition successor (r r' : fed_agent) : Prop :=
  f_agent_id r' = f_agent_id r ∧ f_federation_revision r ≤ f_federation_revision r' ∧
  (f_federation_revision r' = f_federation_revision r → same_content r r').

(** What the other handlers may do: change rows with their revision and add
    agents under new names.  The quarantine, which leaves the revision, and the
    handlers that delete a row do not keep to it. *)
Definition evolves (T T' : fed_tables) : Prop :=
  NoDup (ids T') ∧
  (∀ r, r ∈ fed_agents T → ∃ r', r' ∈ fed_agents T' ∧ successor r r') ∧
  (∀ r', r' ∈ fed_agents T' →
     (∃ r, r ∈ fed_agents T ∧ successor r r' ∧ f_last_pushed_revision r' = f_last_pushed_revision r) ∨
     (f_agent_id r' ∉ ids T ∧ f_last_pushed_revision r' = 0 ∧ 1 ≤ f_federation_revision r')).

Definition polite_meanwhile : Prop := ∀ n T, NoDup (ids T) → evolves T (meanwhile E n T).

Lemma evolves_refl T : NoDup (ids T) → evolves T T.
Proof.
  intros HT. assert (∀ r, successor r r) as Hr by (by intros r; split_and!).
  split_and!; [done|by intros r Hin; exists r|]. intros r Hin. left. by exists r.
Qed.

Lemma successor_trans r1 r2 r3 : successor r1 r2 → successor r2 r3 → successor r1 r3.
Proof.
  intros (Hi & Hr & Hc) (Hi' & Hr' & Hc'). split_and!; [congruence|lia|]. intros Heq.
  destruct (Hc ltac:(lia)) as (? & ? & ? & ?), (Hc' ltac:(lia)) as (? & ? & ? & ?). split_and!; congruence.
Qed.

Lemma same_announces r r' p :
  f_agent_id r' = f_agent_id r → same_content r r' → announces r p → announces r' p.
Proof.
  intros Hi (Hd & Hc & Hp & Ha) (Hurl & Hsig & Hh & caps & Hcaps & Hbody). split_and!; [done..|]. exists caps.
  unfold capabilities_of, announcement in *. by rewrite Hi, Hd, Hc, Hp, Ha.
Qed.

Lemma told_app posts posts' r : told posts r → told (posts ++ posts') r.
Proof. intros (p & Hp & Hr). exists p. split; [apply elem_of_app; by left|done]. Qed.

Lemma settled_evolves s T' posts' :
  settled s → evolves (f_tables s) T' →
  NoDup (ids T') ∧ ∀ r, r ∈ fed_agents T' →
    f_last_pushed_revision r ≤ f_federation_revision r ∧
    (f_last_pushed_revision r = f_federation_revision r →
     f_federation_revision r = 0 ∨ told (f_posts s ++ posts') r).
Proof.
  intros [_ Hs] (Hnd & _ & Hback). split; [done|]. intros r' Hr'.
  destruct (Hback _ Hr') as [(r & Hr & (Hi & Hle & Hc) & Hlast)|(_ & -> & Hpos)]; [|lia].
  destruct (Hs _ Hr) as [Hb Ht]. rewrite Hlast. split; [lia|]. intros Heq.
  destruct (Ht ltac:(lia)) as [H0|Ht']; [left; lia|]. right. apply told_app.
  destruct Ht' as (p & Hp & Hann). exists p. split; [done|]. eapply same_announces; [done| |exact Hann].
  apply Hc. lia.
Qed.

Lemma one_row T r r' :
  NoDup (ids T) → r ∈ fed_agents T → r' ∈ fed_agents T → f_agent_id r = f_agent_id r' → r = r'.
Proof.
  intros Hnd [i Hi]%list_elem_of_lookup [j Hj]%list_elem_of_lookup Heq.
  assert (i = j) as ->; [|congruence]. eapply NoDup_lookup; [exact Hnd|..];
    unfold ids; rewrite list_lookup_fmap; [rewrite Hi|rewrite Hj]; cbn; [done|]. congruence.
Qed.

(** The fetched rows [l] are the past of the table. *)
Definition past (l : list fed_agent) (T : fed_tables) : Prop :=
  ∀ r0, r0 ∈ l → ∃ r, r ∈ fed_agents T ∧ successor r0 r.

Definition going (l : list fed_agent) (s : fed_state) : Prop := settled s ∧ past l (f_tables s).

Lemma going_same l s s' :
  f_tables s' = f_tables s → f_posts s' = f_posts s → going l s → going l s'.
Proof. unfold going, settled. by intros -> ->. Qed.

Lemma going_post l url body signature s :
  polite_meanwhile → going l s → going l (snd (post_to url body signature s)).
Proof.
  intros Hp [Hs Hpast]. pose proof (Hp (length (f_posts s)) _ (proj1 Hs)) as Hev. split.
  - exact (settled_evolves _ _ _ Hs Hev).
  - intros r0 Hr0. destruct (Hpast _ Hr0) as (r & Hr & Hn). destruct (proj1 (proj2 Hev) _ Hr) as (r' & Hr' & Hn').
    exists r'. split; [done|]. by eapply successor_trans.
Qed.

Lemma publish_one_told l url r :
  polite_meanwhile →
  triple (going l) (_publish_one url r)
    (λ ok s, going l s ∧ (ok = true → told (f_posts s) r)) (going l).
Proof.
  intros Hp s Hs. unfold _publish_one. rewrite bind_lift. destruct (_build_body r) as [body|] eqn:Hbody; [|done].
  rewrite bind_lift. destruct (countersign E body) as [signature|] eqn:Hsig; [|done].
  pose proof (going_post l (agent_url url) body signature s Hp Hs) as Hg.
  unfold bind at 1. cbn [post_to]. unfold post_to in Hg |- *. cbv zeta in Hg |- *. cbn [fst snd] in Hg.
  set (s1 := {| f_statements := _ |}) in *.
  assert (heard (court E (length (f_posts s)) (agent_url url) body) = true → told (f_posts s1) r) as Ht.
  { intros Hh. eexists. split; [apply elem_of_app; right; by apply list_elem_of_singleton|].
    apply built_body in Hbody. split_and!; [by exists url|done|done|exact Hbody]. }
  destruct (court E _ _ _) as [|e|status resp]; [done..|]. cbn [heard] in Ht. rewrite <- success_range in Ht.
  destruct (is_success status); [rewrite bind_lift; destruct (logged resp); [split; [done|auto]|done]|].
  split; [done|exact Ht].
Qed.

Lemma set_rows_in {A} (p : A → bool) (f : A → A) l x :
  x ∈ set_rows p f l ↔ ∃ y, y ∈ l ∧ x = if p y then f y else y.
Proof. unfold set_rows. rewrite list_elem_of_fmap. split; intros (y & H1 & H2); by exists y. Qed.

Lemma set_rows_ids id revision now l : f_agent_id <$> set_rows (agent_named id) (mark revision now) l = f_agent_id <$> l.
Proof. induction l as [|r l IH]; [done|]. cbn. f_equal; [by destruct (agent_named id r)|exact IH]. Qed.

(** Marking what was told. *)
Lemma marked_going l s r now s' :
  f_posts s' = f_posts s → r ∈ l → told (f_posts s) r → going l s →
  fed_agents (f_tables s') =
    set_rows (agent_named (f_agent_id r)) (mark (f_federation_revision r) now) (fed_agents (f_tables s)) →
  going l s'.
Proof.
  intros Hposts Hr Htold [[Hnd Hs] Hpast] Heq. split; [split|].
  - unfold ids. by rewrite Heq, set_rows_ids.
  - rewrite Heq, Hposts. intros y (x & Hx & ->)%set_rows_in.
    unfold agent_named. case_bool_decide as Hid; [|by apply Hs]. cbn.
    destruct (Hpast _ Hr) as (r1 & Hr1 & Hi & Hle & Hc).
    assert (x = r1) as -> by (eapply one_row; [exact Hnd|done..|congruence]).
    split; [done|]. intros Hlast. right. destruct Htold as (p & Hp & Hann). exists p. split; [done|].
    eapply same_announces; [| |exact Hann]; [done|]. apply Hc. lia.
  - intros r0 Hr0. destruct (Hpast _ Hr0) as (x & Hx & Hn).
    exists (if agent_named (f_agent_id r) x then mark (f_federation_revision r) now x else x).
    rewrite Heq. split; [apply set_rows_in; by exists x|]. by destruct (agent_named _ x).
Qed.

Lemma mark_pushed_going l r :
  r ∈ l →
  triple (λ s, going l s ∧ told (f_posts s) r) (transaction (_mark_pushed (f_agent_id r) (f_federation_revision r)))
    (λ _, going l) (going l).
Proof.
  intros Hr s [Hg Ht]. unfold Effects.transaction, _mark_pushed, Effects.statement. cbn [statements fed_transactional].
  destruct (fed_fails E (f_statements s)); cbn [modify]; [by eapply going_same; [..|exact Hg]|]. unfold modify.
  destruct (fed_fails E _); [by eapply going_same; [..|exact Hg]|].
  by eapply (marked_going l s r).
Qed.

Lemma push_row_going l url acked r :
  polite_meanwhile → r ∈ l → triple (going l) (push_row url acked r) (λ _, going l) (going l).
Proof.
  intros Hp Hr. eapply hoare_bind; [by apply publish_one_told|]. intros [].
  - apply (hoare_bind _ _ (λ _, going l)); [|by intros ?; apply hoare_ret].
    eapply hoare_weaken; [..|by apply mark_pushed_going]; [|done..]. intros s [Hg Ht]. auto.
  - by apply hoare_ret; intros s [Hg _].
Qed.

Lemma push_rows_going l url acked rows :
  polite_meanwhile → rows ⊆ l → triple (going l) (for_each (push_row url) acked rows) (λ _, going l) (going l).
Proof.
  intros Hp. revert acked. induction rows as [|r rows IH]; intros acked Hsub; [by apply hoare_ret|].
  eapply hoare_bind; [apply push_row_going; [done|set_solver]|]. intros acked'. apply IH. set_solver.
Qed.

Lemma fetched (s : fed_state) :
  (∃ s', transaction _fetch_pending s = (Ret (List.filter pending_push (fed_agents (f_tables s))), s') ∧
    f_tables s' = f_tables s ∧ f_posts s' = f_posts s) ∨
  (∃ e s', transaction _fetch_pending s = (Raise e, s') ∧ f_tables s' = f_tables s ∧ f_posts s' = f_posts s).
Proof.
  unfold Effects.transaction, _fetch_pending, Effects.statement, gets. cbn [statements fed_transactional].
  destruct (fed_fails E _); [right; by eexists _, _|]. destruct (fed_fails E _); [right|left]; by repeat eexists.
Qed.

Lemma tick_settled : polite_meanwhile → triple settled _tick (λ _, settled) settled.
Proof.
  intros Hp s Hs. unfold _tick. destruct court_url as [url|]; [|done].
  destruct (fetched s) as [(s1 & Hrun & HT & HP)|(e & s1 & Hrun & HT & HP)].
  - rewrite (bind_step _ _ _ _ _ Hrun).
    set (rows := List.filter pending_push (fed_agents (f_tables s))).
    assert (going rows s1) as Hg.
    { eapply (going_same rows s); [done..|]. split; [done|]. intros r0 Hr0. exists r0. split; [|by split_and!].
      apply list_elem_of_In, List.filter_In in Hr0 as [Hr0 _]. by apply list_elem_of_In. }
    pose proof (push_rows_going rows url 0 rows Hp ltac:(done) s1 Hg) as Hend.
    destruct (for_each _ _ _ _) as [[]]; apply Hend.
  - rewrite (bind_stop _ _ _ _ _ Hrun). unfold settled. by rewrite HT, HP.
Qed.

(** ** The loops together *)

(** Programs that leave a part of the state alone. *)
Definition leaves {X A} (part : fed_state → X) (m : M A) : Prop := ∀ s, part (snd (m s)) = part s.

(** A part that statements and undone transactions do not touch. *)
Definition undone {X} (part : fed_state → X) : Prop :=
  (∀ s, part (issued s) = part s) ∧ ∀ s s', part s' = part s → part (restore s s') = part s.

Lemma leaves_bind {X A B} (part : fed_state → X) (m : M A) (f : A → M B) :
  leaves part m → (∀ a, leaves part (f a)) → leaves part (bind m f).
Proof.
  intros Hm Hf s. specialize (Hm s). unfold bind. destruct (m s) as [[a|e] s1]; [|done].
  specialize (Hf a s1). cbn in *. congruence.
Qed.
Lemma leaves_statement {X A} (part : fed_state → X) (m : M A) : undone part → leaves part m → leaves part (statement m).
Proof.
  intros [Hi _] Hm s. unfold Effects.statement. destruct (fed_fails E _); [apply Hi|]. by rewrite Hm, Hi.
Qed.
Lemma leaves_transaction {X A} (part : fed_state → X) (m : M A) : undone part → leaves part m → leaves part (transaction m).
Proof.
  intros [Hi Hr] Hm s. specialize (Hm s). unfold Effects.transaction. destruct (m s) as [[a|e] s1]; [|by apply Hr].
  unfold Effects.statement. cbn in Hm. destruct (fed_fails E _).
  - apply Hr. transitivity (part s1); [apply Hi|done].
  - transitivity (part s1); [apply Hi|done].
Qed.

Lemma collect_leaves {X} (part : fed_state → X) org : undone part → leaves part (_collect_stats org).
Proof.
  intros Hp. apply leaves_bind; [by apply leaves_statement|]. intros [total active].
  by apply leaves_bind; [apply leaves_statement|].
Qed.

Lemma read_leaves {X} (part : fed_state → X) :
  undone part →
  leaves part (do cursor <- _read_cursor; do pending <- _fetch_pending_rows cursor; ret (cursor, pending)).
Proof.
  intros Hp. apply leaves_bind; [by apply leaves_statement|]. intros cursor.
  by apply leaves_bind; [apply leaves_statement|].
Qed.

Definition told_part (s : fed_state) := (f_tables s, f_posts s).

Lemma told_part_undone : undone told_part.
Proof. split; [done|]. intros s s' [= HT HP]. unfold told_part. cbn. by rewrite HP. Qed.

Lemma quiet_settled {A} (m : M A) : leaves told_part m → preserves settled m.
Proof.
  intros Hm s Hs. specialize (Hm s). destruct (m s) as [[a|e] s1]; injection Hm as HT HP; unfold settled; by rewrite HT, HP.
Qed.

Lemma post_settled url body signature : polite_meanwhile → preserves settled (post_to url body signature).
Proof.
  intros Hp s Hs. apply (going_post [] url body signature s Hp). split; [done|]. by intros r0 ?%not_elem_of_nil.
Qed.

Lemma stats_preserves P :
  (∀ url body signature, preserves P (post_to url body signature)) →
  (∀ org, preserves P (transaction (_collect_stats org))) → preserves P _publish_stats_once.
Proof.
  intros Hpost Hread. unfold _publish_stats_once. destruct court_url as [url|], (or_empty (fed_org_id E)) as [|c org];
    try apply preserves_ret.
  apply preserves_bind; [apply Hread|]. intros payload. cbv zeta.
  apply preserves_bind; [apply preserves_lift|]. intros signature.
  apply preserves_bind; [apply Hpost|]. intros [|e|status resp]; [by apply hoare_ret|apply hoare_raise|by apply hoare_ret].
Qed.

Lemma stats_settled : polite_meanwhile → preserves settled _publish_stats_once.
Proof.
  intros Hp. apply stats_preserves; [intros; by apply post_settled|]. intros org.
  apply quiet_settled, leaves_transaction; [|apply collect_leaves]; apply told_part_undone.
Qed.

Lemma batch_settled url org batch : polite_meanwhile → preserves settled (_publish_batch url org batch).
Proof.
  intros Hp. unfold _publish_batch. cbv zeta. apply preserves_bind; [apply preserves_lift|]. intros signature.
  apply preserves_bind; [by apply post_settled|]. intros [|e|status resp]; [by apply hoare_ret|apply hoare_raise|].
  apply preserves_if; [|by apply hoare_ret]. apply preserves_bind; [apply preserves_lift|by intros ?; apply hoare_ret].
Qed.

Lemma audit_tick_settled : polite_meanwhile → preserves settled audit_tick.
Proof.
  intros Hp. unfold audit_tick. destruct court_url as [url|]; [|apply preserves_ret].
  apply preserves_bind.
  - apply quiet_settled, leaves_transaction; [|apply read_leaves]; apply told_part_undone.
  - intros [cursor [|r pending]]; [apply preserves_ret|]. apply preserves_bind.
    + apply preserves_for_each. intros acc g. apply preserves_bind; [by apply batch_settled|].
      intros ok. apply preserves_ret.
    + intros [acked top]. apply preserves_bind; [|intros ?; apply preserves_ret].
      apply preserves_if; [|apply preserves_ret]. by apply quiet_settled, leaves_transaction, leaves_statement; [apply told_part_undone..|].
Qed.

(** An iteration of one of the three loops, or the other handlers. *)
Inductive fed_step (others : fed_tables → fed_tables → Prop) : fed_state → fed_state → Prop :=
| publisher_runs s : fed_step others s (snd (publisher_step s))
| stats_runs s : fed_step others s (snd (catch (do _ <- _publish_stats_once; ret tt) (λ _, ret tt) s))
| audit_runs s : fed_step others s (snd (audit_publisher_step s))
| others_run s T : others (f_tables s) T →
    fed_step others s {| f_statements := f_statements s; f_posts := f_posts s; f_tables := T; f_cursor := f_cursor s |}.

Lemma looped {A} P (m : M A) s : preserves P m → P s → P (snd (catch (do _ <- m; ret tt) (λ _, ret tt) s)).
Proof.
  intros Hm. apply preserves_end, preserves_catch; [|intros e; apply preserves_ret].
  apply preserves_bind; [done|]. intros ?. apply preserves_ret.
Qed.

(** What the loops and the others keep holds at the end. *)
Lemma steps_keep others (P : fed_state → Prop) s s' :
  preserves P _tick → preserves P _publish_stats_once → preserves P audit_tick →
  (∀ s T, P s → others (f_tables s) T →
     P {| f_statements := f_statements s; f_posts := f_posts s; f_tables := T; f_cursor := f_cursor s |}) →
  rtc (fed_step others) s s' → P s → P s'.
Proof.
  intros Ht Hst Ha Ho. induction 1 as [s|s1 s2 s3 Hstep _ IH]; [done|]. intros HP. apply IH.
  destruct Hstep as [s|s|s|s T HT];
    [by apply (looped P _tick)|by apply (looped P _publish_stats_once)|by apply (looped P audit_tick)|by apply Ho].
Qed.


(** ** A tick that the Court answers *)

(** The row of each of these carries their revision as the last one pushed. *)
Definition delivered (l : list fed_agent) (s : fed_state) : Prop :=
  ∀ r0, r0 ∈ l → ∃ r, r ∈ fed_agents (f_tables s) ∧ f_agent_id r = f_agent_id r0 ∧
    f_last_pushed_revision r = f_federation_revision r0.

Lemma delivered_evolves l s s' :
  NoDup (ids (f_tables s)) → evolves (f_tables s) (f_tables s') → delivered l s → delivered l s'.
Proof.
  intros Hnd (_ & Hfwd & Hback) Hl r0 Hr0. destruct (Hl _ Hr0) as (r & Hr & Hi & Hlast).
  destruct (Hfwd _ Hr) as (r' & Hr' & Hi' & _). exists r'. split; [done|]. split; [congruence|].
  destruct (Hback _ Hr') as [(r2 & Hr2 & (Hi2 & _) & ->)|(Hfresh & _)].
  - by rewrite (one_row _ r2 r Hnd Hr2 Hr) by congruence.
  - destruct Hfresh. rewrite Hi'. by apply list_elem_of_fmap_2.
Qed.

Definition answers (answer : court_answer) : Prop :=
  ∃ status body, answer = Answered status body ∧
    ((is_success status = true ∧ is_ret (logged body) = true) ∨ 400 ≤ status < 500).

Section Answered.
Context (Hfails : ∀ n, fed_fails E n = None) (Hpolite : polite_meanwhile)
        (Hsign : ∀ body, is_ret (countersign E body) = true) (Hcourt : ∀ n url body, answers (court E n url body)).

Lemma marked_delivered l s r now s' :
  going l s → r ∈ l →
  fed_agents (f_tables s') =
    set_rows (agent_named (f_agent_id r)) (mark (f_federation_revision r) now) (fed_agents (f_tables s)) →
  ∀ gone, f_agent_id r ∉ f_agent_id <$> gone → delivered gone s → delivered (gone ++ [r]) s'.
Proof.
  intros [_ Hpast] Hr Heq gone Hnew Hgone r0 [Hr0| ->%list_elem_of_singleton]%elem_of_app; rewrite Heq.
  - destruct (Hgone _ Hr0) as (x & Hx & Hi & Hlast). exists x. split; [|done].
    apply set_rows_in. exists x. split; [done|]. unfold agent_named. rewrite bool_decide_eq_false_2; [done|].
    intros Hxr. apply Hnew. rewrite <- Hxr, Hi. by apply list_elem_of_fmap_2.
  - destruct (Hpast _ Hr) as (x & Hx & Hi & _). exists (mark (f_federation_revision r) now x).
    split; [|by split]. apply set_rows_in. exists x. split; [done|]. unfold agent_named. by rewrite bool_decide_eq_true_2.
Qed.

Lemma publish_one_heard url r s :
  is_ret (stored_capabilities (f_capabilities r)) = true →
  ∃ body signature, _publish_one url r s = (Ret true, snd (post_to (agent_url url) body signature s)) ∧
    announces r {| p_url := agent_url url; p_body := body; p_signature := signature;
                   p_answer := court E (length (f_posts s)) (agent_url url) body |}.
Proof.
  intros Hcaps. unfold _publish_one. rewrite bind_lift. pose proof (built_body r) as Hbuilt.
  destruct (_build_body r) as [body|] eqn:Hbody.
  2: { unfold _build_body in Hbody. by destruct (stored_capabilities _). }
  rewrite bind_lift. specialize (Hsign body). destruct (countersign E body) as [signature|] eqn:Hs; [|done].
  exists body, signature. unfold bind at 1, post_to. cbv zeta. cbn [snd].
  assert (∀ answer, heard answer = true → announces r
    {| p_url := agent_url url; p_body := body; p_signature := signature; p_answer := answer |}) as Hann.
  { intros answer Hh. split_and!; [by exists url|done|done|by apply Hbuilt]. }
  destruct (Hcourt (length (f_posts s)) (agent_url url) body) as (status & resp & -> & [[Hok Hlog]|Hrange]).
  - split; [rewrite Hok, bind_lift; by destruct (logged resp)|]. apply Hann. cbn [heard]. by rewrite <- success_range, Hok.
  - assert (heard (Answered status resp) = true) as Hh.
    { cbn [heard]. rewrite (proj2 (Z.leb_le 400 status)), (proj2 (Z.ltb_lt status 500)) by lia.
      by rewrite orb_true_r. }
    split; [|by apply Hann]. unfold is_success. rewrite (proj2 (Z.leb_gt status 299)), andb_false_r by lia.
    by rewrite (proj2 (Z.leb_le 400 status)), (proj2 (Z.ltb_lt status 500)) by lia.
Qed.

Lemma push_row_delivers l gone url acked r s :
  going l s → r ∈ l → f_agent_id r ∉ f_agent_id <$> gone → delivered gone s →
  is_ret (stored_capabilities (f_capabilities r)) = true →
  ∃ s' p, push_row url acked r s = (Ret (acked + 1), s') ∧ going l s' ∧ delivered (gone ++ [r]) s' ∧
    f_posts s' = f_posts s ++ [p] ∧ announces r p.
Proof.
  intros Hg Hr Hnew Hgone Hcaps. pose proof (push_row_going l url acked r Hpolite Hr s Hg) as Hend.
  destruct (publish_one_heard url r s Hcaps) as (body & signature & Hone & Hann). unfold push_row in *.
  rewrite (bind_step _ _ _ _ _ Hone) in *. clear Hone.
  pose proof (going_post l (agent_url url) body signature s Hpolite Hg) as Hg1.
  pose proof (Hpolite (length (f_posts s)) _ (proj1 (proj1 Hg))) as Hev.
  apply (delivered_evolves gone _ (snd (post_to (agent_url url) body signature s)) (proj1 (proj1 Hg)) Hev) in Hgone.
  assert (f_posts (snd (post_to (agent_url url) body signature s)) = f_posts s ++
    [{| p_url := agent_url url; p_body := body; p_signature := signature;
        p_answer := court E (length (f_posts s)) (agent_url url) body |}]) as Hposts by done.
  clear Hg Hev. set (s1 := snd (post_to _ _ _ s)) in *. clearbody s1.
  unfold _mark_pushed, Effects.transaction, Effects.statement, bind, modify, ret in *.
  rewrite !Hfails in *. do 2 eexists. split; [reflexivity|]. split; [exact Hend|].
  split; [by eapply marked_delivered|]. split; [exact Hposts|exact Hann].
Qed.

Lemma push_rows_deliver l url rows : ∀ gone acked s,
  going l s → rows ⊆ l → NoDup (f_agent_id <$> (gone ++ rows)) → delivered gone s →
  (∀ r, r ∈ rows → is_ret (stored_capabilities (f_capabilities r)) = true) →
  ∃ s', for_each (push_row url) acked rows s = (Ret (acked + Z.of_nat (length rows)), s') ∧
    delivered (gone ++ rows) s' ∧ ∃ new, f_posts s' = f_posts s ++ new ∧ Forall2 announces rows new.
Proof.
  induction rows as [|r rows IH]; intros gone acked s Hg Hsub Hnd Hgone Hcaps.
  - exists s. rewrite app_nil_r, Z.add_0_r. split_and!; [done|done|]. exists []. by rewrite app_nil_r.
  - assert (f_agent_id r ∉ f_agent_id <$> gone) as Hnew.
    { rewrite fmap_app in Hnd. apply NoDup_app in Hnd as (_ & Hd & _). intros Hin. apply (Hd _ Hin). cbn. by left. }
    destruct (push_row_delivers l gone url acked r s Hg ltac:(set_solver) Hnew Hgone ltac:(apply Hcaps; by left))
      as (s1 & p & Hone & Hg1 & Hgone1 & Hposts1 & Hann).
    destruct (IH (gone ++ [r]) (acked + 1) s1) as (s' & Hrest & Hdone & new & Hnew' & Hall); [done|set_solver| |done|set_solver|].
    { by rewrite <- app_assoc. }
    exists s'. cbn [for_each]. rewrite (bind_step _ _ _ _ _ Hone), Hrest. rewrite <- app_assoc in Hdone.
    split; [do 2 f_equal; cbn [length]; lia|]. split; [done|]. exists (p :: new).
    rewrite Hnew', Hposts1, <- app_assoc. by split; [|constructor].
Qed.

End Answered.

(** The database works, the key signs, and the Court takes or refuses. *)
Definition court_up : Prop :=
  (∀ n, fed_fails E n = None) ∧ (∀ body, is_ret (countersign E body) = true) ∧
  (∀ n url body, answers (court E n url body)).


(** ** The replication cursor *)

(** The cursor reads back what was written. *)
Lemma cursor_text v : 0 < v → int_of_str (pretty v) = Some v.
Proof.
  intros Hv. destruct v as [|p|p]; [done| |done]. change (pretty (Zpos p)) with (pretty (Npos p)).
  destruct (digits_of (Npos p) ltac:(done)) as (c & d & -> & Hc & _ & Hd & Hval).
  unfold int_of_str. cbn [lstrip]. rewrite digit_not_blank, (digits_strip c d) by done.
  by rewrite !bool_decide_eq_false_2 by (intros ->; done).
Qed.

(** The Court took a batch with this row. *)
Definition replicated (posts : list post) (r : local_row) : Prop :=
  ∃ p org batch status body, p ∈ posts ∧ p_answer p = Answered status body ∧ is_success status = true ∧
    p_body p = _build_audit_body org batch ∧ org = LocalAudit.org_id r ∧ r ∈ batch.

(** The chain of one organisation, in a table whose identifiers grow. *)
Definition one_chain (org : option string) (t : list local_row) : Prop :=
  StronglySorted (key_lt LocalAudit.id) t ∧ ∀ r, r ∈ t → 0 < LocalAudit.id r ∧ LocalAudit.org_id r = org.

Definition appends (org : option string) (T T' : fed_tables) : Prop :=
  (∃ new, fed_local_audit T' = fed_local_audit T ++ new) ∧ one_chain org (fed_local_audit T').

Definition appending (org : option string) : Prop :=
  ∀ n T, one_chain org (fed_local_audit T) → appends org T (meanwhile E n T).

(** The cursor is within the table and no row up to it is missing. *)
Definition covered (org : option string) (s : fed_state) : Prop :=
  one_chain org (fed_local_audit (f_tables s)) ∧
  (cursor_of s <= 0 ∨ ∃ r, r ∈ fed_local_audit (f_tables s) ∧ cursor_of s ≤ LocalAudit.id r) ∧
  ∀ r, r ∈ fed_local_audit (f_tables s) → chained r = true → LocalAudit.id r ≤ cursor_of s →
    replicated (f_posts s) r.

Lemma replicated_app posts posts' r : replicated posts r → replicated (posts ++ posts') r.
Proof.
  intros (p & org & batch & status & body & Hp & Hr). exists p, org, batch, status, body.
  split; [apply elem_of_app; by left|done].
Qed.

Lemma covered_appends org s s' posts' :
  covered org s → appends org (f_tables s) (f_tables s') → f_posts s' = f_posts s ++ posts' →
  f_cursor s' = f_cursor s → covered org s'.
Proof.
  intros (Hone & Hmax & Hcov) [[new Hnew] Hone'] Hposts Hcur.
  assert (cursor_of s' = cursor_of s) as Hc by (unfold cursor_of; by rewrite Hcur).
  split; [done|]. rewrite Hc, Hposts, Hnew in *. split.
  { destruct Hmax as [|(r & Hr & Hle)]; [by left|right]. exists r. split; [apply elem_of_app; by left|done]. }
  intros r [Hr|Hr]%elem_of_app Hch Hle; [by apply replicated_app, Hcov|]. exfalso.
  destruct Hmax as [H0|(r0 & Hr0 & Hle0)].
  - destruct (proj2 Hone' r) as [Hpos _]; [apply elem_of_app; by right|]. lia.
  - pose proof (StronglySorted_app_1_elem_of _ _ _ _ _ (proj1 Hone') Hr0 Hr) as Hlt. unfold key_lt in Hlt. lia.
Qed.

Lemma post_covered org url body signature : appending org → preserves (covered org) (post_to url body signature).
Proof.
  intros Hp s Hs. eapply covered_appends; [exact Hs| |done..]. apply Hp, Hs.
Qed.

Definition chain_part (s : fed_state) := (f_posts s, f_cursor s, fed_local_audit (f_tables s)).

Lemma chain_part_undone : undone chain_part.
Proof. split; [done|]. intros s s' [= HP _ HT]. unfold chain_part. cbn. by rewrite HP. Qed.

Lemma aside_covered org {A} (m : M A) : leaves chain_part m → preserves (covered org) m.
Proof.
  intros Hm s Hs. specialize (Hm s). destruct (m s) as [[a|e] s1]; injection Hm as HP HC HT;
    unfold covered, cursor_of; by rewrite HT, HP, HC.
Qed.

Lemma publish_one_covered org url r : appending org → preserves (covered org) (_publish_one url r).
Proof.
  intros Hp. unfold _publish_one. apply preserves_bind; [apply preserves_lift|]. intros body.
  apply preserves_bind; [apply preserves_lift|]. intros signature.
  apply preserves_bind; [by apply post_covered|]. intros [|e|status resp]; [by apply hoare_ret|apply hoare_raise|].
  apply preserves_if; [|by apply hoare_ret]. apply preserves_bind; [apply preserves_lift|by intros ?; apply hoare_ret].
Qed.

Lemma tick_covered org : appending org → preserves (covered org) _tick.
Proof.
  intros Hp. unfold _tick. destruct court_url as [url|]; [|apply preserves_ret]. apply preserves_bind.
  - apply aside_covered, leaves_transaction, leaves_statement; [apply chain_part_undone..|done].
  - intros rows. apply preserves_for_each. intros acked r. apply preserves_bind; [by apply publish_one_covered|].
    intros [|]; [|apply preserves_ret]. apply preserves_bind; [|intros ?; apply preserves_ret].
    apply aside_covered, leaves_transaction, leaves_statement; [apply chain_part_undone..|done].
Qed.

Lemma stats_covered org : appending org → preserves (covered org) _publish_stats_once.
Proof.
  intros Hp. apply stats_preserves; [intros; by apply post_covered|]. intros name.
  apply aside_covered, leaves_transaction; [|apply collect_leaves]; apply chain_part_undone.
Qed.

Lemma batch_covered org url name batch : appending org → preserves (covered org) (_publish_batch url name batch).
Proof.
  intros Hp. unfold _publish_batch. cbv zeta. apply preserves_bind; [apply preserves_lift|]. intros signature.
  apply preserves_bind; [by apply post_covered|]. intros [|e|status resp]; [by apply hoare_ret|apply hoare_raise|].
  apply preserves_if; [|by apply hoare_ret]. apply preserves_bind; [apply preserves_lift|by intros ?; apply hoare_ret].
Qed.

(** A batch is acknowledged only when the Court took it. *)
Lemma batch_acked url name batch s s' :
  _publish_batch url name batch s = (Ret true, s') →
  ∃ signature, s' = snd (post_to (audit_url url) (_build_audit_body name batch) signature s) ∧
    ∀ r, r ∈ batch → name = LocalAudit.org_id r → replicated (f_posts s') r.
Proof.
  unfold _publish_batch. cbv zeta. rewrite bind_lift. destruct (countersign E _) as [signature|]; [|done].
  set (body := _build_audit_body name batch). unfold bind at 1. unfold post_to at 1. cbv zeta.
  destruct (court E _ _ _) as [|e|status resp] eqn:Hcourt; [done..|].
  destruct (is_success status) eqn:Hok; [|done]. rewrite bind_lift. destruct (logged_batch resp); [|done].
  intros [= <-]. exists signature. split; [unfold post_to; by rewrite Hcourt|]. intros r Hr Hname.
  eexists _, name, batch, status, resp. split; [apply elem_of_app; right; by apply list_elem_of_singleton|].
  by split_and!.
Qed.

Lemma group_same org rows l :
  (∀ r, r ∈ rows → LocalAudit.org_id r = org) →
  foldl (λ d r, add_to_group (LocalAudit.org_id r) r d) [(org, l)] rows = [(org, l ++ rows)].
Proof.
  revert l. induction rows as [|r rows IH]; intros l Horg; [by rewrite app_nil_r|]. cbn.
  rewrite bool_decide_eq_true_2 by (symmetry; apply Horg; by left). rewrite IH by (intros; apply Horg; by right).
  by rewrite <- app_assoc.
Qed.

Lemma one_group org r rows :
  (∀ x, x ∈ r :: rows → LocalAudit.org_id x = org) → _group_by_org (r :: rows) = [(org, order_by seq_of (r :: rows))].
Proof.
  intros Horg. unfold _group_by_org. cbn [foldl add_to_group].
  rewrite (Horg r) by by left. rewrite group_same by (intros; apply Horg; by right). done.
Qed.

Lemma highest_spec n l :
  n ≤ highest n l ∧ (∀ r, r ∈ l → LocalAudit.id r ≤ highest n l) ∧
  (highest n l = n ∨ ∃ r, r ∈ l ∧ highest n l = LocalAudit.id r).
Proof.
  revert n. induction l as [|r l IH]; intros n.
  - split_and!; [done|by intros ? ?%not_elem_of_nil|by left].
  - change (highest n (r :: l)) with (highest (Z.max n (LocalAudit.id r)) l).
    destruct (IH (Z.max n (LocalAudit.id r))) as (Hn & Hl & Hm). split_and!; [lia| |].
    + intros x [->|Hx]%elem_of_cons; [lia|by apply Hl].
    + destruct Hm as [->|(x & Hx & ->)]; [|right; exists x; split; [by right|done]].
      destruct (Z.max_spec n (LocalAudit.id r)) as [[? ->]|[? ->]]; [right; exists r; split; [by left|done]|by left].
Qed.

(** The rows fetched have no gap. *)
Lemma newer_rows_closed c t x r :
  StronglySorted (key_lt LocalAudit.id) t → x ∈ newer_rows c t → r ∈ t → chained r = true → c < LocalAudit.id r →
  LocalAudit.id r ≤ LocalAudit.id x → r ∈ newer_rows c t.
Proof.
  intros Hsorted. unfold newer_rows. set (l := List.filter _ t).
  assert (StronglySorted (key_lt LocalAudit.id) l) as Hl by by apply StronglySorted_filter_bool.
  rewrite (order_by_strict _ l l) by done. intros Hx Hr Hch Hc Hle.
  assert (r ∈ l) as Hin.
  { apply list_elem_of_In, List.filter_In. split; [by apply list_elem_of_In|]. by rewrite Hch, (proj2 (Z.ltb_lt _ _)). }
  rewrite <- (take_drop MAX_BATCH_SIZE l) in Hl, Hin. apply elem_of_app in Hin as [|Hdrop]; [done|].
  pose proof (StronglySorted_app_1_elem_of _ _ _ _ _ Hl Hx Hdrop) as Hlt. unfold key_lt in Hlt. lia.
Qed.

Lemma newer_rows_sub c t r : r ∈ newer_rows c t → r ∈ t ∧ c < LocalAudit.id r.
Proof.
  unfold newer_rows. intros Hr. eapply elem_of_sublist in Hr; [|apply sublist_take].
  rewrite order_by_perm in Hr. apply list_elem_of_In, List.filter_In in Hr as [Hr [Hc _]%andb_true_iff].
  split; [by apply list_elem_of_In|by apply Z.ltb_lt].
Qed.

Lemma read_spec s :
  (∃ s1, transaction (do cursor <- _read_cursor; do pending <- _fetch_pending_rows cursor; ret (cursor, pending)) s
       = (Ret (cursor_of s, newer_rows (cursor_of s) (fed_local_audit (f_tables s))), s1) ∧
     chain_part s1 = chain_part s) ∨
  (∃ e s1, transaction (do cursor <- _read_cursor; do pending <- _fetch_pending_rows cursor; ret (cursor, pending)) s
       = (Raise e, s1) ∧ chain_part s1 = chain_part s).
Proof.
  pose proof (leaves_transaction _ _ chain_part_undone (read_leaves chain_part chain_part_undone) s) as Hpart.
  destruct (transaction _ s) as [[[c rows]|e] s1] eqn:Hrun; [left|right; by exists e, s1].
  exists s1. split; [|done]. clear Hpart. apply transaction_Ret in Hrun as (s2 & Hrun & _).
  apply bind_Ret in Hrun as (c' & s3 & Hc & Hrun). apply statement_Ret in Hc. injection Hc as <- <-.
  apply bind_Ret in Hrun as (rows' & s4 & Hrows & Hrun). apply statement_Ret in Hrows. injection Hrows as <- <-.
  injection Hrun as <- <- _. done.
Qed.

(** Moving the cursor over a batch that was taken. *)
Lemma cursor_moves org s t new top x :
  covered org s → fed_local_audit (f_tables s) = t ++ new →
  (∀ r, r ∈ newer_rows (cursor_of s) t → replicated (f_posts s) r) →
  x ∈ newer_rows (cursor_of s) t → top = LocalAudit.id x → covered org (with_cursor (pretty top) s).
Proof.
  intros ([Hsorted Hrows] & _ & Hcov) Ht Htaken Hx ->.
  assert (x ∈ t) as Hxt by by apply newer_rows_sub in Hx as [? _].
  assert (x ∈ fed_local_audit (f_tables s)) as Hxs by (rewrite Ht; apply elem_of_app; by left).
  assert (cursor_of (with_cursor (pretty (LocalAudit.id x)) s) = LocalAudit.id x) as Hcur
    by (unfold cursor_of; cbn; rewrite cursor_text; [done|by apply Hrows]).
  split; [done|]. rewrite Hcur. cbn. split; [right; by exists x|]. intros r Hr Hch Hle.
  destruct (Z.le_gt_cases (LocalAudit.id r) (cursor_of s)) as [Hold|Hnew]; [by apply Hcov|].
  apply Htaken. rewrite Ht in Hr, Hsorted. apply elem_of_app in Hr as [Hr|Hr].
  - apply StronglySorted_app_1_l in Hsorted. by eapply newer_rows_closed.
  - pose proof (StronglySorted_app_1_elem_of _ _ _ _ _ Hsorted Hxt Hr) as Hlt. unfold key_lt in Hlt. lia.
Qed.

Lemma write_covered org top s :
  covered org s → covered org (with_cursor (pretty top) s) →
  covered org (snd (transaction (_write_cursor top) s)).
Proof.
  intros Hs Hw. unfold Effects.transaction, _write_cursor, Effects.statement, modify.
  destruct (fed_fails E _); [exact Hs|]. by destruct (fed_fails E _).
Qed.

Lemma push_covered org url batch s :
  appending org → covered org s → (∀ r, r ∈ batch → LocalAudit.org_id r = org) →
  match for_each (push_group url) (0, cursor_of s) [(org, batch)] s with
  | (Ret (_, top), s') =>
      covered org s' ∧
      (top = cursor_of s ∨
       ∃ x new, x ∈ batch ∧ top = LocalAudit.id x ∧ cursor_of s' = cursor_of s ∧
         fed_local_audit (f_tables s') = fed_local_audit (f_tables s) ++ new ∧
         ∀ r, r ∈ batch → replicated (f_posts s') r)
  | (Raise _, s') => covered org s'
  end.
Proof.
  intros Hp Hs Horg. pose proof (batch_covered org url org batch Hp s Hs) as Hs2. cbn [for_each].
  unfold push_group. cbn [fst snd]. rewrite bind_assoc.
  destruct (_publish_batch url org batch s) as [[ok|e] s2] eqn:Hrun; [|by rewrite (bind_stop _ _ _ _ _ Hrun)].
  rewrite (bind_step _ _ _ _ _ Hrun). destruct ok; cbn -[highest]; (split; [done|]); [|by left].
  apply batch_acked in Hrun as (signature & -> & Htaken).
  destruct (highest_spec (cursor_of s) batch) as (_ & _ & [->|(x & Hx & ->)]); [by left|right].
  destruct (Hp (length (f_posts s)) _ (proj1 Hs)) as [[new Hnew] _].
  exists x, new. split_and!; [done..|]. intros r Hr. apply Htaken; [done|]. by rewrite Horg.
Qed.

Lemma audit_tick_covered org : appending org → preserves (covered org) audit_tick.
Proof.
  intros Hp s Hs. unfold audit_tick. destruct court_url as [url|]; [|done].
  assert (∀ s1, chain_part s1 = chain_part s → covered org s1) as Hsame.
  { intros s1 [= HP HC HT]. unfold covered, cursor_of. by rewrite HT, HP, HC. }
  destruct (read_spec s) as [(s1 & Hrun & Hpart)|(e & s1 & Hrun & Hpart)];
    [rewrite (bind_step _ _ _ _ _ Hrun)|rewrite (bind_stop _ _ _ _ _ Hrun); by apply Hsame].
  apply Hsame in Hpart as Hs1. clear Hrun Hsame Hs. injection Hpart as HP HC HT.
  assert (cursor_of s = cursor_of s1) as Hc by (unfold cursor_of; by rewrite HC).
  rewrite Hc, <- HT. clear Hc HP HC HT s.
  set (rows := newer_rows (cursor_of s1) (fed_local_audit (f_tables s1))).
  assert (∀ r, r ∈ rows → LocalAudit.org_id r = org) as Horg by (intros r Hr; apply newer_rows_sub in Hr as [Hr _]; by apply (proj1 Hs1)).
  destruct rows as [|r0 rest] eqn:Hrows; [done|]. rewrite (one_group org) by done. rewrite <- Hrows in *.
  set (batch := order_by seq_of rows).
  assert (∀ r, r ∈ batch ↔ r ∈ rows) as Hbatch by (intros r; unfold batch; by rewrite order_by_perm).
  pose proof (push_covered org url batch s1 Hp Hs1 ltac:(intros r Hr; by apply Horg, Hbatch)) as Hpush.
  unfold bind at 1. destruct (for_each _ _ _ s1) as [[[acked top]|e] s2]; [|done]. destruct Hpush as [Hs2 Htop].
  destruct (Z.ltb_spec (cursor_of s1) top) as [Hlt|_]; [|done].
  destruct Htop as [->|(x & new & Hx & Htop & Hcur & Ht & Htaken)]; [lia|].
  assert (covered org (snd (transaction (_write_cursor top) s2))) as Hend.
  { apply write_covered; [done|]. eapply cursor_moves; [done|exact Ht|..|exact Htop]; rewrite Hcur.
    - intros r Hr. by apply Htaken, Hbatch.
    - by apply Hbatch. }
  unfold bind. destruct (transaction _ s2) as [[]]; exact Hend.
Qed.

(** C13: with one organisation, whose rows the others only append, no row of its
    chain up to the cursor was lost, whatever the Court answers and however the
    loops, their failures and the other handlers interleave: each was in a
    batch that the Court answered with a success. *)
Theorem cursor_covers org s s' r :
  appending org → covered org s → rtc (fed_step (appends org)) s s' →
  r ∈ fed_local_audit (f_tables s') → chained r = true → LocalAudit.id r ≤ cursor_of s' →
  replicated (f_posts s') r.
Proof.
  intros Hp Hs Hrun Hr Hch Hle. cut (covered org s'); [intros (_ & _ & Hcov); by apply Hcov|]. clear r Hr Hch Hle.
  revert Hs. apply (steps_keep (appends org)); [by apply tick_covered|by apply stats_covered|by apply audit_tick_covered| |done].
  intros s1 T Hs HT. by apply (covered_appends org s1 _ []); [..|symmetry; apply app_nil_r|].
Qed.

End Federation.

(** ** Concrete runs *)

Module FederationDemo.

Definition env (answer : nat → court_answer) : fed_env :=
  {| fed_fails _ := None; fed_float_literal _ := JNull; court n _ _ := answer n; meanwhile _ T := T;
     fed_clock n := Z.of_nat n; reverse_proxy_broker_url := Some "https://court.example/"; has_agent_manager := true;
     mastio_loaded := true; countersign _ := Ret "c2ln"; has_http_client := true; fed_org_id := Some "acme" |}.

Definition status (n : Z) : court_answer := Answered n (Ret (JObj [])).
Definition accepting : fed_env := env (λ _, status 200).

Definition agent (id : string) (capabilities : string) (active : bool) (revision pushed : Z) : fed_agent :=
  {| f_agent_id := id; f_display_name := Some id; f_capabilities := Some capabilities; f_cert_pem := Some "pem";
     f_is_active := active; f_federated := true; f_federated_at := None; f_federation_revision := revision;
     f_last_pushed_revision := pushed |}.

Definition replica_row (n : Z) (org : string) : local_row :=
  {| LocalAudit.id := n; LocalAudit.timestamp := "2026-01-01T00:00:00+00:00"; LocalAudit.event_type := "tool_call";
     LocalAudit.agent_id := None; LocalAudit.session_id := None; LocalAudit.org_id := Some org;
     LocalAudit.details := None; LocalAudit.result := "ok"; LocalAudit.previous_hash := None;
     chain_seq := Some 1; peer_org_id := None; LocalAudit.entry_hash := Some "h"; LocalAudit.hash_format := Some "v2" |}.

Definition start (agents : list fed_agent) (rows : list local_row) : fed_state :=
  {| f_statements := 0; f_posts := []; f_cursor := None;
     f_tables := {| fed_agents := agents; fed_resources := [true; false]; fed_local_audit := rows |} |}.

(** A row whose capabilities are no JSON, before one that is well. *)
Definition unreadable : fed_state := start [agent "acme::bad" "{" true 1 0; agent "acme::bot" "[]" true 1 0] [].

Lemma env_polite answer : polite_meanwhile (env answer).
Proof. intros n T HT. by apply evolves_refl. Qed.

Lemma start_settled answer agents :
  NoDup (f_agent_id <$> agents) → Forall (λ r, f_last_pushed_revision r < f_federation_revision r) agents →
  ∀ rows, settled (env answer) (start agents rows).
Proof.
  intros Hnd Hall rows. split; [exact Hnd|]. intros r Hr. rewrite Forall_forall in Hall.
  pose proof (Hall _ Hr) as Hlt. cbv beta in Hlt. split; [|intros]; lia.
Qed.

End FederationDemo.

Import FederationDemo.



Lemma cursor_covers_witness :
  let s1 := snd (audit_publisher_step accepting (start [] [replica_row 3 "acme"; replica_row 5 "acme"])) in
  cursor_of s1 = 5 ∧ replicated (f_posts s1) (replica_row 3 "acme").
Proof.
  cbv zeta. split; [vm_compute; reflexivity|].
  assert (one_chain (Some "acme") [replica_row 3 "acme"; replica_row 5 "acme"]) as Hone.
  { split; [repeat constructor|]. intros r [->|[->|[]%not_elem_of_nil]%elem_of_cons]%elem_of_cons; done. }
  apply (cursor_covers accepting (Some "acme") (start [] [replica_row 3 "acme"; replica_row 5 "acme"])).
  - intros n T HT. split; [|exact HT]. exists []. by rewrite app_nil_r.
  - split; [exact Hone|]. split; [by left|]. intros r Hr _ Hle. destruct (proj2 Hone _ Hr). cbn in Hle. lia.
  - apply rtc_once, audit_runs.
  - vm_compute. left.
  - reflexivity.
  - vm_compute. discriminate.
Defined.

(** A refused batch of one organisation is passed over when the batch of
    another is taken: its rows are not fetched again. *)
Theorem other_chain_skipped :
  let E := env (λ n, if Nat.even n then status 403 else status 200) in
  let t := [replica_row 1 "__system__"; replica_row 2 "acme"] in
  let s1 := snd (audit_publisher_step E (start [] t)) in
  map p_answer (f_posts s1) = [status 403; status 200] ∧ cursor_of s1 = 2 ∧
  newer_rows (cursor_of s1) (fed_local_audit (f_tables s1)) = [].
Proof. vm_compute. done. Qed.

(** A revocation that the Court turned down for its rate is not sent again. *)
Theorem refused_revocation_forgotten :
  let s1 := snd (publisher_step (env (λ _, status 429)) (start [agent "acme::bot" "[]" false 2 1] [])) in
  List.filter pending_push (fed_agents (f_tables s1)) = [] ∧ map p_answer (f_posts s1) = [status 429].
Proof. vm_compute. done. Qed.

(** A row that cannot be read keeps the rows after it from being sent, tick
    after tick. *)
Theorem unreadable_row_starves n :
  f_posts (Nat.iter n (λ s, snd (publisher_step accepting s)) unreadable) = [].
Proof.
  set (stuck := λ s, s = {| f_statements := f_statements s; f_posts := []; f_cursor := None;
    f_tables := f_tables unreadable |}).
  cut (stuck (Nat.iter n (λ s, snd (publisher_step accepting s)) unreadable)); [by intros ->|].
  induction n as [|n IH]; [done|]. revert IH.
  change (Nat.iter (S n) ?f ?x) with (f (Nat.iter n f x)). generalize (Nat.iter n (λ s, snd (publisher_step accepting s)) unreadable).
  intros [k posts T c] [= -> -> ->]. vm_compute. done.
Qed.
