(* ===== verification/Budget.v ===== *)
(** * The token budget of an agent

    [egress/budget.py] and the reads of [db.py] it rests on: the counter of
    the tokens an agent has spent in the current UTC day and month, seeded
    from the audit trail, kept in Redis or in the process.  A datetime is the
    UTC [date_fields] of [IsoTime].  The second half interleaves the calls of
    many requests, each with the clocks it reads at its reservation and at its
    end, and measures how far the counter strays from the trail. *)

From S2P Require Import Prelude Sha256 Json JsonParse IsoTime AuditCanon.

Open Scope Z_scope.

(** ** What the trail says was spent *)

Definition _USAGE_SCAN_CAP : nat := Z.to_nat 200000.

(** [int(value)], 0 for what is no number. *)
Definition _coerce_int (value : json) : Z := match int_of value with Ret n => n | Raise _ => 0 end.

Definition newest_first (r r' : audit_row) : Prop :=
  String.leb (timestamp (payload r')) (timestamp (payload r)) = true.
#[export] Instance newest_first_dec : RelDecision newest_first.
Proof. intros r r'. unfold newest_first. apply _. Defined.

Section Chain.
Context (json_loads : string → outcome json).

(** The WHERE of the query; texts compare by their bytes. *)
Definition usage_row (agent : string) (window_start : option string) (r : audit_row) : bool :=
  bool_decide (action (payload r) = "egress_llm_chat") && bool_decide (agent_id (payload r) = agent) &&
  match window_start with
  | None | Some EmptyString => true
  | Some start => String.leb start (timestamp (payload r))
  end.

(** The tokens of one row. *)
Definition row_tokens (r : audit_row) : Z :=
  match detail (payload r) with
  | None | Some EmptyString => 0
  | Some text =>
      match json_loads text with
      | Ret (JObj payload) =>
          _coerce_int (get_none "prompt_tokens" payload) + _coerce_int (get_none "completion_tokens" payload)
      | _ => 0
      end
  end.

Definition token_sum (l : list audit_row) : Z := foldr (λ r acc, row_tokens r + acc) 0 l.

Definition sum_principal_tokens_since (agent : string) (window_start : option string)
    (audit_log : list audit_row) : Z :=
  token_sum (take _USAGE_SCAN_CAP
    (merge_sort newest_first (List.filter (usage_row agent window_start) audit_log))).

(** The read may fail; the seed is then 0. *)
Definition _seed_from_chain (agent period_start_iso : string) (audit_log : outcome (list audit_row)) : Z :=
  match audit_log with
  | Ret t => sum_principal_tokens_since agent (Some period_start_iso) t
  | Raise _ => 0
  end.

(** ** Keys *)

Definition _PREFIX : string := "mcp_proxy:budget:".

Definition _day_token (now : date_fields) : string :=
  digits 4 (year now) +:+ digits 2 (month now) +:+ digits 2 (day now).
Definition _month_token (now : date_fields) : string := digits 4 (year now) +:+ digits 2 (month now).

Definition midnight (now : date_fields) (d : N) : date_fields :=
  {| year := year now; month := month now; day := d; hour := 0; minute := 0; second := 0;
     microsecond := 0; tz_utc := tz_utc now |}.

Definition _day_start_iso (now : date_fields) : string := print_iso (midnight now (day now)).
Definition _month_start_iso (now : date_fields) : string := print_iso (midnight now 1).

Definition _day_key (agent : string) (now : date_fields) : string :=
  _PREFIX +:+ agent +:+ ":day:" +:+ _day_token now.
Definition _month_key (agent : string) (now : date_fields) : string :=
  _PREFIX +:+ agent +:+ ":month:" +:+ _month_token now.

(** ** The two backends *)

(** What a backend does with a key: read it, plant a seed for a key that was
    read as missing, adjust it. *)
Class Backend := {
  store : Type;
  lookup_key : string → store → option Z;
  plant : string → Z → store → store;
  adjust : string → Z → store → store;
}.

(** GET; SET NX; the script [_DELTA_LUA]: only a key that exists is adjusted,
    and never below 0.  The TTL outlives the period of the key. *)
#[export] Instance redis_backend : Backend := {
  store := gmap string Z;
  lookup_key := λ key db, db !! key;
  plant := λ key seed db, match db !! key with Some _ => db | None => <[key := seed]> db end;
  adjust := λ key delta db,
    match db !! key with Some v => <[key := Z.max 0 (v + delta)]> db | None => db end;
}.

(** [_mem] and [_seeded]: the seed is assigned whatever happened since the key
    was found missing. *)
Record memory_store := { _mem : gmap string Z; _seeded : gset string }.

Definition memory_backend : Backend := {|
  store := memory_store;
  lookup_key := λ key m, if bool_decide (key ∈ _seeded m) then Some (default 0 (_mem m !! key)) else None;
  plant := λ key seed m, {| _mem := <[key := seed]> (_mem m); _seeded := {[key]} ∪ _seeded m |};
  adjust := λ key delta m,
    if bool_decide (key ∈ _seeded m)
    then {| _mem := <[key := Z.max 0 (default 0 (_mem m !! key) + delta)]> (_mem m);
            _seeded := _seeded m |}
    else m;
|}.

Section Counter.
Context `{Backend}.

(** [_get] without interruption: the calls of the backend raise from the
    [cut]-th on, which fails open. *)
Definition _get (cut : option nat) (agent key period_start_iso : string)
    (audit_log : outcome (list audit_row)) (st : store) : Z * store :=
  if bool_decide (cut = Some 0%nat) then (0, st)
  else
    match lookup_key key st with
    | Some v => (v, st)
    | None =>
        let seed := _seed_from_chain agent period_start_iso audit_log in
        if bool_decide (cut = Some 1%nat) then (0, st)
        else
          let st := plant key seed st in
          if bool_decide (cut = Some 2%nat) then (0, st)
          else (default seed (lookup_key key st), st)
    end.

Definition current (day_cut month_cut : option nat) (agent : string) (now : date_fields)
    (audit_log : outcome (list audit_row)) (st : store) : (Z * Z) * store :=
  let '(day, st) := _get day_cut agent (_day_key agent now) (_day_start_iso now) audit_log st in
  let '(month, st) := _get month_cut agent (_month_key agent now) (_month_start_iso now) audit_log st in
  ((day, month), st).

Definition _apply_delta (fails : bool) (key : string) (delta : Z) (st : store) : store :=
  if fails then st else adjust key delta st.

Definition add_delta (day_fails month_fails : bool) (agent : string) (delta : Z) (now : date_fields)
    (st : store) : store :=
  if delta =? 0 then st
  else _apply_delta month_fails (_month_key agent now) delta
         (_apply_delta day_fails (_day_key agent now) delta st).

End Counter.

(** ** The ceilings *)

Record budget_row := { tokens_per_day : Z; tokens_per_month : Z; enabled : bool }.

Definition upsert_agent_budget (agent : string) (per_day per_month : Z) (en : bool)
    (t : gmap string budget_row) : gmap string budget_row :=
  <[agent := {| tokens_per_day := Z.max 0 per_day; tokens_per_month := Z.max 0 per_month;
                enabled := en |}]> t.

Definition delete_agent_budget (agent : string) (t : gmap string budget_row) : gmap string budget_row :=
  delete agent t.

Definition effective_budget (agent : string) (llm_tokens_per_day llm_tokens_per_month : Z)
    (t : gmap string budget_row) : Z * Z :=
  match t !! agent with
  | Some row => if enabled row then (tokens_per_day row, tokens_per_month row)
                else (llm_tokens_per_day, llm_tokens_per_month)
  | None => (llm_tokens_per_day, llm_tokens_per_month)
  end.

(** ** Many requests at once

    The requests of one agent against the counters of their periods.  A request
    takes a clock and asks for the counter of that clock's period; when the key
    is missing it reads the trail and plants the seed, two steps that others may
    come between; admitted below the ceiling (or refused, here or for its other
    counter), it charges a reservation there.  Later it takes another clock and
    settles the reservation to what it used, in the period of the second clock,
    and writes its row; or gives the reservation back, again in the period of
    the second clock; or is abandoned: an exception that is no [GatewayError], a
    stream whose client has gone before the first frame.  Rows of the agent come
    from elsewhere too: requests made while no ceiling was set, and those of the
    Anthropic endpoint, are never charged. *)

Inductive phase :=
| Asked (now : date_fields)
| Missed (now : date_fields)
| Read (now : date_fields) (seed : Z)
| Planted (now : date_fields) (seed : Z)
| Known (now : date_fields) (used : Z)
| Holding (now : date_fields) (reserved : Z)
| Settled (now later : date_fields) (weight : Z)
| Abandoned (now : date_fields) (reserved : Z)
| Finished.

Section Interleaving.
Context `{Backend} (agent : string) (ceiling : Z).

(** [_day_key] and [_day_start_iso], or those of the month, for this agent; the
    period that is looked at. *)
Context (key_of start_of : date_fields → string) (today : date_fields).

Definition here (now : date_fields) : bool := bool_decide (key_of now = key_of today).
Definition in_period (r : audit_row) : bool := usage_row agent (Some (start_of today)) r.

Record system := { counter : store; audit_log : list audit_row; calls : list phase }.

Definition go (i : nat) (p' : phase) (s : system) (st : store) : system :=
  {| counter := st; audit_log := audit_log s; calls := <[i := p']> (calls s) |}.

(** How far a step takes the counter of [today] from the trail: nothing, for the
    steps of a request that is in this period from its reservation to its row. *)
Definition stray_change (now later : date_fields) (reserved delta : Z) : Z :=
  if here now then if here later then 0 else Z.abs reserved
  else if here later then Z.abs delta else 0.
Definition stray_row (now later : date_fields) (r : audit_row) (weight : Z) : Z :=
  if Bool.eqb (here now && here later) (in_period r) then 0 else Z.abs weight.

Inductive budget_step (s : system) : Z → system → Prop :=
| step_arrive now :
    tz_utc now = true →
    budget_step s 0 {| counter := counter s; audit_log := audit_log s; calls := calls s ++ [Asked now] |}
| step_get i now :
    calls s !! i = Some (Asked now) →
    budget_step s 0
      (go i (match lookup_key (key_of now) (counter s) with Some v => Known now v | None => Missed now end)
         s (counter s))
| step_read i now :
    calls s !! i = Some (Missed now) →
    budget_step s 0
      (go i (Read now (sum_principal_tokens_since agent (Some (start_of now)) (audit_log s))) s (counter s))
| step_plant i now seed :
    calls s !! i = Some (Read now seed) →
    budget_step s 0 (go i (Planted now seed) s (plant (key_of now) seed (counter s)))
| step_reread i now seed :
    calls s !! i = Some (Planted now seed) →
    budget_step s 0 (go i (Known now (default seed (lookup_key (key_of now) (counter s)))) s (counter s))
| step_admit i now used reserved :
    calls s !! i = Some (Known now used) → ceiling <= 0 ∨ used < ceiling → 0 <= reserved →
    budget_step s 0 (go i (Holding now reserved) s (adjust (key_of now) reserved (counter s)))
| step_refuse i now used :
    calls s !! i = Some (Known now used) → budget_step s 0 (go i Finished s (counter s))
| step_refund i now later reserved :
    calls s !! i = Some (Holding now reserved) →
    budget_step s (stray_change now later reserved (- reserved))
      (go i Finished s (adjust (key_of later) (- reserved) (counter s)))
| step_settle i now later reserved weight :
    calls s !! i = Some (Holding now reserved) → 0 <= weight →
    budget_step s (stray_change now later reserved (weight - reserved))
      (go i (Settled now later weight) s (adjust (key_of later) (weight - reserved) (counter s)))
| step_abandon i now reserved :
    calls s !! i = Some (Holding now reserved) →
    budget_step s 0 (go i (Abandoned now reserved) s (counter s))
| step_record i now later weight r :
    calls s !! i = Some (Settled now later weight) → usage_row agent None r = true → row_tokens r = weight →
    budget_step s (stray_row now later r weight)
      {| counter := counter s; audit_log := audit_log s ++ [r]; calls := <[i := Finished]> (calls s) |}
| step_other_row r :
    (in_period r = true → 0 <= row_tokens r) →
    budget_step s (if in_period r then row_tokens r else 0)
      {| counter := counter s; audit_log := audit_log s ++ [r]; calls := calls s |}.

(** A run, with what its steps add up to. *)
Inductive budget_run (s : system) : Z → system → Prop :=
| run_start : budget_run s 0 s
| run_step n s1 m s2 : budget_run s n s1 → budget_step s1 m s2 → budget_run s (n + m) s2.

(** A schedule, move by move: request [i] takes its next step, with what it
    brings of its own; a move that is not possible is skipped. *)
Inductive move :=
| Arrive (now : date_fields)
| Proceed (i : nat)
| Reserve (i : nat) (reserved : Z)
| GiveBack (i : nat) (later : date_fields)
| Settle (i : nat) (later : date_fields) (weight : Z)
| Abandon (i : nat)
| Note (i : nat) (r : audit_row)
| OtherRow (r : audit_row).

Definition perform (x : Z * system) (m : move) : Z * system :=
  let '(n, s) := x in
  match m with
  | Arrive now =>
      if tz_utc now
      then (n + 0, {| counter := counter s; audit_log := audit_log s; calls := calls s ++ [Asked now] |}) else (n, s)
  | Proceed i =>
      match calls s !! i with
      | Some (Asked now) =>
          (n + 0, go i (match lookup_key (key_of now) (counter s) with Some v => Known now v | None => Missed now end)
                    s (counter s))
      | Some (Missed now) =>
          (n + 0, go i (Read now (sum_principal_tokens_since agent (Some (start_of now)) (audit_log s))) s (counter s))
      | Some (Read now seed) => (n + 0, go i (Planted now seed) s (plant (key_of now) seed (counter s)))
      | Some (Planted now seed) =>
          (n + 0, go i (Known now (default seed (lookup_key (key_of now) (counter s)))) s (counter s))
      | _ => (n, s)
      end
  | Reserve i reserved =>
      match calls s !! i with
      | Some (Known now used) =>
          if ((ceiling <=? 0) || (used <? ceiling)) && (0 <=? reserved)
          then (n + 0, go i (Holding now reserved) s (adjust (key_of now) reserved (counter s))) else (n, s)
      | _ => (n, s)
      end
  | GiveBack i later =>
      match calls s !! i with
      | Some (Holding now reserved) =>
          (n + stray_change now later reserved (- reserved),
           go i Finished s (adjust (key_of later) (- reserved) (counter s)))
      | _ => (n, s)
      end
  | Settle i later weight =>
      match calls s !! i with
      | Some (Holding now reserved) =>
          if 0 <=? weight
          then (n + stray_change now later reserved (weight - reserved),
                go i (Settled now later weight) s (adjust (key_of later) (weight - reserved) (counter s)))
          else (n, s)
      | _ => (n, s)
      end
  | Abandon i =>
      match calls s !! i with
      | Some (Holding now reserved) => (n + 0, go i (Abandoned now reserved) s (counter s))
      | _ => (n, s)
      end
  | Note i r =>
      match calls s !! i with
      | Some (Settled now later weight) =>
          if usage_row agent None r && (row_tokens r =? weight)
          then (n + stray_row now later r weight,
                {| counter := counter s; audit_log := audit_log s ++ [r]; calls := <[i := Finished]> (calls s) |})
          else (n, s)
      | _ => (n, s)
      end
  | OtherRow r =>
      if 0 <=? row_tokens r
      then (n + (if in_period r then row_tokens r else 0),
            {| counter := counter s; audit_log := audit_log s ++ [r]; calls := calls s |})
      else (n, s)
  end.

Lemma perform_runs s0 x m :
  budget_run s0 (fst x) (snd x) → budget_run s0 (fst (perform x m)) (snd (perform x m)).
Proof.
  destruct x as [n s]. cbn [fst snd]. intros Hrun.
  assert (∀ k s', budget_step s k s' → budget_run s0 (n + k) s') as Hone by (intros k s'; by apply run_step).
  destruct m as [now|i|i r|i now|i now w|i|i r|r]; cbn [perform];
    try (destruct (calls s !! i) as [p|] eqn:Hi; [destruct p|]; try exact Hrun).
  - destruct (tz_utc now) eqn:Htz; [|exact Hrun]. by apply Hone, step_arrive.
  - by apply Hone, step_get.
  - by apply Hone, step_read.
  - by apply Hone, step_plant.
  - by apply Hone, step_reread.
  - destruct (_ && _) eqn:Hok; [|exact Hrun]. apply Hone. apply (step_admit s i now used r); [done|lia|lia].
  - by apply Hone, step_refund.
  - destruct (0 <=? w) eqn:Hok; [|exact Hrun]. apply Hone. apply step_settle; [done|lia].
  - by apply Hone, step_abandon.
  - destruct (_ && _) eqn:Hok; [|exact Hrun]. apply andb_true_iff in Hok as [Hok Hw]. apply Hone.
    apply step_record; [done|done|lia].
  - destruct (0 <=? row_tokens r) eqn:Hok; [|exact Hrun]. apply Hone, step_other_row. lia.
Qed.

Lemma scheduled_run ms s0 x :
  budget_run s0 (fst x) (snd x) →
  budget_run s0 (fst (fold_left perform ms x)) (snd (fold_left perform ms x)).
Proof.
  revert x. induction ms as [|m ms IH]; intros x Hrun; [exact Hrun|]. by apply IH, perform_runs.
Qed.

(** What the rows of the period add up to. *)
Definition spent (t : list audit_row) : Z := token_sum (List.filter in_period t).

(** What a request of this period has charged and not written down: for ever,
    when it is abandoned. *)
Definition charged (p : phase) : Z :=
  match p with
  | Holding now r | Abandoned now r => if here now then r else 0
  | Settled now later w => if here now && here later then w else 0
  | _ => 0
  end.
Definition all_charged (l : list phase) : Z := foldr (λ p acc, charged p + acc) 0 l.

(** The period has no more rows than one scan reads. *)
Definition scannable (t : list audit_row) : Prop :=
  (length (List.filter in_period t) <= _USAGE_SCAN_CAP)%nat.

Lemma token_sum_perm l l' : l ≡ₚ l' → token_sum l = token_sum l'.
Proof. unfold token_sum. induction 1; cbn in *; lia. Qed.

Lemma token_sum_app l l' : token_sum (l ++ l') = token_sum l + token_sum l'.
Proof. unfold token_sum. induction l as [|r l IH]; cbn in *; lia. Qed.

Lemma scan_complete t :
  scannable t → sum_principal_tokens_since agent (Some (start_of today)) t = spent t.
Proof.
  intros Hle. unfold sum_principal_tokens_since, spent.
  rewrite take_ge by (rewrite merge_sort_Permutation; exact Hle).
  apply token_sum_perm, merge_sort_Permutation.
Qed.

Lemma spent_snoc t r : spent (t ++ [r]) = spent t + if in_period r then row_tokens r else 0.
Proof. unfold spent. rewrite List.filter_app, token_sum_app. cbn. by destruct (in_period r); cbn; lia. Qed.

Lemma scannable_snoc t r : scannable (t ++ [r]) → scannable t.
Proof. unfold scannable. rewrite List.filter_app, length_app. lia. Qed.

Lemma charged_app l l' : all_charged (l ++ l') = all_charged l + all_charged l'.
Proof. unfold all_charged. induction l as [|p l IH]; cbn in *; lia. Qed.

Lemma charged_insert l i p p' :
  l !! i = Some p → all_charged (<[i := p']> l) = all_charged l - charged p + charged p'.
Proof.
  intros Hi. rewrite <- (take_drop_middle l i p Hi) at 2. rewrite insert_take_drop by by eapply lookup_lt_Some.
  rewrite !charged_app. cbn. change (foldr _ 0 ?l) with (all_charged l). lia.
Qed.

(** What is reserved and what is used is no less than nothing. *)
Definition sane (p : phase) : Prop :=
  match p with
  | Asked now | Missed now | Read now _ | Planted now _ | Known now _ => tz_utc now = true
  | Holding now r | Abandoned now r => tz_utc now = true ∧ 0 <= r
  | Settled now _ w => tz_utc now = true ∧ 0 <= w
  | Finished => True
  end.

Lemma sane_charged p : sane p → 0 <= charged p.
Proof. destruct p; cbn; try lia; intros [_ Hr]; repeat (destruct (here _); cbn; try lia). Qed.

Lemma charged_nonneg l : Forall sane l → 0 <= all_charged l.
Proof. unfold all_charged. induction 1 as [|p l Hp%sane_charged]; cbn; lia. Qed.

Lemma stray_change_nonneg now later r d : 0 <= stray_change now later r d.
Proof. unfold stray_change. destruct (here now), (here later); lia. Qed.
Lemma stray_row_nonneg now later r w : 0 <= stray_row now later r w.
Proof. unfold stray_row. destruct (Bool.eqb _ _); lia. Qed.

End Interleaving.

(** ** Redis: the counter is the trail plus what is under way *)

Section Redis.
Context (agent : string) (ceiling : Z) (key_of start_of : date_fields → string) (today : date_fields).
Context (Htoday : tz_utc today = true)
  (Hperiod : ∀ now now', tz_utc now = true → tz_utc now' = true →
     key_of now = key_of now' → start_of now = start_of now').

Notation system := (@system redis_backend).
Notation step := (budget_step agent ceiling key_of start_of today).
Notation run := (budget_run agent ceiling key_of start_of today).
Notation spent_here := (spent agent start_of today).
Notation charged_here := (all_charged key_of today).
Notation at_hand := (here key_of today).
Notation key := (key_of today).

(** While the key is missing a request of the period has charged nothing, and
    what it has read is what the rows add up to. *)
Definition waiting (n total : Z) (p : phase) : Prop :=
  match p with
  | Read now seed => at_hand now = true → Z.abs (seed - total) <= n
  | Planted now _ | Known now _ | Holding now _ | Settled now _ _ | Abandoned now _ => at_hand now = false
  | _ => True
  end.

Definition in_step (n : Z) (s : system) : Prop :=
  0 <= n ∧ 0 <= spent_here (audit_log s) ∧ Forall sane (calls s) ∧
  match lookup_key key (counter s) with
  | Some v => Z.abs (v - (spent_here (audit_log s) + charged_here (calls s))) <= n
  | None => Forall (waiting n (spent_here (audit_log s))) (calls s)
  end.

Lemma waiting_charged n total p : waiting n total p → charged key_of today p = 0.
Proof. destruct p; cbn; try done; by intros ->. Qed.

Lemma waiting_charges n total l : Forall (waiting n total) l → charged_here l = 0.
Proof. unfold all_charged. induction 1 as [|p l Hp _ IH]; cbn; [done|]. by rewrite (waiting_charged n total p Hp), IH. Qed.

Lemma waiting_later n n' total total' p :
  n + Z.abs (total' - total) <= n' → waiting n total p → waiting n' total' p.
Proof. intros Hn. destruct p; cbn; try done. intros Hw Hh. specialize (Hw Hh). lia. Qed.

(** A request goes from one phase to the next, with the counter of the period
    as it was or moved by what is accounted for. *)
Lemma go_in_step n n' s i p p' st :
  in_step n s → calls s !! i = Some p → sane p' → n <= n' →
  match lookup_key key (counter s), lookup_key key st with
  | Some v, Some v' => Z.abs (v' - (spent_here (audit_log s) + (charged_here (calls s) - charged key_of today p + charged key_of today p'))) <= n'
  | None, Some v' => Z.abs (v' - spent_here (audit_log s)) <= n' ∧ charged key_of today p' = 0
  | None, None => waiting n' (spent_here (audit_log s)) p'
  | Some _, None => False
  end → in_step n' (go i p' s st).
Proof.
  intros (Hn & Hsp & Hsane & Hkey) Hi Hp' Hle Hst.
  split_and!; [lia|done|by apply Forall_insert|]. cbn [go counter calls audit_log].
  destruct (lookup_key key (counter s)) as [v|], (lookup_key key st) as [v'|]; try done.
  - by rewrite (charged_insert _ _ _ _ p).
  - rewrite (charged_insert _ _ _ _ p) by done. rewrite (waiting_charges _ _ _ Hkey).
    pose proof (proj1 (Forall_lookup _ _) Hkey i p Hi) as Hw. rewrite (waiting_charged _ _ _ Hw). lia.
  - apply Forall_insert; [|done]. eapply Forall_impl; [exact Hkey|]. intros q. apply waiting_later. lia.
Qed.

(** [adjust] of a key of the period, and of another. *)
Lemma adjust_key now d (st : @store redis_backend) :
  at_hand now = true →
  lookup_key key (adjust (key_of now) d st)
  = match lookup_key key st with Some v => Some (Z.max 0 (v + d)) | None => None end.
Proof.
  intros Hh%bool_decide_eq_true. cbn in *. rewrite Hh.
  destruct (@lookup _ _ (gmap string Z) _ key st) eqn:Hk; [by rewrite lookup_insert_eq|done].
Qed.

Lemma adjust_elsewhere now d (st : @store redis_backend) :
  at_hand now = false → lookup_key key (adjust (key_of now) d st) = lookup_key key st.
Proof.
  intros Hh%bool_decide_eq_false. cbn in *.
  destruct (@lookup _ _ (gmap string Z) _ (key_of now) st); [by rewrite lookup_insert_ne|done].
Qed.

Lemma plant_key now seed (st : @store redis_backend) :
  lookup_key key (plant (key_of now) seed st)
  = match lookup_key key st with Some v => Some v | None => if at_hand now then Some seed else None end.
Proof.
  unfold here. cbn in *.
  destruct (bool_decide_reflect (key_of now = key)) as [->|Hne];
    destruct (@lookup _ _ (gmap string Z) _ key st) as [v|] eqn:Hk.
  - by rewrite Hk.
  - by rewrite lookup_insert_eq.
  - destruct (@lookup _ _ (gmap string Z) _ (key_of now) st); [done|by rewrite lookup_insert_ne].
  - destruct (@lookup _ _ (gmap string Z) _ (key_of now) st); [done|by rewrite lookup_insert_ne].
Qed.

(** A step that leaves the store alone. *)
Lemma idle_in_step n s i p p' :
  in_step n s → calls s !! i = Some p → sane p' → charged key_of today p' = charged key_of today p →
  (lookup_key key (counter s) = None → waiting n (spent_here (audit_log s)) p') →
  in_step n (go i p' s (counter s)).
Proof.
  intros Hin Hi Hp' Hc Hw. apply (go_in_step n _ _ _ p); [done|done|done|lia|].
  destruct Hin as (_ & _ & _ & Hkey). destruct (lookup_key key (counter s)); [lia|by apply Hw].
Qed.

(** A charge or a settlement: the request's share moves by [d] less what is
    counted as stray. *)
Lemma adjust_in_step n m s i p p' now d :
  in_step n s → calls s !! i = Some p → sane p' → 0 <= m →
  Z.abs ((if at_hand now then d else 0) - (charged key_of today p' - charged key_of today p)) <= m →
  (waiting n (spent_here (audit_log s)) p → waiting (n + m) (spent_here (audit_log s)) p') →
  in_step (n + m) (go i p' s (adjust (key_of now) d (counter s))).
Proof.
  intros Hin Hi Hp' Hm Hd Hw. apply (go_in_step n _ _ _ p); [done|done|done|lia|].
  assert (Forall sane (<[i := p']> (calls s))) as Hpos by (apply Forall_insert; [apply Hin|done]).
  apply (charged_nonneg key_of today) in Hpos.
  rewrite (charged_insert _ _ _ _ p) in Hpos by done.
  destruct Hin as (Hn & Hsp & _ & Hkey). revert Hkey.
  destruct (at_hand now) eqn:Hh; [rewrite adjust_key by done|rewrite adjust_elsewhere by done];
    destruct (lookup_key key (counter s)) as [v|] eqn:Hk; intros Hkey; try lia;
    apply Hw; exact (proj1 (Forall_lookup _ _) Hkey i p Hi).
Qed.

(** A row is written, and its request, if it has one, is over. *)
Lemma row_in_step n m s r (done_ : list phase) :
  in_step n s → Forall sane done_ →
  (in_period agent start_of today r = true → 0 <= row_tokens r) →
  (∀ k t, Forall (waiting n k) (calls s) → k = t → Forall (waiting n k) done_) →
  Z.abs (charged_here done_ - charged_here (calls s)
         + if in_period agent start_of today r then row_tokens r else 0) <= m →
  (lookup_key key (counter s) = None →
     Z.abs (if in_period agent start_of today r then row_tokens r else 0) <= m) →
  in_step (n + m) {| counter := counter s; audit_log := audit_log s ++ [r]; calls := done_ |}.
Proof.
  intros (Hn & Hsp & Hsane & Hkey) Hdone Hr Hwait Hm Hm0.
  split_and!; cbn [counter audit_log calls]; rewrite ?spent_snoc; [lia| |done|].
  - destruct (in_period agent start_of today r); [specialize (Hr eq_refl)|]; lia.
  - destruct (lookup_key key (counter s)) as [v|]; [lia|].
    eapply Forall_impl; [by eapply Hwait|]. intros q. apply waiting_later. specialize (Hm0 eq_refl). lia.
Qed.

Lemma plant_in_step n s i now seed :
  in_step n s → calls s !! i = Some (Read now seed) →
  in_step n (go i (Planted now seed) s (plant (key_of now) seed (counter s))).
Proof.
  intros Hin Hi. pose proof Hin as (Hn & Hsp & Hsane & Hkey).
  pose proof (proj1 (Forall_lookup _ _) Hsane i _ Hi) as Hs.
  apply (go_in_step n _ _ _ (Read now seed)); [done|done|done|lia|]. rewrite plant_key.
  destruct (lookup_key key (counter s)) as [v|]; [cbn [charged]; lia|].
  pose proof (proj1 (Forall_lookup _ _) Hkey i _ Hi) as Hread. cbn in Hread.
  destruct (at_hand now) eqn:Hh; [|done]. by split; [apply Hread|].
Qed.

Lemma step_keeps n m s s' :
  scannable agent start_of today (audit_log s') → in_step n s → step s m s' → in_step (n + m) s'.
Proof.
  intros Hcap Hin Hstep. pose proof Hin as (Hn & Hsp & Hsane & Hkey).
  pose proof (proj1 (Forall_lookup _ _) Hsane) as Hsane_at.
  assert (∀ i p, calls s !! i = Some p → lookup_key key (counter s) = None →
    waiting n (spent_here (audit_log s)) p) as Hwait.
  { intros i p Hi Hk. rewrite Hk in Hkey. exact (proj1 (Forall_lookup _ _) Hkey i p Hi). }
  destruct Hstep as [now Htz|i now Hi|i now Hi|i now seed Hi|i now seed Hi|i now used reserved Hi Hu Hr
    |i now used Hi|i now later reserved Hi|i now later reserved weight Hi Hw|i now reserved Hi
    |i now later weight r Hi Hrow Hr|r Hr]; rewrite ?Z.add_0_r; try pose proof (Hsane_at _ _ Hi) as Hs.
  - split_and!; [done|done|apply Forall_app; by repeat constructor|]. cbn [counter calls audit_log].
    rewrite charged_app. cbn [all_charged foldr charged]. rewrite !Z.add_0_r.
    destruct (lookup_key key (counter s)); [exact Hkey|apply Forall_app; by repeat constructor].
  - apply (idle_in_step n _ _ (Asked now)); [done|done|by destruct (lookup_key _ _)|by destruct (lookup_key _ _)|].
    intros Hk. destruct (lookup_key (key_of now) (counter s)) eqn:Hl; [|done]. cbn. apply bool_decide_eq_false.
    intros Heq. rewrite Heq in Hl. congruence.
  - apply (idle_in_step n _ _ (Missed now)); [done|done|done|done|]. intros Hk Hh.
    rewrite (Hperiod now today) by (try done; by apply bool_decide_eq_true in Hh).
    rewrite scan_complete by done. lia.
  - by apply plant_in_step.
  - apply (idle_in_step n _ _ (Planted now seed)); [done|done|done|done|]. intros Hk. exact (Hwait _ _ Hi Hk).
  - rewrite <- (Z.add_0_r n). apply (adjust_in_step n 0 _ _ (Known now used)); [done|done|done|lia| |].
    + cbn [charged]. destruct (at_hand now); lia.
    + rewrite Z.add_0_r. by cbn.
  - by apply (idle_in_step n _ _ (Known now used)).
  - apply (adjust_in_step n _ _ _ (Holding now reserved)); [done|done|done|apply stray_change_nonneg| |done].
    cbn [charged]. unfold stray_change. destruct (at_hand now), (at_hand later); lia.
  - apply (adjust_in_step n _ _ _ (Holding now reserved)); [done|done|by destruct Hs|apply stray_change_nonneg| |done].
    cbn [charged]. unfold stray_change. destruct (at_hand now), (at_hand later); cbn [andb]; lia.
  - apply (idle_in_step n _ _ (Holding now reserved)); [done|done|done|done|]. intros Hk. exact (Hwait _ _ Hi Hk).
  - destruct Hs as [Htz Hw]. apply row_in_step; [done|by apply Forall_insert|intros _; lia| | |].
    + intros k t Hall _. by apply Forall_insert.
    + rewrite (charged_insert _ _ _ _ (Settled now later weight)) by done. cbn [charged]. unfold stray_row.
      rewrite Hr. destruct (at_hand now && at_hand later), (in_period _ _ _ r); cbn [Bool.eqb]; lia.
    + intros Hk. specialize (Hwait _ _ Hi Hk). cbn in Hwait. unfold stray_row. rewrite Hwait. cbn [andb].
      destruct (in_period _ _ _ r); cbn [Bool.eqb]; lia.
  - apply row_in_step; [done|done|done|done| |intros _]; destruct (in_period _ _ _ r); try specialize (Hr eq_refl); lia.
Qed.

Lemma step_back n s s' :
  step s n s' → scannable agent start_of today (audit_log s') → scannable agent start_of today (audit_log s).
Proof. destruct 1; cbn [go audit_log]; try done; by apply scannable_snoc. Qed.

Lemma run_keeps n k s s' :
  run s n s' → scannable agent start_of today (audit_log s') → in_step k s → in_step (k + n) s'.
Proof.
  induction 1 as [|n s1 m s2 Hrun IH Hst]; intros Hcap Hs; [by rewrite Z.add_0_r|].
  rewrite Z.add_assoc. eapply step_keeps; [done| |exact Hst]. apply IH; [|done]. by eapply step_back.
Qed.


End Redis.

(** The keys of the day and of the month name their period. *)
Lemma digits_length w n : String.length (digits w n) = w.
Proof. revert n. induction w as [|w IH]; intros n; cbn; [done|]. by rewrite IH. Qed.

Lemma day_period a now now' :
  tz_utc now = true → tz_utc now' = true → _day_key a now = _day_key a now' → _day_start_iso now = _day_start_iso now'.
Proof.
  intros Htz Htz' Heq. unfold _day_key, _day_token in Heq.
  do 3 apply str_app_inj_l in Heq.
  apply str_app_inj_len in Heq as [Hy Heq]; [|by rewrite !digits_length].
  apply str_app_inj_len in Heq as [Hm Hd]; [|by rewrite !digits_length].
  unfold _day_start_iso, print_iso, midnight. cbn [year month day hour minute second microsecond tz_utc].
  by rewrite Hy, Hm, Hd, Htz, Htz'.
Qed.

Lemma month_period a now now' :
  tz_utc now = true → tz_utc now' = true → _month_key a now = _month_key a now' →
  _month_start_iso now = _month_start_iso now'.
Proof.
  intros Htz Htz' Heq. unfold _month_key, _month_token in Heq.
  do 3 apply str_app_inj_l in Heq.
  apply str_app_inj_len in Heq as [Hy Hm]; [|by rewrite !digits_length].
  unfold _month_start_iso, print_iso, midnight. cbn [year month day hour minute second microsecond tz_utc].
  by rewrite Hy, Hm, Htz, Htz'.
Qed.

End Chain.

(** ** Concrete runs *)

Module BudgetDemo.
Definition json_loads : string → outcome json := loads (λ t, JStr t).

Definition june (d h : N) : date_fields :=
  {| year := 2026; month := 6; day := d; hour := h; minute := 0; second := 0; microsecond := 0;
     tz_utc := true |}.

Definition usage (at_time : date_fields) (prompt completion : Z) : audit_row :=
  {| payload :=
       {| timestamp := print_iso at_time; agent_id := "acme::bot"; action := "egress_llm_chat";
          tool_name := None; status := "success";
          detail := Some (dumps (JObj [("prompt_tokens", JInt prompt); ("completion_tokens", JInt completion)]));
          request_id := None; duration_ms := None; dpop_jkt := None; on_behalf_of_user_id := None |};
     chain_seq := None; prev_hash := None; row_hash := None; hash_format := None |}.

Notation today := (june 2 10).
Notation key := (_day_key "acme::bot" today).
Notation run B := (@budget_run json_loads B "acme::bot" 1000 (_day_key "acme::bot") _day_start_iso today).
Notation perform := (perform json_loads "acme::bot" 1000 (_day_key "acme::bot") _day_start_iso today).
Notation spent := (spent json_loads "acme::bot" _day_start_iso today).
Notation all_charged := (all_charged (_day_key "acme::bot") today).

Definition idle (B : Backend) (st : store) : @system B :=
  {| counter := st; audit_log := []; calls := [] |}.
Definition race : list move :=
  [Arrive today; Arrive today; Proceed 0; Proceed 1; Proceed 0; Proceed 1; Proceed 0; Proceed 0;
   Reserve 0 100; Settle 0 today 80; Note 0 (usage today 50 30); Proceed 1; Proceed 1].

(** One request charged and recorded, one whose adapter crashes. *)
Definition crash : list move := race ++ [Reserve 1 40; Abandon 1].
(** Calls that go through the endpoint that is not metered. *)
Definition unmetered : list move := race ++ [OtherRow (usage today 3000 1000); Arrive today; Proceed 2].
(** A request of the evening that settles after midnight; the day looked at is
    its own. *)
Definition overnight : list move :=
  race ++ [Reserve 1 100; Settle 1 (june 3 0) 20; Note 1 (usage (june 3 0) 10 10)].

Lemma ran (B : Backend) (s : @system B) ms n :
  fst (fold_left perform ms (0, s)) = n → run B s n (snd (fold_left perform ms (0, s))).
Proof. intros <-. apply scheduled_run, run_start. Qed.
End BudgetDemo.

(** The trail has 80 tokens, every call is over, and the counter says 0: the
    seed of the in-process counter is assigned after a wait, two first requests
    can both find the key missing, and the slower one then overwrites what the
    faster one has spent. *)
Theorem in_memory_seed_race :
  ∃ s, BudgetDemo.run memory_backend (BudgetDemo.idle memory_backend {| _mem := ∅; _seeded := ∅ |}) 0 s ∧
    calls s = [Finished; Known BudgetDemo.today 0] ∧
    sum_principal_tokens_since BudgetDemo.json_loads "acme::bot" (Some (_day_start_iso BudgetDemo.today))
      (audit_log s) = 80 ∧
    @lookup_key memory_backend BudgetDemo.key (counter s) = Some 0.
Proof.
  eexists. split; [apply (BudgetDemo.ran _ _ BudgetDemo.race); vm_compute; reflexivity|].
  vm_compute; split_and!; reflexivity.
Qed.

(** [POST /v1/messages] writes a row of usage and never touches the counter: at
    4080 tokens in the trail the next request reads 80 and is admitted below a
    ceiling of 1000. *)
Theorem messages_endpoint_unmetered :
  ∃ s, BudgetDemo.run redis_backend (BudgetDemo.idle redis_backend ∅) 4000 s ∧
    sum_principal_tokens_since BudgetDemo.json_loads "acme::bot" (Some (_day_start_iso BudgetDemo.today))
      (audit_log s) = 4080 ∧
    calls s !! 2%nat = Some (Known BudgetDemo.today 80).
Proof.
  eexists. split; [apply (BudgetDemo.ran _ _ BudgetDemo.unmetered); vm_compute; reflexivity|].
  vm_compute; split_and!; reflexivity.
Qed.

(** A reservation is settled with the clock of the settlement.  When midnight
    falls between the two, the new day's counter is given back a reservation it
    never took: the trail of the new day has 580 tokens, its counter says 0,
    and the old day's counter keeps a reservation of 1100 for ever. *)
Theorem refund_crosses_midnight :
  let evening := BudgetDemo.june 2 10 in
  let morning := BudgetDemo.june 3 0 in
  let db := <[_day_key "acme::bot" evening := 0]> (<[_day_key "acme::bot" morning := 500]> ∅) in
  let db := add_delta (H := redis_backend) false false "acme::bot" 1100 evening db in
  let db := add_delta (H := redis_backend) false false "acme::bot" (80 - 1100) morning db in
  db !! _day_key "acme::bot" evening = Some 1100 ∧
  db !! _day_key "acme::bot" morning = Some 0 ∧
  sum_principal_tokens_since BudgetDemo.json_loads "acme::bot" (Some (_day_start_iso morning))
    [BudgetDemo.usage morning 300 200; BudgetDemo.usage morning 50 30] = 580.
Proof. vm_compute. split_and!; reflexivity. Qed.

