(* ===== verification/Policy.v ===== *)
(** * The policy decision point

    [mcp_proxy/policy/tool_call.py] (the decision on one tool call),
    [mcp_proxy/policy/federation.py] (asking the Mastio of another
    organisation and intersecting both decisions), the endpoint
    [mcp_proxy/main.py:policy_tool_call] that composes them and records the
    outcome, and [mcp_proxy/policy/local_eval.py] (message policies inside one
    organisation).  [json.loads] is a parameter, [None] where it raises a
    [JSONDecodeError]; bodies are UTF-8 texts.  What the network gives back is
    a [remote_reply]. *)

From S2P Require Import Prelude Sha256 Json AuditCanon AuditLog AuditChain.
From Stdlib Require Import QArith.
Open Scope Z_scope.

(** ** One tool call *)

Record ToolCallDecision := {
  allowed : bool;
  reason : string;
  scope : option fields;
  rate_limit : option fields;
  obligations : option fields;
}.

Definition deny (why : string) : ToolCallDecision :=
  {| allowed := false; reason := why; scope := None; rate_limit := None; obligations := None |}.

(** [rule.get(k, [])] as a list of its elements; [None] when it is no list. *)
Definition list_field (k : string) (rule : fields) : option (list json) :=
  as_list (default (JList []) (get k rule)).

(** [x in rule.get(k, [])] where an empty or ill-typed list excludes nothing. *)
Definition excluded_by (k : string) (x : string) (rule : fields) : bool :=
  match list_field k rule with
  | Some ((_ :: _) as l) => negb (str_in x l)
  | _ => false
  end.

Definition in_denylist (principal_id : string) (rule : fields) : bool :=
  match list_field "denied_principals" rule with Some l => str_in principal_id l | None => false end.

(** A text member of an optional dict. *)
Definition str_member (k : string) (d : option fields) : option string :=
  (d ≫= get k) ≫= as_str.

(** [not x or x not in l], for a non-empty list [l]. *)
Definition missing_or_excluded (k : string) (x : option string) (rule : fields) : bool :=
  match list_field k rule with
  | Some ((_ :: _) as l) => negb (truthy x) || negb (str_in (or_empty x) l)
  | _ => false
  end.

(** [json.loads(policy_rules)["tool_rules"]] where everything else counts as
    no rules; a JSON value that is not an object has no [get]. *)
Definition load_tool_rules (json_loads : string → option json) (rules_raw : option string)
    : outcome fields :=
  let! rules :=
    match rules_raw with
    | None | Some EmptyString => Ret []
    | Some s => match json_loads s with
                | None => Ret []
                | Some (JObj rules) => Ret rules
                | Some _ => Raise AttributeError
                end
    end in
  Ret (default [] (get "tool_rules" rules ≫= as_obj)).

Definition decide_rule (tool_name principal_id : string) (model invocation : option fields)
    (rule : fields) : ToolCallDecision :=
  let at_ := "tool_rules." +:+ tool_name in
  let model_id := str_member "id" model in
  let server_id := str_member "mcp_server_id" invocation in
  if in_denylist principal_id rule then
    deny ("principal '" +:+ principal_id +:+ "' in " +:+ at_ +:+ ".denied_principals")
  else if excluded_by "allowed_principals" principal_id rule then
    deny ("principal '" +:+ principal_id +:+ "' not in " +:+ at_ +:+ ".allowed_principals")
  else if missing_or_excluded "allowed_models" model_id rule then
    deny ("model '" +:+ py_str model_id +:+ "' not in " +:+ at_ +:+ ".allowed_models")
  else if missing_or_excluded "allowed_mcp_servers" server_id rule then
    deny ("mcp_server '" +:+ py_str server_id +:+ "' not in " +:+ at_ +:+ ".allowed_mcp_servers")
  else
    {| allowed := true; reason := "allowed by " +:+ at_;
       scope := get "scope" rule ≫= as_obj; rate_limit := get "rate_limit" rule ≫= as_obj;
       obligations := get "obligations" rule ≫= as_obj |}.

Definition evaluate_tool_call_policy (json_loads : string → option json)
    (rules_raw : option string) (principal_id : string) (model invocation : option fields)
    : outcome ToolCallDecision :=
  let! tool_rules := load_tool_rules json_loads rules_raw in
  match tool_rules with
  | [] => Ret {| allowed := true; reason := "no tool_rules configured (default-allow legacy mode)";
                 scope := None; rate_limit := None; obligations := None |}
  | _ =>
      match str_member "tool_name" invocation with
      | None | Some EmptyString => Ret (deny "invocation.tool_name missing")
      | Some tool_name =>
          match get tool_name tool_rules with
          | None => Ret (deny ("tool '" +:+ tool_name +:+ "' not in tool_rules (explicit-allow mode)"))
          | Some (JObj rule) => Ret (decide_rule tool_name principal_id model invocation rule)
          | Some _ => Ret (deny ("tool_rules." +:+ tool_name +:+ " entry is not a dict"))
          end
      end
  end.

(** ** Asking the other organisation *)

(** [transport error] carries the text of the exception; a reply its status,
    the size of its body and the body as JSON when it parses. *)
Inductive remote_reply :=
| UnsafeUrl
| TimedOut
| TransportError (msg : string)
| Reply (status_code : Z) (size : Z) (body : option json).

Record FederationResult := { fr_decision : ToolCallDecision; reached_remote : bool }.

Definition _MAX_RESPONSE_BODY : Z := 4096.

(** [s.lower()], as far as a comparison with an ASCII text can see. *)
Fixpoint ascii_lower (s : string) : string :=
  match s with
  | EmptyString => ""
  | String c s' =>
      let n := N_of_ascii c in
      String (if (N.leb 65 n && N.leb n 90)%bool then ascii_of_N (n + 32) else c) (ascii_lower s')
  end.

Definition call_remote_tool_call_policy (target_org : string) (reply : remote_reply)
    : outcome FederationResult :=
  let refuse why reached := Ret {| fr_decision := deny why; reached_remote := reached |} in
  let to_org := "federation to org '" +:+ target_org +:+ "'" in
  match reply with
  | UnsafeUrl => refuse (to_org +:+ " refused: unsafe URL") false
  | TimedOut => refuse (to_org +:+ " timed out after 5.0s") false
  | TransportError msg => refuse (to_org +:+ " transport error: " +:+ msg) false
  | Reply status size body =>
      if status =? 404 then
        Ret {| fr_decision :=
                 {| allowed := true;
                    reason := "target org '" +:+ target_org +:+ "' has tool PDP disabled (404)";
                    scope := None; rate_limit := None; obligations := None |};
               reached_remote := true |}
      else if (status =? 401) || (status =? 403) then
        refuse (to_org +:+ " rejected: HTTP " +:+ pretty status) false
      else if negb (status =? 200) then
        refuse (to_org +:+ " returned HTTP " +:+ pretty status) false
      else if _MAX_RESPONSE_BODY <? size then
        refuse ("federation response too large (" +:+ pretty size +:+ " bytes)") true
      else
        match body with
        | None => refuse (to_org +:+ " returned non-JSON body") true
        | Some (JObj data) =>
            let ok := bool_decide
              (ascii_lower (str_of (default (JStr "deny") (get "decision" data))) = "allow") in
            let why := take_chars 512 (str_of (default (JStr "") (get "reason" data))) in
            Ret {| fr_decision :=
                     {| allowed := ok;
                        reason := if bool_decide (why = "")
                                  then (if ok then "allowed by remote" else "denied by remote")
                                  else why;
                        scope := get "scope" data ≫= as_obj;
                        rate_limit := get "rate_limit" data ≫= as_obj;
                        obligations := get "obligations" data ≫= as_obj |};
                   reached_remote := true |}
        | Some _ => Raise AttributeError
        end
  end.

(** ** Intersecting two decisions *)

(** [set(l)] as a list without repetitions, first occurrences kept; an element
    without a hash raises. *)
Fixpoint py_set_from (seen l : list json) : outcome (list json) :=
  match l with
  | [] => Ret seen
  | v :: rest =>
      if negb (hashable v) then Raise TypeError
      else py_set_from (if existsb (json_eq v) seen then seen else seen ++ [v]) rest
  end.
Definition py_set (l : list json) : outcome (list json) := py_set_from [] l.

(** [a & b] iterates over the smaller set. *)
Definition set_inter (a b : list json) : list json :=
  let '(so, other) := if (length a <? length b)%nat then (b, a) else (a, b) in
  List.filter (λ v, existsb (json_eq v) so) other.

Definition num_le (x y : Q * json) : Prop := Qle_bool (fst x) (fst y) = true.
#[export] Instance num_le_dec : RelDecision num_le.
Proof. intros x y. unfold num_le. apply _. Defined.
Definition text_le (x y : string) : Prop := String.leb x y = true.
#[export] Instance text_le_dec : RelDecision text_le.
Proof. intros x y. unfold text_le. apply _. Defined.

(** [sorted(l)]: texts by code point, numbers by value; comparing values of
    different kinds raises. *)
Definition py_sorted (l : list json) : outcome (list json) :=
  match l with
  | [] | [_] => Ret l
  | _ =>
      match mapM as_str l with
      | Some texts => Ret (JStr <$> merge_sort text_le texts)
      | None =>
          match mapM (λ v, n ← num_of v; Some (n, v)) l with
          | Some nums => Ret (snd <$> merge_sort num_le nums)
          | None => Raise TypeError
          end
      end
  end.

(** [isinstance(v, int) and v > 0] *)
Definition positive_int (v : json) : option (Z * json) :=
  match as_int v with Some n => if 0 <? n then Some (n, v) else None | None => None end.

(** [min(vals)]: the first of the least values. *)
Definition least (vals : list (Z * json)) : option json :=
  snd <$> foldl (λ acc v, match acc with
                          | Some m => if fst v <? fst m then Some v else Some m
                          | None => Some v end) None vals.

(** [min] of the positive integers under [k], as a field when there is one. *)
Definition min_field (k : string) (a b : fields) : fields :=
  match least (omap positive_int [get_none k a; get_none k b]) with
  | Some v => [(k, v)]
  | None => []
  end.

Definition or_none (d : fields) : option fields := match d with [] => None | _ => Some d end.

(** [_intersect_*(a, b)] where one side is absent. *)
Definition intersect_with (f : fields → fields → outcome (option fields))
    (a b : option fields) : outcome (option fields) :=
  match a, b with
  | None, _ => Ret b
  | _, None => Ret a
  | Some a, Some b => f a b
  end.

Definition tools_allowed (a b : fields) : outcome fields :=
  match as_list (get_none "tools_allowed" a), as_list (get_none "tools_allowed" b) with
  | Some la, Some lb =>
      let! sa := py_set la in let! sb := py_set lb in
      let! l := py_sorted (set_inter sa sb) in Ret [("tools_allowed", JList l)]
  | Some l, None | None, Some l => Ret [("tools_allowed", JList l)]
  | None, None => Ret []
  end.

Definition tools_denied (a b : fields) : outcome fields :=
  let side d := default [] (as_list (get_none "tools_denied" d)) in
  let! denied := py_set_from [] (side a) in
  let! denied := py_set_from denied (side b) in
  match denied with
  | [] => Ret []
  | _ => let! l := py_sorted denied in Ret [("tools_denied", JList l)]
  end.

Definition _intersect_scope : option fields → option fields → outcome (option fields) :=
  intersect_with (λ a b,
    let! allowed := tools_allowed a b in
    let! denied := tools_denied a b in
    Ret (or_none (allowed ++ denied ++ min_field "max_session_duration_s" a b))).

Definition _intersect_rate_limit : option fields → option fields → outcome (option fields) :=
  intersect_with (λ a b, Ret (or_none (min_field "per_minute" a b ++ min_field "per_day" a b))).

Definition visibility_rank (v : json) : option nat :=
  if is_str "full" v then Some 2%nat else if is_str "redacted" v then Some 1%nat
  else if is_str "off" v then Some 0%nat else None.

(** [d.get("trace_visibility", "redacted")], an unknown value being redacted;
    a value without a hash cannot be looked up in [rank]. *)
Definition visibility (d : fields) : outcome (nat * json) :=
  let v := default (JStr "redacted") (get "trace_visibility" d) in
  if negb (hashable v) then Raise TypeError
  else match visibility_rank v with Some r => Ret (r, v) | None => Ret (1%nat, JStr "redacted") end.

Definition _intersect_obligations : option fields → option fields → outcome (option fields) :=
  intersect_with (λ a b,
    let! (ra, va) := visibility a in
    let! (rb, vb) := visibility b in
    let confirm d := py_bool (get_none "require_user_confirmation" d) in
    Ret (Some [("require_user_confirmation", JBool (confirm a || confirm b));
               ("trace_visibility", if (ra <=? rb)%nat then va else vb)])).

Definition intersect_decisions (local remote : ToolCallDecision) : outcome ToolCallDecision :=
  if negb (allowed local) then Ret local
  else if negb (allowed remote) then Ret remote
  else
    let! scope := _intersect_scope (scope local) (scope remote) in
    let! rate_limit := _intersect_rate_limit (rate_limit local) (rate_limit remote) in
    let! obligations := _intersect_obligations (obligations local) (obligations remote) in
    Ret {| allowed := true;
           reason := "local: " +:+ reason local +:+ "; remote: " +:+ reason remote;
           scope := scope; rate_limit := rate_limit; obligations := obligations |}.

Example intersect_limits :
  _intersect_rate_limit (Some [("per_minute", JInt 10); ("per_day", JFloat "100.0" 100)])
                        (Some [("per_minute", JInt 5); ("per_day", JInt 0)])
  = Ret (Some [("per_minute", JInt 5)]).
Proof. reflexivity. Qed.

Example intersect_scopes :
  _intersect_scope
    (Some [("tools_allowed", JList (JStr <$> ["c"; "b"; "a"]));
           ("max_session_duration_s", JInt 600)])
    (Some [("tools_allowed", JList (JStr <$> ["b"; "d"; "a"]));
           ("tools_denied", JList [JStr "x"; JStr "x"])])
  = Ret (Some [("tools_allowed", JList (JStr <$> ["a"; "b"])); ("tools_denied", JList [JStr "x"]);
               ("max_session_duration_s", JInt 600)]).
Proof. vm_compute. reflexivity. Qed.

(** ** The endpoint *)

Section Endpoint.
Context `{Hash} (json_loads : string → option json).

(** What the endpoint reads around the request: the settings, the stored
    rules, the catalog of federation URLs, the reply of the organisation at a
    URL, and the surroundings of the audit call. *)
Record pdp_env := {
  tool_pdp_enabled : bool;
  pdp_webhook_hmac_secret : string;
  org_id : option string;
  policy_rules : option string;
  resolve : string → option string;
  remote : string → fields → remote_reply;
  audit : audit_env;
  database : nat → db_event;
}.

Record pdp_request := { raw_body : string; x_atn_signature : string }.

(** [v if isinstance(v, dict) else {}] *)
Definition dict_member (k : string) (body : fields) : fields := default [] (get k body ≫= as_obj).

(** The text of a tool name in the audit row; for a value that is no text, the
    text that is hashed. *)
Definition audit_text (v : json) : option string :=
  match v with JNull => None | _ => Some (str_of v) end.

Definition check_signature (env : pdp_env) (req : pdp_request) : outcome unit :=
  if bool_decide (pdp_webhook_hmac_secret env = "") then Ret tt else
  let expected := to_hex (hmac (pdp_webhook_hmac_secret env) (raw_body req)) in
  if bool_decide (x_atn_signature req = "") then Raise (HTTPException 401 "invalid signature") else
  let! same := compare_digest (JStr (x_atn_signature req)) expected in
  if same then Ret tt else Raise (HTTPException 401 "invalid signature").

Definition parse_body (req : pdp_request) : outcome fields :=
  if bool_decide (raw_body req = "") then Ret [] else
  match json_loads (raw_body req) with
  | None => Raise (HTTPException 400 "invalid JSON")
  | Some (JObj body) => Ret body
  | Some _ => Raise (HTTPException 400 "body must be a JSON object")
  end.

(** The organisation that has to agree: the target's, when it is not ours. *)
Definition foreign_target (env : pdp_env) (body : fields) : option string :=
  match str_member "org" (Some (dict_member "target" body)), org_id env with
  | Some (String _ _ as target), Some (String _ _ as self) =>
      if bool_decide (target = self) then None else Some target
  | _, _ => None
  end.

(** The decision and whether the other organisation was reached. *)
Definition federate (env : pdp_env) (body : fields) (local : ToolCallDecision)
    : outcome (ToolCallDecision * bool) :=
  match (if allowed local then foreign_target env body else None) with
  | None => Ret (local, false)
  | Some target =>
      match resolve env target with
      | None | Some EmptyString =>
          Ret (deny ("cross-org target '" +:+ target +:+ "' has no federation URL (env override "
                     +:+ "missing AND Court registry has not published one for this org); default-deny"),
               false)
      | Some url =>
          let! result := call_remote_tool_call_policy target (remote env url body) in
          let! decision := intersect_decisions local (fr_decision result) in
          Ret (decision, reached_remote result)
      end
  end.

Definition decide_request (env : pdp_env) (body : fields) : outcome (ToolCallDecision * bool) :=
  let principal := dict_member "principal" body in
  let! local := evaluate_tool_call_policy json_loads (policy_rules env)
    (str_of (default (JStr "") (get "id" principal)))
    (get "model" body ≫= as_obj)
    (match dict_member "invocation" body with [] => None | i => Some i end) in
  federate env body local.

Definition audit_details (body : fields) (decision : ToolCallDecision) (federated : bool) : fields :=
  let principal := dict_member "principal" body in
  let invocation := dict_member "invocation" body in
  let optional k out member :=
    match get k body ≫= as_obj with Some d => [(out, get_none member d)] | None => [] end in
  [("principal_type", get_none "type" principal); ("tool_name", get_none "tool_name" invocation);
   ("mcp_server_id", get_none "mcp_server_id" invocation); ("reason", JStr (reason decision))]
  ++ optional "model" "model" "id" ++ optional "target" "target" "id"
  ++ optional "context" "session_id" "session_id"
  ++ (if federated then [("federated", JBool true)] else []).

Definition verdict_text (d : ToolCallDecision) : string := if allowed d then "allow" else "deny".

Definition tool_call_audit (body : fields) (decision : ToolCallDecision) (federated : bool)
    : audit_call :=
  {| c_agent_id := str_of (default (JStr "?") (get "id" (dict_member "principal" body)));
     c_action := "policy.tool_call"; c_status := verdict_text decision;
     c_tool_name := audit_text (get_none "tool_name" (dict_member "invocation" body));
     c_detail := None; c_details := Some (JObj (audit_details body decision federated));
     c_request_id := None; c_duration_ms := None; c_dpop_jkt := None;
     c_on_behalf_of_user_id := None |}.

(** [if d: resp[k] = d] *)
Definition echo (k : string) (d : option fields) : fields :=
  match d with Some ((_ :: _) as f) => [(k, JObj f)] | _ => [] end.

Definition response (d : ToolCallDecision) : fields :=
  [("decision", JStr (verdict_text d)); ("reason", JStr (reason d))]
  ++ echo "scope" (scope d) ++ echo "rate_limit" (rate_limit d) ++ echo "obligations" (obligations d).

Definition policy_tool_call (env : pdp_env) (req : pdp_request) (w : world)
    : outcome fields * world :=
  if negb (tool_pdp_enabled env) then (Raise (HTTPException 404 "tool-level PDP disabled"), w) else
  match (let! _ := check_signature env req in let! body := parse_body req in
         let! decided := decide_request env body in Ret (body, decided)) with
  | Raise e => (Raise e, w)
  | Ret (body, (decision, federated)) =>
      match log_audit (audit env) (tool_call_audit body decision federated) (database env) w with
      | (Raise e, w') => (Raise e, w')
      | (Ret _, w') => (Ret (response decision), w')
      end
  end.
End Endpoint.

(** ** What a decision means *)

(** The rule of the tool lets the call through. *)
Record rule_permits (rule : fields) (principal_id : string) (model invocation : option fields)
    : Prop := {
  not_denied : ∀ l, list_field "denied_principals" rule = Some l → JStr principal_id ∉ l;
  principal_listed : ∀ l, list_field "allowed_principals" rule = Some l → l ≠ [] →
    JStr principal_id ∈ l;
  model_listed : ∀ l, list_field "allowed_models" rule = Some l → l ≠ [] →
    ∃ m, str_member "id" model = Some m ∧ m ≠ "" ∧ JStr m ∈ l;
  server_listed : ∀ l, list_field "allowed_mcp_servers" rule = Some l → l ≠ [] →
    ∃ s, str_member "mcp_server_id" invocation = Some s ∧ s ≠ "" ∧ JStr s ∈ l;
}.

Lemma in_denylist_spec p rule :
  in_denylist p rule = false ↔
  ∀ l, list_field "denied_principals" rule = Some l → JStr p ∉ l.
Proof.
  unfold in_denylist. destruct (list_field _ rule) as [l|]; [|naive_solver].
  rewrite <- not_true_iff_false, str_in_spec. naive_solver.
Qed.

Lemma excluded_by_spec k x rule :
  excluded_by k x rule = false ↔ ∀ l, list_field k rule = Some l → l ≠ [] → JStr x ∈ l.
Proof.
  unfold excluded_by. destruct (list_field k rule) as [[|v l]|]; [naive_solver| |naive_solver].
  rewrite negb_false_iff, str_in_spec.
  split; [by intros ? ? [= <-]|]. intros Hl. by apply (Hl (v :: l)).
Qed.

Lemma missing_or_excluded_spec k x rule :
  missing_or_excluded k x rule = false ↔
  ∀ l, list_field k rule = Some l → l ≠ [] → ∃ s, x = Some s ∧ s ≠ "" ∧ JStr s ∈ l.
Proof.
  unfold missing_or_excluded. destruct (list_field k rule) as [[|v l]|]; [naive_solver| |naive_solver].
  rewrite orb_false_iff, !negb_false_iff, str_in_spec.
  split.
  - intros [Ht Hin] ? [= <-] _. destruct x as [[|a s]|]; try done. by exists (String a s).
  - intros Hl. by destruct (Hl (v :: l)) as ([|a s] & -> & ? & ?).
Qed.

Lemma decide_rule_allowed tool p model inv rule :
  allowed (decide_rule tool p model inv rule) = true ↔ rule_permits rule p model inv.
Proof.
  unfold decide_rule.
  destruct (in_denylist p rule) eqn:Hd; simpl.
  { split; [done|]. intros [Hn _ _ _]. apply in_denylist_spec in Hn. congruence. }
  destruct (excluded_by _ p rule) eqn:Hp; simpl.
  { split; [done|]. intros [_ Hn _ _]. apply excluded_by_spec in Hn. congruence. }
  destruct (missing_or_excluded "allowed_models" _ rule) eqn:Hm; simpl.
  { split; [done|]. intros [_ _ Hn _]. apply missing_or_excluded_spec in Hn. congruence. }
  destruct (missing_or_excluded "allowed_mcp_servers" _ rule) eqn:Hs; simpl.
  { split; [done|]. intros [_ _ _ Hn]. apply missing_or_excluded_spec in Hn. congruence. }
  split; [|done]. intros _. split.
  - by apply in_denylist_spec.
  - by apply excluded_by_spec.
  - by apply missing_or_excluded_spec.
  - by apply missing_or_excluded_spec.
Qed.

(** a tool call is allowed exactly when no tool rules are configured, or
    the tool has a rule, a dict, that does not list the principal as denied and
    whose non-empty lists of principals, models and servers contain the
    caller's; an empty list of allowed principals excludes nobody. *)
Theorem tool_call_allowed_iff json_loads rules_raw p model inv d :
  evaluate_tool_call_policy json_loads rules_raw p model inv = Ret d →
  allowed d = true ↔
  ∃ rules, load_tool_rules json_loads rules_raw = Ret rules ∧
    (rules = [] ∨
     ∃ tool rule, str_member "tool_name" inv = Some tool ∧ tool ≠ "" ∧
       get tool rules = Some (JObj rule) ∧ rule_permits rule p model inv).
Proof.
  unfold evaluate_tool_call_policy.
  destruct (load_tool_rules json_loads rules_raw) as [rules|]; cbn [obind]; [|done].
  assert (rules = [] ∨ rules ≠ []) as [->|Hne] by (destruct rules; auto).
  { intros [= <-]. split; [|done]. intros _. exists []. auto. }
  intros Hd. assert (match str_member "tool_name" inv with
    | None | Some EmptyString => d = deny "invocation.tool_name missing"
    | Some tool => match get tool rules with
                   | Some (JObj rule) => d = decide_rule tool p model inv rule
                   | _ => allowed d = false end end) as Hcase.
  { destruct rules as [|r rules]; [done|].
    destruct (str_member "tool_name" inv) as [[|a tool]|]; [congruence| |congruence].
    destruct (get (String a tool) (r :: rules)) as [[]|]; by injection Hd as <-. }
  clear Hd. split.
  - intros Ha. exists rules. split; [done|]. right.
    destruct (str_member "tool_name" inv) as [[|a tool]|]; [by subst| |by subst].
    destruct (get (String a tool) rules) as [[]|] eqn:Hg; try congruence. subst.
    eexists _, _. split_and!; [done|done|exact Hg|]. by apply decide_rule_allowed in Ha.
  - intros (? & [= <-] & [?|(tool & rule & Htool & Ht & Hg & Hp)]); [done|].
    rewrite Htool in Hcase. destruct tool; [done|]. rewrite Hg in Hcase. subst.
    by apply decide_rule_allowed.
Qed.

(** ** What an intersection permits *)

(** The constraints a scope, a rate limit and obligations state; an absent one
    states none. *)
Definition permits_tool (s : option fields) (tool : string) : bool :=
  match s with
  | None => true
  | Some d =>
      match as_list (get_none "tools_allowed" d) with Some l => str_in tool l | None => true end &&
      negb (str_in tool (default [] (as_list (get_none "tools_denied" d))))
  end.

Definition limit (k : string) (s : option fields) : option Z :=
  s ≫= λ d, fst <$> positive_int (get_none k d).

Definition confirmation (o : option fields) : bool :=
  match o with Some d => py_bool (get_none "require_user_confirmation" d) | None => false end.

Definition visible (o : option fields) : option nat :=
  o ≫= λ d, match visibility d with Ret (r, _) => Some r | Raise _ => None end.

Definition min_opt {A} (m : A → A → A) (x y : option A) : option A := union_with (λ a b, Some (m a b)) x y.

Lemma json_eq_text t v : json_eq (JStr t) v = is_str t v.
Proof. destruct v; simpl; try done. by apply bool_decide_ext; split. Qed.

Lemma exists_str t l : existsb (json_eq (JStr t)) l = str_in t l.
Proof.
  induction l as [|v l IH]; [done|]. cbn [existsb]. rewrite IH, json_eq_text.
  unfold str_in. simpl. f_equal. destruct v; simpl; try done. by apply bool_decide_ext; split.
Qed.

Lemma str_in_app t l l' : str_in t (l ++ l') = str_in t l || str_in t l'.
Proof. apply existsb_app. Qed.

Lemma str_in_cons t v l : str_in t (v :: l) = is_str t v || str_in t l.
Proof. unfold str_in. simpl. f_equal. destruct v; simpl; try done. by apply bool_decide_ext; split. Qed.

Lemma py_set_str t seen l s :
  py_set_from seen l = Ret s → str_in t s = str_in t seen || str_in t l.
Proof.
  revert seen. induction l as [|v l IH]; intros seen; cbn [py_set_from];
    [intros [= <-]; by rewrite orb_false_r|].
  destruct (negb _); [done|]. intros Hs. rewrite (IH _ Hs), str_in_cons.
  destruct (is_str t v) eqn:Hv.
  - apply is_str_inv in Hv as ->. rewrite exists_str. destruct (str_in t seen) eqn:Hin; simpl.
    + by rewrite Hin.
    + rewrite str_in_app, str_in_cons. simpl. rewrite bool_decide_eq_true_2 by done. by rewrite Hin.
  - destruct (existsb (json_eq v) seen); [done|]. rewrite str_in_app, str_in_cons, Hv. simpl.
    by rewrite orb_false_r.
Qed.

Lemma set_inter_str t a b : str_in t (set_inter a b) = str_in t a && str_in t b.
Proof.
  assert (∀ so other, str_in t (List.filter (λ v, existsb (json_eq v) so) other)
                      = str_in t so && str_in t other) as Hf.
  { intros so other. apply eq_true_iff_eq. rewrite andb_true_iff, !str_in_spec, elem_of_filter_bool.
    cbn beta. rewrite exists_str, str_in_spec. tauto. }
  unfold set_inter. destruct (_ <? _)%nat; rewrite Hf; [apply andb_comm|done].
Qed.

Lemma py_sorted_perm l l' : py_sorted l = Ret l' → l' ≡ₚ l.
Proof.
  unfold py_sorted. destruct l as [|v [|v' l]]; [by intros [= <-]..|].
  generalize (v :: v' :: l). clear v v' l. intros l.
  destruct (mapM as_str l) as [texts|] eqn:Ht.
  - intros [= <-]. assert (l = JStr <$> texts) as ->.
    { apply mapM_Some in Ht. induction Ht as [|v t l ts Hv _ IH]; [done|]. rewrite fmap_cons, <- IH.
      destruct v; by simplify_eq/=. }
    by rewrite merge_sort_Permutation.
  - destruct (mapM (λ v, n ← num_of v; Some (n, v)) l) as [nums|] eqn:Hn; [|done]. intros [= <-].
    assert (l = snd <$> nums) as ->.
    { apply mapM_Some in Hn. clear Ht. induction Hn as [|v n l ns Hv _ IH]; [done|]. rewrite fmap_cons, <- IH.
      destruct (num_of v); by simplify_eq/=. }
    by rewrite merge_sort_Permutation.
Qed.

Lemma py_sorted_str t l l' : py_sorted l = Ret l' → str_in t l' = str_in t l.
Proof.
  intros Hp%py_sorted_perm. apply eq_true_iff_eq. by rewrite !str_in_spec, Hp.
Qed.

(** The parts of an intersected scope. *)
Lemma tools_allowed_spec a b f t :
  tools_allowed a b = Ret f →
  (f = [] ∧ as_list (get_none "tools_allowed" a) = None ∧ as_list (get_none "tools_allowed" b) = None
   ∨ ∃ l, f = [("tools_allowed", JList l)] ∧
       str_in t l = match as_list (get_none "tools_allowed" a) with Some l => str_in t l | None => true end
                    && match as_list (get_none "tools_allowed" b) with Some l => str_in t l | None => true end).
Proof.
  unfold tools_allowed.
  destruct (as_list (get_none "tools_allowed" a)) as [la|], (as_list (get_none "tools_allowed" b)) as [lb|].
  - destruct (py_set la) as [sa|] eqn:Ha; simpl; [|done].
    destruct (py_set lb) as [sb|] eqn:Hb; simpl; [|done].
    destruct (py_sorted _) as [l|] eqn:Hl; simpl; [|done]. intros [= <-]. right. exists l. split; [done|].
    rewrite (py_sorted_str _ _ _ Hl), set_inter_str, (py_set_str _ _ _ _ Ha), (py_set_str _ _ _ _ Hb). done.
  - intros [= <-]. right. exists la. by rewrite andb_true_r.
  - intros [= <-]. right. by exists lb.
  - intros [= <-]. by left.
Qed.

Lemma tools_denied_spec a b f :
  tools_denied a b = Ret f →
  (f = [] ∨ ∃ l, f = [("tools_denied", JList l)]) ∧
  ∀ t, str_in t (default [] (as_list (get_none "tools_denied" f)))
       = str_in t (default [] (as_list (get_none "tools_denied" a)))
         || str_in t (default [] (as_list (get_none "tools_denied" b))).
Proof.
  unfold tools_denied. set (la := default [] _). set (lb := default [] (as_list (get_none _ b))).
  destruct (py_set_from [] la) as [sa|] eqn:Ha; simpl; [|done].
  destruct (py_set_from sa lb) as [sb|] eqn:Hb; simpl; [|done].
  assert (∀ t, str_in t sb = str_in t la || str_in t lb) as Hs.
  { intros t. by rewrite (py_set_str _ _ _ _ Hb), (py_set_str _ _ _ _ Ha). }
  destruct sb as [|v sb].
  - intros [= <-]. split; [by left|]. intros t. by rewrite <- Hs.
  - set (l0 := v :: sb) in *. clearbody l0. destruct (py_sorted l0) as [l|] eqn:Hl; simpl; [|done].
    intros [= <-]. split; [right; by exists l|]. intros t. rewrite <- Hs.
    rewrite <- (py_sorted_str _ _ _ Hl). done.
Qed.

Lemma least_two (x y : option (Z * json)) :
  match least (omap id [x; y]) with
  | Some v => ∃ n, min_opt Z.min (fst <$> x) (fst <$> y) = Some n ∧ (x = Some (n, v) ∨ y = Some (n, v))
  | None => x = None ∧ y = None
  end.
Proof.
  destruct x as [[n v]|], y as [[n' v']|]; simpl; eauto.
  unfold least. simpl. destruct (Z.ltb_spec n' n); simpl; exists (Z.min n n'); (split; [done|]).
  - rewrite Z.min_r by lia. auto.
  - rewrite Z.min_l by lia. auto.
Qed.

Lemma omap_pair (f : json → option (Z * json)) (x y : json) : omap f [x; y] = omap id [f x; f y].
Proof. done. Qed.

Lemma positive_int_val v p : positive_int v = Some p → snd p = v.
Proof. unfold positive_int. destruct (as_int v); [|done]. case_match; [|done]. by intros [= <-]. Qed.

(** The field [k] of an intersection: the lesser of the limits. *)
Lemma min_field_spec k a b :
  (min_field k a b = [] ∨ ∃ v, min_field k a b = [(k, v)]) ∧
  limit k (Some (min_field k a b)) = min_opt Z.min (limit k (Some a)) (limit k (Some b)).
Proof.
  unfold min_field, limit. cbn [mbind option_bind]. rewrite omap_pair.
  set (x := positive_int (get_none k a)). set (y := positive_int (get_none k b)).
  pose proof (least_two x y) as Hl. destruct (least (omap id [x; y])) as [v|].
  - destruct Hl as (n & -> & Hv). split; [right; by exists v|].
    assert (positive_int v = Some (n, v)) as Hpos.
    { destruct Hv as [Hv|Hv]; pose proof (positive_int_val _ _ Hv) as Heq; simpl in Heq; subst v; exact Hv. }
    unfold get_none at 1. simpl. rewrite bool_decide_eq_true_2 by done. simpl. by rewrite Hpos.
  - destruct Hl as [-> ->]. split; [by left|]. done.
Qed.

(** Fields under other keys do not count. *)
Lemma get_none_app k f g : get k f = None → get_none k (f ++ g) = get_none k g.
Proof.
  unfold get_none. induction f as [|[k' v] f IH]; [done|]. simpl. by destruct (bool_decide _).
Qed.

Lemma get_none_cut k f g : get k g = None → get_none k (f ++ g) = get_none k f.
Proof.
  unfold get_none. intros Hg. induction f as [|[k' v] f IH]; simpl; [by rewrite Hg|].
  by destruct (bool_decide _).
Qed.

(** A field list that holds at most the key [k]. *)
Definition only (k : string) (f : fields) : Prop := f = [] ∨ ∃ v, f = [(k, v)].

Lemma only_other k k' f : only k f → k' ≠ k → get k' f = None.
Proof.
  intros [->|[v ->]] Hne; [done|]. simpl. by rewrite bool_decide_eq_false_2.
Qed.

Lemma or_none_reads {A} (r : option fields → A) f :
  r None = r (Some []) → r (or_none f) = r (Some f).
Proof. by destruct f. Qed.

Lemma three_fields k1 k2 k3 f1 f2 f3 :
  only k1 f1 → only k2 f2 → only k3 f3 → NoDup [k1; k2; k3] →
  get_none k1 (f1 ++ f2 ++ f3) = get_none k1 f1 ∧ get_none k2 (f1 ++ f2 ++ f3) = get_none k2 f2 ∧
  get_none k3 (f1 ++ f2 ++ f3) = get_none k3 f3.
Proof.
  intros H1 H2 H3 Hnd. repeat setoid_rewrite NoDup_cons in Hnd. destruct Hnd as (Hn1 & Hn2 & _).
  apply not_elem_of_cons in Hn1 as [? Hn1]. apply not_elem_of_cons in Hn1 as [? _].
  apply not_elem_of_cons in Hn2 as [? _].
  assert (∀ k, get k f2 = None → get k f3 = None → get k (f2 ++ f3) = None) as Hnone.
  { intros k Hk2 Hk3. induction f2 as [|[k' v] f2 IH] in Hk2 |- *; simpl in *; [done|].
    destruct (bool_decide _); [done|auto]. }
  split_and!.
  - apply get_none_cut, Hnone; by eapply only_other.
  - rewrite get_none_app by (by eapply only_other). apply get_none_cut. by eapply only_other.
  - rewrite get_none_app by (by eapply only_other). apply get_none_app. by eapply only_other.
Qed.

Lemma absent_limit_l k b : min_opt Z.min (limit k None) (limit k b) = limit k b.
Proof. unfold min_opt. simpl. by destruct (limit k b). Qed.
Lemma absent_limit_r k a : min_opt Z.min (limit k a) (limit k None) = limit k a.
Proof. unfold min_opt. simpl. by destruct (limit k a). Qed.

Lemma limit_read k f f' : get_none k f = get_none k f' → limit k (Some f) = limit k (Some f').
Proof. unfold limit. simpl. by intros ->. Qed.

Lemma intersect_scope_spec a b s :
  _intersect_scope a b = Ret s →
  (∀ t, permits_tool s t = permits_tool a t && permits_tool b t) ∧
  limit "max_session_duration_s" s
  = min_opt Z.min (limit "max_session_duration_s" a) (limit "max_session_duration_s" b).
Proof.
  destruct a as [a|], b as [b|].
  2-4: intros [= <-]; rewrite ?absent_limit_l, ?absent_limit_r;
       split; [intros t; by rewrite ?andb_true_r|done].
  cbn [_intersect_scope intersect_with].
  destruct (tools_allowed a b) as [fa|] eqn:Ha; [|done]. cbn [obind].
  destruct (tools_denied a b) as [fd|] eqn:Hd; [|done]. cbn [obind]. intros [= <-].
  destruct (min_field_spec "max_session_duration_s" a b) as [Hm Hlim].
  set (fm := min_field _ a b) in *. destruct (tools_denied_spec _ _ _ Hd) as [Hod Hden].
  destruct (three_fields "tools_allowed" "tools_denied" "max_session_duration_s" fa fd fm)
    as (Ga & Gd & Gm).
  { destruct (tools_allowed_spec _ _ _ "" Ha) as [[-> _]|(l & -> & _)]; [by left|right; eauto]. }
  { destruct Hod as [->|[l ->]]; [by left|right; eauto]. }
  { done. }
  { apply (bool_decide_unpack _). vm_compute. exact I. }
  split.
  - intros t. rewrite or_none_reads by done. cbn [permits_tool]. rewrite Ga, Gd, Hden.
    destruct (tools_allowed_spec _ _ _ t Ha) as [(-> & -> & ->)|(l & -> & Hl)].
    + simpl. by rewrite negb_orb.
    + change (as_list (get_none "tools_allowed" [("tools_allowed", JList l)])) with (Some l).
      cbv iota. rewrite Hl, negb_orb.
      destruct (as_list (get_none "tools_allowed" a)), (as_list (get_none "tools_allowed" b));
        repeat match goal with |- context [str_in ?x ?l] => destruct (str_in x l) end; done.
  - rewrite (or_none_reads (limit "max_session_duration_s")) by done.
    exact (eq_trans (limit_read _ _ _ Gm) Hlim).
Qed.

Lemma intersect_rate_limit_spec a b r k :
  _intersect_rate_limit a b = Ret r → k = "per_minute" ∨ k = "per_day" →
  limit k r = min_opt Z.min (limit k a) (limit k b).
Proof.
  destruct a as [a|], b as [b|].
  2-4: by intros [= <-] _; rewrite ?absent_limit_l, ?absent_limit_r.
  cbn [_intersect_rate_limit intersect_with]. intros [= <-] Hk.
  destruct (min_field_spec "per_minute" a b) as [Hm Hlm].
  destruct (min_field_spec "per_day" a b) as [Hd Hld].
  destruct (three_fields "" "per_minute" "per_day" [] _ _ ltac:(by left) Hm Hd) as (_ & Gm & Gd).
  { apply (bool_decide_unpack _). vm_compute. exact I. }
  rewrite (or_none_reads (limit k)) by done. destruct Hk as [-> | ->].
  - exact (eq_trans (limit_read _ _ _ Gm) Hlm).
  - exact (eq_trans (limit_read _ _ _ Gd) Hld).
Qed.

Lemma visibility_ranked d r v : visibility d = Ret (r, v) → hashable v = true ∧ visibility_rank v = Some r.
Proof.
  unfold visibility. set (w := default _ _). destruct (hashable w) eqn:Hh; simpl; [|done].
  destruct (visibility_rank w) eqn:Hr; intros [= <- <-]; [done|]. by split.
Qed.

Lemma intersect_obligations_spec a b o :
  _intersect_obligations a b = Ret o →
  confirmation o = confirmation a || confirmation b ∧
  visible o = min_opt Nat.min (visible a) (visible b).
Proof.
  destruct a as [a|], b as [b|].
  2-4: intros [= <-]; unfold min_opt; simpl; rewrite ?orb_false_r; split; [done|by repeat case_match].
  cbn [_intersect_obligations intersect_with].
  destruct (visibility a) as [[ra va]|] eqn:Ha; [|done]. cbn [obind].
  destruct (visibility b) as [[rb vb]|] eqn:Hb; [|done]. cbn [obind]. intros [= <-]. split; [done|].
  unfold visible. cbn [mbind option_bind]. rewrite Ha, Hb. unfold min_opt.
  destruct (visibility_ranked _ _ _ Ha) as [Hha Hra], (visibility_ranked _ _ _ Hb) as [Hhb Hrb].
  assert (∀ c v r, hashable v = true → visibility_rank v = Some r →
    visibility [("require_user_confirmation", c); ("trace_visibility", v)] = Ret (r, v)) as Hv.
  { intros c v r Hh Hr. unfold visibility. simpl. by rewrite Hh, Hr. }
  destruct (Nat.leb_spec ra rb); erewrite Hv by done; simpl; f_equal; lia.
Qed.

(** two decisions allow together exactly what both allow.  The intersection
    is allowed when both are; a tool is within its scope exactly when it is
    within both scopes; the session duration and both rates are the lesser of
    the two (the only one, when one side states none); a confirmation is needed
    when one side needs it; traces are as visible as on the stricter side. *)
Theorem intersection_exact local remote d :
  intersect_decisions local remote = Ret d →
  allowed d = allowed local && allowed remote ∧
  (allowed d = true →
   (∀ t, permits_tool (scope d) t = permits_tool (scope local) t && permits_tool (scope remote) t) ∧
   limit "max_session_duration_s" (scope d)
   = min_opt Z.min (limit "max_session_duration_s" (scope local))
                   (limit "max_session_duration_s" (scope remote)) ∧
   (∀ k, k = "per_minute" ∨ k = "per_day" →
      limit k (rate_limit d) = min_opt Z.min (limit k (rate_limit local)) (limit k (rate_limit remote))) ∧
   confirmation (obligations d) = confirmation (obligations local) || confirmation (obligations remote) ∧
   visible (obligations d) = min_opt Nat.min (visible (obligations local)) (visible (obligations remote))).
Proof.
  unfold intersect_decisions.
  destruct (allowed local) eqn:Hl; simpl; [|intros [= <-]; by rewrite Hl].
  destruct (allowed remote) eqn:Hr; simpl; [|intros [= <-]; by rewrite Hr].
  destruct (_intersect_scope _ _) as [s|] eqn:Hs; simpl; [|done].
  destruct (_intersect_rate_limit _ _) as [r|] eqn:Hrl; simpl; [|done].
  destruct (_intersect_obligations _ _) as [o|] eqn:Ho; simpl; [|done].
  intros [= <-]. split; [done|]. intros _. simpl.
  destruct (intersect_scope_spec _ _ _ Hs), (intersect_obligations_spec _ _ _ Ho).
  split_and!; try done. intros k Hk. by eapply intersect_rate_limit_spec.
Qed.

(** ** What an answer of the endpoint means *)

Section Answers.
Context `{Hash} (json_loads : string → option json).

(** The other organisation has no decision point, or decided to allow. *)
Definition remote_agrees (r : remote_reply) : Prop :=
  (∃ size body, r = Reply 404 size body) ∨
  ∃ size data, r = Reply 200 size (Some (JObj data)) ∧ size <= _MAX_RESPONSE_BODY ∧
    ascii_lower (str_of (default (JStr "deny") (get "decision" data))) = "allow".

Lemma remote_allowed target r res :
  call_remote_tool_call_policy target r = Ret res → allowed (fr_decision res) = true → remote_agrees r.
Proof.
  unfold call_remote_tool_call_policy. destruct r as [| |msg|status size body]; try by intros [= <-].
  destruct (Z.eqb_spec status 404) as [->|]; [intros _ _; left; eauto|].
  destruct (_ || _); [by intros [= <-]|].
  destruct (Z.eqb_spec status 200) as [->|]; simpl; [|by intros [= <-]].
  destruct (Z.ltb_spec _MAX_RESPONSE_BODY size); [by intros [= <-]|].
  destruct body as [[]|]; try done; intros [= <-]; [|done]. simpl.
  intros Ha%bool_decide_eq_true_1. right. eauto.
Qed.

Lemma federate_allowed env body local d f :
  federate env body local = Ret (d, f) → allowed d = true →
  allowed local = true ∧
  ∀ target, foreign_target env body = Some target →
    ∃ url, resolve env target = Some url ∧ url ≠ "" ∧ remote_agrees (remote env url body).
Proof.
  unfold federate. intros Hf Ha.
  destruct (allowed local) eqn:Hl.
  2: { injection Hf as <- <-. congruence. }
  split; [done|]. intros target Ht. rewrite Ht in Hf.
  destruct (resolve env target) as [[|c url]|]; [injection Hf as <- <-; done| |injection Hf as <- <-; done].
  destruct (call_remote_tool_call_policy _ _) as [res|] eqn:Hres; cbn [obind] in Hf; [|done].
  destruct (intersect_decisions _ _) as [d'|] eqn:Hd; cbn [obind] in Hf; [|done].
  injection Hf as <- <-. exists (String c url). split_and!; [done..|].
  eapply remote_allowed; [done|]. unfold intersect_decisions in Hd. rewrite Hl in Hd. simpl in Hd.
  destruct (allowed (fr_decision res)) eqn:Har; [done|]. simpl in Hd. congruence.
Qed.

Lemma signature_checked env req :
  check_signature env req = Ret tt → pdp_webhook_hmac_secret env ≠ "" →
  x_atn_signature req = to_hex (hmac (pdp_webhook_hmac_secret env) (raw_body req)).
Proof.
  unfold check_signature. intros Hs Hne. rewrite bool_decide_eq_false_2 in Hs by done.
  destruct (bool_decide _); [done|]. unfold compare_digest in Hs.
  destruct (_ && _); [|done]. cbn [obind] in Hs. by case_bool_decide.
Qed.

(** An answer comes with the steps that led to it. *)
Lemma policy_tool_call_inv env req w r w' :
  policy_tool_call json_loads env req w = (r, w') →
  (∃ e, r = Raise e ∧ w' = w) ∨
  ∃ body decision federated, check_signature env req = Ret tt ∧ parse_body json_loads req = Ret body ∧
    decide_request json_loads env body = Ret (decision, federated) ∧
    log_audit (audit env) (tool_call_audit body decision federated) (database env) w
    = (match r with Ret _ => Ret tt | Raise e => Raise e end, w') ∧
    match r with Ret resp => resp = response decision | Raise _ => True end.
Proof.
  unfold policy_tool_call. destruct (negb _); [intros [= <- <-]; left; eauto|].
  destruct (check_signature env req) as [[]|] eqn:Hs; simpl; [|intros [= <- <-]; left; eauto].
  destruct (parse_body json_loads req) as [body|] eqn:Hb; simpl; [|intros [= <- <-]; left; eauto].
  destruct (decide_request json_loads env body) as [[d f]|] eqn:Hd; simpl; [|intros [= <- <-]; left; eauto].
  destruct (log_audit _ _ _ w) as [[[]|e] w1] eqn:Hl; intros [= <- <-]; right; exists body, d, f; eauto 8.
Qed.

Lemma response_decision d : get "decision" (response d) = Some (JStr (verdict_text d)).
Proof. done. Qed.

(** C33: an answer [allow] means that the rules of this organisation allow the
    request; that the request carries the signature of the shared secret when
    one is configured (without one the endpoint asks for no signature); and,
    when the target belongs to another organisation, that the endpoint of that
    organisation is known and answered [allow], or answered 404, which the code
    takes for an organisation without a decision point and for its consent. *)
Theorem allow_needs_both_sides env req w resp w' :
  policy_tool_call json_loads env req w = (Ret resp, w') →
  get "decision" resp = Some (JStr "allow") →
  (pdp_webhook_hmac_secret env ≠ "" →
     x_atn_signature req = to_hex (hmac (pdp_webhook_hmac_secret env) (raw_body req))) ∧
  ∃ body local,
    parse_body json_loads req = Ret body ∧
    evaluate_tool_call_policy json_loads (policy_rules env)
      (str_of (default (JStr "") (get "id" (dict_member "principal" body))))
      (get "model" body ≫= as_obj)
      (match dict_member "invocation" body with [] => None | i => Some i end) = Ret local ∧
    allowed local = true ∧
    ∀ target, foreign_target env body = Some target →
      ∃ url, resolve env target = Some url ∧ url ≠ "" ∧ remote_agrees (remote env url body).
Proof.
  intros Hcall Hallow.
  destruct (policy_tool_call_inv _ _ _ _ _ Hcall) as [(e & [=] & _)|(body & d & f & Hs & Hb & Hd & _ & ->)].
  split; [by apply signature_checked|].
  assert (allowed d = true) as Ha.
  { rewrite response_decision in Hallow. unfold verdict_text in Hallow. by destruct (allowed d). }
  unfold decide_request in Hd.
  destruct (evaluate_tool_call_policy _ _ _ _ _) as [local|] eqn:He; cbn [obind] in Hd; [|done].
  destruct (federate_allowed _ _ _ _ _ Hd Ha) as [Hl Hf]. exists body, local. split_and!; done.
Qed.

(** an answer of the endpoint is in the audit trail before it is given: when
    it returns, the trail holds the row of this call with the decision the
    answer states, unless the operator turned fail-deny off; when it raises,
    nothing was recorded; and the trail stays verifiable. *)
Theorem answer_is_recorded env req w r w' :
  chain_ok (w_table w) → benign_env (database env) (w_table w) →
  policy_tool_call json_loads env req w = (r, w') →
  chain_ok (w_table w') ∧
  match r with
  | Ret resp =>
      ∃ call, c_action call = "policy.tool_call" ∧
        get "decision" resp = Some (JStr (c_status call)) ∧
        (recorded (audit env) call w w' ∨ audit_fail_deny (audit env) = false ∧ unrecorded w w')
  | Raise _ => unrecorded w w'
  end.
Proof.
  intros Hok Hben Hcall.
  destruct (policy_tool_call_inv _ _ _ _ _ Hcall)
    as [(e & -> & ->)|(body & d & f & _ & _ & _ & Hlog & Hresp)].
  { split; [done|]. exists []. by rewrite app_nil_r. }
  pose proof (log_audit_spec (audit env) (tool_call_audit body d f) (database env) w Hok Hben) as Hpost.
  rewrite Hlog in Hpost. destruct Hpost as [Hc Hpost]. split; [done|]. simpl in Hpost.
  destruct r as [resp|e]; [|done]. subst resp.
  exists (tool_call_audit body d f). split_and!; [done..|exact Hpost].
Qed.
End Answers.

(** ** Message policies inside one organisation *)

(** A row of [local_policies]. *)
Record policy_row := {
  policy_id : string;
  p_org_id : option string;
  policy_type : option string;
  enabled : bool;
  rules_json : option string;
}.

Record LocalPolicyDecision := {
  lp_allowed : bool;
  lp_reason : string;
  lp_policy_id : option string;
}.

(** [f in payload] *)
Definition has_field (payload : fields) (f : json) : outcome bool :=
  if negb (hashable f) then Raise TypeError
  else Ret (match f with JStr k => has_key k payload | _ => false end).

(** [[f for f in l if test(f)]] *)
Fixpoint filterM (test : json → outcome bool) (l : list json) : outcome (list json) :=
  match l with
  | [] => Ret []
  | f :: rest =>
      let! keep := test f in let! kept := filterM test rest in
      Ret (if keep then f :: kept else kept)
  end.

(** [n > max_size] for the size [n] *)
Definition exceeds (n : Z) (max_size : json) : outcome bool :=
  match num_of max_size with
  | Some q => Ret (negb (Qle_bool (inject_Z n) q))
  | None => Raise TypeError
  end.

Definition refuse_message (policy why : string) : LocalPolicyDecision :=
  {| lp_allowed := false; lp_reason := why; lp_policy_id := Some policy |}.

Definition _evaluate_rules (rules payload : fields) (payload_json policy : string)
    : outcome (option LocalPolicyDecision) :=
  let size := Z.of_nat (String.length payload_json) in
  let! conditions := match py_or (get_none "conditions" rules) (JObj []) with
                     | JObj c => Ret c | _ => Raise AttributeError end in
  let max_size := get_none "max_payload_size_bytes" conditions in
  let! too_large := if is_none max_size then Ret false else exceeds size max_size in
  if too_large then
    Ret (Some (refuse_message policy
      ("payload too large: " +:+ pretty size +:+ "B > " +:+ str_of max_size +:+ "B")))
  else
    let! required := py_iter (py_or (get_none "required_fields" conditions) (JList [])) in
    let! missing := filterM (λ f, let! b := has_field payload f in Ret (negb b)) required in
    match missing with
    | _ :: _ => Ret (Some (refuse_message policy ("required fields missing: " +:+ repr (JList missing))))
    | [] =>
        let! blocked := py_iter (py_or (get_none "blocked_fields" conditions) (JList [])) in
        let! present := filterM (has_field payload) blocked in
        match present with
        | _ :: _ => Ret (Some (refuse_message policy ("blocked fields present: " +:+ repr (JList present))))
        | [] =>
            if is_str "deny" (default (JStr "allow") (get "effect" rules))
            then Ret (Some (refuse_message policy "explicitly denied by policy"))
            else Ret None
        end
    end.

Section Messages.
Context (json_loads : string → option json).

(** [enabled = 1 AND (policy_type = 'message' OR policy_type IS NULL) AND
    (org_id = :org_id OR org_id IS NULL)] *)
Definition applies (org : string) (p : policy_row) : bool :=
  enabled p && bool_decide (policy_type p = Some "message" ∨ policy_type p = None)
  && bool_decide (p_org_id p = Some org ∨ p_org_id p = None).

Definition _load_message_policies (org : string) (table : list policy_row) : list (string * fields) :=
  omap (λ p, match rules_json p ≫= json_loads with
             | Some (JObj rules) => Some (policy_id p, rules)
             | _ => None end)
       (List.filter (applies org) table).

Fixpoint first_verdict (policies : list (string * fields)) (payload : fields) (payload_json : string)
    : outcome LocalPolicyDecision :=
  match policies with
  | [] => Ret {| lp_allowed := true; lp_reason := "no rule violated — default allow";
                 lp_policy_id := None |}
  | (policy, rules) :: rest =>
      let! verdict := _evaluate_rules rules payload payload_json policy in
      match verdict with
      | Some d => Ret d
      | None => first_verdict rest payload payload_json
      end
  end.

Definition evaluate_local_message (org : string) (payload : fields) (table : list policy_row)
    : outcome LocalPolicyDecision :=
  match _load_message_policies org table with
  | [] => Ret {| lp_allowed := true; lp_reason := "no local message policy — default allow";
                 lp_policy_id := None |}
  | policies => first_verdict policies payload (dumps (JObj payload))
  end.

(** The conditions of a policy. *)
Definition conditions_of (rules : fields) : fields :=
  match py_or (get_none "conditions" rules) (JObj []) with JObj c => c | _ => [] end.

Definition names_under (k : string) (rules : fields) : outcome (list json) :=
  py_iter (py_or (get_none k (conditions_of rules)) (JList [])).

(** What a policy demands of a payload. *)
Record tolerates (rules payload : fields) : Prop := {
  tol_size : ∀ q, num_of (get_none "max_payload_size_bytes" (conditions_of rules)) = Some q →
    Qle (inject_Z (Z.of_nat (String.length (dumps (JObj payload))))) q;
  tol_required : ∀ names f, names_under "required_fields" rules = Ret names → f ∈ names →
    ∃ k, f = JStr k ∧ has_key k payload = true;
  tol_blocked : ∀ names k, names_under "blocked_fields" rules = Ret names → JStr k ∈ names →
    has_key k payload = false;
  tol_effect : get "effect" rules ≠ Some (JStr "deny");
}.

Lemma filterM_nil test l :
  filterM test l = Ret [] ↔ Forall (λ f, test f = Ret false) l.
Proof.
  induction l as [|f l IH]; cbn [filterM]; [by split|]. rewrite Forall_cons, <- IH. cbn beta.
  destruct (test f) as [[]|]; simpl; [|destruct (filterM test l) as [kept|]; simpl|].
  - split; [destruct (filterM test l); simpl; congruence|]. by intros [[=] _].
  - split; [by intros [= ->]|]. by intros [_ [= ->]].
  - split; [done|]. by intros [_ [=]].
  - split; [done|]. by intros [[=] _].
Qed.

Lemma filterM_cons test l f kept : filterM test l = Ret (f :: kept) → f ∈ l ∧ test f = Ret true.
Proof.
  revert f kept. induction l as [|v l IH]; intros f kept; simpl; [done|].
  destruct (test v) as [[]|] eqn:Hv; simpl; [| |done]; destruct (filterM test l) as [kept'|] eqn:Hk;
    simpl; try done.
  - intros [= -> ->]. split; [left|done].
  - intros [= ->]. destruct (IH _ _ eq_refl). split; [by right|done].
Qed.

Lemma has_field_spec payload f b :
  has_field payload f = Ret b → (b = true ↔ ∃ k, f = JStr k ∧ has_key k payload = true).
Proof.
  unfold has_field. destruct (hashable f); simpl; [|done]. intros [= <-].
  destruct f; naive_solver.
Qed.

Lemma rules_verdict rules payload policy v :
  _evaluate_rules rules payload (dumps (JObj payload)) policy = Ret v →
  match v with
  | None => tolerates rules payload
  | Some d => lp_allowed d = false ∧ lp_policy_id d = Some policy ∧ ¬ tolerates rules payload
  end.
Proof.
  unfold _evaluate_rules.
  destruct (py_or (get_none "conditions" rules) (JObj [])) as [| | | | | |c] eqn:Hc; try done.
  assert (conditions_of rules = c) as Hcond by (unfold conditions_of; by rewrite Hc).
  cbn [obind]. set (size := Z.of_nat _). set (max := get_none "max_payload_size_bytes" c).
  destruct (if is_none max then Ret false else exceeds size max) as [large|] eqn:Hlarge; [|done].
  cbn [obind]. assert (large = true → ¬ tolerates rules payload) as Hbig.
  { intros -> [Hsize _ _ _]. rewrite Hcond in Hsize. fold max in Hsize. unfold exceeds in Hlarge.
    destruct (is_none max), (num_of max) as [q|]; try done. injection Hlarge as Hq%negb_true_iff.
    specialize (Hsize q eq_refl). fold size in Hsize. apply Qle_bool_iff in Hsize. congruence. }
  destruct large; [intros [= <-]; split_and!; auto|].
  rewrite <- Hcond. fold (names_under "required_fields" rules) (names_under "blocked_fields" rules).
  destruct (names_under "required_fields" rules) as [required|] eqn:Hreq; [|done]. cbn [obind].
  destruct (filterM (λ f, let! b := has_field payload f in Ret (negb b)) required)
    as [[|f missing]|] eqn:Hmiss; [| |done]; cbn [obind].
  2: { intros [= <-]. split_and!; [done..|]. intros [_ Hr _ _].
       apply filterM_cons in Hmiss as [Hin Hf]. destruct (has_field payload f) as [b|] eqn:Hb; [|done].
       injection Hf as Hb'%negb_true_iff. apply has_field_spec in Hb as [_ Hb].
       rewrite Hb in Hb' by eauto. done. }
  destruct (names_under "blocked_fields" rules) as [blocked|] eqn:Hblk; [|done]. cbn [obind].
  destruct (filterM (has_field payload) blocked) as [[|f present]|] eqn:Hpres; [| |done]; cbn [obind].
  2: { intros [= <-]. split_and!; [done..|]. intros [_ _ Hr _].
       apply filterM_cons in Hpres as [Hin Hf]. apply has_field_spec in Hf as [Hk _].
       destruct (Hk eq_refl) as (k & -> & Htrue). rewrite (Hr _ _ Hblk Hin) in Htrue. done. }
  destruct (is_str "deny" _) eqn:Heff; intros [= <-].
  - split_and!; [done..|]. intros [_ _ _ Hr]. apply Hr. destruct (get "effect" rules) as [v|]; [|done].
    simpl in Heff. by apply (is_str_inv "deny" v) in Heff as ->.
  - apply filterM_nil in Hmiss, Hpres. rewrite Forall_forall in Hmiss, Hpres. split.
    + intros q Hq. rewrite Hcond in Hq. fold max in Hq. fold size. unfold exceeds in Hlarge.
      rewrite Hq in Hlarge. destruct max; try done; simpl in Hlarge;
        injection Hlarge as Hlarge%negb_false_iff; by apply Qle_bool_iff.
    + intros names f Hn Hin. rewrite Hreq in Hn. injection Hn as <-. specialize (Hmiss f Hin). simpl in Hmiss.
      destruct (has_field payload f) as [b|] eqn:Hb; [|done].
      injection Hmiss as ->%negb_false_iff. by apply has_field_spec in Hb as [Hb _]; auto.
    + intros names k Hn Hin. rewrite Hblk in Hn. injection Hn as <-. specialize (Hpres _ Hin). apply has_field_spec in Hpres as [_ Hp].
      destruct (has_key k payload) eqn:Hk; [|done]. symmetry. apply Hp. eauto.
    + intros Hd. by rewrite Hd in Heff.
Qed.

Lemma first_verdict_spec policies payload d :
  first_verdict policies payload (dumps (JObj payload)) = Ret d →
  if lp_allowed d then ∀ p rules, (p, rules) ∈ policies → tolerates rules payload
  else ∃ p rules, (p, rules) ∈ policies ∧ lp_policy_id d = Some p ∧ ¬ tolerates rules payload.
Proof.
  induction policies as [|[p rules] rest IH]; cbn [first_verdict].
  { intros [= <-]. simpl. intros p rules Hin. inversion Hin. }
  destruct (_evaluate_rules rules payload _ p) as [[d'|]|] eqn:He; [| |done]; cbn [obind];
    apply rules_verdict in He.
  - intros [= ->]. destruct He as (-> & Hid & Hno). exists p, rules. split_and!; [left|done..].
  - intros Hd. specialize (IH Hd). destruct (lp_allowed d).
    + intros p' rules' [[= -> ->]|Hin]%elem_of_cons; [done|by eapply IH].
    + destruct IH as (p' & rules' & Hin & ?). exists p', rules'. split; [by right|done].
Qed.

Lemma loaded_policy org table id rules :
  (id, rules) ∈ _load_message_policies org table ↔
  ∃ p text, p ∈ table ∧ applies org p = true ∧ policy_id p = id ∧ rules_json p = Some text ∧
    json_loads text = Some (JObj rules).
Proof.
  unfold _load_message_policies. rewrite list_elem_of_omap. split.
  - intros (p & Hin & Hp). apply elem_of_filter_bool in Hin as [Hin Happ].
    destruct (rules_json p) as [text|] eqn:Ht; simpl in Hp; [|done].
    destruct (json_loads text) as [[]|] eqn:Hl; simplify_eq. exists p, text. split_and!; done.
  - intros (p & text & Hin & Happ & <- & Ht & Hl). exists p. split; [by apply elem_of_filter_bool|].
    rewrite Ht. simpl. by rewrite Hl.
Qed.

(** a message inside an organisation is let through exactly when every
    enabled message policy of the organisation, or of all of them, whose text
    is a JSON object tolerates its payload: size, required and blocked fields,
    effect.  When it is refused, the decision names a policy that does not
    tolerate it. *)
Theorem message_allowed_iff org payload table d :
  evaluate_local_message org payload table = Ret d →
  if lp_allowed d then
    ∀ p text rules, p ∈ table → applies org p = true → rules_json p = Some text →
      json_loads text = Some (JObj rules) → tolerates rules payload
  else
    ∃ p text rules, p ∈ table ∧ applies org p = true ∧ rules_json p = Some text ∧
      json_loads text = Some (JObj rules) ∧ lp_policy_id d = Some (policy_id p) ∧
      ¬ tolerates rules payload.
Proof.
  unfold evaluate_local_message. intros Hd.
  assert (_load_message_policies org table = [] ∧ lp_allowed d = true ∨
          first_verdict (_load_message_policies org table) payload (dumps (JObj payload)) = Ret d)
    as [[Hnil ->]|Hfirst].
  { destruct (_load_message_policies org table); [left; by injection Hd as <-|by right]. }
  - intros p text rules Hin Happ Ht Hl.
    assert ((policy_id p, rules) ∈ _load_message_policies org table) as Hp
      by (apply loaded_policy; exists p, text; done).
    rewrite Hnil in Hp. inversion Hp.
  - apply first_verdict_spec in Hfirst. destruct (lp_allowed d).
    + intros p text rules Hin Happ Ht Hl. apply (Hfirst (policy_id p)).
      apply loaded_policy. exists p, text. done.
    + destruct Hfirst as (id & rules & Hin & Hid & Hno).
      apply loaded_policy in Hin as (p & text & Hin & Happ & <- & Ht & Hl).
      exists p, text, rules. done.
Qed.
End Messages.

(** ** Concrete runs *)

Definition dq_ : string := String (ascii_of_N 34) "".

(** Rules of Acme: the catalogue for Mario, on one model and one server. *)
Definition acme_rules : json :=
  JObj [("tool_rules", JObj
    [("catalog.search",
      JObj [("allowed_principals", JList [JStr "acme::user::mario"]);
            ("denied_principals", JList [JStr "acme::user::eve"]);
            ("allowed_models", JList [JStr "haiku"]);
            ("rate_limit", JObj [("per_minute", JInt 30)])]);
     ("orders.update", JObj [("allowed_principals", JList [])])])].

Definition acme_body (principal tool : string) : fields :=
  [("principal", JObj [("id", JStr principal); ("type", JStr "user")]);
   ("model", JObj [("id", JStr "haiku")]);
   ("target", JObj [("id", JStr "globex::shop"); ("org", JStr "globex")]);
   ("invocation", JObj [("tool_name", JStr tool); ("mcp_server_id", JStr "shop")])].

(** Texts stand for the values they parse to. *)
Definition acme_loads (s : string) : option json :=
  if bool_decide (s = "rules") then Some acme_rules
  else if bool_decide (s = "mario") then Some (JObj (acme_body "acme::user::mario" "catalog.search"))
  else if bool_decide (s = "eve") then Some (JObj (acme_body "acme::user::eve" "orders.update"))
  else if bool_decide (s = "no secrets") then
    Some (JObj [("conditions", JObj [("blocked_fields", JList [JStr "iban"])])])
  else None.

Definition acme_invocation (tool : string) : option fields := Some [("tool_name", JStr tool)].

Lemma tool_call_allowed_iff_witness :
  allowed (deny "x") = false ∧
  ∃ rules, load_tool_rules acme_loads (Some "rules") = Ret rules ∧
    (rules = [] ∨
     ∃ tool rule, str_member "tool_name" (acme_invocation "orders.update") = Some tool ∧ tool ≠ "" ∧
       get tool rules = Some (JObj rule) ∧
       rule_permits rule "acme::user::eve" None (acme_invocation "orders.update")).
Proof.
  split; [done|].
  refine (proj1 (tool_call_allowed_iff acme_loads (Some "rules") "acme::user::eve" None
    (acme_invocation "orders.update") _ eq_refl) _). reflexivity.
Defined.

Definition generous : ToolCallDecision :=
  {| allowed := true; reason := "local"; scope := Some [("tools_allowed", JList [JStr "a"; JStr "b"])];
     rate_limit := Some [("per_minute", JInt 30)];
     obligations := Some [("trace_visibility", JStr "full")] |}.
Definition strict : ToolCallDecision :=
  {| allowed := true; reason := "remote"; scope := Some [("tools_denied", JList [JStr "b"])];
     rate_limit := Some [("per_minute", JInt 10); ("per_day", JInt 100)];
     obligations := Some [("require_user_confirmation", JBool true)] |}.
Definition agreed : ToolCallDecision :=
  match intersect_decisions generous strict with Ret d => d | Raise _ => deny "" end.

Lemma intersection_exact_witness :
  (permits_tool (scope agreed) <$> ["a"; "b"; "c"]) = [true; false; false] ∧
  limit "per_minute" (rate_limit agreed) = Some 10 ∧
  limit "per_minute" (rate_limit agreed)
  = min_opt Z.min (limit "per_minute" (rate_limit generous)) (limit "per_minute" (rate_limit strict)).
Proof.
  split_and!; [vm_compute; reflexivity|vm_compute; reflexivity|].
  refine (proj1 (proj2 (proj2 (proj2 (intersection_exact generous strict agreed _) _))) "per_minute" _).
  - vm_compute. reflexivity.
  - vm_compute. reflexivity.
  - by left.
Defined.

(** The Mastio of Acme, in front of the Mastio of Globex. *)
Definition acme_env (reply : remote_reply) : pdp_env :=
  {| tool_pdp_enabled := true; pdp_webhook_hmac_secret := ""; org_id := Some "acme";
     policy_rules := Some "rules";
     resolve o := if bool_decide (o = "globex") then Some "https://globex/v1/policy/tool-call" else None;
     remote _ _ := reply;
     audit := {| now_iso := "2026-05-20T10:00:00+00:00"; current_dpop_jkt := None;
                 current_on_behalf_of_user := None; batched_chain := None;
                 audit_chain_disabled := false; audit_chain_durable := true;
                 audit_fail_deny := true |};
     database _ := DbUp [] |}.
Definition mario : pdp_request := {| raw_body := "mario"; x_atn_signature := "" |}.
Definition empty_world : world := {| w_table := []; w_pending := []; w_unhealthy := false |}.
Definition globex_agrees : remote_reply :=
  Reply 200 120 (Some (JObj [("decision", JStr "Allow"); ("rate_limit", JObj [("per_minute", JInt 5)])])).

Definition mario_result (reply : remote_reply) : outcome fields * world :=
  policy_tool_call acme_loads (acme_env reply) mario empty_world.

Example globex_decides :
  (match fst (mario_result globex_agrees) with Ret r => get "decision" r | _ => None end,
   match fst (mario_result (Reply 200 20 (Some (JObj [("decision", JStr "deny")])))) with
   | Ret r => get "decision" r | _ => None end,
   match fst (mario_result TimedOut) with Ret r => get "decision" r | _ => None end)
  = (Some (JStr "allow"), Some (JStr "deny"), Some (JStr "deny")).
Proof. vm_compute. reflexivity. Qed.

Definition mario_answer : fields :=
  match fst (mario_result globex_agrees) with Ret r => r | Raise _ => [] end.

Lemma allow_needs_both_sides_witness :
  get "decision" mario_answer = Some (JStr "allow") ∧
  ∃ body local,
    parse_body acme_loads mario = Ret body ∧
    evaluate_tool_call_policy acme_loads (Some "rules")
      (str_of (default (JStr "") (get "id" (dict_member "principal" body))))
      (get "model" body ≫= as_obj)
      (match dict_member "invocation" body with [] => None | i => Some i end) = Ret local ∧
    allowed local = true ∧
    ∀ target, foreign_target (acme_env globex_agrees) body = Some target →
      ∃ url, resolve (acme_env globex_agrees) target = Some url ∧ url ≠ "" ∧
        remote_agrees (remote (acme_env globex_agrees) url body).
Proof.
  split; [vm_compute; reflexivity|].
  refine (proj2 (allow_needs_both_sides acme_loads (acme_env globex_agrees) mario empty_world mario_answer
    (snd (mario_result globex_agrees)) _ _)); vm_compute; reflexivity.
Defined.

Lemma answer_is_recorded_witness :
  chain_ok (w_table (snd (mario_result TimedOut))).
Proof.
  refine (proj1 (answer_is_recorded acme_loads (acme_env TimedOut) mario empty_world
    (fst (mario_result TimedOut)) (snd (mario_result TimedOut)) _ _ _)).
  - constructor.
  - repeat constructor.
  - unfold mario_result. by destruct (policy_tool_call _ _ _ _).
Defined.

Definition no_iban : policy_row :=
  {| policy_id := "pol-1"; p_org_id := None; policy_type := Some "message"; enabled := true;
     rules_json := Some "no secrets" |}.

Lemma message_allowed_iff_witness :
  ∃ p text rules, p ∈ [no_iban] ∧ applies "acme" p = true ∧ rules_json p = Some text ∧
    acme_loads text = Some (JObj rules) ∧
    Some "pol-1" = Some (policy_id p) ∧ ¬ tolerates rules [("iban", JStr "IT60")].
Proof.
  refine (message_allowed_iff acme_loads "acme" [("iban", JStr "IT60")] [no_iban]
    (refuse_message "pol-1" "blocked fields present: ['iban']") _). vm_compute. reflexivity.
Defined.
