(* ===== verification/ToolRegistry.v ===== *)
(** * Tools: the registry, its loaders and the per-tool guards

    [tools/registry.py] (the dict of definitions, the [register] decorator, the
    YAML overrides), [tools/resource_loader.py] (the rows of
    [local_mcp_resources]), [local/bindings.py], [tools/http_whitelist.py] and
    the environment provider of [tools/secrets.py].  The registry is a dict in
    insertion order.  A handler is a reference: a function of a builtin module
    or the forwarder the loader binds to its own definition. *)

From S2P Require Import Prelude Sha256 Json.

Open Scope Z_scope.

(** ** Definitions and the dict that holds them *)

Inductive handler_ref :=
| Builtin (fn : string)
| Forwarder.

(** [description], [required_capability] and [allowed_domains] are texts and
    lists where the program sets them; a YAML override stores what it finds. *)
Record ToolDefinition := {
  name : string;
  description : json;
  required_capability : json;
  allowed_domains : json;
  handler : handler_ref;
  parameters_schema : option json;
  resource_id : option string;
  endpoint_url : option string;
  _auth_type : option string;
  _auth_secret_ref : option string;
}.

Definition is_some {A} (o : option A) : bool := match o with Some _ => true | None => false end.

Definition is_mcp_resource (td : ToolDefinition) : bool := is_some (resource_id td).

Abbreviation tools := (list (string * ToolDefinition)).

Definition strip (s : string) : string := rstrip (lstrip s).

(** One use of the decorator: [fn] is the function it decorates. *)
Record registration := {
  r_name : string;
  r_capability : string;
  r_allowed_domains : list string;
  r_description : string;
  r_schema : option json;
  r_fn : string;
}.

Definition builtin_definition (r : registration) : ToolDefinition :=
  {| name := r_name r; description := JStr (r_description r);
     required_capability := JStr (r_capability r);
     allowed_domains := JList (JStr <$> r_allowed_domains r);
     handler := Builtin (r_fn r); parameters_schema := r_schema r;
     resource_id := None; endpoint_url := None; _auth_type := None; _auth_secret_ref := None |}.

Definition register (r : registration) (ts : tools) : outcome tools :=
  if bool_decide (strip (r_capability r) = "") then Raise ValueError
  else Ret (dset (r_name r) (builtin_definition r) ts).

Definition register_definition (td : ToolDefinition) (ts : tools) : tools := dset (name td) td ts.

Definition registry_get (n : string) (ts : tools) : option ToolDefinition := dget n ts.

Definition list_tools (ts : tools) : list ToolDefinition := snd <$> ts.

(** [cap in caps] for texts [caps]; an unhashable [cap] raises when [caps] is a
    set, and compares unequal when it is a list. *)
Definition in_texts (cap : json) (caps : list string) : bool :=
  match cap with JStr c => bool_decide (c ∈ caps) | _ => false end.

Definition has_capability (tool : string) (agent_capabilities : list string) (ts : tools) : bool :=
  match registry_get tool ts with
  | None => false
  | Some td =>
      if negb (py_bool (required_capability td)) then is_mcp_resource td
      else in_texts (required_capability td) agent_capabilities
  end.

(** ** [load_from_yaml] *)

Inductive yaml_file :=
| YamlMissing
| YamlMalformed
| YamlData (data : json).

(** What importing a module does: the decorators it runs, and whether it raises
    after them. *)
Record module_code := { decorators : list registration; import_raises : bool }.

(** The registry and the modules Python has in [sys.modules]. *)
Record registry_state := { _tools : tools; sys_modules : list string }.

Fixpoint run_decorators (rs : list registration) (ts : tools) : bool * tools :=
  match rs with
  | [] => (true, ts)
  | r :: rest => match register r ts with
                 | Ret ts' => run_decorators rest ts'
                 | Raise _ => (false, ts)
                 end
  end.

Definition import_module (code : string → option module_code) (path : string)
    (st : registry_state) : bool * registry_state :=
  if bool_decide (path ∈ sys_modules st) then (true, st) else
  match code path with
  | None => (false, st)
  | Some m =>
      let '(ok, ts) := run_decorators (decorators m) (_tools st) in
      if ok && negb (import_raises m)
      then (true, {| _tools := ts; sys_modules := path :: sys_modules st |})
      else (false, {| _tools := ts; sys_modules := sys_modules st |})
  end.

Definition with_description (d : json) (td : ToolDefinition) : ToolDefinition :=
  {| name := name td; description := d; required_capability := required_capability td;
     allowed_domains := allowed_domains td; handler := handler td;
     parameters_schema := parameters_schema td; resource_id := resource_id td;
     endpoint_url := endpoint_url td; _auth_type := _auth_type td;
     _auth_secret_ref := _auth_secret_ref td |}.

Definition with_capability (c : json) (td : ToolDefinition) : ToolDefinition :=
  {| name := name td; description := description td; required_capability := c;
     allowed_domains := allowed_domains td; handler := handler td;
     parameters_schema := parameters_schema td; resource_id := resource_id td;
     endpoint_url := endpoint_url td; _auth_type := _auth_type td;
     _auth_secret_ref := _auth_secret_ref td |}.

Definition with_domains (l : json) (td : ToolDefinition) : ToolDefinition :=
  {| name := name td; description := description td;
     required_capability := required_capability td; allowed_domains := l; handler := handler td;
     parameters_schema := parameters_schema td; resource_id := resource_id td;
     endpoint_url := endpoint_url td; _auth_type := _auth_type td;
     _auth_secret_ref := _auth_secret_ref td |}.

(** [isinstance(c, str) and c.strip()] *)
Definition declares (c : json) : bool :=
  match c with JStr s => negb (bool_decide (strip s = "")) | _ => false end.

Definition yaml_override (spec : list (string * json)) (td : ToolDefinition) : ToolDefinition :=
  let td := if py_bool (get_none "description" spec)
            then with_description (get_none "description" spec) td else td in
  let td := match get "capability" spec with
            | None => td
            | Some new_cap =>
                if negb (is_mcp_resource td) && negb (declares new_cap) then td
                else with_capability new_cap td
            end in
  match get "allowed_domains" spec with None => td | Some l => with_domains l td end.

(** One entry of [tools:]; a [module] that is no text fails inside
    [import_module], which the loop catches. *)
Definition yaml_entry (code : string → option module_code) (tool : string) (spec : json)
    (st : registry_state) : outcome registry_state :=
  match spec with
  | JObj spec =>
      match get_none "module" spec with
      | JStr (String _ _ as path) =>
          let '(ok, st) := import_module code path st in
          if negb ok then Ret st else
          match registry_get tool (_tools st) with
          | Some existing =>
              Ret {| _tools := dset tool (yaml_override spec existing) (_tools st);
                     sys_modules := sys_modules st |}
          | None => Ret st
          end
      | _ => Ret st
      end
  | _ => Raise AttributeError
  end.

(** The loop stops at the first entry that raises; what it did stays. *)
Fixpoint yaml_entries (code : string → option module_code) (entries : list (string * json))
    (st : registry_state) : outcome unit * registry_state :=
  match entries with
  | [] => (Ret tt, st)
  | (tool, spec) :: rest =>
      match yaml_entry code tool spec st with
      | Ret st' => yaml_entries code rest st'
      | Raise e => (Raise e, st)
      end
  end.

(** [not data or "tools" not in data], then [data["tools"].items()]: a list or a
    number is subscripted like a dict and raises. *)
Definition load_from_yaml (code : string → option module_code) (file : yaml_file)
    (st : registry_state) : outcome unit * registry_state :=
  match file with
  | YamlMissing | YamlMalformed => (Ret tt, st)
  | YamlData data =>
      if negb (py_bool data) then (Ret tt, st) else
      match data with
      | JObj f =>
          match get "tools" f with
          | None => (Ret tt, st)
          | Some (JObj entries) => yaml_entries code entries st
          | Some _ => (Raise AttributeError, st)
          end
      | JList l => if str_in "tools" l then (Raise TypeError, st) else (Ret tt, st)
      | JStr s => if is_some (String.index 0 "tools" s)
                  then (Raise TypeError, st) else (Ret tt, st)
      | _ => (Raise TypeError, st)
      end
  end.

(** ** [resource_loader] *)

(** A row of [local_mcp_resources]. *)
Record resource_row := {
  rr_resource_id : string;
  rr_name : string;
  rr_description : option string;
  rr_endpoint_url : string;
  rr_auth_type : option string;
  rr_auth_secret_ref : option string;
  rr_required_capability : option string;
  rr_allowed_domains : option string;
  rr_enabled : bool;
}.

Section Loader.
(** [json.loads], and the parsed 200 answer of [tools/list] of an endpoint;
    [None] stands for every way the fetch fails. *)
Context (json_loads : string → option json) (upstream : string → option json).

Definition _parse_allowed_domains (raw : option string) : list string :=
  match raw with
  | None | Some EmptyString => []
  | Some s => match json_loads s with
              | Some (JList l) => str_of <$> l
              | _ => []
              end
  end.

(** [for t in tools: if t.get("name") == tool_name: return t.get("inputSchema")];
    an element without [get] ends the search, the exception is caught. *)
Fixpoint find_schema (tool_name : string) (l : list json) : option json :=
  match l with
  | JObj t :: rest =>
      if is_str tool_name (get_none "name" t)
      then match get_none "inputSchema" t with JNull => None | s => Some s end
      else find_schema tool_name rest
  | _ => None
  end.

Definition _fetch_upstream_schema (endpoint tool_name : string) : option json :=
  match upstream endpoint with
  | Some (JObj data) =>
      match py_or (default (JObj []) (get "result" data)) (JObj []) with
      | JObj result => match py_iter (default (JList []) (get "tools" result)) with
                       | Ret l => find_schema tool_name l
                       | Raise _ => None
                       end
      | _ => None
      end
  | _ => None
  end.

Definition resource_definition (row : resource_row) : ToolDefinition :=
  {| name := rr_name row;
     description := JStr (or_empty (rr_description row));
     required_capability := JStr (or_empty (rr_required_capability row));
     allowed_domains := JList (JStr <$> _parse_allowed_domains (rr_allowed_domains row));
     handler := Forwarder;
     parameters_schema := _fetch_upstream_schema (rr_endpoint_url row) (rr_name row);
     resource_id := Some (rr_resource_id row);
     endpoint_url := Some (rr_endpoint_url row);
     _auth_type := rr_auth_type row;
     _auth_secret_ref := rr_auth_secret_ref row |}.

(** The name belongs to a builtin. *)
Definition collides (ts : tools) (n : string) : bool :=
  match registry_get n ts with Some td => negb (is_mcp_resource td) | None => false end.

Definition load_row (acc : Z * tools) (row : resource_row) : Z * tools :=
  let '(loaded, ts) := acc in
  if collides ts (rr_name row) then (loaded, ts)
  else (loaded + 1, register_definition (resource_definition row) ts).

Definition load_resources_into_registry (table : list resource_row) (ts : tools) : Z * tools :=
  foldl load_row (0, ts) (List.filter rr_enabled table).

Definition reload_resources (table : list resource_row) (ts : tools) : Z * tools :=
  load_resources_into_registry table (List.filter (λ e, negb (is_mcp_resource (snd e))) ts).
End Loader.

(** ** [local_agent_resource_bindings] *)

Record binding_row := {
  b_agent_id : string;
  b_principal_type : string;
  b_resource_id : string;
  b_revoked_at : option string;
}.

Definition active_for (principal principal_type : string) (b : binding_row) : bool :=
  bool_decide (b_agent_id b = principal) && bool_decide (b_principal_type b = principal_type)
  && negb (is_some (b_revoked_at b)).

Definition bound_resource_ids (principal principal_type : string) (table : list binding_row)
    : list string :=
  b_resource_id <$> List.filter (active_for principal principal_type) table.

Definition has_active_binding (principal principal_type resource : string)
    (table : list binding_row) : bool :=
  existsb (λ b, active_for principal principal_type b && bool_decide (b_resource_id b = resource))
    table.

(** ** [WhitelistedTransport] *)

Definition dot : ascii := "."%char.

Definition _is_allowed (allowed : list string) (hostname : string) : bool :=
  match allowed with
  | [] => false
  | _ =>
      bool_decide (hostname ∈ allowed) ||
      let parts := split_on dot hostname in
      (2 <=? length parts)%nat &&
      (let parent := join "." (tail parts) in
       bool_decide ("*." +:+ parent ∈ allowed) &&
       (length parts =? length (split_on dot parent) + 1)%nat)
  end.

(** The two refusals before the request is sent, as the text of the
    [ToolExecutionError]; [unsafe] is the reason of [UnsafeUrlError]. *)
Definition refuse_request (allowed : list string) (unsafe : string → option string)
    (host : option string) (url : string) : option string :=
  match host with
  | None => Some "Request has no hostname"
  | Some h =>
      if negb (_is_allowed allowed h) then
        Some ("Domain '" +:+ h +:+ "' not in whitelist: "
              +:+ repr (JList (JStr <$> merge_sort String.le (remove_dups allowed))))
      else match unsafe url with
           | Some why => Some ("Refused URL " +:+ url +:+ ": " +:+ why)
           | None => None
           end
  end.

(** ** [EnvSecretProvider] *)

Definition secret_prefix (tool_name : string) : string := "MCP_TOOL_" +:+ upper tool_name +:+ "_".

Definition get_tool_secrets (environ : list (string * string)) (tool_name : string)
    : list (string * string) :=
  (λ kv, (drop_prefix (secret_prefix tool_name) (fst kv), snd kv))
    <$> List.filter (λ kv, startswith (fst kv) (secret_prefix tool_name)) environ.

(** [env://VAR] references; every other scheme has no value here. *)
Definition get_secret_by_ref (environ : list (string * string)) (ref : string) : option string :=
  if startswith ref "env://" then dget (drop_prefix "env://" ref) environ else None.

(** ** The registry's invariant *)

Definition entry_ok (e : string * ToolDefinition) : Prop :=
  name (snd e) = fst e ∧
  (is_mcp_resource (snd e) = false → declares (required_capability (snd e)) = true).

Definition registry_ok (ts : tools) : Prop := dict_ok ts ∧ Forall entry_ok ts.

Lemma registry_ok_dset ts td :
  registry_ok ts → entry_ok (name td, td) → registry_ok (dset (name td) td ts).
Proof.
  intros [Hd Hall] Htd. split; [by apply dset_ok|]. rewrite Forall_forall in *.
  intros e He. apply dset_elem in He as [->|He]; [done|by apply Hall].
Qed.

Lemma registry_ok_filter ts f : registry_ok ts → registry_ok (List.filter f ts).
Proof.
  intros [Hd Hall]. split; [by apply dfilter_ok|]. rewrite Forall_forall in *.
  intros e He. apply Hall. by apply elem_of_filter_bool in He as [He _].
Qed.

Lemma registry_ok_get ts n td :
  registry_ok ts → registry_get n ts = Some td → entry_ok (n, td).
Proof. intros [_ Hall] Hg%dget_elem. rewrite Forall_forall in Hall. by apply Hall. Qed.

Lemma register_ok r ts ts' : registry_ok ts → register r ts = Ret ts' → registry_ok ts'.
Proof.
  intros Hok. unfold register. case_bool_decide as Hb; [done|]. intros [= <-].
  apply (registry_ok_dset _ (builtin_definition r)); [done|]. split; [done|]. intros _. simpl.
  by rewrite bool_decide_eq_false_2.
Qed.

Lemma run_decorators_ok rs ts b ts' :
  registry_ok ts → run_decorators rs ts = (b, ts') → registry_ok ts'.
Proof.
  revert ts. induction rs as [|r rs IH]; simpl; intros ts Hok; [by intros [= _ <-]|].
  destruct (register r ts) as [ts1|] eqn:Hr; [|by intros [= _ <-]].
  apply IH. by eapply register_ok.
Qed.

Lemma override_ok spec n td : entry_ok (n, td) → entry_ok (n, yaml_override spec td).
Proof.
  intros Hok. unfold yaml_override.
  set (td1 := if py_bool _ then _ else td).
  assert (entry_ok (n, td1)) as Hok1 by (unfold td1; by destruct (py_bool _)). clearbody td1.
  match goal with |- entry_ok (n, match _ with None => ?x | _ => _ end) =>
    assert (entry_ok (n, x)) as Hok2; [|by destruct (get "allowed_domains" spec)] end.
  destruct (get "capability" spec) as [c|]; [|done].
  destruct (is_mcp_resource td1) eqn:Hr; cbn [negb andb].
  - split; [apply Hok1|]. cbn in *. unfold is_mcp_resource in *. cbn. congruence.
  - destruct (declares c) eqn:Hc; cbn [negb]; [|done]. by split; [apply Hok1|].
Qed.

Lemma import_module_ok code path st b st' :
  registry_ok (_tools st) → import_module code path st = (b, st') → registry_ok (_tools st').
Proof.
  intros Hok. unfold import_module. case_bool_decide; [by intros [= _ <-]|].
  destruct (code path) as [m|]; [|by intros [= _ <-]].
  destruct (run_decorators (decorators m) (_tools st)) as [ok ts] eqn:Hr.
  apply run_decorators_ok in Hr; [|done]. by destruct (_ && _); intros [= _ <-].
Qed.

Lemma yaml_entry_ok code tool spec st st' :
  registry_ok (_tools st) → yaml_entry code tool spec st = Ret st' → registry_ok (_tools st').
Proof.
  intros Hok. unfold yaml_entry.
  destruct spec; try done. destruct (get_none "module" fields) as [| | | |[|]| |];
    try by intros [= <-].
  destruct (import_module _ _ st) as [ok st1] eqn:Hi. apply import_module_ok in Hi; [|done].
  destruct (negb ok); [by intros [= <-]|].
  destruct (registry_get tool (_tools st1)) as [td|] eqn:Hg; [|by intros [= <-]].
  intros [= <-]. cbn [_tools]. eapply registry_ok_get in Hg; [|done].
  apply (override_ok fields) in Hg. pose proof (proj1 Hg) as Hn. cbn in Hn. rewrite <- Hn.
  apply registry_ok_dset; [done|]. by rewrite Hn.
Qed.

Lemma yaml_entries_ok code entries st r st' :
  registry_ok (_tools st) → yaml_entries code entries st = (r, st') → registry_ok (_tools st').
Proof.
  revert st. induction entries as [|[tool spec] rest IH]; simpl; intros st Hok; [by intros [= _ <-]|].
  destruct (yaml_entry code tool spec st) as [st1|] eqn:He; [|by intros [= _ <-]].
  apply IH. by eapply yaml_entry_ok.
Qed.

Lemma load_from_yaml_ok code file st r st' :
  registry_ok (_tools st) → load_from_yaml code file st = (r, st') → registry_ok (_tools st').
Proof.
  intros Hok. unfold load_from_yaml.
  repeat case_match; try (by intros [= _ <-]). by apply yaml_entries_ok.
Qed.

Section LoaderLemmas.
Context (json_loads : string → option json) (upstream : string → option json).

Notation resource := (resource_definition json_loads upstream).
Notation load := (load_resources_into_registry json_loads upstream).
Notation reload := (reload_resources json_loads upstream).

Lemma load_row_ok row acc :
  registry_ok (snd acc) → registry_ok (snd (load_row json_loads upstream acc row)).
Proof.
  destruct acc as [k ts]. unfold load_row. intros Hok. destruct (collides _ _); [done|].
  apply (registry_ok_dset ts (resource row)); [done|]. by split.
Qed.

Lemma load_ok table ts : registry_ok ts → registry_ok (snd (load table ts)).
Proof.
  unfold load_resources_into_registry. intros Hok.
  change ts with (snd (0, ts)) in Hok. revert Hok. generalize (0, ts).
  induction (List.filter rr_enabled table) as [|row rows IH]; simpl; [done|].
  intros acc Hok. apply IH. by apply load_row_ok.
Qed.

(** What the dict holds under [n] after loading [rows]: a builtin stays, every
    other name is the last row that carries it. *)
Definition loaded_entry (n : string) (rows : list resource_row) (ts : tools)
    : option ToolDefinition :=
  if collides ts n then registry_get n ts
  else match last (List.filter (λ row, bool_decide (rr_name row = n)) rows) with
       | Some row => Some (resource row)
       | None => registry_get n ts
       end.

Lemma load_row_collides acc row n :
  collides (snd (load_row json_loads upstream acc row)) n = collides (snd acc) n.
Proof.
  destruct acc as [k ts]. unfold load_row. destruct (collides ts (rr_name row)) eqn:Hc; [done|].
  unfold register_definition, collides, registry_get in *. cbn [snd resource_definition name] in *.
  destruct (decide (n = rr_name row)) as [->|Hne].
  - by rewrite dget_dset_eq.
  - by rewrite dget_dset_ne.
Qed.

Lemma load_rows_entry n rows acc :
  registry_get n (snd (foldl (load_row json_loads upstream) acc rows))
  = loaded_entry n rows (snd acc).
Proof.
  revert acc. induction rows as [|row rows IH]; intros acc; cbn [foldl].
  { unfold loaded_entry. simpl. by destruct (collides _ _). }
  rewrite IH. unfold loaded_entry. rewrite load_row_collides. cbn [List.filter].
  destruct (collides (snd acc) n) eqn:Hc.
  - destruct acc as [k ts]. unfold load_row. destruct (collides ts (rr_name row)) eqn:Hr; [done|].
    cbn [snd] in *. unfold registry_get, register_definition. apply dget_dset_ne.
    intros ->. cbn in Hc. congruence.
  - destruct acc as [k ts]. cbn [snd] in *. case_bool_decide as Hn.
    + rewrite last_cons. destruct (last _) as [x|]; [done|]. unfold load_row.
      rewrite Hn, Hc. cbn [snd]. unfold registry_get, register_definition.
      cbn [resource_definition name]. rewrite Hn. apply dget_dset_eq.
    + destruct (last _) as [x|]; [done|]. unfold load_row.
      destruct (collides ts (rr_name row)); [done|]. cbn [snd].
      unfold registry_get, register_definition. by apply dget_dset_ne.
Qed.

Lemma load_rows_count rows acc :
  fst (foldl (load_row json_loads upstream) acc rows)
  = fst acc + Z.of_nat (length (List.filter (λ row, negb (collides (snd acc) (rr_name row))) rows)).
Proof.
  revert acc. induction rows as [|row rows IH]; intros acc; cbn [foldl]; [simpl; lia|].
  rewrite IH. cbn [List.filter].
  rewrite (List.filter_ext _ (λ r, negb (collides (snd acc) (rr_name r))))
    by (intros r; by rewrite load_row_collides).
  destruct acc as [k ts]. unfold load_row. cbn [snd].
  destruct (collides ts (rr_name row)); cbn [fst negb length]; lia.
Qed.
End LoaderLemmas.

(** Everything that changes the registry. *)
Inductive registry_step (code : string → option module_code) (json_loads upstream : string → option json)
    : registry_state → registry_state → Prop :=
| step_register r st ts :
    register r (_tools st) = Ret ts →
    registry_step code json_loads upstream st {| _tools := ts; sys_modules := sys_modules st |}
| step_yaml file st :
    registry_step code json_loads upstream st (load_from_yaml code file st).2
| step_load table st :
    registry_step code json_loads upstream st
      {| _tools := (load_resources_into_registry json_loads upstream table (_tools st)).2;
         sys_modules := sys_modules st |}
| step_reload table st :
    registry_step code json_loads upstream st
      {| _tools := (reload_resources json_loads upstream table (_tools st)).2;
         sys_modules := sys_modules st |}.

Definition no_tools : registry_state := {| _tools := []; sys_modules := [] |}.

Lemma registry_step_ok code json_loads upstream st st' :
  registry_step code json_loads upstream st st' → registry_ok (_tools st) → registry_ok (_tools st').
Proof.
  destruct 1 as [r st ts Hr|file st|table st|table st]; intros Hok; cbn [_tools].
  - by eapply register_ok.
  - destruct (load_from_yaml code file st) as [r st'] eqn:Hl. by eapply load_from_yaml_ok.
  - by apply load_ok.
  - unfold reload_resources. apply load_ok. by apply registry_ok_filter.
Qed.

(** whatever modules, YAML files and database rows the registry is built
    from, and however often the resources are reloaded, every entry is filed
    under its own name, no name twice, and every builtin declares a capability
    that is not blank. *)
Theorem builtins_declare_capability code json_loads upstream st n td :
  rtc (registry_step code json_loads upstream) no_tools st →
  registry_get n (_tools st) = Some td →
  dict_ok (_tools st) ∧ name td = n ∧
  (is_mcp_resource td = false →
   ∃ c, required_capability td = JStr c ∧ strip c ≠ "" ∧
        ∀ caps, has_capability n caps (_tools st) = true → c ∈ caps).
Proof.
  intros Hr Hg. assert (registry_ok (_tools st)) as Hok.
  { assert (registry_ok (_tools no_tools)) as H0 by (split; constructor).
    clear Hg. induction Hr; [done|]. eauto using registry_step_ok. }
  split; [apply Hok|]. destruct (registry_ok_get _ _ _ Hok Hg) as [Hn Hd]. split; [done|].
  intros Hb. specialize (Hd Hb). cbn in Hd. unfold has_capability. rewrite Hg.
  destruct (required_capability td) as [| | | |c| |]; try done. exists c.
  cbn [declares] in Hd. bools. split_and!; [done..|]. intros caps.
  cbn [py_bool in_texts]. case_bool_decide as Hc; [by subst|]. cbn [negb].
  apply bool_decide_eq_true_1.
Qed.

(** after a reload a name is bound to the builtin that had it, else to the
    last enabled row of the table that carries it, else to nothing: no resource
    that was disabled or deleted stays callable, and no row replaces a
    builtin; the count is that of the rows taken. *)
Theorem reload_exact json_loads upstream table ts n :
  dict_ok ts →
  let '(loaded, ts') := reload_resources json_loads upstream table ts in
  let row := last (List.filter (λ row, rr_enabled row && bool_decide (rr_name row = n)) table) in
  registry_get n ts' =
    (if collides ts n then registry_get n ts
     else resource_definition json_loads upstream <$> row) ∧
  loaded = Z.of_nat (length
    (List.filter (λ row, rr_enabled row && negb (collides ts (rr_name row))) table)).
Proof.
  intros Hd. unfold reload_resources, load_resources_into_registry.
  set (kept := List.filter _ ts).
  assert (∀ m, registry_get m kept = if collides ts m then registry_get m ts else None) as Hk.
  { intros m. unfold collides, registry_get, kept. destruct (dget m ts) as [td|] eqn:Hm.
    - destruct (is_mcp_resource td) eqn:Hr; cbn [negb].
      + eapply dget_filter_None; [done|exact Hm|]. cbn. by rewrite Hr.
      + eapply dget_filter; [exact Hm|]. cbn. by rewrite Hr.
    - by apply dget_filter_absent. }
  assert (∀ m, collides kept m = collides ts m) as Hc.
  { intros m. unfold collides at 1. rewrite Hk. destruct (collides ts m) eqn:Hm; [|done].
    unfold collides in Hm. by destruct (registry_get m ts). }
  pose proof (load_rows_entry json_loads upstream n (List.filter rr_enabled table) (0, kept)) as He.
  pose proof (load_rows_count json_loads upstream (List.filter rr_enabled table) (0, kept)) as Hn.
  destruct (foldl _ _ _) as [loaded ts']. cbn [fst snd] in *. split.
  - rewrite He. unfold loaded_entry. rewrite Hc, Hk, filter_andb.
    destruct (collides ts n); [done|]. by destruct (last _).
  - rewrite Hn, Z.add_0_l. do 2 f_equal. rewrite filter_andb. apply List.filter_ext.
    intros row. by rewrite Hc.
Qed.

(** ** Hosts and secrets *)

(** the whitelist of a tool lets a host through exactly when it is listed,
    or when it is one label in front of a domain listed with a star. *)
Theorem is_allowed_iff allowed hostname :
  _is_allowed allowed hostname = true ↔
  hostname ∈ allowed ∨
  ∃ label parent, hostname = label +:+ "." +:+ parent ∧ has_char dot label = false ∧
    "*." +:+ parent ∈ allowed.
Proof.
  assert (∀ x : string, x ∈ allowed → allowed ≠ []) as Hne by (intros x Hx ->; by apply not_elem_of_nil in Hx).
  destruct (split_on_cases dot hostname) as [Hh|(a & b & -> & Ha)].
  - assert (_is_allowed allowed hostname = bool_decide (hostname ∈ allowed)) as ->.
    { unfold _is_allowed. rewrite split_on_free by done.
      destruct allowed; [done|]. by rewrite orb_false_r. }
    rewrite bool_decide_eq_true. split; [by left|]. intros [?|(l & p & -> & Hl & _)]; [done|].
    rewrite has_char_app in Hh. simpl in Hh. by rewrite orb_true_r in Hh.
  - assert (_is_allowed allowed (a +:+ String dot b)
      = bool_decide (a +:+ String dot b ∈ allowed) || bool_decide ("*." +:+ b ∈ allowed)) as ->.
    { unfold _is_allowed. rewrite split_on_app by done. cbn [tail].
      rewrite (join_split dot b : join "." _ = b).
      destruct allowed as [|x l]; [by rewrite !bool_decide_eq_false_2 by apply not_elem_of_nil|].
      f_equal. cbn [length]. destruct (split_on dot b) as [|y l'] eqn:Hs.
      { destruct (split_on_cases dot b) as [Hb|(? & ? & -> & ?)].
        - by rewrite split_on_free in Hs.
        - by rewrite split_on_app in Hs. }
      cbn [length]. rewrite Nat.add_1_r, Nat.eqb_refl. by rewrite andb_true_r. }
    rewrite orb_true_iff, !bool_decide_eq_true. split.
    + intros [?|?]; [by left|]. right. by exists a, b.
    + intros [?|(l & p & Heq & Hl & Hp)]; [by left|]. right.
      by apply split_first in Heq as [_ ->].
Qed.

Lemma get_tool_secrets_spec environ tool_name k v :
  (k, v) ∈ get_tool_secrets environ tool_name ↔ (secret_prefix tool_name +:+ k, v) ∈ environ.
Proof.
  unfold get_tool_secrets. rewrite list_elem_of_fmap. split.
  - intros ([k' v'] & [= -> ->] & [Hin Hs]%elem_of_filter_bool). cbn [fst] in *.
    apply startswith_iff in Hs. by rewrite Hs in Hin.
  - intros Hin. exists (secret_prefix tool_name +:+ k, v). cbn [fst snd].
    rewrite drop_prefix_app. split; [done|]. apply elem_of_filter_bool. split; [done|].
    cbn [fst]. apply startswith_iff. by rewrite drop_prefix_app.
Qed.

Lemma upper_app a b : upper (a +:+ b) = upper a +:+ upper b.
Proof. induction a as [|c a IH]; [done|]. rewrite !str_app_cons. simpl. by rewrite IH. Qed.

(** secrets in the environment are not separated by tool. A tool is handed
    exactly the variables that begin with its prefix, so whatever is configured
    for a tool whose name continues its own after an underscore is handed to it
    as well, under a longer key. *)
Theorem secrets_shared_by_prefix environ tool suffix k v :
  (k, v) ∈ get_tool_secrets environ (tool +:+ "_" +:+ suffix) ↔
  (upper suffix +:+ "_" +:+ k, v) ∈ get_tool_secrets environ tool.
Proof.
  rewrite !get_tool_secrets_spec.
  replace (secret_prefix (tool +:+ "_" +:+ suffix) +:+ k)
    with (secret_prefix tool +:+ upper suffix +:+ "_" +:+ k); [done|].
  unfold secret_prefix. rewrite !upper_app. simp_str. done.
Qed.

(** ** Instances *)

Definition demo_code (path : string) : option module_code :=
  if bool_decide (path = "builtins.erp") then
    Some {| decorators := [{| r_name := "check_erp"; r_capability := "erp.read";
                              r_allowed_domains := ["erp.acme.local"]; r_description := "stock";
                              r_schema := None; r_fn := "check_erp" |}];
            import_raises := false |}
  else None.

Definition demo_yaml : yaml_file :=
  YamlData (JObj [("tools", JObj
    [("check_erp", JObj [("module", JStr "builtins.erp"); ("capability", JStr "  ");
                         ("description", JStr "ERP stock")]);
     ("ghost", JObj [("module", JStr "builtins.ghost")])])]).

Definition postgres_row (n : string) (enabled : bool) : resource_row :=
  {| rr_resource_id := "r1"; rr_name := n; rr_description := None;
     rr_endpoint_url := "https://pg.acme.local/mcp"; rr_auth_type := Some "bearer";
     rr_auth_secret_ref := Some "env://PG"; rr_required_capability := None;
     rr_allowed_domains := Some "[pg]"; rr_enabled := enabled |}.

Definition demo_rows : list resource_row :=
  [postgres_row "postgres-mcp" true; postgres_row "check_erp" true; postgres_row "old" false].

Definition demo_loads (s : string) : option json :=
  if bool_decide (s = "[pg]") then Some (JList [JStr "pg.acme.local"]) else None.

Definition demo_booted : registry_state := (load_from_yaml demo_code demo_yaml no_tools).2.
Definition demo_registry : registry_state :=
  {| _tools := (reload_resources demo_loads (λ _, None) demo_rows (_tools demo_booted)).2;
     sys_modules := sys_modules demo_booted |}.

Example demo_names : fst <$> _tools demo_registry = ["check_erp"; "postgres-mcp"].
Proof. reflexivity. Qed.

Lemma builtins_declare_capability_witness :
  ∃ td, registry_get "check_erp" (_tools demo_registry) = Some td ∧
    required_capability td = JStr "erp.read" ∧ description td = JStr "ERP stock" ∧
    ∃ c, required_capability td = JStr c ∧ strip c ≠ "".
Proof.
  assert (rtc (registry_step demo_code demo_loads (λ _, None)) no_tools demo_registry) as Hr.
  { eapply rtc_l; [exact (step_yaml _ _ _ demo_yaml no_tools)|].
    eapply rtc_l; [exact (step_reload _ _ _ demo_rows demo_booted)|]. apply rtc_refl. }
  eexists. split; [reflexivity|]. do 2 (split; [reflexivity|]).
  destruct (builtins_declare_capability _ _ _ _ "check_erp" _ Hr eq_refl) as (_ & _ & Hb).
  destruct (Hb eq_refl) as (c & Hc & Hs & _). by exists c.
Defined.

Lemma reload_exact_witness :
  dict_ok (_tools demo_registry) ∧
  registry_get "postgres-mcp" (reload_resources demo_loads (λ _, None) [] (_tools demo_registry)).2
  = None.
Proof.
  assert (dict_ok (_tools demo_registry)) as Hd by (by apply (bool_decide_unpack _); vm_compute).
  split; [done|].
  exact (proj1 (reload_exact demo_loads (λ _, None) [] (_tools demo_registry) "postgres-mcp" Hd)).
Defined.

Example whitelist_hosts :
  map (_is_allowed ["*.salesforce.com"; "api.acme.com"])
    ["login.salesforce.com"; "a.b.salesforce.com"; "salesforce.com"; "api.acme.com"]
  = [true; false; false; true].
Proof. reflexivity. Qed.

Example query_reads_salesforce :
  get_tool_secrets [("MCP_TOOL_QUERY_SALESFORCE_SECRET", "s3cr3t"); ("PATH", "/bin")] "query"
  = [("SALESFORCE_SECRET", "s3cr3t")].
Proof. reflexivity. Qed.
