(* ===== verification/LlmChat.v ===== *)
(** * The chat endpoint of the LLM gateway

    [egress/llm_chat_router.py:chat_completions] with the stream of its
    answer, [egress/ai_gateway.py:dispatch] and the model ids of
    [egress/provider_catalog.py]: the gates before an adapter is entered, the
    reservation of tokens and its settlement ([Budget], [RateLimit]) and the
    rows of the trail.  What an adapter answers is an input.  The texts of an
    HTTP detail are those of [json.dumps]; the name of a tool is a text. *)

From S2P Require Import Prelude Sha256 Json JsonParse IsoTime AuditCanon AuditLog AuditChain Effects RateLimit Budget ToolRegistry.
From Stdlib Require Import QArith.

Open Scope Z_scope.

(** ** Model ids *)

Definition _PROVIDER_PREFIXES : list (string * string) :=
  [("anthropic/", "anthropic"); ("openai/", "openai"); ("gemini/", "gemini");
   ("vertex_ai/", "vertex"); ("bedrock/", "bedrock"); ("ollama/", "ollama");
   ("ollama_chat/", "ollama")].

Definition PROVIDERS : list string :=
  ["anthropic"; "openai"; "gemini"; "bedrock"; "vertex"; "ollama"].

Fixpoint prefixed (lower_id : string) (l : list (string * string)) : option string :=
  match l with
  | [] => None
  | (prefix, provider) :: rest =>
      if startswith lower_id prefix then Some provider else prefixed lower_id rest
  end.

Definition parse_provider_from_model (model : string) : string :=
  let lower_id := lower (strip model) in
  match prefixed lower_id _PROVIDER_PREFIXES with
  | Some provider => provider
  | None =>
      if startswith lower_id "claude-" || startswith lower_id "anthropic." then "anthropic"
      else if startswith lower_id "gpt-" || startswith lower_id "o1" then "openai"
      else if startswith lower_id "gemini-" then "gemini"
      else "anthropic"
  end.

Fixpoint stripped_prefix (m lower_id provider : string) (l : list (string * string)) : string :=
  match l with
  | [] => m
  | (prefix, prov) :: rest =>
      if bool_decide (prov = provider) && startswith lower_id prefix
      then drop_prefix prefix m
      else stripped_prefix m lower_id provider rest
  end.

Definition strip_provider_prefix (model provider : string) : string :=
  let m := strip model in stripped_prefix m (lower m) provider _PROVIDER_PREFIXES.

(** ** Requests and agents *)

Record ChatMessage := {
  role : string;
  content : json;          (* a text, a list of dicts or null *)
  tool_calls : json;
  tool_call_id : json;
  msg_name : json;
}.

Record ChatCompletionRequest := {
  model : string;
  messages : list ChatMessage;
  max_tokens : option Z;
  temperature : json;
  stream : bool;
  req_tools : json;
  tool_choice : json;
}.

Record InternalAgent := {
  ag_agent_id : string;
  ag_capabilities : list string;
  ag_principal_type : string;
  ag_scope_providers : option (list string);
}.

Definition _CHARS_PER_TOKEN : Z := 4.
Definition _DEFAULT_COMPLETION_RESERVE : Z := 1024.

Definition message_chars (c : json) : Z :=
  match c with
  | JStr s => Z.of_nat (length (chars s))
  | v => if py_bool v then Z.of_nat (String.length (dumps_plain v)) else 0
  end.

Definition _estimate_prompt_tokens (req : ChatCompletionRequest) : Z :=
  Z.max 1 (foldl (λ n m, n + message_chars (content m)) 0 (messages req) / _CHARS_PER_TOKEN).

Definition _reservation_tokens (req : ChatCompletionRequest) : Z :=
  _estimate_prompt_tokens req +
  match max_tokens req with Some (Zpos _ as n) | Some (Zneg _ as n) => n | _ => _DEFAULT_COMPLETION_RESERVE end.

(** ** Dispatch *)

Inductive adapter := LiteLLMAdapter | PortkeyAdapter | AnthropicAdapter | OpenAIAdapter | OllamaAdapter.

Definition resolve_adapter (backend provider : string) : outcome adapter :=
  let backend := lower backend in
  if bool_decide (backend = "litellm_embedded") then Ret LiteLLMAdapter
  else if bool_decide (backend = "portkey") then Ret PortkeyAdapter
  else if bool_decide (backend = "cullis_native") then
    if bool_decide (provider = "anthropic") then Ret AnthropicAdapter
    else if bool_decide (provider = "openai") then Ret OpenAIAdapter
    else if bool_decide (provider = "ollama") then Ret OllamaAdapter
    else
      let msg := "The cullis_native backend has no adapter for provider " +:+ repr_str provider +:+
                 " yet. Pin MCP_PROXY_AI_GATEWAY_BACKEND=litellm_embedded to keep using LiteLLM for this provider." in
      Raise (GatewayError 501 ("provider_native_not_implemented:" +:+ or_default "unknown" (Some provider))
               (Some msg) (Some msg))
  else Raise (GatewayError 501 ("backend_not_implemented:" +:+ backend)
                (Some ("AI gateway backend " +:+ repr_str backend +:+ " is not wired.")) None).

(** A row of [ai_provider_credentials] as [get_ai_provider_creds] gives it. *)
Record provider_creds := { creds : fields; creds_enabled : bool }.

Record GatewayResult := {
  response : fields;                      (* response.model_dump() *)
  upstream_request_id : json;
  backend : string;
  provider : string;
  prompt_tokens : Z;
  completion_tokens : Z;
  cost_usd : json;
}.

(** A stream an adapter has opened: its chunks, how it ends, and what the
    adapter has counted after so many pulls. *)
Inductive stream_end := Exhausted | Broken (e : exn).

Record StreamingDispatch := {
  sd_backend : string;
  sd_provider : string;
  sd_chunks : list fields;
  sd_end : stream_end;
  sd_prompt_tokens : nat → Z;
  sd_completion_tokens : nat → Z;
  sd_cost_usd : json;
  sd_upstream_request_id : json;
  sd_latency_ms : Z;
}.

(** ** What the handler meets *)

Record chat_settings := {
  llm_tokens_per_minute : Z;
  llm_tokens_per_day : Z;
  llm_tokens_per_month : Z;
  ai_gateway_backend : string;
  ai_gateway_provider : string;
  anthropic_api_key : string;
}.

Record chat_env := {
  e_auditing : auditing;
  settings : chat_settings;
  trace_id : string;
  peeked_at : Z;                 (* time.monotonic() *)
  consumed_at : Z;
  admitted_at : date_fields;     (* datetime.now(utc) *)
  settled_at : date_fields;
  agent_budgets : outcome (gmap string budget_row);
  trail_read : option exn;       (* whether the read of a seed fails *)
  day_cut : option nat;          (* from which call on Redis fails *)
  month_cut : option nat;
  adjust_fails : bool * bool * (bool * bool);    (* reservation, settlement; day, month *)
  provider_row : string → outcome (option provider_creds);
  chat_completion : adapter → ChatCompletionRequest → string → fields → outcome GatewayResult;
  stream_chat_completion : adapter → ChatCompletionRequest → string → fields → outcome StreamingDispatch;
  latency_ms : Z;
  json_loads : string → outcome json;
}.

Definition _resolve_provider_creds (E : chat_env) (model : string) : outcome (string * fields) :=
  let provider := parse_provider_from_model model in
  if negb (bool_decide (provider ∈ PROVIDERS)) then
    Raise (GatewayError 501 ("provider_not_implemented:" +:+ provider)
             (Some ("No catalog entry for provider " +:+ repr_str provider +:+ ".")) None)
  else
    let! row := provider_row E provider in
    match row with
    | None =>
        if bool_decide (provider = "anthropic") && negb (bool_decide (anthropic_api_key (settings E) = ""))
        then Ret (provider, [("api_key", JStr (anthropic_api_key (settings E)))])
        else
          let msg := "Provider " +:+ repr_str provider +:+
                     " is not configured. Add credentials in the Mastio dashboard (Settings → AI Providers)." in
          Raise (GatewayError 503 "provider_not_configured" (Some msg) (Some msg))
    | Some row =>
        if negb (creds_enabled row) then
          let msg := "Provider " +:+ repr_str provider +:+ " is configured but disabled." in
          Raise (GatewayError 503 "provider_disabled" (Some msg) (Some msg))
        else Ret (provider, creds row)
    end.

Definition with_model (m : string) (r : ChatCompletionRequest) : ChatCompletionRequest :=
  {| model := m; messages := messages r; max_tokens := max_tokens r; temperature := temperature r;
     stream := stream r; req_tools := req_tools r; tool_choice := tool_choice r |}.

Definition _normalize_model_for_backend (req : ChatCompletionRequest) (backend provider : string)
    : ChatCompletionRequest :=
  if bool_decide (backend = "cullis_native") then with_model (strip_provider_prefix (model req) provider) req
  else req.

(** The adapter with what it is entered with. *)
Definition dispatch_target (E : chat_env) (req : ChatCompletionRequest)
    : outcome (adapter * ChatCompletionRequest * string * fields) :=
  let backend := lower (ai_gateway_backend (settings E)) in
  let! (provider, creds) := _resolve_provider_creds E (model req) in
  let! adapter := resolve_adapter backend provider in
  Ret (adapter, _normalize_model_for_backend req backend provider, provider, creds).

(** ** Where a request goes, said without the code

    [route] is what an adapter is entered with: the adapter, the request, the
    provider and its credentials. *)

Definition route : Type := adapter * ChatCompletionRequest * string * fields.

(** The beginnings of a model id that name a provider outright, and those of
    the bare ids. *)
Definition outright_names : list (string * string) :=
  [("anthropic/", "anthropic"); ("openai/", "openai"); ("gemini/", "gemini"); ("vertex_ai/", "vertex");
   ("bedrock/", "bedrock"); ("ollama/", "ollama"); ("ollama_chat/", "ollama")].
Definition model_names : list (string * string) :=
  outright_names ++
  [("claude-", "anthropic"); ("anthropic.", "anthropic"); ("gpt-", "openai"); ("o1", "openai");
   ("gemini-", "gemini")].

Definition begins (id : string) (table : list (string * string)) (start p : string) : Prop :=
  (start, p) ∈ table ∧ startswith id start = true.

(** The provider a model id names; [anthropic] for an id that names none. *)
Definition names (model p : string) : Prop :=
  let id := lower (strip model) in
  (∃ start, begins id model_names start p) ∨
  (p = "anthropic" ∧ ∀ start q, ¬ begins id model_names start q).

(** Its row is enabled, or it is Anthropic without a row and the key is in the
    settings. *)
Definition credentialed (E : chat_env) (p : string) (c : fields) : Prop :=
  (∃ row, provider_row E p = Ret (Some row) ∧ creds_enabled row = true ∧ c = creds row) ∨
  (provider_row E p = Ret None ∧ p = "anthropic" ∧ anthropic_api_key (settings E) ≠ "" ∧
   c = [("api_key", JStr (anthropic_api_key (settings E)))]).

(** The adapter of a backend for a provider. *)
Inductive speaks : string → string → adapter → Prop :=
| litellm_speaks p : speaks "litellm_embedded" p LiteLLMAdapter
| portkey_speaks p : speaks "portkey" p PortkeyAdapter
| native_anthropic : speaks "cullis_native" "anthropic" AnthropicAdapter
| native_openai : speaks "cullis_native" "openai" OpenAIAdapter
| native_ollama : speaks "cullis_native" "ollama" OllamaAdapter.

(** The id a backend is given: the native adapters are not given the name of
    the provider. *)
Definition sent_as (backend p model sent : string) : Prop :=
  let id := lower (strip model) in
  if bool_decide (backend = "cullis_native") then
    (∃ start, begins id outright_names start p ∧ sent = drop_prefix start (strip model)) ∨
    ((∀ start, ¬ begins id outright_names start p) ∧ sent = strip model)
  else sent = model.

Definition routed (E : chat_env) (req : ChatCompletionRequest) (call : route) : Prop :=
  let '(a, r, p, c) := call in
  let backend := lower (ai_gateway_backend (settings E)) in
  names (model req) p ∧ credentialed E p c ∧ speaks backend p a ∧
  ∃ sent, sent_as backend p (model req) sent ∧ r = with_model sent req.

Lemma lower_twice s : lower (lower s) = lower s.
Proof. induction s as [|c s IH]; [done|]. cbn [lower]. rewrite IH. f_equal. by destruct c as [[] [] [] [] [] [] [] []]. Qed.

Lemma startswith_both s a b :
  startswith s a = true → startswith s b = true → startswith a b || startswith b a = true.
Proof.
  revert a b. induction s as [|c s IH]; intros [|x a] [|y b]; cbn; try done.
  intros [->%bool_decide_eq_true Ha]%andb_true_iff [->%bool_decide_eq_true Hb]%andb_true_iff.
  rewrite bool_decide_eq_true_2 by done. by apply IH.
Qed.

(** No id has two of the beginnings. *)
Lemma begins_once id start start' p p' :
  begins id model_names start p → begins id model_names start' p' → start = start' ∧ p = p'.
Proof.
  intros [Hin Hs] [Hin' Hs']. pose proof (startswith_both _ _ _ Hs Hs') as Hor.
  assert (forallb (λ a, forallb (λ b, negb (startswith (fst a) (fst b) || startswith (fst b) (fst a))
    || bool_decide (a = b)) model_names) model_names = true) as Hall by (vm_compute; reflexivity).
  rewrite forallb_forall in Hall. specialize (Hall (start, p) ltac:(by apply list_elem_of_In)).
  rewrite forallb_forall in Hall. specialize (Hall (start', p') ltac:(by apply list_elem_of_In)).
  cbn [fst] in Hall. rewrite Hor in Hall. cbn in Hall. apply bool_decide_eq_true in Hall. by injection Hall.
Qed.

Fixpoint first_listed (id : string) (table : list (string * string)) : option (string * string) :=
  match table with
  | [] => None
  | (start, p) :: rest => if startswith id start then Some (start, p) else first_listed id rest
  end.

Lemma first_listed_spec id table :
  match first_listed id table with
  | Some (start, p) => begins id table start p
  | None => ∀ start p, ¬ begins id table start p
  end.
Proof.
  induction table as [|[start p] table IH]; cbn; [by intros start p [Hin%elem_of_nil _]|].
  destruct (startswith id start) eqn:Hs; [split; [left|done]|].
  destruct (first_listed id table) as [[x q]|].
  - destruct IH as [Hin Hx]. split; [by right|done].
  - intros x q [[[= -> ->]|Hin]%elem_of_cons Hx]; [congruence|by apply (IH x q)].
Qed.

Lemma parse_first model :
  parse_provider_from_model model =
  match first_listed (lower (strip model)) model_names with Some (_, p) => p | None => "anthropic" end.
Proof.
  unfold parse_provider_from_model, model_names, outright_names, _PROVIDER_PREFIXES. cbn [prefixed first_listed app].
  repeat (destruct (startswith _ _); [done|]). done.
Qed.

Lemma names_iff model p : names model p ↔ parse_provider_from_model model = p.
Proof.
  rewrite parse_first. unfold names. pose proof (first_listed_spec (lower (strip model)) model_names) as Hfirst.
  destruct (first_listed _ _) as [[start q]|].
  - split; [|intros <-; left; by exists start].
    intros [[start' Hb]|[_ Hno]]; [by destruct (begins_once _ _ _ _ _ Hfirst Hb)|by destruct (Hno start q)].
  - split; [|intros <-; by right]. intros [[start' Hb]|[-> _]]; [by destruct (Hfirst start' p)|done].
Qed.

Lemma named_in_catalog model : parse_provider_from_model model ∈ PROVIDERS.
Proof.
  rewrite parse_first. cbn [first_listed app model_names outright_names].
  repeat (destruct (startswith _ _); [set_solver|]). set_solver.
Qed.

Lemma credentialed_iff E model p c :
  names model p → credentialed E p c ↔ _resolve_provider_creds E model = Ret (p, c).
Proof.
  intros <-%names_iff. unfold _resolve_provider_creds, credentialed.
  rewrite bool_decide_eq_true_2 by apply named_in_catalog. cbn [negb].
  set (p := parse_provider_from_model model). destruct (provider_row E p) as [[row|]|e]; cbn [obind].
  - destruct (creds_enabled row) eqn:Hen; cbn [negb].
    + split; [intros [(row' & [= <-] & _ & ->)|[[=] _]]; done|].
      intros [= <-]. left. by exists row.
    + split; [|done]. intros [(row' & [= <-] & Hen' & _)|[[=] _]]. congruence.
  - destruct (bool_decide_reflect (p = "anthropic")) as [Hp|Hp]; cbn [andb].
    + destruct (bool_decide_reflect (anthropic_api_key (settings E) = "")) as [Hk|Hk]; cbn [negb].
      * split; [|done]. intros [(row & [=] & _)|(_ & _ & Hk' & _)]. done.
      * split; [intros [(row & [=] & _)|(_ & _ & _ & ->)]; done|]. intros [= <-]. by right.
    + split; [|done]. intros [(row & [=] & _)|(_ & Hp' & _)]. done.
  - split; [|done]. intros [(row & [=] & _)|([=] & _)].
Qed.

Lemma speaks_iff backend p a : speaks (lower backend) p a ↔ resolve_adapter backend p = Ret a.
Proof.
  unfold resolve_adapter. generalize (lower backend). intros b. split.
  - by destruct 1.
  - repeat case_bool_decide; subst; try discriminate; intros [= <-]; constructor.
Qed.

Lemma stripped_first id m p table :
  stripped_prefix m id p table =
  match first_listed id (List.filter (λ kv, bool_decide (snd kv = p)) table) with
  | Some (start, _) => drop_prefix start m
  | None => m
  end.
Proof.
  induction table as [|[start q] table IH]; [done|]. cbn [stripped_prefix List.filter snd].
  destruct (bool_decide (q = p)); cbn [andb]; [|done]. cbn [first_listed]. by destruct (startswith id start).
Qed.

Lemma begins_filter id table p start q :
  begins id (List.filter (λ kv, bool_decide (snd kv = p)) table) start q ↔ begins id table start q ∧ q = p.
Proof.
  unfold begins. rewrite !list_elem_of_In, filter_In. cbn [snd]. rewrite bool_decide_eq_true. naive_solver.
Qed.

Lemma sent_iff E req p sent :
  let backend := lower (ai_gateway_backend (settings E)) in
  sent_as backend p (model req) sent →
  with_model sent req = _normalize_model_for_backend req backend p.
Proof.
  unfold sent_as, _normalize_model_for_backend. cbv zeta. destruct (bool_decide _); [|by intros ->; destruct req].
  intros Hsent. f_equal. unfold strip_provider_prefix. rewrite stripped_first.
  set (id := lower (strip (model req))) in *. change _PROVIDER_PREFIXES with outright_names.
  pose proof (first_listed_spec id (List.filter (λ kv, bool_decide (snd kv = p)) outright_names)) as Hfirst.
  destruct (first_listed _ _) as [[start q]|].
  - apply begins_filter in Hfirst as [Hb ->].
    destruct Hsent as [(start' & Hb' & ->)|[Hno _]]; [|by destruct (Hno start)].
    assert (∀ x, begins id outright_names x p → begins id model_names x p) as Hmore.
    { intros x [Hin Hx]. split; [|done]. apply elem_of_app. by left. }
    by destruct (begins_once id start' start p p (Hmore _ Hb') (Hmore _ Hb)) as [-> _].
  - destruct Hsent as [(start' & Hb' & ->)|[_ ->]]; [|done].
    by destruct (Hfirst start' p); apply begins_filter.
Qed.

Lemma sent_exists backend p model : ∃ sent, sent_as backend p model sent.
Proof.
  unfold sent_as. cbv zeta. destruct (bool_decide _); [|by eexists].
  pose proof (first_listed_spec (lower (strip model)) (List.filter (λ kv, bool_decide (snd kv = p)) outright_names))
    as Hfirst. destruct (first_listed _ _) as [[start q]|].
  - apply begins_filter in Hfirst as [Hb ->]. eexists. left. by exists start.
  - eexists. right. split; [|done]. intros start Hb. apply (Hfirst start p). by apply begins_filter.
Qed.

(** [dispatch] goes where the request is routed, and nowhere else. *)
Lemma routed_iff E req call : routed E req call ↔ dispatch_target E req = Ret call.
Proof.
  destruct call as [[[a r] p] c]. unfold routed, dispatch_target. split.
  - intros (Hn & Hc & Hs & sent & Hsent & ->). apply (credentialed_iff E _ p c Hn) in Hc. rewrite Hc. cbn [obind].
    assert (resolve_adapter (lower (ai_gateway_backend (settings E))) p = Ret a) as -> by
      (apply speaks_iff; by rewrite lower_twice).
    cbn [obind]. by rewrite (sent_iff E req p sent Hsent).
  - destruct (_resolve_provider_creds E (model req)) as [[p' c']|e] eqn:Hc; [|done]. cbn [obind].
    destruct (resolve_adapter _ p') as [a'|e] eqn:Ha; [|done]. cbn [obind]. intros [= -> <- -> ->].
    assert (names (model req) p) as Hn.
    { apply names_iff. revert Hc. unfold _resolve_provider_creds. destruct (negb _); [done|].
      destruct (provider_row _ _) as [[row|]|e]; cbn [obind]; [| |done].
      - destruct (negb _); [done|]. by intros [= -> _].
      - destruct (_ && _); [|done]. by intros [= -> _]. }
    split_and!; [done|by apply (credentialed_iff E _ p c Hn)| |].
    + apply speaks_iff in Ha. by rewrite lower_twice in Ha.
    + destruct (sent_exists (lower (ai_gateway_backend (settings E))) p (model req)) as [sent Hsent].
      exists sent. split; [done|]. symmetry. by apply sent_iff.
Qed.

(** ** The state of the process *)

Section Chat.
Context `{Hash} `{Backend}.

Record chat_state := {
  k_trail : world;
  k_audits : nat;
  windows : token_windows;      (* get_token_sum_limiter() *)
  counters : store;             (* get_budget_counter() *)
  entered : list route;         (* what the adapters were entered with, in order *)
}.

#[export] Instance chat_trailed : Trailed chat_state := {
  trail := k_trail;
  audit_calls := k_audits;
  audited := λ w s, {| k_trail := w; k_audits := Datatypes.S (k_audits s); windows := windows s;
                       counters := counters s; entered := entered s |};
  trail_audited := λ w s, eq_refl;
}.

Definition with_windows (w : token_windows) (s : chat_state) : chat_state :=
  {| k_trail := k_trail s; k_audits := k_audits s; windows := w; counters := counters s; entered := entered s |}.
Definition with_counters (c : store) (s : chat_state) : chat_state :=
  {| k_trail := k_trail s; k_audits := k_audits s; windows := windows s; counters := c; entered := entered s |}.
Definition with_call (call : route) (s : chat_state) : chat_state :=
  {| k_trail := k_trail s; k_audits := k_audits s; windows := windows s; counters := counters s;
     entered := entered s ++ [call] |}.

Context (E : chat_env).
Notation M := (M chat_state).

Section Request.
Context (req : ChatCompletionRequest) (agent : InternalAgent).

Definition LLM_CHAT : string := "llm.chat".

Definition _token_bucket_key : string := "principal:" +:+ ag_agent_id agent +:+ ":llm_tokens".

Definition peek_tokens : M Z := λ s,
  let '(sum, w) := peek (peeked_at E) _token_bucket_key (windows s) in (Ret sum, with_windows w s).
Definition consume_tokens (weight : Z) : M unit :=
  modify (λ s, with_windows (consume (consumed_at E) _token_bucket_key weight (windows s)) s).

(** The seed of a missing counter is read from the trail of the process. *)
Definition trail_table (s : chat_state) : outcome (list audit_row) :=
  match trail_read E with Some e => Raise e | None => Ret (w_table (k_trail s)) end.

Definition budget_current : M (Z * Z) := λ s,
  let '(used, c) := current (json_loads E) (day_cut E) (month_cut E) (ag_agent_id agent) (admitted_at E)
                      (trail_table s) (counters s) in
  (Ret used, with_counters c s).

Definition reserve (delta : Z) : M unit :=
  let '(day_fails, month_fails) := fst (adjust_fails E) in
  modify (λ s, with_counters (add_delta day_fails month_fails (ag_agent_id agent) delta (admitted_at E)
                                (counters s)) s).
Definition settle (delta : Z) : M unit :=
  let '(day_fails, month_fails) := snd (adjust_fails E) in
  modify (λ s, with_counters (add_delta day_fails month_fails (ag_agent_id agent) delta (settled_at E)
                                (counters s)) s).

(** ** Rows of the trail *)

Definition base_details : fields :=
  [("event", JStr "llm.chat_completion"); ("principal_id", JStr (ag_agent_id agent));
   ("principal_type", JStr (ag_principal_type agent))].

Definition chat_row (status : string) (duration_ms : option Q) (details : fields) : audit_call :=
  {| c_agent_id := ag_agent_id agent; c_action := "egress_llm_chat"; c_status := status;
     c_tool_name := None; c_detail := None; c_details := Some (JObj (base_details ++ details));
     c_request_id := None; c_duration_ms := duration_ms; c_dpop_jkt := None;
     c_on_behalf_of_user_id := None |}.

Definition model_trace : fields := [("model", JStr (model req)); ("trace_id", JStr (trace_id E))].
Definition configured : fields :=
  [("backend", JStr (ai_gateway_backend (settings E))); ("provider", JStr (ai_gateway_provider (settings E)))].

Definition audit (c : audit_call) : M unit := Effects.audit (e_auditing E) c.

Definition refused {A} (code : Z) (body : fields) : M A :=
  raise (HTTPException code (dumps_plain (JObj body))).

(** ** The gates *)

Definition capability_gate : M unit :=
  if bool_decide (LLM_CHAT ∈ ag_capabilities agent) then ret tt
  else
    do _ <- audit (chat_row "denied" None (model_trace ++
      [("reason", JStr "capability_missing"); ("required_capability", JStr LLM_CHAT)]));
    refused 403 [("reason", JStr "capability_missing"); ("trace_id", JStr (trace_id E));
                 ("required_capability", JStr LLM_CHAT)].

Definition scope_gate : M unit :=
  match ag_scope_providers agent with
  | None | Some [] => ret tt
  | Some scope =>
      let req_provider := parse_provider_from_model (model req) in
      if bool_decide (req_provider ∈ scope) then ret tt
      else
        let scope := JList (JStr <$> scope) in
        do _ <- audit (chat_row "denied" None (model_trace ++
          [("reason", JStr "token_scope_provider_mismatch"); ("requested_provider", JStr req_provider);
           ("scope_providers", scope)]));
        refused 403 [("reason", JStr "token_scope_provider_mismatch"); ("trace_id", JStr (trace_id E));
                     ("requested_provider", JStr req_provider); ("allowed_providers", scope)]
  end.

Definition token_rate_gate : M unit :=
  let limit := llm_tokens_per_minute (settings E) in
  if 0 <? limit then
    do current_sum <- peek_tokens;
    if limit <=? current_sum then
      do _ <- audit (chat_row "error" None (configured ++ model_trace ++
        [("reason", JStr "local_rate_limited_tokens"); ("current_window_tokens", JInt current_sum);
         ("limit_tokens_per_minute", JInt limit); ("stream", JBool (stream req))]));
      refused 429 [("reason", JStr "local_rate_limited_tokens"); ("trace_id", JStr (trace_id E));
                   ("current_window_tokens", JInt current_sum); ("limit_tokens_per_minute", JInt limit)]
    else ret tt
  else ret tt.

(** Whether a ceiling applies, and the tokens reserved below it. *)
Definition budget_gate : M (bool * Z) :=
  do budgets <- lift (agent_budgets E);
  let '(budget_day, budget_month) :=
    effective_budget (ag_agent_id agent) (llm_tokens_per_day (settings E)) (llm_tokens_per_month (settings E))
      budgets in
  if negb ((0 <? budget_day) || (0 <? budget_month)) then ret (false, 0)
  else
    do (used_day, used_month) <- budget_current;
    let over_day := (0 <? budget_day) && (budget_day <=? used_day) in
    let over_month := (0 <? budget_month) && (budget_month <=? used_month) in
    if over_day || over_month then
      let reason := if over_day then "daily_budget_exceeded" else "monthly_budget_exceeded" in
      let spent := [("used_day_tokens", JInt used_day); ("used_month_tokens", JInt used_month);
                    ("budget_tokens_per_day", JInt budget_day); ("budget_tokens_per_month", JInt budget_month)] in
      do _ <- audit (chat_row "denied" None (configured ++ model_trace ++ [("reason", JStr reason)] ++ spent ++
                [("stream", JBool (stream req))]));
      refused 429 ([("reason", JStr reason); ("trace_id", JStr (trace_id E))] ++ spent)
    else
      do _ <- reserve (_reservation_tokens req);
      ret (true, _reservation_tokens req).

(** ** Dispatch and settlement *)

(** The adapter is entered with what [dispatch] has resolved.  Whether it
    calls its provider is its own matter: it may refuse before it does, or,
    when it streams, do so at the first pull. *)
Definition call_adapter {A} (f : adapter → ChatCompletionRequest → string → fields → outcome A) : M A :=
  do target <- lift (dispatch_target E req);
  let '(a, r, p, c) := target in
  do _ <- modify (with_call target);
  lift (f a r p c).

Definition _gateway_error_detail (reason : string) (hint : option string) : fields :=
  [("reason", JStr reason); ("trace_id", JStr (trace_id E))] ++
  match hint with Some (String _ _ as h) => [("hint", JStr h)] | _ => [] end.

(** [try: await dispatch(...) except GatewayError]: the reservation goes back
    and the failure is recorded; any other exception leaves as it is. *)
Definition gateway_failed {A} (enforced : bool) (reserved : Z) (more : fields) (e : exn) : M A :=
  match e with
  | GatewayError status reason detail hint =>
      do _ <- (if enforced then settle (- reserved) else ret tt);
      do _ <- audit (chat_row "error" None (configured ++ model_trace ++
        [("reason", JStr reason); ("upstream_detail", opt_json detail)] ++ more));
      refused status (_gateway_error_detail reason hint)
  | e => raise e
  end.

Definition or_gateway_error {A} (enforced : bool) (reserved : Z) (more : fields) (m : M A) : M A :=
  catch m (gateway_failed enforced reserved more).

Definition charge (enforced : bool) (reserved weight : Z) : M unit :=
  if enforced then settle (weight - reserved) else ret tt.

Definition success_details (r : GatewayResult) : fields :=
  [("backend", JStr (backend r)); ("provider", JStr (provider r))] ++ model_trace ++
  [("upstream_request_id", upstream_request_id r); ("latency_ms", JInt (latency_ms E));
   ("prompt_tokens", JInt (prompt_tokens r)); ("completion_tokens", JInt (completion_tokens r));
   ("cost_usd", cost_usd r); ("cache_hit", JBool false)].

Definition with_trace_id (payload : fields) : fields :=
  if has_key "cullis_trace_id" payload then payload
  else payload ++ [("cullis_trace_id", JStr (trace_id E))].

(** The body of a streamed answer runs later, in [sse]. *)
Inductive chat_answer :=
| Payload (payload : fields)
| EventStream (streamer : StreamingDispatch) (enforced : bool) (reserved : Z).

Definition complete (enforced : bool) (reserved : Z) : M chat_answer :=
  do result <- or_gateway_error enforced reserved [] (call_adapter (chat_completion E));
  let weight := prompt_tokens result + completion_tokens result in
  do _ <- (if 0 <? llm_tokens_per_minute (settings E) then consume_tokens weight else ret tt);
  do _ <- charge enforced reserved weight;
  do _ <- audit (chat_row "success" (Some (inject_Z (latency_ms E))) (success_details result));
  ret (Payload (with_trace_id (response result))).

Definition _handle_stream (enforced : bool) (reserved : Z) : M chat_answer :=
  do streamer <- or_gateway_error enforced reserved [("stream", JBool true)]
                   (call_adapter (stream_chat_completion E));
  ret (EventStream streamer enforced reserved).

Definition chat_completions : M chat_answer :=
  do _ <- capability_gate;
  do _ <- scope_gate;
  do _ <- token_rate_gate;
  do (enforced, reserved) <- budget_gate;
  if stream req then _handle_stream enforced reserved else complete enforced reserved.

(** ** The stream of the answer *)

Record tool_block := { tool_name : json; started_at : Q }.

(** The locals of [sse] beside the state of the process.  [frames] are the
    frames the generator has yielded, [pulls] the steps of the adapter. *)
Record sse_state := {
  process : chat_state;
  tool_state : list (json * tool_block);
  tools_summary : list json;
  observed_completion_chars : Z;
  upstream_drained : bool;
  terminated_with_error : option (string * option string);   (* reason, detail *)
  pulls : nat;
  frames : list string;
}.

Definition fresh_sse (s : chat_state) : sse_state :=
  {| process := s; tool_state := []; tools_summary := []; observed_completion_chars := 0;
     upstream_drained := false; terminated_with_error := None; pulls := 0; frames := [] |}.

Definition with_process (c : chat_state) (s : sse_state) : sse_state :=
  {| process := c; tool_state := tool_state s; tools_summary := tools_summary s;
     observed_completion_chars := observed_completion_chars s; upstream_drained := upstream_drained s;
     terminated_with_error := terminated_with_error s; pulls := pulls s; frames := frames s |}.
Definition with_tools (ts : list (json * tool_block)) (sum : list json) (s : sse_state) : sse_state :=
  {| process := process s; tool_state := ts; tools_summary := sum;
     observed_completion_chars := observed_completion_chars s; upstream_drained := upstream_drained s;
     terminated_with_error := terminated_with_error s; pulls := pulls s; frames := frames s |}.
Definition with_observed (n : Z) (s : sse_state) : sse_state :=
  {| process := process s; tool_state := tool_state s; tools_summary := tools_summary s;
     observed_completion_chars := observed_completion_chars s + n; upstream_drained := upstream_drained s;
     terminated_with_error := terminated_with_error s; pulls := pulls s; frames := frames s |}.
Definition with_end (drained : bool) (err : option (string * option string)) (s : sse_state) : sse_state :=
  {| process := process s; tool_state := tool_state s; tools_summary := tools_summary s;
     observed_completion_chars := observed_completion_chars s; upstream_drained := drained;
     terminated_with_error := err; pulls := pulls s; frames := frames s |}.
Definition with_frame (f : string) (s : sse_state) : sse_state :=
  {| process := process s; tool_state := tool_state s; tools_summary := tools_summary s;
     observed_completion_chars := observed_completion_chars s; upstream_drained := upstream_drained s;
     terminated_with_error := terminated_with_error s; pulls := pulls s; frames := frames s ++ [f] |}.
Definition with_pull (s : sse_state) : sse_state :=
  {| process := process s; tool_state := tool_state s; tools_summary := tools_summary s;
     observed_completion_chars := observed_completion_chars s; upstream_drained := upstream_drained s;
     terminated_with_error := terminated_with_error s; pulls := Datatypes.S (pulls s); frames := frames s |}.

#[export] Instance sse_trailed : Trailed sse_state := {
  trail := λ s, k_trail (process s);
  audit_calls := λ s, k_audits (process s);
  audited := λ w s, with_process (audited w (process s)) s;
  trail_audited := λ w s, eq_refl;
}.

Notation G := (Effects.M sse_state).

Section Stream.
Context (streamer : StreamingDispatch) (enforce_budget : bool) (reserve_tokens : Z).

(** When the client goes away: the generator is closed at the yield of this
    frame. *)
Context (hang_up : option nat) (monotonic : nat → Q).

Definition yield_ (f : string) : G unit := λ s,
  let s := with_frame f s in
  (if bool_decide (hang_up = Some (length (frames s))) then Raise GeneratorExit else Ret tt, s).

(** [except Exception] lets [GeneratorExit] pass. *)
Definition catch_exception {A} (m : G A) (h : exn → G A) : G A :=
  catch m (λ e, if bool_decide (e = GeneratorExit) then raise e else h e).

Definition newline : string := String (ascii_of_N 10) "".
Definition data_frame (j : json) : string := "data: " +:+ dumps_plain j +:+ newline +:+ newline.
Definition event_frame (event : string) (j : json) : string :=
  "event: " +:+ event +:+ newline +:+ data_frame j.

Definition now_ : G Q := gets (λ s, monotonic (length (frames s))).

(** [int(x)] *)
Definition truncated (x : Q) : Z := Z.quot (Qnum x) (Zpos (Qden x)).

Definition tool_row (name : json) (latency : Z) : audit_call :=
  {| c_agent_id := ag_agent_id agent; c_action := "llm.tool_call"; c_status := "success";
     c_tool_name := Some (str_of name); c_detail := None;
     c_details := Some (JObj [("event", JStr "llm.tool_call"); ("principal_id", JStr (ag_agent_id agent));
       ("principal_type", JStr (ag_principal_type agent)); ("backend", JStr (sd_backend streamer));
       ("provider", JStr (sd_provider streamer)); ("model", JStr (model req)); ("trace_id", JStr (trace_id E));
       ("tool", name); ("latency_ms", JInt latency)]);
     c_request_id := None; c_duration_ms := Some (inject_Z latency); c_dpop_jkt := None;
     c_on_behalf_of_user_id := None |}.

Definition _emit_tool_end (b : tool_block) : G Z :=
  do now <- now_;
  let latency := truncated ((now - started_at b) * 1000) in
  do _ <- modify (λ s, with_tools (tool_state s)
            (tools_summary s ++ [JObj [("name", tool_name b); ("latency_ms", JInt latency)]]) s);
  do _ <- catch_exception (Effects.audit (e_auditing E) (tool_row (tool_name b) latency)) (λ _, ret tt);
  ret latency.

Definition dict_of (v : json) : outcome fields :=
  match v with JObj f => Ret f | _ => Raise AttributeError end.

(** [choices[0]] *)
Definition first_choice (v : json) : outcome json :=
  match v with
  | JList (c :: _) => Ret c
  | JStr s => match chars s with c :: _ => Ret (JStr c) | [] => Raise IndexError end
  | JObj _ => Raise KeyError
  | _ => Raise TypeError
  end.

Definition known (idx : json) (l : list (json * tool_block)) : bool := existsb (λ kv, json_eq (fst kv) idx) l.

Definition start_tool (tc : json) : G unit :=
  do tc <- lift (dict_of tc);
  let idx := default (JInt 0) (get "index" tc) in
  do fn <- lift (dict_of (py_or (get_none "function" tc) (JObj [])));
  let name := get_none "name" fn in
  if negb (py_bool name) then ret tt
  else if negb (hashable idx) then raise TypeError
  else
    do blocks <- gets tool_state;
    if known idx blocks then ret tt
    else
      do now <- now_;
      do _ <- modify (λ s, with_tools (tool_state s ++ [(idx, {| tool_name := name; started_at := now |})])
                (tools_summary s) s);
      yield_ (event_frame "tool_call_start" (JObj [("tool", name)])).

Fixpoint each {A} (f : A → G unit) (l : list A) : G unit :=
  match l with [] => ret tt | x :: rest => do _ <- f x; each f rest end.

Definition end_tool (b : json * tool_block) : G unit :=
  do latency <- _emit_tool_end (snd b);
  do _ <- yield_ (event_frame "tool_call_end" (JObj [("tool", tool_name (snd b)); ("latency_ms", JInt latency)]));
  modify (λ s, with_tools (List.filter (λ kv, negb (json_eq (fst kv) (fst b))) (tool_state s)) (tools_summary s) s).

(** The body of the parser's [try]. *)
Definition parse_chunk (chunk : fields) : G unit :=
  let choices := py_or (get_none "choices" chunk) (JList []) in
  if negb (py_bool choices) then ret tt
  else
    do choice0 <- lift (first_choice choices);
    do choice0 <- lift (dict_of choice0);
    do delta <- lift (dict_of (py_or (get_none "delta" choice0) (JObj [])));
    do _ <- (match get_none "content" delta with
             | JStr piece => modify (with_observed (Z.of_nat (length (chars piece))))
             | _ => ret tt
             end);
    do tcs <- lift (py_iter (py_or (get_none "tool_calls" delta) (JList [])));
    do _ <- each start_tool tcs;
    if is_str "tool_calls" (get_none "finish_reason" choice0) then
      do blocks <- gets tool_state; each end_tool blocks
    else ret tt.

Definition relay (chunk : fields) : G unit :=
  do _ <- modify with_pull;
  let chunk := with_trace_id chunk in
  do _ <- catch_exception (parse_chunk chunk) (λ _, ret tt);
  yield_ (data_frame (JObj chunk)).

Definition relay_all : G unit :=
  do _ <- each relay (sd_chunks streamer);
  do _ <- modify with_pull;
  match sd_end streamer with
  | Broken e => raise e
  | Exhausted =>
      do _ <- modify (with_end true None);
      do summary <- gets tools_summary;
      do _ <- (match summary with
               | [] => ret tt
               | _ => yield_ (event_frame "cullis_audit"
                        (JObj [("trace_id", JStr (trace_id E)); ("latency_ms", JInt (sd_latency_ms streamer));
                               ("tools", JList summary)]))
               end);
      yield_ ("data: [DONE]" +:+ newline +:+ newline)
  end.

(** The [except GatewayError] of the stream. *)
Definition stream_error (m : G unit) : G unit :=
  catch m (λ e,
    match e with
    | GatewayError _ reason detail hint =>
        do _ <- modify (λ s, with_end (upstream_drained s) (Some (reason, detail)) s);
        yield_ (data_frame (JObj [("error", JObj
          [("type", JStr reason); ("message", JStr (or_default reason hint));
           ("trace_id", JStr (trace_id E))])]))
    | e => raise e
    end).

(** The tokens a stream is charged for, and whether they are estimated. *)
Definition stream_tokens (s : sse_state) : Z * Z * bool :=
  let prompt := sd_prompt_tokens streamer (pulls s) in
  let completion := sd_completion_tokens streamer (pulls s) in
  let observed := observed_completion_chars s in
  let errored := bool_decide (terminated_with_error s ≠ None) in
  if upstream_drained s then (prompt, completion, false)
  else if (0 <? prompt + completion) || (0 <? observed) || negb errored then
    let '(prompt', est) := if prompt =? 0 then (_estimate_prompt_tokens req, true) else (prompt, false) in
    if (completion =? 0) && (0 <? observed) then (prompt', observed / _CHARS_PER_TOKEN, true)
    else (prompt', completion, est)
  else (prompt, completion, false).

Definition stream_identity : fields :=
  [("backend", JStr (sd_backend streamer)); ("provider", JStr (sd_provider streamer))] ++ model_trace.

Definition stream_details (s : sse_state) : fields :=
  let '(prompt, completion, estimated) := stream_tokens s in
  match terminated_with_error s with
  | Some (reason, detail) =>
      stream_identity ++
        [("reason", JStr reason); ("upstream_detail", opt_json detail); ("stream", JBool true);
         ("prompt_tokens", JInt prompt); ("completion_tokens", JInt completion);
         ("tokens_estimated", JBool estimated)]
  | None =>
      stream_identity ++
        [("upstream_request_id", sd_upstream_request_id streamer); ("latency_ms", JInt (sd_latency_ms streamer));
         ("prompt_tokens", JInt prompt); ("completion_tokens", JInt completion);
         ("cost_usd", sd_cost_usd streamer); ("cache_hit", JBool false); ("stream", JBool true)] ++
        (if upstream_drained s then []
         else [("reason", JStr "stream_not_drained"); ("tokens_estimated", JBool estimated)])
  end.

Definition stream_row (s : sse_state) : audit_call :=
  match terminated_with_error s with
  | Some _ => chat_row "error" None (stream_details s)
  | None => chat_row (if upstream_drained s then "success" else "truncated")
              (Some (inject_Z (sd_latency_ms streamer))) (stream_details s)
  end.

(** Effects of the handler inside the generator. *)
Definition in_process {A} (m : M A) : G A := λ s,
  let '(r, c) := m (process s) in (r, with_process c s).

(** The [finally] of the stream. *)
Definition settlement : G unit :=
  do weight <- gets (λ s, fst (fst (stream_tokens s)) + snd (fst (stream_tokens s)));
  do _ <- (if (0 <? llm_tokens_per_minute (settings E)) && (0 <? weight)
           then in_process (consume_tokens weight) else ret tt);
  do _ <- in_process (charge enforce_budget reserve_tokens weight);
  do row <- gets stream_row;
  Effects.audit (e_auditing E) row.

Definition finally {A} (m : G A) (f : G unit) : G A := λ s,
  let '(r, s1) := m s in
  match f s1 with (Ret _, s2) => (r, s2) | (Raise e, s2) => (Raise e, s2) end.

Definition sse : G unit := finally (stream_error relay_all) settlement.

(** The server runs the generator, unless the client has gone before the
    first frame: a generator that was never started has nothing to close. *)
Definition serve_stream (s : chat_state) : outcome unit * sse_state :=
  if bool_decide (hang_up = Some 0%nat) then (Ret tt, fresh_sse s) else sse (fresh_sse s).

End Stream.

End Request.
End Chat.

(** ** Who reaches a provider *)

Section Admission.
Context `{Hash} `{Backend} (E : chat_env) (req : ChatCompletionRequest) (agent : InternalAgent).

Definition scope_allows : bool :=
  match ag_scope_providers agent with
  | None | Some [] => true
  | Some scope => bool_decide (parse_provider_from_model (model req) ∈ scope)
  end.

Definition window_allows (s : chat_state) : bool :=
  negb (0 <? llm_tokens_per_minute (settings E)) ||
  (fst (peek (peeked_at E) (_token_bucket_key agent) (windows s)) <? llm_tokens_per_minute (settings E)).

Definition below (ceiling used : Z) : bool := negb ((0 <? ceiling) && (ceiling <=? used)).

Definition ceilings : outcome (Z * Z) :=
  let! budgets := agent_budgets E in
  Ret (effective_budget (ag_agent_id agent) (llm_tokens_per_day (settings E))
         (llm_tokens_per_month (settings E)) budgets).

Definition used_tokens (s : chat_state) : Z * Z := fst
  (current (json_loads E) (day_cut E) (month_cut E) (ag_agent_id agent) (admitted_at E)
     (trail_table E s) (counters s)).

Definition budget_allows (s : chat_state) : bool :=
  match ceilings with
  | Raise _ => false
  | Ret (day, month) => below day (fst (used_tokens s)) && below month (snd (used_tokens s))
  end.

(** Who is admitted, said without the gates: the capability; a scope of the
    token that is empty or has the provider; a window of the minute with room;
    below the ceilings of the day and the month, those of the agent's own row
    if it is enabled; and a route. *)
Definition room_in_window (s : chat_state) : Prop :=
  let limit := llm_tokens_per_minute (settings E) in
  limit <= 0 ∨
  weight (newer_entries (peeked_at E - _WINDOW_SECONDS)
            (default [] (windows s !! ("principal:" +:+ ag_agent_id agent +:+ ":llm_tokens")))) < limit.

Definition below_ceilings (s : chat_state) : Prop := ∃ budgets day month,
  agent_budgets E = Ret budgets ∧
  ((∃ row, budgets !! ag_agent_id agent = Some row ∧ Budget.enabled row = true ∧
      day = tokens_per_day row ∧ month = tokens_per_month row) ∨
   ((∀ row, budgets !! ag_agent_id agent = Some row → Budget.enabled row = false) ∧
      day = llm_tokens_per_day (settings E) ∧ month = llm_tokens_per_month (settings E))) ∧
  (day <= 0 ∨ fst (used_tokens s) < day) ∧ (month <= 0 ∨ snd (used_tokens s) < month).

Definition admitted (s : chat_state) (call : route) : Prop :=
  "llm.chat" ∈ ag_capabilities agent ∧
  (∀ p l, ag_scope_providers agent = Some (p :: l) → snd (fst call) ∈ p :: l) ∧
  room_in_window s ∧ below_ceilings s ∧ routed E req call.

Definition gates_open (s : chat_state) : bool :=
  bool_decide (LLM_CHAT ∈ ag_capabilities agent) && scope_allows && window_allows s && budget_allows s.

Lemma window_room s : window_allows s = true ↔ room_in_window s.
Proof.
  unfold window_allows, room_in_window, peek. cbn [fst]. rewrite orb_true_iff, negb_true_iff, Z.ltb_ge, Z.ltb_lt.
  reflexivity.
Qed.

Lemma below_iff ceiling used : below ceiling used = true ↔ ceiling <= 0 ∨ used < ceiling.
Proof. unfold below. rewrite negb_true_iff, andb_false_iff, Z.ltb_ge, Z.leb_gt. reflexivity. Qed.

Lemma budget_room s : budget_allows s = true ↔ below_ceilings s.
Proof.
  unfold budget_allows, below_ceilings, ceilings, effective_budget.
  destruct (agent_budgets E) as [budgets|e]; cbn [obind]; [|split; [done|intros (? & ? & ? & [=] & _)]].
  destruct (budgets !! ag_agent_id agent) as [row|] eqn:Hrow; [destruct (Budget.enabled row) eqn:Hen|];
    rewrite andb_true_iff, !below_iff.
  - split; [intros Hb; exists budgets; do 2 eexists; split; [done|]; split; [left; by exists row|done]|].
    intros (b & d & m & [= <-] & [(row' & Hr & _ & -> & ->)|[Hno _]] & Hb); [|by specialize (Hno row Hrow); congruence].
    rewrite Hr in Hrow. by injection Hrow as ->.
  - split; [intros Hb; exists budgets; do 2 eexists; split; [done|]; split; [right; split; [|done]|done]|].
    { intros row' Hr. congruence. }
    intros (b & d & m & [= <-] & [(row' & Hr & Hen' & _)|(_ & -> & ->)] & Hb); [congruence|done].
  - split; [intros Hb; exists budgets; do 2 eexists; split; [done|]; split; [right; split; [|done]|done]|].
    { intros row' Hr. congruence. }
    intros (b & d & m & [= <-] & [(row' & Hr & Hen' & _)|(_ & -> & ->)] & Hb); [congruence|done].
Qed.

Lemma scope_room call :
  routed E req call →
  scope_allows = true ↔ ∀ p l, ag_scope_providers agent = Some (p :: l) → snd (fst call) ∈ p :: l.
Proof.
  destruct call as [[[a r] p] c]. intros (Hn%names_iff & _). cbn [fst snd].
  unfold scope_allows. rewrite Hn. destruct (ag_scope_providers agent) as [[|q l]|].
  - split; [by intros _ ? ? [=]|done].
  - rewrite bool_decide_eq_true. split; [by intros Hin q' l' [= <- <-]|]. intros Hall. by apply Hall.
  - split; [by intros _ ? ? [=]|done].
Qed.

Lemma admitted_iff s call : admitted s call ↔ gates_open s = true ∧ dispatch_target E req = Ret call.
Proof.
  unfold admitted, gates_open. rewrite <- routed_iff, !andb_true_iff, bool_decide_eq_true, window_room, budget_room.
  split.
  - intros (Hcap & Hscope & Hw & Hb & Hr). split_and!; try done. by apply (scope_room call Hr).
  - intros ((((Hcap & Hscope) & Hw) & Hb) & Hr). split_and!; try done. by apply (scope_room call Hr).
Qed.

Lemma audit_called c s : entered (snd (audit E c s)) = entered s.
Proof. unfold audit, Effects.audit. by destruct (log_audit _ _ _ _). Qed.

Lemma refused_called {A} c code body s :
  ∃ e s', bind (audit E c) (λ _, @refused _ A code body) s = (Raise e, s') ∧ entered s' = entered s.
Proof.
  unfold bind, refused, raise. pose proof (audit_called c s) as Hc.
  destruct (audit E c s) as [[a|e] s']; cbn in *; by eexists _, _.
Qed.

(** A gate that passes changes nothing a later gate reads; one that refuses
    ends the request. *)
Definition gated (ok : bool) {A} (m : M chat_state A) (s : chat_state) (a : A) (s1 : chat_state) : Prop :=
  if ok then m s = (Ret a, s1) else ∃ e s', m s = (Raise e, s') ∧ entered s' = entered s.

Lemma capability_gated s :
  gated (bool_decide (LLM_CHAT ∈ ag_capabilities agent)) (capability_gate E req agent) s tt s.
Proof.
  unfold gated, capability_gate. destruct (bool_decide _); [done|]. apply refused_called.
Qed.

Lemma scope_gated s : gated scope_allows (scope_gate E req agent) s tt s.
Proof.
  unfold gated, scope_allows, scope_gate.
  destruct (ag_scope_providers agent) as [[|p l]|]; [done| |done].
  destruct (bool_decide _); [done|]. apply refused_called.
Qed.

(** What the window of the limiter becomes when it is looked at. *)
Definition after_peek (s : chat_state) : chat_state :=
  if 0 <? llm_tokens_per_minute (settings E)
  then with_windows (snd (peek (peeked_at E) (_token_bucket_key agent) (windows s))) s else s.

Lemma window_gated s : gated (window_allows s) (token_rate_gate E req agent) s tt (after_peek s).
Proof.
  unfold gated, window_allows, token_rate_gate, after_peek.
  destruct (0 <? llm_tokens_per_minute (settings E)) eqn:Hlim; [|done].
  cbn [negb orb]. destruct (peek (peeked_at E) (_token_bucket_key agent) (windows s)) as [sum w] eqn:Hpeek.
  rewrite (bind_step _ _ s sum (with_windows w s)) by (unfold peek_tokens; by rewrite Hpeek).
  cbn [fst snd]. rewrite Z.ltb_antisym. destruct (_ <=? sum); [|done].
  exact (refused_called _ _ _ (with_windows w s)).
Qed.

(** Whether the ceilings are enforced at all. *)
Definition enforced : bool :=
  match ceilings with Ret (day, month) => (0 <? day) || (0 <? month) | Raise _ => false end.

Definition reserved : Z := if enforced then _reservation_tokens req else 0.

(** The counters after the admission: seeded, and charged with the
    reservation. *)
Definition after_admission (s : chat_state) : chat_state :=
  if enforced then snd (reserve E agent (_reservation_tokens req) (snd (budget_current E agent s))) else s.

Lemma budget_gated s :
  gated (budget_allows s) (budget_gate E req agent) s (enforced, reserved) (after_admission s).
Proof.
  unfold gated, budget_allows, budget_gate, after_admission, reserved, enforced, ceilings.
  destruct (agent_budgets E) as [budgets|e]; [|by eexists _, _]. cbn [obind].
  rewrite (bind_step _ _ s budgets s) by done.
  destruct (effective_budget _ _ _ _) as [day month].
  destruct ((0 <? day) || (0 <? month)) eqn:Hon; cbn [negb].
  2: { apply orb_false_iff in Hon as [Hd Hm]. unfold below. by rewrite Hd, Hm. }
  unfold used_tokens.
  destruct (current (json_loads E) (day_cut E) (month_cut E) (ag_agent_id agent) (admitted_at E)
              (trail_table E s) (counters s)) as [[ud um] c] eqn:Hcur. cbn [fst snd].
  assert (budget_current E agent s = (Ret (ud, um), with_counters c s)) as Hrun
    by (unfold budget_current; by rewrite Hcur).
  rewrite Hrun. rewrite (bind_step _ _ s (ud, um) (with_counters c s)) by exact Hrun. cbn [fst snd]. unfold below.
  rewrite <- negb_orb.
  destruct (((0 <? day) && (day <=? ud)) || _); cbn [negb]; [exact (refused_called _ _ _ (with_counters c s))|].
  rewrite (bind_step _ _ _ tt (snd (reserve E agent (_reservation_tokens req) (with_counters c s)))); [done|].
  unfold reserve. by destruct (adjust_fails E) as [[a b] f].
Qed.

(** The gates in a row. *)
Definition gates : M chat_state (bool * Z) :=
  do _ <- capability_gate E req agent;
  do _ <- scope_gate E req agent;
  do _ <- token_rate_gate E req agent;
  budget_gate E req agent.

Lemma gates_gated s :
  gated (gates_open s) gates s (enforced, reserved) (after_admission (after_peek s)).
Proof.
  unfold gates_open, gates, gated.
  pose proof (capability_gated s) as Hc. unfold gated in Hc. destruct (bool_decide _); cbn [andb].
  2: { destruct Hc as (e & s' & Hc & Hk). exists e, s'. by rewrite (bind_stop _ _ _ _ _ Hc). }
  rewrite (bind_step _ _ _ _ _ Hc).
  pose proof (scope_gated s) as Hs. unfold gated in Hs. destruct scope_allows; cbn [andb].
  2: { destruct Hs as (e & s' & Hs & Hk). exists e, s'. by rewrite (bind_stop _ _ _ _ _ Hs). }
  rewrite (bind_step _ _ _ _ _ Hs).
  pose proof (window_gated s) as Hw. unfold gated in Hw. destruct (window_allows s); cbn [andb].
  2: { destruct Hw as (e & s' & Hw & Hk). exists e, s'. by rewrite (bind_stop _ _ _ _ _ Hw). }
  rewrite (bind_step _ _ _ _ _ Hw).
  pose proof (budget_gated (after_peek s)) as Hb. unfold gated in Hb.
  assert (budget_allows (after_peek s) = budget_allows s ∧ entered (after_peek s) = entered s) as [Heq Hk].
  { unfold after_peek. by destruct (0 <? _). }
  rewrite Heq, Hk in Hb. exact Hb.
Qed.

Lemma chat_after_gates s :
  chat_completions E req agent s =
  bind gates (λ '(enf, res), if stream req then _handle_stream E req agent enf res
                             else complete E req agent enf res) s.
Proof.
  unfold chat_completions, gates, bind.
  destruct (capability_gate E req agent s) as [[[]|e] s1]; [|done].
  destruct (scope_gate E req agent s1) as [[[]|e] s2]; [|done].
  destruct (token_rate_gate E req agent s2) as [[[]|e] s3]; [|done].
  by destruct (budget_gate E req agent s3) as [[[enf res]|e] s4].
Qed.

(** Parts that call no provider. *)
Definition silent {A} (m : M chat_state A) : Prop := ∀ s, entered (snd (m s)) = entered s.

Lemma silent_ret {A} (a : A) : silent (ret a).
Proof. done. Qed.
Lemma silent_raise {A} e : silent (@raise _ A e).
Proof. done. Qed.
Lemma silent_bind {A B} (m : M chat_state A) (f : A → M chat_state B) :
  silent m → (∀ a, silent (f a)) → silent (bind m f).
Proof.
  intros Hm Hf s. specialize (Hm s). unfold bind. destruct (m s) as [[a|e] s1]; [|done].
  by rewrite Hf.
Qed.
Lemma silent_audit c : silent (audit E c).
Proof. intros s. apply audit_called. Qed.
Lemma silent_settle delta : silent (settle E agent delta).
Proof. intros s. unfold settle. by destruct (adjust_fails E) as [[a b] [c d]]. Qed.
Lemma silent_consume weight : silent (consume_tokens E agent weight).
Proof. done. Qed.
Lemma silent_charge enf res weight : silent (charge E agent enf res weight).
Proof. unfold charge. destruct enf; [apply silent_settle|apply silent_ret]. Qed.
Lemma silent_refused {A} code body : silent (@refused _ A code body).
Proof. done. Qed.

Hint Resolve silent_ret silent_raise silent_bind silent_audit silent_settle silent_consume silent_charge
  silent_refused : core.

Lemma silent_gateway_failed {A} enf res more e : silent (@gateway_failed _ _ E req agent A enf res more e).
Proof. destruct e; cbn; auto. apply silent_bind; [by destruct enf|auto]. Qed.

Lemma adapter_called {A} enf res more (f : adapter → ChatCompletionRequest → string → fields → outcome A) s :
  entered (snd (or_gateway_error E req agent enf res more (call_adapter E req f) s))
  = entered s ++ (match dispatch_target E req with Ret call => [call] | Raise _ => [] end).
Proof.
  etrans; [|instantiate (1 := entered (snd (call_adapter E req f s)))].
  - unfold or_gateway_error, catch. destruct (call_adapter E req f s) as [[r|e] s1]; [done|].
    apply silent_gateway_failed.
  - unfold call_adapter. destruct (dispatch_target E req) as [[[[a r] p] c]|e] eqn:Ht.
    + done.
    + by rewrite app_nil_r.
Qed.

(** C23: an adapter is entered exactly for the requests that are admitted, once,
    and with the route of the request: whoever has the capability, a scope with
    the provider of the model, room in the minute's window of tokens and in the
    two ceilings of the budget, reaches the adapter of the backend for that
    provider with the enabled credentials of that provider (or the key of the
    settings, for Anthropic without a row), under the model id that adapter
    speaks; whoever lacks one of these reaches none.  What the adapter then does
    with its provider is its own. *)
Theorem adapter_entered_iff_admitted s : ∃ calls,
  entered (snd (chat_completions E req agent s)) = entered s ++ calls ∧
  (length calls <= 1)%nat ∧ ∀ call, call ∈ calls ↔ admitted s call.
Proof.
  rewrite chat_after_gates. pose proof (gates_gated s) as Hg. unfold gated in Hg.
  pose proof (admitted_iff s) as Hadm. destruct (gates_open s).
  2: { destruct Hg as (e & s' & Hg & Hk). rewrite (bind_stop _ _ _ _ _ Hg). exists []. rewrite app_nil_r.
       split_and!; [done|cbn; lia|]. intros call. rewrite Hadm, elem_of_nil. naive_solver. }
  exists (match dispatch_target E req with Ret call => [call] | Raise _ => [] end).
  split; [|split; [destruct (dispatch_target _ _); cbn; lia|]].
  2: { intros call. rewrite Hadm. destruct (dispatch_target E req) as [c|e];
         [rewrite list_elem_of_singleton|rewrite elem_of_nil]; naive_solver. }
  rewrite (bind_step _ _ _ _ _ Hg).
  assert (entered (after_admission (after_peek s)) = entered s) as <-.
  { unfold after_admission, after_peek, reserve, budget_current.
    destruct (adjust_fails E) as [[a b] f]. destruct (0 <? _), enforced; try done;
      by destruct (current _ _ _ _ _ _ _). }
  set (s1 := after_admission (after_peek s)). destruct (stream req).
  - etrans; [|exact (adapter_called enforced reserved [("stream", JBool true)] (stream_chat_completion E) s1)].
    unfold _handle_stream, bind. by destruct (or_gateway_error _ _ _ _ _ _ _ s1) as [[r|e] s2].
  - etrans; [|exact (adapter_called enforced reserved [] (chat_completion E) s1)].
    unfold complete. unfold bind at 1. destruct (or_gateway_error _ _ _ _ _ _ _ s1) as [[r|e] s2]; [|done]. cbn [snd].
    match goal with |- entered (snd (?m s2)) = _ => cut (silent m); [intros Hq; apply Hq|] end.
    apply silent_bind; [by destruct (0 <? _)|auto].
Qed.

End Admission.

(** ** Every answer is in the trail *)

Section Recorded.
Context `{Hash} `{Backend} (E : chat_env) (req : ChatCompletionRequest) (agent : InternalAgent).

(** A row about this request: who asked, and for what. *)
Definition about_request (status : string) (d : fields) (row : audit_call) : Prop :=
  c_agent_id row = ag_agent_id agent ∧ c_action row = "egress_llm_chat" ∧ c_status row = status ∧
  c_details row = Some (JObj d) ∧ get "event" d = Some (JStr "llm.chat_completion") ∧
  get "principal_id" d = Some (JStr (ag_agent_id agent)) ∧
  get "principal_type" d = Some (JStr (ag_principal_type agent)) ∧
  get "model" d = Some (JStr (model req)) ∧ get "trace_id" d = Some (JStr (trace_id E)).

(** The row of a payload has what the adapter says the call has used. *)
Definition success_row (res : GatewayResult) (row : audit_call) : Prop := ∃ d,
  about_request "success" d row ∧
  get "backend" d = Some (JStr (backend res)) ∧ get "provider" d = Some (JStr (provider res)) ∧
  get "prompt_tokens" d = Some (JInt (prompt_tokens res)) ∧
  get "completion_tokens" d = Some (JInt (completion_tokens res)) ∧
  get "cost_usd" d = Some (cost_usd res) ∧ get "upstream_request_id" d = Some (upstream_request_id res).

Definition refusal_row (reason : string) (row : audit_call) : Prop := ∃ status d,
  about_request status d row ∧ status ∈ ["denied"; "error"] ∧ get "reason" d = Some (JStr reason).

(** What the adapter of the route has returned. *)
Definition obtained {A} (f : adapter → ChatCompletionRequest → string → fields → outcome A) (res : A) : Prop :=
  ∃ a r p c, routed E req (a, r, p, c) ∧ f a r p c = Ret res.

(** The response with the trace id, unless it brings one. *)
Definition traced (res : GatewayResult) (p : fields) : Prop :=
  if bool_decide (get "cullis_trace_id" (response res) = None)
  then p = response res ++ [("cullis_trace_id", JStr (trace_id E))] else p = response res.

(** A payload is the adapter's, and goes with its row of success; a refusal goes
    with a row that is none and has the reason the caller is told. *)
Definition answered (r : outcome chat_answer) (s : chat_state) : Prop :=
  match r with
  | Ret (Payload p) => ∃ res row,
      obtained (chat_completion E) res ∧ traced res p ∧ success_row res row ∧ in_trail (e_auditing E) row s
  | Ret (EventStream _ _ _) => True
  | Raise (HTTPException _ body) => ∃ reason more row,
      body = dumps_plain (JObj (("reason", JStr reason) :: more)) ∧
      refusal_row reason row ∧ in_trail (e_auditing E) row s
  | Raise _ => True
  end.

(** [HTTPException] is raised by the handler only. *)
Definition own_refusals : Prop := ∀ code body,
  agent_budgets E ≠ Raise (HTTPException code body) ∧
  (∀ p, provider_row E p ≠ Raise (HTTPException code body)) ∧
  (∀ a r p c, chat_completion E a r p c ≠ Raise (HTTPException code body)) ∧
  (∀ a r p c, stream_chat_completion E a r p c ≠ Raise (HTTPException code body)).

Context (Hpolite : polite (e_auditing E)) (Hdeny : fail_deny (e_auditing E)) (Hown : own_refusals).

(** What a part of the handler leaves: a chain, and an answer when it ends. *)
Definition part_of {A} (Q : A → Prop) (r : outcome A) (s : chat_state) : Prop :=
  sound s ∧ match r with Ret a => Q a | Raise e => answered (Raise e) s end.
Definition part {A} : outcome A → chat_state → Prop := part_of (λ _, True).

Lemma part_bind {A B} (Q : B → Prop) (m : M chat_state A) (f : A → M chat_state B) :
  ends sound m part → (∀ a, ends sound (f a) (part_of Q)) → ends sound (bind m f) (part_of Q).
Proof.
  intros Hm Hf. eapply ends_bind; [|exact Hf]. eapply ends_weaken; [done| |exact Hm].
  intros [a|e] s [Hs Hr]; [done|by split].
Qed.

Lemma part_ret {A} (a : A) : ends sound (ret a) part.
Proof. apply ends_ret. by intros s Hs. Qed.

(** A part that keeps the trail and returns. *)
Lemma part_silent {A} (m : M chat_state A) :
  (∀ s, ∃ a, m s = (Ret a, snd (m s)) ∧ k_trail (snd (m s)) = k_trail s) → ends sound m part.
Proof.
  intros Hm s Hs. destruct (Hm s) as (a & Heq & Hk). rewrite Heq. cbn. split; [|done].
  unfold sound, trail in *. cbn in *. by rewrite Hk.
Qed.

Lemma audit_ends c :
  ends sound (audit E c)
    (λ r s, sound s ∧ match r with
                      | Ret _ => in_trail (e_auditing E) c s
                      | Raise e => trail_failure e
                      end).
Proof.
  intros s Hs.
  destruct (ends_audit (e_auditing E) (λ _, True) c Hpolite (λ _ _ _, I) s (conj Hs I)) as (Hs' & _ & Hr).
  split; [exact Hs'|]. unfold audit. destruct (fst _); [by apply Hr|done].
Qed.

Lemma failure_answered e s : trail_failure e → answered (Raise e) s.
Proof. by intros [-> | ->]. Qed.

Lemma part_refused {A} (Q : A → Prop) status reason d code more :
  status ∈ ["denied"; "error"] →
  about_request status (base_details agent ++ d) (chat_row agent status None d) →
  get "reason" (base_details agent ++ d) = Some (JStr reason) →
  ends sound (bind (audit E (chat_row agent status None d))
    (λ _, @refused _ A code (("reason", JStr reason) :: more))) (part_of Q).
Proof.
  intros Hst Hd Hreason. eapply ends_bind.
  - eapply ends_weaken; [done| |apply audit_ends]. intros [[]|e] s [Hs Hr].
    + instantiate (1 := λ _ s, sound s ∧ in_trail (e_auditing E) (chat_row agent status None d) s). by split.
    + split; [done|by apply failure_answered].
  - intros []. apply ends_raise. intros s [Hs Hin]. split; [done|].
    exists reason, more, (chat_row agent status None d). split_and!; [done| |done].
    by exists status, (base_details agent ++ d).
Qed.

Ltac mentioned := apply part_refused; [set_solver|done|done].

Lemma peek_part : ends sound (peek_tokens E agent) part.
Proof. apply part_silent. intros s. unfold peek_tokens. destruct (peek _ _ _). by eexists. Qed.

Lemma current_part : ends sound (budget_current E agent) part.
Proof. apply part_silent. intros s. unfold budget_current. destruct (current _ _ _ _ _ _ _). by eexists. Qed.

Lemma reserve_part delta : ends sound (reserve E agent delta) part.
Proof. apply part_silent. intros s. unfold reserve. destruct (adjust_fails E) as [[] ?]. by eexists. Qed.

Lemma charge_part enf res weight : ends sound (charge E agent enf res weight) part.
Proof.
  apply part_silent. intros s. unfold charge, settle.
  destruct enf; [destruct (adjust_fails E) as [? []]|]; by eexists.
Qed.

Lemma consume_part weight : ends sound (consume_tokens E agent weight) part.
Proof. apply part_silent. intros s. by eexists. Qed.

Lemma part_raise {A} (Q : A → Prop) e :
  (∀ code body, e ≠ HTTPException code body) → ends sound (@raise _ A e) (part_of Q).
Proof.
  intros He. apply ends_raise. intros s Hs. split; [done|]. destruct e; try done. by destruct (He status detail).
Qed.

Lemma part_lift {A} (o : outcome A) :
  (∀ code body, o ≠ Raise (HTTPException code body)) → ends sound (lift o) part.
Proof.
  intros Ho. destruct o as [a|e]; [apply (part_ret a)|apply part_raise].
  intros code body ->. by apply (Ho code body).
Qed.

Lemma gates_part : ends sound (gates E req agent) part.
Proof.
  unfold gates. apply part_bind; [|intros _; apply part_bind; [|intros _; apply part_bind; [|intros _]]].
  - unfold capability_gate. destruct (bool_decide _); [apply part_ret|].
    mentioned.
  - unfold scope_gate. destruct (ag_scope_providers agent) as [[|p l]|]; try apply part_ret.
    destruct (bool_decide _); [apply part_ret|]. mentioned.
  - unfold token_rate_gate. destruct (0 <? _); [|apply part_ret].
    apply part_bind; [apply peek_part|]. intros sum. destruct (_ <=? sum); [|apply part_ret].
    mentioned.
  - unfold budget_gate. apply part_bind; [apply part_lift; intros code body; apply Hown|]. intros budgets.
    destruct (effective_budget _ _ _ _) as [day month]. destruct (negb _); [apply part_ret|].
    apply part_bind; [apply current_part|]. intros [ud um].
    destruct (_ || _); [|apply part_bind; [apply reserve_part|intros _; apply part_ret]].
    mentioned.
Qed.

Lemma target_raises code body : dispatch_target E req ≠ Raise (HTTPException code body).
Proof.
  unfold dispatch_target, _resolve_provider_creds. destruct (negb _); [done|].
  pose proof (proj1 (proj2 (Hown code body)) (parse_provider_from_model (model req))) as Hrow.
  assert (∀ b p, resolve_adapter b p ≠ Raise (HTTPException code body)) as Had.
  { intros b p. unfold resolve_adapter. repeat case_bool_decide; done. }
  destruct (provider_row _ _) as [[row|]|e]; cbn [obind]; [| |congruence].
  - destruct (negb _); [done|]. cbn [obind]. specialize (Had (lower (ai_gateway_backend (settings E)))
      (parse_provider_from_model (model req))). destruct (resolve_adapter _ _); cbn [obind]; congruence.
  - destruct (_ && _); [|done]. cbn [obind]. specialize (Had (lower (ai_gateway_backend (settings E)))
      (parse_provider_from_model (model req))). destruct (resolve_adapter _ _); cbn [obind]; congruence.
Qed.

Definition unanswered {A} (f : adapter → ChatCompletionRequest → string → fields → outcome A)
    (r : outcome A) (s : chat_state) : Prop :=
  sound s ∧ match r with Ret a => obtained f a | Raise e => ∀ code body, e ≠ HTTPException code body end.

Lemma call_unanswered {A} (f : adapter → ChatCompletionRequest → string → fields → outcome A) :
  (∀ a r p c code body, f a r p c ≠ Raise (HTTPException code body)) →
  ends sound (call_adapter E req f) (unanswered f).
Proof.
  intros Hf s Hs. pose proof target_raises as Ht. pose proof (routed_iff E req) as Hroute. unfold call_adapter.
  destruct (dispatch_target E req) as [[[[a r] p] c]|e]; [|by split; [done|intros code body ->; by eapply Ht]].
  split; [done|]. unfold lift, bind. cbn. destruct (f a r p c) as [x|e] eqn:Hx.
  - exists a, r, p, c. split; [by apply Hroute|done].
  - intros code body ->. by eapply Hf.
Qed.

Lemma gateway_failed_part {A} (Q : A → Prop) enf res more e :
  ends (λ s, sound s ∧ ∀ code body, e ≠ HTTPException code body)
    (@gateway_failed _ _ E req agent A enf res more e) (part_of Q).
Proof.
  intros s [Hs He]. destruct e; try by apply (part_raise Q _ He s Hs).
  revert s Hs. apply part_bind; [destruct enf; [apply (charge_part true res 0)|apply part_ret]|]. intros _.
  unfold _gateway_error_detail. mentioned.
Qed.

Lemma adapter_part {A} enf res more (f : adapter → ChatCompletionRequest → string → fields → outcome A) :
  (∀ a r p c code body, f a r p c ≠ Raise (HTTPException code body)) →
  ends sound (or_gateway_error E req agent enf res more (call_adapter E req f)) (part_of (obtained f)).
Proof.
  intros Hf. eapply ends_catch.
  - eapply ends_weaken; [done| |by apply call_unanswered]. intros [a|e] s [Hs Hr]; [exact (conj Hs Hr)|].
    instantiate (1 := λ e s, sound s ∧ ∀ code body, e ≠ HTTPException code body). exact (conj Hs Hr).
  - intros e. apply gateway_failed_part.
Qed.

Definition concluded (r : outcome chat_answer) (s : chat_state) : Prop := sound s ∧ answered r s.

Lemma part_then {A} (Q : A → Prop) (m : M chat_state A) (f : A → M chat_state chat_answer) :
  ends sound m (part_of Q) → (∀ a, Q a → ends sound (f a) concluded) → ends sound (bind m f) concluded.
Proof.
  intros Hm Hf. eapply (ends_bind _ (λ a s, sound s ∧ Q a)).
  - eapply ends_weaken; [done| |exact Hm]. intros [a|e] s Hr; exact Hr.
  - intros a s [Hs Ha]. exact (Hf a Ha s Hs).
Qed.

Lemma success_row_recorded r :
  success_row r (chat_row agent "success" (Some (inject_Z (latency_ms E))) (success_details E req r)).
Proof. by exists (base_details agent ++ success_details E req r). Qed.

Lemma traced_payload r : traced r (with_trace_id E (response r)).
Proof.
  unfold traced, with_trace_id, has_key. by destruct (get "cullis_trace_id" (response r)).
Qed.

Lemma complete_concluded enf res : ends sound (complete E req agent enf res) concluded.
Proof.
  unfold complete. eapply part_then; [apply adapter_part; intros; apply Hown|]. intros r Hr.
  eapply part_then; [destruct (0 <? _); [apply consume_part|apply (part_ret tt)]|]. intros _ _.
  eapply part_then; [apply charge_part|]. intros _ _.
  eapply ends_bind; [eapply ends_weaken; [done| |apply audit_ends]|].
  - intros [a|e] s1 [Hs1 Hin]; [exact (conj Hs1 Hin)|split; [done|by apply failure_answered]].
  - intros []. apply ends_ret. intros s1 [Hs1 Hin]. split; [done|]. do 2 eexists.
    split_and!; [exact Hr|apply traced_payload|apply success_row_recorded|exact Hin].
Qed.

(** C22: under [audit_fail_deny] a chat request that is answered, with a payload
    or with a refusal, has its row in the trail, whichever gate or provider
    decided.  A payload is what the adapter of the request's route returned, and
    its row has the agent, the model, the trace id and the tokens and the cost
    the adapter reported; a refusal's row has the agent, the model, the trace id
    and the reason the caller reads, under [denied] or [error].  (A stream is
    answered before its body runs: its row is [stream_settled]'s.) *)
Theorem chat_answer_in_trail s :
  sound s →
  let '(r, s') := chat_completions E req agent s in sound s' ∧ answered r s'.
Proof.
  intros Hs. rewrite chat_after_gates.
  match goal with |- context [bind ?m ?f s] => assert (ends sound (bind m f) concluded) as Hall end.
  { eapply part_then; [apply gates_part|]. intros [enf res] _. destruct (stream req); [|apply complete_concluded].
    eapply part_then; [apply adapter_part; intros; apply Hown|]. intros st _. apply ends_ret. by intros s1 Hs1. }
  specialize (Hall s Hs). by destruct (bind _ _ s).
Qed.

End Recorded.

(** ** A stream is charged what its row says *)

Section Streamed.
Context `{Hash} `{Backend} (E : chat_env) (req : ChatCompletionRequest) (agent : InternalAgent).
Context (streamer : StreamingDispatch) (hang_up : option nat) (monotonic : nat → Q).
Context (Hpolite : polite (e_auditing E)) (c0 : store).

(** What the body of the stream leaves alone. *)
Definition steady_state (g : sse_state) : Prop := sound g ∧ counters (process g) = c0.

Definition steady {A} (m : Effects.M sse_state A) : Prop := ends steady_state m (λ _, steady_state).

Lemma steady_ret {A} (a : A) : steady (ret a).
Proof. by apply ends_ret. Qed.
Lemma steady_raise {A} e : steady (@raise _ A e).
Proof. by apply ends_raise. Qed.
Lemma steady_lift {A} (o : outcome A) : steady (lift o).
Proof. by apply ends_lift. Qed.
Lemma steady_gets {A} (f : sse_state → A) : steady (gets f).
Proof. by apply ends_gets. Qed.
Lemma steady_now : steady (now_ monotonic).
Proof. apply steady_gets. Qed.
Lemma steady_modify f : (∀ g, process (f g) = process g) → steady (modify f).
Proof. intros Hf. apply ends_modify. intros g [Hs Hc]. unfold steady_state, sound, trail in *. cbn in *. by rewrite Hf. Qed.
Lemma steady_bind {A B} (m : Effects.M sse_state A) (f : A → Effects.M sse_state B) :
  steady m → (∀ a, steady (f a)) → steady (bind m f).
Proof.
  intros Hm Hf. eapply ends_bind; [|exact Hf]. eapply ends_weaken; [done| |exact Hm]. by intros [].
Qed.
Lemma steady_catch {A} (m : Effects.M sse_state A) h : steady m → (∀ e, steady (h e)) → steady (catch m h).
Proof.
  intros Hm Hh. eapply ends_catch; [|exact Hh]. eapply ends_weaken; [done| |exact Hm]. by intros [].
Qed.
Lemma steady_except {A} (m : Effects.M sse_state A) h : steady m → (∀ e, steady (h e)) → steady (catch_exception m h).
Proof.
  intros Hm Hh. unfold catch_exception. apply steady_catch; [done|]. intros e.
  destruct (bool_decide _); [apply steady_raise|apply Hh].
Qed.
Lemma steady_audit c : steady (Effects.audit (e_auditing E) c).
Proof.
  intros g Hg.
  pose proof (ends_audit (e_auditing E) (λ g : sse_state, counters (process g) = c0) c Hpolite) as Hends.
  destruct (Hends (λ w g0 Hg0, Hg0) g Hg) as (Hs' & Hc' & _). by split.
Qed.
Lemma steady_yield f : steady (yield_ hang_up f).
Proof. intros g Hg. unfold yield_. exact Hg. Qed.
Lemma steady_each {A} (f : A → Effects.M sse_state unit) l : (∀ x, steady (f x)) → steady (each f l).
Proof. intros Hf. induction l as [|x l IH]; [apply steady_ret|]. by apply steady_bind. Qed.

Hint Resolve steady_ret steady_raise steady_lift steady_gets steady_now steady_bind steady_catch steady_except
  steady_audit steady_yield steady_each : core.
Hint Extern 2 (steady (modify _)) => (apply steady_modify; by intros) : core.

Lemma steady_start tc : steady (start_tool hang_up monotonic tc).
Proof.
  unfold start_tool. apply steady_bind; [auto|]. intros d. cbv zeta. apply steady_bind; [auto|]. intros fn.
  destruct (negb _); [auto|]. destruct (negb _); [auto|]. apply steady_bind; [auto|]. intros bs.
  destruct (known _ _); auto.
Qed.

Lemma steady_end b : steady (end_tool E req agent streamer hang_up monotonic b).
Proof. unfold end_tool, _emit_tool_end. apply steady_bind; [|auto]. apply steady_bind; auto. Qed.

Lemma steady_parse chunk : steady (parse_chunk E req agent streamer hang_up monotonic chunk).
Proof.
  unfold parse_chunk. cbv zeta. destruct (negb _); [auto|].
  do 3 (apply steady_bind; [auto|]; intros ?). apply steady_bind; [destruct (get_none _ _); auto|]. intros _.
  apply steady_bind; [auto|]. intros tcs. apply steady_bind; [apply steady_each, steady_start|]. intros _.
  destruct (is_str _ _); [|auto]. apply steady_bind; [auto|]. intros bs. apply steady_each, steady_end.
Qed.

Lemma steady_body : steady (stream_error E hang_up (relay_all E req agent streamer hang_up monotonic)).
Proof.
  unfold stream_error. apply steady_catch; [|intros []; auto]. unfold relay_all.
  apply steady_bind; [apply steady_each; intros chunk; unfold relay; apply steady_bind; [auto|]; intros _|].
  - apply steady_bind; [|auto]. apply steady_except; [apply steady_parse|auto].
  - intros _. apply steady_bind; [auto|]. intros _. destruct (sd_end streamer); [|auto].
    apply steady_bind; [auto|]. intros _. apply steady_bind; [auto|]. intros l.
    apply steady_bind; [destruct l; auto|auto].
Qed.

End Streamed.

(** What a row of the gateway adds to the budget. *)
Lemma details_tokens rf d p c ar :
  readable rf (JObj d) → get "prompt_tokens" d = Some (JInt p) → get "completion_tokens" d = Some (JInt c) →
  detail (payload ar) = Some (dumps (JObj d)) → row_tokens (loads rf) ar = p + c.
Proof.
  intros Hr Hp Hc Har. unfold row_tokens. rewrite Har.
  destruct (dumps (JObj d)) as [|x y] eqn:Hd; [discriminate Hd|]. rewrite <- Hd, loads_compact by done.
  destruct Hr as [Hok _].
  destruct (get_sorted "prompt_tokens" d Hok) as (f & Hf & Hgp).
  destruct (get_sorted "completion_tokens" d Hok) as (f' & Hf' & Hgc).
  rewrite Hf in Hf'. injection Hf' as <-. rewrite Hf. unfold get_none.
  by rewrite Hgp, Hgc, Hp, Hc.
Qed.

Section Charged.
Context `{Hash} (E : chat_env) (req : ChatCompletionRequest) (agent : InternalAgent).
Context (rf : string → json).

(** Redis answers, and the request begins and ends in the same day. *)
Definition redis_up : Prop :=
  json_loads E = loads rf ∧ day_cut E = None ∧ month_cut E = None ∧
  adjust_fails E = ((false, false), (false, false)) ∧
  _day_token (settled_at E) = _day_token (admitted_at E) ∧
  _month_token (settled_at E) = _month_token (admitted_at E).

Definition period_keys : list string :=
  [_day_key (ag_agent_id agent) (admitted_at E); _month_key (ag_agent_id agent) (admitted_at E)].

Lemma keys_differ a now now' : _day_key a now ≠ _month_key a now'.
Proof.
  unfold _day_key, _month_key. intros Heq%str_app_inj_l%str_app_inj_l. discriminate Heq.
Qed.

Lemma adjust_same k v d (db : gmap string Z) :
  db !! k = Some v → 0 <= v + d → adjust (Backend := redis_backend) k d db !! k = Some (v + d).
Proof. intros Hk Hd. cbn. rewrite Hk, lookup_insert_eq. f_equal. lia. Qed.

Lemma adjust_other k k' d (db : gmap string Z) :
  k' ≠ k → adjust (Backend := redis_backend) k' d db !! k = db !! k.
Proof. intros Hne. cbn. by destruct (db !! k'); [rewrite lookup_insert_ne|]. Qed.

Lemma add_delta_lookup k v d now (db : gmap string Z) :
  _day_token now = _day_token (admitted_at E) → _month_token now = _month_token (admitted_at E) →
  k ∈ period_keys → db !! k = Some v → 0 <= v + d →
  add_delta (H := redis_backend) false false (ag_agent_id agent) d now db !! k = Some (v + d).
Proof.
  intros Hday Hmonth Hin Hk Hd. unfold add_delta.
  destruct (Z.eqb_spec d 0) as [->|Hne]; [by rewrite Z.add_0_r|]. unfold _apply_delta.
  assert (_day_key (ag_agent_id agent) now = _day_key (ag_agent_id agent) (admitted_at E)) as ->
    by (unfold _day_key; by rewrite Hday).
  assert (_month_key (ag_agent_id agent) now = _month_key (ag_agent_id agent) (admitted_at E)) as ->
    by (unfold _month_key; by rewrite Hmonth).
  pose proof (keys_differ (ag_agent_id agent) (admitted_at E) (admitted_at E)) as Hdiff.
  unfold period_keys in Hin. apply elem_of_cons in Hin as [-> | ->%list_elem_of_singleton].
  - rewrite adjust_other by congruence. by apply adjust_same.
  - apply adjust_same; [|done]. by rewrite adjust_other.
Qed.

Section Stream.
Context (streamer : StreamingDispatch) (hang_up : option nat) (monotonic : nat → Q).
Context (reserve_tokens : Z).
Context (Hpolite : polite (e_auditing E)) (Hdeny : fail_deny (e_auditing E)) (Hup : redis_up).
Context (Hcounts : ∀ n, 0 <= sd_prompt_tokens streamer n ∧ 0 <= sd_completion_tokens streamer n).

Notation process g := (process (H0 := redis_backend) g).
Notation tokens g := (stream_tokens (H0 := redis_backend) req streamer g).

Definition stream_weight (g : sse_state) : Z := fst (fst (tokens g)) + snd (fst (tokens g)).

Lemma estimate_positive : 1 <= _estimate_prompt_tokens req.
Proof. unfold _estimate_prompt_tokens. lia. Qed.

Lemma weight_nonneg g : 0 <= stream_weight g.
Proof.
  unfold stream_weight, stream_tokens. pose proof (Hcounts (pulls g)) as [Hp Hc]. pose proof estimate_positive.
  destruct (upstream_drained g); [cbn; lia|]. destruct (_ || _ || _); [|cbn; lia].
  assert (0 < observed_completion_chars g → 0 <= observed_completion_chars g / _CHARS_PER_TOKEN)
    by (intros; apply Z.div_pos; [lia|done]).
  destruct (_ =? 0), (_ && _) eqn:Hobs; cbn; lia.
Qed.

(** A stream the client has cut is charged at least a token. *)
Lemma cut_stream_pays g :
  upstream_drained g = false → terminated_with_error g = None → 1 <= stream_weight g.
Proof.
  intros Hd Ht. unfold stream_weight, stream_tokens. rewrite Hd, Ht.
  rewrite (bool_decide_eq_false_2 (None ≠ None)) by by intros []. rewrite orb_true_r.
  pose proof (Hcounts (pulls g)) as [Hp Hc]. pose proof estimate_positive.
  assert (0 < observed_completion_chars g → 0 <= observed_completion_chars g / _CHARS_PER_TOKEN)
    by (intros; apply Z.div_pos; [lia|done]).
  destruct (_ =? 0) eqn:Hz, (_ && _) eqn:Hobs; cbn; lia.
Qed.

(** The two fields a reader of the trail adds up. *)
Lemma stream_fields g :
  get "prompt_tokens" (base_details agent ++ stream_details E req streamer g) = Some (JInt (fst (fst (tokens g)))) ∧
  get "completion_tokens" (base_details agent ++ stream_details E req streamer g) = Some (JInt (snd (fst (tokens g)))).
Proof.
  unfold stream_details. destruct (tokens g) as [[p c] est]. cbn [fst snd].
  by destruct (terminated_with_error g) as [[reason detail]|].
Qed.

(** The row of the stream counts for the budget, with the tokens charged. *)
Definition counted (weight : Z) (row : audit_call) : Prop :=
  ∀ d n ar, c_details row = Some (JObj d) → readable rf (JObj d) →
  payload ar = call_payload (audit_at (e_auditing E) n) row →
  usage_row (ag_agent_id agent) None ar = true ∧ row_tokens (json_loads E) ar = weight.

Lemma stream_row_counted g : counted (stream_weight g) (stream_row E req agent streamer g).
Proof.
  intros d n ar Hd Hread Har. destruct Hup as [Hloads _]. split.
  - unfold usage_row. rewrite Har. unfold stream_row.
    by destruct (terminated_with_error g); cbn; rewrite !bool_decide_eq_true_2.
  - assert (d = base_details agent ++ stream_details E req streamer g) as ->.
    { unfold stream_row in Hd. destruct (terminated_with_error g); by injection Hd as <-. }
    rewrite Hloads. destruct (stream_fields g) as [Hp Hc]. eapply details_tokens; [done|done|done|].
    rewrite Har. unfold call_payload, call_detail. cbn [detail]. by rewrite Hd.
Qed.

(** The settlement up to its row: the counter is charged, the rest stays. *)
Lemma settlement_charges g k v :
  sound g → counters (process g) !! k = Some v → k ∈ period_keys → reserve_tokens <= v →
  ∃ g1, sound g1 ∧ counters (process g1) !! k = Some (v + (stream_weight g - reserve_tokens)) ∧
    tokens g1 = tokens g ∧ upstream_drained g1 = upstream_drained g ∧
    terminated_with_error g1 = terminated_with_error g ∧
    settlement (H0 := redis_backend) E req agent streamer true reserve_tokens g
    = Effects.audit (e_auditing E) (stream_row E req agent streamer g1) g1.
Proof.
  intros Hs Hk Hin Hle. destruct Hup as (_ & _ & _ & Hadj & Hday & Hmonth).
  set (w := stream_weight g). pose proof (weight_nonneg g) as Hw.
  set (consumed := if (0 <? llm_tokens_per_minute (settings E)) && (0 <? w)
                   then with_process (snd (consume_tokens (H0 := redis_backend) E agent w (process g))) g else g).
  assert (counters (process consumed) = counters (process g) ∧ k_trail (process consumed) = k_trail (process g) ∧
    tokens consumed = tokens g ∧ upstream_drained consumed = upstream_drained g ∧
    terminated_with_error consumed = terminated_with_error g) as (Hc & Ht & Htok & Hdr & Hte).
  { unfold consumed. by destruct (_ && _). }
  exists (with_process (snd (charge (H0 := redis_backend) E agent true reserve_tokens w (process consumed))) consumed).
  unfold charge, settle in *. rewrite Hadj in *. cbn [snd fst modify] in *.
  split_and!; [|cbn [counters with_process process]; rewrite Hc; apply add_delta_lookup; try done; lia|done|done|done|].
  - unfold sound, trail in *. cbn in *. by rewrite Ht.
  - unfold settlement. rewrite (bind_step _ _ g w g) by done.
    rewrite (bind_step _ _ g tt consumed) by (unfold consumed; by destruct (_ && _)).
    unfold charge, settle. rewrite Hadj. done.
Qed.

(** C24: a stream that has begun (the client is still there at the first frame;
    [unread_stream_unsettled] is the other case), with Redis answering and the
    settlement in the day and the month of the admission
    ([refund_crosses_midnight] is the other case), settles its reservation
    whatever the adapter sends, wherever it breaks and wherever the client cuts
    it after that: a counter of the period that holds the reservation ends with
    exactly the tokens of the row the stream leaves in the trail (which has that
    row unless the audit itself fails), a row every later seed of the counters
    adds up; and a stream the client has cut is charged at least one token. *)
Theorem stream_settled s r g k v :
  sound s → hang_up ≠ Some 0%nat → counters s !! k = Some v → k ∈ period_keys → reserve_tokens <= v →
  serve_stream (H0 := redis_backend) E req agent streamer true reserve_tokens hang_up monotonic s = (r, g) →
  sound g ∧ ∃ weight row,
    counters (process g) !! k = Some (v + (weight - reserve_tokens)) ∧
    (upstream_drained g = false → terminated_with_error g = None → 1 <= weight) ∧
    counted weight row ∧
    ((∀ e, r = Raise e → ¬ trail_failure e) → in_trail (e_auditing E) row g).
Proof.
  intros Hs Hhang Hk Hin Hle. unfold serve_stream. rewrite bool_decide_eq_false_2 by done.
  unfold sse, finally.
  pose proof (steady_body (H0 := redis_backend) E req agent streamer hang_up monotonic Hpolite (counters s)
    (fresh_sse s) (conj Hs eq_refl)) as Hbody.
  destruct (stream_error _ _ _ _) as [r1 g1]. destruct Hbody as [Hs1 Hc1]. cbn [snd] in *.
  destruct (settlement_charges g1 k v) as (g2 & Hs2 & Hk2 & Htok & Hdr & Hte & ->); [done|by rewrite Hc1|done|done|].
  pose proof (ends_audit (e_auditing E) (λ g, counters (process g) = counters (process g2) ∧
    upstream_drained g = upstream_drained g2 ∧ terminated_with_error g = terminated_with_error g2)
    (stream_row E req agent streamer g2) Hpolite) as Hends.
  destruct (Hends (λ w g0 Hg0, Hg0) g2) as (Hs3 & (Hc3 & Hd3 & Ht3) & Hr); [done|].
  destruct (Effects.audit _ _ g2) as [r3 g3]. cbn [fst snd] in *.
  intros Heq. assert (g = g3) as -> by by destruct r3; injection Heq as <- <-.
  split; [done|]. exists (stream_weight g2), (stream_row E req agent streamer g2).
  assert (stream_weight g2 = stream_weight g1) as Hw by (unfold stream_weight; by rewrite Htok).
  split_and!.
  - by rewrite Hc3, Hw.
  - rewrite Hd3, Ht3. apply cut_stream_pays.
  - apply stream_row_counted.
  - intros Hno. destruct r3 as [[]|e]; [by apply Hr|]. injection Heq as <-. by destruct (Hno e eq_refl).
Qed.

End Stream.

Section Call.
Context (Hup : redis_up) (Hown : own_refusals E).
Context (Hcounts : ∀ a r p c res, chat_completion E a r p c = Ret res →
                     0 <= prompt_tokens res ∧ 0 <= completion_tokens res).

(** The bound of the schema. *)
Context (Hmax : ∀ n, max_tokens req = Some n → 1 <= n).

Notation used s := (used_tokens (H0 := redis_backend) E agent s).

(** A key of the period with what is spent in it at the admission. *)
Definition period_use (s : chat_state) : list (string * Z) :=
  [(_day_key (ag_agent_id agent) (admitted_at E), fst (used s));
   (_month_key (ag_agent_id agent) (admitted_at E), snd (used s))].

Lemma get_seeded key start log (db : gmap string Z) v db' :
  _get (H := redis_backend) (json_loads E) None (ag_agent_id agent) key start log db = (v, db') →
  db' !! key = Some v ∧ ∀ k, k ≠ key → db' !! k = db !! k.
Proof.
  unfold _get. rewrite !bool_decide_eq_false_2 by done. cbn.
  destruct (db !! key) as [w|] eqn:Hk; [by intros [= <- <-]|].
  rewrite lookup_insert_eq. intros [= <- <-]. split; [by rewrite lookup_insert_eq|].
  intros k Hne. by rewrite lookup_insert_ne.
Qed.

Lemma admission_charges s k u :
  (k, u) ∈ period_use s → 0 <= u → enforced E agent = true →
  counters (after_admission (H0 := redis_backend) E req agent s) !! k = Some (u + _reservation_tokens req).
Proof.
  intros Hin Hu Henf. destruct Hup as (_ & Hcut & Hcut' & Hadj & _). unfold after_admission. rewrite Henf.
  unfold reserve. rewrite Hadj. cbn [fst snd modify].
  assert (0 <= u + _reservation_tokens req) as Hres.
  { pose proof estimate_positive. unfold _reservation_tokens.
    destruct (max_tokens req) as [n|]; [specialize (Hmax n eq_refl); destruct n; lia|].
    unfold _DEFAULT_COMPLETION_RESERVE. lia. }
  cbn [counters with_counters].
  assert (k ∈ period_keys ∧ counters (snd (budget_current E agent s)) !! k = Some u) as [Hk Hu'].
  { unfold period_use, used_tokens, budget_current, current, period_keys in *. rewrite Hcut, Hcut' in *.
    destruct (_get _ _ _ (_day_key _ _) _ _ _) as [d db1] eqn:Hd.
    destruct (_get _ _ _ (_month_key _ _) _ _ db1) as [m db2] eqn:Hm. cbn [fst snd counters with_counters] in *.
    apply get_seeded in Hd as [Hd _], Hm as [Hm Hother].
    apply elem_of_cons in Hin as [[= -> ->]|[= -> ->]%list_elem_of_singleton]; (split; [set_solver|]).
    - rewrite Hother; [done|]. apply keys_differ.
    - done. }
  by apply add_delta_lookup.
Qed.

Lemma settle_lookup k v d (s : chat_state (H0 := redis_backend)) :
  k ∈ period_keys → counters s !! k = Some v → 0 <= v + d →
  ∃ s', settle E agent d s = (Ret tt, s') ∧ k_trail s' = k_trail s ∧ counters s' !! k = Some (v + d).
Proof.
  intros Hin Hk Hd. destruct Hup as (_ & _ & _ & Hadj & Hday & Hmonth). unfold settle. rewrite Hadj.
  eexists. split; [reflexivity|]. split; [done|]. by apply add_delta_lookup.
Qed.

Lemma audit_counters c (s : chat_state (H0 := redis_backend)) :
  counters (snd (audit E c s)) = counters s ∧
  ∀ code body, fst (audit E c s) ≠ Raise (HTTPException code body).
Proof.
  unfold audit, Effects.audit.
  pose proof (λ x, log_audit_failure (audit_at (e_auditing E) (audit_calls s)) c
      (db_at (e_auditing E) (audit_calls s) (w_table (trail s))) (trail s) x) as Hx.
  destruct (log_audit _ _ _ _) as [r w]. cbn in *. split; [done|]. intros code body ->.
  by destruct (Hx _ eq_refl).
Qed.

(** What is left when the gateway fails: the refund, if the caller is told. *)
Lemma failed_refunds {A} res u k e (s : chat_state (H0 := redis_backend)) :
  k ∈ period_keys → counters s !! k = Some (u + res) → 0 <= u →
  (∀ code body, e ≠ HTTPException code body) →
  ∃ e' s', @gateway_failed _ _ E req agent A true res [] e s = (Raise e', s') ∧
    ((∀ code body, e' ≠ HTTPException code body) ∨ counters s' !! k = Some u).
Proof.
  intros Hin Hk Hu He.
  assert (∀ x, (∀ code body, x ≠ HTTPException code body) →
    ∃ e' s', @raise _ A x s = (Raise e', s') ∧
      ((∀ code body, e' ≠ HTTPException code body) ∨ counters s' !! k = Some u)) as Hother.
  { intros x Hx. exists x, s. split; [done|by left]. }
  destruct e; try (by apply Hother). cbn [gateway_failed].
  destruct (settle_lookup k (u + res) (- res) s Hin Hk) as (s1 & Hset & _ & Hk1); [lia|].
  rewrite (bind_step _ _ s tt s1) by exact Hset.
  match goal with |- context [audit E ?c] => pose proof (audit_counters c s1) as [Hc Hr]; unfold bind;
    destruct (audit E c s1) as [[[]|e] s2] end.
  - eexists _, _. split; [reflexivity|]. right. cbn in Hc. rewrite Hc, Hk1. f_equal. lia.
  - eexists _, _. split; [reflexivity|]. left. intros code body ->. by destruct (Hr code body).
Qed.

Lemma success_counted res :
  counted (prompt_tokens res + completion_tokens res)
    (chat_row agent "success" (Some (inject_Z (latency_ms E))) (success_details E req res)).
Proof.
  intros d n ar Hd Hread Har. destruct Hup as [Hloads _]. injection Hd as <-. split.
  - unfold usage_row. rewrite Har. cbn. by rewrite !bool_decide_eq_true_2.
  - rewrite Hloads. eapply details_tokens; [exact Hread|done|done|]. by rewrite Har.
Qed.

(** The dispatch: its result with the counters as they were, or an exception
    with the refund done if the caller is told. *)
Lemma dispatch_settles u k (s : chat_state (H0 := redis_backend)) :
  k ∈ period_keys → counters s !! k = Some (u + _reservation_tokens req) → 0 <= u →
  let '(r, s') := or_gateway_error E req agent true (_reservation_tokens req) []
                    (call_adapter E req (chat_completion E)) s in
  match r with
  | Ret res => counters s' = counters s ∧ 0 <= prompt_tokens res ∧ 0 <= completion_tokens res
  | Raise e => (∀ code body, e ≠ HTTPException code body) ∨ counters s' !! k = Some u
  end.
Proof.
  intros Hin Hk Hu.
  unfold or_gateway_error, catch.
  assert (∀ r s', call_adapter E req (chat_completion E) s = (r, s') → counters s' = counters s ∧
    match r with Ret res => 0 <= prompt_tokens res ∧ 0 <= completion_tokens res
               | Raise e => ∀ code body, e ≠ HTTPException code body end) as Hadapter.
  { unfold call_adapter. pose proof (target_raises E req Hown) as Htarget.
    destruct (dispatch_target E req) as [[[[a q] p] c]|e].
    - intros r s' [= <- <-]. split; [done|]. destruct (chat_completion E a q p c) as [res|e] eqn:Hres.
      + by eapply Hcounts.
      + intros code body ->. by destruct (Hown code body) as (_ & _ & Hc & _); destruct (Hc a q p c).
    - intros r s' [= <- <-]. split; [done|]. intros code body ->. by destruct (Htarget code body). }
  destruct (call_adapter E req (chat_completion E) s) as [[res|e] s1];
    destruct (Hadapter _ _ eq_refl) as [Hc Hr]; [done|].
  destruct (failed_refunds (A := GatewayResult) (_reservation_tokens req) u k e s1) as (e' & s2 & -> & Hor);
    [done|by rewrite Hc|done|done|exact Hor].
Qed.

(** with Redis up, a call that passes the gates costs what its row says:
    answered with a payload, the counters of the day and the month have grown
    by the tokens of the row of success, a row every later seed adds up;
    refused after the admission, they are what they were. *)
Theorem call_settled s r s' k u :
  stream req = false → enforced E agent = true → gates_open E req agent s = true →
  (k, u) ∈ period_use s → 0 <= u →
  chat_completions (H0 := redis_backend) E req agent s = (r, s') →
  match r with
  | Ret (Payload p) => ∃ res,
      p = with_trace_id E (response res) ∧
      counters s' !! k = Some (u + (prompt_tokens res + completion_tokens res)) ∧
      counted (prompt_tokens res + completion_tokens res)
        (chat_row agent "success" (Some (inject_Z (latency_ms E))) (success_details E req res))
  | Raise (HTTPException _ _) => counters s' !! k = Some u
  | _ => True
  end.
Proof.
  intros Hst Henf Hopen Hin Hu. rewrite chat_after_gates.
  pose proof (gates_gated (H0 := redis_backend) E req agent s) as Hg. unfold gated in Hg. rewrite Hopen in Hg.
  rewrite (bind_step _ _ _ _ _ Hg), Hst. unfold reserved. rewrite Henf.
  assert (counters (after_admission (H0 := redis_backend) E req agent (after_peek E agent s)) !! k
          = Some (u + _reservation_tokens req)) as Hk.
  { apply admission_charges; [|done|done]. revert Hin. unfold period_use, used_tokens, after_peek.
    by destruct (0 <? _). }
  assert (k ∈ period_keys) as Hkey by (unfold period_use, period_keys in *; set_solver).
  revert Hk. generalize (after_admission (H0 := redis_backend) E req agent (after_peek E agent s)). intros s1 Hk.
  unfold complete. pose proof (dispatch_settles u k s1 Hkey Hk Hu) as Hdis.
  destruct (or_gateway_error _ _ _ _ _ _ _ s1) as [[res|e] s2] eqn:Hrun.
  2: { rewrite (bind_stop _ _ _ _ _ Hrun). intros [= <- <-]. destruct e; try done.
       destruct Hdis as [Hno|Hu2]; [by destruct (Hno status detail)|done]. }
  destruct Hdis as (Hc2 & Hp & Hct). rewrite (bind_step _ _ _ _ _ Hrun).
  set (w := prompt_tokens res + completion_tokens res).
  assert (∃ s3, (if 0 <? llm_tokens_per_minute (settings E) then consume_tokens E agent w else ret tt) s2
    = (Ret tt, s3) ∧ counters s3 = counters s2) as (s3 & Hcons & Hc3) by (destruct (0 <? _); by eexists).
  rewrite (bind_step _ _ _ _ _ Hcons).
  destruct (settle_lookup k (u + _reservation_tokens req) (w - _reservation_tokens req) s3)
    as (s4 & Hset & _ & Hk4); [done|by rewrite Hc3, Hc2|unfold w; lia|].
  rewrite (bind_step _ _ s3 tt s4) by exact Hset.
  match goal with |- context [audit E ?c] => pose proof (audit_counters c s4) as [Hc5 Hr];
    destruct (audit E c s4) as [[[]|e] s5] eqn:Haud end.
  - rewrite (bind_step _ _ _ _ _ Haud). intros [= <- <-]. exists res. split_and!; [done| |apply success_counted].
    cbn in Hc5. rewrite Hc5, Hk4. f_equal. unfold w. lia.
  - rewrite (bind_stop _ _ _ _ _ Haud). intros [= <- <-]. destruct e; try done. by destruct (Hr status detail).
Qed.

End Call.

End Charged.

(** ** What is not settled *)

(** An exception of the adapter that is no [GatewayError] leaves the handler as
    it is: the adapter was entered, the reservation stays in the counters, and
    the trail has no row of the call. *)
Theorem unforeseen_exception_unsettled `{Hash} `{Backend} E req agent (s : chat_state) a q p c e :
  stream req = false → gates_open E req agent s = true →
  dispatch_target E req = Ret (a, q, p, c) → chat_completion E a q p c = Raise e →
  (∀ status reason detail hint, e ≠ GatewayError status reason detail hint) →
  chat_completions E req agent s
  = (Raise e, with_call (a, q, p, c) (after_admission E req agent (after_peek E agent s))).
Proof.
  intros Hst Hopen Ht Hc He. rewrite chat_after_gates. pose proof (gates_gated E req agent s) as Hg.
  unfold gated in Hg. rewrite Hopen in Hg. rewrite (bind_step _ _ _ _ _ Hg), Hst.
  unfold complete, bind, or_gateway_error, catch, call_adapter, lift. rewrite Ht. cbn. rewrite Hc.
  destruct e; try done. by destruct (He status reason detail hint).
Qed.

(** The answer to a streaming request is returned before its generator runs:
    a client that has gone by then leaves the reservation charged and nothing
    in the trail. *)
Theorem unread_stream_unsettled `{Hash} `{Backend} E req agent streamer enforced reserved monotonic s :
  process (snd (serve_stream E req agent streamer enforced reserved (Some 0%nat) monotonic s)) = s.
Proof. done. Qed.

(** ** Concrete requests *)

Module ChatDemo.
Definition june (d h : N) : date_fields :=
  {| year := 2026; month := 6; day := d; hour := h; minute := 0; second := 0; microsecond := 0;
     tz_utc := true |}.

Definition result : GatewayResult :=
  {| response := [("id", JStr "cmpl-1")]; upstream_request_id := JNull; backend := "cullis_native";
     provider := "anthropic"; prompt_tokens := 12; completion_tokens := 30; cost_usd := JNull |}.

Definition spoken (s : string) : fields :=
  [("choices", JList [JObj [("delta", JObj [("content", JStr s)])]])].

(** An adapter that learns what was used when the stream ends. *)
Definition streamer : StreamingDispatch :=
  {| sd_backend := "cullis_native"; sd_provider := "anthropic";
     sd_chunks := [spoken "Hello, "; spoken "world, and"; spoken " so on"]; sd_end := Exhausted;
     sd_prompt_tokens n := if (n <? 4)%nat then 0 else 12;
     sd_completion_tokens n := if (n <? 4)%nat then 0 else 9;
     sd_cost_usd := JNull; sd_upstream_request_id := JNull; sd_latency_ms := 5 |}.

Definition env (answer : outcome GatewayResult) : chat_env :=
  {| e_auditing := quiet_trail;
     settings := {| llm_tokens_per_minute := 100000; llm_tokens_per_day := 5000; llm_tokens_per_month := 0;
                    ai_gateway_backend := "cullis_native"; ai_gateway_provider := "anthropic";
                    anthropic_api_key := "key" |};
     trace_id := "trace_1"; peeked_at := 1; consumed_at := 2; admitted_at := june 2 10; settled_at := june 2 10;
     agent_budgets := Ret ∅; trail_read := None; day_cut := None; month_cut := None;
     adjust_fails := ((false, false), (false, false)); provider_row _ := Ret None;
     chat_completion _ _ _ _ := answer; stream_chat_completion _ _ _ _ := Ret streamer;
     latency_ms := 5; json_loads := loads (λ t, JStr t) |}.

Definition agent (capabilities : list string) : InternalAgent :=
  {| ag_agent_id := "acme::bot"; ag_capabilities := capabilities; ag_principal_type := "agent";
     ag_scope_providers := Some ["anthropic"] |}.

Definition ask (streaming : bool) : ChatCompletionRequest :=
  {| model := "anthropic/claude-haiku-4-5";
     messages := [{| role := "user"; content := JStr "Hello there"; tool_calls := JNull;
                     tool_call_id := JNull; msg_name := JNull |}];
     max_tokens := Some 100; temperature := JNull; stream := streaming; req_tools := JNull;
     tool_choice := JNull |}.

Definition start : chat_state (H0 := redis_backend) :=
  {| k_trail := {| w_table := []; w_pending := []; w_unhealthy := false |}; k_audits := 0;
     windows := ∅; counters := ∅; entered := [] |}.

Notation key := (_day_key "acme::bot" (june 2 10)).
Notation bot := (agent ["llm.chat"]).
Notation run answer := (chat_completions (H0 := redis_backend) (env answer) (ask false) bot start).

Lemma own answer : (∀ code body, answer ≠ Raise (HTTPException code body)) → own_refusals (env answer).
Proof. intros Ha code body. split_and!; [done|done|intros a r p c; apply Ha|done]. Qed.

Lemma streamer_counts n : 0 <= sd_prompt_tokens streamer n ∧ 0 <= sd_completion_tokens streamer n.
Proof. cbn [sd_prompt_tokens sd_completion_tokens streamer]. destruct (n <? 4)%nat; lia. Qed.

Lemma up answer : redis_up (env answer) (λ t, JStr t).
Proof. done. Qed.
End ChatDemo.

(** A crash of the adapter, as above: 102 tokens reserved, none used, no row. *)
Example crash_keeps_reservation :
  let '(r, s) := ChatDemo.run (Raise (Other "JSONDecodeError" "")) in
  r = Raise (Other "JSONDecodeError" "") ∧ counters s !! ChatDemo.key = Some 102 ∧ w_table (k_trail s) = [].
Proof. vm_compute. done. Qed.

Lemma chat_answer_in_trail_witness :
  (∃ s, ChatDemo.run (Ret ChatDemo.result)
        = (Ret (Payload [("id", JStr "cmpl-1"); ("cullis_trace_id", JStr "trace_1")]), s) ∧
     answered (ChatDemo.env (Ret ChatDemo.result)) (ChatDemo.ask false) ChatDemo.bot
       (fst (ChatDemo.run (Ret ChatDemo.result))) s) ∧
  (∃ body s, chat_completions (H0 := redis_backend) (ChatDemo.env (Ret ChatDemo.result)) (ChatDemo.ask false)
               (ChatDemo.agent []) ChatDemo.start = (Raise (HTTPException 403 body), s) ∧
     answered (ChatDemo.env (Ret ChatDemo.result)) (ChatDemo.ask false) (ChatDemo.agent [])
       (Raise (HTTPException 403 body)) s).
Proof.
  assert (sound ChatDemo.start) as Hs by constructor.
  assert (own_refusals (ChatDemo.env (Ret ChatDemo.result))) as Hown by by apply ChatDemo.own.
  pose proof (chat_answer_in_trail (H0 := redis_backend) (ChatDemo.env (Ret ChatDemo.result)) (ChatDemo.ask false)
    ChatDemo.bot quiet_polite quiet_deny Hown ChatDemo.start Hs) as H1.
  pose proof (chat_answer_in_trail (H0 := redis_backend) (ChatDemo.env (Ret ChatDemo.result)) (ChatDemo.ask false)
    (ChatDemo.agent []) quiet_polite quiet_deny Hown ChatDemo.start Hs) as H2.
  split.
  - destruct (ChatDemo.run (Ret ChatDemo.result)) as [r s] eqn:Hr. exists s.
    assert (r = Ret (Payload [("id", JStr "cmpl-1"); ("cullis_trace_id", JStr "trace_1")])) as ->
      by (apply (f_equal fst) in Hr; cbn [fst] in Hr; rewrite <- Hr; vm_compute; reflexivity).
    split; [reflexivity|]. exact (proj2 H1).
  - destruct (chat_completions _ _ (ChatDemo.agent []) _) as [r s] eqn:Hr.
    assert (∃ body, r = Raise (HTTPException 403 body)) as [body ->]
      by (apply (f_equal fst) in Hr; cbn [fst] in Hr; rewrite <- Hr; eexists; vm_compute; reflexivity).
    exists body, s. split; [reflexivity|]. exact (proj2 H2).
Defined.

Lemma call_settled_witness :
  let '(r, s) := ChatDemo.run (Ret ChatDemo.result) in
  r = Ret (Payload [("id", JStr "cmpl-1"); ("cullis_trace_id", JStr "trace_1")]) ∧
  match r with
  | Ret (Payload _) => ∃ weight row, weight = 42 ∧ counters s !! ChatDemo.key = Some (0 + weight) ∧
      counted (ChatDemo.env (Ret ChatDemo.result)) ChatDemo.bot (λ t, JStr t) weight row
  | _ => False
  end.
Proof.
  destruct (ChatDemo.run (Ret ChatDemo.result)) as [r s] eqn:Hr.
  assert (r = Ret (Payload [("id", JStr "cmpl-1"); ("cullis_trace_id", JStr "trace_1")])) as ->
    by (apply (f_equal fst) in Hr; cbn [fst] in Hr; rewrite <- Hr; vm_compute; reflexivity).
  split; [reflexivity|].
  assert (∀ res, Ret ChatDemo.result = Ret res → 0 <= prompt_tokens res ∧ 0 <= completion_tokens res) as Hcounts
    by (intros res [= <-]; cbn; lia).
  destruct (call_settled (ChatDemo.env (Ret ChatDemo.result)) (ChatDemo.ask false) ChatDemo.bot (λ t, JStr t)
    (ChatDemo.up _) (ChatDemo.own (Ret ChatDemo.result) ltac:(done)) (λ _ _ _ _ res Hres, Hcounts res Hres)
    ltac:(intros n [= <-]; lia) ChatDemo.start (Ret (Payload [("id", JStr "cmpl-1"); ("cullis_trace_id", JStr "trace_1")])) s ChatDemo.key 0) as (res & _ & Hk & Hcount);
    [reflexivity|vm_compute; reflexivity|vm_compute; reflexivity|left|lia|exact Hr|].
  assert (prompt_tokens res + completion_tokens res = 42) as Hw.
  { apply (f_equal (λ x, counters (snd x) !! ChatDemo.key)) in Hr. cbn [snd] in Hr. rewrite Hk in Hr.
    assert (counters (snd (ChatDemo.run (Ret ChatDemo.result))) !! ChatDemo.key = Some 42) as H42
      by (vm_compute; reflexivity).
    rewrite H42 in Hr. injection Hr as Hr. lia. }
  rewrite Hw in Hk, Hcount. eexists _, _. split; [reflexivity|]. split; [exact Hk|exact Hcount].
Defined.

(** The client goes away at the second frame: the stream is charged for the
    prompt and for what was sent. *)
Lemma stream_settled_witness :
  let s := with_counters (H0 := redis_backend) ({[ChatDemo.key := 102]} : gmap string Z) ChatDemo.start in
  let '(r, g) := serve_stream (ChatDemo.env (Ret ChatDemo.result)) (ChatDemo.ask true) ChatDemo.bot
                   ChatDemo.streamer true 102 (Some 2%nat) (λ _, 0%Q) s in
  r = Raise GeneratorExit ∧ upstream_drained g = false ∧
  counters (process g) !! ChatDemo.key = Some (102 + (6 - 102)) ∧
  ∃ weight row, 1 <= weight ∧ counters (process g) !! ChatDemo.key = Some (102 + (weight - 102)) ∧
    counted (ChatDemo.env (Ret ChatDemo.result)) ChatDemo.bot (λ t, JStr t) weight row ∧
    in_trail quiet_trail row g.
Proof.
  cbv zeta.
  set (s := with_counters (H0 := redis_backend) ({[ChatDemo.key := 102]} : gmap string Z) ChatDemo.start).
  destruct (serve_stream _ _ _ _ _ _ _ _ s) as [r g] eqn:Hr.
  assert (r = Raise GeneratorExit) as ->
    by (apply (f_equal fst) in Hr; cbn [fst] in Hr; rewrite <- Hr; vm_compute; reflexivity).
  assert (upstream_drained g = false ∧ terminated_with_error g = None) as [Hd Ht].
  { split; [apply (f_equal (λ x, upstream_drained (snd x))) in Hr|
            apply (f_equal (λ x, terminated_with_error (snd x))) in Hr];
      cbn [snd] in Hr; rewrite <- Hr; vm_compute; reflexivity. }
  split; [reflexivity|]. split; [exact Hd|]. split.
  { apply (f_equal (λ x, counters (process (snd x)) !! ChatDemo.key)) in Hr. cbn [snd] in Hr.
    rewrite <- Hr. vm_compute. reflexivity. }
  destruct (stream_settled (ChatDemo.env (Ret ChatDemo.result)) (ChatDemo.ask true) ChatDemo.bot (λ t, JStr t)
    ChatDemo.streamer (Some 2%nat) (λ _, 0%Q) 102 quiet_polite quiet_deny (ChatDemo.up _)
    ChatDemo.streamer_counts s (Raise GeneratorExit) g ChatDemo.key 102)
    as (_ & weight & row & Hk & Hpay & Hcount & Hin); [constructor|discriminate|vm_compute; reflexivity|left|lia|exact Hr|].
  exists weight, row. split; [by apply Hpay|]. split; [exact Hk|]. split; [exact Hcount|].
  apply Hin. intros e [= <-] [|]; discriminate.
Defined.
