(* ===== verification/ToolDetail.v ===== *)
(** * What an executed tool call writes into its audit row

    [tools/executor.py] ([_safe_json_value], [_omit_marker],
    [_parameters_omit_marker], [_build_success_detail]) and
    [tools/audit_redaction.py], with [fnmatch.fnmatchcase] on the list of the
    code points of a text.

    The result of a handler is any Python value.  A container lives at an
    address of a heap, so it can be shared and can contain itself; a JSON value
    (what [json.loads] built, never shared) is one [PJson]; anything
    [json.dumps] has no encoding for is [POpaque] with its class and [repr].
    The interpreter's recursion limit is the argument [limit] of the walk, the
    number of nested calls it allows: [None] is [RecursionError]. *)

From S2P Require Import Prelude Sha256 Json AuditCanon AuditLog.

Open Scope Z_scope.

(** ** Python values *)

Inductive pyval :=
| PJson (v : json)
| POpaque (class repr_text : string)
| PRef (addr : nat).

(** The keys of a dict as [str(k)] gives them. *)
Inductive container :=
| CDict (items : list (string * pyval))
| CList (items : list pyval)
| CTuple (items : list pyval).

Abbreviation heap := (list container).

Definition container_class (c : container) : string :=
  match c with CDict _ => "dict" | CList _ => "list" | CTuple _ => "tuple" end.

(** [type(value).__name__] *)
Definition type_name (h : heap) (v : pyval) : string :=
  match v with
  | PJson JNull => "NoneType"
  | PJson (JBool _) => "bool"
  | PJson (JInt _) => "int"
  | PJson (JFloat _ _) => "float"
  | PJson (JStr _) => "str"
  | PJson (JList _) => "list"
  | PJson (JObj _) => "dict"
  | POpaque class _ => class
  | PRef a => match h !! a with Some c => container_class c | None => "" end
  end.

Definition omitted (class reason : string) : json :=
  JObj [("_omitted", JBool true); ("type", JStr class); ("reason", JStr reason)].

Definition non_serializable (class repr_text : string) : json :=
  JObj [("_non_serializable", JBool true); ("repr", JStr (take_chars 512 repr_text));
        ("type", JStr class)].

(** [{str(k): f(v) for k, v in items}]: keys with one text keep the last value. *)
Definition dict_of (l : fields) : json := JObj (foldl (λ d kv, dset (fst kv) (snd kv) d) [] l).

(** The [json.dumps(value)] the source tries first decides for the leaves alone:
    what it accepts is handed back as it is ([PJson] of a scalar, the happy path)
    and what it refuses becomes its [repr] ([POpaque]).  Of a container the
    verdict is dropped, a [TypeError] or the [ValueError] of a cycle being caught
    and the walk taken either way; a nesting too deep for it is [RecursionError]
    there as in the walk, and counts against [limit]. *)
Fixpoint _safe_json_value (limit : nat) (h : heap) (seen : list nat) (v : pyval) : option json :=
  match limit with
  | O => None
  | S limit' =>
      let walk := _safe_json_value limit' h in
      let walk_items seen items := mapM (λ kv, j ← walk seen (snd kv); Some (fst kv, j)) items in
      match v with
      | PJson (JList l) => JList <$> mapM (λ x, walk seen (PJson x)) l
      | PJson (JObj f) =>
          dict_of <$> walk_items seen ((λ kv, (fst kv, PJson (snd kv))) <$> f)
      | PJson j => Some j      (* accepted by dumps, and no container *)
      | POpaque class text => Some (non_serializable class text)
      | PRef a =>
          match h !! a with
          | None => None
          | Some c =>
              if bool_decide (a ∈ seen) then Some (omitted (container_class c) "circular_reference")
              else match c with
                   | CDict items => dict_of <$> walk_items (a :: seen) items
                   | CList items | CTuple items => JList <$> mapM (walk (a :: seen)) items
                   end
          end
      end
  end.

Definition _safe_json_value_top (limit : nat) (h : heap) (v : pyval) : json :=
  match _safe_json_value limit h [] v with
  | Some j => j
  | None => omitted (type_name h v) "circular_reference"
  end.

Definition _omit_marker (class : string) : json :=
  JObj [("_omitted", JBool true); ("type", JStr class)].

(** [sorted(str(k) for k in value.keys())] of a dict. *)
Definition dict_keys (h : heap) (v : pyval) : option (list string) :=
  match v with
  | PJson (JObj f) => Some (fst <$> f)
  | PRef a => match h !! a with Some (CDict items) => Some (fst <$> items) | _ => None end
  | _ => None
  end.

Definition sized_marker (class : string) (encoded_size : Z) (more : fields) : json :=
  JObj ([("_omitted", JBool true); ("type", JStr class); ("size_bytes", JInt encoded_size)] ++ more).

Definition _parameters_omit_marker (h : heap) (v : pyval) (encoded_size : Z) : json :=
  sized_marker (type_name h v) encoded_size
    match dict_keys h v with
    | Some ks => [("top_level_keys", JList (JStr <$> merge_sort String.le ks))]
    | None => []
    end.

(** ** [fnmatch.fnmatchcase] *)

Inductive glob :=
| GStar
| GAny
| GSet (negated : bool) (ranges : list (string * string))
| GLit (c : string).

(** The inside of a bracket: [a-z] is a range, a hyphen elsewhere itself. *)
Fixpoint set_ranges (l : list string) : list (string * string) :=
  match l with
  | [] => []
  | a :: rest =>
      match rest with
      | "-" :: b :: rest' => (a, b) :: set_ranges rest'
      | _ => (a, a) :: set_ranges rest
      end
  end.

(** The text up to the next closing bracket, and what follows it. *)
Fixpoint until_close (l : list string) : option (list string * list string) :=
  match l with
  | [] => None
  | c :: rest => if bool_decide (c = "]") then Some ([], rest)
                 else '(inside, after) ← until_close rest; Some (c :: inside, after)
  end.

(** What follows an opening bracket: a closing one right after it, or after the
    [!], is an element of the set. *)
Definition bracket (l : list string) : option (glob * list string) :=
  let '(negated, l) := match l with "!" :: l' => (true, l') | _ => (false, l) end in
  '(inside, after) ← match l with
                     | "]" :: l' => '(i, a) ← until_close l'; Some ("]" :: i, a)
                     | _ => until_close l
                     end;
  Some (GSet negated (set_ranges inside), after).

Fixpoint parse_glob (fuel : nat) (l : list string) : list glob :=
  match fuel, l with
  | S n, "*" :: rest => GStar :: parse_glob n rest
  | S n, "?" :: rest => GAny :: parse_glob n rest
  | S n, "[" :: rest =>
      match bracket rest with
      | Some (g, after) => g :: parse_glob n after
      | None => GLit "[" :: parse_glob n rest
      end
  | S n, c :: rest => GLit c :: parse_glob n rest
  | _, _ => []
  end.

Definition glob_one (g : glob) (c : string) : bool :=
  match g with
  | GStar | GAny => true
  | GSet negated ranges =>
      xorb negated (existsb (λ r, String.leb (fst r) c && String.leb c (snd r)) ranges)
  | GLit d => bool_decide (c = d)
  end.

Fixpoint glob_match (p : list glob) : list string → bool :=
  match p with
  | [] => λ s, match s with [] => true | _ => false end
  | GStar :: p' =>
      fix skip (s : list string) : bool :=
        glob_match p' s || match s with [] => false | _ :: s' => skip s' end
  | g :: p' => λ s, match s with c :: s' => glob_one g c && glob_match p' s' | [] => false end
  end.

Definition fnmatchcase (text pattern : string) : bool :=
  glob_match (parse_glob (String.length pattern) (chars pattern)) (chars text).

(** ** [audit_redaction] *)

Definition _matches_any_pattern (tool_name : string) (patterns : list string) : bool :=
  existsb (λ p, negb (bool_decide (p = "")) && fnmatchcase tool_name p) patterns.

Definition REASON_TOOL_DENYLIST : string := "tool_denylist".
Definition REASON_CAPTURE_DISABLED : string := "capture_disabled".

Definition should_redact (tool_name : option string) (capture_enabled : bool)
    (denylist : list string) : bool :=
  if negb capture_enabled then true else
  match tool_name with None => false | Some t => _matches_any_pattern t denylist end.

Definition redacted_marker (reason : string) : json :=
  JObj [("_redacted", JBool true); ("reason", JStr reason)].

Record redaction_settings := {
  capture_parameters : bool;
  capture_result : bool;
  parameters_denylist : list string;
  result_denylist : list string;
}.

Definition redact (tool_name : option string) (capture : bool) (denylist : list string) (v : json)
    : json :=
  if should_redact tool_name capture denylist
  then redacted_marker (if capture then REASON_TOOL_DENYLIST else REASON_CAPTURE_DISABLED)
  else v.

(** ** [_build_success_detail] *)

Definition encoded_size (v : json) : Z := Z.of_nat (String.length (dumps v)).

Definition detail_payload (parameters result : json) : json :=
  JObj [("parameters", parameters); ("result_summary", result)].

Definition truncated_payload (parameters result : json) : json :=
  JObj [("parameters", parameters); ("result_summary", result); ("detail_truncated", JBool true)].

(** The first payload of a list that fits, else the last resort. *)
Fixpoint first_fitting (max_bytes : Z) (payloads : list json) (last_resort : json) : string :=
  match payloads with
  | [] => dumps last_resort
  | p :: rest => if encoded_size p <=? max_bytes then dumps p
                 else first_fitting max_bytes rest last_resort
  end.

Section Build.
Context (limit : nat) (h : heap).

(** [safe_params] and [safe_result] after redaction. *)
Definition safe_parameters (tool_name : option string) (s : option redaction_settings)
    (parameters : pyval) : json :=
  let v := _safe_json_value_top limit h parameters in
  match s with
  | None => v
  | Some s => redact tool_name (capture_parameters s) (parameters_denylist s) v
  end.

Definition safe_result (tool_name : option string) (s : option redaction_settings)
    (result : pyval) : json :=
  let v := _safe_json_value_top limit h result in
  match s with
  | None => v
  | Some s => redact tool_name (capture_result s) (result_denylist s) v
  end.

Definition bare_payload (parameters result : pyval) (size : Z) : json :=
  truncated_payload (sized_marker (type_name h parameters) size []) (_omit_marker (type_name h result)).

Definition _build_success_detail (parameters result : pyval) (max_bytes : Z)
    (tool_name : option string) (s : option redaction_settings) : string :=
  let params := safe_parameters tool_name s parameters in
  let omitted_result := _omit_marker (type_name h result) in
  let size := encoded_size params in
  first_fitting max_bytes
    [detail_payload params (safe_result tool_name s result);
     truncated_payload params omitted_result;
     truncated_payload (_parameters_omit_marker h parameters size) omitted_result]
    (bare_payload parameters result size).
End Build.

(** ** The walk over a value

    Addresses that a value mentions exist, and its JSON parts are not nested
    deeper than [d]. *)

Fixpoint json_depth (v : json) : nat :=
  match v with
  | JList l => S (foldr (λ x n, Nat.max (json_depth x) n) 0%nat l)
  | JObj f => S (foldr (λ kv n, Nat.max (json_depth (snd kv)) n) 0%nat f)
  | _ => 1
  end.

Definition val_ok (h : heap) (d : nat) (v : pyval) : Prop :=
  match v with
  | PJson j => (json_depth j <= d)%nat
  | POpaque _ _ => True
  | PRef a => (a < length h)%nat
  end.

Definition items_of (c : container) : list pyval :=
  match c with CDict items => snd <$> items | CList items | CTuple items => items end.

Definition heap_ok (h : heap) (d : nat) : Prop :=
  ∀ c v, c ∈ h → v ∈ items_of c → val_ok h d v.

Lemma foldr_max_elem {A} (f : A → nat) l x :
  x ∈ l → (f x <= foldr (λ y n, Nat.max (f y) n) 0%nat l)%nat.
Proof. induction 1 as [|x y l _ IH]; simpl; lia. Qed.

Lemma mapM_total {A B} (f : A → option B) l :
  (∀ x, x ∈ l → is_Some (f x)) → is_Some (mapM f l).
Proof. intros Hf. apply mapM_is_Some, Forall_forall. exact Hf. Qed.

(** The equations of the walk. *)
Definition walk_item limit h seen (kv : string * pyval) : option (string * json) :=
  j ← _safe_json_value limit h seen (snd kv); Some (fst kv, j).

Lemma walk_list n h seen l :
  _safe_json_value (S n) h seen (PJson (JList l))
  = JList <$> mapM (λ x, _safe_json_value n h seen (PJson x)) l.
Proof. done. Qed.

Lemma walk_obj n h seen f :
  _safe_json_value (S n) h seen (PJson (JObj f))
  = dict_of <$> mapM (walk_item n h seen) ((λ kv, (fst kv, PJson (snd kv))) <$> f).
Proof. done. Qed.

Lemma walk_ref n h seen a :
  _safe_json_value (S n) h seen (PRef a)
  = match h !! a with
    | None => None
    | Some c =>
        if bool_decide (a ∈ seen) then Some (omitted (container_class c) "circular_reference")
        else match c with
             | CDict items => dict_of <$> mapM (walk_item n h (a :: seen)) items
             | CList items | CTuple items => JList <$> mapM (_safe_json_value n h (a :: seen)) items
             end
    end.
Proof. done. Qed.

Lemma walk_item_total limit h seen k v :
  is_Some (_safe_json_value limit h seen v) → is_Some (walk_item limit h seen (k, v)).
Proof. intros [j Hj]. unfold walk_item. cbn [fst snd]. rewrite Hj. by eexists. Qed.

Lemma walk_json_total limit h seen j :
  (json_depth j <= limit)%nat → is_Some (_safe_json_value limit h seen (PJson j)).
Proof.
  revert seen j. induction limit as [|n IH]; intros seen j Hd; [destruct j; simpl in Hd; lia|].
  destruct j as [| | | | |l|f]; try (by eexists); simpl in Hd.
  - rewrite walk_list. apply fmap_is_Some, mapM_total. intros x Hx. apply IH.
    pose proof (foldr_max_elem json_depth l x Hx). lia.
  - rewrite walk_obj. apply fmap_is_Some, mapM_total. intros [k v] Hx.
    apply list_elem_of_fmap in Hx as ([k' v'] & [= -> ->] & Hx).
    pose proof (foldr_max_elem (λ kv, json_depth (snd kv)) f _ Hx) as Hm. cbn [fst snd] in Hm.
    apply walk_item_total, IH. lia.
Qed.

(** At most [length h] containers lie on one path: a repeated one ends it. *)
Lemma walk_total limit h d seen v :
  heap_ok h d → val_ok h d v → NoDup seen → (∀ a, a ∈ seen → a < length h)%nat →
  (length h + d + 1 <= limit + length seen)%nat →
  is_Some (_safe_json_value limit h seen v).
Proof.
  intros Hh. revert seen v. induction limit as [|n IH]; intros seen v Hv Hnd Hin Hl.
  - assert (length seen <= length h)%nat; [|lia].
    rewrite <- (length_seq (length h) 0). apply NoDup_incl_length.
    + by apply NoDup_ListNoDup.
    + intros a Ha%list_elem_of_In. apply in_seq. specialize (Hin a Ha). lia.
  - assert (length seen <= length h)%nat as Hlen.
    { rewrite <- (length_seq (length h) 0). apply NoDup_incl_length.
      - by apply NoDup_ListNoDup.
      - intros a Ha%list_elem_of_In. apply in_seq. specialize (Hin a Ha). lia. }
    destruct v as [j|class text|a]; [|by eexists|].
    { apply walk_json_total. cbn in Hv. lia. }
    rewrite walk_ref. cbn in Hv. destruct (lookup_lt_is_Some_2 h a Hv) as [c Hc]. rewrite Hc.
    case_bool_decide as Hs; [by eexists|].
    assert (∀ x, x ∈ items_of c → is_Some (_safe_json_value n h (a :: seen) x)) as Hitems.
    { intros x Hx. apply IH.
      - apply (Hh c); [by eapply list_elem_of_lookup_2|done].
      - by constructor.
      - intros b [->|Hb]%elem_of_cons; [done|by apply Hin].
      - simpl. lia. }
    destruct c as [items|items|items]; apply fmap_is_Some, mapM_total; [|exact Hitems..].
    intros [k x] Hx. apply walk_item_total, Hitems. apply list_elem_of_fmap. by exists (k, x).
Qed.

Lemma mapM_mono {A B} (f g : A → option B) l r :
  (∀ x y, x ∈ l → f x = Some y → g x = Some y) → mapM f l = Some r → mapM g l = Some r.
Proof.
  rewrite !mapM_Some. intros Hfg Hl. eapply Forall2_impl_in; [exact Hl|]. intros x y Hx _. by apply Hfg.
Qed.

(** More room never changes a result. *)
Lemma walk_mono limit h seen v j :
  _safe_json_value limit h seen v = Some j → _safe_json_value (S limit) h seen v = Some j.
Proof.
  revert seen v j. induction limit as [|n IH]; intros seen v j; [done|].
  assert (∀ seen l r, mapM (walk_item n h seen) l = Some r →
    mapM (walk_item (S n) h seen) l = Some r) as Hitems.
  { intros seen' l r. apply mapM_mono. intros [k x] y _. unfold walk_item. cbn [fst snd].
    destruct (_safe_json_value n h seen' x) as [z|] eqn:Hz; [|done].
    by rewrite (IH _ _ _ Hz). }
  assert (∀ seen l r, mapM (_safe_json_value n h seen) l = Some r →
    mapM (_safe_json_value (S n) h seen) l = Some r) as Hvals.
  { intros seen' l r. apply mapM_mono. intros x y _. apply IH. }
  destruct v as [[| | | | |l|f]|class text|a]; try done.
  - rewrite !walk_list. intros (r & Hr & ->)%fmap_Some. erewrite mapM_mono; [done| |exact Hr].
    intros x y _. apply IH.
  - rewrite !walk_obj. intros (r & Hr & ->)%fmap_Some. by rewrite (Hitems _ _ _ Hr).
  - rewrite !walk_ref. destruct (h !! a) as [c|]; [|done]. destruct (bool_decide _); [done|].
    destruct c as [items|items|items]; intros (r & Hr & ->)%fmap_Some;
      first [by rewrite (Hitems _ _ _ Hr)|by rewrite (Hvals _ _ _ Hr)].
Qed.

(** C31: the walk ends on every value, also on one that contains itself: when
    the interpreter allows as many nested calls as there are containers plus
    the depth of the JSON parts, there is a value, and allowing more does not
    change it. *)
Theorem cyclic_results_end limit h d v :
  heap_ok h d → val_ok h d v → (length h + d + 1 <= limit)%nat →
  ∃ j, ∀ k, _safe_json_value (limit + k) h [] v = Some j.
Proof.
  intros Hh Hv Hl. destruct (walk_total limit h d [] v Hh Hv) as [j Hj].
  { constructor. } { intros a Ha. by apply not_elem_of_nil in Ha. } { simpl. lia. }
  exists j. induction k as [|k IH]; [by rewrite Nat.add_0_r|].
  rewrite Nat.add_succ_r. by apply walk_mono.
Qed.

(** ** JSON values are recorded as they are *)

Fixpoint json_wf (v : json) : Prop :=
  match v with
  | JList l => foldr (λ x P, json_wf x ∧ P) True l
  | JObj f => dict_ok f ∧ foldr (λ kv P, json_wf (snd kv) ∧ P) True f
  | _ => True
  end.

Lemma foldr_and_elem {A} (P : A → Prop) l x : foldr (λ y Q, P y ∧ Q) True l → x ∈ l → P x.
Proof. intros Hl. induction 1; simpl in Hl; naive_solver. Qed.

Lemma dict_of_dict f : dict_ok f → dict_of f = JObj f.
Proof. intros Hf. unfold dict_of. by rewrite dfold_id. Qed.

Lemma mapM_id {A} (f : A → option A) l : (∀ x, x ∈ l → f x = Some x) → mapM f l = Some l.
Proof. intros Hf. apply mapM_Some, Forall2_same_length_lookup_2; [done|]. intros i x y Hx Hy.
  simplify_eq. apply Hf. by eapply list_elem_of_lookup_2. Qed.

Lemma walk_json_id limit h seen j :
  (json_depth j <= limit)%nat → json_wf j → _safe_json_value limit h seen (PJson j) = Some j.
Proof.
  revert seen j. induction limit as [|n IH]; intros seen j Hd Hw; [destruct j; simpl in Hd; lia|].
  destruct j as [| | | | |l|f]; try done; simpl in Hd, Hw.
  - rewrite walk_list, (mapM_id _ l); [done|]. intros x Hx. apply IH.
    + pose proof (foldr_max_elem json_depth l x Hx). lia.
    + by apply (foldr_and_elem json_wf l).
  - destruct Hw as [Hf Hw]. rewrite walk_obj.
    assert (mapM (walk_item n h seen) ((λ kv, (fst kv, PJson (snd kv))) <$> f) = Some f) as ->.
    { apply mapM_Some, Forall2_fmap_l, Forall2_same_length_lookup_2; [done|].
      intros i [k v] y Hx Hy. simplify_eq. apply list_elem_of_lookup_2 in Hx.
      change (walk_item n h seen (k, PJson v) = Some (k, v)).
      unfold walk_item. cbn [fst snd]. rewrite IH; [done|..].
      - pose proof (foldr_max_elem (λ kv, json_depth (snd kv)) f _ Hx) as Hm. cbn [snd] in Hm. lia.
      - exact (foldr_and_elem (λ kv, json_wf (snd kv)) f _ Hw Hx). }
    cbn [fmap option_fmap option_map]. by rewrite dict_of_dict.
Qed.

(** ** Sizes *)

Definition plain_char (c : ascii) : bool :=
  let n := N_of_ascii c in
  ((32 <=? n) && (n <=? 126) && negb (n =? 34) && negb (n =? 92))%N.

(** No character of the text is escaped; names of Python classes are. *)
Definition plain (s : string) : Prop := all_chars plain_char s = true.

Lemma escape_plain c : plain_char c = true → escape_code (N_of_ascii c) = String c "".
Proof.
  unfold plain_char, escape_code. rewrite !andb_true_iff, !negb_true_iff, !N.leb_le, !N.eqb_neq.
  intros [[[H1 H2] H3] H4].
  repeat match goal with |- context [(?a =? ?b)%N] =>
    rewrite (proj2 (N.eqb_neq a b)) by lia end.
  rewrite (proj2 (N.leb_le _ _) H1), (proj2 (N.leb_le _ _) H2). cbn [andb].
  by rewrite ascii_N_embedding.
Qed.

Lemma plain_ascii c : plain_char c = true → (N_of_ascii c <? 128)%N = true.
Proof. unfold plain_char. rewrite !andb_true_iff, !N.leb_le, N.ltb_lt. lia. Qed.

Lemma dump_plain s : plain s → String.length (dump_str s) = (String.length s + 2)%nat.
Proof.
  intros Hs. unfold dump_str. assert (escape_utf8 0 0 s = s) as ->.
  { unfold plain in Hs. induction s as [|c s IH]; [done|]. cbn [all_chars] in Hs.
    apply andb_true_iff in Hs as [Hc Hs]. cbn [escape_utf8].
    by rewrite (plain_ascii c Hc), (escape_plain c Hc), (IH Hs). }
  rewrite !str_length_app. simpl. lia.
Qed.

Definition member (k : string) (v : json) : string := dump_str k +:+ ":" +:+ dumps v.

Lemma dumps_truncated x y :
  dumps (truncated_payload x y)
  = "{" +:+ join "," [member "detail_truncated" (JBool true); member "parameters" x;
                      member "result_summary" y] +:+ "}".
Proof. reflexivity. Qed.

Lemma dumps_omit class :
  dumps (_omit_marker class)
  = "{" +:+ join "," [member "_omitted" (JBool true); member "type" (JStr class)] +:+ "}".
Proof. reflexivity. Qed.

Lemma dumps_sized class size :
  dumps (sized_marker class size [])
  = "{" +:+ join "," [member "_omitted" (JBool true); member "size_bytes" (JInt size);
                      member "type" (JStr class)] +:+ "}".
Proof. reflexivity. Qed.

Lemma member_length k v : plain k →
  String.length (member k v) = (String.length k + 3 + String.length (dumps v))%nat.
Proof. intros Hk. unfold member. rewrite !str_length_app, dump_plain by done. simpl. lia. Qed.

Lemma str_dump s : dumps (JStr s) = dump_str s.
Proof. done. Qed.

Lemma int_dump z : dumps (JInt z) = pretty z.
Proof. done. Qed.

(** The length of a nest of members, with the lengths of the open parts left
    as they are. *)
Ltac measure :=
  cbn [join]; rewrite !str_length_app, ?member_length by reflexivity;
  change (dumps (JBool true)) with "true"; rewrite ?str_dump, ?int_dump, ?dump_plain by done;
  repeat match goal with
  | |- context [String.length (dumps ?x)] => generalize (String.length (dumps x)); intros ?
  | |- context [String.length (pretty ?x)] => generalize (String.length (pretty x)); intros ?
  | |- context [String.length ?x] => is_var x; generalize (String.length x); intros ?
  end; simpl; lia.

Lemma truncated_length x y :
  String.length (dumps (truncated_payload x y))
  = (String.length (dumps x) + String.length (dumps y) + 57)%nat.
Proof. rewrite dumps_truncated. measure. Qed.

Lemma omit_length class : plain class →
  String.length (dumps (_omit_marker class)) = (String.length class + 27)%nat.
Proof. intros Hc. rewrite dumps_omit. measure. Qed.

Lemma sized_length class size : plain class →
  String.length (dumps (sized_marker class size []))
  = (String.length class + String.length (pretty size) + 41)%nat.
Proof. intros Hc. rewrite dumps_sized. measure. Qed.

(** The last resort is small, and everything else was compared with the cap. *)
Lemma first_fitting_length max_bytes payloads last_resort :
  Z.of_nat (String.length (first_fitting max_bytes payloads last_resort))
  <= Z.max max_bytes (encoded_size last_resort).
Proof.
  induction payloads as [|p rest IH]; simpl; [unfold encoded_size; lia|].
  destruct (Z.leb_spec (encoded_size p) max_bytes); [unfold encoded_size in *; lia|done].
Qed.

Section Sizes.
Context (limit : nat) (h : heap) (tool_name : option string) (s : option redaction_settings).

Lemma bare_length parameters result size k :
  plain (type_name h parameters) → plain (type_name h result) →
  (1 <= k)%nat → 0 <= size < 10 ^ Z.of_nat k →
  encoded_size (bare_payload h parameters result size)
  <= Z.of_nat (String.length (type_name h parameters) + String.length (type_name h result) + k) + 125.
Proof.
  intros Hp Hr Hk Hs. unfold encoded_size, bare_payload.
  rewrite truncated_length, omit_length, sized_length by done.
  pose proof (pretty_Z_length k size Hk Hs). lia.
Qed.

(** the detail of an executed call is never refused by the trail: when the
    configured cap is at most the hard cap of [log_audit] and the names of the
    two classes are ordinary ones, [_enforce_audit_detail_size] accepts it,
    whatever the size of the parameters (below 10^100 bytes) and of the
    result. *)
Theorem success_detail_accepted parameters result max_bytes :
  max_bytes <= AUDIT_DETAILS_MAX_BYTES →
  plain (type_name h parameters) → plain (type_name h result) →
  Z.of_nat (String.length (type_name h parameters) + String.length (type_name h result)) <= 15000 →
  encoded_size (safe_parameters limit h tool_name s parameters) < 10 ^ 100 →
  _enforce_audit_detail_size
    (Some (_build_success_detail limit h parameters result max_bytes tool_name s)) = Ret tt.
Proof.
  intros Hm Hp Hr Hlen Hsize. unfold _enforce_audit_detail_size, _build_success_detail.
  match goal with |- context [first_fitting ?m ?l ?b] =>
    pose proof (first_fitting_length m l b) as Hf; set (text := first_fitting m l b) in * end.
  pose proof (bare_length parameters result
    (encoded_size (safe_parameters limit h tool_name s parameters)) 100 Hp Hr
    ltac:(lia) (conj (Nat2Z.is_nonneg _) Hsize)) as Hb.
  destruct (Z.ltb_spec AUDIT_DETAILS_MAX_BYTES (Z.of_nat (String.length text))); [|done].
  exfalso. unfold AUDIT_DETAILS_MAX_BYTES in *. lia.
Qed.
End Sizes.

(** ** Redaction *)

Lemma redact_constant tool capture denylist v v' :
  should_redact tool capture denylist = true →
  redact tool capture denylist v = redact tool capture denylist v'.
Proof. intros Hr. unfold redact. by rewrite Hr. Qed.

Lemma redacted_length tool capture denylist v :
  should_redact tool capture denylist = true →
  (String.length (dumps (redact tool capture denylist v)) <= 46)%nat.
Proof. intros Hr. unfold redact. rewrite Hr. destruct capture; by apply Nat.leb_le. Qed.

(** The marker with the keys of the parameters is longer than the one of
    redacted parameters, so it never fits where that one did not. *)
Lemma keys_marker_longer class size ks :
  (46 <= String.length (dumps (sized_marker class size [("top_level_keys", ks)])))%nat.
Proof.
  assert (dumps (sized_marker class size [("top_level_keys", ks)])
    = "{" +:+ join "," [member "_omitted" (JBool true); member "size_bytes" (JInt size);
                        member "top_level_keys" ks; member "type" (JStr class)] +:+ "}") as ->
    by reflexivity.
  measure.
Qed.

Lemma redacted_tail h v size marker omitted_result max_bytes last_resort :
  (String.length (dumps marker) <= 46)%nat →
  max_bytes < encoded_size (truncated_payload marker omitted_result) →
  last_resort = truncated_payload (sized_marker (type_name h v) size []) omitted_result →
  first_fitting max_bytes [truncated_payload (_parameters_omit_marker h v size) omitted_result]
    last_resort = dumps last_resort.
Proof.
  intros Hm Hbig ->. cbn [first_fitting]. unfold _parameters_omit_marker.
  destruct (dict_keys h v) as [ks|]; [|by destruct (_ <=? _)].
  pose proof (keys_marker_longer (type_name h v) size (JList (JStr <$> merge_sort String.le ks))).
  destruct (Z.leb_spec (encoded_size (truncated_payload (sized_marker (type_name h v) size
    [("top_level_keys", JList (JStr <$> merge_sort String.le ks))]) omitted_result)) max_bytes);
    [|done].
  unfold encoded_size in *. rewrite truncated_length in *. lia.
Qed.

(** C30: what the operator excludes from capture does not reach the trail. For a
    tool whose parameters are redacted the detail depends on the parameters
    only through the name of their class; for a tool whose result is redacted,
    on the result only through the name of its class; whatever the cap. *)
Theorem redacted_values_hidden limit h tool s p p' r r' max_bytes :
  (should_redact tool (capture_parameters s) (parameters_denylist s) = true →
   type_name h p = type_name h p' →
   _build_success_detail limit h p r max_bytes tool (Some s)
   = _build_success_detail limit h p' r max_bytes tool (Some s)) ∧
  (should_redact tool (capture_result s) (result_denylist s) = true →
   type_name h r = type_name h r' →
   _build_success_detail limit h p r max_bytes tool (Some s)
   = _build_success_detail limit h p r' max_bytes tool (Some s)).
Proof.
  split; intros Hs Ht; unfold _build_success_detail, safe_parameters, safe_result.
  - set (v := _safe_json_value_top limit h p). set (v' := _safe_json_value_top limit h p').
    rewrite (redact_constant _ _ _ v v' Hs).
    pose proof (redacted_length tool _ _ v' Hs) as Hl.
    set (m := redact _ _ _ v') in *. set (o := _omit_marker _).
    remember [truncated_payload (_parameters_omit_marker h p (encoded_size m)) o] as t1 eqn:H1.
    remember [truncated_payload (_parameters_omit_marker h p' (encoded_size m)) o] as t2 eqn:H2.
    cbn [first_fitting]. destruct (_ <=? max_bytes); [done|].
    destruct (Z.leb_spec (encoded_size (truncated_payload m o)) max_bytes) as [|Hbig]; [done|].
    subst t1 t2. unfold bare_payload. fold o.
    rewrite !(redacted_tail _ _ _ _ _ _ _ Hl Hbig eq_refl).
    by rewrite Ht.
  - unfold bare_payload. rewrite <- Ht.
    by rewrite (redact_constant _ _ _ (_safe_json_value_top limit h r)
      (_safe_json_value_top limit h r') Hs).
Qed.

(** ** Capture *)

Definition captured (tool : option string) (s : option redaction_settings) : bool :=
  match s with
  | None => true
  | Some s => negb (should_redact tool (capture_parameters s) (parameters_denylist s))
              && negb (should_redact tool (capture_result s) (result_denylist s))
  end.

(** a call that exchanges JSON values and that no setting redacts is
    recorded verbatim: with its parameters and its result when both fit the
    cap, else with its parameters when they do, and the first text says which
    by having no [detail_truncated]. *)
Theorem json_call_recorded limit h p r max_bytes tool s :
  (json_depth p <= limit)%nat → (json_depth r <= limit)%nat → json_wf p → json_wf r →
  captured tool s = true →
  _build_success_detail limit h (PJson p) (PJson r) max_bytes tool s =
    (if encoded_size (detail_payload p r) <=? max_bytes then dumps (detail_payload p r)
     else first_fitting max_bytes
       [truncated_payload p (_omit_marker (type_name h (PJson r)));
        truncated_payload (_parameters_omit_marker h (PJson p) (encoded_size p))
          (_omit_marker (type_name h (PJson r)))]
       (bare_payload h (PJson p) (PJson r) (encoded_size p))).
Proof.
  intros Hdp Hdr Hwp Hwr Hc.
  assert (safe_parameters limit h tool s (PJson p) = p ∧ safe_result limit h tool s (PJson r) = r)
    as [Hp Hr].
  { unfold safe_parameters, safe_result, _safe_json_value_top. rewrite !walk_json_id by done.
    destruct s as [s|]; [|done]. cbn [captured] in Hc. bools. unfold redact.
    by repeat match goal with H : should_redact _ _ _ = false |- _ => rewrite H; clear H end. }
  unfold _build_success_detail. by rewrite Hp, Hr.
Qed.

(** ** Instances *)

(** [d = {"n": 1, "when": datetime(2026, 1, 1)}; d["self"] = d] *)
Definition cyclic_heap : heap :=
  [CDict [("n", PJson (JInt 1)); ("when", POpaque "datetime" "datetime(2026, 1, 1)");
          ("self", PRef 0)]].

Definition transfer : json := JObj [("recipient", JStr "acme"); ("amount", JInt 100)].
Definition done_ : json := JObj [("ok", JBool true)].

Definition payments_redacted : redaction_settings :=
  {| capture_parameters := true; capture_result := true;
     parameters_denylist := ["payments.*"]; result_denylist := [] |}.

Example globs :
  (fnmatchcase "payments.transfer" "payments.*", fnmatchcase "Payments.x" "payments.*",
   fnmatchcase "tool7" "tool[0-9]", fnmatchcase "toolx" "tool[!0-9]", fnmatchcase "a]b" "a[]]b",
   fnmatchcase "a-b" "a[x-]b", fnmatchcase "ab" "a?", fnmatchcase "a[" "a[")
  = (true, false, true, true, true, true, true, true).
Proof. vm_compute. reflexivity. Qed.

Lemma cyclic_results_end_witness :
  ∃ j, (∀ k, _safe_json_value (6 + k) cyclic_heap [] (PRef 0) = Some j) ∧
    j = JObj [("n", JInt 1);
              ("when", non_serializable "datetime" "datetime(2026, 1, 1)");
              ("self", omitted "dict" "circular_reference")].
Proof.
  assert (heap_ok cyclic_heap 1) as Hh.
  { intros c v [->|[]%not_elem_of_nil]%elem_of_cons. unfold val_ok. cbn.
    rewrite !elem_of_cons. intros [->|[->|[->|[]%not_elem_of_nil]]]; cbn; [lia|done|lia]. }
  destruct (cyclic_results_end 6 cyclic_heap 1 (PRef 0) Hh) as [j Hj]; [cbn; lia|cbn; lia|].
  exists j. split; [done|]. specialize (Hj 0%nat). vm_compute in Hj |- *. congruence.
Defined.

Lemma success_detail_accepted_witness :
  _enforce_audit_detail_size
    (Some (_build_success_detail 10 cyclic_heap (PJson transfer) (PRef 0) 40 None None)) = Ret tt.
Proof.
  apply (success_detail_accepted 10 cyclic_heap None None (PJson transfer) (PRef 0) 40);
    [unfold AUDIT_DETAILS_MAX_BYTES; lia|reflexivity|reflexivity|cbn; lia|].
  vm_compute. reflexivity.
Defined.

Lemma redacted_values_hidden_witness :
  should_redact (Some "payments.transfer") true ["payments.*"] = true ∧
  _build_success_detail 10 [] (PJson transfer) (PJson done_) 4096 (Some "payments.transfer")
    (Some payments_redacted)
  = _build_success_detail 10 [] (PJson (JObj [])) (PJson done_) 4096 (Some "payments.transfer")
    (Some payments_redacted).
Proof.
  assert (should_redact (Some "payments.transfer") true ["payments.*"] = true) as Hs
    by (vm_compute; reflexivity).
  split; [done|].
  apply (proj1 (redacted_values_hidden 10 [] (Some "payments.transfer") payments_redacted
    (PJson transfer) (PJson (JObj [])) (PJson done_) (PJson done_) 4096)); done.
Defined.

Lemma json_call_recorded_witness :
  _build_success_detail 10 [] (PJson transfer) (PJson done_) 4096 (Some "erp.read")
    (Some payments_redacted) = dumps (detail_payload transfer done_).
Proof.
  assert (json_wf transfer ∧ json_wf done_) as [Ht Hd].
  { split; (split; [by apply (bool_decide_unpack _); vm_compute|done]). }
  rewrite (json_call_recorded 10 [] transfer done_ 4096 (Some "erp.read") (Some payments_redacted));
    [by vm_compute|cbn; lia|cbn; lia|exact Ht|exact Hd|by vm_compute].
Defined.
