(* ===== verification/Executor.v ===== *)
(** * Executing a tool call

    [tools/executor.py:run]: lookup, the gates in the order the code runs them,
    the handler under its timeout, and one audit row for every way the call
    ends.  A gate gives the refusal it answers with, or nothing; the audit
    calls inside it change the trail and may raise, and an exception leaves
    [run] unless the code catches it.  Every call of [log_audit] meets its own
    process state and its own database, indexed by the number of audit calls
    made before it. *)

From S2P Require Import Prelude Sha256 Json AuditCanon AuditLog AuditChain Tier ToolRegistry ToolDetail.
From Stdlib Require Import QArith.

Open Scope Z_scope.

(** ** Requests, tokens and answers *)

Record ToolExecuteRequest := { tool : string; parameters : json }.

Record TokenPayload := {
  t_agent_id : string;
  t_org : string;
  t_scope : list string;
  t_principal_type : string;
}.

Record ToolExecuteResponse := {
  rs_request_id : string;
  rs_tool : string;
  rs_status : string;
  rs_result : option (heap * pyval);
  rs_error : option string;
  rs_execution_time_ms : Q;
  rs_denied_reason_code : option string;
}.

Definition TOOL_NOT_FOUND : string := "tool_not_found".
Definition CAPABILITY_DENIED : string := "capability_denied".
Definition INSUFFICIENT_TIER : string := "insufficient_tier".
Definition MISSING_BINDING : string := "missing_binding".
Definition POLICY_DENIED : string := "policy_denied".
Definition INTERNAL_ERROR : string := "internal_error".

(** What a handler is given. *)
Record ToolContext := {
  ctx_parameters : json;
  ctx_agent_id : string;
  ctx_org_id : string;
  ctx_capabilities : list string;
  ctx_secrets : list (string * string);
  ctx_request_id : string;
}.

(** How [await asyncio.wait_for(handler(ctx), timeout)] ends: a value with the
    heap it lives in, the timeout, a [ToolExecutionError], any other
    exception. *)
Inductive handler_result :=
| Returned (h : heap) (v : pyval)
| TimedOut
| ToolError (message : string)
| Crashed (class : string).

Record audit_settings := {
  audit_detail_max_bytes : Z;
  redaction : redaction_settings;
}.

Section Executor.
Context `{Hash} {S : Type}.

(** What the process finds when the call runs.  [services] of [sys] is the
    state the handlers work on. *)
Record surroundings := {
  audit_at : nat → audit_env;
  db_at : nat → list audit_row → nat → db_event;
  elapsed_ms : nat → Q;
  invocation_id : string;
  registry : tools;
  json_loads : string → option json;
  policy_rules_row : outcome (option string);
  try_rego_decision : list (string * json) → json → option (list (string * json));
  cached_matrix : option TierMatrix;
  matrix_module : outcome unit;          (* the import of policy.tier_matrix *)
  matrix_path : string;
  matrix_on_disk : matrix_file;
  stale_threshold : option string;
  get_agent : outcome (option (option string));
  bindings : outcome (list binding_row);
  tool_secrets : outcome (list (string * string));
  settings : outcome audit_settings;
  recursion_limit : nat;
  timeout_s : string;
  invoke : ToolDefinition → ToolContext → S → handler_result * S;
}.

(** [ran] lists the tools whose handler was started. *)
Record sys := { trail : world; audit_calls : nat; services : S; ran : list string }.

Context (E : surroundings).

(** ** Effects *)

Definition M (A : Type) : Type := sys → outcome A * sys.

Definition ret {A} (a : A) : M A := λ s, (Ret a, s).
Definition raise {A} (e : exn) : M A := λ s, (Raise e, s).
Definition bind {A B} (m : M A) (f : A → M B) : M B :=
  λ s, match m s with (Ret a, s') => f a s' | (Raise e, s') => (Raise e, s') end.
Definition lift {A} (o : outcome A) : M A := λ s, (o, s).
Definition elapsed : M Q := λ s, (Ret (elapsed_ms E (audit_calls s)), s).

Notation "'do' x <- m ; k" := (bind m (λ x, k))
  (at level 200, x pattern, m at level 100, k at level 200).

Definition audit (c : audit_call) : M unit := λ s,
  let n := audit_calls s in
  let '(r, w) := log_audit (audit_at E n) c (db_at E n (w_table (trail s))) (trail s) in
  (r, {| trail := w; audit_calls := Datatypes.S n; services := services s; ran := ran s |}).

(** [try: ... except Exception: pass] *)
Definition attempt (m : M unit) : M unit := λ s, (Ret tt, snd (m s)).

Section Run.
Context (request : ToolExecuteRequest) (agent : TokenPayload).

Definition execute_row (status detail : string) (duration_ms : option Q) : audit_call :=
  {| c_agent_id := t_agent_id agent; c_action := "tool_execute"; c_status := status;
     c_tool_name := Some (tool request); c_detail := Some detail; c_details := None;
     c_request_id := Some (invocation_id E); c_duration_ms := duration_ms;
     c_dpop_jkt := None; c_on_behalf_of_user_id := None |}.

Definition answer (status : string) (result : option (heap * pyval)) (error code : option string)
    (duration_ms : Q) : ToolExecuteResponse :=
  {| rs_request_id := invocation_id E; rs_tool := tool request; rs_status := status;
     rs_result := result; rs_error := error; rs_execution_time_ms := duration_ms;
     rs_denied_reason_code := code |}.

(** Every early return of [run]: the row, then the answer. *)
Definition stop (status detail error code : string) : M ToolExecuteResponse :=
  do d <- elapsed;
  do _ <- audit (execute_row status detail (Some d));
  ret (answer "error" None (Some error) (Some code) d).

Definition refuse (detail error code : string) : M (option ToolExecuteResponse) :=
  do r <- stop "denied" detail error code; ret (Some r).

Definition pass : M (option ToolExecuteResponse) := ret None.

(** ** The gates *)

Definition capability_gate_applies (td : ToolDefinition) : bool :=
  bool_decide (t_principal_type agent = "agent")
  || (bool_decide (t_principal_type agent ∈ ["user"; "workload"]) && negb (is_mcp_resource td)).

Definition of_type : string := "(principal_type=" +:+ t_principal_type agent +:+ ")".

Definition declaration_gate (td : ToolDefinition) : M (option ToolExecuteResponse) :=
  if capability_gate_applies td && negb (is_mcp_resource td)
     && negb (py_bool (required_capability td)) then
    refuse ("Tool missing capability declaration " +:+ of_type +:+ "; fail-closed per F-A-304")
           ("Forbidden: tool '" +:+ tool request +:+ "' has no capability declaration")
           CAPABILITY_DENIED
  else pass.

Definition resource_text (td : ToolDefinition) : string := py_str (resource_id td).

(** The row that says a resource is guarded by its bindings alone. *)
Definition uncapped_notice (td : ToolDefinition) : M unit :=
  if capability_gate_applies td && is_mcp_resource td && negb (py_bool (required_capability td))
  then audit
    {| c_agent_id := t_agent_id agent; c_action := "policy.no_capability_required";
       c_status := "allow"; c_tool_name := Some (tool request);
       c_detail := Some ("MCP resource '" +:+ resource_text td +:+ "' has no required_capability; "
                         +:+ "authz delegated to binding table " +:+ of_type);
       c_details := None; c_request_id := Some (invocation_id E); c_duration_ms := None;
       c_dpop_jkt := None; c_on_behalf_of_user_id := None |}
  else ret tt.

(** [set(agent.scope or [])] *)
Definition _load_principal_capabilities : list string := t_scope agent.

Definition capability_gate (td : ToolDefinition) : M (option ToolExecuteResponse) :=
  if capability_gate_applies td && py_bool (required_capability td) then
    if negb (hashable (required_capability td)) then raise TypeError
    else if in_texts (required_capability td) _load_principal_capabilities then pass
    else refuse ("Missing capability: " +:+ str_of (required_capability td) +:+ " " +:+ of_type)
                ("Forbidden: missing capability '" +:+ str_of (required_capability td) +:+ "'")
                CAPABILITY_DENIED
  else pass.

(** A configuration that cannot be read or is no object counts as no policy. *)
Definition rego_rules : list (string * json) :=
  match policy_rules_row E with
  | Ret (Some (String _ _ as raw)) => default [] (json_loads E raw ≫= as_obj)
  | _ => []
  end.

Definition rego_input : json :=
  JObj [("agent_id", JStr (t_agent_id agent)); ("principal_type", JStr (t_principal_type agent));
        ("tool_name", JStr (tool request)); ("arguments", parameters request)].

(** The reason of an explicit deny. *)
Definition rego_denial : option string :=
  match try_rego_decision E rego_rules rego_input with
  | Some d =>
      if is_str "deny" (get_none "decision" d)
      then Some (str_of (py_or (get_none "reason" d) (JStr "operator policy denied this tool call")))
      else None
  | None => None
  end.

Definition rego_gate : M (option ToolExecuteResponse) :=
  match rego_denial with
  | Some reason => refuse ("Rego policy deny: " +:+ reason)
                          ("Forbidden by operator policy: " +:+ reason) POLICY_DENIED
  | None => pass
  end.

(** [None], when the module of the matrix cannot be loaded, turns the tier gate
    off; a matrix that cannot be read is replaced by the loader itself. *)
Definition _resolve_tier_matrix : option TierMatrix :=
  match cached_matrix E with
  | Some m => Some m
  | None =>
      match matrix_module E with
      | Ret _ => Some (load_default_tier_matrix (matrix_path E) (matrix_on_disk E))
      | Raise _ => None
      end
  end.

(** The resolver's exceptions count as the lowest tier. *)
Definition resolved_tier : string * option (list (string * json)) :=
  match resolve_effective_tier (json_loads E) (stale_threshold E) (get_agent E) with
  | Ret r => r
  | Raise _ => (TIER_UNTRUSTED, None)
  end.

Definition tier_row (capability effective required : string)
    (claim : option (list (string * json))) : audit_call :=
  let allowed := tier_meets_requirement (Some effective) (Some required) in
  let decision := if allowed then "allow" else "deny" in
  {| c_agent_id := t_agent_id agent; c_action := "policy.tier_evaluated"; c_status := decision;
     c_tool_name := Some capability;
     c_detail := Some (dumps (JObj
       ([("capability_requested", JStr capability); ("effective_tier", JStr effective);
         ("required_tier", JStr required); ("decision", JStr decision)]
        ++ (if allowed then [] else [("denied_reason_code", JStr "insufficient_tier")])
        ++ match claim with Some c => [("device_attestation_ref", JObj c)] | None => [] end)));
     c_details := None; c_request_id := Some (invocation_id E); c_duration_ms := None;
     c_dpop_jkt := None; c_on_behalf_of_user_id := None |}.

Definition _audit_tier_evaluated (capability effective required : string)
    (claim : option (list (string * json))) : M unit :=
  attempt (audit (tier_row capability effective required claim)).

(** An agent's capability is a text of its scope once the capability gate has
    let it through. *)
Definition tier_gate (td : ToolDefinition) : M (option ToolExecuteResponse) :=
  match _resolve_tier_matrix with
  | None => pass
  | Some tier_matrix =>
      if capability_gate_applies td && py_bool (required_capability td)
         && bool_decide (t_principal_type agent = "agent") then
        let capability := str_of (required_capability td) in
        let '(effective, claim) := resolved_tier in
        let required := TierMatrix_lookup tier_matrix (Some capability) in
        do _ <- _audit_tier_evaluated capability effective required claim;
        if tier_meets_requirement (Some effective) (Some required) then pass
        else refuse ("insufficient_tier: device " +:+ effective +:+ " below required " +:+ required
                     +:+ " for " +:+ capability)
                    ("Forbidden: device tier '" +:+ effective +:+ "' below required '" +:+ required
                     +:+ "' for capability '" +:+ capability +:+ "'") INSUFFICIENT_TIER
      else pass
  end.

Definition binding_gate (td : ToolDefinition) : M (option ToolExecuteResponse) :=
  match resource_id td with
  | None => pass
  | Some r =>
      do table <- lift (bindings E);
      if has_active_binding (t_agent_id agent) (t_principal_type agent) r table then pass
      else refuse ("No active binding for resource '" +:+ r +:+ "' " +:+ of_type)
                  ("Forbidden: no active binding for resource '" +:+ r +:+ "'") MISSING_BINDING
  end.

(** ** The handler *)

Definition allowed_hosts (td : ToolDefinition) : outcome (list string) :=
  let! l := py_iter (allowed_domains td) in
  if forallb hashable l then Ret (omap as_str l) else Raise TypeError.

Definition context : ToolContext :=
  {| ctx_parameters := parameters request; ctx_agent_id := t_agent_id agent;
     ctx_org_id := t_org agent; ctx_capabilities := t_scope agent;
     ctx_secrets := match tool_secrets E with Ret s => s | Raise _ => [] end;
     ctx_request_id := invocation_id E |}.

Definition call_handler (td : ToolDefinition) : M handler_result := λ s,
  let '(r, services') := invoke E td context (services s) in
  (Ret r, {| trail := trail s; audit_calls := audit_calls s; services := services';
             ran := ran s ++ [tool request] |}).

Definition success_detail (h : heap) (v : pyval) : string :=
  match settings E with
  | Ret st => _build_success_detail (recursion_limit E) h (PJson (parameters request)) v
                (audit_detail_max_bytes st) (Some (tool request)) (Some (redaction st))
  | Raise _ => _build_success_detail (recursion_limit E) h (PJson (parameters request)) v
                 4096 (Some (tool request)) None
  end.

Definition crashed (class : string) : M ToolExecuteResponse :=
  stop "error" ("Internal error: " +:+ class) "Internal tool execution error" INTERNAL_ERROR.

(** The row of a success is written inside the [try]: an exception of
    [log_audit] is answered like one of the handler. *)
Definition succeeded (h : heap) (v : pyval) : M ToolExecuteResponse :=
  do d <- elapsed;
  λ s, match audit (execute_row "success" (success_detail h v) (Some d)) s with
       | (Ret _, s') => (Ret (answer "success" (Some (h, v)) None None d), s')
       | (Raise e, s') => crashed (exn_class e) s'
       end.

Definition execute (td : ToolDefinition) : M ToolExecuteResponse :=
  do _ <- lift (allowed_hosts td);
  do result <- call_handler td;
  match result with
  | Returned h v => succeeded h v
  | TimedOut => stop "error" ("Timeout after " +:+ timeout_s E +:+ "s")
                     ("Tool execution timed out after " +:+ timeout_s E +:+ "s") INTERNAL_ERROR
  | ToolError message => stop "error" message message INTERNAL_ERROR
  | Crashed class => crashed class
  end.

(** ** [run] *)

(** A gate's refusal ends the call. *)
Definition gated (gate : M (option ToolExecuteResponse)) (k : M ToolExecuteResponse)
    : M ToolExecuteResponse :=
  do r <- gate; match r with Some response => ret response | None => k end.

Definition run : M ToolExecuteResponse :=
  match registry_get (tool request) (registry E) with
  | None => stop "error" "Tool not found" ("Tool '" +:+ tool request +:+ "' not found") TOOL_NOT_FOUND
  | Some td =>
      gated (declaration_gate td) (
      do _ <- uncapped_notice td;
      gated (capability_gate td) (
      gated rego_gate (
      gated (tier_gate td) (
      gated (binding_gate td) (
      execute td)))))
  end.

End Run.
End Executor.

Arguments surroundings S : clear implicits.
Arguments sys S : clear implicits.

(** ** Rules for effects

    [triple P m Q]: on a table that is one chain, [m] started where [P] holds
    leaves one chain, and [Q] holds of the value it returns. *)

Section Rules.
Context `{Hash} {S : Type} (E : surroundings S).

(** Other connections leave the table one chain. *)
Definition polite : Prop := ∀ n t, chain_ok t → benign_env (db_at E n t) t.

Definition fail_deny : Prop := ∀ n, audit_fail_deny (audit_at E n) = true.

Definition sound (s : sys S) : Prop := chain_ok (w_table (trail s)).

Definition triple {A} (P : sys S → Prop) (m : M A) (Q : A → sys S → Prop) : Prop :=
  ∀ s, sound s → P s → sound (m s).2 ∧ match (m s).1 with Ret a => Q a (m s).2 | Raise _ => True end.

Definition trail_rows (w : world) : list audit_payload := payloads (w_table w) ++ w_pending w.

(** The row of some audit call of this shape is in the table or the queue. *)
Definition written (c : audit_call) (s : sys S) : Prop :=
  ∃ n, call_payload (audit_at E n) c ∈ trail_rows (trail s).

Lemma triple_bind {A B} P R Q (m : M A) (f : A → M B) :
  triple P m R → (∀ a, triple (R a) (f a) Q) → triple P (bind m f) Q.
Proof.
  intros Hm Hf s Hs HP. destruct (Hm s Hs HP) as [Hs' HR]. unfold bind.
  destruct (m s) as [[a|e] s']; cbn [fst snd] in *; [|done]. by apply Hf.
Qed.

Lemma triple_ret {A} P (a : A) (Q : A → sys S → Prop) :
  (∀ s, P s → Q a s) → triple P (ret a) Q.
Proof. intros HQ s Hs HP. split; [done|]. by apply HQ. Qed.

Lemma triple_lift {A} (P : sys S → Prop) (o : outcome A) (Q : A → sys S → Prop) :
  (∀ s a, P s → o = Ret a → Q a s) → triple P (lift o) Q.
Proof. intros HQ s Hs HP. split; [done|]. cbn. destruct o; [|done]. by eapply HQ. Qed.

Lemma triple_raise {A} P e (Q : A → sys S → Prop) : triple P (raise e) Q.
Proof. by intros s Hs HP. Qed.

Lemma triple_elapsed P : triple P (elapsed E) (λ _, P).
Proof. by intros s Hs HP. Qed.

Lemma triple_weaken {A} (P P' : sys S → Prop) (m : M A) (Q Q' : A → sys S → Prop) :
  (∀ s, P' s → P s) → (∀ a s, Q a s → Q' a s) → triple P m Q → triple P' m Q'.
Proof.
  intros HP HQ Hm s Hs H'. destruct (Hm s Hs (HP _ H')) as [Hs' Hr]. split; [done|].
  destruct (m s).1; [by apply HQ|done].
Qed.

Lemma audit_sound c s : polite → sound s →
  sound (audit E c s).2 ∧ ((audit E c s).1 = Ret tt → fail_deny → written c (audit E c s).2).
Proof.
  intros Hp Hs. unfold audit.
  pose proof (log_audit_spec (audit_at E (audit_calls s)) c (db_at E (audit_calls s) (w_table (trail s)))
    (trail s) Hs (Hp _ _ Hs)) as Hpost.
  destruct (log_audit _ c _ (trail s)) as [r w]. destruct Hpost as [Hc Hr]. cbn [fst snd] in *.
  split; [done|]. intros -> Hfd. exists (audit_calls s).
  destruct Hr as [[o Ho]|[Hf _]]; [|by rewrite (Hfd _) in Hf].
  unfold trail_rows. cbn [trail]. rewrite Ho, !elem_of_app. right. right. right. by apply list_elem_of_singleton.
Qed.

Lemma triple_audit P c : polite → fail_deny → triple P (audit E c) (λ _, written c).
Proof.
  intros Hp Hfd s Hs _. destruct (audit_sound c s Hp Hs) as [Hs' Hw]. split; [done|].
  destruct (audit E c s).1 as [[]|]; [by apply Hw|done].
Qed.

Lemma triple_attempt P c : polite → triple P (attempt (audit E c)) (λ _ _, True).
Proof. intros Hp s Hs _. by destruct (audit_sound c s Hp Hs). Qed.

(** The handlers and the list of those started are left alone. *)
Definition quiet {A} (m : @M S A) : Prop :=
  ∀ s, ran (m s).2 = ran s ∧ services (m s).2 = services s.

Lemma quiet_bind {A B} (m : M A) (f : A → M B) : quiet m → (∀ a, quiet (f a)) → quiet (bind m f).
Proof.
  intros Hm Hf s. unfold bind. destruct (Hm s) as [Hr Hv].
  destruct (m s) as [[a|e] s']; cbn [fst snd] in *; [|done].
  destruct (Hf a s') as [Hr' Hv']. by rewrite Hr', Hv'.
Qed.

Lemma quiet_ret {A} (a : A) : quiet (ret a).
Proof. done. Qed.
Lemma quiet_raise {A} e : quiet (@raise S A e).
Proof. done. Qed.
Lemma quiet_lift {A} (o : outcome A) : quiet (lift o).
Proof. done. Qed.
Lemma quiet_elapsed : quiet (elapsed E).
Proof. done. Qed.
Lemma quiet_audit c : quiet (audit E c).
Proof. intros s. unfold audit. by destruct (log_audit _ _ _ _). Qed.
Lemma quiet_attempt m : quiet m → quiet (attempt m).
Proof. intros Hm s. apply Hm. Qed.
End Rules.

Create HintDb quiet.
#[export] Hint Resolve quiet_bind quiet_ret quiet_raise quiet_lift quiet_elapsed quiet_audit
  quiet_attempt : quiet.

Section Correctness.
Context `{Hash} {S : Type} (E : surroundings S).
Context (request : ToolExecuteRequest) (agent : TokenPayload).

Notation gate_applies := (capability_gate_applies agent).
Notation run := (run E request agent).

(** What lets a call of [td] through all the gates. *)
Record authorised (td : ToolDefinition) : Prop := {
  auth_declared : gate_applies td = true → is_mcp_resource td = false →
    py_bool (required_capability td) = true;
  auth_capability : gate_applies td = true → py_bool (required_capability td) = true →
    in_texts (required_capability td) (t_scope agent) = true;
  auth_rego : rego_denial E request agent = None;
  auth_tier : ∀ matrix, _resolve_tier_matrix E = Some matrix →
    t_principal_type agent = "agent" → py_bool (required_capability td) = true →
    tier_meets_requirement (Some (resolved_tier E).1)
      (Some (TierMatrix_lookup matrix (Some (str_of (required_capability td))))) = true;
  auth_binding : ∀ r, resource_id td = Some r → ∃ table, bindings E = Ret table ∧
    has_active_binding (t_agent_id agent) (t_principal_type agent) r table = true;
}.

(** ** The gates are quiet, and let through only what they should *)

Lemma quiet_stop status detail error code : quiet (stop E request agent status detail error code).
Proof. unfold stop. eauto with quiet. Qed.
Hint Resolve quiet_stop : quiet.

Lemma quiet_refuse detail error code : quiet (refuse E request agent detail error code).
Proof. unfold refuse. eauto with quiet. Qed.
Hint Resolve quiet_refuse : quiet.

Lemma quiet_pass : quiet (pass (S := S)).
Proof. apply quiet_ret. Qed.
Hint Resolve quiet_pass : quiet.

Lemma quiet_declaration td : quiet (declaration_gate E request agent td).
Proof. unfold declaration_gate. case_match; auto with quiet. Qed.
Lemma quiet_notice td : quiet (uncapped_notice E request agent td).
Proof. unfold uncapped_notice. case_match; auto with quiet. Qed.
Lemma quiet_capability td : quiet (capability_gate E request agent td).
Proof. unfold capability_gate. repeat case_match; auto with quiet. Qed.
Lemma quiet_rego : quiet (rego_gate E request agent).
Proof. unfold rego_gate. case_match; auto with quiet. Qed.
Lemma quiet_tier td : quiet (tier_gate E request agent td).
Proof.
  unfold tier_gate. destruct (_resolve_tier_matrix E) as [matrix|]; [|auto with quiet].
  case_match; [|auto with quiet]. destruct (resolved_tier E) as [tier c].
  apply quiet_bind; [|intros _; case_match; auto with quiet].
  unfold _audit_tier_evaluated. auto with quiet.
Qed.
Lemma quiet_binding td : quiet (binding_gate E request agent td).
Proof.
  unfold binding_gate. case_match; [|auto with quiet].
  apply quiet_bind; [auto with quiet|]. intros table. case_match; auto with quiet.
Qed.

Lemma refuse_stops detail error code s s' : refuse E request agent detail error code s ≠ (Ret None, s').
Proof. unfold refuse, bind. destruct (stop _ _ _ _ _ _ _ s) as [[]]; by intros [=]. Qed.

Lemma declaration_passed td s s' :
  declaration_gate E request agent td s = (Ret None, s') →
  gate_applies td = true → is_mcp_resource td = false → py_bool (required_capability td) = true.
Proof.
  unfold declaration_gate. intros Hg Ha Hr. rewrite Ha, Hr in Hg.
  destruct (py_bool _); [done|]. by apply refuse_stops in Hg.
Qed.

Lemma capability_passed td s s' :
  capability_gate E request agent td s = (Ret None, s') →
  gate_applies td = true → py_bool (required_capability td) = true →
  in_texts (required_capability td) (t_scope agent) = true.
Proof.
  unfold capability_gate. intros Hg Ha Hr. rewrite Ha, Hr in Hg. cbn [andb] in Hg.
  destruct (negb _); [done|]. unfold _load_principal_capabilities in Hg.
  destruct (in_texts _ _); [done|]. by apply refuse_stops in Hg.
Qed.

Lemma rego_passed s s' :
  rego_gate E request agent s = (Ret None, s') → rego_denial E request agent = None.
Proof. unfold rego_gate. destruct (rego_denial _ _ _); [|done]. intros Hg. by apply refuse_stops in Hg. Qed.

Lemma tier_passed td s s' matrix :
  tier_gate E request agent td s = (Ret None, s') → _resolve_tier_matrix E = Some matrix →
  t_principal_type agent = "agent" → py_bool (required_capability td) = true →
  tier_meets_requirement (Some (resolved_tier E).1)
    (Some (TierMatrix_lookup matrix (Some (str_of (required_capability td))))) = true.
Proof.
  unfold tier_gate, capability_gate_applies. intros Hg Hm Ha Hr. rewrite Hm in Hg.
  rewrite Hr, (bool_decide_eq_true_2 _ Ha) in Hg. cbn [andb orb] in Hg.
  destruct (resolved_tier E) as [t c]. cbn [fst]. unfold bind, _audit_tier_evaluated, attempt in Hg.
  destruct (tier_meets_requirement _ _); [done|]. by apply refuse_stops in Hg.
Qed.

Lemma binding_passed td s s' r :
  binding_gate E request agent td s = (Ret None, s') → resource_id td = Some r →
  ∃ table, bindings E = Ret table ∧
    has_active_binding (t_agent_id agent) (t_principal_type agent) r table = true.
Proof.
  unfold binding_gate. intros Hg Hr. rewrite Hr in Hg. unfold bind, lift in Hg.
  destruct (bindings E) as [table|]; [|done]. exists table. split; [done|].
  destruct (has_active_binding _ _ _ _); [done|]. by apply refuse_stops in Hg.
Qed.

(** A gate in front of [k] either ends the call or hands over to [k]. *)
Lemma gated_cases (gate : @M S (option ToolExecuteResponse)) k s r s' :
  quiet gate → gated gate k s = (r, s') →
  ran s' = ran s ∨ ∃ s1, gate s = (Ret None, s1) ∧ ran s1 = ran s ∧ k s1 = (r, s').
Proof.
  intros Hq. unfold gated, bind. destruct (Hq s) as [Hr _].
  destruct (gate s) as [[[resp|]|e] s1]; cbn [snd] in Hr.
  - intros [= <- <-]. by left.
  - intros Hk. right. by exists s1.
  - intros [= <- <-]. by left.
Qed.

Lemma run_cases s r s' :
  run s = (r, s') →
  ran s' = ran s ∨
  ∃ td s1, registry_get (tool request) (registry E) = Some td ∧ authorised td ∧
    ran s1 = ran s ∧ execute E request agent td s1 = (r, s').
Proof.
  unfold Executor.run. destruct (registry_get _ _) as [td|].
  2: { intros Hs. left. pose proof (quiet_stop "error" "Tool not found"
         ("Tool '" +:+ tool request +:+ "' not found") TOOL_NOT_FOUND s) as [Hr _].
       by rewrite Hs in Hr. }
  intros Hd. apply gated_cases in Hd as [?|(s1 & Hd & Hr1 & Hk)];
    [by left| |apply quiet_declaration].
  unfold bind in Hk. destruct (quiet_notice td s1) as [Hr2 _].
  destruct (uncapped_notice _ _ _ td s1) as [[[]|e] s2]; cbn [snd] in Hr2.
  2: { injection Hk as <- <-. left. congruence. }
  apply gated_cases in Hk as [?|(s3 & Hc & Hr3 & Hk)]; [left; congruence| |apply quiet_capability].
  apply gated_cases in Hk as [?|(s4 & Hg & Hr4 & Hk)]; [left; congruence| |apply quiet_rego].
  apply gated_cases in Hk as [?|(s5 & Ht & Hr5 & Hk)]; [left; congruence| |apply quiet_tier].
  apply gated_cases in Hk as [?|(s6 & Hb & Hr6 & Hk)]; [left; congruence| |apply quiet_binding].
  right. exists td, s6. split; [done|]. split; [|split; [congruence|done]].
  split; eauto using declaration_passed, capability_passed, rego_passed, tier_passed, binding_passed.
Qed.

Lemma crashed_quiet class : quiet (crashed E request agent class).
Proof. apply quiet_stop. Qed.

Lemma succeeded_quiet h v : quiet (succeeded E request agent h v).
Proof.
  unfold succeeded. apply quiet_bind; [auto with quiet|]. intros d s.
  pose proof (quiet_audit E (execute_row E request agent "success" (success_detail E request h v) (Some d)) s)
    as [Hr Hv].
  destruct (audit E _ s) as [[[]|e] s1]; cbn [fst snd] in *; [done|].
  destruct (crashed_quiet (exn_class e) s1) as [Hr' Hv']. by rewrite Hr', Hv'.
Qed.

(** What [execute] does after the handler. *)
Definition finish (result : handler_result) : M ToolExecuteResponse :=
  match result with
  | Returned h v => succeeded E request agent h v
  | TimedOut => stop E request agent "error" ("Timeout after " +:+ timeout_s E +:+ "s")
                     ("Tool execution timed out after " +:+ timeout_s E +:+ "s") INTERNAL_ERROR
  | ToolError message => stop E request agent "error" message message INTERNAL_ERROR
  | Crashed class => crashed E request agent class
  end.

Lemma finish_quiet result : quiet (finish result).
Proof. destruct result; [apply succeeded_quiet|apply quiet_stop..]. Qed.

Lemma execute_cases td s :
  execute E request agent td s =
  match allowed_hosts td with
  | Raise e => (Raise e, s)
  | Ret _ =>
      let '(result, services') := invoke E td (context E request agent) (services s) in
      finish result {| trail := trail s; audit_calls := audit_calls s; services := services';
                       ran := ran s ++ [tool request] |}
  end.
Proof.
  unfold execute, bind, lift, call_handler. destruct (allowed_hosts td); [|done].
  destruct (invoke E td _ (services s)) as [[] services']; done.
Qed.

Lemma execute_ran td s r s' :
  execute E request agent td s = (r, s') →
  ran s' = ran s ∨ ran s' = ran s ++ [tool request] ∧
    services s' = (invoke E td (context E request agent) (services s)).2.
Proof.
  rewrite execute_cases. destruct (allowed_hosts td); [|intros [= <- <-]; by left].
  destruct (invoke E td _ (services s)) as [result services'].
  match goal with |- finish _ ?x = _ → _ => set (s1 := x); intros Hf end. right.
  destruct (finish_quiet result s1) as [Hr Hv]. rewrite Hf in Hr, Hv. done.
Qed.

(** C4: no handler is started for a call that is not authorised: the tool is
    registered, its capability is declared and held wherever the capability
    gate applies, the operator's Rego policy does not deny the call, an agent's
    device has the tier the capability requires, and a resource is bound to the
    principal. At most one handler is started, that of the requested tool. *)
Theorem handler_runs_only_authorised s r s' :
  run s = (r, s') → ran s' ≠ ran s →
  ran s' = ran s ++ [tool request] ∧
  ∃ td, registry_get (tool request) (registry E) = Some td ∧ authorised td.
Proof.
  intros Hrun Hne. destruct (run_cases _ _ _ Hrun) as [?|(td & s1 & Hg & Ha & Hr & He)]; [done|].
  destruct (execute_ran _ _ _ _ He) as [?|[Hran _]]; [congruence|].
  split; [congruence|]. by exists td.
Qed.

(** ** Every answer has its row *)

Definition trail_status (resp : ToolExecuteResponse) : string :=
  if bool_decide (rs_status resp = "success") then "success"
  else match rs_denied_reason_code resp with
       | Some code => if bool_decide (code ∈ [TOOL_NOT_FOUND; INTERNAL_ERROR]) then "error" else "denied"
       | None => "error"
       end.

(** The row that closes the call. *)
Definition closed_by (resp : ToolExecuteResponse) (s : sys S) : Prop :=
  ∃ detail, written E (execute_row E request agent (trail_status resp) detail
                         (Some (rs_execution_time_ms resp))) s.

Definition refusal_closed (o : option ToolExecuteResponse) (s : sys S) : Prop :=
  match o with Some resp => closed_by resp s | None => True end.

Context (Hpolite : polite E) (Hdeny : fail_deny E).

Lemma stop_closed P status detail error code :
  status = (if bool_decide (code ∈ [TOOL_NOT_FOUND; INTERNAL_ERROR]) then "error" else "denied") →
  triple P (stop E request agent status detail error code) closed_by.
Proof.
  intros ->. unfold stop. eapply triple_bind; [apply triple_elapsed|]. intros d.
  eapply triple_bind; [by apply triple_audit|]. intros []. apply triple_ret. intros s Hw.
  exists detail. exact Hw.
Qed.

Lemma refuse_closed P detail error code :
  code ∉ [TOOL_NOT_FOUND; INTERNAL_ERROR] →
  triple P (refuse E request agent detail error code) refusal_closed.
Proof.
  intros Hc. unfold refuse. eapply triple_bind.
  - apply (stop_closed P). by rewrite bool_decide_eq_false_2.
  - intros r. by apply triple_ret.
Qed.

Lemma pass_closed P : triple P pass refusal_closed.
Proof. by apply triple_ret. Qed.

Lemma declaration_closed P td : triple P (declaration_gate E request agent td) refusal_closed.
Proof. unfold declaration_gate. case_match; [|apply pass_closed]. apply refuse_closed. by apply (bool_decide_unpack _). Qed.

Lemma capability_closed P td : triple P (capability_gate E request agent td) refusal_closed.
Proof.
  unfold capability_gate. destruct (_ && _); [|apply pass_closed].
  destruct (negb _); [apply triple_raise|]. destruct (in_texts _ _); [apply pass_closed|].
  apply refuse_closed. by apply (bool_decide_unpack _).
Qed.

Lemma rego_closed P : triple P (rego_gate E request agent) refusal_closed.
Proof. unfold rego_gate. case_match; [|apply pass_closed]. apply refuse_closed. by apply (bool_decide_unpack _). Qed.

Lemma tier_closed P td : triple P (tier_gate E request agent td) refusal_closed.
Proof.
  unfold tier_gate. destruct (_resolve_tier_matrix E) as [matrix|]; [|apply pass_closed].
  case_match; [|apply pass_closed]. destruct (resolved_tier E) as [tier c].
  eapply triple_bind; [by apply triple_attempt|]. intros []. case_match; [apply pass_closed|].
  apply refuse_closed. by apply (bool_decide_unpack _).
Qed.

Lemma binding_closed P td : triple P (binding_gate E request agent td) refusal_closed.
Proof.
  unfold binding_gate. case_match; [|apply pass_closed].
  eapply triple_bind; [by apply (triple_lift P _ (λ _ _, True))|]. intros table.
  case_match; [apply pass_closed|]. apply refuse_closed. by apply (bool_decide_unpack _).
Qed.

Lemma notice_sound P td : triple P (uncapped_notice E request agent td) (λ _ _, True).
Proof.
  unfold uncapped_notice. case_match; [|by apply triple_ret].
  eapply triple_weaken; [| |by apply (triple_audit E (λ _, True))]; done.
Qed.

Lemma gated_closed P gate k :
  triple P gate refusal_closed → triple (λ _, True) k closed_by → triple P (gated gate k) closed_by.
Proof.
  intros Hg Hk. unfold gated. eapply triple_bind; [exact Hg|]. intros [resp|].
  - by apply triple_ret.
  - eapply triple_weaken; [| |exact Hk]; done.
Qed.

Lemma crashed_closed P class : triple P (crashed E request agent class) closed_by.
Proof. apply stop_closed. reflexivity. Qed.

Lemma succeeded_closed P h v : triple P (succeeded E request agent h v) closed_by.
Proof.
  unfold succeeded. eapply triple_bind; [apply triple_elapsed|]. intros d s Hs _.
  set (c := execute_row _ _ _ _ _ _).
  destruct (audit_sound E c s Hpolite Hs) as [Hs1 Hw].
  destruct (audit E c s) as [[[]|e] s1]; cbn [fst snd] in *.
  - split; [done|]. exists (success_detail E request h v). by apply Hw.
  - by apply (crashed_closed (λ _, True)).
Qed.

Lemma finish_closed P result : triple P (finish result) closed_by.
Proof.
  destruct result; [apply succeeded_closed|apply stop_closed..|apply crashed_closed]; reflexivity.
Qed.

Lemma execute_closed P td : triple P (execute E request agent td) closed_by.
Proof.
  intros s Hs _. rewrite execute_cases. destruct (allowed_hosts td); [|done].
  destruct (invoke E td _ (services s)) as [result services'].
  by apply (finish_closed (λ _, True)).
Qed.

(** while the other writers leave the table one chain, so does a tool call,
    however it ends; and under [audit_fail_deny] an answer is given only when
    the row that closes the call is in the trail, with the request id, the
    duration and the status the answer states: success, denied or error. *)
Theorem answer_in_trail s :
  sound s →
  sound (run s).2 ∧
  match (run s).1 with Ret resp => closed_by resp (run s).2 | Raise _ => True end.
Proof.
  intros Hs. enough (triple (λ _, True) run closed_by) as Ht by by apply Ht.
  unfold Executor.run. destruct (registry_get _ _) as [td|]; [|by apply stop_closed].
  apply gated_closed; [apply declaration_closed|].
  eapply triple_bind; [apply notice_sound|]. intros [].
  apply gated_closed; [apply capability_closed|].
  apply gated_closed; [apply rego_closed|].
  apply gated_closed; [apply tier_closed|].
  apply gated_closed; [apply binding_closed|]. apply execute_closed.
Qed.
End Correctness.

(** ** A trail without contention *)

Section Calm.
Context `{Hash}.

Lemma flush_calm p rest t :
  chain_ok t → ∃ n t', flush_attempts (p :: rest) (attempts calm) t = (Flushed n, t').
Proof.
  intros Hok. unfold attempts, calm. cbn [_AUDIT_CHAIN_MAX_RETRIES seq fmap list_fmap flush_attempts].
  pose proof (attempt_uncontended t [] (p :: rest) Hok eq_refl) as Ha.
  destruct (_audit_chain_head t) as [last prev]. destruct Ha as [-> _]. by do 2 eexists.
Qed.

(** Without contention [log_audit] raises only for the size of its detail. *)
Lemma log_audit_calm e c w :
  chain_ok (w_table w) → _enforce_audit_detail_size (call_detail c) = Ret tt →
  (log_audit e c calm w).1 = Ret tt.
Proof.
  intros Hok Hsize. unfold log_audit. rewrite Hsize. cbn zeta.
  set (per_row := let '(_, _) := row_attempts _ _ _ in _).
  assert (per_row.1 = Ret tt) as Hrow.
  { unfold per_row. rewrite row_attempts_flush.
    destruct (flush_calm (call_payload e c) [] (w_table w) Hok) as (n & t' & ->). done. }
  destruct (batched_chain e) as [cfg|]; [|done]. destruct (_ || _); [done|].
  unfold append. cbn [w_pending]. destruct (_ <=? _); [|done].
  unfold _flush_locked. cbn [w_pending w_table].
  destruct (w_pending w ++ [call_payload e c]) as [|p rest] eqn:Hp; [by destruct (w_pending w)|].
  destruct (flush_calm p rest (w_table w) Hok) as (n & t' & ->). done.
Qed.
End Calm.

Section Completeness.
Context `{Hash} {S : Type} (E : surroundings S).
Context (request : ToolExecuteRequest) (agent : TokenPayload).
Context (Hcalm : ∀ n t, db_at E n t = calm) (Hdeny : fail_deny E).

Notation run := (run E request agent).

Lemma calm_polite : polite E.
Proof. intros n t Hok. rewrite Hcalm. by apply calm_table_benign. Qed.

Lemma audit_calm c s :
  sound s → _enforce_audit_detail_size (call_detail c) = Ret tt →
  ∃ s', audit E c s = (Ret tt, s') ∧ sound s' ∧ written E c s' ∧
    ran s' = ran s ∧ services s' = services s.
Proof.
  intros Hs Hsize. destruct (audit_sound E c s calm_polite Hs) as [Hs' Hw].
  destruct (quiet_audit E c s) as [Hr Hv].
  assert ((audit E c s).1 = Ret tt) as Hret.
  { unfold audit. rewrite Hcalm.
    pose proof (log_audit_calm (audit_at E (audit_calls s)) c (trail s) Hs Hsize) as Hl.
    by destruct (log_audit _ _ _ _) as [r w]. }
  exists (audit E c s).2. split; [by destruct (audit E c s) as [r s']; cbn in *; subst|].
  split; [done|]. split; [by apply Hw|done].
Qed.

(** The state a gate hands on. *)
Definition handed (s s' : sys S) : Prop := sound s' ∧ ran s' = ran s ∧ services s' = services s.

Lemma handed_refl s : sound s → handed s s.
Proof. done. Qed.

Lemma handed_trans s1 s2 s3 : handed s1 s2 → handed s2 s3 → handed s1 s3.
Proof. intros (_ & H1 & H2) (Hs & H3 & H4). split_and!; congruence. Qed.

Lemma gated_pass (gate : @M S (option ToolExecuteResponse)) k s s1 :
  gate s = (Ret None, s1) → gated gate k s = k s1.
Proof. intros Hg. unfold gated, bind. by rewrite Hg. Qed.

Context (td : ToolDefinition) (Hauth : authorised E request agent td).

Lemma declaration_lets s : declaration_gate E request agent td s = (Ret None, s).
Proof.
  unfold declaration_gate. destruct (capability_gate_applies agent td) eqn:Ha; [|done].
  destruct (is_mcp_resource td) eqn:Hr; [done|].
  by rewrite (auth_declared _ _ _ _ Hauth Ha Hr).
Qed.

Lemma capability_lets s : capability_gate E request agent td s = (Ret None, s).
Proof.
  unfold capability_gate. destruct (capability_gate_applies agent td) eqn:Ha; [|done].
  destruct (py_bool (required_capability td)) eqn:Hb; [|done]. cbn [andb].
  pose proof (auth_capability _ _ _ _ Hauth Ha Hb) as Hc. unfold _load_principal_capabilities.
  rewrite Hc. by destruct (required_capability td).
Qed.

Lemma rego_lets s : rego_gate E request agent s = (Ret None, s).
Proof. unfold rego_gate. by rewrite (auth_rego _ _ _ _ Hauth). Qed.

Lemma binding_lets s : binding_gate E request agent td s = (Ret None, s).
Proof.
  unfold binding_gate. destruct (resource_id td) as [r|] eqn:Hr; [|done].
  destruct (auth_binding _ _ _ _ Hauth r Hr) as (table & Ht & Hb).
  unfold bind, lift. by rewrite Ht, Hb.
Qed.

Lemma tier_lets s : sound s → ∃ s', tier_gate E request agent td s = (Ret None, s') ∧ handed s s'.
Proof.
  intros Hs. unfold tier_gate.
  destruct (_resolve_tier_matrix E) as [matrix|] eqn:Hm; [|by exists s].
  destruct (capability_gate_applies agent td && py_bool (required_capability td)
    && bool_decide (t_principal_type agent = "agent")) eqn:Hg; [|by exists s].
  bools. pose proof (auth_tier _ _ _ _ Hauth matrix Hm ltac:(done) ltac:(done)) as Ht.
  destruct (resolved_tier E) as [t c]. cbn [fst] in Ht.
  unfold bind, _audit_tier_evaluated, attempt. rewrite Ht.
  eexists. split; [reflexivity|].
  match goal with |- handed _ (audit E ?c s).2 =>
    destruct (audit_sound E c s calm_polite Hs); destruct (quiet_audit E c s) end. done.
Qed.

Lemma notice_lets s :
  Z.of_nat (String.length (resource_text td) + String.length (t_principal_type agent)) <= 16000 →
  sound s → ∃ s', uncapped_notice E request agent td s = (Ret tt, s') ∧ handed s s'.
Proof.
  intros Hsize Hs. unfold uncapped_notice. destruct (_ && _); [|by exists s].
  match goal with |- context [audit E ?c] =>
    destruct (audit_calm c s Hs) as (s' & Hc & Hs' & _ & Hr & Hv) end; [|by exists s'].
  unfold call_detail. cbn [c_details c_detail]. unfold _enforce_audit_detail_size, of_type.
  rewrite !str_length_app. revert Hsize.
  generalize (String.length (resource_text td)) (String.length (t_principal_type agent)).
  intros a b Hsize. match goal with |- (if ?x <? ?y then _ else _) = _ =>
    destruct (Z.ltb_spec x y) as [Hbig|]; [|done] end.
  exfalso. unfold AUDIT_DETAILS_MAX_BYTES in Hbig. simpl in Hbig. lia.
Qed.

(** An authorised call reaches its handler. *)
Lemma authorised_reaches s :
  registry_get (tool request) (registry E) = Some td →
  Z.of_nat (String.length (resource_text td) + String.length (t_principal_type agent)) <= 16000 →
  sound s →
  ∃ s', handed s s' ∧ run s = execute E request agent td s'.
Proof.
  intros Hg Hsize Hs. unfold Executor.run. rewrite Hg.
  rewrite (gated_pass _ _ _ _ (declaration_lets s)).
  destruct (notice_lets s Hsize Hs) as (s1 & Hn & H1). unfold bind. rewrite Hn.
  rewrite (gated_pass _ _ _ _ (capability_lets s1)), (gated_pass _ _ _ _ (rego_lets s1)).
  destruct (tier_lets s1) as (s2 & Ht & H2); [apply H1|].
  rewrite (gated_pass _ _ _ _ Ht), (gated_pass _ _ _ _ (binding_lets s2)).
  exists s2. split; [by eapply handed_trans|done].
Qed.

(** The settings under which a success fits the trail. *)
Definition redaction_in_force : option redaction_settings :=
  match settings E with Ret st => Some (redaction st) | Raise _ => None end.

Definition cap_in_force : Z :=
  match settings E with Ret st => audit_detail_max_bytes st | Raise _ => 4096 end.

Lemma success_detail_in_force h v :
  success_detail E request h v
  = _build_success_detail (recursion_limit E) h (PJson (parameters request)) v cap_in_force
      (Some (tool request)) redaction_in_force.
Proof. unfold success_detail, cap_in_force, redaction_in_force. by destruct (settings E). Qed.

(** a call that did its work is answered as a success and recorded as one.
    When the trail is not contended and the operator's cap is at most the hard
    cap of [log_audit], an authorised call whose handler returns a value gets
    that value, and the trail has the row with its parameters and result as
    [_build_success_detail] writes them: no size of either turns the call into
    an error. *)
Theorem success_answered_and_recorded s hosts h v services' :
  registry_get (tool request) (registry E) = Some td →
  Z.of_nat (String.length (resource_text td) + String.length (t_principal_type agent)) <= 16000 →
  sound s →
  allowed_hosts td = Ret hosts →
  invoke E td (context E request agent) (services s) = (Returned h v, services') →
  cap_in_force <= AUDIT_DETAILS_MAX_BYTES →
  plain (type_name h v) → Z.of_nat (String.length (type_name h v)) <= 14000 →
  encoded_size (safe_parameters (recursion_limit E) h (Some (tool request)) redaction_in_force
    (PJson (parameters request))) < 10 ^ 100 →
  ∃ d s', run s = (Ret (answer E request "success" (Some (h, v)) None None d), s') ∧
    ran s' = ran s ++ [tool request] ∧ services s' = services' ∧ sound s' ∧
    written E (execute_row E request agent "success" (success_detail E request h v) (Some d)) s'.
Proof.
  intros Hg Hsize Hs Hhosts Hinv Hcap Hplain Hlen Henc.
  destruct (authorised_reaches s Hg Hsize Hs) as (s1 & (Hs1 & Hr1 & Hv1) & ->).
  rewrite execute_cases, Hhosts, Hv1, Hinv.
  match goal with |- context [finish _ _ _ _ ?x] => set (s2 := x) end.
  assert (_enforce_audit_detail_size (Some (success_detail E request h v)) = Ret tt) as Hfit.
  { rewrite success_detail_in_force. apply success_detail_accepted; try done.
    - by destruct (parameters request).
    - rewrite Nat2Z.inj_add. enough (Z.of_nat (String.length (type_name h (PJson (parameters request)))) <= 8) by lia.
      destruct (parameters request); cbn; lia. }
  exists (elapsed_ms E (audit_calls s2)). cbn [finish]. unfold succeeded, bind, elapsed.
  set (c := execute_row _ _ _ _ _ _).
  destruct (audit_calm c s2 Hs1 Hfit) as (s3 & Ha & Hs3 & Hw & Hr3 & Hv3). rewrite Ha.
  exists s3. split; [done|]. split_and!; [|done..]. rewrite Hr3. unfold s2. cbn [ran]. congruence.
Qed.
End Completeness.

(** ** Instances

    A user bound to the resource [postgres-mcp] of [ToolRegistry], and an agent
    whose device has no attestation; the services are a counter of the handler
    calls. *)

Definition demo_matrix : TierMatrix :=
  {| version := "1"; default_min_tier := TIER_UNTRUSTED;
     by_exact := {["erp.read" := TIER_MANAGED]}; by_prefix := []; source_path := "" |}.

Definition demo_surroundings (result : handler_result) : surroundings nat :=
  {| audit_at _ := {| now_iso := "2026-05-20T10:00:00+00:00"; current_dpop_jkt := None;
                      current_on_behalf_of_user := None; batched_chain := None;
                      audit_chain_disabled := false; audit_chain_durable := true;
                      audit_fail_deny := true |};
     db_at _ _ := calm; elapsed_ms _ := 3#2; invocation_id := "inv-0123456789ab";
     registry := _tools demo_registry; json_loads _ := None; policy_rules_row := Ret None;
     try_rego_decision _ _ := None; cached_matrix := Some demo_matrix; matrix_module := Ret tt; matrix_path := "";
     matrix_on_disk := Missing; stale_threshold := None; get_agent := Ret None;
     bindings := Ret [{| b_agent_id := "acme::user::mario"; b_principal_type := "user";
                         b_resource_id := "r1"; b_revoked_at := None |}];
     tool_secrets := Raise RuntimeError;
     settings := Ret {| audit_detail_max_bytes := 4096;
                        redaction := {| capture_parameters := true; capture_result := true;
                                        parameters_denylist := []; result_denylist := [] |} |};
     recursion_limit := 50; timeout_s := "30.0";
     invoke _ _ n := (result, Datatypes.S n) |}.

Definition demo_start : sys nat :=
  {| trail := {| w_table := []; w_pending := []; w_unhealthy := false |};
     audit_calls := 0; services := 0%nat; ran := [] |}.

Definition query : ToolExecuteRequest :=
  {| tool := "postgres-mcp"; parameters := JObj [("sql", JStr "select 1")] |}.
Definition mario_token : TokenPayload :=
  {| t_agent_id := "acme::user::mario"; t_org := "acme"; t_scope := []; t_principal_type := "user" |}.
Definition bot_token : TokenPayload :=
  {| t_agent_id := "acme::bot"; t_org := "acme"; t_scope := ["erp.read"]; t_principal_type := "agent" |}.
Definition stock : ToolExecuteRequest := {| tool := "check_erp"; parameters := JObj [] |}.

Definition one : handler_result := Returned [] (PJson (JInt 1)).

Definition verdict_of {S} (p : outcome ToolExecuteResponse * sys S) : option (string * option string) * list string :=
  (match p.1 with Ret r => Some (rs_status r, rs_denied_reason_code r) | Raise _ => None end, ran p.2).

Example demo_calls :
  (verdict_of (run (demo_surroundings one) query mario_token demo_start),
   verdict_of (run (demo_surroundings one) query bot_token demo_start),
   verdict_of (run (demo_surroundings one) stock mario_token demo_start),
   verdict_of (run (demo_surroundings one) stock bot_token demo_start),
   verdict_of (run (demo_surroundings TimedOut) query mario_token demo_start))
  = ((Some ("success", None), ["postgres-mcp"]),
     (Some ("error", Some MISSING_BINDING), []),
     (Some ("error", Some CAPABILITY_DENIED), []),
     (Some ("error", Some INSUFFICIENT_TIER), []),
     (Some ("error", Some INTERNAL_ERROR), ["postgres-mcp"])).
Proof. vm_compute. reflexivity. Qed.

Lemma demo_calm result : ∀ n t, db_at (demo_surroundings result) n t = calm.
Proof. done. Qed.

Lemma demo_deny result : fail_deny (demo_surroundings result).
Proof. done. Qed.

Lemma demo_sound : sound demo_start.
Proof. constructor. Qed.

Lemma handler_runs_only_authorised_witness :
  ran (run (demo_surroundings one) query mario_token demo_start).2 = ["postgres-mcp"] ∧
  ∃ td, registry_get "postgres-mcp" (_tools demo_registry) = Some td ∧
    authorised (demo_surroundings one) query mario_token td.
Proof.
  assert (ran (run (demo_surroundings one) query mario_token demo_start).2 = ["postgres-mcp"]) as Hr
    by (vm_compute; reflexivity).
  split; [done|].
  destruct (run (demo_surroundings one) query mario_token demo_start) as [r s'] eqn:Hrun.
  refine (proj2 (handler_runs_only_authorised (demo_surroundings one) query mario_token
    demo_start r s' Hrun _)).
  cbn [snd] in Hr. rewrite Hr. done.
Defined.

Lemma answer_in_trail_witness :
  let '(r, s') := run (demo_surroundings TimedOut) query mario_token demo_start in
  match r with
  | Ret resp => rs_status resp = "error" ∧
      closed_by (demo_surroundings TimedOut) query mario_token resp s'
  | Raise _ => False
  end.
Proof.
  pose proof (answer_in_trail (demo_surroundings TimedOut) query mario_token
    (calm_polite _ (demo_calm TimedOut)) (demo_deny TimedOut) demo_start demo_sound) as [_ Hc].
  assert (verdict_of (run (demo_surroundings TimedOut) query mario_token demo_start)
    = (Some ("error", Some INTERNAL_ERROR), ["postgres-mcp"])) as Hv by (vm_compute; reflexivity).
  destruct (run (demo_surroundings TimedOut) query mario_token demo_start) as [[resp|e] s'];
    cbn [fst snd] in *; [|done].
  injection Hv as Hst _ _. done.
Defined.

Definition postgres : ToolDefinition :=
  resource_definition demo_loads (λ _, None) (postgres_row "postgres-mcp" true).

Lemma postgres_authorised : authorised (demo_surroundings one) query mario_token postgres.
Proof.
  split; try done. intros r [= <-]. eexists. split; [reflexivity|]. vm_compute. reflexivity.
Qed.

Lemma success_answered_and_recorded_witness :
  ∃ d s', run (demo_surroundings one) query mario_token demo_start
    = (Ret (answer (demo_surroundings one) query "success" (Some ([], PJson (JInt 1))) None None d), s') ∧
    written (demo_surroundings one)
      (execute_row (demo_surroundings one) query mario_token "success"
         (success_detail (demo_surroundings one) query [] (PJson (JInt 1))) (Some d)) s'.
Proof.
  destruct (success_answered_and_recorded (demo_surroundings one) query mario_token
    (demo_calm one) (demo_deny one) postgres postgres_authorised demo_start ["pg.acme.local"]
    [] (PJson (JInt 1)) 1%nat) as (d & s' & Hrun & _ & _ & _ & Hw);
    [vm_compute; reflexivity|vm_compute; discriminate|exact demo_sound|reflexivity|reflexivity
    |vm_compute; discriminate|reflexivity|vm_compute; discriminate|vm_compute; reflexivity|].
  exists d, s'. done.
Defined.
