(* ===== verification/Forwarder.v ===== *)
(** * Forwarding a tool call to an MCP server

    [tools/mcp_resource_forwarder.py]: the handler of every resource of the
    registry.  It posts one JSON-RPC request, reads the answer as JSON or as
    the first event of a stream, and writes the [local_audit] row of the call
    before it returns or raises.  The HTTP exchange is an input; the state is
    the table with the number of appends made, each of which meets its own
    database. *)

From S2P Require Import Prelude Sha256 Json AuditLog IsoTime LocalAudit ToolRegistry ToolDetail Executor.

Open Scope Z_scope.

(** ** Texts of HTTP *)

Definition _DANGEROUS_UPSTREAM_HEADERS : list string :=
  ["authorization"; "cookie"; "set-cookie"; "x-api-key"; "x-cullis-agent-id"; "x-cullis-org-id";
   "x-cullis-admin"; "x-cullis-mastio-signature"; "x-forwarded-user"; "x-forwarded-email";
   "x-original-authorization"; "proxy-authorization"].

Definition _strip_dangerous_upstream_headers (headers : list (string * string))
    : list (string * string) :=
  List.filter (λ kv, negb (bool_decide (lower (fst kv) ∈ _DANGEROUS_UPSTREAM_HEADERS))) headers.

Definition line_breaks : list string :=
  [String (ascii_of_N 10) ""; String (ascii_of_N 13) ""; String (ascii_of_N 11) "";
   String (ascii_of_N 12) ""; String (ascii_of_N 28) ""; String (ascii_of_N 29) "";
   String (ascii_of_N 30) ""; String (ascii_of_N 194) (String (ascii_of_N 133) "");
   String (ascii_of_N 226) (String (ascii_of_N 128) (String (ascii_of_N 168) ""));
   String (ascii_of_N 226) (String (ascii_of_N 128) (String (ascii_of_N 169) ""))].

(** [text.splitlines()] on the code points: CR LF is one break, and a text that
    ends with a break has no empty last line. *)
Fixpoint split_lines (current : string) (l : list string) : list string :=
  match l with
  | [] => if bool_decide (current = "") then [] else [current]
  | c :: rest =>
      if bool_decide (c ∈ line_breaks) then
        current :: match rest with
                   | d :: rest' =>
                       if bool_decide (c = String (ascii_of_N 13) "") && bool_decide (d = String (ascii_of_N 10) "")
                       then split_lines "" rest' else split_lines "" rest
                   | [] => []
                   end
      else split_lines (current +:+ c) rest
  end.

Definition splitlines (s : string) : list string := split_lines "" (chars s).

(** [sub in s] *)
Definition contains (sub s : string) : bool := is_some (String.index 0 sub s).

Section Decode.
Context (json_loads : string → option json).

(** The first event that carries data. *)
Fixpoint first_event (lines : list string) : option (list (string * json)) :=
  match lines with
  | [] => None
  | line :: rest =>
      if startswith line "data:" then
        let payload := strip (drop_prefix "data:" line) in
        if bool_decide (payload = "") then first_event rest
        else json_loads payload ≫= as_obj
      else first_event rest
  end.

Definition _decode_mcp_response (content_type text : string) : option (list (string * json)) :=
  if contains "text/event-stream" (lower content_type) then first_event (splitlines text)
  else json_loads text ≫= as_obj.
End Decode.

(** [secret_provider] is the answer of [get_secret_by_ref]; [None] when the
    context has no provider. *)
Definition _build_auth_header (auth_type : string) (auth_secret_ref : option string)
    (secret_provider : option (string → outcome (option string))) : list (string * string) :=
  if bool_decide (auth_type = "none") || negb (truthy auth_secret_ref) then [] else
  match secret_provider with
  | None => []
  | Some by_ref =>
      match by_ref (or_empty auth_secret_ref) with
      | Ret (Some (String _ _ as secret)) =>
          if bool_decide (auth_type = "bearer") then [("Authorization", "Bearer " +:+ secret)]
          else if bool_decide (auth_type = "api_key") then [("X-API-Key", secret)]
          else []
      | _ => []
      end
  end.

(** ** The exchange *)

(** How the POST ends: an answer; [TimeoutException] or [ConnectError]; the
    transport's own [ToolExecutionError]; any other exception of the client. *)
Inductive reply :=
| Answered (status : Z) (content_type text : string)
| Unreachable (why : string)
| Refused (message : string)
| Failed (class : string).

Section Forward.
Context `{Hash} `{IsoFormat}.

Record locals := { l_table : list local_row; l_appends : nat }.

Record wiring := {
  w_json_loads : string → option json;
  w_local_at : nat → list local_row → nat → local_event;
  w_secret_provider : option (string → outcome (option string));
  w_send : string → json → list (string * string) → reply;
  w_settings : outcome audit_settings;
  w_recursion_limit : nat;
}.

Context (W : wiring).

Definition append_row (c : local_call) (s : locals) : outcome summary * locals :=
  let '(r, t) := append_local_audit c (w_local_at W (l_appends s) (l_table s)) (l_table s) in
  (r, {| l_table := t; l_appends := S (l_appends s) |}).

Definition resource_call (ctx : ToolContext) (result : string) (details : list (string * json))
    : local_call :=
  {| c_event_type := "resource_call"; c_result := result;
     LocalAudit.c_agent_id := Some (ctx_agent_id ctx); c_session_id := None;
     c_org_id := Some (ctx_org_id ctx); LocalAudit.c_details := Some details |}.

(** The row, then what follows it; an exception of the append replaces it. *)
Definition audited (c : local_call) (result : handler_result) (s : locals)
    : handler_result * locals :=
  match append_row c s with
  | (Ret _, s') => (result, s')
  | (Raise e, s') => (Crashed (exn_class e), s')
  end.

Definition opt_str (o : option string) : json := match o with Some s => JStr s | None => JNull end.

Definition base_details (td : ToolDefinition) (endpoint : string) (ctx : ToolContext)
    : list (string * json) :=
  [("resource_id", opt_str (resource_id td)); ("endpoint_url", JStr endpoint);
   ("tool", JStr (name td)); ("mcp_request_id", JStr (ctx_request_id ctx))].

Definition rpc_payload (td : ToolDefinition) (ctx : ToolContext) : json :=
  JObj [("jsonrpc", JStr "2.0"); ("id", JStr (ctx_request_id ctx)); ("method", JStr "tools/call");
        ("params", JObj [("name", JStr (name td)); ("arguments", ctx_parameters ctx)])].

Definition request_headers (td : ToolDefinition) : list (string * string) :=
  [("Accept", "application/json, text/event-stream")]
  ++ _strip_dangerous_upstream_headers []
  ++ _build_auth_header (or_default "none" (_auth_type td)) (_auth_secret_ref td) (w_secret_provider W).

(** [{**audit_details, **json.loads(_build_success_detail(...))}] *)
Definition enriched (td : ToolDefinition) (endpoint : string) (ctx : ToolContext) (rpc_result : json)
    : outcome (list (string * json)) :=
  let '(cap, settings) := match w_settings W with
                          | Ret st => (audit_detail_max_bytes st, Some (redaction st))
                          | Raise _ => (4096, None)
                          end in
  let text := _build_success_detail (w_recursion_limit W) [] (PJson (ctx_parameters ctx))
                (PJson rpc_result) cap (Some (name td)) settings in
  match w_json_loads W text with
  | Some (JObj payload) =>
      Ret (foldl (λ d kv, dset (fst kv) (snd kv) d) (base_details td endpoint ctx) payload)
  | Some _ => Raise TypeError
  | None => Ret (base_details td endpoint ctx)
  end.

(** What the answer of the server becomes: the status and details of the row,
    and the result of the handler. *)
Definition interpret (td : ToolDefinition) (endpoint : string) (ctx : ToolContext)
    (status : Z) (content_type text : string)
    : outcome (string * list (string * json) * handler_result) :=
  let base := base_details td endpoint ctx in
  if (status =? 401) || (status =? 403) then
    Ret ("denied", base ++ [("http_status", JInt status)],
         ToolError ("MCP resource rejected the call with HTTP " +:+ pretty status))
  else if 400 <=? status then
    Ret ("error", base ++ [("http_status", JInt status)],
         ToolError ("MCP resource returned HTTP " +:+ pretty status))
  else
    match _decode_mcp_response (w_json_loads W) content_type text with
    | None => Ret ("error", base ++ [("error", JStr "malformed_json")],
                   ToolError "MCP resource returned non-JSON body")
    | Some data =>
        match get "error" data with
        | Some e =>
            let err := match e with JObj f => f | _ => [("message", JStr (str_of e))] end in
            Ret ("error", base ++ [("rpc_error", JObj err)],
                 ToolError ("MCP resource RPC error: "
                            +:+ str_of (default (JStr "unknown") (get "message" err))))
        | None =>
            let rpc_result := get_none "result" data in
            let! details := enriched td endpoint ctx rpc_result in
            Ret ("ok", details, Returned [] (PJson rpc_result))
        end
    end.

Definition forward_to_mcp_resource (td : ToolDefinition) (ctx : ToolContext) (s : locals)
    : handler_result * locals :=
  match endpoint_url td with
  | None | Some EmptyString =>
      (ToolError ("Resource '" +:+ name td +:+ "' has no endpoint_url configured"), s)
  | Some endpoint =>
      match w_send W endpoint (rpc_payload td ctx) (request_headers td) with
      | Failed class => (Crashed class, s)
      | Refused message => (ToolError message, s)
      | Unreachable why =>
          audited (resource_call ctx "error"
                     (base_details td endpoint ctx
                      ++ [("error", JStr "unreachable"); ("detail", JStr (take_chars 200 why))]))
                  (ToolError ("MCP resource unreachable: " +:+ why)) s
      | Answered status content_type text =>
          match interpret td endpoint ctx status content_type text with
          | Ret (result, details, out) => audited (resource_call ctx result details) out s
          | Raise e => (Crashed (exn_class e), s)
          end
      end
  end.

(** [_make_handler]: the closure the loader binds to its own definition; a
    builtin is the function its module registered. *)
Definition bound_handler (builtin : string → ToolContext → locals → handler_result * locals)
    (td : ToolDefinition) (ctx : ToolContext) (s : locals) : handler_result * locals :=
  match handler td with
  | Forwarder => forward_to_mcp_resource td ctx s
  | Builtin fn => builtin fn ctx s
  end.

End Forward.

(** ** What an exchange leaves behind *)

Section Recorded.
Context `{Hash} `{IsoFormat} (W : wiring).

Definition locally_polite : Prop :=
  ∀ n t, local_ok t → local_benign (w_local_at W n t <$> seq 0 _MAX_CHAIN_RETRIES) t.

(** [s'] has one row more of this process than [s]: the row of [c]. *)
Definition row_added (c : local_call) (s s' : locals) : Prop :=
  ∃ others row, l_table s' = l_table s ++ others ++ [row] ∧ entry_of c row.

Definition no_row_added (s s' : locals) : Prop := ∃ others, l_table s' = l_table s ++ others.

Lemma append_row_spec c s :
  locally_polite → local_ok (l_table s) →
  local_ok (l_table (append_row W c s).2) ∧
  match (append_row W c s).1 with
  | Ret _ => row_added c s (append_row W c s).2
  | Raise _ => no_row_added s (append_row W c s).2
  end.
Proof.
  intros Hp Hok. unfold append_row, append_local_audit.
  destruct (_enforce_details_size (details_json c)) as [_|e].
  2: { split; [done|]. exists []. by rewrite app_nil_r. }
  pose proof (local_attempts_spec c (w_local_at W (l_appends s) (l_table s) <$> seq 0 _MAX_CHAIN_RETRIES)
    _ Hok (Hp _ _ Hok)) as [Hok' [others Hpost]].
  destruct (local_attempts c _ _) as [[sm|e] t']; cbn [fst snd l_table] in *; split; try done.
  - destruct Hpost as (r & -> & He & _). by exists others, r.
  - exists others. by destruct e; destruct_and? Hpost.
Qed.

Lemma audited_spec c out s :
  locally_polite → local_ok (l_table s) →
  local_ok (l_table (audited W c out s).2) ∧
  ((audited W c out s).1 = out ∧ row_added c s (audited W c out s).2 ∨
   (∃ e, (audited W c out s).1 = Crashed (exn_class e)) ∧ no_row_added s (audited W c out s).2).
Proof.
  intros Hp Hok. destruct (append_row_spec c s Hp Hok) as [Hok' Ha]. unfold audited.
  destruct (append_row W c s) as [[sm|e] s']; cbn [fst snd] in *; split; auto. right. eauto.
Qed.

Lemma interpret_cases td endpoint ctx status ctype text result details out :
  interpret W td endpoint ctx status ctype text = Ret (result, details, out) →
  (result = "ok" ∧ ∃ rpc, out = Returned [] (PJson rpc) ∧ enriched W td endpoint ctx rpc = Ret details) ∨
  (result ∈ ["denied"; "error"] ∧ ∃ m, out = ToolError m).
Proof.
  unfold interpret. intros Hi.
  destruct (_ || _); [right; simplify_eq; split; [left|eauto]|].
  destruct (400 <=? status); [right; simplify_eq; split; [right; left|eauto]|].
  destruct (_decode_mcp_response _ _ _) as [data|].
  2: { right. simplify_eq. split; [right; left|eauto]. }
  destruct (get "error" data) as [e|].
  { right. simplify_eq. split; [right; left|eauto]. }
  destruct (enriched _ _ _ _ _) as [d|] eqn:He; [|done]. cbn [obind] in Hi. simplify_eq. left. eauto.
Qed.

(** the [local_audit] row of a forwarded call. A result is handed back only
    when the row that says [ok] was written, with the details of that result;
    an error of the server or of the connection only when its row was written,
    the exceptions being a resource without endpoint and a host the transport
    refuses, which leave no row; any other end writes nothing of its own.
    Every chain stays verifiable. *)
Theorem forwarded_call_recorded td ctx s :
  locally_polite → local_ok (l_table s) →
  let '(r, s') := forward_to_mcp_resource W td ctx s in
  local_ok (l_table s') ∧
  match r with
  | Returned h v => ∃ rpc details endpoint, v = PJson rpc ∧ endpoint_url td = Some endpoint ∧
      enriched W td endpoint ctx rpc = Ret details ∧ row_added (resource_call ctx "ok" details) s s'
  | ToolError m =>
      s' = s ∧ (or_empty (endpoint_url td) = "" ∨
                ∃ endpoint, w_send W endpoint (rpc_payload td ctx) (request_headers W td) = Refused m) ∨
      ∃ result details, result ∈ ["denied"; "error"] ∧ row_added (resource_call ctx result details) s s'
  | TimedOut => False
  | Crashed _ => no_row_added s s'
  end.
Proof.
  intros Hp Hok. unfold forward_to_mcp_resource.
  assert (no_row_added s s) as Hself by (exists []; by rewrite app_nil_r).
  destruct (endpoint_url td) as [[|c endpoint]|] eqn:He; [split; [done|]; left; auto| |split; [done|]; left; auto].
  destruct (w_send W _ _ _) as [status ctype text|why|message|class] eqn:Hsend.
  - destruct (interpret W td _ ctx status ctype text) as [[[result details] out]|e] eqn:Hi; [|done].
    destruct (audited_spec (resource_call ctx result details) out s Hp Hok) as [Hok' Ha].
    destruct (audited W _ out s) as [r s']. cbn [fst snd] in *. split; [done|].
    destruct Ha as [[-> Hrow]|[[e ->] Hno]]; [|done].
    apply interpret_cases in Hi as [(-> & rpc & -> & Hd)|(Hin & m & ->)]; [|right]; eauto 8.
  - set (c' := resource_call _ _ _).
    destruct (audited_spec c' (ToolError ("MCP resource unreachable: " +:+ why)) s Hp Hok) as [Hok' Ha].
    destruct (audited W c' _ s) as [r s']. cbn [fst snd] in *. split; [done|].
    destruct Ha as [[-> Hrow]|[[e ->] Hno]]; [|done]. right. exists "error". eexists.
    split; [right; left|exact Hrow].
  - split; [done|]. left. eauto.
  - done.
Qed.

(** a call the server has executed can end as an error without a row. The
    result is copied into the details of the row next to the identifiers of
    the call, so a result that fits [audit_detail_max_bytes], but not together
    with them, makes the append refuse: the caller is told of an internal
    error, and nothing records the call. *)
Theorem oversize_success_unrecorded td ctx s endpoint status ctype text details out :
  endpoint_url td = Some endpoint → endpoint ≠ "" →
  w_send W endpoint (rpc_payload td ctx) (request_headers W td) = Answered status ctype text →
  interpret W td endpoint ctx status ctype text = Ret ("ok", details, out) →
  details ≠ [] → LocalAudit.AUDIT_DETAILS_MAX_BYTES < encoded_size (JObj details) →
  (forward_to_mcp_resource W td ctx s).1 = Crashed "RuntimeError" ∧
  l_table (forward_to_mcp_resource W td ctx s).2 = l_table s.
Proof.
  intros He Hne Hsend Hi Hd Hsize. unfold forward_to_mcp_resource. rewrite He.
  destruct endpoint as [|c endpoint]; [done|]. rewrite Hsend, Hi.
  unfold audited, append_row, append_local_audit, details_json.
  cbn [resource_call LocalAudit.c_details]. destruct details as [|kv details]; [done|].
  unfold _enforce_details_size. unfold encoded_size in Hsize.
  by rewrite (proj2 (Z.ltb_lt _ _) Hsize).
Qed.
End Recorded.

(** ** Instances *)

Fixpoint times (n : nat) (s : string) : string :=
  match n with O => "" | S n' => s +:+ times n' s end.

(** A result of 16300 bytes: with the parameters it fits a cap of 16384. *)
Definition long_text : string := times 163 (times 100 "x").

Definition demo_ctx : ToolContext :=
  {| ctx_parameters := JObj [("sql", JStr "select 1")]; ctx_agent_id := "acme::user::mario";
     ctx_org_id := "acme"; ctx_capabilities := []; ctx_secrets := [];
     ctx_request_id := "inv-0123456789ab" |}.

Definition decoded (result : json) (text : string) : option json :=
  if bool_decide (text = "body") then Some (JObj [("result", result)])
  else Some (JObj [("parameters", JObj [("sql", JStr "select 1")]); ("result_summary", result)]).

Definition demo_wiring (result : json) : wiring :=
  {| w_json_loads := decoded result; w_local_at _ _ := LocalDemo.calm 7;
     w_secret_provider := Some (λ ref, Ret (if bool_decide (ref = "env://PG") then Some "t0ken" else None));
     w_send _ _ headers :=
       if bool_decide (("Authorization", "Bearer t0ken") ∈ headers)
       then Answered 200 "application/json" "body" else Answered 401 "" "";
     w_settings := Ret {| audit_detail_max_bytes := 16384;
                          redaction := {| capture_parameters := true; capture_result := true;
                                          parameters_denylist := []; result_denylist := [] |} |};
     w_recursion_limit := 50 |}.

Definition no_locals : locals := {| l_table := []; l_appends := 0 |}.

Lemma demo_locally_polite result : locally_polite (demo_wiring result).
Proof. intros n t Hok. by apply LocalDemo.calm_benign. Qed.

Lemma forwarded_call_recorded_witness :
  (forward_to_mcp_resource (demo_wiring (JInt 1)) postgres demo_ctx no_locals).1
    = Returned [] (PJson (JInt 1)) ∧
  ∃ details, row_added (resource_call demo_ctx "ok" details) no_locals
    (forward_to_mcp_resource (demo_wiring (JInt 1)) postgres demo_ctx no_locals).2.
Proof.
  assert ((forward_to_mcp_resource (demo_wiring (JInt 1)) postgres demo_ctx no_locals).1
    = Returned [] (PJson (JInt 1))) as Hr by (vm_compute; reflexivity).
  split; [done|].
  pose proof (forwarded_call_recorded (demo_wiring (JInt 1)) postgres demo_ctx no_locals
    (demo_locally_polite _) LocalDemo.empty_ok) as Hf.
  destruct (forward_to_mcp_resource _ _ _ _) as [r s']. cbn [fst snd] in *. subst r.
  destruct Hf as (_ & rpc & details & endpoint & _ & _ & _ & Hrow). by exists details.
Defined.

Lemma oversize_success_unrecorded_witness :
  (forward_to_mcp_resource (demo_wiring (JStr long_text)) postgres demo_ctx no_locals).1
    = Crashed "RuntimeError" ∧
  l_table (forward_to_mcp_resource (demo_wiring (JStr long_text)) postgres demo_ctx no_locals).2 = [].
Proof.
  apply (oversize_success_unrecorded (demo_wiring (JStr long_text)) postgres demo_ctx no_locals
    "https://pg.acme.local/mcp" 200 "application/json" "body"
    (base_details postgres "https://pg.acme.local/mcp" demo_ctx
     ++ [("parameters", JObj [("sql", JStr "select 1")]); ("result_summary", JStr long_text)])
    (Returned [] (PJson (JStr long_text)))); try done; vm_compute; reflexivity.
Defined.

Example streamed_answer :
  let nl := String (ascii_of_N 10) "" in
  _decode_mcp_response (λ s, if bool_decide (s = "{}") then Some (JObj []) else None)
    "Text/Event-Stream; charset=utf-8" ("event: message" +:+ nl +:+ "data:" +:+ nl +:+ "data: {}" +:+ nl)
  = Some [].
Proof. vm_compute. reflexivity. Qed.
