(* ===== verification/Aggregator.v ===== *)
(** * The aggregated MCP endpoint

    [ingress/mcp_aggregator.py] (JSON-RPC over [POST /v1/mcp]) and the two
    routes of [ingress/router.py].  The endpoint lists and calls the tools of
    the registry; a call goes through [Executor.run], whose handlers are the
    builtins and [Forwarder].  The state is that of the executor with the
    [local_audit] table as its services. *)

From S2P Require Import Prelude Sha256 Json AuditCanon AuditLog AuditChain IsoTime LocalAudit Tier ToolRegistry ToolDetail Executor Forwarder.
From Stdlib Require Import QArith.

Open Scope Z_scope.

(** ** JSON-RPC *)

Definition PROTOCOL_VERSION : string := "2024-11-05".
Definition ERR_PARSE : Z := -32700.
Definition ERR_INVALID_REQUEST : Z := -32600.
Definition ERR_METHOD_NOT_FOUND : Z := -32601.
Definition ERR_INVALID_PARAMS : Z := -32602.
Definition ERR_RESOURCE_NOT_AUTHORIZED : Z := -32000.
Definition ERR_RESOURCE_ERROR : Z := -32003.
Definition ERR_TOOL_NOT_FOUND : Z := -32004.
Definition ERR_CAPABILITY_MISSING : Z := -32005.

Definition MCP_TOOLS_LIST : string := "mcp.tools.list".
Definition MAX_TOOL_PARAMETERS_BYTES : Z := 128 * 1024.

Definition _rpc_error (req_id : json) (code : Z) (message : string) (data : option json) : json :=
  JObj [("jsonrpc", JStr "2.0"); ("id", req_id);
        ("error", JObj ([("code", JInt code); ("message", JStr message)]
                        ++ match data with Some d => [("data", d)] | None => [] end))].

Definition _rpc_result (req_id result : json) : json :=
  JObj [("jsonrpc", JStr "2.0"); ("id", req_id); ("result", result)].

Record http_response := { status_code : Z; content : option json }.

Definition ok (j : json) : http_response := {| status_code := 200; content := Some j |}.

(** ** Python values as JSON

    [json.dumps] of a value: a container inside itself raises [ValueError];
    an object without an encoding raises [TypeError], or is written as [other]
    gives it; [RecursionError] is a [RuntimeError]. *)
Fixpoint encode (limit : nat) (h : heap) (other : option (string → string → string))
    (seen : list nat) (v : pyval) : outcome json :=
  match limit with
  | O => Raise RuntimeError
  | S n =>
      match v with
      | PJson j => Ret j
      | POpaque class text =>
          match other with Some f => Ret (JStr (f class text)) | None => Raise TypeError end
      | PRef a =>
          match h !! a with
          | None => Raise TypeError
          | Some c =>
              if bool_decide (a ∈ seen) then Raise ValueError
              else match c with
                   | CDict items =>
                       let! l := omapM (λ kv, let! j := encode n h other (a :: seen) (snd kv) in
                                              Ret (fst kv, j)) items in Ret (JObj l)
                   | CList items | CTuple items =>
                       let! l := omapM (encode n h other (a :: seen)) items in Ret (JList l)
                   end
          end
      end
  end.

Section Endpoint.
Context `{Hash} `{IsoFormat}.
(** [obj_str] is [str] of an object without a JSON encoding. *)
Context (E : surroundings locals) (W : wiring) (obj_str : string → string → string).

Definition _stringify (h : heap) (v : pyval) : outcome string :=
  match v with
  | PJson (JStr s) => Ret s
  | _ => let! j := encode (recursion_limit E) h (Some obj_str) [] v in Ret (dumps j)
  end.

(** An MCP envelope is handed through, anything else becomes its text. *)
Definition envelope (j : json) : bool :=
  match j with
  | JObj f => is_some (get "content" f ≫= as_list) && has_key "isError" f
  | _ => false
  end.

Definition is_envelope (h : heap) (v : pyval) : bool :=
  match v with
  | PJson j => envelope j
  | PRef a =>
      match h !! a with
      | Some (CDict items) =>
          match dget "content" items with
          | Some (PJson (JList _)) => is_some (dget "isError" items)
          | Some (PRef b) => match h !! b with
                             | Some (CList _) => is_some (dget "isError" items)
                             | _ => false
                             end
          | _ => false
          end
      | _ => false
      end
  | POpaque _ _ => false
  end.

Definition call_result (h : heap) (v : pyval) : outcome json :=
  if is_envelope h v then encode (recursion_limit E) h None [] v
  else
    let! text := _stringify h v in
    Ret (JObj [("content", JList [JObj [("type", JStr "text"); ("text", JStr text)]]);
               ("isError", JBool false)]).

(** ** The methods *)

Notation M := (@M locals).
Notation "'do' x <- m ; k" := (bind m (λ x, k))
  (at level 200, x pattern, m at level 100, k at level 200).

(** [await append_local_audit(...)] *)
Definition log_local (c : local_call) : M unit := λ s,
  let '(r, l) := append_row W c (services s) in
  (match r with Ret _ => Ret tt | Raise e => Raise e end,
   {| trail := trail s; audit_calls := audit_calls s; services := l; ran := ran s |}).

Definition denied_row (agent : TokenPayload) (event : string) (details : list (string * json))
    : local_call :=
  {| c_event_type := event; c_result := "denied"; LocalAudit.c_agent_id := Some (t_agent_id agent);
     c_session_id := None; c_org_id := Some (t_org agent); LocalAudit.c_details := Some details |}.

Definition _handle_initialize (req_id : json) : json :=
  _rpc_result req_id (JObj
    [("protocolVersion", JStr PROTOCOL_VERSION); ("capabilities", JObj [("tools", JObj [])]);
     ("serverInfo", JObj [("name", JStr "cullis-proxy"); ("version", JStr "0.1.0")])]).

Definition empty_schema : json := JObj [("type", JStr "object"); ("properties", JObj [])].

Definition tool_entry (td : ToolDefinition) : json :=
  JObj [("name", JStr (name td)); ("description", py_or (description td) (JStr ""));
        ("inputSchema", match parameters_schema td with
                        | Some sc => py_or sc empty_schema
                        | None => empty_schema
                        end)].

(** What the principal sees: the resources it is bound to, the builtins whose
    capability, when declared, it holds. *)
Definition visible (caps bound : list string) (td : ToolDefinition) : outcome bool :=
  match resource_id td with
  | Some r => Ret (bool_decide (r ∈ bound))
  | None =>
      if negb (py_bool (required_capability td)) then Ret true
      else if negb (hashable (required_capability td)) then Raise TypeError
      else Ret (in_texts (required_capability td) caps)
  end.

Fixpoint visible_tools (caps bound : list string) (l : list ToolDefinition)
    : outcome (list ToolDefinition) :=
  match l with
  | [] => Ret []
  | td :: rest =>
      let! v := visible caps bound td in let! tds := visible_tools caps bound rest in
      Ret (if v then td :: tds else tds)
  end.

Definition _handle_tools_list (req_id : json) (agent : TokenPayload) : M json :=
  if bool_decide (MCP_TOOLS_LIST ∉ t_scope agent) then
    do _ <- log_local (denied_row agent "mcp_tools_list"
      [("principal_id", JStr (t_agent_id agent)); ("principal_type", JStr (t_principal_type agent));
       ("reason", JStr "capability_missing"); ("required_capability", JStr MCP_TOOLS_LIST)]);
    ret (_rpc_error req_id ERR_CAPABILITY_MISSING ("capability_missing: " +:+ MCP_TOOLS_LIST)
           (Some (JObj [("required_capability", JStr MCP_TOOLS_LIST)])))
  else
    do table <- lift (bindings E);
    do tds <- lift (visible_tools (t_scope agent)
                      (bound_resource_ids (t_agent_id agent) (t_principal_type agent) table)
                      (list_tools (registry E)));
    ret (_rpc_result req_id (JObj [("tools", JList (tool_entry <$> tds))])).

(** The answer to what [run] gave. *)
Definition rpc_of (req_id : json) (resp : ToolExecuteResponse) : outcome json :=
  if bool_decide (rs_status resp = "success") then
    match rs_result resp with
    | Some (h, v) => let! r := call_result h v in Ret (_rpc_result req_id r)
    | None => let! r := call_result [] (PJson JNull) in Ret (_rpc_result req_id r)
    end
  else Ret (_rpc_error req_id ERR_RESOURCE_ERROR (or_default "Tool execution failed" (rs_error resp)) None).

(** The last steps of [_handle_tools_call]: the tool is registered. *)
Definition dispatch_call (req_id : json) (tool_name : string) (arguments : list (string * json))
    (td : ToolDefinition) (agent : TokenPayload) : M json :=
  do resp <- run E {| tool := tool_name; parameters := JObj arguments |} agent;
  lift (rpc_of req_id resp).

Definition _handle_tools_call (req_id : json) (params : list (string * json)) (agent : TokenPayload)
    : M json :=
  match get "name" params with
  | Some (JStr (String _ _ as tool_name)) =>
      match py_or (get_none "arguments" params) (JObj []) with
      | JObj arguments =>
          let size := encoded_size (JObj arguments) in
          if MAX_TOOL_PARAMETERS_BYTES <? size then
            do _ <- log_local (denied_row agent "resource_call"
              [("tool", JStr tool_name); ("reason", JStr "arguments_too_large");
               ("arguments_bytes", JInt size); ("limit_bytes", JInt MAX_TOOL_PARAMETERS_BYTES);
               ("principal_type", JStr (t_principal_type agent))]);
            ret (_rpc_error req_id ERR_INVALID_PARAMS
                   ("'arguments' payload exceeds the per-call limit of "
                    +:+ pretty MAX_TOOL_PARAMETERS_BYTES +:+ " bytes (got " +:+ pretty size +:+ ")") None)
          else
            match registry_get tool_name (registry E) with
            | None => ret (_rpc_error req_id ERR_TOOL_NOT_FOUND
                             ("Tool '" +:+ tool_name +:+ "' not found") None)
            | Some td =>
                match resource_id td with
                | None => dispatch_call req_id tool_name arguments td agent
                | Some r =>
                    do table <- lift (bindings E);
                    if has_active_binding (t_agent_id agent) (t_principal_type agent) r table
                    then dispatch_call req_id tool_name arguments td agent
                    else
                      do _ <- log_local (denied_row agent "resource_call"
                        [("resource_id", JStr r); ("tool", JStr tool_name);
                         ("reason", JStr "no_binding");
                         ("principal_type", JStr (t_principal_type agent))]);
                      ret (_rpc_error req_id ERR_RESOURCE_NOT_AUTHORIZED
                             ("No active binding for resource '" +:+ r +:+ "'") None)
                end
            end
      | _ => ret (_rpc_error req_id ERR_INVALID_PARAMS "'arguments' must be an object" None)
      end
  | _ => ret (_rpc_error req_id ERR_INVALID_PARAMS
                "Missing or invalid 'name' in tools/call params" None)
  end.

(** [body] is [await request.json()]; [None] when it raises. *)
Definition mcp_endpoint (body : option json) (agent : TokenPayload) : M http_response :=
  match body with
  | None => ret {| status_code := 400;
                   content := Some (_rpc_error JNull ERR_PARSE "Invalid JSON body" None) |}
  | Some (JObj body) =>
      let method := get_none "method" body in
      let req_id := get_none "id" body in
      match py_or (get_none "params" body) (JObj []) with
      | JObj params =>
          if is_str "initialize" method then ret (ok (_handle_initialize req_id))
          else if is_str "notifications/initialized" method
          then ret {| status_code := 204; content := None |}
          else if is_str "tools/list" method
          then do j <- _handle_tools_list req_id agent; ret (ok j)
          else if is_str "tools/call" method
          then do j <- _handle_tools_call req_id params agent; ret (ok j)
          else ret (ok (_rpc_error req_id ERR_METHOD_NOT_FOUND
                          ("Method '" +:+ str_of method +:+ "' not found") None))
      | _ => ret (ok (_rpc_error req_id ERR_INVALID_PARAMS "'params' must be an object" None))
      end
  | Some _ => ret {| status_code := 400;
                     content := Some (_rpc_error JNull ERR_INVALID_REQUEST
                                        "Request must be a JSON object" None) |}
  end.

(** ** [ingress/router.py] *)

Definition execute_tool (request : ToolExecuteRequest) (agent : TokenPayload)
    : M ToolExecuteResponse := run E request agent.

(** [[ToolInfo(...) for t in all_tools if t.required_capability in agent_caps]] *)
Definition ingress_tools (agent : TokenPayload) : outcome (list ToolDefinition) :=
  let l := list_tools (registry E) in
  if forallb (λ td, hashable (required_capability td)) l
  then Ret (List.filter (λ td, in_texts (required_capability td) (t_scope agent)) l)
  else Raise TypeError.
End Endpoint.

(** ** The shape of every answer *)

(** A JSON-RPC 2.0 response to [req_id]: a result or an error, not both. *)
Definition response_to (req_id j : json) : Prop :=
  ∃ body, j = JObj body ∧ get "jsonrpc" body = Some (JStr "2.0") ∧ get "id" body = Some req_id ∧
    (is_Some (get "result" body) ∧ get "error" body = None ∨
     get "result" body = None ∧
     ∃ e code message, get "error" body = Some (JObj e) ∧
       get "code" e = Some (JInt code) ∧ get "message" e = Some (JStr message)).

Lemma rpc_error_response req_id code message data : response_to req_id (_rpc_error req_id code message data).
Proof. eexists. split; [reflexivity|]. do 2 (split; [reflexivity|]). right. split; [done|]. by do 3 eexists. Qed.

Lemma rpc_result_response req_id result : response_to req_id (_rpc_result req_id result).
Proof. eexists. split; [reflexivity|]. do 2 (split; [reflexivity|]). left. split; [by eexists|done]. Qed.
#[export] Hint Resolve rpc_error_response rpc_result_response : rpc.

Lemma bind_ret {S A B} (m : @M S A) (f : A → M B) s b s' :
  bind m f s = (Ret b, s') → ∃ a s1, m s = (Ret a, s1) ∧ f a s1 = (Ret b, s').
Proof. unfold bind. destruct (m s) as [[a|e] s1]; [|done]. eauto. Qed.

Lemma bind_lifted {S A B} (o : outcome A) (f : A → @M S B) s :
  bind (lift o) f s = match o with Ret a => f a s | Raise e => (Raise e, s) end.
Proof. by destruct o. Qed.

Section Answers.
Context `{Hash} `{IsoFormat} (E : surroundings locals) (W : wiring) (obj_str : string → string → string).

Notation endpoint := (mcp_endpoint E W obj_str).

Lemma rpc_of_response req_id resp j : rpc_of E obj_str req_id resp = Ret j → response_to req_id j.
Proof.
  unfold rpc_of. case_bool_decide; [|intros [= <-]; auto with rpc].
  destruct (rs_result resp) as [[h v]|];
    (destruct (call_result _ _ _ _) as [r|]; [|done]); intros [= <-]; auto with rpc.
Qed.

Lemma dispatch_response req_id tool_name arguments td agent s j s' :
  dispatch_call E obj_str req_id tool_name arguments td agent s = (Ret j, s') → response_to req_id j.
Proof.
  unfold dispatch_call. intros (resp & s1 & _ & Hl)%bind_ret. injection Hl as Hr <-.
  by eapply rpc_of_response.
Qed.

Lemma tools_call_response req_id params agent s j s' :
  _handle_tools_call E W obj_str req_id params agent s = (Ret j, s') → response_to req_id j.
Proof.
  unfold _handle_tools_call. intros Hc.
  destruct (get "name" params) as [[| | | |[|]| |]|]; try (injection Hc as <- <-; auto with rpc).
  destruct (py_or _ _); try (injection Hc as <- <-; auto with rpc).
  destruct (_ <? _).
  { apply bind_ret in Hc as ([] & s1 & _ & [= <- <-]). auto with rpc. }
  destruct (registry_get _ _) as [td|]; [|injection Hc as <- <-; auto with rpc].
  destruct (resource_id td) as [r|]; [|by eapply dispatch_response].
  apply bind_ret in Hc as (table & s1 & _ & Hc).
  destruct (has_active_binding _ _ _ _); [by eapply dispatch_response|].
  apply bind_ret in Hc as ([] & s2 & _ & [= <- <-]). auto with rpc.
Qed.

Lemma tools_list_response req_id agent s j s' :
  _handle_tools_list E W req_id agent s = (Ret j, s') → response_to req_id j.
Proof.
  unfold _handle_tools_list. case_bool_decide.
  - intros ([] & s1 & _ & [= <- <-])%bind_ret. auto with rpc.
  - intros (table & s1 & _ & Hc)%bind_ret. apply bind_ret in Hc as (tds & s2 & _ & [= <- <-]).
    auto with rpc.
Qed.

(** The id a response must carry: [null] when the request has none to read. *)
Definition answered_id (body : option json) : json :=
  match body with Some (JObj b) => get_none "id" b | _ => JNull end.

(** C29: whatever is posted, an answer of the endpoint is a JSON-RPC 2.0 response
    with the id of the request, holding a result or an error with an integer
    code and a text, never both; only the notification gets an empty body. *)
Theorem endpoint_speaks_jsonrpc body agent s resp s' :
  endpoint body agent s = (Ret resp, s') →
  match content resp with
  | Some j => response_to (answered_id body) j ∧ status_code resp ∈ [200; 400]
  | None => status_code resp = 204 ∧
      ∃ b, body = Some (JObj b) ∧ get_none "method" b = JStr "notifications/initialized"
  end.
Proof.
  assert (∀ j, response_to (answered_id body) j →
    response_to (answered_id body) j ∧ status_code (ok j) ∈ [200; 400]) as Hok.
  { intros j Hj. split; [done|]. cbn. left. }
  assert (200 ∈ [200; 400] ∧ 400 ∈ [200; 400]) as [H200 H400] by (split; [left|right; left]).
  unfold mcp_endpoint. intros He.
  destruct body as [[| | | | | |b]|]; try (injection He as <- <-; cbn; split; [auto with rpc|done]).
  cbn [answered_id] in *. destruct (py_or _ _); try (injection He as <- <-; cbn; split; [auto with rpc|done]).
  destruct (is_str "initialize" _); [injection He as <- <-; cbn; split; [apply rpc_result_response|done]|].
  destruct (is_str "notifications/initialized" _) eqn:Hn.
  { injection He as <- <-. cbn. apply is_str_inv in Hn. eauto. }
  destruct (is_str "tools/list" _).
  { apply bind_ret in He as (j & s1 & Hj & [= <- <-]). apply tools_list_response in Hj. exact (Hok j Hj). }
  destruct (is_str "tools/call" _).
  { apply bind_ret in He as (j & s1 & Hj & [= <- <-]). apply tools_call_response in Hj. exact (Hok j Hj). }
  injection He as <- <-. cbn. split; [auto with rpc|done].
Qed.

(** ** Listing *)

Lemma visible_tools_filter caps bound l tds :
  visible_tools caps bound l = Ret tds →
  tds = List.filter (λ td, match visible caps bound td with Ret b => b | Raise _ => false end) l.
Proof.
  revert tds. induction l as [|td l IH]; simpl; intros tds; [by intros [= <-]|].
  destruct (visible caps bound td) as [v|]; [|done]. cbn [obind].
  destruct (visible_tools caps bound l) as [rest|]; [|done]. intros [= <-].
  by rewrite (IH rest eq_refl).
Qed.

Lemma bound_iff principal ptype table r :
  r ∈ bound_resource_ids principal ptype table ↔ has_active_binding principal ptype r table = true.
Proof.
  unfold bound_resource_ids, has_active_binding. rewrite list_elem_of_fmap, existsb_exists. split.
  - intros (b & -> & [Hb Ha]%elem_of_filter_bool). exists b. split; [by apply list_elem_of_In|].
    by rewrite Ha, bool_decide_eq_true_2.
  - intros (b & Hb%list_elem_of_In & Ha). bools. exists b. split; [done|].
    by apply elem_of_filter_bool.
Qed.

(** [tools/list] shows a tool exactly when the gates of [tools/call] that
    concern the principal would let it through: a resource when the principal
    has an active binding for it, a builtin when the principal holds its
    capability or the builtin declares none. *)
Theorem listing_exact req_id agent s j s' :
  MCP_TOOLS_LIST ∈ t_scope agent →
  _handle_tools_list E W req_id agent s = (Ret j, s') →
  s' = s ∧
  ∃ table tds, bindings E = Ret table ∧
    j = _rpc_result req_id (JObj [("tools", JList (tool_entry <$> tds))]) ∧
    ∀ td, td ∈ tds ↔ td ∈ list_tools (registry E) ∧
      match resource_id td with
      | Some r => has_active_binding (t_agent_id agent) (t_principal_type agent) r table = true
      | None => py_bool (required_capability td) = false ∨
                in_texts (required_capability td) (t_scope agent) = true
      end.
Proof.
  intros Hscope. unfold _handle_tools_list. rewrite bool_decide_eq_false_2 by (by intros []).
  intros (table & s1 & Hb & Hc)%bind_ret. injection Hb as Hb <-.
  apply bind_ret in Hc as (tds & s2 & Hv & [= <- <-]). injection Hv as Hv <-.
  split; [done|]. exists table, tds. split_and!; [done..|]. intros td.
  apply visible_tools_filter in Hv as ->. rewrite elem_of_filter_bool. apply and_iff_compat_l.
  unfold visible. destruct (resource_id td) as [r|].
  - rewrite bool_decide_eq_true. apply bound_iff.
  - destruct (py_bool (required_capability td)); cbn [negb]; [|naive_solver].
    destruct (required_capability td); cbn; naive_solver.
Qed.

(** ** Calling *)

Lemma log_local_ran c s : ran (log_local W c s).2 = ran s.
Proof. unfold log_local. by destruct (append_row W c (services s)). Qed.

Lemma dispatch_ran req_id tool_name arguments td agent s :
  let s' := (dispatch_call E obj_str req_id tool_name arguments td agent s).2 in
  let request := {| tool := tool_name; parameters := JObj arguments |} in
  ran s' = ran s ∨
  ran s' = ran s ++ [tool_name] ∧
  ∃ td, registry_get tool_name (registry E) = Some td ∧ authorised E request agent td.
Proof.
  cbn zeta. unfold dispatch_call, bind.
  destruct (run E _ agent s) as [[resp|e] s'] eqn:Hrun; cbn [snd lift];
    destruct (run_cases _ _ _ _ _ _ Hrun) as [?|(td' & s1 & Hg & Ha & Hr & He)]; auto;
    (destruct (execute_ran _ _ _ _ _ _ _ He) as [?|[Hran _]]; [left; congruence|right]);
    (split; [cbn in *; congruence|eauto]).
Qed.

(** What a call that started a handler was. *)
Definition started (agent : TokenPayload) (params : list (string * json)) (s s' : sys locals) : Prop :=
  ∃ tool_name arguments td,
    get "name" params = Some (JStr tool_name) ∧
    py_or (get_none "arguments" params) (JObj []) = JObj arguments ∧
    encoded_size (JObj arguments) <= MAX_TOOL_PARAMETERS_BYTES ∧
    ran s' = ran s ++ [tool_name] ∧
    registry_get tool_name (registry E) = Some td ∧
    authorised E {| tool := tool_name; parameters := JObj arguments |} agent td.

Lemma tools_call_ran req_id params agent s :
  let s' := (_handle_tools_call E W obj_str req_id params agent s).2 in
  ran s' = ran s ∨ started agent params s s'.
Proof.
  cbn zeta. unfold _handle_tools_call.
  destruct (get "name" params) as [[| | | |[|c n]| |]|] eqn:Hn; auto.
  destruct (py_or (get_none "arguments" params) (JObj [])) as [| | | | | |arguments] eqn:Hargs; auto.
  destruct (Z.ltb_spec MAX_TOOL_PARAMETERS_BYTES (encoded_size (JObj arguments))) as [|Hsize].
  { left. unfold bind. match goal with |- context [log_local W ?c s] =>
      pose proof (log_local_ran c s); by destruct (log_local W c s) as [[]] end. }
  destruct (registry_get _ _) as [td|] eqn:Hg; auto.
  assert (∀ s, ran (dispatch_call E obj_str req_id (String c n) arguments td agent s).2 = ran s ∨
    started agent params s (dispatch_call E obj_str req_id (String c n) arguments td agent s).2) as Hd.
  { intros s1. destruct (dispatch_ran req_id (String c n) arguments td agent s1) as [?|(Hr & td' & Hg' & Ha)];
      [auto|]. right. by exists (String c n), arguments, td'. }
  destruct (resource_id td) as [r|]; [|apply Hd].
  rewrite bind_lifted. destruct (bindings E) as [table|]; [|auto].
  destruct (has_active_binding _ _ _ _); [apply Hd|].
  left. unfold bind. match goal with |- context [log_local W ?c s] =>
      pose proof (log_local_ran c s); by destruct (log_local W c s) as [[]] end.
Qed.

(** through the endpoint a handler is started only by [tools/call], for the
    tool the parameters name, with arguments within the size limit, and for a
    principal that passes every gate of the executor. *)
Theorem endpoint_starts_only_authorised body agent s :
  let s' := (endpoint body agent s).2 in
  ran s' ≠ ran s →
  ∃ b params, body = Some (JObj b) ∧ get_none "method" b = JStr "tools/call" ∧
    py_or (get_none "params" b) (JObj []) = JObj params ∧ started agent params s s'.
Proof.
  cbn zeta. unfold mcp_endpoint. destruct body as [[| | | | | |b]|]; try done.
  destruct (py_or _ _) as [| | | | | |params] eqn:Hp; try done.
  destruct (is_str "initialize" _); [done|]. destruct (is_str "notifications/initialized" _); [done|].
  destruct (is_str "tools/list" _).
  { intros Hne. exfalso. apply Hne. unfold bind, _handle_tools_list.
    case_bool_decide; unfold bind, lift.
    - match goal with |- context [log_local W ?c s] =>
        pose proof (log_local_ran c s); by destruct (log_local W c s) as [[]] end.
    - destruct (bindings E); [|done]. by destruct (visible_tools _ _ _). }
  destruct (is_str "tools/call" _) eqn:Hm; [|done]. apply is_str_inv in Hm.
  pose proof (tools_call_ran (get_none "id" b) params agent s) as Hc. cbn zeta in Hc.
  unfold bind. destruct (_handle_tools_call _ _ _ _ params agent s) as [[j|e] s1];
    cbn [snd ret] in *; intros Hne; (destruct Hc as [?|Hs]; [done|]); eauto 8.
Qed.
End Answers.

(** ** Instances *)

Definition demo_gateway : surroundings locals :=
  {| audit_at := audit_at (demo_surroundings one); db_at _ _ := calm; elapsed_ms _ := Qmake 3 2;
     invocation_id := "inv-0123456789ab"; registry := _tools demo_registry; json_loads _ := None;
     policy_rules_row := Raise OperationalError; try_rego_decision _ _ := None;
     cached_matrix := Some demo_matrix; matrix_module := Ret tt; matrix_path := ""; matrix_on_disk := Missing;
     stale_threshold := None; get_agent := Ret None;
     bindings := bindings (demo_surroundings one); tool_secrets := Ret [];
     settings := settings (demo_surroundings one); recursion_limit := 50; timeout_s := "30.0";
     invoke := bound_handler (demo_wiring (JObj [("content", JList []); ("isError", JBool false)]))
                 (λ _ _ s, (TimedOut, s)) |}.

Definition demo_w : wiring := demo_wiring (JObj [("content", JList []); ("isError", JBool false)]).
Definition quiet_start : sys locals :=
  {| trail := {| w_table := []; w_pending := []; w_unhealthy := false |};
     audit_calls := 0; services := no_locals; ran := [] |}.

Definition rpc (method : string) (params : list (string * json)) : option json :=
  Some (JObj [("jsonrpc", JStr "2.0"); ("id", JInt 7); ("method", JStr method); ("params", JObj params)]).

Definition call_postgres : option json :=
  rpc "tools/call" [("name", JStr "postgres-mcp"); ("arguments", JObj [("sql", JStr "select 1")])].

Definition post (body : option json) (agent : TokenPayload) : outcome http_response * sys locals :=
  mcp_endpoint demo_gateway demo_w (λ _ t, t) body agent quiet_start.

Definition reader_token : TokenPayload :=
  {| t_agent_id := "acme::user::mario"; t_org := "acme"; t_scope := [MCP_TOOLS_LIST; "erp.read"];
     t_principal_type := "user" |}.

Example mcp_answers :
  (match (post call_postgres mario_token).1 with Ret r => content r | Raise _ => None end,
   event_type <$> l_table (services (post call_postgres mario_token).2),
   result <$> l_table (services (post call_postgres bot_token).2),
   result <$> l_table (services (post (rpc "tools/list" []) mario_token).2),
   ran (post call_postgres bot_token).2)
  = (Some (_rpc_result (JInt 7) (JObj [("content", JList []); ("isError", JBool false)])),
     ["resource_call"], ["denied"], ["denied"], []).
Proof. vm_compute. reflexivity. Qed.

Lemma endpoint_speaks_jsonrpc_witness :
  ∃ resp s' j, post call_postgres bot_token = (Ret resp, s') ∧ content resp = Some j ∧
    response_to (JInt 7) j.
Proof.
  destruct (post call_postgres bot_token) as [[resp|e] s'] eqn:Hp.
  2: { exfalso. assert (is_ret (post call_postgres bot_token).1 = true) as Hr by (vm_compute; reflexivity).
       by rewrite Hp in Hr. }
  pose proof (endpoint_speaks_jsonrpc demo_gateway demo_w (λ _ t, t) call_postgres bot_token
    quiet_start resp s' Hp) as Hs.
  assert (match (post call_postgres bot_token).1 with
          | Ret r => is_some (content r) | Raise _ => false end = true) as Hc by (vm_compute; reflexivity).
  rewrite Hp in Hc. cbn [fst] in Hc. destruct (content resp) as [j|] eqn:Hj; [|done].
  exists resp, s', j. destruct Hs as [Hs _]. done.
Defined.

Lemma listing_exact_witness :
  ∃ tds, (post (rpc "tools/list" []) reader_token).1
      = Ret (ok (_rpc_result (JInt 7) (JObj [("tools", JList (tool_entry <$> tds))]))) ∧
    postgres ∈ tds.
Proof.
  destruct (_handle_tools_list demo_gateway demo_w (JInt 7) reader_token quiet_start) as [[j|e] s'] eqn:Hl.
  2: { exfalso. assert (is_ret (_handle_tools_list demo_gateway demo_w (JInt 7) reader_token quiet_start).1 = true)
         as Hr by (vm_compute; reflexivity). by rewrite Hl in Hr. }
  assert (MCP_TOOLS_LIST ∈ t_scope reader_token) as Hs by left.
  destruct (listing_exact demo_gateway demo_w (λ _ t, t) (JInt 7) reader_token quiet_start j s' Hs Hl)
    as (_ & table & tds & Hb & -> & Hiff).
  exists tds. split.
  - change ((bind (_handle_tools_list demo_gateway demo_w (JInt 7) reader_token)
      (λ j, ret (ok j)) quiet_start).1 = Ret (ok (_rpc_result (JInt 7)
        (JObj [("tools", JList (tool_entry <$> tds))])))).
    unfold bind. by rewrite Hl.
  - apply Hiff. split.
    { assert (list_tools (registry demo_gateway) !! 1%nat = Some postgres) as Hi by (vm_compute; reflexivity).
      exact (list_elem_of_lookup_2 _ _ _ Hi). }
    injection Hb as <-. vm_compute. reflexivity.
Defined.

Lemma endpoint_starts_only_authorised_witness :
  ran (post call_postgres mario_token).2 = ["postgres-mcp"] ∧
  ∃ td, registry_get "postgres-mcp" (registry demo_gateway) = Some td ∧
    authorised demo_gateway {| tool := "postgres-mcp"; parameters := JObj [("sql", JStr "select 1")] |}
      mario_token td.
Proof.
  assert (ran (post call_postgres mario_token).2 = ["postgres-mcp"]) as Hr by (vm_compute; reflexivity).
  split; [done|].
  destruct (endpoint_starts_only_authorised demo_gateway demo_w (λ _ t, t) call_postgres mario_token
    quiet_start) as (b & params & Hb & _ & Hp & (n & arguments & td & Hn & Hargs & _ & _ & Hg & Ha)).
  { change (ran (post call_postgres mario_token).2 ≠ []). by rewrite Hr. }
  injection Hb as <-. injection Hp as <-. injection Hn as <-. injection Hargs as <-.
  by exists td.
Defined.
