(* ===== verification/Middleware.v ===== *)
(** * Admission of requests

    The ASGI middlewares every request passes before a handler runs, in the
    order [main.py] registers them: [middleware/limit_request_body.py],
    [strip_x_cullis_headers.py], [global_rate_limit.py] and
    [db_latency_circuit_breaker.py] with the latency windows of
    [observability/db_latency.py] it reads.

    Floats are rationals: the clock [time.monotonic()] in seconds, latencies
    in milliseconds, rates and fractions; rounding is not modelled.  Header
    names and values are bytes. *)

From S2P Require Import Prelude Json.
From Stdlib Require Import QArith Qround Qminmax Lqa.

Open Scope Q_scope.

(** [a < b] on floats. *)
Definition Qltb (a b : Q) : bool := negb (Qle_bool b a).

(** ** Requests and answers *)

Record request := {
  scope_type : string;
  path : string;                        (* scope.get("path", "") *)
  headers : list (string * string);
}.

Record response := {
  response_status : Z;
  response_headers : list (string * string);
  response_body : string;
}.

(** What a middleware does with a request: hand it on, or answer it. *)
Inductive handling :=
| Forward (r : request)
| Answer (resp : response).

Definition bypassed (prefixes : list string) (p : string) : bool := existsb (startswith p) prefixes.

Definition json_body (fields : list (string * json)) : string := dumps_plain (JObj fields).

Definition reply (status : Z) (extra : list (string * string)) (body : string) : handling :=
  Answer {| response_status := status;
            response_headers := [("content-type", "application/json");
                                 ("content-length", pretty (Z.of_nat (String.length body)))] ++ extra;
            response_body := body |}.

(** ** The size of the body *)

Module BodyLimit.

Definition _SIZE_BYPASS_PREFIXES : list string :=
  ["/health"; "/healthz"; "/readyz"; "/metrics"; "/.well-known/"].

Definition _oversize_body (ceiling : Z) : string :=
  json_body [("detail", JStr ("Request body exceeds the per-request size limit of "
                              +:+ pretty ceiling +:+ " bytes."));
             ("error", JStr "request_body_too_large")].

(** The first [Content-Length] header; [None] also when it is no number. *)
Fixpoint declared (headers : list (string * string)) : option Z :=
  match headers with
  | [] => None
  | (name, value) :: rest =>
      if bool_decide (lower name = "content-length")
      then if is_ascii value then int_of_str value else None
      else declared rest
  end.

Definition oversize (max_bytes : Z) (r : request) : bool :=
  match declared (headers r) with Some n => (max_bytes <? n)%Z | None => false end.

(** The second component is [_rejected_count]. *)
Definition limit_request_body (max_bytes : Z) (r : request) (rejected : Z) : handling * Z :=
  if negb (bool_decide (scope_type r = "http")) then (Forward r, rejected)
  else if bypassed _SIZE_BYPASS_PREFIXES (path r) then (Forward r, rejected)
  else if oversize max_bytes r then
    (reply 413 [("x-cullis-shed-reason", "request_body_too_large")] (_oversize_body max_bytes),
     (rejected + 1)%Z)
  else (Forward r, rejected).

(** [LimitRequestBodyMiddleware(app, max_bytes)] *)
Definition make (max_bytes : Z) : outcome Z :=
  if (max_bytes <=? 0)%Z then Raise ValueError else Ret max_bytes.

End BodyLimit.

(** ** The [X-Cullis-*] headers *)

Definition _PREFIX : string := "x-cullis-".

Definition _ALLOWLIST : list string :=
  ["x-cullis-session-token"; "x-cullis-on-behalf-of-user"; "x-cullis-device-attestation";
   "x-cullis-integration-signature"].

Definition stripped (name : string) : bool :=
  startswith (lower name) _PREFIX && negb (bool_decide (lower name ∈ _ALLOWLIST)).

Definition strip_x_cullis_headers (r : request) : handling :=
  if negb (bool_decide (scope_type r = "http")) then Forward r
  else Forward {| scope_type := scope_type r; path := path r;
                  headers := List.filter (λ h, negb (stripped (fst h))) (headers r) |}.

(** ** The token bucket *)

Record bucket := { rate : Q; burst : Q; tokens : Q; last_refill : Q }.

Definition make_bucket (rate_per_sec : Q) (burst_size : Z) (now : Q) : outcome bucket :=
  if Qle_bool rate_per_sec 0 || (burst_size <=? 0)%Z then Raise ValueError
  else Ret {| rate := rate_per_sec; burst := inject_Z burst_size; tokens := inject_Z burst_size;
              last_refill := now |}.

Definition refill (now : Q) (b : bucket) : bucket :=
  let elapsed := now - last_refill b in
  if Qltb 0 elapsed
  then {| rate := rate b; burst := burst b;
          tokens := Qmin (burst b) (tokens b + elapsed * rate b); last_refill := now |}
  else b.

Definition try_acquire (now cost : Q) (b : bucket) : bool * bucket :=
  let b := refill now b in
  if Qle_bool cost (tokens b)
  then (true, {| rate := rate b; burst := burst b; tokens := tokens b - cost;
                 last_refill := last_refill b |})
  else (false, b).

Definition _BYPASS_PREFIXES : list string := ["/health"; "/metrics"; "/.well-known/"].

Definition _SHED_BODY : string :=
  json_body [("detail", JStr "Mastio is shedding load — retry shortly");
             ("error", JStr "global_rate_limit_exceeded")].

Record limiter := { shared_bucket : bucket; shed_count : Z }.

Definition global_rate_limit (now : Q) (r : request) (l : limiter) : handling * limiter :=
  if negb (bool_decide (scope_type r = "http")) then (Forward r, l)
  else if bypassed _BYPASS_PREFIXES (path r) then (Forward r, l)
  else
    let '(ok, b) := try_acquire now 1 (shared_bucket l) in
    if ok then (Forward r, {| shared_bucket := b; shed_count := shed_count l |})
    else (reply 503 [("retry-after", "1"); ("x-cullis-shed-reason", "global_rate_limit")] _SHED_BODY,
          {| shared_bucket := b; shed_count := (shed_count l + 1)%Z |}).

(** ** Latency windows *)

(** [while d and d[0].ts < cutoff: d.popleft()] *)
Fixpoint trim {A} (ts : A → Q) (cutoff : Q) (l : list A) : list A :=
  match l with
  | x :: rest => if Qltb (ts x) cutoff then trim ts cutoff rest else l
  | [] => []
  end.

Record LatencySample := { ts : Q; latency_ms : Q }.

Record ring_buffer := { window_s : Q; samples : list LatencySample }.

Definition trim_samples (now : Q) (b : ring_buffer) : ring_buffer :=
  {| window_s := window_s b; samples := trim ts (now - window_s b) (samples b) |}.

Definition record_latency (now latency : Q) (b : ring_buffer) : ring_buffer :=
  trim_samples now
    {| window_s := window_s b; samples := samples b ++ [{| ts := now; latency_ms := latency |}] |}.

#[export] Instance Qle_decision : RelDecision Qle.
Proof. intros a b. destruct (Qlt_le_dec b a); [right|left]; [by apply Qlt_not_le|done]. Defined.
#[export] Instance Qle_total : Total Qle.
Proof. intros a b. destruct (Qlt_le_dec b a); [right|left]; [by apply Qlt_le_weak|done]. Qed.
#[export] Instance Qle_transitive : Transitive Qle.
Proof. intros a b c. apply Qle_trans. Qed.

Definition _percentile (values : list Q) (pct : Q) : Q :=
  match values with
  | [] => 0
  | _ =>
      let vs := merge_sort Qle values in
      let n := Z.of_nat (length vs) in
      let idx := Z.min (n - 1) (Z.max 0 (Qfloor (inject_Z n * pct) - 1)) in
      default 0 (vs !! Z.to_nat idx)
  end.

Definition _MIN_SAMPLES_FOR_P99 : nat := 3.

(** The trim is the only effect. *)
Definition p99_or_none (now : Q) (b : ring_buffer) : option Q * ring_buffer :=
  let b := trim_samples now b in
  let values := latency_ms <$> samples b in
  (if (length values <? _MIN_SAMPLES_FOR_P99)%nat then None else Some (_percentile values (99 # 100)), b).

(** What the probe records: its own time, or ten seconds when it failed or
    timed out. *)
Definition probe_once (started now : Q) (completed : bool) (b : ring_buffer) : ring_buffer :=
  record_latency now (if completed then (now - started) * 1000 else 10000) b.

Record tracker := { probe_buffer : ring_buffer; passive_buffer : ring_buffer }.

(** [max(ready) if ready else None] *)
Definition effective (probe passive : option Q) : option Q :=
  match probe, passive with
  | Some p, Some q => Some (if Qltb p q then q else p)
  | Some p, None => Some p
  | None, q => q
  end.

(** The third component of [tracker.p99_ms()]. *)
Definition p99_ms (now : Q) (t : tracker) : option Q * tracker :=
  let '(probe, pb) := p99_or_none now (probe_buffer t) in
  let '(passive, qb) := p99_or_none now (passive_buffer t) in
  (effective probe passive, {| probe_buffer := pb; passive_buffer := qb |}).

(** ** The latency circuit breaker *)

Record thresholds := { activation_ms : Q; deactivation_ms : Q; max_shed_fraction : Q }.

Record breaker := {
  limits : thresholds;
  is_shedding : bool;
  shed_total : Z;
  shed_timestamps : list Q;
}.

(** [CircuitBreakerState(...)] *)
Definition make_breaker (t : thresholds) : outcome breaker :=
  if Qle_bool (activation_ms t) (deactivation_ms t) then Raise ValueError
  else if negb (Qltb 0 (max_shed_fraction t) && Qle_bool (max_shed_fraction t) 1)
  then Raise ValueError
  else Ret {| limits := t; is_shedding := false; shed_total := 0; shed_timestamps := [] |}.

Definition update_state (p99 : Q) (b : breaker) : breaker :=
  {| limits := limits b;
     is_shedding :=
       if is_shedding b then negb (Qltb p99 (deactivation_ms (limits b)))
       else Qltb (activation_ms (limits b)) p99;
     shed_total := shed_total b; shed_timestamps := shed_timestamps b |}.

Definition _ENTRY_SHED_FRACTION : Q := 1 # 10.
Definition _SATURATION_MULTIPLIER : Q := 3.
Definition _SHED_WINDOW_S : Q := 60.

Definition shed_fraction (p99 : Q) (t : thresholds) : Q :=
  if Qle_bool p99 (activation_ms t) then _ENTRY_SHED_FRACTION
  else
    let saturation_ms := activation_ms t * _SATURATION_MULTIPLIER in
    if Qle_bool saturation_ms p99 then max_shed_fraction t
    else
      let ratio := (p99 - activation_ms t) / (saturation_ms - activation_ms t) in
      _ENTRY_SHED_FRACTION + ratio * (max_shed_fraction t - _ENTRY_SHED_FRACTION).

Definition record_shed (now : Q) (b : breaker) : breaker :=
  {| limits := limits b; is_shedding := is_shedding b; shed_total := (shed_total b + 1)%Z;
     shed_timestamps := trim (λ t, t) (now - _SHED_WINDOW_S) (shed_timestamps b ++ [now]) |}.

Definition shed_count_last_60s (now : Q) (b : breaker) : nat * breaker :=
  let kept := trim (λ t, t) (now - _SHED_WINDOW_S) (shed_timestamps b) in
  (length kept, {| limits := limits b; is_shedding := is_shedding b; shed_total := shed_total b;
                   shed_timestamps := kept |}).

Definition _BREAKER_BODY : string :=
  json_body [("detail", JStr "DB latency high — circuit breaker shedding, retry shortly");
             ("error", JStr "db_latency_circuit_breaker_open")].

(** [app.state.db_latency_tracker] and [db_latency_cb_state], absent until the
    lifespan has set them. *)
Record app_state := { db_latency_tracker : option tracker; db_latency_cb_state : option breaker }.

(** [draw] is [rng.random()]. *)
Definition db_latency_breaker (now draw : Q) (r : request) (a : app_state) : handling * app_state :=
  if negb (bool_decide (scope_type r = "http")) then (Forward r, a)
  else if bypassed _BYPASS_PREFIXES (path r) then (Forward r, a)
  else
    match db_latency_tracker a, db_latency_cb_state a with
    | Some t, Some b =>
        let '(p99, t) := p99_ms now t in
        let with_breaker b := {| db_latency_tracker := Some t; db_latency_cb_state := Some b |} in
        match p99 with
        | None => (Forward r, with_breaker b)
        | Some p99 =>
            let b := update_state p99 b in
            if negb (is_shedding b) then (Forward r, with_breaker b)
            else if Qle_bool (shed_fraction p99 (limits b)) draw then (Forward r, with_breaker b)
            else (reply 503 [("retry-after", "5");
                             ("x-cullis-shed-reason", "db_latency_circuit_breaker")] _BREAKER_BODY,
                  with_breaker (record_shed now b))
        end
    | _, _ => (Forward r, a)
    end.

(** ** The stack

    The last middleware registered runs first. *)

Record gates := { rejected_count : Z; rate_limiter : limiter; latency : app_state }.

(** Everything after the size check. *)
Definition past_size (now draw : Q) (r : request) (g : gates) : handling * gates :=
  match strip_x_cullis_headers r with
  | Answer resp => (Answer resp, g)
  | Forward r =>
      let '(h, l) := global_rate_limit now r (rate_limiter g) in
      let g := {| rejected_count := rejected_count g; rate_limiter := l; latency := latency g |} in
      match h with
      | Answer _ => (h, g)
      | Forward r =>
          let '(h, a) := db_latency_breaker now draw r (latency g) in
          (h, {| rejected_count := rejected_count g; rate_limiter := rate_limiter g; latency := a |})
      end
  end.

Definition through_stack (max_request_body_bytes : Z) (now draw : Q) (r : request) (g : gates)
    : handling * gates :=
  let '(h, rejected) :=
    if (0 <? max_request_body_bytes)%Z
    then BodyLimit.limit_request_body max_request_body_bytes r (rejected_count g)
    else (Forward r, rejected_count g) in
  let g := {| rejected_count := rejected; rate_limiter := rate_limiter g; latency := latency g |} in
  match h with Answer _ => (h, g) | Forward r => past_size now draw r g end.

(** ** The bucket *)

Lemma Qltb_spec a b : Qltb a b = true ↔ a < b.
Proof.
  unfold Qltb. rewrite negb_true_iff, <- not_true_iff_false, Qle_bool_iff.
  split; [apply Qnot_le_lt|apply Qlt_not_le].
Qed.

Lemma Qltb_false a b : Qltb a b = false ↔ b <= a.
Proof. unfold Qltb. by rewrite negb_false_iff, Qle_bool_iff. Qed.

Lemma Qle_bool_false a b : Qle_bool a b = false ↔ b < a.
Proof. rewrite <- Qltb_spec. unfold Qltb. by rewrite negb_true_iff. Qed.

(** Comparisons of rationals to propositions. *)
Ltac qbools :=
  repeat match goal with
  | H : Qltb _ _ = true |- _ => apply Qltb_spec in H
  | H : Qltb _ _ = false |- _ => apply Qltb_false in H
  | H : Qle_bool _ _ = true |- _ => apply Qle_bool_iff in H
  | H : Qle_bool _ _ = false |- _ => apply Qle_bool_false in H
  end.

Record bucket_ok (b : bucket) : Prop := {
  rate_pos : 0 < rate b;
  burst_pos : 0 < burst b;
  tokens_lo : 0 <= tokens b;
  tokens_hi : tokens b <= burst b;
}.

Definition same_limits (b b' : bucket) : Prop := rate b' = rate b ∧ burst b' = burst b.

Lemma refill_spec now b :
  bucket_ok b → last_refill b <= now →
  bucket_ok (refill now b) ∧ same_limits b (refill now b) ∧ last_refill (refill now b) == now ∧
  tokens (refill now b) == Qmin (burst b) (tokens b + (now - last_refill b) * rate b).
Proof.
  intros [] Hle. unfold refill. destruct (Qltb 0 (now - last_refill b)) eqn:Hlt; qbools.
  - split; [|done]. assert (0 <= (now - last_refill b) * rate b) by nra. split; simpl; try done.
    + apply Q.min_glb; lra.
    + apply Q.le_min_l.
  - assert (now - last_refill b == 0) as -> by lra. split; [done|]. split; [done|]. split; [lra|].
    rewrite Q.min_r; lra.
Qed.

Lemma try_acquire_spec now cost b :
  bucket_ok b → 0 <= cost → last_refill b <= now →
  let '(granted, b') := try_acquire now cost b in
  bucket_ok b' ∧ same_limits b b' ∧ last_refill b' == now ∧
  (granted = true ↔ cost <= Qmin (burst b) (tokens b + (now - last_refill b) * rate b)) ∧
  tokens b' == Qmin (burst b) (tokens b + (now - last_refill b) * rate b)
               - (if granted then cost else 0).
Proof.
  intros Hok Hcost Hle. destruct (refill_spec now b Hok Hle) as (Hok' & [Hr Hb] & Hlast & Htok).
  unfold try_acquire. destruct (Qle_bool cost (tokens (refill now b))) eqn:Hc; qbools;
    rewrite Htok in Hc.
  - split; [destruct Hok'; split; simpl; lra|]. repeat split; simpl; try done. by rewrite Htok.
  - split; [done|]. repeat split; try done; [|lra]. intros Hge. lra.
Qed.

(** ** One request through the stack *)

Definition forwarded (h : handling) : bool := match h with Forward _ => true | Answer _ => false end.

(** A request the shared limits apply to. *)
Definition metered (r : request) : bool :=
  bool_decide (scope_type r = "http") && negb (bypassed _BYPASS_PREFIXES (path r)).

Lemma limiter_same now r l r' l' : global_rate_limit now r l = (Forward r', l') → r' = r.
Proof. unfold global_rate_limit. intros H. cases; congruence. Qed.

Lemma breaker_same now draw r a r' a' : db_latency_breaker now draw r a = (Forward r', a') → r' = r.
Proof. unfold db_latency_breaker. intros H. cases; congruence. Qed.

(** What is handed on past the size check is the stripped request. *)
Lemma past_size_same now draw r g kept r' g' :
  strip_x_cullis_headers r = Forward kept → past_size now draw r g = (Forward r', g') → r' = kept.
Proof.
  unfold past_size. intros ->.
  destruct (global_rate_limit now kept _) as [[r1|] l] eqn:Hl; [|done].
  destruct (db_latency_breaker now draw r1 _) as [[r2|] a] eqn:Hd; [|done].
  intros [= <- <-]. apply breaker_same in Hd as ->. by apply limiter_same in Hl.
Qed.

(** The size check: the request itself goes on, or a 413 is the answer. *)
Lemma size_checked max r n h n' :
  (if (0 <? max)%Z then BodyLimit.limit_request_body max r n else (Forward r, n)) = (h, n') →
  (h = Forward r ∧ n' = n ∧ (scope_type r = "http" → (0 < max)%Z →
     bypassed BodyLimit._SIZE_BYPASS_PREFIXES (path r) = false → BodyLimit.oversize max r = false)) ∨
  (scope_type r = "http" ∧ bypassed BodyLimit._SIZE_BYPASS_PREFIXES (path r) = false ∧
   h = reply 413 [("x-cullis-shed-reason", "request_body_too_large")] (BodyLimit._oversize_body max)).
Proof.
  unfold BodyLimit.limit_request_body. destruct (Z.ltb_spec 0 max) as [Hpos|Hneg].
  2: { intros [= <- <-]. left. split_and!; try done. intros ?. lia. }
  destruct (bool_decide (scope_type r = "http")) eqn:Hhttp; bools; cbn [negb].
  2: { intros [= <- <-]. by left. }
  destruct (bypassed _ _); [intros [= <- <-]; by left|].
  destruct (BodyLimit.oversize max r); intros [= <- <-]; [by right|by left].
Qed.

Abbreviation bucket_of g := (shared_bucket (rate_limiter g)).

(** What the stack does to the bucket. *)
Lemma admit_bucket max now draw r g :
  let '(h, g') := through_stack max now draw r g in
  (bucket_of g' = bucket_of g ∧ (metered r = false ∨ forwarded h = false)) ∨
  (metered r = true ∧ bucket_of g' = (try_acquire now 1 (bucket_of g)).2 ∧
   (forwarded h = true → (try_acquire now 1 (bucket_of g)).1 = true)).
Proof.
  unfold through_stack. destruct (if (0 <? max)%Z then _ else _) as [h rejected] eqn:Hlimit.
  apply size_checked in Hlimit as [(-> & _)|(_ & _ & ->)]; [|left; by split; [|right]].
  unfold past_size.
  unfold strip_x_cullis_headers, metered, global_rate_limit.
  destruct (bool_decide (scope_type r = "http")) eqn:Hhttp; cbn [negb scope_type path andb].
  2: { rewrite Hhttp. cbn [negb]. destruct (db_latency_breaker _ _ _ _) as [h a]. cbn. left. by split; [|left]. }
  rewrite Hhttp. cbn [negb]. destruct (bypassed _BYPASS_PREFIXES (path r)) eqn:Hby; cbn [negb].
  { destruct (db_latency_breaker _ _ _ _) as [h a]. cbn. left. by split; [|left]. }
  cbn [rate_limiter]. destruct (try_acquire now 1 (bucket_of g)) as [[] b] eqn:Hacq.
  - destruct (db_latency_breaker _ _ _ _) as [h a]. by right.
  - by right.
Qed.

(** ** Runs of the stack *)

Record arrival := { arrives : Q; drawn : Q; wants : request }.

(** Every arrival with what the stack did to it. *)
Fixpoint admit_all (max : Z) (l : list arrival) (g : gates) : list (arrival * handling) * gates :=
  match l with
  | [] => ([], g)
  | x :: rest =>
      let '(h, g1) := through_stack max (arrives x) (drawn x) (wants x) g in
      let '(done, g2) := admit_all max rest g1 in
      ((x, h) :: done, g2)
  end.

Fixpoint clocked (now : Q) (l : list arrival) : Prop :=
  match l with
  | [] => True
  | x :: rest => now <= arrives x ∧ clocked (arrives x) rest
  end.

(** A metered request that reached the handlers between two instants. *)
Definition served_in (from to : Q) (xh : arrival * handling) : bool :=
  forwarded (snd xh) && metered (wants (fst xh)) && Qle_bool from (arrives (fst xh))
  && Qle_bool (arrives (fst xh)) to.

Definition served_between (from to : Q) (l : list (arrival * handling)) : Q :=
  inject_Z (Z.of_nat (length (List.filter (served_in from to) l))).

(** The tokens a request arriving at [t] finds. *)
Definition available (t : Q) (b : bucket) : Q :=
  Qmin (burst b) (tokens b + (t - last_refill b) * rate b).

Lemma available_lo t b : bucket_ok b → last_refill b <= t → 0 <= available t b.
Proof. intros [] Hle. unfold available. apply Q.min_glb; nra. Qed.

Lemma available_later t t' b :
  bucket_ok b → t <= t' → available t' b <= available t b + rate b * (t' - t).
Proof.
  intros [] Hle. unfold available.
  destruct (Q.min_spec (burst b) (tokens b + (t - last_refill b) * rate b)) as [[_ ->]|[_ ->]].
  - pose proof (Q.le_min_l (burst b) (tokens b + (t' - last_refill b) * rate b)). nra.
  - pose proof (Q.le_min_r (burst b) (tokens b + (t' - last_refill b) * rate b)). nra.
Qed.

Lemma available_now t b : bucket_ok b → last_refill b == t → available t b == tokens b.
Proof.
  intros [] Heq. unfold available. assert (t - last_refill b == 0) as -> by lra. rewrite Q.min_r; lra.
Qed.

(** One arrival takes at most what it finds, and a served one takes a token. *)
Lemma admit_step max t draw r g :
  bucket_ok (bucket_of g) → last_refill (bucket_of g) <= t →
  let '(h, g') := through_stack max t draw r g in
  bucket_ok (bucket_of g') ∧ same_limits (bucket_of g) (bucket_of g') ∧
  last_refill (bucket_of g') <= t ∧
  available t (bucket_of g') <= available t (bucket_of g)
    - (if forwarded h && metered r then 1 else 0).
Proof.
  intros Hok Hle. pose proof (admit_bucket max t draw r g) as Hstep.
  destruct (through_stack max t draw r g) as [h g']. destruct Hstep as [[-> Hno]|(Hm & -> & Hyes)].
  { split_and!; try done. destruct Hno as [-> | ->]; [rewrite andb_false_r|]; cbn; lra. }
  pose proof (try_acquire_spec t 1 (bucket_of g) Hok ltac:(lra) Hle) as Hspec.
  destruct (try_acquire t 1 (bucket_of g)) as [granted b]. cbn [fst snd] in *.
  destruct Hspec as (Hok' & Hsame & Hlast & _ & Htok).
  split_and!; try done; [by rewrite Hlast; apply Qle_refl|].
  rewrite (available_now t b), Htok, Hm, andb_true_r by done.
  destruct (forwarded h); [rewrite Hyes by done; apply Qle_refl|]. destruct granted; cbn; unfold available; lra.
Qed.

Lemma served_cons from to xh l :
  served_between from to (xh :: l)
    == (if served_in from to xh then 1 else 0) + served_between from to l.
Proof.
  unfold served_between. cbn [List.filter]. destruct (served_in from to xh); [|lra].
  cbn [length]. rewrite Nat2Z.inj_succ, <- Z.add_1_l, inject_Z_plus. change (inject_Z 1) with 1. lra.
Qed.

Lemma served_nil from to : served_between from to [] == 0.
Proof. done. Qed.

(** A request after the window is not in it. *)
Lemma served_late max from to now l g :
  clocked now l → to < now → served_between from to (admit_all max l g).1 == 0.
Proof.
  revert now g. induction l as [|x l IH]; intros now g Hclk Hlt; [done|].
  destruct Hclk as [Hnow Hclk]. cbn [admit_all]. destruct (through_stack _ _ _ _ g) as [h g1].
  specialize (IH _ g1 Hclk ltac:(lra)). destruct (admit_all max l g1) as [done g2].
  cbn [fst snd] in *. rewrite served_cons, IH. destruct (served_in from to (x, h)) eqn:Hin; [|lra].
  unfold served_in in Hin. cbn in Hin. bools. qbools. lra.
Qed.

Lemma served_bounded max from to now l g :
  clocked now l → now <= to → bucket_ok (bucket_of g) → last_refill (bucket_of g) <= now →
  served_between from to (admit_all max l g).1
    <= available now (bucket_of g) + rate (bucket_of g) * (to - now).
Proof.
  revert now g. induction l as [|x l IH]; intros now g Hclk Hto Hok Hlast.
  { pose proof (available_lo now _ Hok Hlast). pose proof (rate_pos _ Hok).
    cbn [admit_all fst]. rewrite served_nil. nra. }
  destruct Hclk as [Hnow Hclk]. cbn [admit_all].
  pose proof (available_later now (arrives x) _ Hok Hnow) as Hlater.
  pose proof (admit_step max (arrives x) (drawn x) (wants x) g Hok ltac:(lra)) as Hstep.
  destruct (through_stack _ _ _ _ g) as [h g1]. destruct Hstep as (Hok1 & [Hr Hb] & Hlast1 & Hav).
  destruct (Qlt_le_dec to (arrives x)) as [Hpast|Hin].
  - pose proof (served_late max from to _ l g1 Hclk Hpast) as Hnone.
    destruct (admit_all max l g1) as [done g2]. cbn [fst] in *. rewrite served_cons, Hnone.
    assert (served_in from to (x, h) = false) as ->.
    { apply not_true_iff_false. unfold served_in. cbn. intros ?. bools. qbools. lra. }
    pose proof (available_lo now _ Hok Hlast). pose proof (rate_pos _ Hok). nra.
  - specialize (IH _ g1 Hclk Hin Hok1 Hlast1). rewrite Hr in IH.
    destruct (admit_all max l g1) as [done g2]. cbn [fst] in *. rewrite served_cons.
    assert ((if served_in from to (x, h) then 1 else 0)
            <= (if forwarded h && metered (wants x) then 1 else 0)).
    { unfold served_in. cbn. destruct (forwarded h), (metered (wants x)); cbn;
        repeat case_match; lra. }
    lra.
Qed.

Lemma window_bounded max from to now l g :
  clocked now l → from <= to → bucket_ok (bucket_of g) → last_refill (bucket_of g) <= now →
  served_between from to (admit_all max l g).1
    <= burst (bucket_of g) + rate (bucket_of g) * (to - from).
Proof.
  revert now g. induction l as [|x l IH]; intros now g Hclk Hft Hok Hlast.
  { pose proof (rate_pos _ Hok). pose proof (burst_pos _ Hok).
    cbn [admit_all fst]. rewrite served_nil. nra. }
  destruct Hclk as [Hnow Hclk]. destruct (Qlt_le_dec (arrives x) from) as [Hearly|Hfrom].
  - pose proof (admit_step max (arrives x) (drawn x) (wants x) g Hok ltac:(lra)) as Hstep.
    cbn [admit_all]. destruct (through_stack _ _ _ _ g) as [h g1].
    destruct Hstep as (Hok1 & [Hr Hb] & Hlast1 & _).
    specialize (IH _ g1 Hclk Hft Hok1 Hlast1). rewrite Hr, Hb in IH.
    destruct (admit_all max l g1) as [done g2]. cbn [fst] in *. rewrite served_cons.
    assert (served_in from to (x, h) = false) as ->; [|lra].
    apply not_true_iff_false. unfold served_in. cbn. intros ?. bools. qbools. lra.
  - destruct (Qlt_le_dec to (arrives x)) as [Hpast|Hin].
    + rewrite (served_late max from to (arrives x) (x :: l) g (conj (Qle_refl _) Hclk) Hpast).
      pose proof (rate_pos _ Hok). pose proof (burst_pos _ Hok). nra.
    + pose proof (served_bounded max from to (arrives x) (x :: l) g
        (conj (Qle_refl _) Hclk) Hin Hok ltac:(lra)) as Hb.
      pose proof (Q.le_min_l (burst (bucket_of g)) (tokens (bucket_of g)
        + (arrives x - last_refill (bucket_of g)) * rate (bucket_of g))) as Hmin.
      fold (available (arrives x) (bucket_of g)) in Hmin. pose proof (rate_pos _ Hok). nra.
Qed.

(** The limiter's answer. *)
Definition rate_shed (h : handling) : bool :=
  match h with
  | Forward _ => false
  | Answer resp =>
      existsb (λ kv, bool_decide (fst kv = "x-cullis-shed-reason")
                     && bool_decide (snd kv = "global_rate_limit")) (response_headers resp)
  end.

Lemma admit_not_shed max t draw r g :
  bucket_ok (bucket_of g) → last_refill (bucket_of g) <= t →
  (metered r = true → 1 <= available t (bucket_of g)) →
  rate_shed (through_stack max t draw r g).1 = false.
Proof.
  intros Hok Hle Hav. unfold through_stack.
  destruct (if (0 <? max)%Z then _ else _) as [h rejected] eqn:Hlimit.
  apply size_checked in Hlimit as [(-> & _)|(_ & _ & ->)]; [|done]. unfold past_size.
  assert (∀ r' a, rate_shed (db_latency_breaker t draw r' a).1 = false) as Hbreaker.
  { intros r' a. unfold db_latency_breaker, reply. cases; done. }
  unfold strip_x_cullis_headers, metered, global_rate_limit in *.
  destruct (bool_decide (scope_type r = "http")) eqn:Hhttp; cbn [negb scope_type path andb] in *;
    rewrite Hhttp; cbn [negb]; [destruct (bypassed _BYPASS_PREFIXES (path r)) eqn:Hby; cbn [negb] in *|].
  2: { cbn [rate_limiter]. pose proof (try_acquire_spec t 1 (bucket_of g) Hok ltac:(lra) Hle) as Hspec.
       destruct (try_acquire t 1 (bucket_of g)) as [granted b]. destruct Hspec as (_ & _ & _ & Hg & _).
       unfold available in Hav. rewrite (proj2 Hg) by by apply Hav.
       specialize (Hbreaker {| scope_type := scope_type r; path := path r;
          headers := List.filter (λ h, negb (stripped (fst h))) (headers r) |} (latency g)).
       cbn [latency]. by destruct (db_latency_breaker _ _ _ _). }
  all: cbn [rate_limiter latency]; match goal with |- context [db_latency_breaker _ _ ?r' ?a] =>
         specialize (Hbreaker r' a) end; by destruct (db_latency_breaker _ _ _ _).
Qed.

(** Metered requests at least [1 / r] seconds apart. *)
Fixpoint paced (r last : Q) (l : list arrival) : Prop :=
  match l with
  | [] => True
  | x :: rest =>
      if metered (wants x) then 1 <= (arrives x - last) * r ∧ paced r (arrives x) rest
      else last <= arrives x ∧ paced r last rest
  end.

Lemma paced_spec max l last g :
  bucket_ok (bucket_of g) → 1 <= burst (bucket_of g) → last_refill (bucket_of g) <= last →
  paced (rate (bucket_of g)) last l →
  Forall (λ xh, rate_shed (snd xh) = false) (admit_all max l g).1.
Proof.
  revert last g. induction l as [|x l IH]; intros last g Hok Hburst Hlast Hpaced; [constructor|].
  cbn [admit_all].
  assert (last <= arrives x) as Hle.
  { cbn in Hpaced. pose proof (rate_pos _ Hok). destruct (metered (wants x)); [nra|tauto]. }
  assert (rate_shed (through_stack max (arrives x) (drawn x) (wants x) g).1 = false) as Hshed.
  { apply admit_not_shed; [done|lra|]. intros Hm. cbn in Hpaced. rewrite Hm in Hpaced.
    pose proof (rate_pos _ Hok). pose proof (tokens_lo _ Hok). apply Q.min_glb; [lra|nra]. }
  pose proof (admit_bucket max (arrives x) (drawn x) (wants x) g) as Hstep.
  destruct (through_stack _ _ _ _ g) as [h g1]. cbn [fst] in Hshed.
  assert (bucket_ok (bucket_of g1) ∧ same_limits (bucket_of g) (bucket_of g1) ∧
          last_refill (bucket_of g1) <= (if metered (wants x) then arrives x else last))
    as (Hok1 & [Hr Hb] & Hlast1).
  { destruct Hstep as [[-> _]|(Hm & -> & _)]; [by destruct (metered _); split_and!; try done; lra|].
    pose proof (try_acquire_spec (arrives x) 1 (bucket_of g) Hok ltac:(lra) ltac:(lra)) as Hspec.
    destruct (try_acquire _ 1 _) as [granted b]. destruct Hspec as (? & ? & Heq & _).
    rewrite Hm. split_and!; try done. cbn. by rewrite Heq; apply Qle_refl. }
  specialize (IH (if metered (wants x) then arrives x else last) g1 Hok1).
  rewrite Hr, Hb in IH. specialize (IH Hburst Hlast1). destruct (admit_all max l g1) as [done g2].
  cbn in Hpaced |- *. constructor; [done|]. apply IH. destruct (metered (wants x)); tauto.
Qed.

(** ** Percentiles and hysteresis *)

(** How many samples of the window are slower than [x]. *)
Definition slower (x : Q) (l : list Q) : nat := length (List.filter (Qltb x) l).

Lemma filter_perm_length {A} (f : A → bool) l l' :
  l ≡ₚ l' → length (List.filter f l) = length (List.filter f l').
Proof. induction 1 as [|x ?? _ IH|x y ?|????? IH]; cbn; repeat case_match; cbn; congruence. Qed.

(** The reported value has at least one sample above it in its place. *)
Lemma percentile_second x l :
  (2 <= length l)%nat → (slower x l <= 1)%nat → _percentile l (99 # 100) <= x.
Proof.
  intros Hlen Hslow. unfold _percentile. destruct l as [|v0 l0]; [by cbn in Hlen; lia|].
  set (l := v0 :: l0) in *. set (vs := merge_sort Qle l).
  assert (vs ≡ₚ l) as Hperm by apply merge_sort_Permutation.
  assert (length vs = length l) as Hn by (by rewrite Hperm).
  assert (StronglySorted Qle vs) as Hsort.
  { apply (StronglySorted_merge_sort Qle). }
  set (n := Z.of_nat (length vs)).
  set (i := Z.to_nat (Z.min (n - 1) (Z.max 0 (Qfloor (inject_Z n * (99 # 100)) - 1)))).
  assert (S i < length vs)%nat as Hi.
  { assert (Qfloor (inject_Z n * (99 # 100)) <= n - 1)%Z.
    { cut (Qfloor (inject_Z n * (99 # 100)) < n)%Z; [lia|]. rewrite Zlt_Qlt.
      pose proof (Qfloor_le (inject_Z n * (99 # 100))).
      assert (0 < inject_Z n); [|nra]. change 0 with (inject_Z 0). rewrite <- Zlt_Qlt. subst n. lia. }
    subst i n. lia. }
  destruct (lookup_lt_is_Some_2 vs i ltac:(lia)) as [v Hv].
  destruct (lookup_lt_is_Some_2 vs (S i) Hi) as [w Hw]. rewrite Hv. cbn.
  destruct (Qlt_le_dec x v) as [Hbig|]; [exfalso|done].
  rewrite <- (take_drop i vs), (drop_S vs v i Hv), (drop_S vs w (S i) Hw) in Hsort, Hperm.
  apply StronglySorted_app_1_r in Hsort as [_ Hvw]%StronglySorted_inv.
  apply Forall_cons_1 in Hvw as [Hvw _]. unfold slower in Hslow.
  rewrite <- (filter_perm_length _ _ _ Hperm), List.filter_app, length_app in Hslow. cbn in Hslow.
  rewrite (proj2 (Qltb_spec x v)), (proj2 (Qltb_spec x w)) in Hslow by lra. cbn in Hslow. lia.
Qed.

(** At most one sample of the window at [now] is slower than [x]. *)
Definition one_outlier (x now : Q) (b : ring_buffer) : Prop :=
  (slower x (latency_ms <$> samples (trim_samples now b)) <= 1)%nat.

Lemma p99_outlier x now b p :
  one_outlier x now b → (p99_or_none now b).1 = Some p → p <= x.
Proof.
  unfold one_outlier, p99_or_none. intros Hone.
  destruct (_ <? _)%nat eqn:Hlen; [done|]. intros [= <-]. apply Nat.ltb_ge in Hlen.
  apply percentile_second; [|done]. etrans; [|exact Hlen]. unfold _MIN_SAMPLES_FOR_P99. lia.
Qed.

Lemma effective_le x p q m :
  (∀ v, p = Some v → v <= x) → (∀ v, q = Some v → v <= x) → effective p q = Some m → m <= x.
Proof. intros Hp Hq. unfold effective. intros Hm. cases; auto. Qed.

Lemma update_shedding_iff b l :
  is_shedding b = false →
  deactivation_ms (limits b) < activation_ms (limits b) →
  is_shedding (foldl (λ b p, update_state p b) b l) = true ↔
    ∃ before p after, l = before ++ p :: after ∧ activation_ms (limits b) < p ∧
      Forall (λ q, deactivation_ms (limits b) <= q) after.
Proof.
  intros Hno Hlt. induction l as [|q l IH] using rev_ind.
  - cbn. rewrite Hno. split; [done|]. intros (before & p & after & Heq & _). by destruct before.
  - rewrite foldl_snoc. cbn.
    assert (limits (foldl (λ b p, update_state p b) b l) = limits b) as ->.
    { clear IH. induction l as [|y l IHl] using rev_ind; [done|]. by rewrite foldl_snoc. }
    destruct (is_shedding (foldl _ b l)) eqn:Hs.
    + rewrite negb_true_iff, Qltb_false. destruct IH as [IH _]. specialize (IH eq_refl).
      destruct IH as (before & p & after & -> & Hp & Hall). split.
      * intros Hq. exists before, p, (after ++ [q]). split; [by rewrite <- app_assoc|].
        split; [done|]. apply Forall_app. by split; [|constructor].
      * intros (before' & p' & after' & Heq & Hp' & Hall').
        destruct after' as [|z after' _] using rev_ind.
        -- apply app_inj_tail in Heq as [_ ->]. lra.
        -- rewrite app_comm_cons, app_assoc in Heq. apply app_inj_tail in Heq as [_ ->].
           apply Forall_app in Hall' as [_ Hz]. by apply Forall_cons_1 in Hz as [Hz _].
    + rewrite Qltb_spec. split.
      * intros Hq. by exists l, q, [].
      * intros (before' & p' & after' & Heq & Hp' & Hall').
        destruct after' as [|z after' _] using rev_ind.
        -- by apply app_inj_tail in Heq as [_ ->].
        -- exfalso. rewrite app_comm_cons, app_assoc in Heq. apply app_inj_tail in Heq as [-> ->].
           destruct IH as [_ IH]. apply Forall_app in Hall' as [Hall' _].
           assert (false = true); [|done]. apply IH. by exists before', p', after'.
Qed.

(** ** Properties *)

(** whatever the arrivals, over any interval the stack lets at most
    [burst + rate * length] metered requests through to the handlers. *)
Theorem admitted_rate_bounded max rps size start b l g from to :
  make_bucket rps size start = Ret b → bucket_of g = b →
  clocked start l → from <= to →
  served_between from to (admit_all max l g).1 <= inject_Z size + rps * (to - from).
Proof.
  unfold make_bucket. intros Hmake Hg Hclk Hft. destruct (Qle_bool rps 0) eqn:Hr; [done|].
  destruct (Z.leb_spec size 0) as [|Hs]; [done|]. injection Hmake as <-. qbools.
  assert (0 < inject_Z size) by (change 0 with (inject_Z 0); by rewrite <- Zlt_Qlt).
  pose proof (window_bounded max from to start l g Hclk Hft) as Hw. rewrite Hg in Hw.
  apply Hw; [split; cbn; lra|apply Qle_refl].
Qed.

(** from any state of the bucket, also after an overload, requests that
    keep the configured pace are never answered by the limiter. *)
Theorem paced_requests_served max last l g :
  bucket_ok (bucket_of g) → 1 <= burst (bucket_of g) → last_refill (bucket_of g) <= last →
  paced (rate (bucket_of g)) last l →
  Forall (λ xh, rate_shed (snd xh) = false) (admit_all max l g).1.
Proof. apply paced_spec. Qed.

Lemma bypass_sub p : bypassed _BYPASS_PREFIXES p = true → bypassed BodyLimit._SIZE_BYPASS_PREFIXES p = true.
Proof.
  unfold bypassed. cbn [existsb _BYPASS_PREFIXES BodyLimit._SIZE_BYPASS_PREFIXES].
  destruct (startswith p "/health"), (startswith p "/metrics"), (startswith p "/.well-known/");
    cbn; try done; by rewrite ?orb_true_r.
Qed.

Lemma limiter_bypass now r l :
  bypassed _BYPASS_PREFIXES (path r) = true → global_rate_limit now r l = (Forward r, l).
Proof. unfold global_rate_limit. intros ->. by destruct (negb _). Qed.

Lemma breaker_bypass now draw r a :
  bypassed _BYPASS_PREFIXES (path r) = true → db_latency_breaker now draw r a = (Forward r, a).
Proof. unfold db_latency_breaker. intros ->. by destruct (negb _). Qed.

(** a request that reaches the handlers is the one that arrived without
    its [X-Cullis-*] headers outside the allow-list, everything else
    untouched, and declares no body above the limit.  Health, metrics and key
    paths always reach them, and leave the state of the stack alone. *)
Theorem admitted_request_clean max now draw r g :
  scope_type r = "http" →
  let kept := {| scope_type := "http"; path := path r;
                 headers := List.filter (λ h, negb (stripped (fst h))) (headers r) |} in
  (∀ r' g', through_stack max now draw r g = (Forward r', g') →
     r' = kept ∧
     (bypassed BodyLimit._SIZE_BYPASS_PREFIXES (path r) = false → (0 < max)%Z →
      BodyLimit.oversize max r = false)) ∧
  (bypassed _BYPASS_PREFIXES (path r) = true → through_stack max now draw r g = (Forward kept, g)).
Proof.
  intros Hhttp kept.
  assert (strip_x_cullis_headers r = Forward kept) as Hstrip.
  { unfold strip_x_cullis_headers. by rewrite Hhttp. }
  unfold through_stack. destruct (if (0 <? max)%Z then _ else _) as [h rejected] eqn:Hlimit.
  apply size_checked in Hlimit as [(-> & -> & Hsize)|(_ & Hby & ->)]; split.
  - intros r' g' Hpast. split; [by eapply past_size_same|]. auto.
  - intros Hby. unfold past_size. rewrite Hstrip, limiter_bypass, breaker_bypass by done. by destruct g.
  - done.
  - intros Hb. by rewrite (bypass_sub _ Hb) in Hby.
Qed.

(** one slow query or failed probe per window never opens the breaker: while
    at most one sample of each source is slower than the activation threshold,
    a closed breaker stays closed and the request goes on. *)
Theorem outlier_never_sheds now draw r t b :
  is_shedding b = false →
  one_outlier (activation_ms (limits b)) now (probe_buffer t) →
  one_outlier (activation_ms (limits b)) now (passive_buffer t) →
  let '(h, a) := db_latency_breaker now draw r
    {| db_latency_tracker := Some t; db_latency_cb_state := Some b |} in
  h = Forward r ∧ (is_shedding <$> db_latency_cb_state a) = Some false.
Proof.
  intros Hno Hp Hq. unfold db_latency_breaker.
  destruct (negb _); [by cbn; rewrite Hno|]. destruct (bypassed _ _); [by cbn; rewrite Hno|].
  cbn [db_latency_tracker db_latency_cb_state]. unfold p99_ms.
  destruct (p99_or_none now (probe_buffer t)) as [p pb] eqn:Hpb.
  destruct (p99_or_none now (passive_buffer t)) as [q qb] eqn:Hqb.
  assert (∀ m, effective p q = Some m → m <= activation_ms (limits b)) as Hle.
  { intros m. apply effective_le; intros v ->; [eapply (p99_outlier _ now (probe_buffer t))
      |eapply (p99_outlier _ now (passive_buffer t))]; rewrite ?Hpb, ?Hqb; done. }
  destruct (effective p q) as [m|]; [|by cbn; rewrite Hno].
  assert (is_shedding (update_state m b) = false) as Hu.
  { cbn. rewrite Hno. by apply Qltb_false, Hle. }
  rewrite Hu. split; [done|]. change (Some (is_shedding (update_state m b)) = Some false). by rewrite Hu.
Qed.

(** the hysteresis: the breaker is shedding exactly when the signal has
    exceeded the activation threshold and has not been below the deactivation
    threshold since. *)
Theorem shedding_hysteresis t b signal :
  make_breaker t = Ret b →
  is_shedding (foldl (λ b p, update_state p b) b signal) = true ↔
    ∃ before p after, signal = before ++ p :: after ∧ activation_ms t < p ∧
      Forall (λ q, deactivation_ms t <= q) after.
Proof.
  unfold make_breaker. destruct (Qle_bool _ _) eqn:Hlt; [done|]. destruct (negb _); [done|].
  intros [= <-]. qbools. by apply (update_shedding_iff {| limits := t |}).
Qed.

(** the shed fraction grows with the latency from a tenth to the configured
    maximum, if that maximum is at least a tenth. *)
Theorem shed_fraction_bounded t p q :
  0 < activation_ms t → _ENTRY_SHED_FRACTION <= max_shed_fraction t → p <= q →
  _ENTRY_SHED_FRACTION <= shed_fraction p t ∧ shed_fraction p t <= shed_fraction q t ∧
  shed_fraction q t <= max_shed_fraction t.
Proof.
  intros Hact Hmax Hpq. unfold shed_fraction, _SATURATION_MULTIPLIER.
  set (A := activation_ms t) in *. set (M := max_shed_fraction t) in *. set (E := _ENTRY_SHED_FRACTION) in *.
  assert (∀ x, E + (x - A) / (A * 3 - A) * (M - E) == E + (x - A) * ((M - E) / (A * 3 - A))) as Hline.
  { intros x. field. lra. }
  assert (0 <= (M - E) / (A * 3 - A)) as Hslope by (apply Qle_shift_div_l; lra).
  assert ((A * 3 - A) * ((M - E) / (A * 3 - A)) == M - E) as Hend by (field; lra).
  destruct (Qle_bool p A) eqn:Hp1, (Qle_bool q A) eqn:Hq1, (Qle_bool (A * 3) p) eqn:Hp3,
    (Qle_bool (A * 3) q) eqn:Hq3; qbools; rewrite ?Hline; try (exfalso; lra); split_and!; nra.
Qed.

(** A maximum below a tenth is accepted and exceeded, and the fraction then
    falls while the latency grows. *)
Theorem shed_fraction_above_max :
  let t := {| activation_ms := 500; deactivation_ms := 350; max_shed_fraction := 1 # 20 |} in
  is_ret (make_breaker t) = true ∧ max_shed_fraction t < shed_fraction 400 t ∧
  shed_fraction 1500 t < shed_fraction 400 t.
Proof. by vm_compute. Qed.

(** ** Witnesses *)

Module GateDemo.
Definition bucket0 : bucket := {| rate := 2; burst := 2; tokens := 2; last_refill := 0 |}.
Definition empty : bucket := {| rate := 2; burst := 2; tokens := 0; last_refill := 3 |}.
Definition gates_of (b : bucket) : gates :=
  {| rejected_count := 0; rate_limiter := {| shared_bucket := b; shed_count := 0 |};
     latency := {| db_latency_tracker := None; db_latency_cb_state := None |} |}.
Definition get_at (t : Q) (p : string) : arrival :=
  {| arrives := t; drawn := 0;
     wants := {| scope_type := "http"; path := p;
                 headers := [("Host", "m"); ("X-Cullis-Trust", "root");
                             ("X-Cullis-Session-Token", "s"); ("Content-Length", "12")] |} |}.
Definition burst_of_five : list arrival :=
  [get_at 1 "/v1/mcp"; get_at 1 "/v1/mcp"; get_at 1 "/v1/mcp"; get_at 1 "/health"; get_at (3 # 2) "/v1/mcp"].
Definition steady : list arrival := [get_at (7 # 2) "/a"; get_at 4 "/health"; get_at 4 "/b"; get_at 5 "/c"].
Definition verdicts (l : list (arrival * handling)) : list (Q * bool) :=
  (λ xh, (arrives (fst xh), forwarded (snd xh))) <$> l.
End GateDemo.

Lemma admitted_rate_bounded_witness :
  GateDemo.verdicts (admit_all 100 GateDemo.burst_of_five (GateDemo.gates_of GateDemo.bucket0)).1
    = [(1, true); (1, true); (1, false); (1, true); (3 # 2, true)] ∧
  served_between 1 (3 # 2)
    (admit_all 100 GateDemo.burst_of_five (GateDemo.gates_of GateDemo.bucket0)).1 <= 2 + 2 * ((3 # 2) - 1).
Proof.
  split; [vm_compute; reflexivity|].
  apply (admitted_rate_bounded 100 2 2 0 GateDemo.bucket0); [reflexivity|reflexivity| |by vm_compute].
  by repeat split.
Defined.

Lemma paced_requests_served_witness :
  Forall (λ xh, rate_shed (snd xh) = false)
    (admit_all 100 GateDemo.steady (GateDemo.gates_of GateDemo.empty)).1.
Proof.
  apply (paced_requests_served 100 3); [split; by vm_compute|by vm_compute|by vm_compute|].
  by vm_compute.
Defined.

Lemma admitted_request_clean_witness :
  let r := wants (GateDemo.get_at 1 "/health") in
  through_stack 100 1 0 r (GateDemo.gates_of GateDemo.bucket0) =
    (Forward {| scope_type := "http"; path := "/health";
                headers := [("Host", "m"); ("X-Cullis-Session-Token", "s"); ("Content-Length", "12")] |},
     GateDemo.gates_of GateDemo.bucket0).
Proof.
  cbv zeta. exact (proj2 (admitted_request_clean 100 1 0 (wants (GateDemo.get_at 1 "/health"))
    (GateDemo.gates_of GateDemo.bucket0) eq_refl) eq_refl).
Defined.

Example median_of_three : _percentile [10000; 5; 7] (99 # 100) == 7.
Proof. by vm_compute. Qed.

Example oversized_answer :
  match BodyLimit.limit_request_body 10 (wants (GateDemo.get_at 0 "/v1/mcp")) 0 with
  | (Answer resp, n) => (response_status resp, List.nth_error (response_headers resp) 1, n)
  | _ => (0, None, 0)
  end%Z = (413, Some ("content-length", "109"), 1)%Z.
Proof. vm_compute. reflexivity. Qed.
