(* ===== verification/DashboardSession.v ===== *)
(** * Dashboard sessions

    [dashboard/session.py] and [rbac.py]: the signed cookie that carries a
    session of the administration pages, the short-lived cookie of a single
    sign-on flow, which is signed with the same key, the write gate of
    [require_login], the role gate and the CSRF check.

    A cookie value is a text; [time.time()] is a rational number of seconds;
    what [os.urandom] gives is an argument.  [read_float] is the argument of
    [loads]. *)

From S2P Require Import Prelude Sha256 Json JsonParse Base64.
From Stdlib Require Import QArith Qround.

Open Scope Z_scope.

Definition _COOKIE_NAME : string := "mcp_proxy_session".
Definition _COOKIE_MAX_AGE : Z := 8 * 3600.
Definition _OIDC_STATE_COOKIE : string := "mcp_proxy_oidc_state".
Definition _OIDC_STATE_MAX_AGE : Z := 600.

Record ProxyDashboardSession := {
  role : json;
  csrf_token : json;
  logged_in : bool;
  roles : list json;
  user_id : option Z;
}.

(** The constructor with [__post_init__]. *)
Definition session (role csrf_token : json) (logged_in : bool) (roles : list json)
    (user_id : option Z) : ProxyDashboardSession :=
  {| role := role; csrf_token := csrf_token; logged_in := logged_in;
     roles := match roles with [] => if py_bool role then [role] else [] | _ => roles end;
     user_id := user_id |}.

Definition _NO_SESSION : ProxyDashboardSession :=
  session (JStr "none") (JStr "") false [] None.

(** ** Signed values *)

(** [value.rsplit(".", 1)], if there is a dot. *)
Fixpoint rsplit_dot (s : string) : option (string * string) :=
  match s with
  | EmptyString => None
  | String c s' =>
      match rsplit_dot s' with
      | Some (head, tail) => Some (String c head, tail)
      | None => if bool_decide (c = "."%char) then Some ("", s') else None
      end
  end.

Section Cookies.
Context `{Hash} (read_float : string → json).
(** [_get_secret()]: the key of the settings, the key file or the process. *)
Context (secret : string).

Definition signature (text : string) : string := to_hex (hmac secret text).

Definition _sign (payload : string) : string :=
  let encoded := encode payload in encoded +:+ "." +:+ signature encoded.

Definition _b64url_decode (token : string) : outcome string :=
  match ss ← b64_scan url_value token [] 0 0; decode_sextets ss with
  | Some l => Ret (of_bytes l)
  | None => Raise ValueError
  end.

Definition _verify (cookie_value : string) : outcome (option string) :=
  match rsplit_dot cookie_value with
  | None => Ret None
  | Some (head, sig) =>
      if bool_decide (head = "") || bool_decide (sig = "") then Ret None
      else if startswith head "{" then
        let! same := compare_digest (JStr sig) (signature head) in
        Ret (if same then Some head else None)
      else if negb (is_ascii head) then Raise ValueError
      else
        let! same := compare_digest (JStr sig) (signature head) in
        if same then
          match _b64url_decode (padded head) with
          | Ret b => Ret (if utf8_ok 0 128 191 b then Some b else None)
          | Raise _ => Ret None
          end
        else Ret None
  end.

(** [a < b] of a JSON value and a float. *)
Definition json_lt (a : json) (b : Q) : outcome bool :=
  match num_of a with Some q => Ret (negb (Qle_bool b q)) | None => Raise TypeError end.

(** The payload of a cookie that is present, signed and not expired. *)
Definition signed_payload (cookie : option string) (now : Q)
    : outcome (option (list (string * json))) :=
  match cookie with
  | None | Some EmptyString => Ret None
  | Some value =>
      let! payload_str := _verify value in
      match payload_str with
      | None | Some EmptyString => Ret None
      | Some text =>
          match loads read_float text with
          | Raise _ => Ret None
          | Ret (JObj data) =>
              let! expired := json_lt (default (JInt 0) (get "exp" data)) now in
              Ret (if expired then None else Some data)
          | Ret _ => Raise AttributeError
          end
      end
  end.

Definition parsed_roles (raw : json) : list json :=
  match raw with
  | JList l => List.filter (λ r, match r with JStr s => negb (bool_decide (s = "")) | _ => false end) l
  | _ => []
  end.

Definition parsed_user_id (raw : json) : option Z :=
  match as_int raw with Some n => if 0 <? n then Some n else None | None => None end.

Definition get_session (cookies : list (string * string)) (now : Q)
    : outcome ProxyDashboardSession :=
  let! payload := signed_payload (dget _COOKIE_NAME cookies) now in
  Ret (match payload with
       | None => _NO_SESSION
       | Some data =>
           session (default (JStr "none") (get "role" data)) (default (JStr "") (get "csrf_token" data))
             true (parsed_roles (get_none "roles" data)) (parsed_user_id (get_none "user_id" data))
       end).

Definition get_oidc_state (cookies : list (string * string)) (now : Q)
    : outcome (option (list (string * json))) :=
  signed_payload (dget _OIDC_STATE_COOKIE cookies) now.

(** ** Setting cookies *)

Record cookie_settings := { environment : string; proxy_public_url : string }.

Definition _should_set_secure_cookie (cfg : cookie_settings) : bool :=
  if bool_decide (environment cfg = "production") then true
  else if bool_decide (proxy_public_url cfg = "") then false
  else startswith (proxy_public_url cfg) "https".

Record set_cookie := {
  cookie_name : string;
  cookie_value : string;
  max_age : Z;
  httponly : bool;
  samesite : string;
  secure : bool;
}.

(** [int(t)] *)
Definition int_of_q (t : Q) : Z := Z.quot (Qnum t) (Zpos (Qden t)).

(** The payload; [csrf] is [os.urandom(16).hex()]. *)
Definition session_payload (role : string) (roles : option (list string)) (uid : option Z)
    (csrf : string) (now : Q) : list (string * json) :=
  let roles_tuple := match roles with
                     | None => if bool_decide (role = "") then [] else [role]
                     | Some l => List.filter (λ r, negb (bool_decide (r = ""))) l
                     end in
  [("role", JStr role); ("roles", JList (JStr <$> roles_tuple)); ("csrf_token", JStr csrf);
   ("exp", JInt (int_of_q now + _COOKIE_MAX_AGE))]
  ++ match uid with Some n => if 0 <? n then [("user_id", JInt n)] else [] | None => [] end.

Definition set_session (cfg : cookie_settings) (role : string) (roles : option (list string))
    (uid : option Z) (csrf : string) (now : Q) : set_cookie :=
  {| cookie_name := _COOKIE_NAME;
     cookie_value := _sign (dumps_plain (JObj (session_payload role roles uid csrf now)));
     max_age := _COOKIE_MAX_AGE; httponly := true; samesite := "strict";
     secure := _should_set_secure_cookie cfg |}.

(** [flow_state] is the dict of state, nonce and code verifier. *)
Definition set_oidc_state (cfg : cookie_settings) (flow_state : list (string * json)) (now : Q)
    : set_cookie :=
  {| cookie_name := _OIDC_STATE_COOKIE;
     cookie_value := _sign (dumps_plain (JObj (dset "exp" (JInt (int_of_q now + _OIDC_STATE_MAX_AGE))
                                                 flow_state)));
     max_age := _OIDC_STATE_MAX_AGE; httponly := true; samesite := "lax";
     secure := _should_set_secure_cookie cfg |}.

(** ** The gates *)

Definition _WRITE_METHODS : list string := ["POST"; "PUT"; "PATCH"; "DELETE"].
Definition _WRITER_ROLES : list string := ["admin"; "operator"].

(** [any(r in allowed for r in roles)]; an unhashable role raises. *)
Fixpoint any_role (allowed : list string) (l : list json) : outcome bool :=
  match l with
  | [] => Ret false
  | r :: rest =>
      if negb (hashable r) then Raise TypeError
      else if (match r with JStr s => bool_decide (s ∈ allowed) | _ => false end) then Ret true
      else any_role allowed rest
  end.

(** A session, or the redirect to the login page. *)
Definition require_login (method : string) (cookies : list (string * string)) (now : Q)
    : outcome (option ProxyDashboardSession) :=
  let! s := get_session cookies now in
  if negb (logged_in s) then Ret None
  else if bool_decide (method ∈ _WRITE_METHODS) then
    let! writer := any_role _WRITER_ROLES (roles s) in
    if writer then Ret (Some s) else Raise (HTTPException 403 "role_required")
  else Ret (Some s).

(** [str(token)] of a form field is the field. *)
Definition verify_csrf (form : list (string * string)) (s : ProxyDashboardSession) : outcome bool :=
  let token := default "" (dget "csrf_token" form) in
  if negb (py_bool (csrf_token s)) || bool_decide (token = "") then Ret false
  else compare_digest (csrf_token s) token.

Definition has_role (s : ProxyDashboardSession) (wanted : list string) : outcome bool :=
  if negb (logged_in s) then Ret false
  else match roles s with [] => Ret false | l => any_role wanted l end.

Definition require_role (allowed_roles : list string) (cookies : list (string * string)) (now : Q)
    : outcome ProxyDashboardSession :=
  match allowed_roles with
  | [] => Raise ValueError
  | _ =>
      let! s := get_session cookies now in
      if negb (logged_in s) then Raise (HTTPException 401 "login required")
      else
        let! permitted := any_role ("admin" :: allowed_roles) (roles s) in
        if permitted then Ret s else Raise (HTTPException 403 "role_required")
  end.

(** The logout page: the name of the cookie it deletes. *)
Definition logout (form cookies : list (string * string)) (now : Q) : outcome string :=
  let! s := get_session cookies now in
  if py_bool (csrf_token s) then
    let! same := verify_csrf form s in
    if same then Ret _COOKIE_NAME else Raise (HTTPException 403 "Invalid CSRF token")
  else Ret _COOKIE_NAME.

(** [filter_roles]: empty and repeated roles dropped, order kept. *)
Fixpoint filter_roles (seen : list string) (l : list string) : list string :=
  match l with
  | [] => []
  | r :: rest =>
      if bool_decide (r = "") || bool_decide (r ∈ seen) then filter_roles seen rest
      else r :: filter_roles (r :: seen) rest
  end.

End Cookies.

(** ** Signing and verifying *)

Lemma rsplit_sign head tail :
  has_char "."%char tail = false → rsplit_dot (head +:+ "." +:+ tail) = Some (head, tail).
Proof.
  intros Htail. induction head as [|c head IH].
  - change (rsplit_dot (String "." tail) = Some ("", tail)). cbn [rsplit_dot].
    assert (rsplit_dot tail = None) as ->; [|done]. clear -Htail.
    induction tail as [|c tail IH]; [done|]. cbn [has_char] in Htail.
    apply orb_false_iff in Htail as [Hc Htail]. cbn [rsplit_dot]. rewrite (IH Htail).
    bools. by rewrite bool_decide_eq_false_2.
  - rewrite str_app_cons. cbn [rsplit_dot]. by rewrite IH.
Qed.

Lemma rsplit_inv s head tail : rsplit_dot s = Some (head, tail) → s = head +:+ "." +:+ tail.
Proof.
  revert head tail. induction s as [|c s IH]; intros head tail; [done|]. cbn [rsplit_dot].
  destruct (rsplit_dot s) as [[h t]|] eqn:Hs.
  - intros [= <- <-]. by rewrite (IH h t).
  - destruct (bool_decide _) eqn:Hc; [|done]. bools. subst c. by intros [= <- <-].
Qed.

(** Characters of hexadecimal and base64 texts. *)
Lemma hex_no_dot m : has_char "."%char (to_hex m) = false.
Proof. induction m as [|c m IH]; [done|]. destruct c as [[] [] [] [] [] [] [] []]; exact IH. Qed.

Definition plain_b64 (c : ascii) : bool :=
  (N_of_ascii c <? 128)%N && negb (bool_decide (c = "{"%char)).

Lemma b64_char_plain n : (n < 64)%N → plain_b64 (b64_char n) = true.
Proof.
  intros Hn. assert (forallb (λ k, plain_b64 (b64_char (N.of_nat k))) (seq 0 64) = true) as Hall
    by (vm_compute; reflexivity).
  rewrite forallb_forall in Hall. specialize (Hall (N.to_nat n)). rewrite N2Nat.id in Hall.
  apply Hall, list_elem_of_In, elem_of_seq. lia.
Qed.

Lemma encode_plain b : all_chars plain_b64 (encode b) = true.
Proof.
  unfold encode, of_sextets. pose proof (encode_sextets_ok (bytes b) (bytes_ok b)) as Hss.
  induction Hss as [|n ss Hn _ IH]; [done|]. cbn [foldr all_chars]. by rewrite b64_char_plain, IH.
Qed.

Lemma encode_ascii b : is_ascii (encode b) = true.
Proof.
  eapply all_chars_weaken; [|apply encode_plain]. intros c. unfold plain_b64. by intros [Hc _]%andb_true_iff.
Qed.

Lemma encode_not_brace b : startswith (encode b) "{" = false.
Proof.
  pose proof (encode_plain b) as H. destruct (encode b) as [|c s]; [done|]. cbn [all_chars] in H.
  apply andb_true_iff in H as [Hc _]. unfold plain_b64 in Hc. apply andb_true_iff in Hc as [_ Hc].
  bools. cbn [startswith]. rewrite bool_decide_eq_false_2; [done|congruence].
Qed.

Lemma encode_empty b : encode b = "" → b = "".
Proof.
  intros Hb. pose proof (lenient_encode b) as Hl. pose proof (sextets_encode b) as Hs.
  rewrite Hb in Hs. injection Hs as Hs. rewrite <- Hs in Hl. cbn in Hl. congruence.
Qed.

Section Signing.
Context `{Hash} (read_float : string → json) (secret : string).

Notation _sign := (_sign secret).
Notation _verify := (_verify secret).
Notation signature := (signature secret).

Lemma signature_nonempty text : signature text ≠ "".
Proof.
  unfold DashboardSession.signature, hmac. intros Heq%(f_equal String.length).
  rewrite to_hex_length, digest_length in Heq. done.
Qed.

Lemma compare_self text : compare_digest (JStr (signature text)) (signature text) = Ret true.
Proof.
  unfold compare_digest. unfold DashboardSession.signature. rewrite hex_ascii. cbn [andb].
  by rewrite bool_decide_eq_true_2.
Qed.

Lemma verify_sign payload :
  payload ≠ "" → is_ascii payload = true → _verify (_sign payload) = Ret (Some payload).
Proof.
  intros Hne Hascii. unfold DashboardSession._verify, DashboardSession._sign.
  rewrite rsplit_sign by apply hex_no_dot.
  rewrite (bool_decide_eq_false_2 (encode payload = "")) by (intros Heq; by apply Hne, encode_empty).
  rewrite bool_decide_eq_false_2 by apply signature_nonempty. cbn [orb].
  rewrite encode_not_brace, encode_ascii. cbn [negb]. rewrite compare_self. cbn [obind].
  unfold _b64url_decode, padded. rewrite padded_decode. cbn [mbind].
  rewrite of_bytes_bytes, ascii_utf8_ok; done.
Qed.

(** An accepted value ends in the signature of what precedes it. *)
Lemma cookie_verify_inv value text :
  _verify value = Ret (Some text) → ∃ head, value = head +:+ "." +:+ signature head.
Proof.
  unfold DashboardSession._verify. destruct (rsplit_dot value) as [[head sig]|] eqn:Hsplit; [|done].
  apply rsplit_inv in Hsplit as ->. destruct (_ || _); [done|].
  assert (∀ b, compare_digest (JStr sig) (signature head) = Ret b → b = true → sig = signature head)
    as Hcmp.
  { unfold compare_digest. intros b. destruct (_ && _); [|done]. by intros [= <-] ?%bool_decide_eq_true. }
  destruct (startswith head "{"); [|destruct (negb (is_ascii head)); [done|]].
  all: destruct (compare_digest _ _) as [[]|] eqn:Hc; [|done|done]; intros _;
    exists head; by rewrite (Hcmp true eq_refl eq_refl).
Qed.

(** The payload read back from a signed value. *)
Lemma signed_payload_sign data exp now :
  plain_json (JObj data) → get "exp" data = Some (JInt exp) →
  signed_payload read_float secret (Some (_sign (dumps_plain (JObj data)))) now
  = Ret (if Qle_bool now (inject_Z exp) then Some data else None).
Proof.
  intros Hplain Hexp. unfold signed_payload.
  destruct (_sign (dumps_plain (JObj data))) as [|c s] eqn:Hsign.
  { unfold DashboardSession._sign in Hsign. destruct (encode _); discriminate Hsign. }
  pose proof (plain_readable read_float _ Hplain) as Hread. rewrite <- Hsign.
  destruct (printed_head read_float " " _ Hread) as (d & t & Htext & _). rewrite <- plain_printed in Htext.
  rewrite verify_sign; [|by rewrite Htext|by apply dumps_plain_ascii].
  cbn [obind]. rewrite Htext. rewrite <- Htext, loads_dumps by done. rewrite Hexp.
  cbn [default from_option id json_lt num_of obind]. by destruct (Qle_bool now (inject_Z exp)).
Qed.

Lemma signed_payload_inv cookie now data :
  signed_payload read_float secret cookie now = Ret (Some data) →
  ∃ head, cookie = Some (head +:+ "." +:+ signature head).
Proof.
  unfold signed_payload. destruct cookie as [[|c s]|]; try done.
  destruct (_verify (String c s)) as [[text|]|] eqn:Hv; try done. intros _.
  apply cookie_verify_inv in Hv as [head ->]. by exists head.
Qed.

End Signing.

(** ** Sessions *)

Section Sessions.
Context `{Hash} (read_float : string → json) (secret : string).

Notation get_session := (get_session read_float secret).
Notation require_login := (require_login read_float secret).

(** Arguments of [set_session] that the JSON text can carry: proper texts, a
    hexadecimal token, a clock and an identifier of moderate size. *)
Record payload_ok (role : string) (roles : option (list string)) (uid : option Z) (csrf : string)
    (now : Q) : Prop := {
  ok_role : valid_text role;
  ok_roles : ∀ l, roles = Some l → Forall valid_text l;
  ok_csrf : is_ascii csrf = true;
  ok_uid : ∀ n, uid = Some n → n < 10 ^ 100;
  ok_clock : 0 <= int_of_q now < 10 ^ 99;
}.

Lemma short z : 0 <= z < 10 ^ 100 → short_int z.
Proof.
  intros Hz. unfold short_int. etransitivity; [apply (pretty_Z_length 100); [lia|exact Hz]|].
  unfold max_str_digits. lia.
Qed.

Lemma texts_plain l : Forall valid_text l → plain_json (JList (JStr <$> l)).
Proof. cbn. induction 1; [done|]. by split. Qed.

Lemma filter_forall {A} (f : A → bool) (P : A → Prop) l : Forall P l → Forall P (List.filter f l).
Proof. induction 1; cbn; [constructor|]. destruct (f x); [by constructor|done]. Qed.

Lemma session_payload_plain role roles uid csrf now :
  payload_ok role roles uid csrf now → plain_json (JObj (session_payload role roles uid csrf now)).
Proof.
  intros []. unfold session_payload.
  set (l := match roles with None => _ | Some _ => _ end).
  assert (plain_json (JList (JStr <$> l))) as Hl.
  { apply texts_plain. unfold l. destruct roles as [rs|]; [by apply filter_forall, ok_roles0|].
    destruct (bool_decide (role = "")); repeat constructor; done. }
  assert (short_int (int_of_q now + _COOKIE_MAX_AGE)) as Hexp.
  { apply short. unfold _COOKIE_MAX_AGE. assert (10 ^ 100 = 10 * 10 ^ 99) by reflexivity. lia. }
  assert (∀ k v, (k, v) ∈ [("role", JStr role); ("roles", JList (JStr <$> l)); ("csrf_token", JStr csrf);
     ("exp", JInt (int_of_q now + _COOKIE_MAX_AGE))] → valid_text k ∧ plain_json v) as Hbase.
  { intros k v. rewrite !elem_of_cons. intros [[= -> ->]|[[= -> ->]|[[= -> ->]|[[= -> ->]|Hin]]]];
      [..|by apply not_elem_of_nil in Hin].
    all: split; [by apply ascii_valid|]; try done; by apply ascii_valid. }
  assert (∀ n, uid = Some n → 0 < n → short_int n) as Huid.
  { intros n -> Hn. apply short. specialize (ok_uid0 n eq_refl). lia. }
  cbn [plain_json]. split.
  - unfold dict_ok. rewrite fmap_app. destruct uid as [n|]; [destruct (0 <? n)|];
      cbn [fmap list_fmap fst app]; repeat (apply NoDup_cons; split; [set_solver|]); apply NoDup_nil_2.
  - rewrite foldr_app.
    assert (foldr (λ kv P, (valid_text (fst kv) ∧ plain_json (snd kv)) ∧ P) True
      match uid with Some n => if 0 <? n then [("user_id", JInt n)] else [] | None => [] end) as Htail.
    { destruct uid as [n|]; [|done]. destruct (Z.ltb_spec 0 n); [|done].
      split; [split; [by apply ascii_valid|by apply Huid]|done]. }
    cbn [foldr]. repeat split; try done; try (by apply (Hbase _ _ ltac:(rewrite !elem_of_cons; tauto))).
    all: try by apply ascii_valid.
    all: match goal with |- foldr _ _ _ => exact Hl | _ => idtac end.
Qed.

Lemma parsed_texts l :
  parsed_roles (JList (JStr <$> List.filter (λ r, negb (bool_decide (r = ""))) l))
  = JStr <$> List.filter (λ r, negb (bool_decide (r = ""))) l.
Proof.
  cbn [parsed_roles]. induction l as [|r l IH]; [done|]. cbn [List.filter].
  destruct (negb (bool_decide (r = ""))) eqn:Hr; [|done]. cbn [fmap list_fmap List.filter].
  rewrite Hr. f_equal. exact IH.
Qed.

(** The roles and the user a session cookie carries. *)
Definition carried_roles (role : string) (roles : option (list string)) : list json :=
  match roles with
  | None => if bool_decide (role = "") then [] else [JStr role]
  | Some l => JStr <$> List.filter (λ r, negb (bool_decide (r = ""))) l
  end.

Definition carried_user (uid : option Z) : option Z :=
  match uid with Some n => if 0 <? n then Some n else None | None => None end.

Lemma payload_get role roles uid csrf now :
  let data := session_payload role roles uid csrf now in
  get "exp" data = Some (JInt (int_of_q now + _COOKIE_MAX_AGE)) ∧
  get "role" data = Some (JStr role) ∧ get "csrf_token" data = Some (JStr csrf) ∧
  parsed_roles (get_none "roles" data) = carried_roles role roles ∧
  parsed_user_id (get_none "user_id" data) = carried_user uid.
Proof.
  cbv zeta. split_and!; try reflexivity.
  - change (get_none "roles" (session_payload role roles uid csrf now)) with
      (JList (JStr <$> match roles with
                       | None => if bool_decide (role = "") then [] else [role]
                       | Some l => List.filter (λ r, negb (bool_decide (r = ""))) l
                       end)).
    destruct roles as [l|]; [apply parsed_texts|]. unfold carried_roles.
    destruct (bool_decide (role = "")) eqn:Hr; [done|]. cbn. by rewrite Hr.
  - destruct uid as [n|]; [|reflexivity]. unfold session_payload, carried_user.
    destruct (0 <? n) eqn:Hn; [|reflexivity].
    change (get_none "user_id" _) with (JInt n). cbn. by rewrite Hn.
Qed.

Lemma get_session_sign data exp now :
  plain_json (JObj data) → get "exp" data = Some (JInt exp) →
  get_session [(_COOKIE_NAME, _sign secret (dumps_plain (JObj data)))] now =
  Ret (if Qle_bool now (inject_Z exp)
       then session (default (JStr "none") (get "role" data)) (default (JStr "") (get "csrf_token" data))
              true (parsed_roles (get_none "roles" data)) (parsed_user_id (get_none "user_id" data))
       else _NO_SESSION).
Proof.
  intros Hplain Hexp. unfold DashboardSession.get_session. cbn [dget]. rewrite bool_decide_eq_true_2 by done.
  rewrite (signed_payload_sign read_float secret data exp now Hplain Hexp). cbn [obind].
  by destruct (Qle_bool now (inject_Z exp)).
Qed.

(** C28: a session set at [now0] is read back with its role, roles, user and
    CSRF token until its eight hours are over, and as no session afterwards. *)
Theorem session_round_trip cfg role roles uid csrf now0 now :
  payload_ok role roles uid csrf now0 →
  let c := set_session secret cfg role roles uid csrf now0 in
  get_session [(cookie_name c, cookie_value c)] now =
  Ret (if Qle_bool now (inject_Z (int_of_q now0 + _COOKIE_MAX_AGE))
       then session (JStr role) (JStr csrf) true (carried_roles role roles) (carried_user uid)
       else _NO_SESSION).
Proof.
  intros Hok c. destruct (payload_get role roles uid csrf now0) as (Hexp & Hr & Hc & Hrs & Hu).
  cbn [c set_session cookie_name cookie_value].
  rewrite (get_session_sign _ _ now (session_payload_plain _ _ _ _ _ Hok) Hexp).
  by rewrite Hr, Hc, Hrs, Hu.
Qed.

Lemma any_role_elem allowed l : any_role allowed l = Ret true → ∃ r, JStr r ∈ l ∧ r ∈ allowed.
Proof.
  induction l as [|r l IH]; [done|]. cbn [any_role]. destruct (negb (hashable r)); [done|].
  destruct r; try (intros Hl; destruct (IH Hl) as (x & ? & ?); exists x; split; [by right|done]).
  destruct (bool_decide (s ∈ allowed)) eqn:Hs.
  - bools. exists s. split; [left|done].
  - intros Hl. destruct (IH Hl) as (x & ? & ?). exists x. split; [by right|done].
Qed.

(** [require_login] hands a route a session only from a cookie that ends in
    the signature of what precedes it, and hands a route that writes only
    sessions with the role admin or operator. *)
Theorem dashboard_access_signed method cookies now s :
  require_login method cookies now = Ret (Some s) →
  logged_in s = true ∧
  (∃ head, dget _COOKIE_NAME cookies = Some (head +:+ "." +:+ signature secret head)) ∧
  (method ∈ _WRITE_METHODS → JStr "admin" ∈ roles s ∨ JStr "operator" ∈ roles s).
Proof.
  unfold DashboardSession.require_login, DashboardSession.get_session.
  destruct (signed_payload read_float secret _ now) as [[data|]|] eqn:Hp; cbn [obind]; try done.
  set (x := session _ _ _ _ _). change (logged_in x) with true. cbn [negb]. intros Hx.
  assert (s = x ∧ (method ∈ _WRITE_METHODS → any_role _WRITER_ROLES (roles x) = Ret true)) as [-> Hw].
  { destruct (bool_decide (method ∈ _WRITE_METHODS)) eqn:Hm; bools.
    - destruct (any_role _ _) as [[]|]; try done. by injection Hx as <-.
    - by injection Hx as <-. }
  split; [done|]. split; [by eapply signed_payload_inv|]. intros Hm.
  destruct (any_role_elem _ _ (Hw Hm)) as (r & Hr & Hin). unfold _WRITER_ROLES in Hin.
  rewrite !elem_of_cons in Hin. destruct Hin as [-> |[-> |Hin]]; [by left|by right|].
  by apply not_elem_of_nil in Hin.
Qed.

(** the cookie of a single sign-on flow is signed like a session and carries
    no purpose: a visitor who starts a flow and sends its cookie under the
    name of the session cookie is logged in, with the role "none", on every
    page that does not write. *)
Theorem oidc_state_opens_dashboard cfg state nonce code_verifier now0 now :
  is_ascii state = true → is_ascii nonce = true → is_ascii code_verifier = true →
  0 <= int_of_q now0 < 10 ^ 99 → Qle_bool now (inject_Z (int_of_q now0 + _OIDC_STATE_MAX_AGE)) = true →
  let flow := [("state", JStr state); ("nonce", JStr nonce); ("code_verifier", JStr code_verifier)] in
  let stolen := [(_COOKIE_NAME, cookie_value (set_oidc_state secret cfg flow now0))] in
  let s := session (JStr "none") (JStr "") true [] None in
  require_login "GET" stolen now = Ret (Some s) ∧
  require_login "POST" stolen now = Raise (HTTPException 403 "role_required").
Proof.
  intros Hs Hn Hv Hclock Hlive flow stolen s.
  assert (dset "exp" (JInt (int_of_q now0 + _OIDC_STATE_MAX_AGE)) flow
          = (flow ++ [("exp", JInt (int_of_q now0 + _OIDC_STATE_MAX_AGE))])%list) as Hdata by reflexivity.
  assert (short_int (int_of_q now0 + _OIDC_STATE_MAX_AGE)) as Hexp.
  { apply short. unfold _OIDC_STATE_MAX_AGE. assert (10 ^ 100 = 10 * 10 ^ 99) by reflexivity. lia. }
  assert (get_session stolen now = Ret s) as Hget.
  { unfold stolen, set_oidc_state. cbn [cookie_value]. rewrite Hdata.
    rewrite (get_session_sign _ (int_of_q now0 + _OIDC_STATE_MAX_AGE)); [by rewrite Hlive| |reflexivity].
    cbn -[short_int valid_text]. split.
    - unfold dict_ok. cbn. repeat (apply NoDup_cons; split; [set_solver|]). apply NoDup_nil_2.
    - repeat split; try done; by apply ascii_valid. }
  unfold DashboardSession.require_login. by rewrite Hget.
Qed.

End Sessions.

(** A cookie outside ASCII escapes [_verify] as an exception. *)
Theorem non_ascii_cookie_raises `{Hash} rf secret now :
  get_session rf secret [(_COOKIE_NAME, "é.00")] now = Raise ValueError.
Proof. reflexivity. Qed.

(** ** Witnesses *)

Module SessionDemo.
Definition cfg : cookie_settings := {| environment := "production"; proxy_public_url := "" |}.
Definition csrf : string := "00112233445566778899aabbccddeeff".
Lemma ok : payload_ok "viewer" (Some ["viewer"; ""]) (Some 7) csrf 1000.
Proof.
  split; [by apply ascii_valid| |done| |by vm_compute].
  - intros l [= <-]. repeat constructor; by apply ascii_valid.
  - by intros n [= <-].
Qed.
Definition cookie : set_cookie := set_session "k" cfg "viewer" (Some ["viewer"; ""]) (Some 7) csrf 1000.
Definition admin : set_cookie := set_session "k" cfg "admin" None None csrf 1000.
End SessionDemo.

Lemma session_round_trip_witness :
  get_session (λ t, JStr t) "k"
    [(cookie_name SessionDemo.cookie, cookie_value SessionDemo.cookie)] 29800
  = Ret (session (JStr "viewer") (JStr SessionDemo.csrf) true [JStr "viewer"] (Some 7)).
Proof.
  exact (session_round_trip (λ t, JStr t) "k" SessionDemo.cfg "viewer" (Some ["viewer"; ""]) (Some 7)
    SessionDemo.csrf 1000 29800 SessionDemo.ok).
Defined.

Lemma dashboard_access_signed_witness :
  ∃ s, require_login (λ t, JStr t) "k" "POST"
         [(_COOKIE_NAME, cookie_value SessionDemo.admin)] 1000 = Ret (Some s) ∧
       (JStr "admin" ∈ roles s ∨ JStr "operator" ∈ roles s).
Proof.
  eexists. assert (require_login (λ t, JStr t) "k" "POST"
    [(_COOKIE_NAME, cookie_value SessionDemo.admin)] 1000
    = Ret (Some (session (JStr "admin") (JStr SessionDemo.csrf) true [JStr "admin"] None))) as Hl
    by (vm_compute; reflexivity).
  split; [exact Hl|].
  apply (proj2 (proj2 (dashboard_access_signed (λ t, JStr t) "k" "POST" _ 1000 _ Hl))). left.
Defined.
