(* ===== verification/DashboardLogin.v ===== *)
(** * Signing in to the dashboard

    [dashboard/login_lockout.py], the handlers of [dashboard/auth_routes.py]
    and the password part of [dashboard/session.py].  The state is the table
    [proxy_config], the lockout store, the request windows of [RateLimit], the
    audit trail and the flag of the break-glass notice.  [bcrypt] is the
    argument [checkpw]/[hashpw]; reads of [proxy_config] do not fail.  The
    sign-in handler is cut where it waits, and the last section runs many
    sign-ins at once. *)

From S2P Require Import Prelude Sha256 Json JsonParse AuditCanon AuditLog AuditChain Effects RateLimit DashboardSession.
From Stdlib Require Import QArith Lqa.

Open Scope Z_scope.

(** ** The lockout store *)

Definition LOCKOUT_THRESHOLD : nat := 5.
Definition LOCKOUT_WINDOW_SECONDS : Q := 15 * 60.
Definition LOCKOUT_DURATION_SECONDS : Q := 15 * 60.
Definition LOGIN_RATE_PER_MINUTE : Z := 10.

Record lockout_store := { _failures : gmap string (list Q); _locked_until : gmap string Q }.

Definition q_lt (a b : Q) : bool := negb (Qle_bool b a).

(** [[t for t in l if t > cutoff]] *)
Definition after (cutoff : Q) (l : list Q) : list Q := List.filter (q_lt cutoff) l.

Definition record_failure (now : Q) (ip : string) (st : lockout_store)
    : (nat * option Q) * lockout_store :=
  let recent := after (now - LOCKOUT_WINDOW_SECONDS) (default [] (_failures st !! ip)) ++ [now] in
  let failures := <[ip := recent]> (_failures st) in
  if (LOCKOUT_THRESHOLD <=? length recent)%nat then
    let unlock_at := (now + LOCKOUT_DURATION_SECONDS)%Q in
    ((length recent, Some unlock_at),
     {| _failures := failures; _locked_until := <[ip := unlock_at]> (_locked_until st) |})
  else ((length recent, None), {| _failures := failures; _locked_until := _locked_until st |}).

Definition forget (ip : string) (st : lockout_store) : lockout_store :=
  {| _failures := delete ip (_failures st); _locked_until := delete ip (_locked_until st) |}.

Definition record_success (ip : string) (st : lockout_store) : lockout_store := forget ip st.

Definition is_locked (now : Q) (ip : string) (st : lockout_store) : option Q * lockout_store :=
  match _locked_until st !! ip with
  | None => (None, st)
  | Some unlock_at => if Qle_bool unlock_at now then (None, forget ip st) else (Some unlock_at, st)
  end.

(** ** The process *)

Definition ADMIN_PASSWORD_KEY : string := "admin_password_hash".
Definition LOCAL_PASSWORD_ENABLED_KEY : string := "local_password_enabled".
Definition MIN_PASSWORD_LENGTH : nat := 8.

Record dashboard := {
  d_trail : world;
  d_audits : nat;
  proxy_config : gmap string string;
  lockouts : lockout_store;
  request_windows : gmap string (list Z);
  _force_local_password_audited : bool;
}.

#[export] Instance dashboard_trailed : Trailed dashboard := {
  trail := d_trail;
  audit_calls := d_audits;
  audited := λ w s,
    {| d_trail := w; d_audits := S (d_audits s); proxy_config := proxy_config s;
       lockouts := lockouts s; request_windows := request_windows s;
       _force_local_password_audited := _force_local_password_audited s |};
  trail_audited := λ w s, eq_refl;
}.

Definition with_config (f : gmap string string → gmap string string) (s : dashboard) : dashboard :=
  {| d_trail := d_trail s; d_audits := d_audits s; proxy_config := f (proxy_config s);
     lockouts := lockouts s; request_windows := request_windows s;
     _force_local_password_audited := _force_local_password_audited s |}.
Definition with_lockouts (l : lockout_store) (s : dashboard) : dashboard :=
  {| d_trail := d_trail s; d_audits := d_audits s; proxy_config := proxy_config s;
     lockouts := l; request_windows := request_windows s;
     _force_local_password_audited := _force_local_password_audited s |}.
Definition with_windows (w : gmap string (list Z)) (s : dashboard) : dashboard :=
  {| d_trail := d_trail s; d_audits := d_audits s; proxy_config := proxy_config s;
     lockouts := lockouts s; request_windows := w;
     _force_local_password_audited := _force_local_password_audited s |}.
Definition with_notice (b : bool) (s : dashboard) : dashboard :=
  {| d_trail := d_trail s; d_audits := d_audits s; proxy_config := proxy_config s;
     lockouts := lockouts s; request_windows := request_windows s;
     _force_local_password_audited := b |}.

(** A redirect with the session cookie it sets, or a page with its status and
    the error it shows. *)
Inductive answer :=
| Redirect (url : string) (cookie : option set_cookie)
| Page (template : string) (status : Z) (error : option string).

Section Handlers.
Context `{Hash} (E : auditing).
Context (secret : string) (cookies : cookie_settings) (force_local_password : bool).
Context (checkpw : string → string → outcome bool) (hashpw : string → outcome string).

Notation M := (M dashboard).
Notation audit := (audit E).

(** A call of [log_audit] for the administrator. *)
Definition admin_row (action status : string) (detail : option string) (details : option json)
    : audit_call :=
  {| c_agent_id := "admin"; c_action := action; c_status := status; c_tool_name := None;
     c_detail := detail; c_details := details; c_request_id := None; c_duration_ms := None;
     c_dpop_jkt := None; c_on_behalf_of_user_id := None |}.

Definition get_config (key : string) : M (option string) := gets (λ s, proxy_config s !! key).
Definition set_config (key value : string) : M unit := modify (with_config <[key := value]>).

Definition is_admin_password_set : M bool :=
  do stored <- get_config ADMIN_PASSWORD_KEY; ret (truthy stored).

(** [bcrypt.checkpw] refuses malformed hashes with [ValueError]. *)
Definition verify_admin_password (plaintext : string) : M bool :=
  if bool_decide (plaintext = "") then ret false
  else
    do stored <- get_config ADMIN_PASSWORD_KEY;
    match stored with
    | None | Some EmptyString => ret false
    | Some hash =>
        match checkpw plaintext hash with
        | Raise ValueError | Raise TypeError => ret false
        | r => lift r
        end
    end.

Definition set_admin_password (plaintext : string) : M unit :=
  if (length (chars plaintext) <? MIN_PASSWORD_LENGTH)%nat then raise ValueError
  else do hashed <- lift (hashpw plaintext); set_config ADMIN_PASSWORD_KEY hashed.

Definition seed_initial_admin_password (plaintext : string) : M bool :=
  if bool_decide (plaintext = "") then ret false
  else
    do already <- is_admin_password_set;
    if already : bool then ret false
    else do _ <- set_admin_password plaintext; ret true.

Definition break_glass_detail : string :=
  "MCP_PROXY_FORCE_LOCAL_PASSWORD=1 env override is restoring password login while the DB toggle says disabled. Unset the env var when SSO is back to re-enable hardening.".

(** The notice, once per process; a failure lets it be tried again. *)
Definition break_glass_notice : M unit :=
  do seen <- gets _force_local_password_audited;
  if seen : bool then ret tt
  else
    do _ <- modify (with_notice true);
    catch (do stored <- get_config LOCAL_PASSWORD_ENABLED_KEY;
           if bool_decide (stored = Some "0")
           then audit (admin_row "auth.local_password.break_glass" "active" (Some break_glass_detail) None)
           else ret tt)
      (λ _, modify (with_notice false)).

Definition is_local_password_login_enabled : M bool :=
  if force_local_password then do _ <- break_glass_notice; ret true
  else
    do stored <- get_config LOCAL_PASSWORD_ENABLED_KEY;
    ret (match stored with None => true | Some v => bool_decide (v = "1") end).

Definition set_local_password_login_enabled (enabled : bool) : M unit :=
  set_config LOCAL_PASSWORD_ENABLED_KEY (if enabled then "1" else "0").

Definition _post_login_redirect : M string :=
  do org_id <- get_config "org_id";
  ret (if truthy org_id then "/proxy/overview" else "/proxy/setup").

(** [_login_client_ip] *)
Definition client_ip (client : option string) : string := default "unknown" client.

(** What one request brings: its peer, its form and the readings of the clocks
    in the order the handler takes them. *)
Record login_request := {
  client : option string;
  password : string;
  confirm_password : string;
  user_agent : string;
  locked_at : Q;              (* time.time() in is_locked *)
  limited_at : Z;             (* time.monotonic_ns() in the rate limiter *)
  failed_at : Q;              (* time.time() in record_failure *)
  session_at : Q;             (* time.time() in set_session *)
  csrf : string;              (* os.urandom(16).hex() *)
}.

Definition int_text (t : Q) : string := pretty (int_of_q t).

Definition lockout_check (r : login_request) : M (option Q) := λ s,
  let '(u, l) := is_locked (locked_at r) (client_ip (client r)) (lockouts s) in
  (Ret u, with_lockouts l s).

Definition rate_check (r : login_request) : M bool := λ s,
  let '(ok, w) := check (limited_at r) ("ip:" +:+ client_ip (client r) +:+ ":dashboard.login")
                    LOGIN_RATE_PER_MINUTE (request_windows s) in
  (Ret ok, with_windows w s).

Definition note_failure (r : login_request) : M (nat * option Q) := λ s,
  let '(out, l) := record_failure (failed_at r) (client_ip (client r)) (lockouts s) in
  (Ret out, with_lockouts l s).

Definition note_success (r : login_request) : M unit :=
  modify (λ s, with_lockouts (record_success (client_ip (client r)) (lockouts s)) s).

Definition login_error (status : Z) (error : string) : answer := Page "login.html" status (Some error).

(** The way out of every successful sign-in. *)
Definition signed_in (r : login_request) : M answer :=
  do url <- _post_login_redirect;
  ret (Redirect url (Some (set_session secret cookies "admin" None None (csrf r) (session_at r)))).

Definition failure_detail (ip : string) (out : nat * option Q) : string :=
  "invalid password ip=" +:+ ip +:+ " consecutive_fails=" +:+ pretty (fst out)
  +:+ match snd out with Some u => " locked-until=" +:+ int_text u | None => "" end.

(** The handler in the pieces between which it waits: the gate up to the
    lock-out, the rate limit, the form with the password in its thread, and the
    verdict.  A piece gives the answer when the request ends there. *)
Definition login_gate (r : login_request) : M (option answer) :=
  let ip := client_ip (client r) in
  do registered <- is_admin_password_set;
  if negb registered then ret (Some (Redirect "/proxy/register" None))
  else
    do password_enabled <- is_local_password_login_enabled;
    if negb password_enabled then
      do _ <- audit (admin_row "auth.login" "denied" (Some "password sign-in disabled") None);
      ret (Some (login_error 403 "Password sign-in is disabled. Use the SSO button instead."))
    else
      do locked <- lockout_check r;
      match locked with
      | Some u =>
          do _ <- audit (admin_row "auth.login" "denied"
                     (Some ("ip-locked-until " +:+ int_text u +:+ " ip=" +:+ ip)) None);
          ret (Some (login_error 429 "Too many failed attempts from this address. Try again later or reset the admin password from the local CLI."))
      | None => ret None
      end.

Definition rate_gate (r : login_request) : M (option answer) :=
  do ok <- rate_check r;
  if negb ok then
    do _ <- audit (admin_row "auth.login" "denied"
               (Some ("rate-limited ip=" +:+ client_ip (client r))) None);
    ret (Some (login_error 429 "Too many login attempts. Slow down and try again in a minute."))
  else ret None.

Definition password_gate (r : login_request) : M (answer + bool) :=
  if bool_decide (password r = "") then ret (inl (login_error 400 "Password is required."))
  else do good <- verify_admin_password (password r); ret (inr good).

Definition verdict (r : login_request) (good : bool) : M answer :=
  let ip := client_ip (client r) in
  if good then
    do _ <- note_success r;
    do _ <- audit (admin_row "auth.login" "success" (Some ("ip=" +:+ ip)) None);
    signed_in r
  else
    do out <- note_failure r;
    do _ <- audit (admin_row "auth.login" "error" (Some (failure_detail ip out)) None);
    ret (login_error 401 "Invalid password.").

Definition login_submit (r : login_request) : M answer :=
  do refused <- login_gate r;
  match refused with
  | Some a => ret a
  | None =>
      do refused <- rate_gate r;
      match refused with
      | Some a => ret a
      | None =>
          do checked <- password_gate r;
          match checked with inl a => ret a | inr good => verdict r good end
      end
  end.

Definition register_error (status : Z) (error : string) : M answer :=
  ret (Page "register.html" status (Some error)).

Definition register_details (r : login_request) : json :=
  JObj [("event", JStr "admin_password_registered"); ("client_ip", JStr (client_ip (client r)));
        ("user_agent", JStr (take_chars 200 (user_agent r)))].

(** [set_admin_password] inside its [try]: the page of the failure, if any. *)
Definition try_set_password (r : login_request) : M (option answer) :=
  catch (do _ <- set_admin_password (password r); ret None)
    (λ e, ret (Some (match e with
                     | ValueError => Page "register.html" 400 (Some "Password rejected by policy. It must be at least 8 characters; pick a stronger value and try again.")
                     | _ => Page "register.html" 500 (Some "Failed to register the admin password. Check the Mastio container logs and try again.")
                     end))).

Definition register_submit (r : login_request) : M answer :=
  do registered <- is_admin_password_set;
  if registered : bool then ret (Redirect "/proxy/login" None)
  else if bool_decide (password r = "") || bool_decide (confirm_password r = "")
  then register_error 400 "Both fields are required."
  else if (length (chars (password r)) <? MIN_PASSWORD_LENGTH)%nat
  then register_error 400 "Password must be at least 8 characters long."
  else if negb (bool_decide (password r = confirm_password r))
  then register_error 400 "The two passwords do not match."
  else
    do failed <- try_set_password r;
    match failed with
    | Some page => ret page
    | None =>
        do _ <- audit (admin_row "auth.register" "success" None (Some (register_details r)));
        signed_in r
    end.

End Handlers.

(** ** The lockout store and one address

    [fl] and [lk] are what the store has for the address; [h] are its failures
    since its last success; [f] of its attempts are past the lock-out check and
    not over, never more than [k]. *)

Definition later_than (cutoff : Q) (l : list Q) : nat := length (after cutoff l).

(** Failures in the quarter of an hour from [from] on. *)
Definition in_quarter (from : Q) (l : list Q) : nat :=
  length (List.filter (λ t, Qle_bool from t && q_lt t (from + LOCKOUT_WINDOW_SECONDS)) l).

(** The failures since the store last forgot, when it has not locked: few in
    any quarter. *)
Definition unlocked (now : Q) (e : list Q) : Prop :=
  (later_than (now - LOCKOUT_WINDOW_SECONDS) e < LOCKOUT_THRESHOLD)%nat ∧
  ∀ from, (in_quarter from e < LOCKOUT_THRESHOLD)%nat.

(** When it has locked, first at [L]: those up to then, and those of the
    attempts that were past the check. *)
Definition locked_since (k f : nat) (u : Q) (old e : list Q) : Prop := ∃ pre post L,
  e = pre ++ post ∧ L ∈ pre ∧ (L + LOCKOUT_WINDOW_SECONDS <= u)%Q ∧ Forall (λ t, (t <= L)%Q) (old ++ pre) ∧
  (∀ from, in_quarter from pre <= LOCKOUT_THRESHOLD)%nat ∧ (length post + f < k)%nat.

Definition guarded (k : nat) (now : Q) (f : nat) (fl : list Q) (lk : option Q) (h : list Q) : Prop :=
  (f <= k)%nat ∧ Forall (λ t, (t <= now)%Q) h ∧ (∀ from, in_quarter from h <= 2 * k + 3)%nat ∧
  ∃ old e, h = old ++ e ∧
    (∃ c, (c <= now - LOCKOUT_WINDOW_SECONDS)%Q ∧ fl = after c e) ∧
    (∀ from, (now - LOCKOUT_WINDOW_SECONDS < from)%Q → (in_quarter from old < k)%nat) ∧
    match lk with None => unlocked now e | Some u => locked_since k f u old e end.

Lemma q_lt_spec a b : q_lt a b = true ↔ (a < b)%Q.
Proof.
  unfold q_lt. rewrite negb_true_iff, <- not_true_iff_false, Qle_bool_iff.
  split; [apply Qnot_le_lt|apply Qlt_not_le].
Qed.

Lemma after_after c c' l : (c <= c')%Q → after c' (after c l) = after c' l.
Proof.
  intros Hc. unfold after. rewrite <- filter_andb. apply List.filter_ext. intros t.
  destruct (q_lt c' t) eqn:Ht; [|by rewrite andb_false_r].
  apply q_lt_spec in Ht. rewrite (proj2 (q_lt_spec c t)); [done|lra].
Qed.

Lemma after_none c l : Forall (λ t, (t <= c)%Q) l → after c l = [].
Proof.
  induction 1 as [|t l Ht _ IH]; [done|]. cbn. destruct (q_lt c t) eqn:Hc; [|done].
  apply q_lt_spec in Hc. lra.
Qed.

Lemma after_snoc c l t : (c < t)%Q → after c (l ++ [t]) = after c l ++ [t].
Proof. intros Ht%q_lt_spec. unfold after. rewrite List.filter_app. cbn. by rewrite Ht. Qed.

Lemma later_mono c c' l : (c <= c')%Q → (later_than c' l <= later_than c l)%nat.
Proof.
  intros Hc. apply filter_length_mono. intros t _ Ht%q_lt_spec. apply q_lt_spec. lra.
Qed.

Lemma quarter_app from l l' : in_quarter from (l ++ l') = (in_quarter from l + in_quarter from l')%nat.
Proof. unfold in_quarter. by rewrite List.filter_app, length_app. Qed.

Lemma quarter_length from l : (in_quarter from l <= length l)%nat.
Proof. apply List.filter_length_le. Qed.

Lemma sublist_quarter from l k : l `sublist_of` k → (in_quarter from l <= in_quarter from k)%nat.
Proof.
  unfold in_quarter. induction 1 as [|x l k _ IH|x l k _ IH]; cbn [List.filter]; [done| |];
    destruct (_ && _); cbn [length]; lia.
Qed.

Lemma quarter_none from l : Forall (λ t, (t < from)%Q) l → in_quarter from l = 0%nat.
Proof.
  unfold in_quarter. induction 1 as [|t l Ht _ IH]; [done|]. cbn [List.filter].
  destruct (Qle_bool from t) eqn:Hle; [apply Qle_bool_iff in Hle; lra|exact IH].
Qed.

(** A failure now is in the quarter, with some of the last quarter's, or out
    of it. *)
Lemma quarter_snoc from l t :
  in_quarter from (l ++ [t]) = in_quarter from l ∨
  ((t - LOCKOUT_WINDOW_SECONDS < from)%Q ∧ in_quarter from (l ++ [t]) = Datatypes.S (in_quarter from l) ∧
   (in_quarter from l <= later_than (t - LOCKOUT_WINDOW_SECONDS) l)%nat).
Proof.
  rewrite quarter_app.
  assert (in_quarter from [t]
    = if Qle_bool from t && q_lt t (from + LOCKOUT_WINDOW_SECONDS) then 1%nat else 0%nat) as ->
    by (unfold in_quarter; cbn [List.filter]; by destruct (_ && _)).
  destruct (_ && _) eqn:Hin; [|left; lia].
  apply andb_true_iff in Hin as [_ Hend%q_lt_spec]. right. split; [lra|]. split; [lia|].
  apply filter_length_mono. intros x _ [Hx%Qle_bool_iff _]%andb_true_iff. apply q_lt_spec. lra.
Qed.

Lemma guarded_later k now now' f fl lk h : (now <= now')%Q → guarded k now f fl lk h → guarded k now' f fl lk h.
Proof.
  intros Hle (Hf & Hall & Hb & old & e & -> & (c & Hc & Hfl) & Hold & Hlk). split_and!; [done| |done|].
  - eapply Forall_impl; [exact Hall|]. cbn. intros. lra.
  - exists old, e. split_and!; [done|exists c; split; [lra|done]|intros from Hfrom; apply Hold; lra|].
    destruct lk; [done|]. destruct Hlk as [Hl Hq]. split; [|done].
    pose proof (later_mono (now - LOCKOUT_WINDOW_SECONDS) (now' - LOCKOUT_WINDOW_SECONDS) e ltac:(lra)). lia.
Qed.

Lemma guarded_leave k now f f' fl lk h : (f' <= f)%nat → guarded k now f fl lk h → guarded k now f' fl lk h.
Proof.
  intros Hle (Hf & Hall & Hb & old & e & -> & Hc & Hold & Hlk). split_and!; [lia|done|done|].
  exists old, e. split_and!; [done|done|done|]. destruct lk as [u|]; [|done].
  destruct Hlk as (pre & post & L & Hlk & ? & ? & ? & ? & ?). exists pre, post, L. split_and!; try done. lia.
Qed.

Lemma guarded_enter k now f f' fl h :
  (f' <= k)%nat → guarded k now f fl None h → guarded k now f' fl None h.
Proof. intros Hle (_ & Hg). by split. Qed.

Lemma guarded_fresh k now f : (0 < k)%nat → (f <= k)%nat → guarded k now f [] None [].
Proof.
  intros Hk Hf. split_and!; [done|done|cbn; lia|]. exists [], []. split_and!; [done| |cbn; lia|].
  - exists (now - LOCKOUT_WINDOW_SECONDS)%Q. by split; [lra|].
  - split; [|intros from]; cbn; unfold LOCKOUT_THRESHOLD; lia.
Qed.

(** The end of a lock-out: what was counted is forgotten. *)
Lemma guarded_expire k now f u fl h :
  (u <= now)%Q → guarded k now f fl (Some u) h → guarded k now f [] None h.
Proof.
  intros Hu (Hf & Hall & Hb & old & e & -> & _ & Hold & pre & post & L & -> & _ & HL & Hpre & Hq & Hlen).
  split_and!; [done|done|done|]. exists (old ++ pre ++ post), []. rewrite app_nil_r. split_and!; [done| | |].
  - exists (now - LOCKOUT_WINDOW_SECONDS)%Q. by split; [lra|].
  - intros from Hfrom. rewrite app_assoc, quarter_app, (quarter_none from (old ++ pre)).
    + pose proof (quarter_length from post). lia.
    + eapply Forall_impl; [exact Hpre|]. cbn. intros t Ht. lra.
  - split; [|intros from]; cbn; unfold LOCKOUT_THRESHOLD; lia.
Qed.

(** What the store has for an address. *)
Definition failures_of (ip : string) (st : lockout_store) : list Q := default [] (_failures st !! ip).

Definition guards (k : nat) (now : Q) (f : nat) (st : lockout_store) (ip : string) (h : list Q) : Prop :=
  guarded k now f (failures_of ip st) (_locked_until st !! ip) h.

Lemma forget_other ip ip' st :
  ip' ≠ ip → failures_of ip' (forget ip st) = failures_of ip' st ∧
  _locked_until (forget ip st) !! ip' = _locked_until st !! ip'.
Proof.
  intros Hne. unfold failures_of, forget. cbn [_failures _locked_until].
  split; by rewrite lookup_delete_ne.
Qed.

Lemma forget_own ip st : failures_of ip (forget ip st) = [] ∧ _locked_until (forget ip st) !! ip = None.
Proof. unfold failures_of, forget. cbn [_failures _locked_until]. by rewrite !lookup_delete_eq. Qed.

Lemma is_locked_guards k now f st ip ip' h :
  guards k now f st ip h →
  let '(u, st') := is_locked now ip' st in
  guards k now f st' ip h ∧ (u = None → ip' = ip → _locked_until st' !! ip = None).
Proof.
  intros Hg. unfold is_locked. destruct (_locked_until st !! ip') as [u|] eqn:Hu; [|by split; [|intros _ <-]].
  destruct (Qle_bool u now) eqn:Hle; [|done]. apply Qle_bool_iff in Hle. unfold guards in *.
  destruct (decide (ip = ip')) as [<-|Hne].
  - destruct (forget_own ip st) as [-> ->]. split; [|done]. rewrite Hu in Hg. by eapply guarded_expire.
  - destruct (forget_other ip' ip st Hne) as [-> ->]. split; [done|]. intros _ ->. done.
Qed.

Lemma success_guards k now f st ip ip' h :
  (0 < k)%nat → guards k now f st ip h →
  guards k now f (record_success ip' st) ip (if decide (ip' = ip) then [] else h).
Proof.
  intros Hk Hg. unfold guards, record_success in *. destruct (decide (ip' = ip)) as [->|Hne].
  - destruct (forget_own ip st) as [-> ->]. apply guarded_fresh; [done|]. by destruct Hg.
  - by destruct (forget_other ip' ip st) as [-> ->].
Qed.

(** A failure of an attempt that was past the check. *)
Lemma failure_guards k now f st ip h :
  guards k now (Datatypes.S f) st ip h → guards k now f (record_failure now ip st).2 ip (h ++ [now]).
Proof.
  intros (Hf & Hall & Hb & old & e & -> & (c & Hc & Hfl) & Hold & Hlk). unfold guards.
  set (cut := (now - LOCKOUT_WINDOW_SECONDS)%Q) in *.
  assert (cut < now)%Q as Hcut by (unfold cut, LOCKOUT_WINDOW_SECONDS; lra).
  assert (later_than cut (e ++ [now]) = length (after cut e ++ [now])) as Hlen
    by (unfold later_than; by rewrite after_snoc).
  assert (failures_of ip (record_failure now ip st).2 = after cut (e ++ [now]) ∧
    _locked_until (record_failure now ip st).2 !! ip
    = if (LOCKOUT_THRESHOLD <=? later_than cut (e ++ [now]))%nat then Some (now + LOCKOUT_DURATION_SECONDS)%Q
      else _locked_until st !! ip) as [Hfails Hlocks].
  { unfold record_failure, failures_of in *. fold cut. rewrite Hfl, after_after, <- after_snoc by done.
    change (length (after cut (e ++ [now]))) with (later_than cut (e ++ [now])).
    destruct (_ <=? _)%nat; cbn [snd _failures _locked_until]; by rewrite !lookup_insert_eq. }
  assert (Forall (λ t, (t <= now)%Q) ((old ++ e) ++ [now])) as Hall'.
  { apply Forall_app. split; [done|]. constructor; [lra|constructor]. }
  assert (∀ post_bound, (∀ from, (cut < from)%Q → (in_quarter from (e ++ [now]) <= post_bound)%nat) →
    (post_bound < k + 5)%nat → (∀ from, in_quarter from ((old ++ e) ++ [now]) <= 2 * k + 3)%nat) as Hall_quarters.
  { intros B HB HB' from. destruct (quarter_snoc from (old ++ e) now) as [-> | (Hfrom & _ & _)]; [apply Hb|].
    rewrite <- app_assoc, quarter_app. specialize (HB from Hfrom). specialize (Hold from Hfrom). lia. }
  rewrite Hfails, Hlocks. clear Hfails Hlocks.
  assert (0 < k)%nat as Hk by lia.
  destruct (_locked_until st !! ip) as [u|] eqn:Hu.
  - destruct Hlk as (pre & post & L & -> & HLin & HL & Hpre & Hq & Hpost).
    assert (L <= now)%Q as HLn.
    { rewrite Forall_forall in Hall. apply Hall. rewrite !elem_of_app. by right; left. }
    assert (∃ u', (if (LOCKOUT_THRESHOLD <=? later_than cut ((pre ++ post) ++ [now]))%nat
                   then Some (now + LOCKOUT_DURATION_SECONDS)%Q else Some u) = Some u' ∧
                  (L + LOCKOUT_WINDOW_SECONDS <= u')%Q) as (u' & -> & Hu').
    { destruct (_ <=? _)%nat; eexists; (split; [reflexivity|]); [|done].
      unfold LOCKOUT_DURATION_SECONDS, LOCKOUT_WINDOW_SECONDS in *. lra. }
    split_and!; [lia|done| |].
    + apply (Hall_quarters (5 + (length post + 1))%nat); [|lia]. intros from _. rewrite !quarter_app.
      pose proof (quarter_length from post). pose proof (quarter_length from [now]). specialize (Hq from).
      unfold LOCKOUT_THRESHOLD in Hq. cbn [length] in *. lia.
    + exists old, ((pre ++ post) ++ [now]). split_and!; [by rewrite <- ?app_assoc|by exists cut; split; [apply Qle_refl|]|done|].
      exists pre, (post ++ [now]), L. split_and!; try done; [by rewrite <- ?app_assoc|]. rewrite length_app. cbn. lia.
  - destruct Hlk as [Hroom Hq].
    assert (∀ from, in_quarter from (e ++ [now]) <= LOCKOUT_THRESHOLD)%nat as Hq'.
    { intros from. destruct (quarter_snoc from e now) as [-> | (_ & -> & _)]; specialize (Hq from); lia. }
    split_and!; [lia|done|apply (Hall_quarters LOCKOUT_THRESHOLD); [done|unfold LOCKOUT_THRESHOLD; lia]|].
    exists old, (e ++ [now]). split_and!; [by rewrite <- ?app_assoc|by exists cut; split; [apply Qle_refl|]|done|].
    destruct (Nat.leb_spec LOCKOUT_THRESHOLD (later_than cut (e ++ [now]))) as [Hfull|Hfew].
    + exists (e ++ [now]), [], now. split_and!; [by rewrite app_nil_r|apply elem_of_app; right; by left| | |done|cbn; lia].
      * unfold LOCKOUT_DURATION_SECONDS, LOCKOUT_WINDOW_SECONDS. lra.
      * by rewrite app_assoc.
    + split; [done|]. intros from. destruct (quarter_snoc from e now) as [-> | (_ & -> & Hin)]; [done|].
      fold cut in Hin. rewrite Hlen, length_app in Hfew. unfold later_than in Hin. cbn [length] in Hfew. lia.
Qed.

Lemma failure_other k now f st ip ip' h :
  ip' ≠ ip → guards k now f st ip h → guards k now f (record_failure now ip' st).2 ip h.
Proof.
  intros Hne. unfold guards, failures_of, record_failure.
  destruct (_ <=? _)%nat; cbn [snd _failures _locked_until]; by rewrite !lookup_insert_ne.
Qed.

(** ** The handler *)

Section Login.
Context `{Hash} (E : auditing).
Context (secret : string) (cookies : cookie_settings) (force : bool).
Context (checkpw : string → string → outcome bool).

Notation login_submit := (login_submit E secret cookies force checkpw).
Notation login_enabled := (is_local_password_login_enabled E force).

(** What only the trail and the notice change. *)
Definition same_tables (s s' : dashboard) : Prop :=
  proxy_config s' = proxy_config s ∧ lockouts s' = lockouts s ∧ request_windows s' = request_windows s.

Lemma audit_tables c s : same_tables s (Effects.audit E c s).2.
Proof. unfold Effects.audit. by destruct (log_audit _ _ _ _). Qed.

Lemma login_audit_sound c s : polite E → sound s → sound (Effects.audit E c s).2.
Proof.
  intros Hp Hs. pose proof (audit_post E c s Hp Hs) as Hpost.
  destruct (Effects.audit E c s). by destruct Hpost.
Qed.

Lemma login_enabled_spec s :
  ∃ s', login_enabled s =
          (Ret (force || match proxy_config s !! LOCAL_PASSWORD_ENABLED_KEY with
                         | None => true | Some v => bool_decide (v = "1") end), s') ∧
        same_tables s s' ∧ (polite E → sound s → sound s').
Proof.
  unfold is_local_password_login_enabled. destruct force; [|by eexists].
  unfold break_glass_notice, bind, gets, modify, ret, catch. cbn.
  destruct (_force_local_password_audited s); [by eexists|].
  unfold get_config, gets. cbn.
  destruct (bool_decide _); [|by eexists].
  set (s1 := with_notice true s).
  pose proof (audit_tables (admin_row "auth.local_password.break_glass" "active"
    (Some break_glass_detail) None) s1) as Ht.
  pose proof (login_audit_sound (admin_row "auth.local_password.break_glass" "active"
    (Some break_glass_detail) None) s1) as Hs.
  destruct (Effects.audit E _ s1) as [[[]|e] s2]; cbn in *; by eexists.
Qed.

(** An answer that tells a wrong password, and one that is a page at all. *)
Definition wrong_password (a : outcome answer) : bool :=
  match a with Ret (Page _ status _) => status =? 401 | _ => false end.
Definition is_page (a : outcome answer) : bool :=
  match a with Ret (Page _ _ _) => true | _ => false end.

Lemma after_audit {A} c (k : M dashboard A) s :
  ∃ s1, same_tables s s1 ∧
    ((∃ e, (do _ <- Effects.audit E c; k) s = (Raise e, s1)) ∨ (do _ <- Effects.audit E c; k) s = k s1).
Proof.
  pose proof (audit_tables c s) as Ht. unfold bind.
  destruct (Effects.audit E c s) as [[[]|e] s1]; exists s1; (split; [exact Ht|]); [by right|left; by exists e].
Qed.

(** ** The pieces of a sign-in *)

(** The page of a refusal is not the one of a wrong password. *)
Definition refused_or_raised {A} (o : outcome (option A)) (wrong : A → bool) : Prop :=
  ∀ a, o = Ret (Some a) → wrong a = false.

Lemma login_gate_spec r s :
  let '(o, s') := login_gate E force r s in
  let '(u, l) := is_locked (locked_at r) (client_ip (client r)) (lockouts s) in
  (lockouts s' = lockouts s ∧ o ≠ Ret None ∨ lockouts s' = l ∧ (o = Ret None → u = None)) ∧
  (∀ a, o = Ret (Some a) → wrong_password (Ret a) = false).
Proof.
  unfold login_gate. unfold bind at 1, is_admin_password_set, get_config, bind at 1, gets, ret.
  destruct (is_locked _ _ _) as [u l] eqn:Hlk.
  destruct (truthy _); cbn [negb]; [|by split; [left|intros a [= <-]]].
  unfold bind at 1. destruct (login_enabled_spec s) as (s1 & -> & (Hcfg & Hl1 & _) & _).
  destruct (force || _); cbn [negb].
  2: { match goal with |- context [bind (Effects.audit E ?c) (λ _, ?k) ?s2] =>
         destruct (after_audit c k s2) as (s2' & (_ & Hl2 & _) & [[e ->]| ->]) end;
       (split; [left; split; [congruence|done]|]); intros a Ha; try done; by injection Ha as <-. }
  unfold bind at 1, lockout_check. rewrite Hl1, Hlk. destruct u as [u|]; [|by split; [right|]].
  match goal with |- context [bind (Effects.audit E ?c) (λ _, ?k) ?s2] =>
    destruct (after_audit c k s2) as (s2' & (_ & Hl2 & _) & [[e ->]| ->]) end;
    (split; [by right|]); intros a Ha; try done; by injection Ha as <-.
Qed.

Lemma rate_gate_spec r s :
  let '(o, s') := rate_gate E r s in
  lockouts s' = lockouts s ∧ (∀ a, o = Ret (Some a) → wrong_password (Ret a) = false).
Proof.
  unfold rate_gate, rate_check. unfold bind at 1. destruct (check _ _ _ _) as [[] w]; cbn [negb]; [done|].
  match goal with |- context [bind (Effects.audit E ?c) (λ _, ?k) ?s2] =>
    destruct (after_audit c k s2) as (s2' & (_ & Hl2 & _) & [[e ->]| ->]) end;
    (split; [done|]); intros a Ha; try done; by injection Ha as <-.
Qed.

Lemma password_gate_spec r s :
  let '(o, s') := password_gate checkpw r s in
  s' = s ∧ (∀ a, o = Ret (inl a) → wrong_password (Ret a) = false).
Proof.
  unfold password_gate. destruct (bool_decide (password r = "")); [split; [done|by intros a [= <-]]|].
  assert (∀ o s1, verify_admin_password checkpw (password r) s = (o, s1) → s1 = s) as Hpure.
  { unfold verify_admin_password, bind, get_config, gets, lift, ret. intros o s1 Hv. cases; congruence. }
  unfold bind. destruct (verify_admin_password _ _ s) as [[good|e] s1]; by rewrite (Hpure _ _ eq_refl).
Qed.

Lemma verdict_spec r good s :
  let '(a, s') := verdict E secret cookies r good s in
  lockouts s' = (if good then record_success (client_ip (client r)) (lockouts s)
                 else (record_failure (failed_at r) (client_ip (client r)) (lockouts s)).2) ∧
  is_page a = negb good && wrong_password a ∧ (good = true → wrong_password a = false).
Proof.
  unfold verdict. destruct good.
  - unfold bind at 1, note_success, modify.
    match goal with |- context [bind (Effects.audit E ?c) ?k ?s2] =>
      destruct (after_audit c (signed_in secret cookies r) s2) as (s3 & (_ & Hl & _) & [[e Heq]|Heq]) end;
      by rewrite Heq; split.
  - destruct (record_failure (failed_at r) (client_ip (client r)) (lockouts s)) as [out l] eqn:Hrec.
    unfold bind at 1, note_failure. rewrite Hrec.
    match goal with |- context [bind (Effects.audit E ?c) (λ _, ?k) ?s2] =>
      destruct (after_audit c k s2) as (s3 & (_ & Hl & _) & [[e ->]| ->]) end; by split.
Qed.

(** ** Sign-ins at once

    An attempt goes on from piece to piece while others do; between two pieces
    anything else of the dashboard may change, the lock-outs apart, which only
    sign-ins touch. *)

Inductive stage := Checked | Limited | Verified (good : bool) | Answered.

Record sign_ins := {
  board : dashboard;
  clock : Q;
  attempts : list (login_request * stage);
  answers : list (login_request * outcome answer);
}.

Definition goes_to (i : nat) (r : login_request) (st : stage) (b : dashboard) (s : sign_ins) : sign_ins :=
  {| board := b; clock := clock s; attempts := <[i := (r, st)]> (attempts s); answers := answers s |}.
Definition ends_with (i : nat) (r : login_request) (a : outcome answer) (b : dashboard) (t : Q) (s : sign_ins) : sign_ins :=
  {| board := b; clock := t; attempts := <[i := (r, Answered)]> (attempts s); answers := answers s ++ [(r, a)] |}.

Inductive move := Begin (r : login_request) | Proceed (i : nat) | Elsewhere (b : dashboard).

(** A move that is not possible, or whose clock would go back, is skipped. *)
Definition login_move (s : sign_ins) (m : move) : sign_ins :=
  match m with
  | Begin r =>
      if Qle_bool (clock s) (locked_at r) then
        let '(o, b) := login_gate E force r (board s) in
        let begun attempts answers :=
          {| board := b; clock := locked_at r; attempts := attempts; answers := answers |} in
        match o with
        | Ret None => begun (attempts s ++ [(r, Checked)]) (answers s)
        | Ret (Some a) => begun (attempts s) (answers s ++ [(r, Ret a)])
        | Raise e => begun (attempts s) (answers s ++ [(r, Raise e)])
        end
      else s
  | Proceed i =>
      match attempts s !! i with
      | Some (r, Checked) =>
          let '(o, b) := rate_gate E r (board s) in
          match o with
          | Ret None => goes_to i r Limited b s
          | Ret (Some a) => ends_with i r (Ret a) b (clock s) s
          | Raise e => ends_with i r (Raise e) b (clock s) s
          end
      | Some (r, Limited) =>
          let '(o, b) := password_gate checkpw r (board s) in
          match o with
          | Ret (inr good) => goes_to i r (Verified good) b s
          | Ret (inl a) => ends_with i r (Ret a) b (clock s) s
          | Raise e => ends_with i r (Raise e) b (clock s) s
          end
      | Some (r, Verified good) =>
          if Qle_bool (clock s) (failed_at r) then
            let '(a, b) := verdict E secret cookies r good (board s) in ends_with i r a b (failed_at r) s
          else s
      | _ => s
      end
  | Elsewhere b =>
      {| board := with_lockouts (lockouts (board s)) b; clock := clock s; attempts := attempts s;
         answers := answers s |}
  end.

Definition login_run (ms : list move) (s : sign_ins) : sign_ins := fold_left login_move ms s.

(** The attempts of an address that are past the check and not over. *)
Definition under_way (ip : string) (a : login_request * stage) : bool :=
  bool_decide (client_ip (client (fst a)) = ip) && match snd a with Answered => false | _ => true end.
Definition crowd (ip : string) (s : sign_ins) : nat := length (List.filter (under_way ip) (attempts s)).

(** When an address was told of a wrong password since it last got anything
    but a page. *)
Definition told (ip : string) (acc : list Q) (x : login_request * outcome answer) : list Q :=
  if decide (client_ip (client (fst x)) = ip)
  then if wrong_password (snd x) then acc ++ [failed_at (fst x)] else if is_page (snd x) then acc else []
  else acc.
Definition wrongs (ip : string) (outs : list (login_request * outcome answer)) : list Q := fold_left (told ip) outs [].

Definition watched (k : nat) (ip : string) (s : sign_ins) : Prop := ∃ h,
  guards k (clock s) (crowd ip s) (lockouts (board s)) ip h ∧ wrongs ip (answers s) `sublist_of` h.

Lemma wrongs_snoc ip outs x : wrongs ip (outs ++ [x]) = told ip (wrongs ip outs) x.
Proof. unfold wrongs. by rewrite fold_left_app. Qed.

(** An answer that tells no wrong password leaves the history as it is. *)
Lemma told_other ip acc h r a : wrong_password a = false → acc `sublist_of` h → told ip acc (r, a) `sublist_of` h.
Proof.
  intros Ha Hacc. unfold told. cbn [fst snd]. rewrite Ha. destruct (decide _); [|done].
  destruct (is_page a); [done|apply sublist_nil_l].
Qed.

Lemma crowd_insert {A} (f : A → bool) l i x y :
  l !! i = Some x →
  (length (List.filter f (<[i := y]> l)) + (if f x then 1 else 0)
   = length (List.filter f l) + (if f y then 1 else 0))%nat.
Proof.
  intros Hi. rewrite <- (take_drop_middle l i x Hi) at 2. rewrite insert_take_drop by by eapply lookup_lt_Some.
  rewrite !List.filter_app, !length_app. cbn [List.filter]. destruct (f x), (f y); cbn [length]; lia.
Qed.

Lemma ends_crowd ip i r st a b t s :
  attempts s !! i = Some (r, st) → st ≠ Answered →
  crowd ip s = ((if decide (client_ip (client r) = ip) then 1 else 0) + crowd ip (ends_with i r a b t s))%nat.
Proof.
  intros Hi Hst. unfold crowd, ends_with. cbn [attempts].
  pose proof (crowd_insert (under_way ip) (attempts s) i (r, st) (r, Answered) Hi) as Hc.
  unfold under_way at 2 4 in Hc. cbn [fst snd] in Hc. rewrite andb_false_r in Hc.
  assert (match st with Answered => false | _ => true end = true) as Hon by by destruct st.
  rewrite Hon, andb_true_r in Hc. case_bool_decide; [rewrite decide_True by done|rewrite decide_False by done]; lia.
Qed.

Lemma goes_crowd ip i r st st' b s :
  attempts s !! i = Some (r, st) → st ≠ Answered → st' ≠ Answered → crowd ip (goes_to i r st' b s) = crowd ip s.
Proof.
  intros Hi Hst Hst'. unfold crowd, goes_to. cbn [attempts].
  pose proof (crowd_insert (under_way ip) (attempts s) i (r, st) (r, st') Hi) as Hc.
  unfold under_way at 2 4 in Hc. cbn [fst snd] in Hc.
  assert (match st with Answered => false | _ => true end = match st' with Answered => false | _ => true end) as Hon
    by by destruct st, st'.
  rewrite Hon in Hc. destruct (_ && _); lia.
Qed.

(** An attempt ends with no word of the password. *)
Lemma ends_watched k ip i r st a b s :
  attempts s !! i = Some (r, st) → st ≠ Answered → lockouts b = lockouts (board s) → wrong_password a = false →
  watched k ip s → watched k ip (ends_with i r a b (clock s) s).
Proof.
  intros Hi Hst Hl Ha (h & Hg & Hsub). exists h. split.
  - cbn [clock board ends_with]. rewrite Hl. eapply guarded_leave; [|exact Hg].
    pose proof (ends_crowd ip i r st a b (clock s) s Hi Hst). lia.
  - cbn [answers ends_with]. rewrite wrongs_snoc. by apply told_other.
Qed.

Lemma goes_watched k ip i r st st' b s :
  attempts s !! i = Some (r, st) → st ≠ Answered → st' ≠ Answered → lockouts b = lockouts (board s) →
  watched k ip s → watched k ip (goes_to i r st' b s).
Proof.
  intros Hi Hst Hst' Hl (h & Hg & Hsub). exists h. split; [|exact Hsub].
  cbn [clock board goes_to]. rewrite Hl. by rewrite (goes_crowd ip i r st st').
Qed.

Lemma verdict_watched k ip i r good s :
  (0 < k)%nat → attempts s !! i = Some (r, Verified good) → (clock s <= failed_at r)%Q → watched k ip s →
  let '(a, b) := verdict E secret cookies r good (board s) in watched k ip (ends_with i r a b (failed_at r) s).
Proof.
  intros Hk Hi Hle (h & Hg & Hsub). pose proof (verdict_spec r good (board s)) as Hv.
  destruct (verdict E secret cookies r good (board s)) as [a b]. destruct Hv as (Hl & Hpage & Hgood).
  apply (guarded_later k _ (failed_at r)) in Hg; [|done].
  pose proof (ends_crowd ip i r (Verified good) a b (failed_at r) s Hi ltac:(done)) as Hcrowd.
  destruct good; cbn [negb andb] in *.
  - exists (if decide (client_ip (client r) = ip) then [] else h). split.
    + cbn [clock board ends_with]. rewrite Hl. apply success_guards; [done|].
      eapply guarded_leave; [|exact Hg]. lia.
    + cbn [answers ends_with]. rewrite wrongs_snoc. unfold told. cbn [fst snd].
      rewrite (Hgood eq_refl), Hpage. by destruct (decide _).
  - destruct (decide (client_ip (client r) = ip)) as [<-|Hne].
    + exists (h ++ [failed_at r]). split.
      * cbn [clock board ends_with]. rewrite Hl. apply failure_guards. by rewrite Hcrowd in Hg.
      * cbn [answers ends_with]. rewrite wrongs_snoc. unfold told. cbn [fst snd]. rewrite decide_True by done.
        rewrite Hpage. destruct (wrong_password a); [by apply sublist_app|apply sublist_nil_l].
    + exists h. split.
      * cbn [clock board ends_with]. rewrite Hl. apply failure_other; [done|]. by rewrite Hcrowd in Hg.
      * cbn [answers ends_with]. rewrite wrongs_snoc. unfold told. cbn [fst snd]. by rewrite decide_False.
Qed.

Lemma begin_watched k ip r s :
  (crowd ip (login_move s (Begin r)) <= k)%nat → watched k ip s → watched k ip (login_move s (Begin r)).
Proof.
  cbn [login_move]. destruct (Qle_bool _ _) eqn:Hle; [|done]. apply Qle_bool_iff in Hle.
  intros Hcrowd (h & Hg & Hsub). apply (guarded_later k _ (locked_at r)) in Hg; [|done].
  pose proof (login_gate_spec r (board s)) as Hgate. destruct (login_gate E force r (board s)) as [o b].
  pose proof (is_locked_guards k (locked_at r) _ _ ip (client_ip (client r)) h Hg) as Hlock.
  destruct (is_locked _ _ _) as [u l]. destruct Hgate as [Hl Hno]. destruct Hlock as [Hg' Hfree].
  assert (guards k (locked_at r) (crowd ip s) (lockouts b) ip h) as Hgb
    by by destruct Hl as [[-> _]|[-> _]].
  destruct o as [[a|]|e]; cbn [crowd attempts] in *; exists h; cbn [clock board attempts answers crowd].
  - split; [exact Hgb|]. rewrite wrongs_snoc. by apply told_other; [apply Hno|].
  - split; [|done]. destruct Hl as [[_ Hn]|[-> Hu]]; [done|]. specialize (Hu eq_refl).
    unfold crowd in Hcrowd |- *. cbn [attempts] in Hcrowd |- *. unfold guards in *.
    rewrite List.filter_app, length_app in Hcrowd |- *. cbn [List.filter] in Hcrowd |- *.
    unfold under_way at 2 in Hcrowd. unfold under_way at 2. cbn [fst snd] in *. rewrite andb_true_r in *.
    case_bool_decide as Hip.
    + rewrite (Hfree Hu Hip) in *. by eapply guarded_enter.
    + cbn [length] in *. by rewrite Nat.add_0_r in *.
  - split; [exact Hgb|]. rewrite wrongs_snoc. by apply told_other.
Qed.

Lemma move_watched k ip m s :
  (0 < k)%nat → (crowd ip (login_move s m) <= k)%nat → watched k ip s → watched k ip (login_move s m).
Proof.
  intros Hk Hcrowd Hw. destruct m as [r|i|b]; [by apply begin_watched| |exact Hw].
  cbn [login_move] in *. destruct (attempts s !! i) as [[r [| |good|]]|] eqn:Hi; [| | |done|done].
  - pose proof (rate_gate_spec r (board s)) as Hr. destruct (rate_gate E r (board s)) as [[[a|]|e] b];
      destruct Hr as [Hl Ha]; [eapply ends_watched|eapply goes_watched|eapply ends_watched]; eauto; try done.
  - pose proof (password_gate_spec r (board s)) as Hr. destruct (password_gate checkpw r (board s)) as [[[a|good]|e] b];
      destruct Hr as [-> Ha]; [eapply ends_watched|eapply goes_watched|eapply ends_watched]; eauto; try done.
  - destruct (Qle_bool _ _) eqn:Hle; [|done]. apply Qle_bool_iff in Hle.
    pose proof (verdict_watched k ip i r good s Hk Hi Hle Hw) as Hv. by destruct (verdict _ _ _ _ _ _).
Qed.

Lemma run_watched k ip ms s :
  (0 < k)%nat → (∀ ms', ms' `prefix_of` ms → (crowd ip (login_run ms' s) <= k)%nat) →
  watched k ip s → watched k ip (login_run ms s).
Proof.
  intros Hk. revert s. induction ms as [|m ms IH]; intros s Hcrowd Hw; [done|]. cbn [login_run fold_left].
  apply IH.
  - intros ms' Hpre. apply (Hcrowd (m :: ms')). by apply prefix_cons.
  - apply move_watched; [done| |done]. apply (Hcrowd [m]). apply prefix_cons, prefix_nil.
Qed.

(** C27: whatever the schedule of the sign-ins, an address that never has more
    than [k] of them past the lock-out check at once is told, since it last got
    anything but a page, of at most 2k + 3 wrong passwords in any quarter of an
    hour: five when its sign-ins come one at a time.  The check and the count
    are apart in the handler, with the form and the password's thread between
    them, so the bound of five is not kept by attempts at once
    ([attempts_at_once]). *)
Theorem guesses_bounded k ms s ip from :
  _failures (lockouts (board s)) = ∅ → _locked_until (lockouts (board s)) = ∅ →
  attempts s = [] → answers s = [] →
  (0 < k)%nat → (∀ ms', ms' `prefix_of` ms → (crowd ip (login_run ms' s) <= k)%nat) →
  (in_quarter from (wrongs ip (answers (login_run ms s))) <= 2 * k + 3)%nat.
Proof.
  intros Hf Hl Hat Han Hk Hcrowd. destruct (run_watched k ip ms s Hk Hcrowd) as (h & (_ & _ & Hb & _) & Hsub).
  - exists []. unfold guards, failures_of. rewrite Hf, Hl, !lookup_empty, Han. split; [|done].
    apply guarded_fresh; [done|]. unfold crowd. rewrite Hat. cbn. lia.
  - etransitivity; [|apply (Hb from)]. by apply sublist_quarter.
Qed.

(** ** What a sign-in takes *)

(** What has passed the gate, or been refused without a cookie. *)
Lemma login_gate_passed r s o s' :
  login_gate E force r s = (Ret o, s') →
  (∀ a, o = Some a → ∀ url c, a ≠ Redirect url (Some c)) ∧
  (o = None → ∃ s1 l, s' = with_lockouts l s1 ∧ same_tables s s1 ∧ (polite E → sound s → sound s1) ∧
     (force = true ∨ proxy_config s !! LOCAL_PASSWORD_ENABLED_KEY ∈ [None; Some "1"]) ∧
     (is_locked (locked_at r) (client_ip (client r)) (lockouts s)).1 = None).
Proof.
  unfold login_gate. intros (registered & s0 & Hreg & Hrest)%bind_Ret.
  assert (s0 = s) as -> by (unfold is_admin_password_set, bind, get_config, gets, ret in Hreg; congruence).
  destruct registered; cbn [negb] in Hrest; [|by injection Hrest as <- <-; split; [intros a [= <-]|]].
  apply bind_Ret in Hrest as (enabled & s1 & Hen & Hrest).
  destruct (login_enabled_spec s) as (s1' & Heq & Htab & Hs1). rewrite Heq in Hen.
  injection Hen as Hen <-.
  destruct enabled; cbn [negb] in Hrest.
  2: { apply bind_Ret in Hrest as (? & ? & _ & Hrest). injection Hrest as <- <-. by split; [intros a [= <-]|]. }
  apply bind_Ret in Hrest as (locked & s2 & Hlock & Hrest). unfold lockout_check in Hlock.
  pose proof Htab as (_ & Hl1 & _). rewrite Hl1 in Hlock. destruct (is_locked _ _ _) as [u l] eqn:Hlk.
  injection Hlock as <- <-. destruct u as [u|].
  { apply bind_Ret in Hrest as (? & ? & _ & Hrest). injection Hrest as <- <-. by split; [intros a [= <-]|]. }
  injection Hrest as <- <-. split; [done|]. intros _. exists s1', l. split_and!; try done.
  destruct force; [by left|right]. cbn [orb] in Hen.
  destruct (proxy_config s !! LOCAL_PASSWORD_ENABLED_KEY) as [v|]; [|left].
  apply bool_decide_eq_true in Hen as ->. right. left.
Qed.

(** the handler sets a session cookie only when a password hash is stored
    and the password matches it, password sign-in is enabled, the address is
    neither locked nor over its rate, and, under fail-deny, the success is in
    the trail. *)
Theorem login_earned r s url c s' :
  polite E → fail_deny E → sound s → login_submit r s = (Ret (Redirect url (Some c)), s') →
  (∃ hash, proxy_config s !! ADMIN_PASSWORD_KEY = Some hash ∧ hash ≠ "" ∧
     checkpw (password r) hash = Ret true) ∧
  (force = true ∨ proxy_config s !! LOCAL_PASSWORD_ENABLED_KEY ∈ [None; Some "1"]) ∧
  (is_locked (locked_at r) (client_ip (client r)) (lockouts s)).1 = None ∧
  (check (limited_at r) ("ip:" +:+ client_ip (client r) +:+ ":dashboard.login")
     LOGIN_RATE_PER_MINUTE (request_windows s)).1 = true ∧
  c = set_session secret cookies "admin" None None (csrf r) (session_at r) ∧
  in_trail E (admin_row "auth.login" "success" (Some ("ip=" +:+ client_ip (client r))) None) s' ∧
  sound s'.
Proof.
  intros Hp Hfd Hs. unfold DashboardLogin.login_submit.
  intros (gate & s2 & Hgate & Hrest)%bind_Ret. apply login_gate_passed in Hgate as [Hno Hgate].
  destruct gate as [a|]; [injection Hrest as -> <-; by destruct (Hno _ eq_refl url c)|].
  destruct (Hgate eq_refl) as (s1 & l & -> & (Hcfg & Hl1 & Hw1) & Hs1 & Hen & Hlk). specialize (Hs1 Hp Hs).
  apply bind_Ret in Hrest as (ratio & s3 & Hrate & Hrest). unfold rate_gate in Hrate.
  apply bind_Ret in Hrate as (ok & s4 & Hcheck & Hrate). unfold rate_check in Hcheck.
  cbn [request_windows with_lockouts] in Hcheck. rewrite Hw1 in Hcheck.
  destruct (check _ _ _ _) as [ok' w] eqn:Hck. injection Hcheck as <- <-.
  destruct ok'; cbn [negb] in Hrate.
  2: { apply bind_Ret in Hrate as (? & ? & _ & Hrate). by injection Hrate as <- <-. }
  injection Hrate as <- <-. apply bind_Ret in Hrest as (checked & s4 & Hgood & Hrest).
  unfold password_gate in Hgood. destruct (bool_decide (password r = "")) eqn:Hpw; [by injection Hgood as <- <-|].
  apply bind_Ret in Hgood as (good & s5 & Hver & Hgood). injection Hgood as <- <-.
  unfold verify_admin_password in Hver. rewrite Hpw in Hver.
  apply bind_Ret in Hver as (stored & s6 & Hget & Hver). unfold get_config, gets in Hget.
  injection Hget as <- <-. cbn [proxy_config with_lockouts with_windows] in Hver. rewrite Hcfg in Hver.
  destruct good.
  2: { apply bind_Ret in Hrest as (? & ? & _ & Hrest).
       by apply bind_Ret in Hrest as (? & ? & _ & Hrest). }
  destruct (proxy_config s !! ADMIN_PASSWORD_KEY) as [[|ch hash]|] eqn:Hhash; try done.
  assert (checkpw (password r) (String ch hash) = Ret true ∧ s5 = with_windows w (with_lockouts l s1))
    as [Hcheck ->].
  { unfold lift, ret in Hver. destruct (checkpw _ _) as [[]|[]]; by simplify_eq. }
  unfold verdict in Hrest. apply bind_Ret in Hrest as ([] & s6 & Hnote & Hrest). injection Hnote as <-.
  apply bind_Ret in Hrest as ([] & s7 & Haudit & Hrest).
  match type of Haudit with Effects.audit E ?row ?s0 = _ =>
    pose proof (audit_post E row s0 Hp Hs1) as Hpost end.
  rewrite Haudit in Hpost. destruct Hpost as (Hs7 & Hin & _). destruct (Hin eq_refl Hfd) as [_ Hrow].
  assert (c = set_session secret cookies "admin" None None (csrf r) (session_at r) ∧ s' = s7) as [-> ->].
  { unfold signed_in, _post_login_redirect, bind, get_config, gets, ret in Hrest. by simplify_eq. }
  split_and!; try done.
  by exists (String ch hash).
Qed.

End Login.

(** ** Registration *)

(** The first password is set once: with a hash stored, neither the form nor
    the seed of the first boot changes it. *)
Theorem registration_closed `{Hash} E secret cookies hashpw r plaintext s hash :
  proxy_config s !! ADMIN_PASSWORD_KEY = Some hash → hash ≠ "" →
  register_submit E secret cookies hashpw r s = (Ret (Redirect "/proxy/login" None), s) ∧
  ∃ b, seed_initial_admin_password hashpw plaintext s = (b, s).
Proof.
  intros Hhash Hne.
  assert (is_admin_password_set s = (Ret true, s)) as Hset.
  { unfold is_admin_password_set, bind, get_config, gets, ret. rewrite Hhash. by destruct hash. }
  split.
  - unfold register_submit, bind at 1. by rewrite Hset.
  - unfold seed_initial_admin_password. destruct (bool_decide _); [by eexists|].
    unfold bind at 1. rewrite Hset. by eexists.
Qed.

(** The end of a lock-out forgets the failures: after five failures and the
    wait, four more do not lock the address again. *)
Theorem lockout_expiry_forgives :
  let empty := {| _failures := ∅; _locked_until := ∅ |} in
  let fail ts st := foldl (λ st t, (record_failure t "a" st).2) st ts in
  let locked := fail [0; 1; 2; 3; 4]%Q empty in
  (is_locked 903 "a" locked).1 = Some 904%Q ∧
  (is_locked 904 "a" locked).1 = None ∧
  (is_locked 910 "a" (fail [905; 906; 907; 908]%Q (is_locked 904 "a" locked).2)).1 = None.
Proof. vm_compute. split_and!; reflexivity. Qed.

(** ** Witnesses *)

Module LoginDemo.
(** An administrator whose password is [hunter22], behind a checker that
    compares texts; the trail is undisturbed. *)
Definition E : auditing :=
  {| audit_at _ := {| now_iso := "2026-01-01T00:00:00+00:00"; current_dpop_jkt := None;
                      current_on_behalf_of_user := None; batched_chain := None;
                      audit_chain_disabled := false; audit_chain_durable := true;
                      audit_fail_deny := true |};
     db_at _ _ := calm |}.

Lemma E_polite : polite E.
Proof. intros n t Hok. by apply calm_table_benign. Qed.

Definition checkpw (plaintext hash : string) : outcome bool := Ret (bool_decide (plaintext = hash)).
Definition cfg : cookie_settings := {| environment := "production"; proxy_public_url := "" |}.

Definition start : dashboard :=
  {| d_trail := {| w_table := []; w_pending := []; w_unhealthy := false |}; d_audits := 0;
     proxy_config := {[ADMIN_PASSWORD_KEY := "hunter22"; "org_id" := "acme"]};
     lockouts := {| _failures := ∅; _locked_until := ∅ |}; request_windows := ∅;
     _force_local_password_audited := false |}.

Definition attempt_until (guess : string) (t t' : Z) : login_request :=
  {| client := Some "203.0.113.9"; password := guess; confirm_password := ""; user_agent := "curl";
     locked_at := inject_Z t; limited_at := t * 1000000000; failed_at := inject_Z t';
     session_at := inject_Z t'; csrf := "00112233445566778899aabbccddeeff" |}.
Definition attempt (guess : string) (t : Z) : login_request := attempt_until guess t t.

Definition guesses : list login_request :=
  [attempt "a" 1; attempt "b" 2; attempt "c" 3; attempt "d" 4; attempt "e" 5; attempt "hunter22" 6].

Definition one_at_a_time : list move :=
  concat (imap (λ i r, [Begin r; Proceed i; Proceed i; Proceed i]) guesses).
Definition ten_at_once : list move :=
  ((λ i, Begin (attempt_until "guess" (Z.of_nat i + 1) (Z.of_nat i + 11))) <$> seq 0 10) ++
  ((λ i, Proceed i) <$> seq 0 10) ++ ((λ i, Proceed i) <$> seq 0 10) ++ ((λ i, Proceed i) <$> seq 0 10).

Definition fresh : sign_ins := {| board := start; clock := 0; attempts := []; answers := [] |}.
Notation ran ms := (login_run E "k" cfg false checkpw ms fresh).

Lemma below_all ip k ms :
  forallb (λ n, crowd ip (ran (take n ms)) <=? k)%nat (seq 0 (Datatypes.S (length ms))) = true →
  ∀ ms', ms' `prefix_of` ms → (crowd ip (ran ms') <= k)%nat.
Proof.
  intros Hall ms' [rest ->]. rewrite forallb_forall in Hall. specialize (Hall (length ms')).
  rewrite take_app_length in Hall. apply Nat.leb_le, Hall, in_seq. rewrite length_app. lia.
Qed.

Notation submit := (login_submit E "k" cfg false checkpw).
End LoginDemo.

(** The sixth attempt is refused although the password is right. *)
Lemma guesses_bounded_witness :
  wrongs "203.0.113.9" (answers (LoginDemo.ran LoginDemo.one_at_a_time)) = [1; 2; 3; 4; 5]%Q ∧
  length (answers (LoginDemo.ran LoginDemo.one_at_a_time)) = 6%nat ∧
  (in_quarter 1 (wrongs "203.0.113.9" (answers (LoginDemo.ran LoginDemo.one_at_a_time))) <= 2 * 1 + 3)%nat.
Proof.
  split; [vm_compute; reflexivity|]. split; [vm_compute; reflexivity|].
  apply (guesses_bounded LoginDemo.E "k" LoginDemo.cfg false LoginDemo.checkpw 1 LoginDemo.one_at_a_time
    LoginDemo.fresh "203.0.113.9" 1); [reflexivity|reflexivity|reflexivity|reflexivity|lia|].
  apply LoginDemo.below_all. vm_compute. reflexivity.
Defined.

(** Ten attempts that are all past the check before the first is counted: ten
    wrong passwords are told, and the eleventh attempt is the first to meet the
    lock-out.  What bounds them is the rate of ten a minute, and nothing bounds
    how long an attempt may be held at its form. *)
Theorem attempts_at_once :
  wrongs "203.0.113.9" (answers (LoginDemo.ran LoginDemo.ten_at_once))
  = [11; 12; 13; 14; 15; 16; 17; 18; 19; 20]%Q ∧
  (_locked_until (lockouts (board (LoginDemo.ran LoginDemo.ten_at_once))) !! "203.0.113.9") = Some (920)%Q.
Proof. vm_compute. split; reflexivity. Qed.

Lemma login_earned_witness :
  ∃ s', LoginDemo.submit (LoginDemo.attempt "hunter22" 1) LoginDemo.start
        = (Ret (Redirect "/proxy/overview"
             (Some (set_session "k" LoginDemo.cfg "admin" None None
                      "00112233445566778899aabbccddeeff" 1))), s') ∧
    in_trail LoginDemo.E (admin_row "auth.login" "success" (Some "ip=203.0.113.9") None) s'.
Proof.
  eexists. split; [vm_compute; reflexivity|].
  eapply (login_earned LoginDemo.E "k" LoginDemo.cfg false LoginDemo.checkpw
    (LoginDemo.attempt "hunter22" 1) LoginDemo.start);
    [exact LoginDemo.E_polite|done|constructor|vm_compute; reflexivity].
Defined.
