(* ===== verification/ApiTokens.v ===== *)
(** * User API tokens

    The [culk_] tokens: the table and its operations in [db.py], the resolver
    of [auth/api_token.py], and the endpoints that mint and revoke, in
    [admin/api_tokens.py] and [dashboard/api_tokens.py].  What [secrets] and
    [bcrypt] give, and the times, are arguments.  A handler runs to its end
    before the next; rows a query gives in no order come in that of their
    insertion. *)

From S2P Require Import Prelude Sha256 IsoTime UtcTime Json JsonParse Base64 AuditCanon AuditLog AuditChain Effects Mdm AgentRegistry ClientCert DashboardSession TokenText.
From Stdlib Require Import QArith.

Open Scope Z_scope.

(** ** bcrypt

    The laws are for tokens, whose 57 characters are within the 72 bytes that
    bcrypt uses. *)

Class Bcrypt := {
  hashpw : string → string → string;            (* the salt, the password *)
  checkpw : string → string → outcome bool;     (* the password, the hash *)
  hash_ascii salt raw : token_raw raw → is_ascii (hashpw salt (token_text raw)) = true;
  check_own salt raw : token_raw raw → checkpw (token_text raw) (hashpw salt (token_text raw)) = Ret true;
  check_tokens salt raw raw' : token_raw raw → token_raw raw' →
    ∃ same, checkpw (token_text raw') (hashpw salt (token_text raw)) = Ret same;
  check_other salt raw password : token_raw raw →
    checkpw password (hashpw salt (token_text raw)) = Ret true → password = token_text raw;
}.

(** ** The database *)

Record token_row := {
  t_id : string;
  t_principal_id : string;
  t_label : string;
  t_token_hash : string;
  t_token_last4 : string;
  t_scope_providers_json : string;
  t_scope_paths_json : string;
  t_created_at : string;
  t_created_by : string;
  t_last_used_at : option string;
  t_last_used_ip : option string;
  t_expires_at : option string;
  t_revoked_at : option string;
  t_revoked_by : option string;
}.

Record token_state := {
  tk_trail : world;
  tk_audits : nat;
  tk_statements : nat;
  tk_draws : nat;                          (* tokens drawn so far *)
  local_user_principals : gset string;
  user_api_tokens : list token_row;
}.

#[export] Instance token_trailed : Trailed token_state := {
  trail := tk_trail;
  audit_calls := tk_audits;
  audited := λ w s, {| tk_trail := w; tk_audits := S (tk_audits s); tk_statements := tk_statements s;
                       tk_draws := tk_draws s; local_user_principals := local_user_principals s;
                       user_api_tokens := user_api_tokens s |};
  trail_audited := λ w s, eq_refl;
}.

#[export] Instance token_transactional : Transactional token_state := {
  statements := tk_statements;
  issued := λ s, {| tk_trail := tk_trail s; tk_audits := tk_audits s; tk_statements := S (tk_statements s);
                    tk_draws := tk_draws s; local_user_principals := local_user_principals s;
                    user_api_tokens := user_api_tokens s |};
  restore := λ s s',
    {| tk_trail := {| w_table := w_table (tk_trail s); w_pending := w_pending (tk_trail s');
                      w_unhealthy := w_unhealthy (tk_trail s') |};
       tk_audits := tk_audits s'; tk_statements := tk_statements s'; tk_draws := tk_draws s';
       local_user_principals := local_user_principals s; user_api_tokens := user_api_tokens s |};
}.

Definition with_tokens (l : list token_row) (s : token_state) : token_state :=
  {| tk_trail := tk_trail s; tk_audits := tk_audits s; tk_statements := tk_statements s; tk_draws := tk_draws s;
     local_user_principals := local_user_principals s; user_api_tokens := l |}.
Definition with_principals (l : gset string) (s : token_state) : token_state :=
  {| tk_trail := tk_trail s; tk_audits := tk_audits s; tk_statements := tk_statements s; tk_draws := tk_draws s;
     local_user_principals := l; user_api_tokens := user_api_tokens s |}.
Definition with_draw (s : token_state) : token_state :=
  {| tk_trail := tk_trail s; tk_audits := tk_audits s; tk_statements := tk_statements s; tk_draws := S (tk_draws s);
     local_user_principals := local_user_principals s; user_api_tokens := user_api_tokens s |}.

(** What the process reads and draws: the n-th token takes the n-th bytes,
    salt and identifier. *)
Record token_env := {
  k_auditing : auditing;
  k_fails : nat → option exn;
  k_float_literal : string → json;
  k_admin_secret : string;
  k_org_id : string;
  user_api_tokens_enabled : bool;
  user_api_token_default_ttl_days : Z;
  token_bytes : nat → list N;
  gensalt : nat → string;
  _new_token_id : nat → string;
}.

(** A row as the functions of [db.py] give it. *)
Record token_dict := {
  d_id : string;
  d_principal_id : string;
  d_label : string;
  d_token_last4 : string;
  d_scope_providers : json;
  d_scope_paths : json;
  d_created_at : string;
  d_created_by : string;
  d_last_used_at : option string;
  d_last_used_ip : option string;
  d_expires_at : option string;
  d_revoked_at : option string;
  d_revoked_by : option string;
}.

Record minted := {
  m_id : string;
  m_principal_id : string;
  m_label : string;
  m_token : string;
  m_token_last4 : string;
  m_scope_providers : list string;
  m_scope_paths : list string;
  m_created_at : string;
  m_created_by : string;
  m_expires_at : option string;
}.

Record mint_arguments := {
  a_principal_id : string;
  a_label : string;
  a_created_by : string;
  a_scope_providers : list string;
  a_scope_paths : option (list string);
  a_expires_at : option string;
  a_no_expiry : bool;
}.

Definition scope_le (a b : string) : Prop := String.leb a b = true.

#[export] Instance scope_le_dec a b : Decision (scope_le a b).
Proof. unfold scope_le. apply _. Defined.

Definition default_paths : list string := ["/v1/*"].

Definition in_days (n : Z) : Z := n * day_microseconds.

Section Tokens.
Context `{Hash} `{FromIso} `{Bcrypt} (E : token_env).

Notation M := (M token_state).
Notation statement := (statement (k_fails E)).
Notation transaction := (transaction (k_fails E)).
Notation audit := (Effects.audit (k_auditing E)).

Definition _hash_api_token (n : nat) (plaintext : string) : string := hashpw (gensalt E n) plaintext.

Definition _check_api_token (plaintext hashed : string) : outcome bool :=
  if is_ascii hashed then
    match checkpw plaintext hashed with
    | Raise ValueError | Raise TypeError => Ret false
    | r => r
    end
  else Ret false.

Definition select {A} (f : list token_row → A) : M A := statement (gets (λ s, f (user_api_tokens s))).

(** *** Minting *)

(** [not label or not label.strip()] and the checks beside it. *)
Definition arguments_ok (a : mint_arguments) : bool :=
  negb (bool_decide (a_principal_id a = "")) && negb (bool_decide (strip_text (a_label a) = "")) &&
  negb (bool_decide (a_created_by a = "")) &&
  negb (match a_expires_at a with Some _ => a_no_expiry a | None => false end).

(** The expiry that the caller names, as the clock would print it. *)
Definition normalised_expiry (expires_at : option string) : outcome (option string) :=
  match expires_at with
  | None => Ret None
  | Some text =>
      match from_iso text with
      | Some (true, t) => let! t := datetime_of t in Ret (Some (utc_text t))
      | _ => Raise ValueError
      end
  end.

Definition own_org : string := strip_text (k_org_id E).

Definition principal_allowed (principal_id : string) : bool :=
  contains "::user::" principal_id &&
  (bool_decide (own_org = "") || startswith principal_id (own_org +:+ "::")).

(** The default lifetime, when the caller named none and did not opt out. *)
Definition effective_expiry (expires_at : option string) (no_expiry : bool) (now : Z) : outcome (option string) :=
  match expires_at with
  | Some _ => Ret expires_at
  | None =>
      if negb no_expiry && (0 <? user_api_token_default_ttl_days E) then
        let! t := datetime_of (now + in_days (user_api_token_default_ttl_days E)) in Ret (Some (utc_text t))
      else Ret None
  end.

(** The bytes, the salt and the identifier of the next token. *)
Definition draw : M nat := λ s, (Ret (tk_draws s), with_draw s).

Definition insert_token (r : token_row) : M unit :=
  statement (λ s,
    if existsb (λ x, bool_decide (t_id x = t_id r)) (user_api_tokens s) then (Raise IntegrityError, s)
    else (Ret tt, with_tokens (user_api_tokens s ++ [r]) s)).

Definition new_row (n : nat) (plaintext : string) (a : mint_arguments) (expires_at : option string) (ts : string)
    : token_row :=
  {| t_id := _new_token_id E n; t_principal_id := a_principal_id a; t_label := strip_text (a_label a);
     t_token_hash := _hash_api_token n plaintext; t_token_last4 := last_chars 4 plaintext;
     t_scope_providers_json := dumps (JList (JStr <$> merge_sort scope_le (a_scope_providers a)));
     t_scope_paths_json := dumps (JList (JStr <$> default default_paths (a_scope_paths a)));
     t_created_at := ts; t_created_by := a_created_by a; t_last_used_at := None; t_last_used_ip := None;
     t_expires_at := expires_at; t_revoked_at := None; t_revoked_by := None |}.

Definition minted_of (plaintext : string) (a : mint_arguments) (r : token_row) : minted :=
  {| m_id := t_id r; m_principal_id := t_principal_id r; m_label := t_label r; m_token := plaintext;
     m_token_last4 := t_token_last4 r; m_scope_providers := merge_sort scope_le (a_scope_providers a);
     m_scope_paths := default default_paths (a_scope_paths a); m_created_at := t_created_at r;
     m_created_by := t_created_by r; m_expires_at := t_expires_at r |}.

(** The clock is read for the lifetime and for the row. *)
Definition mint_user_api_token (a : mint_arguments) (ttl_at minted_at : Z) : M minted :=
  if negb (arguments_ok a) then raise ValueError
  else
    do expires_at <- lift (normalised_expiry (a_expires_at a));
    if negb (principal_allowed (a_principal_id a)) then raise ValueError
    else
      do registered <- transaction (statement (gets (λ s, bool_decide (a_principal_id a ∈ local_user_principals s))));
      if negb registered then raise ValueError
      else
        do expires_at <- lift (effective_expiry expires_at (a_no_expiry a) ttl_at);
        do n <- draw;
        do plaintext <- lift (_new_api_token_plaintext (token_bytes E n));
        let row := new_row n plaintext a expires_at (utc_text minted_at) in
        do _ <- transaction (insert_token row);
        ret (minted_of plaintext a row).

(** *** Reading *)

(** [json.loads(text or fallback)], with the fallback where that raises. *)
Definition stored_json (text : string) (fallback : json) : json :=
  match loads (k_float_literal E) (if bool_decide (text = "") then dumps fallback else text) with
  | Ret v => v
  | Raise _ => fallback
  end.

Definition _row_to_token_dict (r : token_row) : token_dict :=
  {| d_id := t_id r; d_principal_id := t_principal_id r; d_label := t_label r; d_token_last4 := t_token_last4 r;
     d_scope_providers := stored_json (t_scope_providers_json r) (JList []);
     d_scope_paths := stored_json (t_scope_paths_json r) (JList (JStr <$> default_paths));
     d_created_at := t_created_at r; d_created_by := t_created_by r; d_last_used_at := t_last_used_at r;
     d_last_used_ip := t_last_used_ip r; d_expires_at := t_expires_at r; d_revoked_at := t_revoked_at r;
     d_revoked_by := t_revoked_by r |}.

Definition with_id (id : string) (r : token_row) : bool := bool_decide (t_id r = id).

Definition get_user_api_token (token_id : string) : M (option token_dict) :=
  transaction (select (λ l, _row_to_token_dict <$> head (List.filter (with_id token_id) l))).

Definition listed (principal_id : option string) (include_revoked : bool) (r : token_row) : bool :=
  match principal_id with Some p => bool_decide (t_principal_id r = p) | None => true end &&
  (include_revoked || bool_decide (t_revoked_at r = None)).

(** [ORDER BY created_at DESC] *)
Definition newer_token (a b : token_row) : Prop := text_lt (t_created_at a) (t_created_at b) = false.

#[export] Instance newer_token_dec a b : Decision (newer_token a b).
Proof. unfold newer_token. apply _. Defined.

Definition list_user_api_tokens (principal_id : option string) (include_revoked : bool) : M (list token_dict) :=
  transaction (select (λ l,
    map _row_to_token_dict (merge_sort newer_token (List.filter (listed principal_id include_revoked) l)))).

(** *** Verifying *)

(** [WHERE token_last4 = :last4 AND revoked_at IS NULL AND
    (expires_at IS NULL OR expires_at > :now)] *)
Definition candidate (last4 now_iso : string) (r : token_row) : bool :=
  bool_decide (t_token_last4 r = last4) && bool_decide (t_revoked_at r = None) &&
  match t_expires_at r with None => true | Some expires => text_lt now_iso expires end.

Definition _find_active_token_candidates_by_last4 (last4 : string) (now : Z) : M (list (token_dict * string)) :=
  let now_iso := utc_text now in
  transaction (select (λ l, map (λ r, (_row_to_token_dict r, t_token_hash r)) (List.filter (candidate last4 now_iso) l))).

Fixpoint first_match (plaintext : string) (l : list (token_dict * string)) : outcome (option token_dict) :=
  match l with
  | [] => Ret None
  | (d, hashed) :: rest =>
      let! same := _check_api_token plaintext hashed in
      if same : bool then Ret (Some d) else first_match plaintext rest
  end.

(** The texts that the table is searched for. *)
Definition token_shaped (plaintext : string) : bool :=
  startswith plaintext _API_TOKEN_PREFIX && Nat.eqb (length (chars plaintext)) _API_TOKEN_FULL_LEN.

Definition verify_user_api_token (plaintext : string) (now : Z) : M (option token_dict) :=
  if negb (token_shaped plaintext) then ret None
  else
    do candidates <- _find_active_token_candidates_by_last4 (last_chars 4 plaintext) now;
    lift (first_match plaintext candidates).

Definition touched (ts : string) (ip : option string) (r : token_row) : token_row :=
  {| t_id := t_id r; t_principal_id := t_principal_id r; t_label := t_label r; t_token_hash := t_token_hash r;
     t_token_last4 := t_token_last4 r; t_scope_providers_json := t_scope_providers_json r;
     t_scope_paths_json := t_scope_paths_json r; t_created_at := t_created_at r; t_created_by := t_created_by r;
     t_last_used_at := Some ts; t_last_used_ip := ip; t_expires_at := t_expires_at r;
     t_revoked_at := t_revoked_at r; t_revoked_by := t_revoked_by r |}.

Definition revoked (ts by_ : string) (r : token_row) : token_row :=
  {| t_id := t_id r; t_principal_id := t_principal_id r; t_label := t_label r; t_token_hash := t_token_hash r;
     t_token_last4 := t_token_last4 r; t_scope_providers_json := t_scope_providers_json r;
     t_scope_paths_json := t_scope_paths_json r; t_created_at := t_created_at r; t_created_by := t_created_by r;
     t_last_used_at := t_last_used_at r; t_last_used_ip := t_last_used_ip r; t_expires_at := t_expires_at r;
     t_revoked_at := Some ts; t_revoked_by := Some by_ |}.

(** An UPDATE, with [rowcount > 0]. *)
Definition update_tokens (p : token_row → bool) (f : token_row → token_row) : M bool :=
  statement (λ s, (Ret (existsb p (user_api_tokens s)), with_tokens (update_rows p f (user_api_tokens s)) s)).

Definition touch_user_api_token (token_id : string) (client_ip : option string) (now : Z) : M unit :=
  catch (do _ <- transaction (update_tokens (with_id token_id) (touched (utc_text now) client_ip)); ret tt)
        (λ _, ret tt).

Definition active_id (id : string) (r : token_row) : bool := with_id id r && bool_decide (t_revoked_at r = None).

Definition revoke_user_api_token (token_id revoked_by : string) (now : Z) : M bool :=
  transaction (update_tokens (active_id token_id) (revoked (utc_text now) revoked_by)).

(** ** The resolver *)

Record token_request := {
  rq_headers : list (string * string);    (* lower-case names *)
  rq_path : string;                       (* request.url.path *)
  rq_client : option string;              (* request.client.host *)
}.

Definition _BEARER_PREFIX : string := "bearer ".

Definition _extract_bearer_token (rq : token_request) : option string :=
  let raw := default "" (dget "authorization" (rq_headers rq)) in
  if negb (bool_decide (lower (String.substring 0 7 raw) = _BEARER_PREFIX)) then None
  else
    let token := strip_text (String.substring 7 (String.length raw - 7) raw) in
    if bool_decide (token = "") || negb (startswith token _API_TOKEN_PREFIX) then None else Some token.

Definition _principal_type_for (principal_id : string) : string :=
  if contains "::workload::" principal_id then "workload"
  else if contains "::agent::" principal_id then "agent" else "user".

(** [split("::", 2)[-1]] *)
Definition _display_name_for (principal_id : string) : string :=
  match partition "::" principal_id with
  | None => principal_id
  | Some (_, rest) => match partition "::" rest with None => rest | Some (_, name) => name end
  end.

Definition _client_ip (rq : token_request) : option string :=
  match strip_text (default "" (head (split_on "," (default "" (dget "x-forwarded-for" (rq_headers rq)))))) with
  | EmptyString => rq_client rq
  | first => Some first
  end.

(** [InternalAgent] with the scope of a token. *)
Record scoped_agent := { sc_agent : InternalAgent; sc_scope_providers : list string; sc_scope_paths : list string }.

(** A list of texts, as pydantic takes it. *)
Definition texts (v : json) : outcome (list string) :=
  match l ← as_list v; mapM as_str l with
  | Some l => Ret l
  | None => Raise (Other "ValidationError" "")
  end.

Definition token_agent (d : token_dict) : InternalAgent :=
  {| i_agent_id := d_principal_id d; i_display_name := _display_name_for (d_principal_id d); i_capabilities := [];
     i_created_at := d_created_at d; i_is_active := true; i_cert_pem := None; i_dpop_jkt := None; i_reach := "both";
     i_principal_type := _principal_type_for (d_principal_id d); i_previous_cert_pem := None;
     i_previous_dpop_jkt := None; i_previous_grace_period_expires_at := None |}.

(** The loop over the patterns; [re.escape] of anything but a text raises. *)
Fixpoint json_globs (request_path : string) (patterns : list json) : outcome bool :=
  match patterns with
  | [] => Ret false
  | JStr p :: rest => if re_fullmatch (regex_of p) request_path then Ret true else json_globs request_path rest
  | _ => Raise TypeError
  end.

Definition scope_refusal : exn := HTTPException 403 "API token scope_paths does not allow this request path".

Definition path_allowed (d : token_dict) (request_path : string) : outcome bool :=
  if py_bool (d_scope_paths d) then let! l := py_iter (d_scope_paths d) in json_globs request_path l else Ret true.

Definition _maybe_api_token_principal (rq : token_request) (now touch_at : Z) : M (option scoped_agent) :=
  if negb (user_api_tokens_enabled E) then ret None
  else
    match _extract_bearer_token rq with
    | None => ret None
    | Some token =>
        do row <- verify_user_api_token token now;
        match row with
        | None => ret None
        | Some d =>
            do allowed <- lift (path_allowed d (rq_path rq));
            if negb allowed then raise scope_refusal
            else
              do _ <- touch_user_api_token (d_id d) (_client_ip rq) touch_at;
              do providers <- lift (texts (py_or (d_scope_providers d) (JList [])));
              do paths <- lift (texts (py_or (d_scope_paths d) (JList [])));
              ret (Some {| sc_agent := token_agent d; sc_scope_providers := providers; sc_scope_paths := paths |})
        end
    end.

(** ** The administration endpoints *)

Definition _require_admin_secret (x_admin_secret : string) : outcome unit :=
  let! same := compare_digest (JStr x_admin_secret) (k_admin_secret E) in
  if same : bool then Ret tt else Raise (HTTPException 403 "invalid admin secret").

Record MintRequest := {
  b_principal_id : string;
  b_label : string;
  b_scope_providers : list string;
  b_scope_paths : option (list string);
  b_expires_at : option string;
  b_expires_in_days : option Z;
  b_created_by : option string;
}.

(** The times a request reads: for a relative expiry, for the default
    lifetime and for the row. *)
Record mint_times := { asked_at : Z; ttl_at : Z; minted_at : Z }.

Definition disabled_detail : string :=
  "user API tokens are disabled on this Mastio (MCP_PROXY_USER_API_TOKENS_ENABLED=false); minting is refused. Existing tokens can still be listed and revoked.".

Definition mint_rejected (trace_id : string) : exn :=
  HTTPException 400 ("api_token mint rejected; trace_id=" +:+ trace_id).

Definition body_arguments (b : MintRequest) (now : Z) : outcome mint_arguments :=
  let! expires_at := match b_expires_in_days b with
                     | None | Some 0 => Ret (b_expires_at b)
                     | Some n => let! t := datetime_of (now + in_days n) in Ret (Some (utc_text t))
                     end in
  Ret {| a_principal_id := b_principal_id b; a_label := b_label b;
         a_created_by := Prelude.or_default "admin-secret" (b_created_by b);
         a_scope_providers := b_scope_providers b; a_scope_paths := b_scope_paths b; a_expires_at := expires_at;
         a_no_expiry := bool_decide (b_expires_in_days b = Some 0) |}.

(** What both ways to mint write to the trail. *)
Definition mint_details (source : list (string * json)) (scope_paths : list (string * json)) (m : minted) : json :=
  JObj ([("event", JStr "api_token.mint")] ++ source ++
        [("token_id", JStr (m_id m)); ("principal_id", JStr (m_principal_id m)); ("label", JStr (m_label m));
         ("scope_providers", JList (JStr <$> m_scope_providers m))] ++ scope_paths ++
        [("expires_at", opt_json (m_expires_at m))]).

Definition mint_token (x_admin_secret trace_id : string) (ts : mint_times) (b : MintRequest) : M minted :=
  do _ <- lift (_require_admin_secret x_admin_secret);
  if negb (user_api_tokens_enabled E) then raise (HTTPException 403 disabled_detail)
  else if bool_decide (is_Some (b_expires_at b)) && bool_decide (is_Some (b_expires_in_days b)) then
    raise (HTTPException 400 "expires_at and expires_in_days are mutually exclusive; pass one or neither (default TTL applies)")
  else
    do a <- lift (body_arguments b (asked_at ts));
    do m <- catch (mint_user_api_token a (ttl_at ts) (minted_at ts))
              (λ e, match e with ValueError => raise (mint_rejected trace_id) | e => raise e end);
    do _ <- audit (success_call (a_created_by a) "api_token.mint" None
      (Some (mint_details [] [("scope_paths", JList (JStr <$> m_scope_paths m))] m)));
    ret m.

(** A row without the hash, its scope validated. *)
Definition token_meta (d : token_dict) : outcome (token_dict * list string * list string) :=
  let! providers := texts (d_scope_providers d) in
  let! paths := texts (d_scope_paths d) in
  Ret (d, providers, paths).

Definition list_tokens (x_admin_secret : string) (principal_id : option string) (include_revoked : bool)
    : M (list (token_dict * list string * list string)) :=
  do _ <- lift (_require_admin_secret x_admin_secret);
  do rows <- list_user_api_tokens principal_id include_revoked;
  lift (omapM token_meta rows).

Definition token_not_found : exn := HTTPException 404 "token not found".

Definition get_token (x_admin_secret token_id : string) : M (token_dict * list string * list string) :=
  do _ <- lift (_require_admin_secret x_admin_secret);
  do row <- get_user_api_token token_id;
  match row with None => raise token_not_found | Some d => lift (token_meta d) end.

Definition revoke_details (source : list (string * json)) (token_id principal_id : string) (effective : bool) : json :=
  JObj ([("event", JStr "api_token.revoke")] ++ source ++
        [("token_id", JStr token_id); ("principal_id", JStr principal_id); ("effective", JBool effective)]).

Definition delete_token (x_admin_secret token_id : string) (revoked_by : option string) (now : Z) : M unit :=
  do _ <- lift (_require_admin_secret x_admin_secret);
  do row <- get_user_api_token token_id;
  match row with
  | None => raise token_not_found
  | Some d =>
      let by_ := Prelude.or_default "admin-secret" revoked_by in
      do effective <- revoke_user_api_token token_id by_ now;
      audit (success_call by_ "api_token.revoke" None
        (Some (revoke_details [] token_id (d_principal_id d) effective)))
  end.

(** ** The dashboard *)

Record browser := {
  b_cookies : list (string * string);
  b_signing_key : string;
  b_seconds : Q;                            (* time.time() *)
}.

Inductive page :=
| LoginPage
| BackToUser (query : string)               (* 303 to the page of the user *)
| UserPage (new_token label : string).      (* the page of the user, with the new token on it *)

Record token_form := {
  f_fields : list (string * string);        (* the form, for the CSRF check *)
  f_label : string;
  f_expires_at : string;
  f_never_expires : string;
  f_scope_providers : list string;
}.

(** The session of a POST whose CSRF token is right; a page when there is
    none. *)
Definition guarded (b : browser) (fields : list (string * string)) : outcome (option page) :=
  let! session := require_login (k_float_literal E) (b_signing_key b) "POST" (b_cookies b) (b_seconds b) in
  match session with
  | None => Ret (Some LoginPage)
  | Some session =>
      let! ok := verify_csrf fields session in
      Ret (if ok : bool then None else Some (BackToUser "error=csrf"))
  end.

(** A session names neither a principal nor a user. *)
Definition actor : string := "dashboard-admin".

Definition clean_expiry (expires_at : string) : option string :=
  match strip_text expires_at with
  | EmptyString => None
  | text => Some (if Nat.eqb (length (chars text)) 10 then text +:+ "T23:59:59+00:00" else text)
  end.

Definition form_arguments (principal_id : string) (f : token_form) : mint_arguments :=
  {| a_principal_id := principal_id; a_label := strip_text (f_label f); a_created_by := actor;
     a_scope_providers := map strip_text (List.filter (λ x, negb (bool_decide (strip_text x = ""))) (f_scope_providers f));
     a_scope_paths := None; a_expires_at := clean_expiry (f_expires_at f);
     a_no_expiry := negb (bool_decide (strip_text (f_never_expires f) = "")) |}.

Definition disabled_hint : string := "API tokens are disabled on this Mastio (MCP_PROXY_USER_API_TOKENS_ENABLED=false).".
Definition both_hint : string := "Pick an expiry date OR tick Never expires, not both.".
Definition rejected_hint : string :=
  "Failed to mint API token. Verify the user exists, the label is unique, and the expiry date is valid; the Mastio container logs carry the exact reason.".
Definition crashed_hint : string := "Failed to mint API token. Check the Mastio container logs and try again.".

(** The queries are given as they read before [quote]. *)
Definition token_error (text : string) : page := BackToUser ("token_error=" +:+ text).

Definition create_api_token (principal_id : string) (b : browser) (ts : mint_times) (f : token_form) : M page :=
  do stop <- lift (guarded b (f_fields f));
  match stop with
  | Some p => ret p
  | None =>
      let a := form_arguments principal_id f in
      if negb (user_api_tokens_enabled E) then ret (token_error disabled_hint)
      else if bool_decide (a_label a = "") then ret (BackToUser "token_error=label+is+required")
      else if a_no_expiry a && bool_decide (is_Some (a_expires_at a)) then ret (token_error both_hint)
      else
        do r <- catch (do m <- mint_user_api_token a (ttl_at ts) (minted_at ts); ret (inl m))
                  (λ e, ret (inr (token_error (match e with ValueError => rejected_hint | _ => crashed_hint end))));
        match r with
        | inr p => ret p
        | inl m =>
            do _ <- audit (success_call actor "api_token.mint" None
              (Some (mint_details [("source", JStr "dashboard")] [] m)));
            ret (UserPage (m_token m) (m_label m))
        end
  end.

Definition revoke_api_token (principal_id token_id : string) (b : browser) (fields : list (string * string)) (now : Z)
    : M page :=
  do stop <- lift (guarded b fields);
  match stop with
  | Some p => ret p
  | None =>
      do row <- get_user_api_token token_id;
      match row with
      | None => ret (BackToUser "token_error=token+not+found+for+this+user")
      | Some d =>
          if negb (bool_decide (d_principal_id d = principal_id)) then
            ret (BackToUser "token_error=token+not+found+for+this+user")
          else
            do effective <- revoke_user_api_token token_id actor now;
            do _ <- audit (success_call actor "api_token.revoke" None
              (Some (revoke_details [("source", JStr "dashboard")] token_id principal_id effective)));
            ret (BackToUser "ok=token+revoked")
      end
  end.

(** The end of [users_delete]: the row of the user, when the Frontdesk has
    let go of it. *)
Definition scrub_principal (principal_id : string) : M unit :=
  catch (transaction (statement (modify (λ s, with_principals (local_user_principals s ∖ {[principal_id]}) s))))
        (λ _, ret tt).

(** ** What the process serves *)

Inductive request :=
| Mint (x_admin_secret trace_id : string) (ts : mint_times) (b : MintRequest)
| Create (principal_id : string) (b : browser) (ts : mint_times) (f : token_form)
| Delete (x_admin_secret token_id : string) (revoked_by : option string) (now : Z)
| Revoke (principal_id token_id : string) (b : browser) (fields : list (string * string)) (now : Z)
| Look (x_admin_secret token_id : string)
| Listing (x_admin_secret : string) (principal_id : option string) (include_revoked : bool)
| Bearer (rq : token_request) (now touch_at : Z)
| UserGone (principal_id : string)
| UserSeen (principal_id : string).      (* a principal registered by other code *)

Definition serve (rq : request) (s : token_state) : token_state :=
  match rq with
  | Mint secret trace_id ts b => snd (mint_token secret trace_id ts b s)
  | Create p b ts f => snd (create_api_token p b ts f s)
  | Delete secret id by_ now => snd (delete_token secret id by_ now s)
  | Revoke p id b fields now => snd (revoke_api_token p id b fields now s)
  | Look secret id => snd (get_token secret id s)
  | Listing secret p revoked => snd (list_tokens secret p revoked s)
  | Bearer rq now touch_at => snd (_maybe_api_token_principal rq now touch_at s)
  | UserGone p => snd (scrub_principal p s)
  | UserSeen p => with_principals ({[p]} ∪ local_user_principals s) s
  end.

Definition serve_all (l : list request) (s : token_state) : token_state := foldl (λ s rq, serve rq s) s l.

End Tokens.

(** ** What the operations do to the table *)

Section Table.
Context `{Hash} `{FromIso} `{Bcrypt} (E : token_env).

(** Thirty-two bytes are drawn each time. *)
Context (raws : ∀ n, token_raw (token_bytes E n)).

Definition token_of (n : nat) : string := token_text (token_bytes E n).

(** An expiry is a text the clock could print. *)
Definition expiry_ok (expires_at : option string) : Prop :=
  expires_at = None ∨ ∃ t, representable t ∧ expires_at = Some (utc_text t).

(** The row of the n-th token. *)
Record drawn (n : nat) (r : token_row) : Prop := {
  drawn_id : t_id r = _new_token_id E n;
  drawn_hash : t_token_hash r = hashpw (gensalt E n) (token_of n);
  drawn_last4 : t_token_last4 r = last_chars 4 (token_of n);
  drawn_owner : principal_allowed E (t_principal_id r) = true;
  drawn_expiry : expiry_ok (t_expires_at r);
  drawn_providers : ∃ l, t_scope_providers_json r = dumps (JList (JStr <$> l));
  drawn_paths : ∃ l, t_scope_paths_json r = dumps (JList (JStr <$> l));
}.

(** A row later: what identifies the token stays, and so does a revocation. *)
Record row_later (r r' : token_row) : Prop := {
  later_fixed : (t_id r', t_principal_id r', t_label r', t_token_hash r', t_token_last4 r') =
                (t_id r, t_principal_id r, t_label r, t_token_hash r, t_token_last4 r);
  later_scope : (t_scope_providers_json r', t_scope_paths_json r', t_created_at r', t_created_by r', t_expires_at r') =
                (t_scope_providers_json r, t_scope_paths_json r, t_created_at r, t_created_by r, t_expires_at r);
  later_revoked : t_revoked_at r ≠ None → (t_revoked_at r', t_revoked_by r') = (t_revoked_at r, t_revoked_by r);
}.

#[export] Instance row_later_preorder : PreOrder row_later.
Proof.
  split; [by intros r|]. intros r1 r2 r3 [F1 S1 R1] [F2 S2 R2]. split; [congruence|congruence|].
  intros Hr. rewrite <- (R1 Hr). apply R2. specialize (R1 Hr). congruence.
Qed.

Lemma drawn_later n r r' : row_later r r' → drawn n r → drawn n r'.
Proof.
  intros [F S _] [Hi Hh Hl Ho He Hv Hp]. injection F as F1 F2 _ F4 F5. injection S as S1 S2 _ _ S5.
  split; [by rewrite F1|by rewrite F4|by rewrite F5|by rewrite F2|by rewrite S5|by rewrite S1|by rewrite S2].
Qed.

(** What an update does to a row when only some identifiers may be revoked. *)
Definition updated (may : string → Prop) (r r' : token_row) : Prop :=
  row_later r r' ∧ (¬ may (t_id r) → t_revoked_at r' = t_revoked_at r).

(** A property of the table that insertions of new tokens and such updates
    keep. *)
Record closed (may : string → Prop) (Inv : list token_row → Prop) : Prop := {
  closed_insert l n r : Inv l → drawn n r → t_revoked_at r = None → existsb (with_id (t_id r)) l = false → Inv (l ++ [r]);
  closed_update l p f : Inv l → (∀ r, p r = true → updated may r (f r)) → Inv (update_rows p f l);
}.

(** The identifier that a request revokes is one of them. *)
Definition respects (may : string → Prop) (rq : request) : Prop :=
  match rq with Delete _ id _ _ | Revoke _ id _ _ _ => may id | _ => True end.

Lemma touched_later may ts ip r : updated may r (touched ts ip r).
Proof. by split; [split|]. Qed.

Lemma revoked_later (may : string → Prop) id ts by_ r : may id → active_id id r = true → updated may r (revoked ts by_ r).
Proof.
  intros Hmay [Hid%bool_decide_eq_true_1 Hr%bool_decide_eq_true_1]%andb_true_iff.
  split; [|by rewrite Hid]. split; [done|done|]. by rewrite Hr.
Qed.

Lemma effective_expiry_ok expires no_expiry now r :
  expiry_ok expires → effective_expiry E expires no_expiry now = Ret r → expiry_ok r.
Proof.
  intros He. unfold effective_expiry. destruct expires; [by intros [= <-]|]. destruct (_ && _); [|intros [= <-]; by left].
  unfold datetime_of. case_match eqn:Ht; [|done]. intros [= <-]. right. eexists. split; [|done].
  unfold representable. lia.
Qed.

Lemma normalised_expiry_ok text r : normalised_expiry text = Ret r → expiry_ok r.
Proof.
  unfold normalised_expiry. destruct text as [x|]; [|intros [= <-]; by left].
  destruct (from_iso x) as [[[] t]|]; [|done|done]. unfold datetime_of. case_match eqn:Ht; [|done]. intros [= <-].
  right. eexists. split; [|done]. unfold representable. lia.
Qed.

Section Closed.
Context (may : string → Prop) (Inv : list token_row → Prop) (Hclosed : closed may Inv).

Notation P := (λ s, Inv (user_api_tokens s)).

#[local] Instance rows_stable : Stable P.
Proof. by split. Qed.

Lemma preserves_audit c : preserves P (Effects.audit (k_auditing E) c).
Proof. intros s Hs. unfold Effects.audit. destruct (log_audit _ _ _ _) as [[]w]; exact Hs. Qed.

Lemma preserves_draw : preserves P draw.
Proof. by intros s. Qed.

Lemma preserves_select {A} (f : list token_row → A) : preserves P (select E f).
Proof. apply preserves_statement; [apply _|]. apply preserves_gets. Qed.

Lemma preserves_update p f : (∀ r, p r = true → updated may r (f r)) → preserves P (update_tokens E p f).
Proof. intros Hf. apply preserves_statement; [apply _|]. intros s Hs. by apply (closed_update may). Qed.

Lemma preserves_insert n r : drawn n r → t_revoked_at r = None → preserves P (insert_token E r).
Proof.
  intros Hd Hr. apply preserves_statement; [apply _|]. intros s Hs.
  destruct (existsb _ _) eqn:Hex; [done|]. by apply (closed_insert may _ Hclosed _ n).
Qed.

Hint Resolve preserves_audit preserves_draw preserves_select preserves_update preserves_insert preserves_bind_lift
  touched_later revoked_later : preserved.

Lemma new_row_drawn n a expires ts :
  principal_allowed E (a_principal_id a) = true → expiry_ok expires →
  drawn n (new_row E n (token_of n) a expires ts).
Proof. intros Hp He. split; try done; by eexists. Qed.

Lemma preserves_mint a ttl_at minted_at : preserves P (mint_user_api_token E a ttl_at minted_at).
Proof.
  unfold mint_user_api_token. apply preserves_if; [apply preserves_raise|].
  apply preserves_bind_lift. intros expires0 He%normalised_expiry_ok.
  destruct (principal_allowed E (a_principal_id a)) eqn:Hp; [|apply preserves_raise]. cbn [negb].
  apply preserves_bind.
  { apply preserves_transaction; [apply _|]. apply preserves_statement; [apply _|]. apply preserves_gets. }
  intros reg. apply preserves_if; [apply preserves_raise|].
  apply preserves_bind_lift. intros expires Hx%effective_expiry_ok; [|done].
  apply preserves_bind; [apply preserves_draw|]. intros n. apply preserves_bind_lift. intros plaintext.
  rewrite new_token by done. intros [= <-]. apply preserves_bind; [|intros _; apply preserves_ret].
  apply preserves_transaction; [apply _|]. apply (preserves_insert n); [|done]. by apply new_row_drawn.
Qed.

Hint Resolve preserves_mint : preserved.

Lemma preserves_get id : preserves P (get_user_api_token E id).
Proof. apply preserves_transaction; [apply _|]. apply preserves_select. Qed.

Lemma preserves_revoke id by_ now : may id → preserves P (revoke_user_api_token E id by_ now).
Proof.
  intros Hmay. apply preserves_transaction; [apply _|]. apply preserves_update. intros r Hr. by apply (revoked_later may id).
Qed.

Hint Resolve preserves_get preserves_revoke : preserved.

Lemma preserves_touch id ip now : preserves P (touch_user_api_token E id ip now).
Proof.
  apply preserves_catch; [|intros; apply preserves_ret]. apply preserves_bind; [|intros; apply preserves_ret].
  apply preserves_transaction; [apply _|]. apply preserves_update. intros r _. apply touched_later.
Qed.

Lemma preserves_resolver rq now touch_at : preserves P (_maybe_api_token_principal E rq now touch_at).
Proof.
  unfold _maybe_api_token_principal. apply preserves_if; [apply preserves_ret|].
  apply preserves_option; [|apply preserves_ret]. intros token. apply preserves_bind.
  - unfold verify_user_api_token. apply preserves_if; [apply preserves_ret|]. apply preserves_bind; [|intros; apply preserves_lift].
    apply preserves_transaction; [apply _|]. apply preserves_select.
  - intros o. apply preserves_option; [|apply preserves_ret]. intros d. apply preserves_bind; [apply preserves_lift|].
    intros ok. apply preserves_if; [apply preserves_raise|]. apply preserves_bind; [apply preserves_touch|].
    intros _. eauto 6 with preserved.
Qed.

Hint Resolve preserves_resolver : preserved.

Lemma preserves_mint_token secret trace_id ts b : preserves P (mint_token E secret trace_id ts b).
Proof.
  unfold mint_token. apply preserves_bind; [apply preserves_lift|]. intros _.
  repeat (apply preserves_if; [apply preserves_raise|]). apply preserves_bind; [apply preserves_lift|]. intros a.
  apply preserves_bind; [|eauto with preserved]. apply preserves_catch; [apply preserves_mint|].
  intros []; apply preserves_raise.
Qed.

Lemma preserves_create p b ts f : preserves P (create_api_token E p b ts f).
Proof.
  unfold create_api_token. apply preserves_bind; [apply preserves_lift|]. intros stop.
  apply preserves_option; [intros; apply preserves_ret|].
  repeat (apply preserves_if; [apply preserves_ret|]). apply preserves_bind; [eauto with preserved|].
  intros [m|q]; eauto with preserved.
Qed.

Lemma preserves_delete secret id by_ now : may id → preserves P (delete_token E secret id by_ now).
Proof.
  intros Hmay. unfold delete_token. apply preserves_bind; [apply preserves_lift|]. intros _. apply preserves_bind; [apply preserves_get|].
  intros o. apply preserves_option; [|apply preserves_raise]. eauto with preserved.
Qed.

Lemma preserves_revoke_page p id b fields now : may id → preserves P (revoke_api_token E p id b fields now).
Proof.
  intros Hmay. unfold revoke_api_token. apply preserves_bind; [apply preserves_lift|]. intros stop.
  apply preserves_option; [intros; apply preserves_ret|]. apply preserves_bind; [apply preserves_get|].
  intros o. apply preserves_option; [|apply preserves_ret]. intros d. apply preserves_if; [apply preserves_ret|].
  eauto 6 with preserved.
Qed.

Lemma preserves_scrub p : preserves P (scrub_principal E p).
Proof.
  apply preserves_catch; [|intros; apply preserves_ret]. apply preserves_transaction; [apply _|].
  apply preserves_statement; [apply _|]. by apply preserves_modify.
Qed.

Lemma serve_closed rq s : respects may rq → P s → P (serve E rq s).
Proof.
  intros Hmay Hs. destruct rq; cbn [serve respects] in *; try (apply preserves_end; [|exact Hs]).
  - apply preserves_mint_token.
  - apply preserves_create.
  - by apply preserves_delete.
  - by apply preserves_revoke_page.
  - unfold get_token. apply preserves_bind; [apply preserves_lift|]. intros _. apply preserves_bind; [apply preserves_get|].
    intros o. apply preserves_option; [intros; apply preserves_lift|apply preserves_raise].
  - unfold list_tokens. apply preserves_bind; [apply preserves_lift|]. intros _. apply preserves_bind; [|intros; apply preserves_lift].
    apply preserves_transaction; [apply _|]. apply preserves_select.
  - apply preserves_resolver.
  - apply preserves_scrub.
  - exact Hs.
Qed.

Lemma serve_all_closed l s : Forall (respects may) l → P s → P (serve_all E l s).
Proof. intros Hl. revert s. induction Hl as [|rq l Hrq Hl IH]; intros s Hs; [done|]. by apply IH, serve_closed. Qed.

End Closed.

(** *** Such properties *)

Definition any_id (_ : string) : Prop := True.

Lemma respects_any l : Forall (respects any_id) l.
Proof. rewrite Forall_forall. by intros [] _. Qed.

(** The identifiers are apart and every row is that of a token drawn. *)
Definition rows_ok (l : list token_row) : Prop := NoDup (t_id <$> l) ∧ Forall (λ r, ∃ n, drawn n r) l.

(** Every row is still there. *)
Definition grown (l0 l : list token_row) : Prop := ∀ r, r ∈ l0 → ∃ r', r' ∈ l ∧ row_later r r'.

(** The token with this identifier is not revoked. *)
Definition unrevoked (id : string) (l : list token_row) : Prop := ∀ r, r ∈ l → t_id r = id → t_revoked_at r = None.

Lemma row_later_id r r' : row_later r r' → t_id r' = t_id r.
Proof. intros [F _ _]. by injection F. Qed.

Lemma update_row may p (f : token_row → token_row) r :
  (∀ r, p r = true → updated may r (f r)) → updated may r (if p r then f r else r).
Proof. intros Hf. destruct (p r) eqn:Hp; [by apply Hf|by split]. Qed.

Lemma rows_ok_closed : closed any_id rows_ok.
Proof.
  split.
  - intros l n r [Hnd Hl] Hd _ Hid. split; [|apply Forall_app; split; [done|constructor; [by exists n|constructor]]].
    rewrite fmap_app. apply NoDup_app. split; [done|]. split; [|by apply NoDup_singleton].
    intros x (r' & -> & Hr')%list_elem_of_fmap. cbn. intros Heq%list_elem_of_singleton.
    assert (existsb (with_id (t_id r)) l = true); [|congruence].
    apply existsb_exists. exists r'. split; [by apply list_elem_of_In|by apply bool_decide_eq_true_2].
  - intros l p f [Hnd Hl] Hf. split.
    + assert (t_id <$> update_rows p f l = t_id <$> l) as ->; [|done].
      unfold update_rows. clear Hnd Hl. induction l as [|r l IH]; [done|]. cbn. f_equal; [|exact IH].
      by eapply row_later_id, update_row.
    + rewrite Forall_forall in Hl |- *. intros r (r0 & Hr0 & ->)%elem_of_update_rows.
      destruct (Hl r0 Hr0) as [n Hn]. exists n. eapply drawn_later; [|done]. by eapply update_row.
Qed.

Lemma grown_closed l0 : closed any_id (grown l0).
Proof.
  split.
  - intros l n r Hl _ _ _ r0 (r' & Hr' & Hlater)%Hl. exists r'. split; [|done]. apply elem_of_app. by left.
  - intros l p f Hl Hf r0 (r' & Hr' & Hlater)%Hl. exists (if p r' then f r' else r'). split.
    + apply elem_of_update_rows. by exists r'.
    + etrans; [done|]. by eapply update_row.
Qed.

Lemma unrevoked_closed id : closed (λ x, x ≠ id) (unrevoked id).
Proof.
  split.
  - intros l n r Hl _ Hr _ r' [Hr'|Heq]%elem_of_app; [by apply Hl|]. by apply list_elem_of_singleton in Heq as ->.
  - intros l p f Hl Hf r (r0 & Hr0 & ->)%elem_of_update_rows Hid.
    destruct (update_row _ p f r0 Hf) as [Hlater Hkeep].
    assert (t_id r0 = id) as Hid0 by (rewrite <- Hid; symmetry; by apply row_later_id).
    rewrite Hkeep; [by apply Hl|]. by intros [].
Qed.

Lemma id_unique l r r' : NoDup (t_id <$> l) → r ∈ l → r' ∈ l → t_id r = t_id r' → r = r'.
Proof.
  intros Hnd [i Hi]%list_elem_of_lookup [j Hj]%list_elem_of_lookup Hid.
  assert (i = j) as <-; [|congruence]. apply (NoDup_lookup (t_id <$> l) i j (t_id r)); [done|..].
  - by rewrite list_lookup_fmap, Hi.
  - rewrite list_lookup_fmap, Hj. cbn. by rewrite Hid.
Qed.

(** Rows of the same token are the same row. *)
Lemma row_unique l n r r' : rows_ok l → r ∈ l → r' ∈ l → drawn n r → drawn n r' → r = r'.
Proof. intros [Hnd _] Hr Hr' Hd Hd'. apply (id_unique l); [done..|]. by rewrite (drawn_id n r), (drawn_id n r'). Qed.

End Table.

(** ** What the resolver answers *)

Section Resolver.
Context `{Hash} `{FromIso} `{Bcrypt} (E : token_env).

(** The bytes of the tokens are 32. *)
Context (raws : ∀ n, token_raw (token_bytes E n)).

(** The bytes of the n-th token are drawn that once. *)
Definition unrepeated (n : nat) : Prop := ∀ m, token_bytes E m = token_bytes E n → m = n.

Notation drawn := (drawn E).
Notation token_of := (token_of E).
Notation rows_ok := (rows_ok E).

Lemma token_of_inj n m : unrepeated n → token_of m = token_of n → m = n.
Proof. intros Hn Heq%token_text_inj; [|done..]. by apply Hn. Qed.

Lemma check_drawn n r : drawn n r →
  _check_api_token (token_of n) (t_token_hash r) = Ret true ∧
  (∀ text, _check_api_token text (t_token_hash r) = Ret true → text = token_of n) ∧
  (∀ m, ∃ same, _check_api_token (token_of m) (t_token_hash r) = Ret same).
Proof.
  intros [_ -> _ _ _ _ _]. change (token_of n) with (token_text (token_bytes E n)).
  unfold _check_api_token. rewrite hash_ascii by done. split_and!.
  - by rewrite check_own.
  - intros text Heq. apply (check_other (gensalt E n)); [done|]. by repeat case_match.
  - intros m. destruct (check_tokens (gensalt E n) (token_bytes E n) (token_bytes E m)) as [same Hs]; [done..|].
    exists same. change (token_of m) with (token_text (token_bytes E m)). by rewrite Hs.
Qed.

Notation searched := (map (λ r, (_row_to_token_dict E r, t_token_hash r))).

Lemma first_match_sound text l d : first_match text (searched l) = Ret (Some d) →
  ∃ r, r ∈ l ∧ _check_api_token text (t_token_hash r) = Ret true ∧ d = _row_to_token_dict E r.
Proof.
  induction l as [|r l IH]; [done|]. cbn [map first_match]. destruct (_check_api_token _ _) as [[]|] eqn:Hc; cbn [obind].
  - intros [= <-]. exists r. split; [left|done].
  - intros (r' & Hr' & Hx)%IH. exists r'. split; [by right|done].
  - done.
Qed.

Lemma first_match_complete n r l :
  unrepeated n → Forall (λ r, ∃ n, drawn n r) l → r ∈ l → drawn n r → (∀ r', r' ∈ l → drawn n r' → r' = r) →
  first_match (token_of n) (searched l) = Ret (Some (_row_to_token_dict E r)).
Proof.
  intros Hn Hl Hr Hd Hu. induction Hl as [|r' l [m Hm] Hl IH]; [by apply not_elem_of_nil in Hr|].
  cbn [map first_match]. destruct (check_drawn m r' Hm) as (Hown & Hother & Hall).
  destruct (Hall n) as [[] Hs]; rewrite Hs; cbn [obind].
  - apply Hother in Hs. symmetry in Hs. apply token_of_inj in Hs as ->; [|done]. rewrite (Hu r'); [done|left|done].
  - apply elem_of_cons in Hr as [<-|Hr].
    + destruct (check_drawn n r Hd) as (Hsame & _). congruence.
    + apply IH; [done|]. intros r2 H2. apply Hu. by right.
Qed.

Lemma selected {A} (f : list token_row → A) s :
  match transaction (k_fails E) (select E f) s with
  | (Ret a, s') => a = f (user_api_tokens s)
  | _ => True
  end.
Proof.
  unfold transaction, select, statement. destruct (k_fails E _); [done|]. cbn. by destruct (k_fails E _).
Qed.

Lemma selected_up {A} (f : list token_row → A) s : (∀ n, k_fails E n = None) →
  ∃ s', transaction (k_fails E) (select E f) s = (Ret (f (user_api_tokens s)), s') ∧ user_api_tokens s' = user_api_tokens s.
Proof.
  intros Hup. unfold transaction, select, statement. rewrite !Hup. cbn. rewrite !Hup. by eexists.
Qed.

(** *** Scopes *)

Lemma texts_back l : texts (JList (JStr <$> l)) = Ret l.
Proof.
  unfold texts. cbn. assert (mapM as_str (JStr <$> l) = Some l) as ->; [|done].
  induction l as [|x l IH]; [done|]. cbn. by rewrite IH.
Qed.

Lemma stored_texts l fallback : Forall valid_text l →
  stored_json E (dumps (JList (JStr <$> l))) fallback = JList (JStr <$> l).
Proof.
  intros Hl. unfold stored_json. rewrite bool_decide_eq_false_2.
  2:{ rewrite dumps_printed. by destruct l. }
  rewrite loads_compact.
  - cbn. do 2 f_equal. change (map sorted_json (JStr <$> l) = JStr <$> l). clear Hl. induction l as [|x l IH]; [done|]. cbn. by rewrite IH.
  - apply plain_readable. induction Hl as [|x l Hx Hl IH]; [done|]. by split.
Qed.

Lemma globs_of_texts path l : json_globs path (JStr <$> l) = Ret (any_glob path l).
Proof. induction l as [|p l IH]; [done|]. cbn. by destruct (re_fullmatch _ _). Qed.

(** The paths of a scope, where they are texts. *)
Lemma path_allowed_globs r path l : Forall valid_text l → t_scope_paths_json r = dumps (JList (JStr <$> l)) →
  path_allowed (_row_to_token_dict E r) path = Ret (_path_matches_globs path l).
Proof.
  intros Hl Hr. unfold path_allowed. cbn [d_scope_paths _row_to_token_dict]. rewrite Hr, stored_texts by done.
  destruct l as [|p l]; [done|]. change (py_bool (JList (JStr <$> p :: l))) with true. cbn iota.
  change (py_iter (JList (JStr <$> p :: l))) with (Ret (JStr <$> p :: l)). cbn [obind]. by rewrite globs_of_texts.
Qed.

Lemma py_or_texts l : py_or (JList (JStr <$> l)) (JList []) = JList (JStr <$> l).
Proof. by destruct l. Qed.

(** *** Expiry *)

(** A row is open at an instant. *)
Definition open_at (now : Z) (r : token_row) : Prop :=
  t_revoked_at r = None ∧ ∀ t, representable t → t_expires_at r = Some (utc_text t) → now < t.

Lemma candidate_open n r now : representable now → drawn n r →
  candidate (last_chars 4 (token_of n)) (utc_text now) r = true ↔ open_at now r.
Proof.
  intros Hnow [_ _ Hl _ He _ _]. unfold candidate, open_at. rewrite Hl, !andb_true_iff, !bool_decide_eq_true. split.
  - intros [[_ Hr] Hx]. split; [done|]. intros t Ht Heq. rewrite Heq, text_lt_utc in Hx by done. lia.
  - intros [Hr Hx]. split; [done|]. destruct He as [->|(t & Ht & Heq)]; [done|]. rewrite Heq, text_lt_utc by done.
    by apply Z.ltb_lt, Hx.
Qed.

Lemma verify_sound text now s d s' : rows_ok (user_api_tokens s) → representable now →
  verify_user_api_token E text now s = (Ret (Some d), s') →
  ∃ n r, r ∈ user_api_tokens s ∧ drawn n r ∧ text = token_of n ∧ open_at now r ∧ d = _row_to_token_dict E r.
Proof.
  intros [_ Hok] Hnow. unfold verify_user_api_token. destruct (token_shaped text); [|done]. cbn [negb].
  intros (l & s1 & Hsel & Hrun)%bind_Ret.
  pose proof (selected (λ l, searched (List.filter (candidate (last_chars 4 text) (utc_text now)) l)) s) as Hl.
  unfold _find_active_token_candidates_by_last4 in Hsel. rewrite Hsel in Hl. subst l.
  unfold lift in Hrun. injection Hrun as Hm <-.
  apply first_match_sound in Hm as (r & [Hr Hc]%elem_of_filter_bool & Hcheck & ->).
  rewrite Forall_forall in Hok. destruct (Hok r Hr) as [n Hd]. exists n, r.
  pose proof (check_drawn n r Hd) as (_ & Hother & _). apply Hother in Hcheck as ->. split_and!; try done.
  by apply (candidate_open n).
Qed.

Lemma verify_complete n r now s : unrepeated n → rows_ok (user_api_tokens s) → representable now → (∀ n, k_fails E n = None) →
  r ∈ user_api_tokens s → drawn n r → open_at now r →
  ∃ s', verify_user_api_token E (token_of n) now s = (Ret (Some (_row_to_token_dict E r)), s') ∧
        user_api_tokens s' = user_api_tokens s.
Proof.
  intros Hn Hok Hnow Hup Hr Hd Hopen. unfold verify_user_api_token.
  assert (token_shaped (token_of n) = true) as ->.
  { change (token_of n) with (token_text (token_bytes E n)). unfold token_shaped. rewrite token_length by done. unfold token_text. by rewrite startswith_app. }
  cbn [negb]. unfold _find_active_token_candidates_by_last4, bind.
  destruct (selected_up (λ l, searched (List.filter (candidate (last_chars 4 (token_of n)) (utc_text now)) l)) s Hup)
    as (s' & -> & Htb). exists s'. split; [|done]. unfold lift. f_equal. apply first_match_complete; [done|..|done|].
  - destruct Hok as [_ Hok]. rewrite Forall_forall in Hok |- *. intros r' [Hr' _]%elem_of_filter_bool. by apply Hok.
  - apply elem_of_filter_bool. split; [done|]. by apply candidate_open.
  - intros r' [Hr' _]%elem_of_filter_bool Hd'. by apply (row_unique E (user_api_tokens s) n).
Qed.

(** *** The answer *)

Lemma touch_returns id ip now s : fst (touch_user_api_token E id ip now s) = Ret tt.
Proof. unfold touch_user_api_token, catch. by destruct (bind _ _ s) as [[[]|e] s']. Qed.

Lemma touch_step {A} id ip now (k : unit → M token_state A) s :
  bind (touch_user_api_token E id ip now) k s = k tt (snd (touch_user_api_token E id ip now s)).
Proof.
  apply bind_step. pose proof (touch_returns id ip now s) as Ht. by destruct (touch_user_api_token E id ip now s) as [r s']; cbn in Ht; subst r.
Qed.

Definition scope_of (r : token_row) (providers paths : list string) : Prop :=
  Forall valid_text providers ∧ Forall valid_text paths ∧
  t_scope_providers_json r = dumps (JList (JStr <$> providers)) ∧ t_scope_paths_json r = dumps (JList (JStr <$> paths)).

(** C5: When a request authenticates with a user API token, the surface is
    enabled and the token it bears is one that was drawn, whose row, of a user
    of this organisation, is neither revoked nor past its expiry; the path of
    the request is within the patterns the token was minted with, and the
    principal is the owner of the row, with its scope. *)
Theorem token_authenticates_owner (rq : token_request) (now touch_at : Z) (s : token_state)
    (a : scoped_agent) (s' : token_state) :
  rows_ok (user_api_tokens s) → representable now →
  _maybe_api_token_principal E rq now touch_at s = (Ret (Some a), s') →
  user_api_tokens_enabled E = true ∧
  ∃ n r, _extract_bearer_token rq = Some (token_of n) ∧ r ∈ user_api_tokens s ∧ drawn n r ∧ open_at now r ∧
    i_agent_id (sc_agent a) = t_principal_id r ∧ principal_allowed E (t_principal_id r) = true ∧
    ∀ providers paths, scope_of r providers paths →
      sc_scope_providers a = providers ∧ sc_scope_paths a = paths ∧
      (paths = [] ∨ ∃ p, p ∈ paths ∧ wild p (rq_path rq)).
Proof.
  intros Hok Hnow. unfold _maybe_api_token_principal. destruct (user_api_tokens_enabled E); [|done]. cbn [negb].
  destruct (_extract_bearer_token rq) as [text|]; [|done]. intros (o & s1 & Hv & Hrun)%bind_Ret. split; [done|].
  destruct o as [d|]; [|done]. apply verify_sound in Hv as (n & r & Hr & Hd & -> & Hopen & ->); [|done..].
  exists n, r. destruct (path_allowed _ _) as [ok|] eqn:Hpath; [|done].
  apply bind_Ret in Hrun as (ok' & s2 & [= <- <-] & Hrun). destruct ok; [|done]. cbn [negb] in Hrun.
  rewrite touch_step in Hrun.
  apply bind_Ret in Hrun as (prov & s3 & Hprov & Hrun). apply bind_Ret in Hrun as (paths & s4 & Hpaths & Hrun).
  injection Hrun as <- <-. injection Hprov as Hprov _. injection Hpaths as Hpaths _.
  split_and!; try done; [apply (drawn_owner E n r Hd)|]. intros providers paths' (Hv1 & Hv2 & Hj1 & Hj2).
  cbn [sc_scope_providers sc_scope_paths d_scope_providers d_scope_paths _row_to_token_dict] in *.
  rewrite Hj1, stored_texts, py_or_texts, texts_back in Hprov by done.
  rewrite Hj2, stored_texts, py_or_texts, texts_back in Hpaths by done.
  injection Hprov as <-. injection Hpaths as <-. split_and!; [done|done|].
  rewrite (path_allowed_globs _ _ paths') in Hpath by done. injection Hpath as Hglob.
  destruct paths' as [|p l]; [by left|right]. by apply any_glob_wild.
Qed.

Lemma resolver_complete (rq : token_request) now touch_at s n r providers paths :
  unrepeated n → rows_ok (user_api_tokens s) → representable now → (∀ n, k_fails E n = None) → user_api_tokens_enabled E = true →
  _extract_bearer_token rq = Some (token_of n) → r ∈ user_api_tokens s → drawn n r → open_at now r →
  scope_of r providers paths → (paths = [] ∨ ∃ p, p ∈ paths ∧ wild p (rq_path rq)) →
  ∃ s', _maybe_api_token_principal E rq now touch_at s =
    (Ret (Some {| sc_agent := token_agent (_row_to_token_dict E r); sc_scope_providers := providers;
                  sc_scope_paths := paths |}), s').
Proof.
  intros Hn Hok Hnow Hup Hen Hb Hr Hd Hopen (Hv1 & Hv2 & Hj1 & Hj2) Hglob. unfold _maybe_api_token_principal.
  rewrite Hen, Hb. cbn [negb]. destruct (verify_complete n r now s) as (s1 & Hv & _); [done..|].
  rewrite (bind_step _ _ _ _ _ Hv). rewrite (path_allowed_globs _ _ paths) by done.
  assert (_path_matches_globs (rq_path rq) paths = true) as ->.
  { destruct paths as [|p l]; [done|]. cbn [_path_matches_globs]. apply any_glob_wild. by destruct Hglob. }
  rewrite (bind_step (lift (Ret true)) _ s1 true s1 eq_refl). cbn [negb]. rewrite touch_step.
  cbn [d_scope_providers d_scope_paths _row_to_token_dict]. rewrite Hj1, Hj2, !stored_texts, !py_or_texts, !texts_back by done.
  by eexists.
Qed.

(** ** Minting *)

(** The expiry of the row that a call makes. *)
Definition row_expiry (a : mint_arguments) (now : Z) (expires : option string) : Prop :=
  match a_expires_at a with
  | Some text => ∃ t, from_iso text = Some (true, t) ∧ representable t ∧ expires = Some (utc_text t)
  | None =>
      if negb (a_no_expiry a) && (0 <? user_api_token_default_ttl_days E) then
        representable (now + in_days (user_api_token_default_ttl_days E)) ∧
        expires = Some (utc_text (now + in_days (user_api_token_default_ttl_days E)))
      else expires = None
  end.

Lemma datetime_of_Ret t t' : datetime_of t = Ret t' ↔ t' = t ∧ representable t.
Proof.
  unfold datetime_of, representable. destruct (Z.leb_spec first_instant t), (Z.ltb_spec t last_instant); cbn;
    (split; [by intros [= <-]|intros [-> ?]; first [done|lia]]).
Qed.

Lemma row_expiry_spec a now expires :
  (∃ e0, normalised_expiry (a_expires_at a) = Ret e0 ∧ effective_expiry E e0 (a_no_expiry a) now = Ret expires) ↔
  row_expiry a now expires.
Proof.
  unfold row_expiry, normalised_expiry. destruct (a_expires_at a) as [text|].
  - split.
    + intros (e0 & Hn & He). destruct (from_iso text) as [[[] t]|]; [|done|done].
      destruct (datetime_of t) as [t'|] eqn:Ht; [|done]. cbn in Hn. injection Hn as <-. apply datetime_of_Ret in Ht as [-> Ht].
      injection He as <-. by exists t.
    + intros (t & -> & Ht & ->). exists (Some (utc_text t)). split; [|done].
      by rewrite (proj2 (datetime_of_Ret t t)).
  - unfold effective_expiry. destruct (_ && _); split.
    + intros (e0 & [= <-] & He). destruct (datetime_of _) as [t'|] eqn:Ht; [|done]. apply datetime_of_Ret in Ht as [-> Ht].
      by injection He as <-.
    + intros [Ht ->]. exists None. split; [done|]. by rewrite (proj2 (datetime_of_Ret _ _) (conj eq_refl Ht)).
    + by intros (e0 & [= <-] & [= <-]).
    + intros ->. by exists None.
Qed.

(** A transaction that raised left the tables. *)
Lemma undone {A} (m : M token_state A) s e s' : transaction (k_fails E) m s = (Raise e, s') →
  user_api_tokens s' = user_api_tokens s.
Proof.
  unfold transaction. destruct (m s) as [[a|x] s1]; [|by intros [= _ <-]].
  unfold statement. destruct (k_fails E _); [by intros [= _ <-]|done].
Qed.

Notation registered a s := (bool_decide (a_principal_id a ∈ local_user_principals s)).
Notation lookup_principal a :=
  (transaction (k_fails E) (statement (k_fails E) (gets (λ s, registered a s)))).

Lemma principal_looked_up a s :
  let '(r, s') := lookup_principal a s in
  user_api_tokens s' = user_api_tokens s ∧ tk_draws s' = tk_draws s ∧
  (is_ret r = true → r = Ret (registered a s)) ∧ ((∀ n, k_fails E n = None) → is_ret r = true).
Proof.
  unfold transaction, statement. cbn. destruct (k_fails E (tk_statements s)) as [e|] eqn:Hs; cbn.
  - split_and!; try done. intros Hup. congruence.
  - destruct (k_fails E (S (tk_statements s))) as [e|] eqn:Hs2; cbn; split_and!; try done. intros Hup. congruence.
Qed.

Lemma inserted row s :
  let '(r, s') := transaction (k_fails E) (insert_token E row) s in
  match r with
  | Ret _ => user_api_tokens s' = user_api_tokens s ++ [row] ∧ existsb (with_id (t_id row)) (user_api_tokens s) = false
  | Raise _ => user_api_tokens s' = user_api_tokens s
  end ∧ ((∀ n, k_fails E n = None) → existsb (with_id (t_id row)) (user_api_tokens s) = false → is_ret r = true).
Proof.
  destruct (transaction _ _ s) as [[[]|e] s'] eqn:Ht.
  - apply transaction_Ret in Ht as (s1 & Hs%statement_Ret & ->). split; [|done].
    change (user_api_tokens (issued s)) with (user_api_tokens s) in Hs.
    change (λ x, bool_decide (t_id x = t_id row)) with (with_id (t_id row)) in Hs.
    destruct (existsb _ _); [done|]. by injection Hs as <-.
  - split; [by eapply undone|]. intros Hup Hid. unfold transaction, insert_token, statement in Ht. rewrite !Hup in Ht.
    change (user_api_tokens (issued s)) with (user_api_tokens s) in Ht.
    change (λ x, bool_decide (t_id x = t_id row)) with (with_id (t_id row)) in Ht. rewrite Hid in Ht. cbn in Ht.
    by rewrite Hup in Ht.
Qed.

(** A mint that returns was for a registered user of this organisation and
    added exactly the row of the next token; one that raises adds nothing, and
    with a database that answers and an unused identifier it raises only when
    the arguments are refused. *)
Lemma mint_outcome (a : mint_arguments) (ttl minted : Z) (s : token_state) :
  let '(r, s') := mint_user_api_token E a ttl minted s in
  let n := tk_draws s in
  let row expires := new_row E n (token_of n) a expires (utc_text minted) in
  let asked := arguments_ok a = true ∧ principal_allowed E (a_principal_id a) = true ∧
               a_principal_id a ∈ local_user_principals s in
  match r with
  | Raise _ => user_api_tokens s' = user_api_tokens s
  | Ret m => asked ∧ ∃ expires, row_expiry a ttl expires ∧ m = minted_of (token_of n) a (row expires) ∧
               user_api_tokens s' = user_api_tokens s ++ [row expires]
  end ∧
  ((∀ k, k_fails E k = None) → asked → (∃ expires, row_expiry a ttl expires) →
   existsb (with_id (_new_token_id E n)) (user_api_tokens s) = false → is_ret r = true).
Proof.
  unfold mint_user_api_token. destruct (arguments_ok a); [|split; [done|by intros _ (? & _)]]. cbn [negb].
  destruct (normalised_expiry (a_expires_at a)) as [e0|x] eqn:He0.
  2:{ split; [done|]. intros _ _ (expires & (e0 & Hn & _)%row_expiry_spec). congruence. }
  change (bind (lift (Ret e0)) ?k s) with (k e0 s).
  destruct (principal_allowed E (a_principal_id a)); [|split; [done|by intros _ (_ & ? & _)]]. cbn [negb].
  pose proof (principal_looked_up a s) as Hlook. unfold bind at 1.
  destruct (lookup_principal a s) as [[reg|x] s1].
  2:{ destruct Hlook as (Htb & _ & _ & Hup). split; [done|]. intros Hn _ _ _. by specialize (Hup Hn). }
  destruct Hlook as (Htb & Hdr & Hreg & _). specialize (Hreg eq_refl). injection Hreg as ->.
  case_bool_decide as Hin; cbn [negb]; [|split; [exact Htb|by intros _ (_ & _ & ?)]].
  destruct (effective_expiry E e0 (a_no_expiry a) ttl) as [expires|x] eqn:He.
  2:{ split; [done|]. intros _ _ (expires & (e1 & Hn & He1)%row_expiry_spec). congruence. }
  change (bind (lift (Ret expires)) ?k s1) with (k expires s1). cbv beta.
  change (bind draw ?k s1) with (k (tk_draws s1) (with_draw s1)). cbv beta. rewrite Hdr, new_token by done.
  change (bind (lift (Ret ?x)) ?k ?s) with (k x s). cbv beta zeta.
  change (token_text (token_bytes E (tk_draws s))) with (token_of (tk_draws s)).
  set (row := new_row E (tk_draws s) (token_of (tk_draws s)) a expires (utc_text minted)).
  pose proof (inserted row (with_draw s1)) as Hins. unfold bind.
  destruct (transaction _ (insert_token E row) _) as [[[]|x] s2]; cbn [ret is_ret];
    change (user_api_tokens (with_draw s1)) with (user_api_tokens s1) in Hins; rewrite Htb in Hins;
    destruct Hins as [Hrow Hup].
  - split; [|done]. split; [done|]. exists expires. split; [|by destruct Hrow].
    apply row_expiry_spec. by exists e0.
  - split; [done|]. intros Hn _ _ Hid. by apply Hup.
Qed.

Lemma bearer_header n rq scheme :
  lower scheme = _BEARER_PREFIX → dget "authorization" (rq_headers rq) = Some (scheme +:+ token_of n) →
  _extract_bearer_token rq = Some (token_of n).
Proof.
  intros Hs Hh. assert (String.length scheme = 7%nat) as Hlen by (rewrite <- lower_length, Hs; done).
  assert (∀ a b, String.substring 0 (String.length a) (a +:+ b) = a) as Hpre.
  { induction a as [|c a IH]; intros b; [by destruct b|]. rewrite str_app_cons. cbn [String.length String.substring]. by rewrite IH. }
  assert (∀ a b, String.substring (String.length a) (String.length b) (a +:+ b) = b) as Hpost.
  { induction a as [|c a IH]; intros b; [|rewrite str_app_cons; cbn [String.length String.substring]; apply IH].
    change ("" +:+ b) with b. induction b as [|c b IH]; [done|]. cbn [String.length String.substring] in *. by rewrite IH. }
  unfold _extract_bearer_token. rewrite Hh. change (default "" (Some ?x)) with x. cbv zeta. rewrite <- Hlen, Hpre, Hs.
  rewrite bool_decide_eq_true_2 by done. cbn [negb]. rewrite str_length_app.
  replace (String.length scheme + String.length (token_of n) - String.length scheme)%nat with (String.length (token_of n)) by lia.
  rewrite Hpost. change (token_of n) with (token_text (token_bytes E n)). rewrite token_unblank by done.
  rewrite bool_decide_eq_false_2 by done. unfold token_text. by rewrite startswith_app.
Qed.

Lemma rows_ok_history l s : rows_ok (user_api_tokens s) → rows_ok (user_api_tokens (serve_all E l s)).
Proof. apply (serve_all_closed E raws any_id); [apply rows_ok_closed|apply respects_any]. Qed.

Lemma grown_history l s : grown (user_api_tokens s) (user_api_tokens (serve_all E l s)).
Proof.
  apply (serve_all_closed E raws any_id (grown (user_api_tokens s)));
    [apply grown_closed|apply respects_any|intros r Hr; by exists r].
Qed.

(** Whatever is served from an empty table on, the identifiers of the
    rows stay apart, and every row is that of a token drawn: it has the hash of
    that token's text and its last characters, belongs to a user principal of
    this organisation and has an expiry that the clock could print, or none. *)
Theorem table_well_formed (l : list request) (s : token_state) :
  user_api_tokens s = [] →
  let rows := user_api_tokens (serve_all E l s) in
  NoDup (t_id <$> rows) ∧
  ∀ r, r ∈ rows → ∃ n, t_id r = _new_token_id E n ∧ t_token_hash r = hashpw (gensalt E n) (token_of n) ∧
    t_token_last4 r = last_chars 4 (token_of n) ∧ principal_allowed E (t_principal_id r) = true ∧ expiry_ok (t_expires_at r).
Proof.
  intros Hs rows. assert (rows_ok (user_api_tokens s)) as Hok by (rewrite Hs; split; constructor).
  apply (rows_ok_history l) in Hok as [Hnd Hall]. split; [done|]. intros r Hr.
  rewrite Forall_forall in Hall. destruct (Hall r Hr) as [n []]. by exists n.
Qed.

(** The new row is well-formed. *)
Lemma minted_rows_ok a ttl minted_at s m s1 :
  rows_ok (user_api_tokens s) → mint_user_api_token E a ttl minted_at s = (Ret m, s1) → rows_ok (user_api_tokens s1).
Proof.
  intros Hok Hm. pose proof (preserves_mint E raws any_id rows_ok (rows_ok_closed E) a ttl minted_at s Hok) as Hp.
  by rewrite Hm in Hp.
Qed.

(** C6: A token that was minted opens: after any requests that do not revoke
    it, a request that bears it, under any spelling of the scheme, within its
    paths and before its expiry, is that of the user it was minted for, with
    the scope it was minted with. *)
Theorem minted_token_opens (a : mint_arguments) (ttl minted_at : Z) (s : token_state) (m : minted) (s1 : token_state)
    (l : list request) (rq : token_request) (scheme : string) (now touch_at : Z) :
  unrepeated (tk_draws s) → rows_ok (user_api_tokens s) →
  Forall valid_text (a_scope_providers a) → Forall valid_text (m_scope_paths m) →
  mint_user_api_token E a ttl minted_at s = (Ret m, s1) →
  Forall (respects (λ id, id ≠ m_id m)) l →
  (∀ k, k_fails E k = None) → user_api_tokens_enabled E = true →
  lower scheme = _BEARER_PREFIX → dget "authorization" (rq_headers rq) = Some (scheme +:+ m_token m) →
  representable now → (∀ t, representable t → m_expires_at m = Some (utc_text t) → now < t) →
  (m_scope_paths m = [] ∨ ∃ p, p ∈ m_scope_paths m ∧ wild p (rq_path rq)) →
  ∃ agent s', _maybe_api_token_principal E rq now touch_at (serve_all E l s1) = (Ret (Some agent), s') ∧
    i_agent_id (sc_agent agent) = a_principal_id a ∧
    i_display_name (sc_agent agent) = _display_name_for (a_principal_id a) ∧
    sc_scope_providers agent = m_scope_providers m ∧ sc_scope_paths agent = m_scope_paths m.
Proof.
  intros Hfresh Hok Hv1 Hv2 Hm Hl Hup Hen Hsch Hh Hnow Hexp Hglob.
  pose proof (minted_rows_ok _ _ _ _ _ _ Hok Hm) as Hok1.
  pose proof (mint_outcome a ttl minted_at s) as Hexact. rewrite Hm in Hexact.
  destruct Hexact as [((_ & Hp & _) & expires & Hrow & -> & Htb) _]. set (n := tk_draws s) in *.
  set (row := new_row E n (token_of n) a expires (utc_text minted_at)) in *.
  cbn [m_token m_id m_expires_at m_scope_paths m_scope_providers minted_of] in *.
  assert (drawn n row) as Hd.
  { apply new_row_drawn; [done|]. apply row_expiry_spec in Hrow as (e0 & Hn%normalised_expiry_ok & He).
    by eapply effective_expiry_ok. }
  assert (row ∈ user_api_tokens s1) as Hin by (rewrite Htb; apply elem_of_app; right; left).
  destruct (grown_history l s1 row Hin) as (r & Hr & Hlater). pose proof (drawn_later E n row r Hlater Hd) as Hdr.
  assert (t_revoked_at r = None) as Hrev.
  { apply (serve_all_closed E raws (λ id, id ≠ t_id row) (unrevoked (t_id row)) (unrevoked_closed E _) l s1);
      [done| |done|by apply (row_later_id row r)].
    intros r' Hr' Hid. assert (r' = row) as ->; [|done].
    by apply (id_unique (user_api_tokens s1)); [apply Hok1|..]. }
  destruct Hlater as [F S _]. injection F as Hid Hpid _ _ _. injection S as Hsp Hspaths _ _ Hsexp.
  destruct (resolver_complete rq now touch_at (serve_all E l s1) n r (merge_sort scope_le (a_scope_providers a))
    (default default_paths (a_scope_paths a))) as [s' Hs']; try done.
  - by apply rows_ok_history.
  - by apply (bearer_header n _ scheme).
  - split; [done|]. intros t Ht Heq. apply Hexp; [done|]. rewrite <- Heq. symmetry. exact Hsexp.
  - split_and!; [|done|exact Hsp|exact Hspaths]. by rewrite merge_sort_Permutation.
  - eexists _, s'. split; [exact Hs'|]. cbn [sc_agent sc_scope_providers sc_scope_paths token_agent i_agent_id i_display_name d_principal_id _row_to_token_dict].
    by rewrite Hpid.
Qed.

(** *** The endpoint *)

#[local] Instance sound_stable : Stable (sound (S := token_state)).
Proof. by split. Qed.

Lemma mint_keeps_sound a ttl minted_at : preserves sound (mint_user_api_token E a ttl minted_at).
Proof.
  unfold mint_user_api_token. apply preserves_if; [apply preserves_raise|]. apply preserves_bind; [apply preserves_lift|].
  intros e0. apply preserves_if; [apply preserves_raise|]. apply preserves_bind.
  { apply preserves_transaction; [apply _|]. apply preserves_statement; [apply _|]. apply preserves_gets. }
  intros reg. apply preserves_if; [apply preserves_raise|]. apply preserves_bind; [apply preserves_lift|]. intros expires.
  apply preserves_bind; [by intros s|]. intros n. apply preserves_bind; [apply preserves_lift|]. intros plaintext.
  apply preserves_bind; [|intros; apply preserves_ret]. apply preserves_transaction; [apply _|].
  apply preserves_statement; [apply _|]. intros s Hs. by destruct (existsb _ _).
Qed.

Lemma audit_rows c s : user_api_tokens (snd (Effects.audit (k_auditing E) c s)) = user_api_tokens s.
Proof. unfold Effects.audit. by destruct (log_audit _ _ _ _). Qed.

Definition mint_call (a : mint_arguments) (m : minted) : audit_call :=
  success_call (a_created_by a) "api_token.mint" None
    (Some (mint_details [] [("scope_paths", JList (JStr <$> m_scope_paths m))] m)).

(** The endpoint that mints answers only for the right secret while the
    surface is enabled, and then the table has exactly one more row: that of
    the next token, for a registered user of this organisation, with the hash
    of the text handed out, expiring at the instant the caller named, after
    the days it asked for, or after the default lifetime, and never only on
    request or where there is no default; the row of the mint is in the audit
    trail.  When it raises the table is as it was, unless only that audit row
    could not be written. *)
Theorem mint_token_exact (secret trace_id : string) (ts : mint_times) (b : MintRequest) (s : token_state) :
  let '(r, s') := mint_token E secret trace_id ts b s in
  let n := tk_draws s in
  let row a expires := new_row E n (token_of n) a expires (utc_text (minted_at ts)) in
  let added a expires := body_arguments b (asked_at ts) = Ret a ∧ row_expiry a (ttl_at ts) expires ∧
    arguments_ok a = true ∧ principal_allowed E (a_principal_id a) = true ∧
    a_principal_id a ∈ local_user_principals s ∧ user_api_tokens s' = user_api_tokens s ++ [row a expires] in
  match r with
  | Ret m =>
      _require_admin_secret E secret = Ret tt ∧ user_api_tokens_enabled E = true ∧
      ∃ a expires, added a expires ∧ m = minted_of (token_of n) a (row a expires) ∧
        (polite (k_auditing E) → fail_deny (k_auditing E) → sound s → in_trail (k_auditing E) (mint_call a m) s')
  | Raise e => user_api_tokens s' = user_api_tokens s ∨ trail_failure e ∧ ∃ a expires, added a expires
  end.
Proof.
  unfold mint_token, bind, lift. destruct (_require_admin_secret E secret) as [[]|x]; [|by left].
  destruct (user_api_tokens_enabled E); [|by left]. cbn [negb]. destruct (_ && _); [by left|].
  destruct (body_arguments b (asked_at ts)) as [a|x]; [|by left]. unfold catch.
  pose proof (mint_outcome a (ttl_at ts) (minted_at ts) s) as Hmint.
  pose proof (mint_keeps_sound a (ttl_at ts) (minted_at ts) s) as Hsound.
  destruct (mint_user_api_token E a _ _ s) as [[m|x] s1].
  2:{ destruct Hmint as [Htb _]. destruct x; by left. }
  destruct Hmint as [((Hargs & Hp & Hin) & expires & Hexp & Hm & Htb) _].
  fold (mint_call a m). pose proof (audit_rows (mint_call a m) s1) as Hrows.
  pose proof (audit_post (k_auditing E) (mint_call a m) s1) as Hpost.
  pose proof (ends_audit (k_auditing E) (λ _, True) (mint_call a m)) as Hends.
  destruct (Effects.audit (k_auditing E) (mint_call a m) s1) as [[[]|x] s2] eqn:Haudit; cbn [snd ret] in *; rewrite Hrows, Htb.
  - split; [done|]. split; [done|]. exists a, expires. split; [done|]. split; [done|]. intros Hpol Hfd Hs.
    destruct (Hpost Hpol (Hsound Hs)) as (_ & Ht & _). by apply Ht.
  - right. split; [|by exists a, expires]. revert Haudit. unfold Effects.audit.
    pose proof (log_audit_failure (audit_at (k_auditing E) (audit_calls s1)) (mint_call a m)
      (db_at (k_auditing E) (audit_calls s1) (w_table (trail s1))) (trail s1)) as Hfail.
    destruct (log_audit _ _ _ _) as [r w]. intros [= -> _]. by apply Hfail.
Qed.

(** ** Revocation *)

Lemma revoke_spec id by_ now s b s' : revoke_user_api_token E id by_ now s = (Ret b, s') →
  ∀ r, r ∈ user_api_tokens s' → t_id r = id → t_revoked_at r ≠ None.
Proof.
  intros (s1 & Hu%statement_Ret & ->)%transaction_Ret r Hr Hid. injection Hu as _ <-.
  change (r ∈ update_rows (active_id id) (revoked (utc_text now) by_) (user_api_tokens s)) in Hr.
  apply elem_of_update_rows in Hr as (r0 & Hr0 & ->). destruct (active_id id r0) eqn:Ha; [done|].
  unfold active_id, with_id in Ha. rewrite Hid, bool_decide_eq_true_2 in Ha by done. cbn in Ha.
  by apply bool_decide_eq_false_1 in Ha.
Qed.

Lemma delete_revokes secret id by_ now s s1 : delete_token E secret id by_ now s = (Ret tt, s1) →
  ∀ r, r ∈ user_api_tokens s1 → t_id r = id → t_revoked_at r ≠ None.
Proof.
  unfold delete_token. intros (? & s2 & _ & Hrun)%bind_Ret. apply bind_Ret in Hrun as (o & s3 & _ & Hrun).
  destruct o as [d|]; [|done]. apply bind_Ret in Hrun as (eff & s4 & Hrev & Haudit).
  pose proof (audit_rows (success_call (Prelude.or_default "admin-secret" by_) "api_token.revoke" None
    (Some (revoke_details [] id (d_principal_id d) eff))) s4) as Hrows.
  rewrite Haudit in Hrows. cbn [snd] in Hrows. rewrite Hrows. by eapply revoke_spec.
Qed.

Lemma guarded_page b fields p : guarded E b fields = Ret (Some p) → p ≠ BackToUser "ok=token+revoked".
Proof.
  unfold guarded. destruct (require_login _ _ _ _ _) as [[session|]|]; cbn; [|by intros [= <-]|done].
  destruct (verify_csrf fields session) as [[]|]; cbn; [done|by intros [= <-]|done].
Qed.

Lemma page_revokes p id b fields now s s1 :
  revoke_api_token E p id b fields now s = (Ret (BackToUser "ok=token+revoked"), s1) →
  ∀ r, r ∈ user_api_tokens s1 → t_id r = id → t_revoked_at r ≠ None.
Proof.
  unfold revoke_api_token. intros (stop & s2 & Hstop & Hrun)%bind_Ret. injection Hstop as Hstop <-.
  destruct stop as [q|]; [by injection Hrun as -> _; apply guarded_page in Hstop|].
  apply bind_Ret in Hrun as (o & s3 & _ & Hrun). destruct o as [d|]; [|done]. destruct (negb _); [done|].
  apply bind_Ret in Hrun as (eff & s4 & Hrev & Hrun). apply bind_Ret in Hrun as ([] & s5 & Haudit & Hrun).
  injection Hrun as <-. pose proof (audit_rows (success_call actor "api_token.revoke" None
    (Some (revoke_details [("source", JStr "dashboard")] id p eff))) s4) as Hrows.
  rewrite Haudit in Hrows. cbn [snd] in Hrows. rewrite Hrows. by eapply revoke_spec.
Qed.

(** C7: A revocation is final: once an administrator's request or the
    dashboard answered that a token is revoked, no request that bears it
    authenticates by it, whatever is served in between. *)
Theorem revocation_final (secret id principal_id : string) (revoked_by : option string) (b : browser)
    (fields : list (string * string)) (now : Z) (n : nat) (s s1 : token_state) (l : list request)
    (rq : token_request) (later touch_at : Z) :
  unrepeated n → rows_ok (user_api_tokens s) → (∃ r, r ∈ user_api_tokens s ∧ drawn n r ∧ t_id r = id) →
  delete_token E secret id revoked_by now s = (Ret tt, s1) ∨
  revoke_api_token E principal_id id b fields now s = (Ret (BackToUser "ok=token+revoked"), s1) →
  _extract_bearer_token rq = Some (token_of n) → representable later →
  ∀ agent, fst (_maybe_api_token_principal E rq later touch_at (serve_all E l s1)) ≠ Ret (Some agent).
Proof.
  intros Hn Hok (r & Hr & Hd & Hid) Hrevoke Hb Hlater agent Hans.
  assert (rows_ok (user_api_tokens s1) ∧ grown (user_api_tokens s) (user_api_tokens s1)) as [Hok1 Hgrown].
  { assert (∃ q, s1 = serve E q s) as [q ->].
    { destruct Hrevoke as [Hx|Hx]; [exists (Delete secret id revoked_by now)|exists (Revoke principal_id id b fields now)];
        cbn [serve]; by rewrite Hx. }
    split; [by apply (rows_ok_history [q])|apply (grown_history [q])]. }
  destruct (Hgrown r Hr) as (r1 & Hr1 & Hl1). assert (t_revoked_at r1 ≠ None) as Hrev1.
  { assert (t_id r1 = id) as Hid1 by (rewrite <- Hid; by apply row_later_id).
    destruct Hrevoke as [Hx|Hx]; [by apply (delete_revokes _ _ _ _ _ _ Hx)|by apply (page_revokes _ _ _ _ _ _ _ Hx)]. }
  destruct (grown_history l s1 r1 Hr1) as (r2 & Hr2 & Hl2).
  assert (t_revoked_at r2 ≠ None) as Hrev2 by (pose proof (later_revoked r1 r2 Hl2 Hrev1); congruence).
  assert (∃ s', _maybe_api_token_principal E rq later touch_at (serve_all E l s1) = (Ret (Some agent), s')) as [s' Hrun]
    by (destruct (_maybe_api_token_principal _ _ _ _ _) as [x s']; cbn in Hans; subst x; by eexists).
  unfold _maybe_api_token_principal in Hrun.
  destruct (user_api_tokens_enabled E); [|done]. cbn [negb] in Hrun. rewrite Hb in Hrun.
  apply bind_Ret in Hrun as (o & s2 & Hv & Hrun). destruct o as [d|]; [|done].
  apply verify_sound in Hv as (k & r3 & Hr3 & Hd3 & Hk & [Hopen _] & _); [|by apply rows_ok_history|done].
  symmetry in Hk. apply token_of_inj in Hk as ->; [|done]. apply Hrev2.
  assert (r2 = r3) as ->; [|done]. apply (row_unique E (user_api_tokens (serve_all E l s1)) n); [by apply rows_ok_history|done|done| |done].
  eapply drawn_later; [exact Hl2|]. by eapply drawn_later.
Qed.

(** *** A user who is deleted *)

(** The answer depends on the table of tokens alone. *)
Lemma resolver_of_rows rq now touch_at s s0 : (∀ n, k_fails E n = None) →
  user_api_tokens s = user_api_tokens s0 →
  fst (_maybe_api_token_principal E rq now touch_at s) = fst (_maybe_api_token_principal E rq now touch_at s0).
Proof.
  intros Hup Heq. unfold _maybe_api_token_principal. destruct (user_api_tokens_enabled E); [|done]. cbn [negb].
  destruct (_extract_bearer_token rq) as [text|]; [|done]. unfold verify_user_api_token.
  destruct (token_shaped text); [|done]. cbn [negb]. rewrite !bind_assoc. unfold _find_active_token_candidates_by_last4.
  set (f := λ l, searched (List.filter (candidate (last_chars 4 text) (utc_text now)) l)).
  destruct (selected_up f s Hup) as (s1 & Hs1 & _), (selected_up f s0 Hup) as (s2 & Hs2 & _).
  rewrite (bind_step _ _ _ _ _ Hs1), (bind_step _ _ _ _ _ Hs2), Heq, !bind_lift.
  destruct (first_match text _) as [[d|]|]; [|done|done]. rewrite !bind_lift.
  destruct (path_allowed d _) as [[]|]; cbn [negb]; [|done|done]. rewrite !touch_step, !bind_lift.
  destruct (texts _); [|done]. rewrite !bind_lift. by destruct (texts _).
Qed.

(** The end of a user leaves the tokens of that user open. *)
Theorem deleted_user_keeps_tokens p rq now touch_at s : (∀ n, k_fails E n = None) →
  p ∉ local_user_principals (scrub_principal E p s).2 ∧
  fst (_maybe_api_token_principal E rq now touch_at (snd (scrub_principal E p s))) =
  fst (_maybe_api_token_principal E rq now touch_at s).
Proof.
  intros Hup.
  assert (∃ s', scrub_principal E p s = (Ret tt, s') ∧ user_api_tokens s' = user_api_tokens s ∧
    local_user_principals s' = local_user_principals s ∖ {[p]}) as (s' & Hs & Htb & Hp).
  { unfold scrub_principal, catch, transaction, statement. rewrite !Hup. cbn. rewrite !Hup. by eexists. }
  rewrite Hs. cbn [snd]. split; [rewrite Hp; set_solver|]. by apply resolver_of_rows.
Qed.

End Resolver.

(** ** Examples *)

Module TokenDemo.
(** Passwords kept as they are, and two texts of random bytes. *)
#[export] Instance plain_passwords : Bcrypt.
Proof.
  refine {| hashpw _ password := password; checkpw password hashed := Ret (bool_decide (password = hashed)) |}.
  - intros _ raw. apply token_ascii.
  - intros _ raw _. by rewrite bool_decide_eq_true_2.
  - intros _ raw raw' _ _. by eexists.
  - intros _ raw password _ [= Heq]. by apply bool_decide_eq_true_1 in Heq.
Defined.

Definition env : token_env :=
  {| k_auditing := quiet_trail; k_fails _ := None; k_float_literal _ := JNull; k_admin_secret := "secret";
     k_org_id := " acme "; user_api_tokens_enabled := true; user_api_token_default_ttl_days := 90;
     token_bytes n := repeat (match n with O => 7%N | _ => 255%N end) 32; gensalt _ := "";
     _new_token_id n := "t" +:+ pretty (N.of_nat n) |}.

Lemma raws n : token_raw (token_bytes env n).
Proof. split; [apply repeat_length|]. destruct n; cbn; repeat constructor. Qed.

Lemma first_unrepeated : unrepeated env 0.
Proof. by intros [|m]. Qed.

Definition start : token_state :=
  {| tk_trail := {| w_table := []; w_pending := []; w_unhealthy := false |}; tk_audits := 0; tk_statements := 0;
     tk_draws := 0; local_user_principals := {["acme::user::alice"]}; user_api_tokens := [] |}.

Definition alice : mint_arguments :=
  {| a_principal_id := "acme::user::alice"; a_label := " laptop "; a_created_by := "admin-secret";
     a_scope_providers := ["openai"; "anthropic"]; a_scope_paths := None; a_expires_at := None; a_no_expiry := false |}.

Definition laptop : minted :=
  minted_of (token_of env 0) alice (new_row env 0 (token_of env 0) alice (Some (utc_text (in_days 90))) (utc_text 0)).

Definition chat : token_request :=
  {| rq_headers := [("authorization", "BEARER " +:+ token_of env 0)]; rq_path := "/v1/chat/completions";
     rq_client := Some "203.0.113.9" |}.

Definition body : MintRequest :=
  {| b_principal_id := "acme::user::alice"; b_label := "laptop"; b_scope_providers := []; b_scope_paths := None;
     b_expires_at := None; b_expires_in_days := Some 0; b_created_by := None |}.

Definition at_zero : mint_times := {| asked_at := 0; ttl_at := 0; minted_at := 0 |}.

(** The user is deleted, the token is used and another identifier revoked. *)
Definition meanwhile : list request :=
  [UserGone "acme::user::alice"; Bearer chat 5 6; Delete "secret" "t7" None 7].

Definition issued_state : token_state := snd (mint_user_api_token env alice 0 0 start).

Lemma laptop_minted : mint_user_api_token env alice 0 0 start = (Ret laptop, issued_state).
Proof. vm_compute. reflexivity. Qed.

Lemma no_rows_ok : rows_ok env (user_api_tokens start).
Proof. split; constructor. Qed.

Lemma texts_valid l : forallb is_ascii l = true → Forall valid_text l.
Proof.
  intros Hl. rewrite forallb_forall in Hl. rewrite Forall_forall. intros x Hx. by apply ascii_valid, Hl, list_elem_of_In.
Qed.
End TokenDemo.
Import TokenDemo.

Lemma minted_token_opens_witness :
  ∃ agent s', _maybe_api_token_principal env chat 1000000 1000001 (serve_all env meanwhile issued_state) =
    (Ret (Some agent), s') ∧
    i_agent_id (sc_agent agent) = "acme::user::alice" ∧
    i_display_name (sc_agent agent) = "alice" ∧
    sc_scope_providers agent = ["anthropic"; "openai"] ∧ sc_scope_paths agent = ["/v1/*"].
Proof.
  apply (minted_token_opens env raws alice 0 0 start laptop issued_state meanwhile chat "BEARER ").
  - exact first_unrepeated.
  - exact no_rows_ok.
  - by apply texts_valid.
  - by apply texts_valid.
  - exact laptop_minted.
  - repeat constructor. discriminate.
  - reflexivity.
  - reflexivity.
  - reflexivity.
  - reflexivity.
  - split; [discriminate|reflexivity].
  - intros t Ht Heq. assert (utc_text (in_days 90) = utc_text t) as Hq by exact (f_equal (default "") Heq).
    apply Z.ltb_lt. rewrite <- text_lt_utc; [|split; [discriminate|reflexivity]|exact Ht]. rewrite <- Hq. vm_compute. reflexivity.
  - right. exists "/v1/*". split; [left|]. apply default_scope. exists "chat/completions". by split.
Defined.

Lemma token_authenticates_owner_witness :
  ∃ agent s', _maybe_api_token_principal env chat 1000000 1000001 issued_state = (Ret (Some agent), s') ∧
  user_api_tokens_enabled env = true ∧
  ∃ n r, _extract_bearer_token chat = Some (token_of env n) ∧ r ∈ user_api_tokens issued_state ∧ drawn env n r ∧
    open_at 1000000 r ∧ i_agent_id (sc_agent agent) = t_principal_id r ∧
    principal_allowed env (t_principal_id r) = true ∧
    ∀ providers paths, scope_of r providers paths →
      sc_scope_providers agent = providers ∧ sc_scope_paths agent = paths ∧
      (paths = [] ∨ ∃ p, p ∈ paths ∧ wild p (rq_path chat)).
Proof.
  eexists _, _. split; [vm_compute; reflexivity|].
  eapply (token_authenticates_owner env raws chat 1000000 1000001 issued_state).
  - apply (minted_rows_ok env raws alice 0 0 start laptop); [exact no_rows_ok|exact laptop_minted].
  - split; [discriminate|reflexivity].
  - vm_compute. reflexivity.
Defined.

Lemma table_well_formed_witness :
  let rows := user_api_tokens (serve_all env (Mint "secret" "" at_zero body :: meanwhile) start) in
  (t_id <$> rows) = ["t0"] ∧ NoDup (t_id <$> rows) ∧
  ∀ r, r ∈ rows → ∃ n, t_id r = _new_token_id env n ∧ t_token_hash r = hashpw (gensalt env n) (token_of env n) ∧
    t_token_last4 r = last_chars 4 (token_of env n) ∧ principal_allowed env (t_principal_id r) = true ∧
    expiry_ok (t_expires_at r).
Proof.
  split; [vm_compute; reflexivity|].
  apply (table_well_formed env raws (Mint "secret" "" at_zero body :: meanwhile) start). reflexivity.
Defined.

(** A token that never expires, on request. *)
Lemma mint_token_exact_witness :
  ∃ m s', mint_token env "secret" "" at_zero body start = (Ret m, s') ∧
    _require_admin_secret env "secret" = Ret tt ∧ user_api_tokens_enabled env = true ∧
    ∃ a expires, (body_arguments body 0 = Ret a ∧ row_expiry env a 0 expires ∧ arguments_ok a = true ∧
      principal_allowed env (a_principal_id a) = true ∧ a_principal_id a ∈ local_user_principals start ∧
      user_api_tokens s' = user_api_tokens start ++ [new_row env 0 (token_of env 0) a expires (utc_text 0)]) ∧
      m = minted_of (token_of env 0) a (new_row env 0 (token_of env 0) a expires (utc_text 0)) ∧
      (polite quiet_trail → fail_deny quiet_trail → sound start → in_trail quiet_trail (mint_call a m) s').
Proof.
  destruct (returned (mint_token env "secret" "" at_zero body) start) as [m Hm]; [vm_compute; reflexivity|].
  pose proof (mint_token_exact env raws "secret" "" at_zero body start) as Hx. rewrite Hm in Hx.
  exists m, (snd (mint_token env "secret" "" at_zero body start)). split; [exact Hm|exact Hx].
Defined.

Definition revoked_state : token_state := snd (delete_token env "secret" "t0" None 9 issued_state).

Lemma revocation_final_witness :
  delete_token env "secret" "t0" None 9 issued_state = (Ret tt, revoked_state) ∧
  ∀ agent, fst (_maybe_api_token_principal env chat 1000000 1000001 (serve_all env meanwhile revoked_state)) ≠ Ret (Some agent).
Proof.
  assert (delete_token env "secret" "t0" None 9 issued_state = (Ret tt, revoked_state)) as Hdel
    by (destruct (returned (delete_token env "secret" "t0" None 9) issued_state) as [[] Hr]; [vm_compute; reflexivity|exact Hr]).
  split; [exact Hdel|].
  apply (revocation_final env raws "secret" "t0" "" None {| b_cookies := []; b_signing_key := ""; b_seconds := 0 |} [] 9 0
    issued_state revoked_state meanwhile chat 1000000 1000001).
  - exact first_unrepeated.
  - apply (minted_rows_ok env raws alice 0 0 start laptop); [exact no_rows_ok|exact laptop_minted].
  - eexists. split; [|split; [apply (new_row_drawn env 0 alice (Some (utc_text (in_days 90))) (utc_text 0));
      [vm_compute; reflexivity|right; exists (in_days 90); split; [split; [discriminate|reflexivity]|reflexivity]]|reflexivity]].
    assert (user_api_tokens issued_state = [new_row env 0 (token_of env 0) alice (Some (utc_text (in_days 90))) (utc_text 0)]) as ->
      by (vm_compute; reflexivity). left.
  - left. exact Hdel.
  - reflexivity.
  - split; [discriminate|reflexivity].
Defined.

(** The surface that is switched off, a path outside the scope and a text that
    is no token. *)
Example outside :
  fst (_maybe_api_token_principal env {| rq_headers := rq_headers chat; rq_path := "/v2/chat"; rq_client := None |}
         1000000 1000001 issued_state) = Raise scope_refusal ∧
  fst (_maybe_api_token_principal env {| rq_headers := [("authorization", "Bearer culk_short")]; rq_path := "/v1/chat";
         rq_client := None |} 1000000 1000001 issued_state) = Ret None.
Proof. split; vm_compute; reflexivity. Qed.

(** An instant that the zone of the text carries out of the calendar raises
    [OverflowError], which neither the callee nor the endpoint expects. *)
Lemma expiry_out_of_calendar `{FromIso} t text : from_iso text = Some (true, t) → ¬ representable t →
  normalised_expiry (Some text) = Raise OverflowError.
Proof.
  intros Hiso Ht. unfold normalised_expiry. rewrite Hiso. destruct (datetime_of t) as [t'|e] eqn:He.
  - by apply datetime_of_Ret in He as [_ ?].
  - unfold datetime_of in He. case_match; [done|]. by injection He as <-.
Qed.
