(* ===== verification/WebAuthn.v ===== *)
(** * WebAuthn ceremonies

    [auth/webauthn/authentication.py], [registration.py] and the challenge
    stores of [storage.py], with [parse_principal_id_to_spiffe] of
    [registry/principals_csr.py].  The package [webauthn] is a class: what it
    parses, verifies and prints.  Bytes are strings. *)

From S2P Require Import Prelude Sha256 Json Base64 TokenText.

Open Scope Z_scope.

(** ** Names of principals *)

(** [<td>/<org>/<type>/<name>] *)
Definition parse_principal_id_to_spiffe (principal_id : string) : outcome (string * string) :=
  match split_on "/" principal_id with
  | [td; org; ptype; name] =>
      if bool_decide (td = "") || bool_decide (org = "") || bool_decide (ptype = "") || bool_decide (name = "") then
        Raise ValueError
      else if negb (bool_decide (ptype ∈ ["user"; "agent"; "workload"])) then Raise ValueError
      else Ret ("spiffe://" +:+ td +:+ "/" +:+ org +:+ "/" +:+ ptype +:+ "/" +:+ name, org)
  | _ => Raise ValueError
  end.

(** ** The package *)

Record attested := {
  g_credential_id : string;
  g_credential_public_key : string;
  g_sign_count : Z;
  g_aaguid : option string;
}.

Class Webauthn := {
  assertion : Type;
  attestation : Type;
  parse_authentication_credential_json : string → outcome assertion;
  (* the challenge, the relying party, the origin, the public key and the
     current counter; gives the new counter *)
  verify_authentication_response : assertion → string → string → string → string → Z → outcome Z;
  parse_registration_credential_json : string → outcome attestation;
  verify_registration_response : attestation → string → string → string → outcome attested;
  (* rp_id, rp_name, user_id, user_name, display name, challenge, excluded *)
  registration_options_json : string → string → string → string → string → string → list string → outcome json;
  authentication_options_json : string → string → list string → outcome json;
  shake_256 : string → string;                (* the digest of 16 bytes *)
}.

Definition WebAuthnVerificationFailedError (text : string) : exn := Other "WebAuthnVerificationFailedError" text.
Definition WebAuthnLibraryMissingError : exn :=
  Other "WebAuthnLibraryMissingError"
    "py_webauthn is not installed; install the [webauthn] extra (pip install 'cullis-agent-sdk[webauthn]') to enable ADR-033 Phase 2 user assertion binding.".

Definition load_lib (installed : bool) : outcome unit := if installed then Ret tt else Raise WebAuthnLibraryMissingError.

Definition _b64url (raw : string) : string := encode raw.

Definition _b64url_decode (value : string) : outcome string :=
  match urlsafe_b64decode (padded value) with Some raw => Ret raw | None => Raise ValueError end.

Definition no_origin : exn :=
  WebAuthnVerificationFailedError
    "no expected origin configured for WebAuthn verification; set MCP_PROXY_WEBAUTHN_EXPECTED_ORIGIN or derive a default from MCP_PROXY_WEBAUTHN_RP_ID before enforcing.".

(** A failure that is no [Exception] of its own gets this text. *)
Definition wrapped {A} (text : string) (o : outcome A) : outcome A :=
  match o with Ret a => Ret a | Raise e => Raise (WebAuthnVerificationFailedError (text +:+ exn_class e)) end.

(** The loop over the origins: the first that verifies, or the last failure. *)
Fixpoint try_origins {A} (text : string) (verify : string → outcome A) (last_exc : option exn) (origins : list string)
    : outcome A :=
  match origins with
  | [] =>
      match last_exc with
      | None => Raise (Other "AssertionError" "")
      | Some e => Raise (WebAuthnVerificationFailedError (text +:+ exn_class e))
      end
  | origin :: rest =>
      match verify origin with Ret a => Ret a | Raise e => try_origins text verify (Some e) rest end
  end.

(** ** Assertions *)

Record CredentialRecord := {
  credential_id : string;
  credential_public_key : string;
  sign_count : Z;
}.

Record VerifiedAssertion := { v_credential_id : string; v_new_sign_count : Z }.

Definition _match_credential (cred_id_bytes : string) (credentials : list CredentialRecord) : option CredentialRecord :=
  find (λ r, bool_decide (credential_id r = cred_id_bytes)) credentials.

Section Webauthn.
Context `{Webauthn} (installed : bool).

(** The identifier that a response names: one that is no text equals no bytes. *)
Definition response_credential_id (response : list (string * json)) : outcome (option string) :=
  let raw := py_or (get_none "rawId" response) (get_none "id" response) in
  if negb (py_bool raw) then
    Raise (WebAuthnVerificationFailedError "credential response missing rawId; cannot match credential.")
  else match raw with JStr s => let! b := _b64url_decode s in Ret (Some b) | _ => Ret None end.

Definition verify_assertion (rp_id : string) (expected_origins : list string) (expected_challenge_b64url : string)
    (credential_response : list (string * json)) (credentials : list CredentialRecord) : outcome VerifiedAssertion :=
  let! _ := load_lib installed in
  match expected_origins with
  | [] => Raise no_origin
  | _ =>
      let! challenge := _b64url_decode expected_challenge_b64url in
      let! cred_id := response_credential_id credential_response in
      match cred_id ≫= λ b, _match_credential b credentials with
      | None => Raise (WebAuthnVerificationFailedError "credential id not registered for this principal.")
      | Some record =>
          let! parsed := wrapped "malformed assertion payload: "
            (parse_authentication_credential_json (dumps_plain (JObj credential_response))) in
          try_origins "assertion verification failed: "
            (λ origin,
               let! new_count := verify_authentication_response parsed challenge rp_id origin
                                   (credential_public_key record) (sign_count record) in
               Ret {| v_credential_id := credential_id record; v_new_sign_count := new_count |})
            None expected_origins
      end
  end.

Definition authentication_options (rp_id challenge : string) (allowed : list CredentialRecord) : outcome json :=
  let! _ := load_lib installed in
  match List.filter (λ id, negb (bool_decide (id = ""))) (credential_id <$> allowed) with
  | [] => Raise (WebAuthnVerificationFailedError
            "no registered credentials for this principal; register an authenticator before requesting authentication.")
  | descriptors => authentication_options_json rp_id challenge descriptors
  end.

(** ** Attestations *)

Record VerifiedRegistration := {
  r_credential_id : string;
  r_credential_public_key : string;
  r_sign_count : Z;
  r_aaguid : option string;
  r_transports : option (list json);
}.

Definition _extract_aaguid (v : attested) : option string :=
  match g_aaguid v with Some EmptyString => None | o => o end.

(** Only a list of texts counts; [.get] of anything but a dict raises. *)
Definition _extract_transports (credential_response : list (string * json)) : outcome (option (list json)) :=
  match py_or (get_none "response" credential_response) (JObj []) with
  | JObj f =>
      Ret match get_none "transports" f with
          | JList l => if forallb (λ v, match v with JStr _ => true | _ => false end) l then Some l else None
          | _ => None
          end
  | _ => Raise AttributeError
  end.

Definition verify_registration (rp_id : string) (expected_origins : list string) (expected_challenge_b64url : string)
    (credential_response : list (string * json)) : outcome VerifiedRegistration :=
  let! _ := load_lib installed in
  match expected_origins with
  | [] => Raise no_origin
  | _ =>
      let! challenge := _b64url_decode expected_challenge_b64url in
      let! parsed := wrapped "malformed registration credential payload: "
        (parse_registration_credential_json (dumps_plain (JObj credential_response))) in
      try_origins "registration verification failed: "
        (λ origin,
           let! v := verify_registration_response parsed challenge rp_id origin in
           let! transports := _extract_transports credential_response in
           Ret {| r_credential_id := g_credential_id v; r_credential_public_key := g_credential_public_key v;
                  r_sign_count := g_sign_count v; r_aaguid := _extract_aaguid v; r_transports := transports |})
        None expected_origins
  end.

Definition registration_options (rp_id rp_name principal_id user_name challenge : string) (existing : list string)
    : outcome json :=
  let! _ := load_lib installed in
  registration_options_json rp_id rp_name (shake_256 principal_id) user_name user_name challenge
    (List.filter (λ id, negb (bool_decide (id = ""))) existing).

End Webauthn.

(** ** Challenges

    The store of one process; the clock is [time.monotonic()]. *)

Abbreviation challenge_store := (gmap (string * string) (string * Z)).

Definition put (principal_id ceremony value : string) (ttl now : Z) (items : challenge_store) : challenge_store :=
  <[(principal_id, ceremony) := (value, now + ttl)]> items.

Definition take_challenge (principal_id ceremony : string) (now : Z) (items : challenge_store)
    : option string * challenge_store :=
  (match items !! (principal_id, ceremony) with
   | Some (value, deadline) => if deadline <? now then None else Some value
   | None => None
   end, delete (principal_id, ceremony) items).
