(* ===== verification/UserSession.v ===== *)
(** * User sessions of a Connector

    A Connector binds a user to its device: [registry/connector_login_router.py]
    after a sign-on at an identity provider,
    [registry/connector_login_local_attribution_router.py] after a password of
    its own; [auth/user_session.py] stamps the requests that carry the session;
    [registry/user_principals_webauthn_router.py] registers the authenticators
    that should prove the user's part.  The tables are those of [db.py] and
    [auth/webauthn/storage.py].  The handlers run to their end one after the
    other; the Unicode table of [str.lower] is an argument. *)

From S2P Require Import Prelude Sha256 IsoTime UtcTime Json Base64 AuditCanon AuditLog AuditChain Effects AgentRegistry ClientCert RateLimit TokenText WebAuthn.

Open Scope Z_scope.

(** ** The database *)

Record user_session := {
  s_session_id : string;
  s_principal_id : string;
  s_agent_cert_thumbprint : string;
  s_sso_subject : string;
  s_idp_issuer : string;
  s_display_name : option string;
  s_created_at : string;
  s_expires_at : string;
  s_revoked_at : option string;
  s_user_signed_assertion : option string;
  s_user_credential_id : option string;
}.

(** The columns of [local_user_principals] that a sign-on writes. *)
Record principal_row := {
  u_principal_id : string;
  u_user_name : string;
  u_display_name : option string;
  u_created_at : string;
  u_last_active_at : string;
  u_sso_subject : option string;
  u_idp_issuer : option string;
}.

Record stored_credential := {
  w_record : CredentialRecord;
  w_principal_id : string;
  w_aaguid : option string;
  w_transports : option string;
  w_name : option string;
  w_created_at : string;
  w_last_used_at : option string;
}.

Record sign_on_tables := {
  users : list principal_row;
  user_sessions : list user_session;
  user_webauthn_credentials : list stored_credential;
}.

Record sign_on_state := {
  so_trail : world;
  so_audits : nat;
  so_statements : nat;
  so_draws : nat;
  so_limits : windows;
  so_challenges : challenge_store;
  so_tables : sign_on_tables;
}.

#[export] Instance sign_on_trailed : Trailed sign_on_state := {
  trail := so_trail;
  audit_calls := so_audits;
  audited := λ w s, {| so_trail := w; so_audits := S (so_audits s); so_statements := so_statements s;
                       so_draws := so_draws s; so_limits := so_limits s; so_challenges := so_challenges s;
                       so_tables := so_tables s |};
  trail_audited := λ w s, eq_refl;
}.

#[export] Instance sign_on_transactional : Transactional sign_on_state := {
  statements := so_statements;
  issued := λ s, {| so_trail := so_trail s; so_audits := so_audits s; so_statements := S (so_statements s);
                    so_draws := so_draws s; so_limits := so_limits s; so_challenges := so_challenges s;
                    so_tables := so_tables s |};
  restore := λ s s',
    {| so_trail := {| w_table := w_table (so_trail s); w_pending := w_pending (so_trail s');
                      w_unhealthy := w_unhealthy (so_trail s') |};
       so_audits := so_audits s'; so_statements := so_statements s'; so_draws := so_draws s';
       so_limits := so_limits s'; so_challenges := so_challenges s'; so_tables := so_tables s |};
}.

Definition with_tables (t : sign_on_tables) (s : sign_on_state) : sign_on_state :=
  {| so_trail := so_trail s; so_audits := so_audits s; so_statements := so_statements s; so_draws := so_draws s;
     so_limits := so_limits s; so_challenges := so_challenges s; so_tables := t |}.
Definition with_draw (s : sign_on_state) : sign_on_state :=
  {| so_trail := so_trail s; so_audits := so_audits s; so_statements := so_statements s; so_draws := S (so_draws s);
     so_limits := so_limits s; so_challenges := so_challenges s; so_tables := so_tables s |}.
Definition with_limits (w : windows) (s : sign_on_state) : sign_on_state :=
  {| so_trail := so_trail s; so_audits := so_audits s; so_statements := so_statements s; so_draws := so_draws s;
     so_limits := w; so_challenges := so_challenges s; so_tables := so_tables s |}.
Definition with_challenges (c : challenge_store) (s : sign_on_state) : sign_on_state :=
  {| so_trail := so_trail s; so_audits := so_audits s; so_statements := so_statements s; so_draws := so_draws s;
     so_limits := so_limits s; so_challenges := c; so_tables := so_tables s |}.

Definition set_users (l : list principal_row) (t : sign_on_tables) : sign_on_tables :=
  {| users := l; user_sessions := user_sessions t; user_webauthn_credentials := user_webauthn_credentials t |}.
Definition set_sessions (l : list user_session) (t : sign_on_tables) : sign_on_tables :=
  {| users := users t; user_sessions := l; user_webauthn_credentials := user_webauthn_credentials t |}.
Definition set_credentials (l : list stored_credential) (t : sign_on_tables) : sign_on_tables :=
  {| users := users t; user_sessions := user_sessions t; user_webauthn_credentials := l |}.

(** What the process reads and draws; [so_bytes n] are the n-th 32 random
    bytes. *)
Record sign_on_env := {
  o_auditing : auditing;
  o_fails : nat → option exn;
  so_bytes : nat → string;
  o_lower : string → string;                  (* str.lower *)
  user_session_ttl_seconds : Z;
  webauthn_enforcement : string;
  frontdesk_audit_warning_enabled : bool;
  webauthn_installed : bool;
  webauthn_rp_id : string;
  webauthn_rp_name : string;
  webauthn_expected_origin : string;
  webauthn_challenge_ttl_seconds : Z;
}.

(** The agent that authenticated, and the request. *)
Record calling_agent := { p_agent_id : string; p_org : string }.

Record sign_on_request := { q_http : http_request; q_client : option string }.

(** [time.monotonic()], and the clock as it is read for the principal, the
    expiry and the session. *)
Record sign_on_times := { t_mono : Z; t_seen : Z; t_now : Z; t_created : Z }.

Section UserSession.
Context `{Hash} `{FromIso} `{Cryptography} `{Webauthn} (E : sign_on_env).

Notation M := (M sign_on_state).
Notation statement := (statement (o_fails E)).
Notation transaction := (transaction (o_fails E)).
Notation audit := (Effects.audit (o_auditing E)).

Definition select {A} (f : sign_on_tables → A) : M A := statement (gets (λ s, f (so_tables s))).
Definition change (f : sign_on_tables → sign_on_tables) : M unit :=
  statement (modify (λ s, with_tables (f (so_tables s)) s)).

(** [secrets.token_bytes(32)], and [secrets.token_urlsafe(32)]. *)
Definition token_bytes : M string := λ s, (Ret (so_bytes E (so_draws s)), with_draw s).
Definition token_urlsafe : M string := do raw <- token_bytes; ret (encode raw).

Definition event_call (agent action status : string) (details : json) : audit_call :=
  {| c_agent_id := agent; c_action := action; c_status := status; c_tool_name := None; c_detail := None;
     c_details := Some details; c_request_id := None; c_duration_ms := None; c_dpop_jkt := None;
     c_on_behalf_of_user_id := None |}.

(** [try: await log_audit(...) except Exception: pass] *)
Definition audit_quietly (c : audit_call) : M unit := catch (audit c) (λ _, ret tt).

(** ** [db.py] *)

Definition create_user_session (r : user_session) : M unit :=
  transaction (statement (λ s,
    let l := user_sessions (so_tables s) in
    if existsb (λ x, bool_decide (s_session_id x = s_session_id r)) l then (Raise IntegrityError, s)
    else (Ret tt, with_tables (set_sessions (l ++ [r]) (so_tables s)) s))).

Definition session_named (id : string) (r : user_session) : bool := bool_decide (s_session_id r = id).

Definition get_user_session (session_id : string) : M (option user_session) :=
  transaction (select (λ t, find_by s_session_id session_id (user_sessions t))).

Definition session_revoked (ts : string) (r : user_session) : user_session :=
  {| s_session_id := s_session_id r; s_principal_id := s_principal_id r;
     s_agent_cert_thumbprint := s_agent_cert_thumbprint r; s_sso_subject := s_sso_subject r;
     s_idp_issuer := s_idp_issuer r; s_display_name := s_display_name r; s_created_at := s_created_at r;
     s_expires_at := s_expires_at r; s_revoked_at := Some ts; s_user_signed_assertion := s_user_signed_assertion r;
     s_user_credential_id := s_user_credential_id r |}.

Definition live_session (id : string) (r : user_session) : bool :=
  session_named id r && bool_decide (s_revoked_at r = None).

Definition revoke_user_session (session_id : string) (now : Z) : M bool :=
  transaction (statement (λ s,
    let l := user_sessions (so_tables s) in
    (Ret (existsb (live_session session_id) l),
     with_tables (set_sessions (update_rows (live_session session_id) (session_revoked (utc_text now)) l) (so_tables s)) s))).

Definition principal_named (id : string) (r : principal_row) : bool := bool_decide (u_principal_id r = id).

(** The SELECT, then an INSERT or an UPDATE. *)
Definition upsert_principal (row : principal_row) (refresh : principal_row → principal_row) : M unit :=
  transaction
    (do existing <- select (λ t, existsb (principal_named (u_principal_id row)) (users t));
     if existing : bool then
       change (λ t, set_users (update_rows (principal_named (u_principal_id row)) refresh (users t)) t)
     else change (λ t, set_users (users t ++ [row]) t)).

Definition upsert_local_user_principal_local (principal_id user_name : string) (display_name : option string) (now : Z)
    : M unit :=
  let ts := utc_text now in
  upsert_principal
    {| u_principal_id := principal_id; u_user_name := user_name; u_display_name := display_name; u_created_at := ts;
       u_last_active_at := ts; u_sso_subject := None; u_idp_issuer := None |}
    (λ r, {| u_principal_id := u_principal_id r; u_user_name := u_user_name r;
             u_display_name := or_else display_name (u_display_name r); u_created_at := u_created_at r;
             u_last_active_at := ts; u_sso_subject := u_sso_subject r; u_idp_issuer := u_idp_issuer r |}).

Definition upsert_local_user_principal_sso (principal_id user_name : string) (display_name : option string)
    (sso_subject idp_issuer : string) (now : Z) : M unit :=
  let ts := utc_text now in
  upsert_principal
    {| u_principal_id := principal_id; u_user_name := user_name; u_display_name := display_name; u_created_at := ts;
       u_last_active_at := ts; u_sso_subject := Some sso_subject; u_idp_issuer := Some idp_issuer |}
    (λ r, {| u_principal_id := u_principal_id r; u_user_name := u_user_name r;
             u_display_name := or_else display_name (u_display_name r); u_created_at := u_created_at r;
             u_last_active_at := ts; u_sso_subject := Some sso_subject; u_idp_issuer := Some idp_issuer |}).

(** ** [auth/webauthn/storage.py] *)

Definition save_credential (principal_id : string) (v : VerifiedRegistration) (name : option string) (now : Z) : M unit :=
  let row := {| w_record := {| credential_id := r_credential_id v; credential_public_key := r_credential_public_key v;
                               sign_count := r_sign_count v |};
                w_principal_id := principal_id; w_aaguid := r_aaguid v;
                w_transports := match r_transports v with
                                | None | Some [] => None
                                | Some l => Some (dumps_plain (JList l))
                                end;
                w_name := name; w_created_at := utc_text now; w_last_used_at := None |} in
  transaction (statement (λ s,
    let l := user_webauthn_credentials (so_tables s) in
    if existsb (λ x, bool_decide (credential_id (w_record x) = r_credential_id v)) l then (Raise IntegrityError, s)
    else (Ret tt, with_tables (set_credentials (l ++ [row]) (so_tables s)) s))).

Definition of_principal (principal_id : string) (r : stored_credential) : bool :=
  bool_decide (w_principal_id r = principal_id).

(** The records of a principal. *)
Definition load_credential_records_for_verification (principal_id : string) : M (list CredentialRecord) :=
  transaction (select (λ t, w_record <$> List.filter (of_principal principal_id) (user_webauthn_credentials t))).

Definition credential_named (id : string) (r : stored_credential) : bool := bool_decide (credential_id (w_record r) = id).

Definition used (new_sign_count : Z) (ts : string) (r : stored_credential) : stored_credential :=
  {| w_record := {| credential_id := credential_id (w_record r);
                    credential_public_key := credential_public_key (w_record r); sign_count := new_sign_count |};
     w_principal_id := w_principal_id r; w_aaguid := w_aaguid r; w_transports := w_transports r; w_name := w_name r;
     w_created_at := w_created_at r; w_last_used_at := Some ts |}.

Definition update_sign_count (id : string) (new_sign_count now : Z) : M unit :=
  transaction (change (λ t,
    set_credentials (update_rows (credential_named id) (used new_sign_count (utc_text now)) (user_webauthn_credentials t)) t)).

(** [rowcount > 0] of the DELETE. *)
Definition delete_credential (principal_id id : string) : M bool :=
  transaction (statement (λ s,
    let l := user_webauthn_credentials (so_tables s) in
    let gone r := of_principal principal_id r && credential_named id r in
    (Ret (existsb gone l), with_tables (set_credentials (List.filter (λ r, negb (gone r)) l) (so_tables s)) s))).

Definition put_challenge (principal_id ceremony value : string) (now : Z) : M unit :=
  modify (λ s, with_challenges (put principal_id ceremony value (webauthn_challenge_ttl_seconds E) now (so_challenges s)) s).

Definition take (principal_id ceremony : string) (now : Z) : M (option string) := λ s,
  let '(value, items) := take_challenge principal_id ceremony now (so_challenges s) in
  (Ret value, with_challenges items s).

(** ** [auth/user_session.py] *)

Definition SESSION_HEADER : string := "x-cullis-session-token".
Definition PRINCIPAL_HEADER : string := "x-cullis-on-behalf-of-user".

Definition ACTION_UNAUTHENTICATED_SESSION : string := "frontdesk_shared_unauthenticated_user_session_warning".
Definition ACTION_ENFORCEMENT_REJECTED : string := "frontdesk_shared_webauthn_enforcement_rejected".
Definition ACTION_AUTHENTICATED_USER_SESSION : string := "frontdesk_shared_authenticated_user_session".
Definition ACTION_REJECTED : string := "frontdesk_shared_webauthn_verification_rejected".

Inductive enforcement := Off | Warn | Required.

Definition _resolve_webauthn_enforcement : enforcement :=
  let raw := o_lower E (Prelude.or_default "warn" (Some (webauthn_enforcement E))) in
  if bool_decide (raw = "off") then Off else if bool_decide (raw = "required") then Required else Warn.

Definition short_session (session_id : string) : json := JStr (take_chars 12 session_id +:+ "...").

Definition warning_note : string :=
  "No user_signed_assertion field present. Phase 2 WebAuthn-bound sessions will add this. See ADR-033.".
Definition rejected_note : string :=
  "MCP_PROXY_WEBAUTHN_ENFORCEMENT=required rejected the session because the stored row lacks a WebAuthn assertion. The Connector should drive the user through the WebAuthn ceremony and re-mint the session before retrying.".

(** The context already names the user. *)
Definition _emit_unauthenticated_session_warning_if_needed (agent claimed session_id : string) (row : user_session)
    (now : Z) : M unit :=
  if negb (frontdesk_audit_warning_enabled E) || truthy (s_user_signed_assertion row) then ret tt
  else
    audit_quietly
      {| c_agent_id := agent; c_action := ACTION_UNAUTHENTICATED_SESSION; c_status := "warning"; c_tool_name := None;
         c_detail := None;
         c_details := Some (JObj [("connector_agent_id", JStr agent); ("claimed_user_principal_id", JStr claimed);
                                  ("session_id", short_session session_id); ("timestamp", JStr (utc_text now));
                                  ("note", JStr warning_note)]);
         c_request_id := None; c_duration_ms := None; c_dpop_jkt := None; c_on_behalf_of_user_id := Some claimed |}.

Definition _emit_enforcement_rejected (agent claimed session_id : string) : M unit :=
  audit_quietly (event_call agent ACTION_ENFORCEMENT_REJECTED "warning"
    (JObj [("connector_agent_id", JStr agent); ("claimed_user_principal_id", JStr claimed);
           ("session_id", short_session session_id); ("reason", JStr "missing_user_signed_assertion");
           ("note", JStr rejected_note)])).

Definition no_assertion : exn :=
  HTTPException 401
    "user session lacks a WebAuthn assertion; re-authenticate via the Connector dashboard before retrying.".

(** The device the session is bound to, when both sides name one. *)
Definition same_device (row : user_session) (caller_cert_thumbprint : option string) : outcome bool :=
  match caller_cert_thumbprint with
  | Some (String _ _ as caller) =>
      if bool_decide (s_agent_cert_thumbprint row = "") then Ret true
      else compare_digest (JStr (s_agent_cert_thumbprint row)) caller
  | _ => Ret true
  end.

(** The row is that of an unexpired session of the claimed user on this
    device. *)
Definition session_accepted (row : user_session) (claimed : string) (thumb : option string) (now : Z) : outcome bool :=
  if truthy (s_revoked_at row) then Ret false
  else match from_iso (s_expires_at row) with
       | None => Ret false
       | Some (_, expires_at) =>
           if (expires_at <=? now) || bool_decide (s_principal_id row = "") then Ret false
           else
             let! same := compare_digest (JStr (s_principal_id row)) claimed in
             if same : bool then same_device row thumb else Ret false
       end.

(** What is returned is the user that the context names from here on. *)
Definition maybe_stamp_user_session (rq : http_request) (agent : string) (thumb : option string) (now warned_at : Z)
    : M (option string) :=
  match header rq SESSION_HEADER, header rq PRINCIPAL_HEADER with
  | Some (String _ _ as session_token), Some (String _ _ as claimed) =>
      do row <- get_user_session session_token;
      match row with
      | None => ret None
      | Some row =>
          do accepted <- lift (session_accepted row claimed thumb now);
          if negb accepted then ret None
          else
            let stored := s_principal_id row in
            match _resolve_webauthn_enforcement, truthy (s_user_signed_assertion row) with
            | Required, false =>
                do _ <- _emit_enforcement_rejected agent stored session_token;
                raise no_assertion
            | Off, _ => ret (Some stored)
            | _, _ =>
                do _ <- _emit_unauthenticated_session_warning_if_needed agent stored session_token row warned_at;
                ret (Some stored)
            end
      end
  | _, _ => ret None
  end.

(** [[o.strip() for o in raw.split(",") if o.strip()]], or the origin of the
    relying party. *)
Definition _expected_origins : list string :=
  match strip_text (webauthn_expected_origin E) with
  | EmptyString => if bool_decide (webauthn_rp_id E = "") then [] else ["https://" +:+ webauthn_rp_id E]
  | raw => List.filter (λ o, negb (bool_decide (o = ""))) (map strip_text (split_on "," raw))
  end.

Definition assertion_rejected (trace_id : string) : exn :=
  HTTPException 401 ("WebAuthn assertion rejected; trace_id=" +:+ trace_id).

(** The text of the errors of the WebAuthn helpers; any other error is passed
    on. *)
Definition error_text (classes : list string) (e : exn) : option string :=
  match e with
  | Other class text => if bool_decide (class ∈ classes) then Some text else None
  | _ => None
  end.
Definition verification_failure : exn → option string := error_text ["WebAuthnVerificationFailedError"].
Definition webauthn_error : exn → option string :=
  error_text ["WebAuthnVerificationFailedError"; "WebAuthnLibraryMissingError"].

Definition verify_and_serialise_user_assertion (agent principal_id : string) (response : list (string * json))
    (challenge_b64url trace_id : string) (now : Z) : M (string * string) :=
  do records <- load_credential_records_for_verification principal_id;
  match verify_assertion (webauthn_installed E) (webauthn_rp_id E) _expected_origins challenge_b64url response records with
  | Raise e =>
      match webauthn_error e with
      | None => raise e
      | Some text =>
          do _ <- audit_quietly (event_call agent ACTION_REJECTED "warning"
            (JObj [("principal_id", JStr principal_id); ("reason", JStr (take_chars 512 text))]));
          raise (assertion_rejected trace_id)
      end
  | Ret verified =>
      do _ <- update_sign_count (v_credential_id verified) (v_new_sign_count verified) now;
      do _ <- audit_quietly (event_call agent ACTION_AUTHENTICATED_USER_SESSION "info"
        (JObj [("principal_id", JStr principal_id);
               ("credential_id_prefix", JStr (take_chars 16 (to_hex (v_credential_id verified))));
               ("new_sign_count", JInt (v_new_sign_count verified))]));
      ret (dumps (JObj response), v_credential_id verified)
  end.

(** ** [registry/connector_login_router.py] *)

Definition SESSION_TTL_SECONDS : Z := 3600.
Definition AGENT_PER_MINUTE : Z := 60.
Definition IP_PER_MINUTE : Z := 30.
Definition SUBJECT_PER_MINUTE : Z := 5.

Definition _client_ip (q : sign_on_request) : string :=
  match strip_text (default "" (head (split_on "," (header_or_empty (q_http q) "x-forwarded-for")))) with
  | EmptyString => default "unknown" (q_client q)
  | first => first
  end.

Definition too_many : exn := HTTPException 429 "connector-login rate limit exceeded".

Definition rate_gate (now : Z) (key : string) (ceiling : Z) : M unit := λ s,
  let '(ok, w) := check now key ceiling (so_limits s) in
  (if ok : bool then Ret tt else Raise too_many, with_limits w s).

Definition _enforce_connector_login_rate_limit (agent_id client_ip subject : string) (now : Z) : M unit :=
  do _ <- rate_gate now ("connector-login:agent:" +:+ agent_id) AGENT_PER_MINUTE;
  do _ <- rate_gate now ("connector-login:ip:" +:+ client_ip) IP_PER_MINUTE;
  rate_gate now ("connector-login:subject:" +:+ agent_id +:+ ":" +:+ subject) SUBJECT_PER_MINUTE.

Definition _identity_hash_suffix (idp_issuer sso_subject : string) : string :=
  take_chars 8 (hexdigest (o_lower E (strip_text idp_issuer) +:+ "|" +:+ strip_text sso_subject)).

Definition slug_char (c : ascii) : bool :=
  let n := N_of_ascii c in
  ((97 <=? n) && (n <=? 122) || (48 <=? n) && (n <=? 57))%N || bool_decide (c ∈ [".";"_";"-"]%char).

(** [re.sub(r"[^a-z0-9._-]+", "-", s)]; [inside] a run that is replaced. *)
Fixpoint slugged (inside : bool) (s : string) : string :=
  match s with
  | EmptyString => ""
  | String c s' =>
      if slug_char c then String c (slugged false s')
      else if inside then slugged true s' else String "-" (slugged true s')
  end.

(** [s.strip("-")] *)
Fixpoint lstrip_dash (s : string) : string :=
  match s with String c s' => if bool_decide (c = "-"%char) then lstrip_dash s' else s | EmptyString => "" end.
Fixpoint rstrip_dash (s : string) : string :=
  match s with
  | EmptyString => ""
  | String c s' => match rstrip_dash s' with
                   | EmptyString => if bool_decide (c = "-"%char) then "" else String c ""
                   | t => String c t
                   end
  end.

Definition slug (s : string) : string := rstrip_dash (lstrip_dash (slugged false s)).

Definition _slug_from_sso (subject : string) (fallback_name : option string) (idp_issuer : string) : string :=
  let base := slug (o_lower E (default "" (head (split_on "@" subject)))) in
  let base := match base, fallback_name with
              | EmptyString, Some (String _ _ as name) => slug (o_lower E name)
              | _, _ => base
              end in
  let base := if bool_decide (base = "") then "user" else base in
  take_chars 55 base +:+ "-" +:+ _identity_hash_suffix idp_issuer subject.

Definition _derive_caller_cert_thumbprint (rq : http_request) : option string :=
  if negb (bool_decide (header rq "x-ssl-client-verify" = Some "SUCCESS")) then None
  else match header_or_empty rq "x-ssl-client-cert" with
       | EmptyString => None
       | escaped_pem => (λ cert, hexdigest (cert_der cert)) <$> load_pem_x509_certificate (_decode_escaped_pem escaped_pem)
       end.

Definition _resolve_ttl_seconds : Z :=
  if user_session_ttl_seconds E <=? 0 then SESSION_TTL_SECONDS else user_session_ttl_seconds E.

Definition thumbprint_mismatch : exn :=
  HTTPException 400 "device_cert_thumbprint does not match the TLS client cert presented at the handshake".

(** The device that a login is for. *)
Definition bound_thumbprint (rq : http_request) (device_cert_thumbprint : string) : outcome string :=
  match _derive_caller_cert_thumbprint rq with
  | None => Ret device_cert_thumbprint
  | Some server =>
      let! same := compare_digest (JStr (o_lower E server)) (o_lower E device_cert_thumbprint) in
      if same : bool then Ret server else Raise thumbprint_mismatch
  end.

Definition no_user_store : exn := HTTPException 503 "user-principal store temporarily unavailable".
Definition no_session_store : exn := HTTPException 503 "session store temporarily unavailable".

(** [try: ... except Exception: raise HTTPException(503)] *)
Definition or_unavailable {A} (e : exn) (m : M A) : M A := catch m (λ _, raise e).

Record login_answer := { a_user_id : string; a_session_token : string; a_expires_at : Z }.

Record ConnectorLoginRequest := {
  user_subject_sso : string;
  l_display_name : option string;
  l_idp_issuer : string;
  l_device_cert_thumbprint : string;
}.

Definition expiry (now : Z) : outcome Z := datetime_of (now + _resolve_ttl_seconds * 1000000).

Definition user_principal (org name : string) : string := org +:+ "::user::" +:+ name.

Definition connector_login (b : ConnectorLoginRequest) (q : sign_on_request) (token : calling_agent) (t : sign_on_times)
    : M login_answer :=
  do thumbprint <- lift (bound_thumbprint (q_http q) (l_device_cert_thumbprint b));
  do _ <- _enforce_connector_login_rate_limit (p_agent_id token) (_client_ip q) (user_subject_sso b) (t_mono t);
  let user_name := _slug_from_sso (user_subject_sso b) (l_display_name b) (l_idp_issuer b) in
  let principal_id := user_principal (p_org token) user_name in
  do _ <- or_unavailable no_user_store
    (upsert_local_user_principal_sso principal_id user_name (l_display_name b) (user_subject_sso b) (l_idp_issuer b)
       (t_seen t));
  do expires_at <- lift (expiry (t_now t));
  do session_id <- token_urlsafe;
  do _ <- or_unavailable no_session_store
    (create_user_session
       {| s_session_id := session_id; s_principal_id := principal_id; s_agent_cert_thumbprint := thumbprint;
          s_sso_subject := user_subject_sso b; s_idp_issuer := l_idp_issuer b; s_display_name := l_display_name b;
          s_created_at := utc_text (t_created t); s_expires_at := utc_text expires_at; s_revoked_at := None;
          s_user_signed_assertion := None; s_user_credential_id := None |});
  ret {| a_user_id := principal_id; a_session_token := session_id; a_expires_at := expires_at |}.

Definition connector_logout (rq : http_request) (token : calling_agent) (now : Z) : M unit :=
  match header rq SESSION_HEADER with
  | Some (String _ _ as session_token) =>
      do row <- get_user_session session_token;
      match row with
      | None => ret tt
      | Some row =>
          if startswith (s_principal_id row) (p_org token +:+ "::") then
            do _ <- revoke_user_session session_token now; ret tt
          else ret tt
      end
  | _ => ret tt
  end.

(** ** [registry/connector_login_local_attribution_router.py] *)

Record LocalAttributionRequest := {
  local_subject : string;
  b_display_name : option string;
  b_device_cert_thumbprint : string;
  b_user_signed_assertion : option (list (string * json));
  b_webauthn_challenge_b64url : option string;
}.

Definition subject_char (c : ascii) : bool :=
  let n := N_of_ascii c in slug_char c || ((65 <=? n) && (n <=? 90))%N.

(** [re.match(r"^[a-zA-Z0-9._-]{1,64}$", s)]: [$] also matches before a
    newline that ends the text; [count] characters may follow. *)
Fixpoint subject_rest (count : nat) (s : string) {struct s} : bool :=
  match s with
  | EmptyString => true
  | String c EmptyString => bool_decide (c = newline) || match count with O => false | S _ => subject_char c end
  | String c s' => match count with O => false | S n => subject_char c && subject_rest n s' end
  end.

Definition _LOCAL_SUBJECT_RE (s : string) : bool :=
  match s with String c s' => subject_char c && subject_rest 63 s' | EmptyString => false end.

Definition bad_subject : exn :=
  HTTPException 400 "local_subject must match the local-user_name convention (alphanumerics + ._- only, 1-64 chars)".
Definition challenge_missing : exn :=
  HTTPException 400 "user_signed_assertion was provided but webauthn_challenge_b64url is missing".
Definition assertion_required : exn :=
  HTTPException 401
    "WebAuthn assertion required by MCP_PROXY_WEBAUTHN_ENFORCEMENT=required; complete the WebAuthn ceremony before retrying.".

(** The assertion and the credential that a session is created with. *)
Definition login_assertion (b : LocalAttributionRequest) (agent principal_id trace_id : string) (now : Z)
    : M (option string * option string) :=
  match b_user_signed_assertion b with
  | Some response =>
      match b_webauthn_challenge_b64url b with
      | Some (String _ _ as challenge) =>
          do (canonical, id) <- verify_and_serialise_user_assertion agent principal_id response challenge trace_id now;
          ret (Some canonical, Some id)
      | _ => raise challenge_missing
      end
  | None =>
      if bool_decide (o_lower E (Prelude.or_default "warn" (Some (webauthn_enforcement E))) = "required") then
        raise assertion_required
      else ret (None, None)
  end.

Definition connector_login_local_attribution (b : LocalAttributionRequest) (q : sign_on_request) (token : calling_agent)
    (trace_id : string) (t : sign_on_times) : M login_answer :=
  if negb (_LOCAL_SUBJECT_RE (local_subject b)) then raise bad_subject
  else
    do thumbprint <- lift (bound_thumbprint (q_http q) (b_device_cert_thumbprint b));
    do _ <- _enforce_connector_login_rate_limit (p_agent_id token) (_client_ip q) (local_subject b) (t_mono t);
    let user_name := lower (local_subject b) in
    let principal_id := user_principal (p_org token) user_name in
    do _ <- or_unavailable no_user_store
      (upsert_local_user_principal_local principal_id user_name (b_display_name b) (t_seen t));
    do expires_at <- lift (expiry (t_now t));
    do session_id <- token_urlsafe;
    do (serialised, credential) <- login_assertion b (p_agent_id token) principal_id trace_id (t_now t);
    do _ <- or_unavailable no_session_store
      (create_user_session
         {| s_session_id := session_id; s_principal_id := principal_id; s_agent_cert_thumbprint := thumbprint;
            s_sso_subject := "local:" +:+ user_name; s_idp_issuer := "local"; s_display_name := b_display_name b;
            s_created_at := utc_text (t_created t); s_expires_at := utc_text expires_at; s_revoked_at := None;
            s_user_signed_assertion := serialised; s_user_credential_id := credential |});
    ret {| a_user_id := principal_id; a_session_token := session_id; a_expires_at := expires_at |}.

(** ** [registry/user_principals_webauthn_router.py] *)

Definition not_installed : exn :=
  HTTPException 503
    "webauthn package not installed; install the [webauthn] extra on the Mastio image to enable Phase 2 endpoints.".

Definition _require_webauthn_available : outcome unit :=
  if webauthn_installed E then Ret tt else Raise not_installed.

Definition _enforce_same_org (principal_id : string) (token : calling_agent) : outcome unit :=
  match parse_principal_id_to_spiffe principal_id with
  | Raise _ => Raise (HTTPException 400 "invalid principal_id")
  | Ret (_, principal_org) =>
      if negb (bool_decide (p_org token = "")) && negb (bool_decide (p_org token = principal_org)) then
        Raise (HTTPException 403 "caller org does not own this principal")
      else Ret tt
  end.

Definition admitted_principal (principal_id : string) (token : calling_agent) : outcome unit :=
  let! _ := _require_webauthn_available in _enforce_same_org principal_id token.

(** [principal_id.split("/")[-1] or principal_id] *)
Definition last_part (principal_id : string) : string :=
  match default "" (last (split_on "/" principal_id)) with EmptyString => principal_id | name => name end.

(** The options, and the challenge in the store. *)
Definition register_start (principal_id : string) (token : calling_agent) (now : Z) : M (json * string) :=
  do _ <- lift (admitted_principal principal_id token);
  do existing <- transaction (select (λ t,
    (λ r, credential_id (w_record r)) <$> List.filter (of_principal principal_id) (user_webauthn_credentials t)));
  do challenge <- token_bytes;
  do options <- lift (registration_options (webauthn_installed E) (webauthn_rp_id E) (webauthn_rp_name E) principal_id
                        (last_part principal_id) challenge existing);
  do _ <- put_challenge principal_id "register" (_b64url challenge) now;
  ret (options, _b64url challenge).

Definition _audit_rejected (agent principal_id ceremony reason : string) : M unit :=
  audit_quietly (event_call agent ACTION_REJECTED "warning"
    (JObj [("principal_id", JStr principal_id); ("ceremony", JStr ceremony); ("reason", JStr (take_chars 512 reason))])).

Record RegisterFinishRequest := {
  f_challenge_b64url : string;
  f_credential : list (string * json);
  f_name : option string;
}.

Definition challenge_gone : exn := HTTPException 400 "registration challenge expired or already consumed".

Definition registered_details (principal_id : string) (v : VerifiedRegistration) (name : option string) : json :=
  JObj [("principal_id", JStr principal_id); ("credential_id_b64url", JStr (_b64url (r_credential_id v)));
        ("aaguid_hex", match r_aaguid v with Some a => JStr (to_hex a) | None => JNull end);
        ("transports", match r_transports v with Some l => JList l | None => JNull end); ("name", opt_json name)].

Definition register_finish (principal_id : string) (b : RegisterFinishRequest) (token : calling_agent) (mono now : Z)
    : M string :=
  do _ <- lift (admitted_principal principal_id token);
  do issued_challenge <- take principal_id "register" mono;
  if negb (bool_decide (issued_challenge = Some (f_challenge_b64url b))) then
    do _ <- _audit_rejected (p_agent_id token) principal_id "register" "challenge_mismatch_or_expired";
    raise challenge_gone
  else
    match verify_registration (webauthn_installed E) (webauthn_rp_id E) _expected_origins (f_challenge_b64url b)
            (f_credential b) with
    | Raise e =>
        match verification_failure e with
        | None => raise e
        | Some text =>
            do _ <- _audit_rejected (p_agent_id token) principal_id "register" text;
            raise (HTTPException 400 text)
        end
    | Ret verified =>
        do _ <- save_credential principal_id verified (f_name b) now;
        do _ <- audit (event_call (p_agent_id token) "frontdesk_shared_webauthn_credential_registered" "info"
          (registered_details principal_id verified (f_name b)));
        ret (_b64url (r_credential_id verified))
    end.

Definition no_credentials : exn := HTTPException 404 "no WebAuthn credentials registered for this principal".

Definition authenticate_start (principal_id : string) (token : calling_agent) (now : Z) : M (json * string) :=
  do _ <- lift (admitted_principal principal_id token);
  do records <- load_credential_records_for_verification principal_id;
  match records with
  | [] => raise no_credentials
  | _ =>
      do challenge <- token_bytes;
      do options <- lift (match authentication_options (webauthn_installed E) (webauthn_rp_id E) challenge records with
                          | Raise e => Raise (match verification_failure e with
                                              | Some text => HTTPException 400 text
                                              | None => e
                                              end)
                          | Ret options => Ret options
                          end);
      do _ <- put_challenge principal_id "authenticate" (_b64url challenge) now;
      ret (options, _b64url challenge)
  end.

Definition revoke_credential (principal_id credential_id_b64url : string) (token : calling_agent) : M unit :=
  do _ <- lift (_enforce_same_org principal_id token);
  match _b64url_decode credential_id_b64url with
  | Raise _ => raise (HTTPException 400 "credential_id is not a base64url string")
  | Ret id =>
      do deleted <- delete_credential principal_id id;
      if negb deleted then raise (HTTPException 404 "credential not found for this principal")
      else
        audit (event_call (p_agent_id token) "frontdesk_shared_webauthn_credential_revoked" "info"
          (JObj [("principal_id", JStr principal_id); ("credential_id_b64url", JStr credential_id_b64url)]))
  end.

(** ** What the process serves *)

Inductive sign_on :=
| SsoLogin (b : ConnectorLoginRequest) (q : sign_on_request) (token : calling_agent) (t : sign_on_times)
| LocalLogin (b : LocalAttributionRequest) (q : sign_on_request) (token : calling_agent) (trace_id : string)
    (t : sign_on_times)
| Logout (rq : http_request) (token : calling_agent) (now : Z)
| RegisterStart (principal_id : string) (token : calling_agent) (now : Z)
| RegisterFinish (principal_id : string) (b : RegisterFinishRequest) (token : calling_agent) (mono now : Z)
| AuthenticateStart (principal_id : string) (token : calling_agent) (now : Z)
| RevokeCredential (principal_id credential_id_b64url : string) (token : calling_agent)
| Stamp (rq : http_request) (agent : string) (thumb : option string) (now warned_at : Z).

Definition serve (x : sign_on) (s : sign_on_state) : sign_on_state :=
  match x with
  | SsoLogin b q token t => snd (connector_login b q token t s)
  | LocalLogin b q token trace_id t => snd (connector_login_local_attribution b q token trace_id t s)
  | Logout rq token now => snd (connector_logout rq token now s)
  | RegisterStart p token now => snd (register_start p token now s)
  | RegisterFinish p b token mono now => snd (register_finish p b token mono now s)
  | AuthenticateStart p token now => snd (authenticate_start p token now s)
  | RevokeCredential p id token => snd (revoke_credential p id token s)
  | Stamp rq agent thumb now warned_at => snd (maybe_stamp_user_session rq agent thumb now warned_at s)
  end.

Definition serve_all (l : list sign_on) (s : sign_on_state) : sign_on_state := foldl (λ s x, serve x s) s l.

End UserSession.

(** ** What the requests keep *)

Section Kept.
Context `{Hash} `{FromIso} `{Cryptography} `{Webauthn} (E : sign_on_env).

(** The row that a login makes; [serialised] and [credential] are what came of
    the assertion. *)
Definition login_row (x : sign_on) (id thumbprint : string) (expires_at : Z) (serialised credential : option string)
    : option user_session :=
  match x with
  | SsoLogin b q token t =>
      Some {| s_session_id := id;
              s_principal_id := user_principal (p_org token)
                (_slug_from_sso E (user_subject_sso b) (l_display_name b) (l_idp_issuer b));
              s_agent_cert_thumbprint := thumbprint; s_sso_subject := user_subject_sso b;
              s_idp_issuer := l_idp_issuer b; s_display_name := l_display_name b;
              s_created_at := utc_text (t_created t); s_expires_at := utc_text expires_at; s_revoked_at := None;
              s_user_signed_assertion := None; s_user_credential_id := None |}
  | LocalLogin b q token trace_id t =>
      Some {| s_session_id := id; s_principal_id := user_principal (p_org token) (lower (local_subject b));
              s_agent_cert_thumbprint := thumbprint; s_sso_subject := "local:" +:+ lower (local_subject b);
              s_idp_issuer := "local"; s_display_name := b_display_name b;
              s_created_at := utc_text (t_created t); s_expires_at := utc_text expires_at; s_revoked_at := None;
              s_user_signed_assertion := serialised; s_user_credential_id := credential |}
  | _ => None
  end.

(** The device and the expiry that a login settles. *)
Definition login_binds (x : sign_on) (thumbprint : string) (expires_at : Z) : Prop :=
  match x with
  | SsoLogin b q token t =>
      bound_thumbprint E (q_http q) (l_device_cert_thumbprint b) = Ret thumbprint ∧ expiry E (t_now t) = Ret expires_at
  | LocalLogin b q token trace_id t =>
      _LOCAL_SUBJECT_RE (local_subject b) = true ∧
      bound_thumbprint E (q_http q) (b_device_cert_thumbprint b) = Ret thumbprint ∧ expiry E (t_now t) = Ret expires_at
  | _ => False
  end.

Definition login_made (proofs : option string → Prop) (x : sign_on) (r : user_session) : Prop :=
  ∃ id thumbprint expires_at serialised credential,
    proofs serialised ∧ login_binds x thumbprint expires_at ∧ login_row x id thumbprint expires_at serialised credential = Some r.

(** A property of the tables that the writes of [x] keep. *)
Record kept (proofs : option string → Prop) (x : sign_on) (Inv : sign_on_tables → Prop) : Prop := {
  kept_users t l : Inv t → Inv (set_users l t);
  kept_login t r : Inv t → login_made proofs x r → existsb (session_named (s_session_id r)) (user_sessions t) = false →
    Inv (set_sessions (user_sessions t ++ [r]) t);
  kept_revoked t id ts : (∃ rq token now, x = Logout rq token now ∧ header rq SESSION_HEADER = Some id) → Inv t →
    Inv (set_sessions (update_rows (live_session id) (session_revoked ts) (user_sessions t)) t);
  kept_registered t c : Inv t → (∃ r, parse_principal_id_to_spiffe (w_principal_id c) = Ret r) →
    Inv (set_credentials (user_webauthn_credentials t ++ [c]) t);
  kept_used t id n ts : Inv t →
    Inv (set_credentials (update_rows (credential_named id) (used n ts) (user_webauthn_credentials t)) t);
  kept_deleted t p : Inv t → Inv (set_credentials (List.filter p (user_webauthn_credentials t)) t);
}.

Section Inv.
Context (proofs : option string → Prop) (x : sign_on) (Inv : sign_on_tables → Prop) (Hkept : kept proofs x Inv).

Definition holds (s : sign_on_state) : Prop := Inv (so_tables s).

#[local] Instance holds_stable : Stable holds.
Proof. by split. Qed.

Lemma preserves_audit_quietly c : preserves holds (audit_quietly E c).
Proof.
  apply preserves_catch; [|intros; apply preserves_ret]. intros s Hs. unfold Effects.audit.
  destruct (log_audit _ _ _ _) as [[]w]; exact Hs.
Qed.

Lemma keeps_audit c : preserves holds (Effects.audit (o_auditing E) c).
Proof. intros s Hs. unfold Effects.audit. destruct (log_audit _ _ _ _) as [[]w]; exact Hs. Qed.

Lemma keeps_select {A} (f : sign_on_tables → A) : preserves holds (select E f).
Proof. apply preserves_statement; [apply _|]. apply preserves_gets. Qed.

Lemma preserves_change f : (∀ t, Inv t → Inv (f t)) → preserves holds (change E f).
Proof. intros Hf. apply preserves_statement; [apply _|]. apply preserves_modify. intros s. apply Hf. Qed.

Lemma preserves_upsert row refresh : preserves holds (upsert_principal E row refresh).
Proof.
  apply preserves_transaction; [apply _|]. apply preserves_bind; [apply keeps_select|]. intros existing.
  apply preserves_if; apply preserves_change; intros t; apply (kept_users proofs x Inv Hkept).
Qed.

Lemma keeps_create r : login_made proofs x r → preserves holds (create_user_session E r).
Proof.
  intros Hr. apply preserves_transaction; [apply _|]. apply preserves_statement; [apply _|]. intros s Hs. cbv zeta.
  destruct (existsb _ _) eqn:Hex; [done|]. by apply (kept_login proofs x Inv Hkept).
Qed.

Lemma keeps_get id : preserves holds (get_user_session E id).
Proof. apply preserves_transaction; [apply _|]. apply keeps_select. Qed.

Lemma preserves_rate now key ceiling : preserves holds (rate_gate now key ceiling).
Proof. intros s Hs. unfold rate_gate. by destruct (check _ _ _ _) as [[] w]. Qed.

Lemma preserves_limits agent ip subject now :
  preserves holds (_enforce_connector_login_rate_limit agent ip subject now).
Proof. do 2 (apply preserves_bind; [apply preserves_rate|intros _]). apply preserves_rate. Qed.

Lemma preserves_bytes : preserves holds (token_bytes E).
Proof. by intros s. Qed.

Lemma preserves_token : preserves holds (token_urlsafe E).
Proof. apply preserves_bind; [apply preserves_bytes|]. intros; apply preserves_ret. Qed.

Lemma preserves_or_unavailable {A} e (m : M sign_on_state A) : preserves holds m → preserves holds (or_unavailable e m).
Proof. intros Hm. apply preserves_catch; [done|]. intros; apply preserves_raise. Qed.

Lemma preserves_records p : preserves holds (load_credential_records_for_verification E p).
Proof. apply preserves_transaction; [apply _|]. apply keeps_select. Qed.

Lemma preserves_used id n now : preserves holds (update_sign_count E id n now).
Proof. apply preserves_transaction; [apply _|]. apply preserves_change. intros t. apply (kept_used proofs x Inv Hkept). Qed.

Lemma preserves_verify agent p response challenge trace_id now :
  preserves holds (verify_and_serialise_user_assertion E agent p response challenge trace_id now).
Proof.
  apply preserves_bind; [apply preserves_records|]. intros records. destruct (verify_assertion _ _ _ _ _ _) as [v|e].
  - apply preserves_bind; [apply preserves_used|]. intros _. apply preserves_bind; [apply preserves_audit_quietly|].
    intros; apply preserves_ret.
  - destruct (webauthn_error e); [|apply preserves_raise]. apply preserves_bind; [apply preserves_audit_quietly|].
    intros; apply preserves_raise.
Qed.

Lemma preserves_assertion b agent p trace_id now : preserves holds (login_assertion E b agent p trace_id now).
Proof.
  unfold login_assertion. destruct (b_user_signed_assertion b) as [response|].
  - destruct (b_webauthn_challenge_b64url b) as [[|c challenge]|]; [apply preserves_raise| |apply preserves_raise].
    apply preserves_bind; [apply preserves_verify|]. intros [canonical id]. apply preserves_ret.
  - apply preserves_if; [apply preserves_raise|apply preserves_ret].
Qed.

(** What a login brings as proof is as asked for. *)
Context (Hnone : proofs None).
Context (Hproofs : ∀ b q token trace_id t, x = LocalLogin b q token trace_id t →
  _LOCAL_SUBJECT_RE (local_subject b) = true →
  triple holds
    (login_assertion E b (p_agent_id token) (user_principal (p_org token) (lower (local_subject b))) trace_id (t_now t))
    (λ p s, holds s ∧ proofs (fst p)) holds).

Lemma preserves_sso b q token t : x = SsoLogin b q token t → preserves holds (connector_login E b q token t).
Proof.
  intros Hx. unfold connector_login. apply preserves_bind_lift. intros thumbprint Hthumb.
  apply preserves_bind; [apply preserves_limits|]. intros _. cbv zeta.
  apply preserves_bind; [apply preserves_or_unavailable, preserves_upsert|]. intros _.
  apply preserves_bind_lift. intros expires_at Hexp. apply preserves_bind; [apply preserves_token|]. intros id.
  apply preserves_bind; [|intros; apply preserves_ret]. apply preserves_or_unavailable, keeps_create.
  exists id, thumbprint, expires_at, None, None. rewrite Hx. by split_and!.
Qed.

Lemma preserves_local b q token trace_id t :
  x = LocalLogin b q token trace_id t → preserves holds (connector_login_local_attribution E b q token trace_id t).
Proof.
  intros Hx. unfold connector_login_local_attribution.
  destruct (_LOCAL_SUBJECT_RE (local_subject b)) eqn:Hre; [|apply preserves_raise]. cbn [negb].
  apply preserves_bind_lift. intros thumbprint Hthumb. apply preserves_bind; [apply preserves_limits|]. intros _. cbv zeta.
  apply preserves_bind; [apply preserves_or_unavailable, preserves_upsert|]. intros _.
  apply preserves_bind_lift. intros expires_at Hexp. apply preserves_bind; [apply preserves_token|]. intros id.
  eapply hoare_bind; [by eapply Hproofs|]. intros [serialised credential] s [Hs Hok].
  revert s Hs. apply preserves_bind; [|intros; apply preserves_ret]. apply preserves_or_unavailable, keeps_create.
  exists id, thumbprint, expires_at, serialised, credential. rewrite Hx. by split_and!.
Qed.

Lemma preserves_logout rq token now : x = Logout rq token now → preserves holds (connector_logout E rq token now).
Proof.
  intros Hx. unfold connector_logout. destruct (header rq SESSION_HEADER) as [[|c id]|] eqn:Hh; [apply preserves_ret| |apply preserves_ret].
  apply preserves_bind; [apply keeps_get|]. intros [row|]; [|apply preserves_ret].
  apply preserves_if; [|apply preserves_ret]. apply preserves_bind; [|intros; apply preserves_ret].
  apply preserves_transaction; [apply _|]. apply preserves_statement; [apply _|]. intros s Hs.
  apply (kept_revoked proofs x Inv Hkept); [|exact Hs]. by exists rq, token, now.
Qed.

Lemma preserves_put p ceremony value now : preserves holds (put_challenge E p ceremony value now).
Proof. by apply preserves_modify. Qed.

Lemma preserves_register_start p token now : preserves holds (register_start E p token now).
Proof.
  unfold register_start. apply preserves_bind; [apply preserves_lift|]. intros _.
  apply preserves_bind; [apply preserves_transaction; [apply _|]; apply keeps_select|]. intros existing.
  apply preserves_bind; [apply preserves_bytes|]. intros challenge. apply preserves_bind; [apply preserves_lift|].
  intros options. apply preserves_bind; [apply preserves_put|]. intros; apply preserves_ret.
Qed.

Lemma same_org_parses p token : _enforce_same_org p token = Ret tt → ∃ r, parse_principal_id_to_spiffe p = Ret r.
Proof. unfold _enforce_same_org. destruct (parse_principal_id_to_spiffe p) as [r|]; [by exists r|done]. Qed.

Lemma admitted_parses p token : admitted_principal E p token = Ret tt → ∃ r, parse_principal_id_to_spiffe p = Ret r.
Proof. unfold admitted_principal. destruct (_require_webauthn_available E); [apply same_org_parses|done]. Qed.

Lemma preserves_register_finish p b token mono now : preserves holds (register_finish E p b token mono now).
Proof.
  unfold register_finish. apply preserves_bind_lift. intros [] Hp%admitted_parses.
  apply preserves_bind; [by intros s|]. intros issued_challenge. destruct (negb _).
  { apply preserves_bind; [apply preserves_audit_quietly|]. intros; apply preserves_raise. }
  destruct (verify_registration _ _ _ _ _) as [v|e].
  - apply preserves_bind.
    + apply preserves_transaction; [apply _|]. apply preserves_statement; [apply _|]. intros s Hs. cbv zeta.
      destruct (existsb _ _); [done|]. by apply (kept_registered proofs x Inv Hkept).
    + intros _. apply preserves_bind; [apply keeps_audit|]. intros; apply preserves_ret.
  - destruct (verification_failure e); [|apply preserves_raise].
    apply preserves_bind; [apply preserves_audit_quietly|]. intros; apply preserves_raise.
Qed.

Lemma preserves_authenticate_start p token now : preserves holds (authenticate_start E p token now).
Proof.
  unfold authenticate_start. apply preserves_bind; [apply preserves_lift|]. intros _.
  apply preserves_bind; [apply preserves_records|]. intros [|r records]; [apply preserves_raise|].
  apply preserves_bind; [apply preserves_bytes|]. intros challenge. apply preserves_bind; [apply preserves_lift|].
  intros options. apply preserves_bind; [apply preserves_put|]. intros; apply preserves_ret.
Qed.

Lemma keeps_revoke p id token : preserves holds (revoke_credential E p id token).
Proof.
  unfold revoke_credential. apply preserves_bind; [apply preserves_lift|]. intros _.
  destruct (_b64url_decode id) as [raw|]; [|apply preserves_raise]. apply preserves_bind.
  - apply preserves_transaction; [apply _|]. apply preserves_statement; [apply _|]. intros s Hs.
    by apply (kept_deleted proofs x Inv Hkept).
  - intros deleted. apply preserves_if; [apply preserves_raise|apply keeps_audit].
Qed.

Lemma preserves_stamp rq agent thumb now warned_at : preserves holds (maybe_stamp_user_session E rq agent thumb now warned_at).
Proof.
  unfold maybe_stamp_user_session. destruct (header rq SESSION_HEADER) as [[|c id]|]; [apply preserves_ret| |apply preserves_ret].
  destruct (header rq PRINCIPAL_HEADER) as [[|c' claimed]|]; [apply preserves_ret| |apply preserves_ret].
  apply preserves_bind; [apply keeps_get|]. intros [row|]; [|apply preserves_ret].
  apply preserves_bind; [apply preserves_lift|]. intros accepted. apply preserves_if; [apply preserves_ret|]. cbv zeta.
  assert (∀ user : string, preserves holds (do _ <- _emit_unauthenticated_session_warning_if_needed E agent (s_principal_id row)
    (String c id) row warned_at; ret (Some (user : string)))) as Hwarn.
  { intros user. apply preserves_bind; [|intros; apply preserves_ret]. apply preserves_if; [apply preserves_ret|apply preserves_audit_quietly]. }
  destruct (_resolve_webauthn_enforcement E), (truthy (s_user_signed_assertion row));
    [apply preserves_ret|apply preserves_ret|apply Hwarn|apply Hwarn|apply Hwarn|].
  apply preserves_bind; [apply preserves_audit_quietly|]. intros; apply preserves_raise.
Qed.

Lemma serve_holds s : holds s → holds (serve E x s).
Proof.
  intros Hs. cut (∀ y, x = y → holds (serve E y s)); [intros Hall; by apply Hall|].
  intros [] Hx; cbn [serve]; (apply preserves_end; [|exact Hs]).
  - by eapply preserves_sso.
  - by eapply preserves_local.
  - by eapply preserves_logout.
  - apply preserves_register_start.
  - apply preserves_register_finish.
  - apply preserves_authenticate_start.
  - apply keeps_revoke.
  - apply preserves_stamp.
Qed.

End Inv.
End Kept.

(** ** What is kept from the start *)

Section Invariants.
Context `{Hash} `{FromIso} `{Cryptography} `{Webauthn} (E : sign_on_env).

Definition anything (_ : option string) : Prop := True.

Lemma serve_any x Inv s : kept E anything x Inv → holds Inv s → holds Inv (serve E x s).
Proof.
  intros Hk. apply (serve_holds E anything x Inv Hk); [done|]. intros b q token trace_id t _ _.
  eapply hoare_weaken; [done| |done|by apply (preserves_assertion E anything x)]. by intros p s' Hs.
Qed.

(** What identifies a session and binds it stays; a revocation may come. *)
Definition session_later (r0 r : user_session) : Prop :=
  (s_session_id r, s_principal_id r, s_agent_cert_thumbprint r, s_expires_at r, s_user_signed_assertion r) =
  (s_session_id r0, s_principal_id r0, s_agent_cert_thumbprint r0, s_expires_at r0, s_user_signed_assertion r0).

(** Every session comes from one of these logins. *)
Definition traced (l : list sign_on) (t : sign_on_tables) : Prop :=
  ∀ r, r ∈ user_sessions t → ∃ x r0, x ∈ l ∧ login_made E anything x r0 ∧ session_later r0 r.

Lemma traced_kept l x : x ∈ l → kept E anything x (traced l).
Proof.
  intros Hx. split.
  - done.
  - intros t r Ht Hr _ r' [Hr'| ->%list_elem_of_singleton]%elem_of_app; [by apply Ht|]. by exists x, r.
  - intros t id ts _ Ht r (r' & Hr' & ->)%elem_of_update_rows. destruct (Ht _ Hr') as (y & r0 & Hy & Hmade & Hlater).
    exists y, r0. split_and!; [done..|]. by destruct (live_session id r').
  - done.
  - done.
  - done.
Qed.

Lemma serve_all_traced l s : holds (traced l) s → holds (traced l) (serve_all E l s).
Proof.
  assert (∀ l', l' ⊆ l → ∀ s, holds (traced l) s → holds (traced l) (serve_all E l' s)) as Hall; [|by apply Hall].
  induction l' as [|x l' IH]; intros Hsub s1 Hs; [done|]. apply IH; [set_solver|].
  apply serve_any; [apply traced_kept; set_solver|done].
Qed.

(** The session of this row is there, unrevoked. *)
Definition standing (row : user_session) (t : sign_on_tables) : Prop :=
  find_by s_session_id (s_session_id row) (user_sessions t) = Some row.

Definition logs_out (id : string) (x : sign_on) : Prop :=
  match x with Logout rq _ _ => header rq SESSION_HEADER = Some id | _ => False end.

Lemma revoked_elsewhere id id' ts l :
  id ≠ id' → find_by s_session_id id' (update_rows (live_session id) (session_revoked ts) l) = find_by s_session_id id' l.
Proof.
  intros Hne. induction l as [|r l IH]; [done|]. unfold update_rows in *. cbn [map]. rewrite !find_by_cons, IH.
  unfold live_session, session_named. destruct (decide (s_session_id r = id)) as [Hid|Hid].
  - rewrite (bool_decide_eq_true_2 _ Hid). cbn [andb]. destruct (bool_decide (s_revoked_at r = None)); [|done]. cbn.
    by rewrite !bool_decide_eq_false_2 by congruence.
  - by rewrite (bool_decide_eq_false_2 _ Hid).
Qed.

Lemma current_kept row x : ¬ logs_out (s_session_id row) x → kept E anything x (standing row).
Proof.
  intros Hx. split; try done.
  - intros t r Ht _ _. unfold standing in *. cbn [user_sessions set_sessions]. by rewrite find_by_app, Ht.
  - intros t id ts (rq & token & now & -> & Hh) Ht. unfold standing in *. cbn [user_sessions set_sessions]. rewrite revoked_elsewhere; [done|].
    intros ->. by apply Hx.
Qed.

Lemma serve_all_current row l s :
  Forall (λ x, ¬ logs_out (s_session_id row) x) l → holds (standing row) s → holds (standing row) (serve_all E l s).
Proof.
  intros Hl. revert s. induction Hl as [|x l Hx Hl IH]; intros s Hs; [done|]. apply IH, serve_any; [by apply current_kept|done].
Qed.

(** *** Stamping *)

(** The row is that of a session of this user which is open now, on this
    device. *)
Definition session_open (row : user_session) (p : string) (thumb : option string) (now : Z) : Prop :=
  s_principal_id row = p ∧ truthy (s_revoked_at row) = false ∧
  (∃ tz e, from_iso (s_expires_at row) = Some (tz, e) ∧ now < e) ∧
  (∀ device, thumb = Some device → device ≠ "" → s_agent_cert_thumbprint row ≠ "" → s_agent_cert_thumbprint row = device).

Lemma digest_equal a b : compare_digest (JStr a) b = Ret true → a = b.
Proof. unfold compare_digest. destruct (_ && _); [|done]. by intros [= ?%bool_decide_eq_true_1]. Qed.

Lemma accepted_open row p thumb now :
  session_accepted row p thumb now = Ret true → session_open row p thumb now ∧ p ≠ "".
Proof.
  unfold session_accepted. destruct (truthy (s_revoked_at row)) eqn:Hr; [done|].
  destruct (from_iso (s_expires_at row)) as [[tz e]|] eqn:He; [|done].
  destruct (Z.leb_spec e now) as [|Hlt]; [done|]. cbn [orb]. case_bool_decide as Hp; [done|].
  destruct (compare_digest (JStr (s_principal_id row)) p) as [[]|] eqn:Hc; [|done..]. apply digest_equal in Hc. cbn [obind].
  intros Hd. split; [|congruence]. split_and!; [done|done|by exists tz, e|].
  intros device -> Hne Hs. unfold same_device in Hd. destruct device as [|c device]; [done|].
  rewrite bool_decide_eq_false_2 in Hd by done. by apply digest_equal.
Qed.

Lemma got_session id s r s' :
  get_user_session E id s = (Ret r, s') → r = find_by s_session_id id (user_sessions (so_tables s)).
Proof. intros (s1 & Hs%statement_Ret & _)%transaction_Ret. by injection Hs. Qed.

Lemma stamped rq agent thumb now w s p s' :
  maybe_stamp_user_session E rq agent thumb now w s = (Ret (Some p), s') →
  ∃ id row, header rq SESSION_HEADER = Some id ∧ header rq PRINCIPAL_HEADER = Some p ∧
    find_by s_session_id id (user_sessions (so_tables s)) = Some row ∧ session_open row p thumb now ∧
    (_resolve_webauthn_enforcement E = Required → truthy (s_user_signed_assertion row) = true).
Proof.
  unfold maybe_stamp_user_session. destruct (header rq SESSION_HEADER) as [[|c id]|]; [done| |done].
  destruct (header rq PRINCIPAL_HEADER) as [[|c' claimed]|]; [done| |done].
  intros (row & s1 & Hrow%got_session & Hrun)%bind_Ret. destruct row as [row|]; [|done].
  rewrite bind_lift in Hrun. destruct (session_accepted row (String c' claimed) thumb now) as [[]|] eqn:Hacc; [|done..].
  apply accepted_open in Hacc as [Hopen _]. cbn [negb] in Hrun. cbv zeta in Hrun. pose proof Hopen as (Hp & _).
  exists (String c id), row. destruct (_resolve_webauthn_enforcement E), (truthy (s_user_signed_assertion row)) eqn:Ht;
    try (apply bind_Ret in Hrun as (u & s2 & _ & Hrun));
    try done; injection Hrun as <- _; by rewrite Hp in *.
Qed.

(** *** Logging in *)

Definition login (x : sign_on) : M sign_on_state login_answer :=
  match x with
  | SsoLogin b q token t => connector_login E b q token t
  | LocalLogin b q token trace_id t => connector_login_local_attribution E b q token trace_id t
  | _ => raise (Other "NotALogin" "")
  end.

Lemma created row s s' :
  or_unavailable no_session_store (create_user_session E row) s = (Ret tt, s') → holds (standing row) s'.
Proof.
  unfold or_unavailable, catch. destruct (create_user_session E row s) as [[[]|e] s1] eqn:Hc; [|done]. intros [= <-].
  apply transaction_Ret in Hc as (s2 & Hs%statement_Ret & ->). cbv zeta in Hs.
  destruct (existsb _ _) eqn:Hex; [done|]. injection Hs as <-.
  change (find_by s_session_id (s_session_id row) (user_sessions (so_tables s) ++ [row]) = Some row).
  change (existsb (λ x, bool_decide (s_session_id x = s_session_id row)) (user_sessions (so_tables s)) = false) in Hex.
  apply find_by_None in Hex. rewrite find_by_app, Hex, find_by_cons. by rewrite bool_decide_eq_true_2.
Qed.

Lemma drew_token s id s' : token_urlsafe E s = (Ret id, s') → id = encode (so_bytes E (so_draws s)).
Proof. unfold token_urlsafe. intros (raw & s1 & [= <- <-] & [= <- <-])%bind_Ret. done. Qed.

Lemma login_creates x s a s' :
  login x s = (Ret a, s') →
  ∃ thumbprint serialised credential row,
    login_binds E x thumbprint (a_expires_at a) ∧
    login_row E x (a_session_token a) thumbprint (a_expires_at a) serialised credential = Some row ∧
    a_user_id a = s_principal_id row ∧ holds (standing row) s' ∧ (∃ n, a_session_token a = encode (so_bytes E n)).
Proof.
  destruct x as [b q token t|b q token trace_id t| | | | | |]; cbn [login]; try done.
  - unfold connector_login. intros (thumbprint & s1 & [= Hthumb _] & Hrun)%bind_Ret.
    apply bind_Ret in Hrun as (? & s2 & _ & Hrun). cbv zeta in Hrun. apply bind_Ret in Hrun as (? & s3 & _ & Hrun).
    apply bind_Ret in Hrun as (e & s4 & [= He _] & Hrun). apply bind_Ret in Hrun as (id & s5 & Hid%drew_token & Hrun).
    apply bind_Ret in Hrun as ([] & s6 & Hc%created & [= <- <-]).
    eexists thumbprint, None, None, _. split; [by split_and!|]. split; [reflexivity|]. split_and!; [done|exact Hc|by eexists].
  - unfold connector_login_local_attribution. destruct (_LOCAL_SUBJECT_RE (local_subject b)) eqn:Hre; [|done]. cbn [negb].
    intros (thumbprint & s1 & [= Hthumb _] & Hrun)%bind_Ret.
    apply bind_Ret in Hrun as (? & s2 & _ & Hrun). cbv zeta in Hrun. apply bind_Ret in Hrun as (? & s3 & _ & Hrun).
    apply bind_Ret in Hrun as (e & s4 & [= He _] & Hrun). apply bind_Ret in Hrun as (id & s5 & Hid%drew_token & Hrun).
    apply bind_Ret in Hrun as ([serialised credential] & s6 & _ & Hrun).
    apply bind_Ret in Hrun as ([] & s7 & Hc%created & [= <- <-]).
    eexists thumbprint, serialised, credential, _. split; [by split_and!|]. split; [reflexivity|]. split_and!; [done|exact Hc|by eexists].
Qed.

Lemma login_row_fields x id thumbprint e serialised credential row :
  login_row E x id thumbprint e serialised credential = Some row →
  s_session_id row = id ∧ s_agent_cert_thumbprint row = thumbprint ∧ s_expires_at row = utc_text e ∧
  s_revoked_at row = None ∧ s_principal_id row ≠ "".
Proof.
  assert (∀ org name, user_principal org name ≠ "") as Hne by by intros [] name.
  destruct x; cbn [login_row]; try done; intros [= <-]; split_and!; try done; apply Hne.
Qed.

Lemma binds_expiry x thumbprint e : login_binds E x thumbprint e → representable e.
Proof.
  assert (∀ t, expiry E t = Ret e → representable e) as He.
  { intros t. unfold expiry, datetime_of, representable. destruct (Z.leb_spec first_instant (t + _resolve_ttl_seconds E * 1000000)),
      (Z.ltb_spec (t + _resolve_ttl_seconds E * 1000000) last_instant); cbn; try done. intros [= <-]. lia. }
  destruct x; cbn [login_binds]; try done; [intros [_ ?]|intros (_ & _ & ?)]; by eapply He.
Qed.

(** C8: no attribution without a login: when a request is taken to be made on
    behalf of a user, after any requests served on tables without sessions, one
    of them was a login that bound that user, of the organisation of the agent
    that logged in, under the session token the request bears; the session had
    not expired, the request names the same user, and comes from the device the
    login was bound to wherever its device is known. *)
Theorem stamp_traced l s0 rq agent thumb now w p s' :
  user_sessions (so_tables s0) = [] →
  maybe_stamp_user_session E rq agent thumb now w (serve_all E l s0) = (Ret (Some p), s') →
  ∃ x id thumbprint e serialised credential row,
    x ∈ l ∧ login_binds E x thumbprint e ∧ login_row E x id thumbprint e serialised credential = Some row ∧
    p = s_principal_id row ∧ header rq SESSION_HEADER = Some id ∧ header rq PRINCIPAL_HEADER = Some p ∧ now < e ∧
    (∀ device, thumb = Some device → device ≠ "" → thumbprint ≠ "" → device = thumbprint) ∧
    (_resolve_webauthn_enforcement E = Required → truthy (s_user_signed_assertion row) = true).
Proof.
  intros Hempty (id & row & Hid & Hp & Hfind & (Hrow & _ & (tz & e & He & Hnow) & Hdev) & Hreq)%stamped.
  apply find_by_Some in Hfind as [Hin Hrid].
  assert (holds (traced l) s0) as Hs0 by (intros r; rewrite Hempty; by intros ?%not_elem_of_nil).
  destruct (serve_all_traced l s0 Hs0 _ Hin)
    as (x & r0 & Hx & (id0 & thumbprint & e0 & serialised & credential & _ & Hbinds & Hmade) & [= L1 L2 L3 L4 L5]).
  destruct (login_row_fields _ _ _ _ _ _ _ Hmade) as (F1 & F2 & F3 & _ & _).
  rewrite L4, F3, from_iso_utc in He by (by eapply binds_expiry). injection He as _ <-.
  exists x, id, thumbprint, e0, serialised, credential, r0. assert (id0 = id) as -> by congruence.
  rewrite L5 in Hreq. rewrite L3, F2 in Hdev.
  split_and!; [done|done|done|congruence|done|done|done| |done]. intros device Hd Hne Ht. symmetry. by apply Hdev.
Qed.
(** A session that is open is stamped while the database answers. *)
Lemma open_stamped rq agent thumb now w s row e :
  (∀ n, o_fails E n = None) → _resolve_webauthn_enforcement E ≠ Required →
  header rq SESSION_HEADER = Some (s_session_id row) → s_session_id row ≠ "" →
  header rq PRINCIPAL_HEADER = Some (s_principal_id row) → s_principal_id row ≠ "" →
  is_ascii (s_principal_id row) = true → holds (standing row) s → s_revoked_at row = None →
  from_iso (s_expires_at row) = Some (true, e) → now < e → same_device row thumb = Ret true →
  ∃ s', maybe_stamp_user_session E rq agent thumb now w s = (Ret (Some (s_principal_id row)), s').
Proof.
  intros Hup Hmode Hh Hid Hp Hne Hascii Hcur Hrev Hexp Hnow Hdev. unfold maybe_stamp_user_session. rewrite Hh, Hp.
  destruct (s_session_id row) as [|c id] eqn:Hs; [done|]. destruct (s_principal_id row) as [|c' user] eqn:Hu; [done|].
  assert (∃ s1, get_user_session E (String c id) s = (Ret (Some row), s1)) as [s1 Hget].
  { unfold get_user_session, transaction, select, statement. rewrite !Hup. cbn [gets]. unfold gets. rewrite !Hup.
    unfold holds, standing in Hcur. rewrite Hs in Hcur. change (so_tables (issued s)) with (so_tables s). rewrite Hcur. by eexists. }
  rewrite (bind_step _ _ _ _ _ Hget), bind_lift.
  assert (session_accepted row (String c' user) thumb now = Ret true) as ->.
  { unfold session_accepted. rewrite Hrev, Hexp, Hu. cbn [truthy]. rewrite (proj2 (Z.leb_gt e now)) by done. cbn [orb].
    rewrite bool_decide_eq_false_2 by done. unfold compare_digest. rewrite Hascii. cbn [andb obind].
    by rewrite bool_decide_eq_true_2. }
  cbn [negb]. cbv zeta. rewrite Hu.
  assert (∃ s2, (do _ <- _emit_unauthenticated_session_warning_if_needed E agent (String c' user) (String c id) row w;
    ret (Some (String c' user))) s1 = (Ret (Some (String c' user)), s2)) as Hwarn.
  { unfold _emit_unauthenticated_session_warning_if_needed. destruct (_ || _); [by eexists|].
    unfold audit_quietly, bind, catch. destruct (Effects.audit _ _ s1) as [[[]|x] s2]; by eexists. }
  destruct (_resolve_webauthn_enforcement E); [by eexists|exact Hwarn|done].
Qed.

Lemma encode_nonempty s : s ≠ "" → encode s ≠ "".
Proof. destruct s as [|a [|b [|c s]]]; [done|..]; intros _; by cbn. Qed.

(** C9: a login opens a session: after it is answered, and after any further
    requests other than a logout under its token, a request from the same device
    that bears the token and names the user, before the expiry of the answer, is
    taken to be made on behalf of that user, unless the enforcement mode is
    "required". *)
Theorem login_stamped x s a s1 l rq agent thumb now w :
  (∀ n, o_fails E n = None) → (∀ n, so_bytes E n ≠ "") → _resolve_webauthn_enforcement E ≠ Required →
  login x s = (Ret a, s1) → Forall (λ y, ¬ logs_out (a_session_token a) y) l →
  header rq SESSION_HEADER = Some (a_session_token a) → header rq PRINCIPAL_HEADER = Some (a_user_id a) →
  is_ascii (a_user_id a) = true → now < a_expires_at a →
  (thumb = None ∨ ∃ device, thumb = Some device ∧ is_ascii device = true ∧ login_binds E x device (a_expires_at a)) →
  ∃ s', maybe_stamp_user_session E rq agent thumb now w (serve_all E l s1) = (Ret (Some (a_user_id a)), s').
Proof.
  intros Hup Hbytes Hmode Hlogin Hl Hh Hp Hascii Hnow Hdev.
  destruct (login_creates x s a s1 Hlogin)
    as (thumbprint & serialised & credential & row & Hbinds & Hrow & Hu & Hcur & [n Hn]).
  destruct (login_row_fields _ _ _ _ _ _ _ Hrow) as (F1 & F2 & F3 & F4 & F5). rewrite Hu in *. rewrite <- F1 in *.
  apply open_stamped with (e := a_expires_at a); try done.
  - rewrite Hn. by apply encode_nonempty.
  - by apply serve_all_current.
  - rewrite F3. apply from_iso_utc. by eapply binds_expiry.
  - unfold same_device. destruct Hdev as [->|(device & -> & Hda & Hdb)]; [done|].
    assert (thumbprint = device) as ->.
    { destruct x; cbn [login_binds] in Hbinds, Hdb; try done; [destruct Hbinds as [Hb1 _], Hdb as [Hb2 _]
        |destruct Hbinds as (_ & Hb1 & _), Hdb as (_ & Hb2 & _)]; congruence. }
    rewrite F2. destruct device as [|c device]; [done|]. rewrite bool_decide_eq_false_2 by done.
    unfold compare_digest. rewrite Hda. cbn [andb]. by rewrite bool_decide_eq_true_2.
Qed.

(** *** The mode that requires an assertion *)

Lemma parsed_slash p r : parse_principal_id_to_spiffe p = Ret r → has_char slash p = true.
Proof.
  unfold parse_principal_id_to_spiffe. destruct (has_char slash p) eqn:Hs; [done|]. by rewrite split_on_free.
Qed.

Lemma subject_plain s : _LOCAL_SUBJECT_RE s = true → has_char slash (lower s) = false.
Proof.
  assert (∀ c, subject_char c || bool_decide (c = newline) = true →
    has_char slash (lower (String c "")) = false) as Hc by by destruct c as [[] [] [] [] [] [] [] []].
  assert (∀ c s, has_char slash (lower (String c s)) = has_char slash (lower (String c "")) || has_char slash (lower s)) as Hcons.
  { intros c s1. cbn. by rewrite orb_false_r. }
  assert (∀ s n, subject_rest n s = true → has_char slash (lower s) = false) as Hrest.
  { clear s. induction s as [|c s IH]; intros n; [done|]. rewrite Hcons. destruct s as [|d s].
    - cbn [subject_rest]. intros Hor. rewrite Hc; [done|]. rewrite orb_comm. destruct (bool_decide (c = newline)); [done|].
      by destruct n.
    - destruct n as [|n]; [done|]. change (subject_rest (S n) (String c (String d s))) with
        (subject_char c && subject_rest n (String d s)). intros [Hs1 Hs2]%andb_true_iff.
      rewrite Hc by (by rewrite Hs1). by apply (IH n). }
  destruct s as [|c s]; [done|]. cbn [_LOCAL_SUBJECT_RE]. intros [Hs1 Hs2]%andb_true_iff.
  rewrite Hcons, Hc by (by rewrite Hs1). by apply (Hrest s 63%nat).
Qed.

(** No session has an assertion, and no credential a name that a login gives. *)
Definition unproved (t : sign_on_tables) : Prop :=
  (∀ c, c ∈ user_webauthn_credentials t → has_char slash (w_principal_id c) = true) ∧
  ∀ r, r ∈ user_sessions t → s_user_signed_assertion r = None.

Definition no_proof (o : option string) : Prop := o = None.

Lemma unproved_kept x : kept E no_proof x unproved.
Proof.
  split.
  - done.
  - intros t r [Hc Hs] (id & th & e & ser & cred & -> & _ & Hrow) _. split; [exact Hc|].
    intros r' [Hr'| ->%list_elem_of_singleton]%elem_of_app; [by apply Hs|]. by destruct x; cbn in Hrow; simplify_eq.
  - intros t id ts _ [Hc Hs]. split; [exact Hc|]. intros r (r' & Hr' & ->)%elem_of_update_rows.
    specialize (Hs _ Hr'). by destruct (live_session id r').
  - intros t c [Hc Hs] [r Hr]. split; [|exact Hs].
    intros c' [Hc'| ->%list_elem_of_singleton]%elem_of_app; [by apply Hc|by eapply parsed_slash].
  - intros t id n ts [Hc Hs]. split; [|exact Hs]. intros c (c' & Hc' & ->)%elem_of_update_rows.
    specialize (Hc _ Hc'). by destruct (credential_named id c').
  - intros t p [Hc Hs]. split; [|exact Hs]. intros c [Hin _]%elem_of_filter_bool. by apply Hc.
Qed.

Lemma no_record_fails installed rp origins challenge response :
  is_ret (verify_assertion installed rp origins challenge response []) = false.
Proof.
  unfold verify_assertion. destruct (load_lib installed); [|done]. destruct origins; [done|]. cbn [obind].
  destruct (_b64url_decode challenge); [|done]. cbn [obind]. destruct (response_credential_id response) as [[]|]; done.
Qed.

Lemma login_unverified p agent response challenge trace_id now :
  has_char slash p = false →
  triple (holds unproved) (verify_and_serialise_user_assertion E agent p response challenge trace_id now)
    (λ _ _, False) (holds unproved).
Proof.
  intros Hp s Hs. pose proof (preserves_verify E no_proof (RegisterStart p {| p_agent_id := ""; p_org := "" |} 0) unproved
    (unproved_kept _) agent p response challenge trace_id now s Hs) as Hkeep.
  destruct (verify_and_serialise_user_assertion E agent p response challenge trace_id now s) as [[a|e] s'] eqn:Hrun; [|done].
  unfold verify_and_serialise_user_assertion in Hrun. apply bind_Ret in Hrun as (records & s1 & Hload & Hrun).
  apply transaction_Ret in Hload as (s2 & Hload%statement_Ret & _). injection Hload as <- _.
  change (so_tables (issued s)) with (so_tables s) in Hrun.
  assert (List.filter (of_principal p) (user_webauthn_credentials (so_tables s)) = []) as Hnone.
  { destruct (List.filter _ _) as [|c l] eqn:Hf; [done|]. assert (c ∈ c :: l) as Hc by by left. rewrite <- Hf in Hc.
    apply elem_of_filter_bool in Hc as [Hc Heq%bool_decide_eq_true_1]. apply (proj1 Hs) in Hc. congruence. }
  rewrite Hnone in Hrun. cbn [fmap list_fmap] in Hrun.
  pose proof (no_record_fails (webauthn_installed E) (webauthn_rp_id E) (_expected_origins E) challenge response) as Hfail.
  destruct (verify_assertion _ _ _ _ _ _) as [v|e]; [done|].
  destruct (webauthn_error e); [by apply bind_Ret in Hrun as (? & ? & _ & Hrun)|done].
Qed.

(** The organisations that log in have no slash in their name. *)
Definition plain_org (x : sign_on) : Prop :=
  match x with LocalLogin _ _ token _ _ => has_char slash (p_org token) = false | _ => True end.

Lemma serve_unproved x s : plain_org x → holds unproved s → holds unproved (serve E x s).
Proof.
  intros Hx. apply (serve_holds E no_proof x unproved (unproved_kept x)); [done|].
  intros b q token trace_id t -> Hre%subject_plain. cbn [plain_org] in Hx.
  assert (has_char slash (user_principal (p_org token) (lower (local_subject b))) = false) as Hp.
  { unfold user_principal. by rewrite !has_char_app, Hx, Hre. }
  unfold login_assertion. destruct (b_user_signed_assertion b) as [response|].
  - destruct (b_webauthn_challenge_b64url b) as [[|c challenge]|]; [by apply hoare_raise| |by apply hoare_raise].
    eapply hoare_bind; [by apply login_unverified|]. by intros [canonical id] s' [].
  - destruct (bool_decide _); [apply hoare_raise|]. by apply hoare_ret.
Qed.

(** C10: with the mode "required" no request is ever taken to be made on behalf
    of a user, from empty tables on and whatever is served: an authenticator is
    registered under a SPIFFE path of its principal, a session is for the name
    <org>::user::<name>, so no assertion of a login finds a credential and no
    session has one. *)
Theorem required_mode_stamps_nobody l s0 rq agent thumb now w p s' :
  user_sessions (so_tables s0) = [] → user_webauthn_credentials (so_tables s0) = [] → Forall plain_org l →
  _resolve_webauthn_enforcement E = Required →
  maybe_stamp_user_session E rq agent thumb now w (serve_all E l s0) ≠ (Ret (Some p), s').
Proof.
  intros Hs Hc Hl Hmode (id & row & _ & _ & Hfind & _ & Hreq)%stamped. specialize (Hreq Hmode).
  apply find_by_Some in Hfind as [Hin _].
  assert (holds unproved s0) as H0s.
  { split; [rewrite Hc|rewrite Hs]; by intros ? ?%not_elem_of_nil. }
  assert (holds unproved (serve_all E l s0)) as [_ Hnone].
  { clear Hs Hc Hin. revert s0 H0s. induction Hl as [|x l Hx Hl IH]; intros s0 H0s; [done|]. by apply IH, serve_unproved. }
  by rewrite (Hnone _ Hin) in Hreq.
Qed.

(** *** Behaviour beside its description *)

(** A claim that is no ASCII text ends the request with a TypeError. *)
Theorem non_ascii_claim_raises row claimed thumb now tz e :
  truthy (s_revoked_at row) = false → from_iso (s_expires_at row) = Some (tz, e) → now < e → s_principal_id row ≠ "" →
  is_ascii claimed = false → session_accepted row claimed thumb now = Raise TypeError.
Proof.
  intros Hr He Hnow Hp Ha. unfold session_accepted. rewrite Hr, He, (proj2 (Z.leb_gt e now)) by done.
  rewrite bool_decide_eq_false_2 by done. cbn. unfold compare_digest. by rewrite Ha, andb_false_r.
Qed.

(** Any agent of the organisation ends a session. *)
Theorem logout_by_any_agent rq agent agent' org now s :
  connector_logout E rq {| p_agent_id := agent; p_org := org |} now s =
  connector_logout E rq {| p_agent_id := agent'; p_org := org |} now s.
Proof. done. Qed.

(** A challenge that is no base64 is not one of the failures that are answered
    with 401. *)
Theorem malformed_challenge_raises agent p response challenge trace_id now s records s1 :
  webauthn_installed E = true → _expected_origins E ≠ [] → _b64url_decode challenge = Raise ValueError →
  load_credential_records_for_verification E p s = (Ret records, s1) →
  verify_and_serialise_user_assertion E agent p response challenge trace_id now s = (Raise ValueError, s1).
Proof.
  intros Hi Ho Hc Hload. unfold verify_and_serialise_user_assertion. rewrite (bind_step _ _ _ _ _ Hload).
  unfold verify_assertion. rewrite Hi. cbn [load_lib obind]. destruct (_expected_origins E); [done|]. by rewrite Hc.
Qed.

(** Programs that neither read nor change the challenges. *)
Definition ignores_challenges {A} (m : M sign_on_state A) : Prop :=
  ∀ c s, m (with_challenges c s) = (fst (m s), with_challenges c (snd (m s))).

Lemma ignores_bind {A B} (m : M sign_on_state A) (f : A → M sign_on_state B) :
  ignores_challenges m → (∀ a, ignores_challenges (f a)) → ignores_challenges (bind m f).
Proof. intros Hm Hf c s. unfold bind. rewrite Hm. destruct (m s) as [[a|e] s1]; [apply Hf|done]. Qed.
Lemma ignores_catch {A} (m : M sign_on_state A) h :
  ignores_challenges m → (∀ e, ignores_challenges (h e)) → ignores_challenges (catch m h).
Proof. intros Hm Hf c s. unfold catch. rewrite Hm. destruct (m s) as [[a|e] s1]; [done|apply Hf]. Qed.
Lemma ignores_statement {A} (m : M sign_on_state A) : ignores_challenges m → ignores_challenges (statement (o_fails E) m).
Proof.
  intros Hm c s. unfold statement. change (statements (with_challenges c s)) with (statements s).
  change (issued (with_challenges c s)) with (with_challenges c (issued s)). destruct (o_fails E _); [done|]. apply Hm.
Qed.
Lemma ignores_transaction {A} (m : M sign_on_state A) : ignores_challenges m → ignores_challenges (transaction (o_fails E) m).
Proof.
  intros Hm c s. unfold transaction. rewrite Hm. destruct (m s) as [[a|e] s1]; [|done]. cbn [fst snd].
  rewrite (ignores_statement (ret a)) by done. destruct (statement _ _ s1) as [[] s2]; done.
Qed.
Lemma ignores_audit c : ignores_challenges (audit_quietly E c).
Proof.
  apply ignores_catch; [|done]. intros items s. unfold Effects.audit. cbv zeta.
  change (audit_calls (with_challenges items s)) with (audit_calls s). change (trail (with_challenges items s)) with (trail s).
  by destruct (log_audit _ _ _ _) as [r w].
Qed.

(** An assertion is checked against the challenge that comes with it: whether
    the store holds that challenge makes no difference, and it stays there. *)
Theorem challenge_of_the_client agent p response challenge trace_id now :
  ignores_challenges (verify_and_serialise_user_assertion E agent p response challenge trace_id now).
Proof.
  apply ignores_bind; [by apply ignores_transaction, ignores_statement|]. intros records.
  destruct (verify_assertion _ _ _ _ _ _) as [v|e].
  - apply ignores_bind; [by apply ignores_transaction, ignores_statement|]. intros _.
    by apply ignores_bind; [apply ignores_audit|].
  - destruct (webauthn_error e); [|done]. by apply ignores_bind; [apply ignores_audit|].
Qed.

(** Two identities of two issuers with one name, whatever the hash. *)
Theorem identities_share_a_name :
  o_lower E "i|u@x" = "i|u@x" → o_lower E "i" = "i" →
  _slug_from_sso E "u@y" None "i|u@x" = _slug_from_sso E "u@x|u@y" None "i".
Proof.
  intros Hl1 Hl2. unfold _slug_from_sso, _identity_hash_suffix.
  assert (strip_text "i|u@x" = "i|u@x" ∧ strip_text "i" = "i" ∧ strip_text "u@y" = "u@y" ∧ strip_text "u@x|u@y" = "u@x|u@y")
    as (-> & -> & -> & ->) by (by vm_compute).
  rewrite Hl1, Hl2. reflexivity.
Qed.

End Invariants.

(** The subject may end in a newline. *)
Theorem newline_in_subject : _LOCAL_SUBJECT_RE ("alice" +:+ String newline "") = true.
Proof. reflexivity. Qed.

(** ** Concrete runs *)

Module SignOnDemo.

#[local] Instance crypto : Cryptography := {
  key := unit; load_pem_public_key _ := None; spki_der _ := ""; kind_of _ := OtherKey "none"; pss_verifies _ _ _ := false;
  ecdsa_verifies _ _ _ := false; ecdsa_verifies_digest _ _ _ := Ret false; certificate := unit;
  load_pem_x509_certificates _ := None; load_pem_x509_certificate _ := None; cert_pem_of _ := ""; cert_der _ := "";
  cert_key _ := tt; cert_serial _ := 1; san_uris _ := Ret None; common_names _ := [];
}.

(** A package for which every assertion is right. *)
#[local] Instance package : Webauthn := {
  assertion := string; attestation := string; parse_authentication_credential_json text := Ret text;
  verify_authentication_response _ _ _ _ _ n := Ret (n + 1); parse_registration_credential_json text := Ret text;
  verify_registration_response _ challenge _ _ :=
    Ret {| g_credential_id := challenge; g_credential_public_key := "key"; g_sign_count := 0; g_aaguid := None |};
  registration_options_json _ _ _ _ _ _ _ := Ret JNull; authentication_options_json _ _ _ := Ret JNull;
  shake_256 text := text;
}.

Definition env (mode : string) : sign_on_env :=
  {| o_auditing := quiet_trail; o_fails _ := None; so_bytes n := "thirty-two random bytes, draw " +:+ pretty n;
     o_lower := lower; user_session_ttl_seconds := 0; webauthn_enforcement := mode;
     frontdesk_audit_warning_enabled := true; webauthn_installed := true; webauthn_rp_id := "mastio.local";
     webauthn_rp_name := "Cullis Mastio"; webauthn_expected_origin := ""; webauthn_challenge_ttl_seconds := 300 |}.

Definition start : sign_on_state :=
  {| so_trail := {| w_table := []; w_pending := []; w_unhealthy := false |}; so_audits := 0; so_statements := 0; so_draws := 0;
     so_limits := ∅; so_challenges := ∅;
     so_tables := {| users := []; user_sessions := []; user_webauthn_credentials := [] |} |}.

Definition plain_request (headers : list (string * string)) : http_request :=
  {| header name := dget name headers; rq_url := ""; rq_path := "/v1"; rq_scheme := "https"; rq_method := "POST" |}.

Definition connector : calling_agent := {| p_agent_id := "acme::laptop"; p_org := "acme" |}.
Definition at_noon : sign_on_times := {| t_mono := 5; t_seen := 1000000; t_now := 1000000; t_created := 1000000 |}.

(** Alice signs in at her Connector, with an assertion or without. *)
Definition alice (asserted : option (list (string * json))) : sign_on :=
  LocalLogin
    {| local_subject := "Alice"; b_display_name := None; b_device_cert_thumbprint := "aabbccddeeff00112233445566778899";
       b_user_signed_assertion := asserted; b_webauthn_challenge_b64url := Some "Y2hhbGxlbmdl" |}
    {| q_http := plain_request []; q_client := None |} connector "trace" at_noon.

Definition as_alice (token : string) : http_request :=
  plain_request [(SESSION_HEADER, token); (PRINCIPAL_HEADER, "acme::user::alice")].

End SignOnDemo.

Import SignOnDemo.
#[local] Existing Instance SignOnDemo.crypto.
#[local] Existing Instance SignOnDemo.package.

Lemma stamp_traced_witness :
  ∃ x id thumbprint e serialised credential row,
    x ∈ [alice None] ∧ login_binds (env "off") x thumbprint e ∧
    login_row (env "off") x id thumbprint e serialised credential = Some row ∧ "acme::user::alice" = s_principal_id row ∧
    2000000 < e.
Proof.
  set (token := encode (so_bytes (env "off") 0)).
  set (run := maybe_stamp_user_session (env "off") (as_alice token) "acme::laptop" None 2000000 0
                (serve_all (env "off") [alice None] start)).
  assert (fst run = Ret (Some "acme::user::alice")) as Hrun by (vm_compute; reflexivity).
  destruct (stamp_traced (env "off") [alice None] start (as_alice token) "acme::laptop" None 2000000 0
    "acme::user::alice" (snd run) eq_refl) as (x & id & thumbprint & e & ser & cred & row & Hx & Hb & Hrow & Hp & _ & _ & Hnow & _).
  { fold run. rewrite <- Hrun. apply surjective_pairing. }
  exists x, id, thumbprint, e, ser, cred, row. exact (conj Hx (conj Hb (conj Hrow (conj Hp Hnow)))).
Defined.

Lemma login_stamped_witness :
  ∃ a s', login (env "warn") (alice None) start = (Ret a, snd (login (env "warn") (alice None) start)) ∧
    maybe_stamp_user_session (env "warn") (as_alice (a_session_token a)) "acme::laptop" None 2000000 0
      (serve_all (env "warn") [alice None] (snd (login (env "warn") (alice None) start)))
    = (Ret (Some "acme::user::alice"), s').
Proof.
  set (a := {| a_user_id := "acme::user::alice"; a_session_token := encode (so_bytes (env "warn") 0);
               a_expires_at := 3601000000 |}).
  assert (login (env "warn") (alice None) start = (Ret a, snd (login (env "warn") (alice None) start))) as Hlogin.
  { transitivity (fst (login (env "warn") (alice None) start), snd (login (env "warn") (alice None) start));
      [apply surjective_pairing|]. apply (f_equal2 pair); [vm_compute; reflexivity|reflexivity]. }
  destruct (login_stamped (env "warn") (alice None) start a (snd (login (env "warn") (alice None) start)) [alice None]
    (as_alice (a_session_token a)) "acme::laptop" None 2000000 0) as [s' Hs'].
  - reflexivity.
  - intros n. discriminate.
  - vm_compute. discriminate.
  - exact Hlogin.
  - repeat constructor. intros [].
  - reflexivity.
  - reflexivity.
  - vm_compute. reflexivity.
  - vm_compute. reflexivity.
  - by left.
  - exists a, s'. split; [exact Hlogin|exact Hs'].
Defined.

Lemma required_mode_stamps_nobody_witness :
  let l := [RegisterStart "td.example/acme/user/alice" connector 0;
            RegisterFinish "td.example/acme/user/alice"
              {| f_challenge_b64url := encode (so_bytes (env "required") 0); f_credential := []; f_name := None |} connector 1 1;
            alice (Some [("rawId", JStr (encode (so_bytes (env "required") 0)))]); alice None] in
  length (user_webauthn_credentials (so_tables (serve_all (env "required") l start))) = 1%nat ∧
  ∀ token s', maybe_stamp_user_session (env "required") (as_alice token) "acme::laptop" None 2 2
    (serve_all (env "required") l start) ≠ (Ret (Some "acme::user::alice"), s').
Proof.
  cbv zeta. split; [vm_compute; reflexivity|]. intros token s'.
  apply required_mode_stamps_nobody; [reflexivity|reflexivity| |vm_compute; reflexivity]. repeat constructor.
Defined.
